(* ===== verification/_CoqProject ===== *)
-Q . S2P
Prelude.v
StringHelpers.v
Identifiers.v
Configuration.v
Whookie.v
ResourceURL.v
Key.v
DataObject.v
LdoBytes.v
DataPackers.v
ArrowObject.v
NntiBuffers.v
NntiCore.v
NntiMpi.v
MpiConnect.v
Allocators.v
NetNnti.v
KelpieTypes.v
LocalKVRow.v
LocalKV.v
Bootstrap.v
DirectoryInfo.v
DirectoryCache.v
DirManCore.v
DirManConfig.v
MpiSync.v
BackBurner.v
Message.v
OpBox.v
OpPing.v
KelpieOps.v
Pools.v
TracePlay.v
PoolFacade.v
DHTWorld.v
ResultCollector.v
ComputeRegistry.v
IomRegistry.v
KelpieCore.v
IomPosix.v
IomLevelDB.v
IomHDF5.v
