(* ===== verification/Prelude.v ===== *)
(** Faodel: data management services for HPC workflows.

    * The program

    Faodel is a set of C++ libraries that let the nodes of a parallel job exchange named data
    objects.  Its parts, bottom up, under src/src/:

    - faodel-common: strings, identifiers (node ids, buckets, resource URLs), the configuration,
      directory entries, and Bootstrap, which orders the components of a process and starts and
      stops them;
    - whookie: the web server of a node, by which nodes find each other and show their state;
    - lunasa: reference-counted data objects over an allocator, and the packing of data in them;
    - nnti: transports that move messages and memory between nodes;
    - opbox: state machines ("ops") that send messages between nodes;
    - dirman: a directory service that maps resource URLs to their members;
    - kelpie: a distributed key/value store whose rows live in a table on each node (LocalKV),
      which requests reach directly or through ops and pools.

    A pool request names a key; the pool's URL is looked up in dirman and gives the nodes; the
    op at the chosen node calls a request of its LocalKV, which stores or finds a lunasa object,
    wakes the ops and callbacks waiting for the key, and may go to an I/O module (IOM) to load or
    store the object.

    * The files

    - Prelude (this file): byte strings, the [outcome] of fallible code, machine integers, the
      order of [std::string], ordered maps, printing and reading of numbers.
    - StringHelpers: StringHelpers.cpp (classes, punycode, Split/Join, number parsing, hashes,
      ExtractIDs).
    - Identifiers: [Bucket] (Bucket.cpp, Bucket.hh), [NodeID] (NodeID.cpp, NodeID.hh).
    - Configuration: Configuration.cpp (parsing, settings by role, typed values, files and
      references) and the choice of a mutex in MutexWrapper.cpp (module [Mutex]).
    - Whookie: whookie/server/boost (module [Parser]: the request parser; handler, hooks, replies,
      connections, start and stop) and whookie/client/Client.cpp.
    - ResourceURL: ResourceURL.cpp: parser, printer, path and option operations.
    - Key: kelpie/Key.cpp.  KelpieTypes: kelpie/common (Availability, PoolBehavior,
      ObjectCapacities).
    - DataObject: lunasa/DataObject.cpp, Allocation.hh: the heap of reference-counted
      allocations and the handles that point into it.  LdoBytes: the bytes of an object: header,
      files, deep copy and comparison, wiping.  Allocators: lunasa/allocators, lunasa/core: the
      allocators, the core above them, its life cycle and pin functions, RDMA handles.
      DataPackers: lunasa/common: the packer of named variables, bundles of items, the types.
      ArrowObject: faodel-arrow: objects that hold tables of the Arrow library, one chunk behind
      the other.
    - NntiBuffers: nnti_buffer.hpp, nnti_eq.hpp, nnti_freelist.hpp: buffers as rings, event queues
      and waiting on them.  NntiCore: nnti_vector.hpp, nnti_connection.hpp, nnti_op.hpp,
      nnti_wid.cpp, nnti_url.cpp, nnti_pid.cpp, transport_factory.cpp (a module each).  NntiMpi:
      transports/mpi: outstanding requests, command messages, the operations at both ends.
      MpiConnect: connecting and disconnecting in that transport, through the web servers of
      the nodes, with the connections and peers as objects on the heap.
    - NetNnti: opbox/net/nnti/NetNnti.cpp: the network module of opbox over a transport: windows
      into the memory of objects, messages, gets, puts and atomic operations with their callbacks,
      the table of peers, attributes, start and finish.
    - LocalKVRow, LocalKV: kelpie/localkv.  A cell has the object and its waiters; a row its
      columns; the table its rows.  [doColOp], [doRowOp] and the requests take the table and give
      the table, the events (ops triggered, callbacks queued, IOM accesses) and the result.
    - Bootstrap: BootstrapImplementation.cpp: [sortDependencies] and the life cycle.
    - DirectoryInfo, DirectoryCache, DirManCore: directory entries, the caches of a node, and
      the two managers (modules [Static] and [Centralized]).  DirManConfig: how the managers come
      up (dirman/core/DirManCoreBase.cpp, the constructors, Singleton.cpp): the resources of a
      configuration, the search for the root node, the life cycle.  MpiSync: mpisyncstart/
      MPISyncStart.cpp: the ranks of an MPI job agree on a root and on the members of resources,
      as programs whose collective calls meet ([run], [job]).
    - BackBurner: faodel-services/BackBurner.cpp: a worker with its two queues and counters,
      whose thread and whose clients take turns ([wstep]), and the service above the workers.
    - Message: opbox/common/Message.cpp, MessageHelpers.cpp and kelpie/ops/direct/msg_direct.cpp:
      headers, string messages, and the messages of the kelpie ops (module [DirectFlags]).
    - OpBox: opbox/core/OpBoxCoreThreaded.cpp and opbox/common/OpRegistry.cpp (module
      [OpRegistry]): ops on a heap whose addresses are reused, their mailboxes, the queued work.
    - OpPing: opbox/ops: the ping and count ops that come with OpBox.
    - KelpieOps: kelpie/ops/direct: the state machines of the seven ops, origin and target, in a
      monad over the node's store, its I/O modules and the list of effects (messages, transfers,
      callbacks) of an update.
    - Pools: kelpie/pools: the pools and what each of their calls does on the calling node and
      which op it launches; the registry of pools.
    - DHTWorld: the nodes of a distributed pool together: stores, active ops, messages and
      transfers in flight, in every order ([step]); [acts] runs it.
    - ResultCollector: kelpie/pools/ResultCollector.cpp, threads interleaved.  ComputeRegistry:
      kelpie/common/ComputeRegistry.cpp.  IomRegistry: kelpie/ioms/IomRegistry.cpp, IomBase.cpp.
    - TracePlay: kelpie/pools/TracePool, which logs the calls on a pool, and the tool that plays such
      logs: its parser and the calls it makes (src/tools/faodel-cli: play.cpp, PlayAction.cpp,
      KelpieClientAction.cpp, kelpie_client.cpp).
    - PoolFacade: kelpie/pools/Pool.cpp: the handles of pools and their blocking calls, which wait
      for the callback of a call.  KelpieCore: kelpie/core: the cores, their life cycle and the
      joining of servers.
    - IomPosix, IomLevelDB, IomHDF5: the storage drivers of kelpie/ioms, each over a class that
      says what its library promises ([PosixFS], [LevelDB], [HDF5]), with a concrete instance.

    * What the theorems show

    - LocalKV: an object that was put is what a get returns, in whichever order they come: a get
      that finds nothing waits, and the op (if it is the only one) and the callbacks waiting on the
      key are woken, once, by the put that fills it; along every sequence of requests that fill cells by put, no waiter is
      left behind on a filled cell; a request touches only its own row; an existing key is
      refused or replaced as the behaviour flags say; drop and list select exactly the keys their
      wildcards match; rows left empty are removed.
    - Storage: the driver with one file per object implements a map from buckets and keys to
      objects; the LevelDB driver reads back what it wrote, for keys whose texts differ; the HDF5
      driver does for data sections of less than 64 KB under new keys, and overflows for larger
      ones.
    - Bootstrap: the start order lists each component once and after everything it depends on,
      and the sort fails exactly on missing or cyclic dependencies; a complete cycle runs the
      hooks in order and their reverse, when none of them throws and halting on shutdown is off; the
      state and the user count stay consistent.
    - Directories: linking the parents of an entry makes every ancestor known with its child;
      removal takes an entry and everything below it out, unlinks it from its parent and leaves the
      rest; what one node hosts every node finds; of the resources in a
      configuration the last of a path counts, a root serves those that need no members, and a
      node finds the root that left its id in a file; in an MPI job, all ranks that start agree on
      the root and on the members of a resource.
    - Data objects: every live handle points to an allocation whose count is the number of
      handles on it, an allocation is freed exactly when the last handle goes, and sizes that do
      not wrap fit the allocated memory.  The same holds for the process as a whole, with its
      allocators, however Lunasa is started and stopped.  Objects read back from files, copies
      equal their sources, packed variables are found by name with their bytes, and Arrow tables
      under their numbers, but an object without room for a chunk header is overrun.
    - NNTI: a message sent to a ring with room is what the receiver reads at the place its event
      names, and no later message overwrites it; waiting on queues gives the events in order; the
      tables of requests and handles are finite maps; fetch-and-adds are atomic; a connect leaves
      both nodes with a connection to each other ([handshake]), and no freed connection is used
      ([connections_safe]).  Over it, the network module hands a short message to the receive
      callback of its destination, and a get of an object that was never resized brings back its
      header and sections.  Where the code leaves these conditions (a full ring, a full queue, a late
      notification, a resized object) it is shown what happens.
    - Web: what a client asks of a page is what the hook is given, and the page comes back, cut
      into whatever pieces; configuration lines are split into their words, settings are found.
    - Distributed pools: whatever the interleaving, an object that a want is handed, or that a
      store holds, was published under that very key ([dht_integrity]); this is where the store,
      the ops, the messages, OpBox and the pools come together, and it is proved by an invariant
      that says of each op, message and buffer in flight which cell it is for.
    - Ops: a publish of an object that is not empty to another node is, without storage, a put there;
      a get returns what the other node has, or waits for the put that brings it; a drop to several nodes calls back once.  A ping comes
      back with the text that was sent; a blocking call returns when its callback has been called.
    - OpBox: the ops in memory are the active ones, and neither queued work nor a callback of the
      network touches one that has ended, when no op ends while one of its requests is unanswered
      ([Disciplined]; [no_wait_dangles] shows what happens otherwise); the registry with its two
      lists is one table.  Backburner: queued work is all done, and in order under one tag.
      Messages read back as written.
    - Pools and registries: all nodes agree on the home of a row; connections to one URL share a
      pool; a module or function that is registered is the one that is found; results of
      concurrent requests each get a slot, and [Sync] of at least one returns when they are all
      there; the log of a trace pool, played, makes the calls that it can express again; a started
      kelpie core has its store, its ops and its pools registered.
    - Text forms: URLs, node ids, buckets, keys, punycode and numbers read back as printed, under
      the conditions the formats need.
    - Some theorems state a behaviour that is likely not meant (the null argument of all but one
      woken op, buckets that share rows, an Init that cannot be repeated after a failure, ...).

    * Conventions and bounds

    C++ strings are lists of bytes, unordered and ordered maps are [gmap]s (iterated through
    [entries], in key order, where the code iterates an ordered map), integers are [Z] with their
    wrap-around written out, and code that can throw or assert returns an [outcome].  Each
    request runs as one atomic step: the code holds the table or row mutex for what it reads and
    writes, and interleavings inside a request are not modelled; neither are those inside one
    update of an op, which runs on one worker of the backburner.  The time of day is the
    argument [now].  The IOM and the contents of data objects are the classes [IomBase] and
    [LdoOps], the transfers of the network the class [Rdma] (an object that is allocated has its
    size, and a transfer between objects of one size copies the object), what storage gives back
    the classes [IomLaws] and [IomStorage], the collective calls of MPI the class [Collectives],
    the Arrow library the classes [Arrow] and [ArrowLaws], each with an instance for the witnesses.  The
    environment of the configuration (getenv, wordexp, files), the pages of the built-in web hooks,
    the ports that can be bound, the pin functions, the resolver and [lexical_cast] of NNTI and
    the bytes that fresh memory holds are arguments of the definitions that use them.

    [dht_integrity] is about applications that use one pool through publish, want and drop, with
    keys whose labels fit the 16-bit lengths of a message and, for wants that announce a size,
    objects of that size; transfers and messages may be delayed and reordered for ever, and a
    node that halts takes no further step.  [dht_integrity] and [opbox_memory_safe] are about nodes
    that hand out fewer than 2^32 - 1 mailboxes (the counter wraps, and a mailbox that comes round
    would replace an op), [worker_drains] about fewer than 2^32 tasks, [full_cycle] about fewer than
    2^31 - 1 users, [ldo_memory_safe] and [lunasa_memory_safe] about at most 2^31 - 1 handles and
    objects that fit in 32 bits with their bookkeeping: the widths of the counters and sizes.

    Loops that are not structural have fuel.  [parse_loop] consumes a character at each turn and
    gets the length of the input ([parse_loop_total]); the closure of [sortDependencies] adds
    an edge at each turn and gets one more than the square of the number of components
    ([close_spec]); [generate_name] tries one name more than there are members
    ([generate_name_none]); [link_parents] goes up a level at each turn and gets the depth of the
    path plus two ([link_parents_spec]); [remove_loop] takes a member out of the cache at each
    turn and gets one more than there are members ([remove_loop_spec]); [vector_loop] finds a
    setting at each turn but the last and gets one more than there are settings; the client skips
    the headers of a reply with one turn more than it has characters; the storage driver
    tries a directory five times, as the code does.  The search of the web server for
    a port it can bind has its number of turns as an argument, since the code goes on for ever where
    no port is free, and the theorems hold for each number.  So fuel never decides a
    result, except for [tokenizeLine], where running out of it, with two more turns than there are
    characters, is shown to be the case in which the code never ends ([tokenizeLine_spec]).

    * Not modelled

    The Infiniband and uGNI transports of nnti and the libfabric network of opbox (drivers of
    hardware libraries), the C interface of nnti and its serialization (forwarding, third-party
    libraries), zero-copy sends over MPI, which depend on requests of the MPI library that stay
    open; the Cassandra driver (statements in a query language of a server); the tcmalloc
    allocator (a third-party library); logging, HTML pages and wrappers of pthreads; the commands of
    the command line tools other than the kelpie commands and play scripts.  The deprecated opbox core.  In
    [DHTWorld], listings, information and compute requests, which do not put objects in stores. *)
From Stdlib Require Export ZArith Lia Ascii.
From stdpp Require Export base tactics strings list gmap sorting.

#[global] Set Default Goal Selector "!".

(** The hints of the development: well-formedness of rows and caches, machine-integer
    bounds, and what does not change under an update. *)
Create HintDb faodel.

(** * Character strings

    A C++ [std::string] is a sequence of bytes; the model keeps it as a list of
    [ascii], so that every byte value (the NUL byte included) is a legal
    element and the list lemmas of stdpp apply directly. *)

Abbreviation str := (list ascii).
Abbreviation lit s := (Stdlib.Strings.String.list_ascii_of_string s%string).

Declare Scope faodel_scope.
Delimit Scope faodel_scope with faodel.
Open Scope faodel_scope.

Notation "a =s? b" := (bool_decide (@eq (list ascii) a b))
  (at level 70, no associativity) : faodel_scope.
Notation "a =c? b" := (bool_decide (@eq ascii a b))
  (at level 70, no associativity) : faodel_scope.

(** The unsigned code of a character (0 to 255). *)
Definition code (c : ascii) : Z := Z.of_N (N_of_ascii c).

(** The value of a [char] read as an [int]: plain [char] is signed on the
    x86-64 ABI the library is built for. *)
Definition schar (c : ascii) : Z :=
  if (code c <? 128)%Z then code c else (code c - 256)%Z.

Definition char_of (z : Z) : ascii := ascii_of_N (Z.to_N z).

Lemma code_bounds c : (0 ≤ code c < 256)%Z.
Proof.
  unfold code. pose proof (N_ascii_bounded c). lia.
Qed.

Lemma char_of_code c : char_of (code c) = c.
Proof. unfold char_of, code. rewrite N2Z.id. apply ascii_N_embedding. Qed.

Lemma code_char_of z : (0 ≤ z < 256)%Z → code (char_of z) = z.
Proof.
  intros Hz. unfold char_of, code. rewrite N_ascii_embedding; lia.
Qed.

#[global] Instance code_inj : Inj (=) (=) code.
Proof. intros a b Hab. rewrite <-(char_of_code a), <-(char_of_code b). by f_equal. Qed.

(** A property of a single byte, proved by running through the 256 values. *)
Definition forall_char (P : ascii → bool) : bool :=
  forallb (λ n, P (ascii_of_nat n)) (seq 0 256).

Lemma forall_char_spec P c : forall_char P = true → P c = true.
Proof.
  unfold forall_char. rewrite forallb_forall. intros H.
  rewrite <-(ascii_nat_embedding c). apply H.
  apply in_seq. pose proof (nat_ascii_bounded c). lia.
Qed.

Ltac by_chars c P :=
  pattern c; apply (forall_char_spec (fun c => P c) c); vm_compute; reflexivity.

(** * Fallible code

    [outcome] is the result of code that may throw.  [AssertFailed] is a failed
    [F_ASSERT] (an [assert] in the default build) and [Undefined] marks a path on
    which the C++ program reads an indeterminate value or runs off a buffer; [Halt] is [F_HALT],
    which stops the calling thread for good, and [Exit] ends the process. *)

Inductive exn :=
| AssertFailed
| InvalidArgument
| RuntimeError
| OutOfRange
| ParseError
| Undefined
| Halt
| Exit
| FuelExhausted.

#[global] Instance exn_eq_dec : EqDecision exn.
Proof. solve_decision. Defined.

Inductive outcome (A : Type) : Type :=
| Ok (a : A)
| Throw (e : exn).
Arguments Ok {A} a.
Arguments Throw {A} e.

#[global] Instance outcome_ret : MRet outcome := @Ok.
#[global] Instance outcome_bind : MBind outcome := λ A B f m,
  match m with Ok a => f a | Throw e => Throw e end.
#[global] Instance outcome_fmap : FMap outcome := λ A B f m,
  match m with Ok a => Ok (f a) | Throw e => Throw e end.

#[global] Instance outcome_eq_dec `{EqDecision A} : EqDecision (outcome A).
Proof. solve_decision. Defined.

(** A loop with fuel as an outcome; the fuel of every loop of the development is shown to be
    enough. *)
Definition fuelled {A} (x : option (outcome A)) : outcome A :=
  match x with Some o => o | None => Throw FuelExhausted end.

Definition F_ASSERT (b : bool) : outcome () := if b then Ok () else Throw AssertFailed.

Lemma bind_Ok {A B} (m : outcome A) (f : A → outcome B) b :
  m ≫= f = Ok b ↔ ∃ a, m = Ok a ∧ f a = Ok b.
Proof. destruct m; simpl; naive_solver. Qed.

Lemma F_ASSERT_Ok b u : F_ASSERT b = Ok u → b = true.
Proof. destruct b; naive_solver. Qed.

(** Run through the binds of a successful computation. *)
Ltac unbind :=
  repeat match goal with
  | H : mbind _ _ = Ok _ |- _ => apply bind_Ok in H; destruct H as (? & ? & ?)
  | H : F_ASSERT _ = Ok _ |- _ => apply F_ASSERT_Ok in H
  | H : Ok _ = Ok _ |- _ => injection H as H
  | H : Throw _ = Ok _ |- _ => discriminate H
  end.

(** * Machine integers *)

Definition wrap (bits z : Z) : Z := (z mod 2 ^ bits)%Z.
Abbreviation u16 := (wrap 16).
Abbreviation u32 := (wrap 32).
Abbreviation u64 := (wrap 64).

Definition in_width (bits z : Z) : Prop := (0 ≤ z < 2 ^ bits)%Z.

Lemma wrap_in_width bits z : (0 ≤ bits)%Z → in_width bits (wrap bits z).
Proof. intros. apply Z.mod_pos_bound. by apply Z.pow_pos_nonneg. Qed.

Lemma wrap_id bits z : in_width bits z → wrap bits z = z.
Proof. apply Z.mod_small. Qed.

Lemma wrap_idemp bits z : wrap bits (wrap bits z) = wrap bits z.
Proof. apply Zmod_mod. Qed.

Lemma wrap_narrow b1 b2 z : (0 ≤ b1 ≤ b2)%Z → wrap b1 (wrap b2 z) = wrap b1 z.
Proof.
  intros. unfold wrap. apply Z.mod_mod_divide.
  exists (2 ^ (b2 - b1))%Z. rewrite <-Z.pow_add_r by lia. f_equal; lia.
Qed.

(** A 32-bit [int]: the largest one, and the value a conversion gives or an atomic one takes, in
    two's complement. *)
Definition INT_MAX : Z := 2147483647.
Definition s32 (z : Z) : Z := let w := u32 z in if (w <? 2 ^ 31)%Z then w else (w - 2 ^ 32)%Z.

Lemma s32_id z : (- 2 ^ 31 ≤ z ≤ INT_MAX)%Z → s32 z = z.
Proof.
  unfold INT_MAX. intros Hz. unfold s32, wrap. destruct (Z.ltb_spec z 0).
  - assert (z mod 2 ^ 32 = z + 2 ^ 32)%Z as -> by (symmetry; apply (Z.mod_unique_pos _ _ (-1)); lia).
    destruct (Z.ltb_spec (z + 2 ^ 32) (2 ^ 31)); lia.
  - rewrite Z.mod_small by lia. destruct (Z.ltb_spec z (2 ^ 31)); lia.
Qed.

#[export] Hint Resolve code_bounds wrap_in_width : faodel.
#[export] Hint Rewrite wrap_idemp : faodel.

(** Remove the wrap-arounds that arithmetic shows to do nothing, inside out. *)
Ltac unwrap :=
  repeat match goal with
  | |- context [wrap ?b ?z] => rewrite (wrap_id b z) by (unfold in_width; lia)
  end.

(** * The order of [std::string]

    [operator<] on [std::string] compares the bytes as unsigned values and puts a
    proper prefix before its extensions. *)

Fixpoint str_compare (a b : str) : comparison :=
  match a, b with
  | [], [] => Eq
  | [], _ :: _ => Lt
  | _ :: _, [] => Gt
  | x :: a', y :: b' =>
      match (code x ?= code y)%Z with Eq => str_compare a' b' | c => c end
  end.

Definition str_ltb (a b : str) : bool :=
  match str_compare a b with Lt => true | _ => false end.

Definition str_le (a b : str) : Prop := str_compare a b ≠ Gt.

Lemma str_compare_eq a b : str_compare a b = Eq ↔ a = b.
Proof.
  revert b; induction a as [|x a IH]; intros [|y b]; simpl; try done.
  destruct (Z.compare_spec (code x) (code y)) as [H|H|H].
  - apply (inj code) in H as ->. rewrite IH. naive_solver.
  - split; [done|]. intros [= -> _]. lia.
  - split; [done|]. intros [= -> _]. lia.
Qed.

Lemma str_compare_refl a : str_compare a a = Eq.
Proof. by apply str_compare_eq. Qed.

Lemma str_compare_antisym a b : str_compare b a = CompOpp (str_compare a b).
Proof.
  revert b; induction a as [|x a IH]; intros [|y b]; simpl; try done.
  rewrite (Z.compare_antisym (code x)). destruct (Z.compare_spec (code x) (code y)); simpl; auto.
Qed.

Lemma str_compare_le_trans a b c :
  str_compare a b ≠ Gt → str_compare b c ≠ Gt → str_compare a c ≠ Gt.
Proof.
  revert b c; induction a as [|x a IH]; intros [|y b] [|z c]; simpl; try done.
  destruct (Z.compare_spec (code x) (code y)), (Z.compare_spec (code y) (code z)),
    (Z.compare_spec (code x) (code z)); try done; try lia; eauto.
Qed.

#[global] Instance str_le_dec : RelDecision str_le.
Proof. intros a b. unfold str_le. apply _. Defined.
#[global] Instance str_le_refl : Reflexive str_le.
Proof. intros a. unfold str_le. by rewrite str_compare_refl. Qed.
#[global] Instance str_le_trans : Transitive str_le.
Proof. intros a b c. apply str_compare_le_trans. Qed.
#[global] Instance str_le_antisym : AntiSymm (=) str_le.
Proof.
  intros a b. unfold str_le. rewrite (str_compare_antisym a b). intros.
  apply str_compare_eq. by destruct (str_compare a b).
Qed.
#[global] Instance str_le_total : Total str_le.
Proof.
  intros a b. unfold str_le. rewrite (str_compare_antisym a b).
  destruct (str_compare a b); naive_solver.
Qed.

Lemma str_ltb_false a b : str_ltb a b = false ↔ str_le b a.
Proof.
  unfold str_ltb, str_le. rewrite (str_compare_antisym a b).
  by destruct (str_compare a b).
Qed.

Lemma str_le_prefix p s : p `prefix_of` s → str_le p s.
Proof.
  intros [t ->]. induction p as [|x p IH]; simpl.
  - unfold str_le. by destruct t.
  - unfold str_le in *. simpl. by rewrite Z.compare_refl.
Qed.

(** * Lists *)

Fixpoint drop_while {A} (p : A → bool) (l : list A) : list A :=
  match l with
  | [] => []
  | x :: l' => if p x then drop_while p l' else l
  end.

(** The part of [l] before the first element that satisfies [p], that element, and what
    follows it: the pieces [find_first_of] delimits. *)
Fixpoint break_at {A} (p : A → bool) (l : list A) : list A * option (A * list A) :=
  match l with
  | [] => ([], None)
  | x :: l' =>
      if p x then ([], Some (x, l'))
      else let '(a, r) := break_at p l' in (x :: a, r)
  end.

Lemma break_at_app {A} (p : A → bool) l x r :
  Forall (λ y, p y = false) l → p x = true →
  break_at p (l ++ x :: r) = (l, Some (x, r)).
Proof.
  intros Hl Hx. induction Hl as [|y l Hy Hl IH]; simpl; [by rewrite Hx|].
  by rewrite Hy, IH.
Qed.

Lemma break_at_none {A} (p : A → bool) l :
  Forall (λ y, p y = false) l → break_at p l = (l, None).
Proof. induction 1 as [|y l Hy Hl IH]; simpl; [done|]. by rewrite Hy, IH. Qed.

Lemma break_at_length {A} (p : A → bool) l a x r :
  break_at p l = (a, Some (x, r)) → length l = S (length a + length r).
Proof.
  revert a; induction l as [|y l IH]; intros a; simpl; [done|].
  destruct (p y); [naive_solver|].
  destruct (break_at p l) as [b o] eqn:E. intros [= <- ->]. simpl. f_equal. by apply IH.
Qed.

(** * Ordered maps

    A [std::map<std::string, V>] is a [gmap]; [entries] is its iteration order and
    [lower_bound] the suffix of it an iteration from [m.lower_bound(p)] visits. *)

Definition entry_le {V} (x y : str * V) : Prop := str_le x.1 y.1.

#[global] Instance entry_le_dec {V} : RelDecision (@entry_le V).
Proof. intros x y. unfold entry_le. apply _. Defined.
#[global] Instance entry_le_trans {V} : Transitive (@entry_le V).
Proof. intros x y z. unfold entry_le. apply transitivity. Qed.
#[global] Instance entry_le_total {V} : Total (@entry_le V).
Proof. intros x y. unfold entry_le. apply total, _. Qed.

Definition entries {V} (m : gmap str V) : list (str * V) :=
  merge_sort entry_le (map_to_list m).

Fixpoint lower_bound {V} (p : str) (l : list (str * V)) : list (str * V) :=
  match l with
  | [] => []
  | kv :: l' => if str_ltb kv.1 p then lower_bound p l' else l
  end.

Section entries.
Context {V : Type}.
Implicit Types (m : gmap str V) (l : list (str * V)) (p k : str).

Lemma entries_perm m : entries m ≡ₚ map_to_list m.
Proof. apply merge_sort_Permutation. Qed.

Lemma entries_sorted m : StronglySorted entry_le (entries m).
Proof. apply StronglySorted_merge_sort; apply _. Qed.

Lemma elem_of_entries m k v : (k, v) ∈ entries m ↔ m !! k = Some v.
Proof. rewrite entries_perm. apply elem_of_map_to_list. Qed.

Lemma NoDup_entries_fst m : NoDup (entries m).*1.
Proof. rewrite entries_perm. apply NoDup_fst_map_to_list. Qed.

Lemma entries_nil m : entries m = [] ↔ m = ∅.
Proof.
  rewrite <-map_to_list_empty_iff. pose proof (entries_perm m) as Hp. split.
  - intros He. rewrite He in Hp. by apply Permutation_nil_l in Hp.
  - intros He. rewrite He in Hp. by apply Permutation_nil_r in Hp.
Qed.

Lemma length_entries m : length (entries m) = size m.
Proof. by rewrite entries_perm, length_map_to_list. Qed.

Lemma elem_of_lower_bound p l kv :
  StronglySorted entry_le l → kv ∈ lower_bound p l ↔ kv ∈ l ∧ str_le p kv.1.
Proof.
  induction 1 as [|x l Hs IH Hall]; simpl.
  { set_solver. }
  destruct (str_ltb x.1 p) eqn:E.
  - rewrite IH. rewrite elem_of_cons. split; [naive_solver|].
    intros [[->|?] Hle]; [|done].
    apply str_ltb_false in Hle. congruence.
  - apply str_ltb_false in E. split; [|naive_solver].
    intros Hin. split; [done|]. apply elem_of_cons in Hin as [->|Hin]; [done|].
    rewrite Forall_forall in Hall. etrans; [done|]. by apply Hall.
Qed.

(** Starting an iteration at [lower_bound p] misses no key that has prefix [p]. *)
Lemma elem_of_lower_bound_prefix p m k v :
  (k, v) ∈ lower_bound p (entries m) ∧ p `prefix_of` k ↔ m !! k = Some v ∧ p `prefix_of` k.
Proof.
  rewrite (elem_of_lower_bound _ _ _ (entries_sorted m)), elem_of_entries. simpl.
  pose proof (str_le_prefix p k). naive_solver.
Qed.

Lemma lower_bound_sublist p l : lower_bound p l `sublist_of` l.
Proof.
  induction l as [|x l IH]; simpl; [done|].
  destruct (str_ltb x.1 p); [by apply sublist_cons|done].
Qed.
End entries.

(** * Numbers as text

    [show_base] is what [operator<<] prints for an unsigned value under [std::dec]
    (base 10) or [std::hex] (base 16); [read_digits] is the digit loop of [strtoul] and
    of [operator>>].  The fuel of [show_go] bounds the number of digits: a division by
    a base of at least 2 removes at least one bit, so [S (log2 n)] steps suffice. *)

Definition digit_char (d : Z) : ascii :=
  if (d <? 10)%Z then char_of (48 + d) else char_of (87 + d).

Definition digit_val (c : ascii) : option Z :=
  let n := code c in
  if ((48 <=? n) && (n <=? 57))%Z then Some (n - 48)%Z
  else if ((97 <=? n) && (n <=? 102))%Z then Some (n - 87)%Z
  else if ((65 <=? n) && (n <=? 70))%Z then Some (n - 55)%Z
  else None.

Definition is_digit_of (base : Z) (c : ascii) : bool :=
  match digit_val c with Some d => (d <? base)%Z | None => false end.

Fixpoint show_go (fuel : nat) (base n : Z) : str :=
  match fuel with
  | O => []
  | S fuel =>
      if (n <? base)%Z then [digit_char n]
      else show_go fuel base (n / base) ++ [digit_char (n mod base)]
  end.

Definition show_base (base n : Z) : str := show_go (S (Z.to_nat (Z.log2 n))) base n.
Abbreviation show_dec := (show_base 10).
Abbreviation show_hex := (show_base 16).

Fixpoint read_digits (base acc : Z) (s : str) : Z * str :=
  match s with
  | [] => (acc, [])
  | c :: s' =>
      match digit_val c with
      | Some d => if (d <? base)%Z then read_digits base (acc * base + d) s' else (acc, s)
      | None => (acc, s)
      end
  end.

(** The rest of the input does not extend a number in the given base. *)
Definition no_digit (base : Z) (s : str) : Prop :=
  match s with [] => True | c :: _ => is_digit_of base c = false end.

Lemma digit_val_char d : (0 ≤ d < 16)%Z → digit_val (digit_char d) = Some d.
Proof.
  intros Hd. unfold digit_char, digit_val.
  destruct (Z.ltb_spec d 10).
  - rewrite code_char_of by lia. repeat case_match; try f_equal; lia.
  - rewrite code_char_of by lia. repeat case_match; try f_equal; lia.
Qed.

Section show_base.
Context (base : Z) (Hbase : (2 ≤ base ≤ 16)%Z).

Lemma show_go_digits fuel n c :
  (0 ≤ n)%Z → c ∈ show_go fuel base n → ∃ d, (0 ≤ d < base)%Z ∧ c = digit_char d.
Proof.
  revert n; induction fuel as [|fuel IH]; intros n Hn; simpl; [set_solver|].
  destruct (Z.ltb_spec n base).
  - intros ->%list_elem_of_singleton. exists n. split; [lia|done].
  - intros [Hc| ->%list_elem_of_singleton]%elem_of_app.
    + apply (IH (n / base)%Z); [|done]. apply Z.div_pos; lia.
    + exists (n mod base)%Z. split; [|done]. apply Z.mod_pos_bound. lia.
Qed.

Lemma read_digits_snoc acc s d :
  (0 ≤ d < base)%Z → Forall (λ c, is_digit_of base c = true) s →
  (read_digits base acc (s ++ [digit_char d])).1
    = ((read_digits base acc s).1 * base + d)%Z.
Proof.
  intros Hd Hs. revert acc. induction Hs as [|c s Hc Hs IH]; intros acc; simpl.
  - rewrite digit_val_char by lia. destruct (Z.ltb_spec d base); [done|lia].
  - unfold is_digit_of in Hc. destruct (digit_val c) as [e|]; [|done].
    rewrite Hc. apply IH.
Qed.

Lemma read_digits_app acc s t :
  Forall (λ c, is_digit_of base c = true) s → no_digit base t →
  read_digits base acc (s ++ t) = ((read_digits base acc s).1, t).
Proof.
  intros Hs Ht. revert acc. induction Hs as [|c s Hc Hs IH]; intros acc; simpl.
  - destruct t as [|c t]; simpl; [done|]. simpl in Ht. unfold is_digit_of in Ht.
    destruct (digit_val c); [|done]. by rewrite Ht.
  - unfold is_digit_of in Hc. destruct (digit_val c) as [e|]; [|done].
    rewrite Hc. apply IH.
Qed.

Lemma is_digit_of_char d : (0 ≤ d < base)%Z → is_digit_of base (digit_char d) = true.
Proof. intros. unfold is_digit_of. rewrite digit_val_char by lia. lia. Qed.

Lemma show_go_all_digits fuel n :
  (0 ≤ n)%Z → Forall (λ c, is_digit_of base c = true) (show_go fuel base n).
Proof.
  intros Hn. apply Forall_forall. intros c Hc.
  destruct (show_go_digits fuel n c Hn Hc) as (d & Hd & ->). by apply is_digit_of_char.
Qed.

Lemma read_show_go fuel n :
  (0 ≤ n)%Z → (Z.to_nat (Z.log2 n) < fuel)%nat →
  (read_digits base 0 (show_go fuel base n)).1 = n.
Proof.
  revert n; induction fuel as [|fuel IH]; intros n Hn Hf; [lia|]. simpl.
  destruct (Z.ltb_spec n base) as [Hlt|Hge].
  - pose proof (read_digits_snoc 0 [] n) as Hs. simpl in Hs |- *.
    rewrite Hs by (try constructor; lia). lia.
  - assert (Hq : (0 ≤ n / base)%Z) by (apply Z.div_pos; lia).
    rewrite read_digits_snoc; [|apply Z.mod_pos_bound; lia|by apply show_go_all_digits].
    rewrite IH; [|done|].
    + pose proof (Z.div_mod n base). lia.
    + enough (Z.log2 (n / base) < Z.log2 n)%Z
        by (pose proof (Z.log2_nonneg (n / base)%Z); lia).
      destruct (decide (n / base = 0)%Z) as [->|Hq0].
      { change (Z.log2 0) with 0%Z. apply Z.log2_pos. lia. }
      apply Z.lt_le_trans with (Z.log2 (2 * (n / base)))%Z.
      * rewrite Z.log2_double by lia. lia.
      * apply Z.log2_le_mono. pose proof (Z.mul_div_le n base). nia.
Qed.

(** Printing and reading back a number, whatever non-digit text follows. *)
Lemma read_show_base n t :
  (0 ≤ n)%Z → no_digit base t → read_digits base 0 (show_base base n ++ t) = (n, t).
Proof.
  intros Hn Ht. unfold show_base. rewrite read_digits_app; [|by apply show_go_all_digits|done].
  f_equal. apply read_show_go; lia.
Qed.

Lemma show_base_nonempty n : show_base base n ≠ [].
Proof. unfold show_base. simpl. case_match; [done|]. by destruct (show_go _ _ _). Qed.

Lemma show_base_inj n1 n2 :
  (0 ≤ n1)%Z → (0 ≤ n2)%Z → show_base base n1 = show_base base n2 → n1 = n2.
Proof.
  intros H1 H2 He. pose proof (read_show_base n1 [] H1 I) as R1.
  rewrite He, (read_show_base n2 [] H2 I) in R1. by inversion R1.
Qed.
End show_base.
