(* ===== verification/StringHelpers.v ===== *)
(** The string library of [src/src/faodel-common/StringHelpers.cpp]: character
    classes, punycode, splitting and joining, number parsing, prefix and suffix
    tests, hashing, and the node-range parser.  Every function is total; the C
    library calls it makes ([strtol], [strtoul], [atoi], [tolower], the [is*]
    classes in the C locale) are part of the language and are written out. *)
From S2P Require Import Prelude.

(** * The C character classes, in the C locale *)

Definition in_range (lo hi : Z) (c : ascii) : bool := ((lo <=? code c) && (code c <=? hi))%Z.
Definition isdigit (c : ascii) : bool := in_range 48 57 c.
Definition islower (c : ascii) : bool := in_range 97 122 c.
Definition isupper (c : ascii) : bool := in_range 65 90 c.
Definition isalnum (c : ascii) : bool := isdigit c || islower c || isupper c.
Definition isxdigit (c : ascii) : bool := isdigit c || in_range 97 102 c || in_range 65 70 c.
Definition isspace (c : ascii) : bool := in_range 9 13 c || (code c =? 32)%Z.
Definition isprint (c : ascii) : bool := in_range 32 126 c.
Definition tolower (c : ascii) : ascii := if isupper c then char_of (code c + 32) else c.

Definition nul : ascii := "000"%char.

(** The C string a [std::string] presents through [c_str()]: up to the first NUL. *)
Fixpoint c_str (s : str) : str :=
  match s with
  | [] => []
  | c :: s' => if c =c? nul then [] else c :: c_str s'
  end.

Definition EINVAL : Z := 22.
Definition ULONG_MAX : Z := 2 ^ 64 - 1.
Definition LONG_MAX : Z := 2 ^ 63 - 1.
Definition LONG_MIN : Z := - 2 ^ 63.

(** * Punycode *)

Definition pad_left (w : nat) (c : ascii) (s : str) : str := replicate (w - length s) c ++ s.

Definition puny_char (c : ascii) : str :=
  if isalnum c then [c]
  else lit "%" ++ pad_left 2 "0"%char (show_hex (Z.land (code c) 255)).

Definition MakePunycode (s : str) : str := s ≫= puny_char.

(** The value of a hexadecimal digit as [ExpandPunycode] computes it. *)
Definition nibble (c : ascii) : Z :=
  if isdigit c then (code c - code "0")%Z
  else if islower c then (10 + code c - code "a")%Z
  else (10 + code c - code "A")%Z.

Fixpoint ExpandPunycode (s : str) : str :=
  match s with
  | [] => []
  | c :: s1 =>
      if c =c? nul then []
      else if c =c? "%"%char then
        match s1 with
        | h :: l :: s2 =>
            if isxdigit h && isxdigit l
            then char_of (Z.lor (wrap 8 (Z.shiftl (nibble h) 4)) (nibble l)) :: ExpandPunycode s2
            else ExpandPunycode s1
        | _ => ExpandPunycode s1
        end
      else c :: ExpandPunycode s1
  end.

(** * Splitting and joining *)

Fixpoint split_go (sep : ascii) (remove_empty : bool) (cur : str) (text : str) : list str :=
  match text with
  | [] => if negb remove_empty || negb (cur =s? []) then [cur] else []
  | c :: text' =>
      if c =c? sep
      then (if negb remove_empty || negb (cur =s? []) then [cur] else [])
             ++ split_go sep remove_empty [] text'
      else split_go sep remove_empty (cur ++ [c]) text'
  end.

Definition Split (text : str) (sep : ascii) (remove_empty : bool) : list str :=
  split_go sep remove_empty [] text.

Fixpoint Join (tokens : list str) (sep : ascii) : str :=
  match tokens with
  | [] => []
  | t :: rest => t ++ match rest with [] => [] | _ => sep :: Join rest sep end
  end.

(** [getline(ss, item, '/')] with the empty items dropped. *)
Definition SplitPath (s : str) : list str := Split s "/"%char true.

Definition JoinPath (vv : list str) (num_items : Z) : outcome str :=
  _ ← F_ASSERT (0 <=? num_items)%Z;
  _ ← F_ASSERT (num_items <=? Z.of_nat (length vv))%Z;
  Ok (take (Z.to_nat num_items) vv ≫= λ item, lit "/" ++ item).

(** * Case, prefixes and suffixes *)

Definition ToLowercase (s : str) : str := tolower <$> s.
Definition ToLowercaseInPlace : str → str := ToLowercase.

(** [std::mismatch] over the prefix, after the length guard. *)
Fixpoint mismatch_at_end (p s : str) : bool :=
  match p, s with
  | [], _ => true
  | x :: p', y :: s' => (x =c? y) && mismatch_at_end p' s'
  | _ :: _, [] => false
  end.

Definition StringBeginsWith (s search_prefix : str) : bool :=
  if decide (length s < length search_prefix) then false
  else mismatch_at_end search_prefix s.

Definition StringEndsWith (s search_suffix : str) : bool :=
  if decide (length s < length search_suffix) then false
  else drop (length s - length search_suffix) s =s? search_suffix.

Definition StringZeroPad (val to_num_digits : Z) : outcome str :=
  let s := if (val <? 0)%Z then lit "-" ++ show_dec (- val) else show_dec val in
  let want := u64 to_num_digits in
  if (Z.of_nat (length s) <? want)%Z then
    if (LONG_MAX <? want - Z.of_nat (length s))%Z then Throw OutOfRange
    else Ok (replicate (Z.to_nat (want - Z.of_nat (length s))) "0"%char ++ s)
  else Ok s.

Definition StringCenterTitle (s : str) : str :=
  if s =s? [] then replicate 80 "="%char
  else
    let stmp := if decide (length s < 76) then s else take 76 s in
    let left := (80 - (length stmp + 2)) / 2 in
    let right := 80 - (left + 1 + length stmp + 1) in
    replicate left "="%char ++ lit " " ++ stmp ++ lit " " ++ replicate right "="%char.

(** * The C number scanners *)

Definition skip_ws (s : str) : str := drop_while isspace s.

Definition take_sign (s : str) : bool * str :=
  match s with
  | c :: s' => if c =c? "-"%char then (true, s') else if c =c? "+"%char then (false, s') else (false, s)
  | [] => (false, [])
  end.

(** The radix a [strtoul]-like scan uses, and the text after a "0x" prefix. *)
Definition take_radix (base : Z) (s : str) : Z * str :=
  match s with
  | z :: x :: h :: s' =>
      if ((base =? 0) || (base =? 16))%Z && (z =c? "0"%char)
         && ((x =c? "x"%char) || (x =c? "X"%char)) && isxdigit h
      then (16%Z, h :: s')
      else if (base =? 0)%Z then (if z =c? "0"%char then 8%Z else 10%Z, s) else (base, s)
  | z :: _ => if (base =? 0)%Z then (if z =c? "0"%char then 8%Z else 10%Z, s) else (base, s)
  | [] => (base, s)
  end.

(** Sign, magnitude and rest of the number at the front of [s]; [None] when there is none. *)
Definition scan_number (base : Z) (s : str) : option (bool * Z * str) :=
  let '(neg, s1) := take_sign (skip_ws s) in
  let '(radix, s2) := take_radix base s1 in
  match s2 with
  | c :: _ =>
      if is_digit_of radix c
      then let '(v, rest) := read_digits radix 0 s2 in Some (neg, v, rest)
      else None
  | [] => None
  end.

(** [strtol]: the value clamped to [long], and the unparsed rest. *)
Definition strtol (base : Z) (s : str) : Z * str :=
  match scan_number base (c_str s) with
  | None => (0%Z, c_str s)
  | Some (neg, v, rest) =>
      let v := if neg then (- v)%Z else v in
      (Z.max LONG_MIN (Z.min LONG_MAX v), rest)
  end.

(** [strtoul]: the value, and whether it set [errno] to [ERANGE]. *)
Definition strtoul (base : Z) (s : str) : Z * bool :=
  match scan_number base (c_str s) with
  | None => (0%Z, false)
  | Some (neg, v, _) =>
      if (ULONG_MAX <? v)%Z then (ULONG_MAX, true)
      else (if neg then u64 (- v) else v, false)
  end.

Definition atoi (s : str) : Z := s32 (strtol 10 s).1.
Definition atoll (s : str) : Z := (strtol 10 s).1.

(** [ss >> std::hex >> val] on an unsigned [val] of the given width.  [None]: the stream
    had nothing but white space, and [val] keeps whatever it held before. *)
Definition stream_hex (bits : Z) (s : str) : option Z :=
  match skip_ws s with
  | [] => None
  | t =>
      Some (match scan_number 16 t with
            | None => 0
            | Some (neg, v, _) =>
                if 2 ^ bits - 1 <? v then 2 ^ bits - 1 else if neg then wrap bits (- v) else v
            end)%Z
  end.

(** * Parsing numbers, booleans and times

    A parser returns its return code and the value it stored through the output
    pointer ([None] when it left the output alone). *)

Definition suffix_multiplier (last_char : ascii) : option Z :=
  if isdigit last_char then Some 1%Z
  else
    let c := tolower last_char in
    if c =c? "k"%char then Some 1024%Z
    else if c =c? "m"%char then Some (1024 * 1024)%Z
    else if c =c? "g"%char then Some (1024 * 1024 * 1024)%Z
    else None.

Definition StringToInt64 (token : str) : outcome (Z * option Z) :=
  match last token with
  | None => Throw Undefined
  | Some last_char =>
      match suffix_multiplier last_char with
      | None => Ok (EINVAL, None)
      | Some multiplier =>
          let v := (multiplier * atoll token)%Z in
          if ((LONG_MIN <=? v) && (v <=? LONG_MAX))%Z then Ok (0%Z, Some v) else Throw Undefined
      end
  end.

(** [erange] is whether [errno] already holds [ERANGE] from an earlier call: the code
    never clears it. *)
Definition StringToUInt64 (erange : bool) (token : str) : outcome (Z * option Z) :=
  match last token with
  | None => Throw Undefined
  | Some last_char =>
      match suffix_multiplier last_char with
      | None => Ok (EINVAL, None)
      | Some multiplier =>
          let '(v, sets_erange) := strtoul 0 token in
          let val := u64 (multiplier * v) in
          if (val =? ULONG_MAX)%Z && (erange || sets_erange) then Ok (EINVAL, Some val)
          else Ok (0%Z, Some val)
      end
  end.

Definition StringToInt32 (token : str) : outcome (Z * option Z) :=
  '(rc, val64) ← StringToInt64 token;
  if (rc =? 0)%Z then
    match val64 with
    | Some v => Ok (0%Z, Some (s32 (Z.land v (2 ^ 32 - 1))))
    | None => Throw Undefined
    end
  else Ok (rc, None).

Definition StringToUInt32 (erange : bool) (token : str) : outcome (Z * option Z) :=
  '(rc, val64) ← StringToUInt64 erange token;
  if (rc =? 0)%Z then
    match val64 with
    | Some v => Ok (0%Z, Some (Z.land v (2 ^ 32 - 1)))
    | None => Throw Undefined
    end
  else Ok (rc, None).

Definition StringToBoolean (token : str) : Z * option bool :=
  if token =s? [] then (EINVAL, Some false)
  else
    let ltoken := ToLowercase token in
    if (ltoken =s? lit "true") || (ltoken =s? lit "1") || (ltoken =s? lit "t")
    then (0%Z, Some true)
    else if (ltoken =s? lit "false") || (ltoken =s? lit "0") || (ltoken =s? lit "f")
    then (0%Z, Some false)
    else (EINVAL, None).

Definition time_table : list (str * Z) :=
  [ (lit "us", 1); (lit "ms", 1000); (lit "minutes", 60 * 1000 * 1000);
    (lit "hours", 3600 * 1000 * 1000); (lit "seconds", 1000 * 1000);
    (lit "s", 1000 * 1000) ]%Z.

(** Drop the spaces at the end of [s]. *)
Definition trim_spaces (s : str) : str :=
  reverse (drop_while (λ c, c =c? " "%char) (reverse s)).

(** The first suffix of the table that [sname] ends with, and the text before it. *)
Fixpoint time_suffix (table : list (str * Z)) (sname : str) : Z * str :=
  match table with
  | [] => (1%Z, sname)
  | (suffix, mult) :: table' =>
      if StringEndsWith sname suffix
      then (mult, trim_spaces (take (length sname - length suffix) sname))
      else time_suffix table' sname
  end.

Definition StringToTimeUS (erange : bool) (token : str) : Z * Z :=
  if token =s? [] then (EINVAL, 0%Z)
  else
    let '(multiplier, sname) := time_suffix time_table (ToLowercase token) in
    let is_good := negb (sname =s? []) && forallb isdigit sname in
    if is_good then
      let '(v, sets_erange) := strtoul 0 sname in
      let val := u64 (multiplier * v) in
      if (val =? ULONG_MAX)%Z && (erange || sets_erange) then (EINVAL, 0%Z) else (0%Z, val)
    else (EINVAL, 0%Z).

Definition IsValidIPString (hostname : str) : bool :=
  let octets := Split hostname "."%char false in
  let fix scan (l : list str) (all_digits has_digits : bool) : option (bool * bool) :=
    match l with
    | [] => Some (all_digits, has_digits)
    | s :: l' =>
        if s =s? [] then None
        else
          let '(val, rest) := strtol 10 s in
          if negb (rest =s? []) then scan l' false has_digits
          else if ((0 <=? val) && (val <=? 255))%Z then scan l' all_digits true
          else scan l' false true
    end in
  match scan octets true false with
  | None => false
  | Some (all_digits, has_digits) =>
      if all_digits then bool_decide (length octets = 4) else negb has_digits
  end.

(** * Component settings *)

Section settings.
(** [getenv]: the process environment. *)
Context (getenv : str → option str).

Definition GetItemFromComponentSettings (item : str) (settings : gmap str str) : str :=
  match settings !! item with
  | Some v => v
  | None =>
      match settings !! (item ++ lit ".env_name") with
      | Some var => if var =s? [] then [] else default [] (getenv (c_str var))
      | None => []
      end
  end.

Definition GetPathFromComponentSettings (settings : gmap str str) : str :=
  let p := GetItemFromComponentSettings (lit "path") settings in
  match last p with
  | Some c => if c =c? "/"%char then p else p ++ lit "/"
  | None => p
  end.

Definition GetFileFromComponentSettings (settings : gmap str str) : str :=
  GetItemFromComponentSettings (lit "file") settings.
End settings.

(** * Hashing *)

(** One step of the loops of [hash_dbj2], on a 64-bit accumulator. *)
Definition dbj2_step (hash c : Z) : Z := u64 (Z.shiftl hash 5 + hash + c).

Definition hash_dbj2 (s : str) : Z :=
  u32 (fold_left (λ h c, dbj2_step h (schar c)) (c_str s) 5381%Z).

Definition bucket_bytes (bid : Z) : list Z :=
  (λ i, Z.land (Z.shiftr bid (8 * i)) 255) <$> [0; 1; 2; 3]%Z.

Definition hash_dbj2_bucket (bid : Z) (s : str) : Z :=
  let h := fold_left dbj2_step (bucket_bytes bid) 5381%Z in
  u32 (fold_left (λ h c, dbj2_step h (schar c)) (c_str s) h).

Definition hash32 (s : str) : Z := hash_dbj2 s.

Definition hash16 (s : str) : Z :=
  let h := hash32 s in u16 (Z.lxor (Z.shiftr h 16) (Z.land h 65535)).

Definition starts_0x (s : str) : bool := take 2 s =s? lit "0x".

Definition UnpackHash32 (s : str) : outcome Z :=
  if negb (starts_0x s) then Ok (hash32 s)
  else if decide (10 < length s) then Throw RuntimeError
  else if negb (forallb isxdigit (drop 2 s)) then Throw RuntimeError
  else
    match stream_hex 64 (drop 2 s) with
    | Some val => Ok (u32 val)
    | None => Throw Undefined
    end.

(** * Node ranges *)

(** The digit check of [parseIDInRange]: one run of digits, spaces around it. *)
Fixpoint digits_and_spaces (previous_was_space previously_hit_word : bool) (token : str) : bool :=
  match token with
  | [] => true
  | x :: token' =>
      if x =c? " "%char then digits_and_spaces true previously_hit_word token'
      else if negb (isdigit x) then false
      else if previous_was_space && previously_hit_word then false
      else digits_and_spaces false true token'
  end.

Definition parseIDInRange (token : str) (num_nodes : Z) : Z :=
  if token =s? [] then (-1)%Z
  else if token =s? lit "first" then 0%Z
  else if token =s? lit "last" then (num_nodes - 1)%Z
  else if token =s? lit "end" then (num_nodes - 1)%Z
  else if token =s? lit "middle" then Z.quot (num_nodes - 1) 2
  else if token =s? lit "middleplus" then (Z.quot (num_nodes - 1) 2 + 1)%Z
  else if digits_and_spaces true false token then atoi token
  else (-1)%Z.

(** The integers a loop [for(i=a; i<=b; i++)] visits. *)
Definition int_range (a b : Z) : list Z := seqZ a (b - a + 1).

Fixpoint extract_tokens (tokens : list str) (num_nodes : Z) (items : gset Z) : outcome (gset Z) :=
  match tokens with
  | [] => Ok items
  | t :: tokens' =>
      if t =s? lit "all" then Ok (items ∪ list_to_set (seqZ 0 num_nodes))
      else
        match Split t "-"%char true with
        | [r0; r1] =>
            let a := parseIDInRange r0 num_nodes in
            let b := parseIDInRange r1 num_nodes in
            if ((b <? a) || (b <? 0) || (num_nodes <=? a) || (num_nodes <=? b))%Z
            then Throw RuntimeError
            else extract_tokens tokens' num_nodes (items ∪ list_to_set (int_range a b))
        | [r0] =>
            let x := parseIDInRange r0 num_nodes in
            if ((x <? 0) || (num_nodes <=? x))%Z then Throw RuntimeError
            else extract_tokens tokens' num_nodes (items ∪ {[x]})
        | _ => Throw RuntimeError
        end
  end.

Definition ExtractIDs (line : str) (num_nodes : Z) : outcome (gset Z) :=
  extract_tokens (Split (ToLowercase line) ","%char true) num_nodes ∅.

Example extract_ex : ExtractIDs (lit "2-4,0,End") 7 = Ok {[0; 2; 3; 4; 6]}%Z.
Proof. vm_compute. reflexivity. Qed.
Example extract_bug : ExtractIDs (lit "x-1") 7 = Ok {[-1; 0; 1]}%Z.
Proof. vm_compute. reflexivity. Qed.
Example ip_ex : map IsValidIPString [lit "10.0.0.1"; lit "10.0.1"; lit "foo.bar"; lit "10.0.0.999"; lit ""] = [true;false;true;false;false].
Proof. vm_compute. reflexivity. Qed.
Example time_ex : StringToTimeUS false (lit "20 Minutes") = (0, 1200000000)%Z.
Proof. vm_compute. reflexivity. Qed.
Example puny_ex : MakePunycode (lit "a b/") = lit "a%20b%2f" /\ ExpandPunycode (lit "a%20b%2F%zz%4") = lit "a b/zz4".
Proof. vm_compute. split; reflexivity. Qed.
Example hash_ex : hash32 (lit "foo") = 193491849%Z.
Proof. vm_compute. reflexivity. Qed.

(** * Prefixes and suffixes, as relations on strings *)

Lemma mismatch_at_end_prefix p s : mismatch_at_end p s = true ↔ p `prefix_of` s.
Proof.
  revert s; induction p as [|x p IH]; intros [|y s]; simpl.
  - split; [intros; apply prefix_nil|done].
  - split; [intros; apply prefix_nil|done].
  - split; [done|]. by intros [? ?%(f_equal length)].
  - rewrite andb_true_iff, bool_decide_eq_true, IH. split.
    + intros [-> ?]. by apply prefix_cons.
    + intros H. split; [by eapply prefix_cons_inv_1|by eapply prefix_cons_inv_2].
Qed.

Lemma StringBeginsWith_spec s p : StringBeginsWith s p = true ↔ p `prefix_of` s.
Proof.
  unfold StringBeginsWith. case_decide as H; [|apply mismatch_at_end_prefix].
  split; [done|]. intros ?%prefix_length. lia.
Qed.

Lemma StringEndsWith_spec s p : StringEndsWith s p = true ↔ p `suffix_of` s.
Proof.
  unfold StringEndsWith. case_decide as H.
  - split; [done|]. intros ?%suffix_length. lia.
  - rewrite bool_decide_eq_true. split.
    + intros <-. apply suffix_drop.
    + intros [t ->]. rewrite length_app.
      replace (length t + length p - length p) with (length t) by lia.
      by rewrite drop_app_length.
Qed.

(** * Punycode round trip *)

Definition puny_char_ok (c : ascii) : bool :=
  if isalnum c then negb (c =c? nul) && negb (c =c? "%"%char)
  else
    match pad_left 2 "0"%char (show_hex (Z.land (code c) 255)) with
    | [h; l] =>
        isxdigit h && isxdigit l
        && (char_of (Z.lor (wrap 8 (Z.shiftl (nibble h) 4)) (nibble l)) =c? c)
    | _ => false
    end.

Lemma puny_char_all c : puny_char_ok c = true.
Proof. apply forall_char_spec. vm_compute. reflexivity. Qed.

(** Decoding an encoded string gives it back, whatever bytes it holds. *)
Theorem Punycode_roundtrip s : ExpandPunycode (MakePunycode s) = s.
Proof.
  induction s as [|c s IH]; [done|].
  pose proof (puny_char_all c) as Hc. unfold puny_char_ok in Hc.
  change (MakePunycode (c :: s)) with (puny_char c ++ MakePunycode s).
  unfold puny_char. destruct (isalnum c).
  - apply andb_true_iff in Hc as [H1%negb_true_iff H2%negb_true_iff].
    simpl. by rewrite H1, H2, IH.
  - destruct (pad_left _ _ _) as [|h [|l [|]]]; try done.
    apply andb_true_iff in Hc as [H1 H2%bool_decide_eq_true].
    cbn [String.list_ascii_of_string app ExpandPunycode].
    rewrite H1, H2, IH. done.
Qed.

(** * Split and Join *)

Definition no_sep (sep : ascii) (t : str) : Prop := sep ∉ t.

Lemma split_go_no_sep sep re cur t text :
  no_sep sep t → split_go sep re cur (t ++ text) = split_go sep re (cur ++ t) text.
Proof.
  revert cur; induction t as [|c t IH]; intros cur Ht; simpl.
  - by rewrite app_nil_r.
  - apply not_elem_of_cons in Ht as [Hc Ht].
    rewrite bool_decide_eq_false_2 by congruence. rewrite IH by done. by rewrite <-app_assoc.
Qed.

Lemma Split_sep sep re t text :
  no_sep sep t → (re = true → t ≠ []) →
  Split (t ++ sep :: text) sep re = t :: Split text sep re.
Proof.
  intros Ht Hne. unfold Split. rewrite split_go_no_sep by done. simpl.
  rewrite bool_decide_eq_true_2 by done.
  destruct re; simpl; [|done]. rewrite bool_decide_eq_false_2 by auto. done.
Qed.

Lemma Split_last sep re t :
  no_sep sep t → (re = true → t ≠ []) → Split t sep re = [t].
Proof.
  intros Ht Hne. unfold Split. rewrite <-(app_nil_r t) at 1.
  rewrite split_go_no_sep by done. simpl.
  destruct re; simpl; [|done]. rewrite bool_decide_eq_false_2 by auto. done.
Qed.

Lemma Join_cons t u l sep : Join (t :: u :: l) sep = t ++ sep :: Join (u :: l) sep.
Proof. done. Qed.

(** Splitting a join of separator-free tokens gives the tokens back. *)
Theorem Split_Join tokens sep (re : bool) :
  Forall (no_sep sep) tokens → (if re then Forall (.≠ []) tokens else tokens ≠ []) →
  Split (Join tokens sep) sep re = tokens.
Proof.
  intros Hns Hne. destruct tokens as [|t tokens].
  { by destruct re. }
  assert (Hne' : re = true → Forall (.≠ []) (t :: tokens)) by (by destruct re).
  clear Hne. revert t Hns Hne'.
  induction tokens as [|u tokens IH]; intros t Hns Hne; inversion_clear Hns.
  - simpl. rewrite app_nil_r. apply Split_last; [done|].
    intros Hre. by apply Hne in Hre as ?%Forall_inv.
  - rewrite Join_cons, Split_sep; [|done|].
    + f_equal. apply IH; [done|]. intros Hre. by apply Hne, Forall_inv_tail in Hre.
    + intros Hre. by apply Hne in Hre as ?%Forall_inv.
Qed.

Lemma split_go_not_nil sep cur text : split_go sep false cur text ≠ [].
Proof.
  revert cur; induction text as [|c text IH]; intros cur; simpl; [done|].
  by destruct (c =c? sep).
Qed.

Lemma Join_split_go sep cur text : Join (split_go sep false cur text) sep = cur ++ text.
Proof.
  revert cur; induction text as [|c text IH]; intros cur; simpl.
  - done.
  - case_bool_decide as Hc; subst; simpl.
    + specialize (IH []). destruct (split_go sep false [] text) eqn:E.
      * by apply split_go_not_nil in E.
      * by rewrite IH.
    + rewrite IH, <-app_assoc. done.
Qed.

(** Joining the pieces of a split restores the text. *)
Theorem Join_Split text sep : Join (Split text sep false) sep = text.
Proof. apply Join_split_go. Qed.

Lemma split_go_spec sep re cur text t :
  no_sep sep cur → t ∈ split_go sep re cur text → no_sep sep t ∧ (re = true → t ≠ []).
Proof.
  revert cur; induction text as [|c text IH]; intros cur Hcur; simpl.
  - destruct re; simpl; [case_bool_decide|]; set_solver.
  - case_bool_decide as Hc.
    + rewrite elem_of_app. intros [Ht|Ht]; [|by apply (IH []); [apply not_elem_of_nil|]].
      destruct re; simpl in Ht; [case_bool_decide|]; set_solver.
    + apply IH. unfold no_sep in *. set_solver.
Qed.

(** The pieces hold no separator, and no empty piece survives [remove_empty]. *)
Lemma elem_of_Split t text sep re :
  t ∈ Split text sep re → no_sep sep t ∧ (re = true → t ≠ []).
Proof. apply split_go_spec, not_elem_of_nil. Qed.

(** * Hashing at 32 bits

    The loops run on a 64-bit [unsigned long] and truncate at the end; computing at 32
    bits throughout gives the same hash. *)

Definition dbj2_step32 (hash c : Z) : Z := u32 (33 * hash + c).

Lemma u32_dbj2_step h c : u32 (dbj2_step h c) = dbj2_step32 (u32 h) c.
Proof.
  unfold dbj2_step, dbj2_step32. rewrite wrap_narrow by lia.
  rewrite Z.shiftl_mul_pow2 by lia. unfold wrap.
  rewrite <-(Zplus_mod_idemp_l (33 * _)), Zmult_mod_idemp_r, Zplus_mod_idemp_l.
  f_equal. lia.
Qed.

Lemma fold_dbj2_32 {A} (f : A → Z) l h :
  u32 (fold_left (λ h c, dbj2_step h (f c)) l h)
  = fold_left (λ h c, dbj2_step32 h (f c)) l (u32 h).
Proof.
  revert h; induction l as [|c l IH]; intros h; simpl; [done|].
  by rewrite IH, u32_dbj2_step.
Qed.

(** The two hashes equal their 32-bit reference versions. *)
Theorem hash_dbj2_equiv32 bid s :
  hash_dbj2 s = fold_left (λ h c, dbj2_step32 h (schar c)) (c_str s) 5381%Z ∧
  hash_dbj2_bucket bid s =
    fold_left (λ h c, dbj2_step32 h (schar c)) (c_str s)
      (fold_left dbj2_step32 (bucket_bytes bid) 5381%Z).
Proof.
  split.
  - unfold hash_dbj2. by rewrite fold_dbj2_32.
  - unfold hash_dbj2_bucket. by rewrite fold_dbj2_32, (fold_dbj2_32 (λ c, c)).
Qed.

Lemma hash32_width s : in_width 32 (hash32 s).
Proof. apply wrap_in_width. lia. Qed.

Theorem UnpackHash32_width s h : UnpackHash32 s = Ok h → in_width 32 h.
Proof.
  unfold UnpackHash32. repeat case_match; intros [= <-].
  - apply hash32_width.
  - apply wrap_in_width. lia.
Qed.

(** * Node ranges *)

Definition token_covers (num_nodes : Z) (t : str) (x : Z) : Prop :=
  t = lit "all" ∨
  t ≠ lit "all" ∧
  match Split t "-"%char true with
  | [r0] => x = parseIDInRange r0 num_nodes
  | [r0; r1] => (parseIDInRange r0 num_nodes ≤ x ≤ parseIDInRange r1 num_nodes)%Z
  | _ => False
  end.

Lemma elem_of_int_range a b x : x ∈ int_range a b ↔ (a ≤ x ≤ b)%Z.
Proof. unfold int_range. rewrite elem_of_seqZ. lia. Qed.

Lemma extract_tokens_spec tokens n items ids x :
  extract_tokens tokens n items = Ok ids → (0 ≤ x < n)%Z →
  x ∈ ids ↔ x ∈ items ∨ ∃ t, t ∈ tokens ∧ token_covers n t x.
Proof.
  intros Hrun Hx. revert items Hrun.
  induction tokens as [|t tokens IH]; intros items; simpl.
  { intros [= <-]. set_solver. }
  assert (Hstep : ∀ add : gset Z, (x ∈ add ↔ token_covers n t x) →
    extract_tokens tokens n (items ∪ add) = Ok ids →
    x ∈ ids ↔ x ∈ items ∨ ∃ t0, t0 ∈ t :: tokens ∧ token_covers n t0 x).
  { intros add Hadd Hrun. rewrite (IH _ Hrun). set_solver. }
  case_bool_decide as Hall.
  - intros [= <-]. rewrite elem_of_union, elem_of_list_to_set, elem_of_seqZ.
    split; [intros _; right; exists t; split; [set_solver|by left]|intros _; right; lia].
  - destruct (Split t "-"%char true) as [|r0 [|r1 [|]]] eqn:E; try done.
    + case_match; [done|]. apply Hstep. unfold token_covers. rewrite E. set_solver.
    + case_match; [done|]. apply Hstep. unfold token_covers. rewrite E, elem_of_list_to_set, elem_of_int_range.
      naive_solver.
Qed.

(** An id that is a legal node index is produced exactly when some token of the
    lower-cased, comma-separated line covers it. *)
Theorem ExtractIDs_spec line n ids x :
  ExtractIDs line n = Ok ids → (0 ≤ x < n)%Z →
  x ∈ ids ↔ ∃ t, t ∈ Split (ToLowercase line) ","%char true ∧ token_covers n t x.
Proof.
  intros Hrun Hx. rewrite (extract_tokens_spec _ _ _ _ _ Hrun Hx). set_solver.
Qed.

(** No id reaches [num_nodes]; a negative id only comes from a range whose lower end is
    itself negative (the code checks the upper end of a range, not the lower one). *)
Lemma extract_tokens_bounds tokens n items ids x :
  extract_tokens tokens n items = Ok ids → x ∈ ids →
  x ∈ items ∨
  ((x < n)%Z ∧
   ((0 ≤ x)%Z ∨ ∃ t r0 r1, t ∈ tokens ∧ Split t "-"%char true = [r0; r1] ∧
                           (parseIDInRange r0 n ≤ x)%Z)).
Proof.
  revert items; induction tokens as [|t tokens IH]; intros items; simpl.
  { intros [= <-]. auto. }
  case_bool_decide.
  { intros [= <-]. rewrite elem_of_union, elem_of_list_to_set, elem_of_seqZ.
    intros [?|?]; [by left|]. right. split; [lia|]. left. lia. }
  assert (Hstep : ∀ add : gset Z,
    (x ∈ add → (x < n)%Z ∧
      ((0 ≤ x)%Z ∨ ∃ r0 r1, Split t "-"%char true = [r0; r1] ∧ (parseIDInRange r0 n ≤ x)%Z)) →
    extract_tokens tokens n (items ∪ add) = Ok ids → x ∈ ids →
    x ∈ items ∨ ((x < n)%Z ∧ ((0 ≤ x)%Z ∨ ∃ t0 r0 r1, t0 ∈ t :: tokens ∧
      Split t0 "-"%char true = [r0; r1] ∧ (parseIDInRange r0 n ≤ x)%Z))).
  { intros add Hadd Hrun Hx.
    apply (IH _ Hrun) in Hx as [[Hx|Hx]%elem_of_union|[Hlt Hx]]; [by left| |]; right.
    - apply Hadd in Hx as [? [?|(r0 & r1 & ? & ?)]]; (split; [done|]); [by left|].
      right. exists t, r0, r1. split; [set_solver|done].
    - split; [done|]. destruct Hx as [?|(t' & r0 & r1 & ? & ?)]; [by left|].
      right. exists t', r0, r1. split; [set_solver|done]. }
  destruct (Split t "-"%char true) as [|r0 [|r1 [|]]] eqn:E; try done;
    destruct (_ || _) eqn:Eb; try done; apply Hstep.
  - intros ->%elem_of_singleton. split; [lia|]. left. lia.
  - rewrite elem_of_list_to_set, elem_of_int_range. intros. split; [lia|]. right.
    exists r0, r1. split; [done|lia].
Qed.

(** Every extracted id is below [n], and negative ids come only from a range token. *)
Theorem ExtractIDs_bounds line n ids x :
  ExtractIDs line n = Ok ids → x ∈ ids →
  (x < n)%Z ∧
  ((0 ≤ x)%Z ∨
   ∃ t r0 r1, t ∈ Split (ToLowercase line) ","%char true ∧
     Split t "-"%char true = [r0; r1] ∧ (parseIDInRange r0 n ≤ x < 0)%Z).
Proof.
  intros Hrun Hx. pose proof (extract_tokens_bounds _ _ _ _ _ Hrun Hx) as Hb.
  destruct Hb as [?%not_elem_of_empty|[? Hb]]; [done|]. split; [done|].
  destruct (decide (0 ≤ x)%Z); [by left|]. right.
  destruct Hb as [?|(t & a & b & ? & ? & ?)]; [lia|]. exists t, a, b. naive_solver lia.
Qed.

(** A range whose lower end does not parse is accepted, and -1 becomes a node id. *)
Theorem ExtractIDs_negative_id : ExtractIDs (lit "x-1") 7 = Ok {[-1; 0; 1]}%Z.
Proof. vm_compute. reflexivity. Qed.

(** * Scanning printed numbers *)

Lemma show_go_head base fuel n :
  (2 ≤ base ≤ 16)%Z → (0 < n)%Z → (Z.to_nat (Z.log2 n) < fuel)%nat →
  ∃ d t, (0 < d < base)%Z ∧ show_go fuel base n = digit_char d :: t.
Proof.
  intros Hb. revert n; induction fuel as [|fuel IH]; intros n Hn Hf; [lia|]. simpl.
  destruct (Z.ltb_spec n base) as [Hlt|Hge]; [exists n, []; split; [lia|done]|].
  destruct (IH (n / base)%Z) as (d & t & Hd & ->).
  - apply Z.div_str_pos. lia.
  - enough (Z.log2 (n / base) < Z.log2 n)%Z
      by (pose proof (Z.log2_nonneg (n / base)); lia).
    assert (0 < n / base)%Z by (apply Z.div_str_pos; lia).
    apply Z.lt_le_trans with (Z.log2 (2 * (n / base))).
    + rewrite Z.log2_double by lia. lia.
    + apply Z.log2_le_mono. pose proof (Z.mul_div_le n base). nia.
  - exists d, (t ++ [digit_char (n mod base)]). done.
Qed.

Lemma show_base_head base n :
  (2 ≤ base ≤ 16)%Z → (0 < n)%Z →
  ∃ d t, (0 < d < base)%Z ∧ show_base base n = digit_char d :: t.
Proof. intros. apply show_go_head; [done|done|lia]. Qed.

(** What scanning needs to know of a digit: it is no white space, sign or NUL. *)
Definition digit_char_ok (c : ascii) : bool :=
  implb (is_digit_of 16 c)
    (negb (isspace c) && negb (c =c? "-"%char) && negb (c =c? "+"%char) && negb (c =c? nul)
     && isxdigit c).

Lemma digit_char_all c : digit_char_ok c = true.
Proof. apply forall_char_spec. vm_compute. reflexivity. Qed.

Lemma is_digit_of_mono b1 b2 c :
  (b1 ≤ b2)%Z → is_digit_of b1 c = true → is_digit_of b2 c = true.
Proof. unfold is_digit_of. destruct (digit_val c); [|done]. lia. Qed.

Lemma digit_props c :
  is_digit_of 16 c = true →
  isspace c = false ∧ c ≠ "-"%char ∧ c ≠ "+"%char ∧ c ≠ nul ∧ isxdigit c = true.
Proof.
  intros H. pose proof (digit_char_all c) as Hc. unfold digit_char_ok in Hc.
  rewrite H in Hc. simpl in Hc.
  repeat apply andb_true_iff in Hc as [Hc ?].
  repeat match goal with
  | H : negb _ = true |- _ => apply negb_true_iff in H
  | H : bool_decide _ = false |- _ => apply bool_decide_eq_false in H
  end. done.
Qed.

Lemma c_str_app s t : Forall (.≠ nul) s → c_str (s ++ t) = s ++ c_str t.
Proof.
  induction 1 as [|c s Hc Hs IH]; simpl; [done|]. by rewrite bool_decide_eq_false_2, IH.
Qed.

Lemma skip_ws_digit c s : is_digit_of 16 c = true → skip_ws (c :: s) = c :: s.
Proof. intros (H & _)%digit_props. unfold skip_ws. simpl. by rewrite H. Qed.

Lemma take_sign_digit c s : is_digit_of 16 c = true → take_sign (c :: s) = (false, c :: s).
Proof.
  intros (_ & H1 & H2 & _)%digit_props. simpl.
  by rewrite !bool_decide_eq_false_2.
Qed.

(** A printed decimal number followed by text that is no digit (nor an "x") is scanned as
    itself: base 0 takes the octal path only for "0", whose value is the same. *)
Lemma scan_show_dec base n t :
  (base = 0 ∨ base = 10)%Z → (0 ≤ n)%Z → no_digit 10 t →
  (∀ t', t ≠ "x"%char :: t') → (∀ t', t ≠ "X"%char :: t') →
  scan_number base (show_dec n ++ t) = Some (false, n, t).
Proof.
  intros Hbase Hn Ht Hx HX. unfold scan_number.
  destruct (decide (n = 0)%Z) as [->|Hn0].
  - change (show_dec 0) with [digit_char 0]. cbn [app].
    rewrite skip_ws_digit, take_sign_digit by done.
    assert (Hr : take_radix base (digit_char 0 :: t)
      = (if (base =? 0)%Z then 8%Z else 10%Z, digit_char 0 :: t)).
    { destruct t as [|x [|h t]]; simpl; [by destruct Hbase as [-> | ->]..|].
      assert (x ≠ "x"%char ∧ x ≠ "X"%char) as [H1 H2] by naive_solver.
      rewrite (bool_decide_eq_false_2 _ H1), (bool_decide_eq_false_2 _ H2).
      rewrite andb_false_r. by destruct Hbase as [-> | ->]. }
    rewrite Hr.
    assert (Hz : ∀ b, (b = 8 ∨ b = 10)%Z →
      read_digits b 0 (digit_char 0 :: t) = (0%Z, t) ∧ is_digit_of b (digit_char 0) = true).
    { intros b Hb. split; [|by destruct Hb as [-> | ->]].
      change (digit_char 0 :: t) with ([digit_char 0] ++ t).
      rewrite (read_digits_app b); [by destruct Hb as [-> | ->]| |].
      - constructor; [by destruct Hb as [-> | ->]|constructor].
      - destruct t as [|c t]; [done|]. simpl in *.
        destruct (is_digit_of b c) eqn:E; [|done].
        apply (is_digit_of_mono b 10) in E; [congruence|lia]. }
    destruct Hbase as [-> | ->]; simpl Z.eqb; cbv iota.
    + destruct (Hz 8%Z) as [-> ->]; auto.
    + destruct (Hz 10%Z) as [-> ->]; auto.
  - destruct (show_base_head 10 n) as (d & u & Hd & Hs); [lia|lia|].
    assert (Hdig : is_digit_of 10 (digit_char d) = true) by (apply is_digit_of_char; lia).
    assert (Hdig16 : is_digit_of 16 (digit_char d) = true)
      by (by apply (is_digit_of_mono 10 16)).
    assert (Hnz : digit_char d ≠ "0"%char).
    { intros E%(f_equal digit_val). rewrite digit_val_char in E by lia. vm_compute in E. injection E as ->. lia. }
    pose proof (read_show_base 10 ltac:(lia) n t Hn Ht) as Hread.
    rewrite Hs in *. cbn [app] in *.
    rewrite skip_ws_digit, take_sign_digit by done.
    assert (Hr : take_radix base (digit_char d :: u ++ t) = (10%Z, digit_char d :: u ++ t)).
    { unfold take_radix. rewrite (bool_decide_eq_false_2 _ Hnz).
      destruct (u ++ t) as [|? [|]]; rewrite ?andb_false_r; by destruct Hbase as [-> | ->]. }
    by rewrite Hr, Hdig, Hread.
Qed.

Lemma show_base_digits base n :
  (2 ≤ base ≤ 16)%Z → (0 ≤ n)%Z → Forall (λ c, is_digit_of base c = true) (show_base base n).
Proof. intros. by apply show_go_all_digits. Qed.

Lemma show_base_no_nul base n :
  (2 ≤ base ≤ 16)%Z → (0 ≤ n)%Z → Forall (.≠ nul) (show_base base n).
Proof.
  intros Hb Hn. eapply Forall_impl; [by apply show_base_digits|].
  intros c Hc. apply digit_props. apply (is_digit_of_mono base 16); [lia|done].
Qed.

Definition dec_digit_ok (c : ascii) : bool := implb (is_digit_of 10 c) (isdigit c).

Lemma is_digit_of_10 c : is_digit_of 10 c = true → isdigit c = true.
Proof.
  intros H. assert (Hc : dec_digit_ok c = true)
    by (apply forall_char_spec; vm_compute; reflexivity).
  unfold dec_digit_ok in Hc. by rewrite H in Hc.
Qed.

Lemma last_show_dec n : (0 ≤ n)%Z → ∃ c, last (show_dec n) = Some c ∧ isdigit c = true.
Proof.
  intros Hn. destruct (last (show_dec n)) as [c|] eqn:E.
  - exists c. split; [done|]. apply is_digit_of_10.
    pose proof (show_base_digits 10 n ltac:(lia) Hn) as Hall.
    rewrite Forall_forall in Hall. apply Hall.
    apply last_Some in E as [l ->]. set_solver.
  - apply last_None in E. by apply show_base_nonempty in E.
Qed.

(** The unit suffixes the parsers accept. *)
Definition unit_suffix (t : str) (mult : Z) : Prop :=
  (t = [] ∧ mult = 1)%Z ∨
  ∃ c, t = [c] ∧ isdigit c = false ∧ suffix_multiplier c = Some mult.

Definition unit_char_ok (c : ascii) : bool :=
  match suffix_multiplier c with
  | Some _ => implb (negb (isdigit c))
      (negb (is_digit_of 10 c) && negb (c =c? "x"%char) && negb (c =c? "X"%char) && negb (c =c? nul))
  | None => true
  end.

Lemma unit_suffix_props t mult :
  unit_suffix t mult →
  no_digit 10 t ∧ (∀ t', t ≠ "x"%char :: t') ∧ (∀ t', t ≠ "X"%char :: t') ∧ c_str t = t.
Proof.
  intros [[-> _]|(c & -> & Hd & Hc)]; [done|].
  assert (Hok : unit_char_ok c = true) by (apply forall_char_spec; vm_compute; reflexivity).
  unfold unit_char_ok in Hok. rewrite Hc, Hd in Hok. simpl in Hok.
  repeat apply andb_true_iff in Hok as [Hok ?].
  repeat match goal with
  | H : negb _ = true |- _ => apply negb_true_iff in H
  end.
  repeat match goal with
  | H : bool_decide _ = false |- _ => rewrite ?H; apply bool_decide_eq_false in H
  end.
  split; [done|]. split; [naive_solver|]. split; [naive_solver|].
  simpl. rewrite bool_decide_eq_false_2 by done. done.
Qed.

Lemma last_with_suffix n t mult :
  (0 ≤ n)%Z → unit_suffix t mult →
  ∃ c, last (show_dec n ++ t) = Some c ∧ suffix_multiplier c = Some mult.
Proof.
  intros Hn [[-> ->]|(c & -> & Hd & Hc)].
  - destruct (last_show_dec n Hn) as (c & Hl & Hc). rewrite app_nil_r.
    exists c. split; [done|]. unfold suffix_multiplier. by rewrite Hc.
  - exists c. split; [by rewrite last_snoc|done].
Qed.

(** A decimal number with an optional k/m/g suffix parses to that many units, modulo the
    width of the result; nothing is reported when the product does not fit. *)
Theorem StringToUInt64_decimal n t mult :
  in_width 64 n → unit_suffix t mult →
  StringToUInt64 false (show_dec n ++ t) = Ok (0%Z, Some (u64 (mult * n))).
Proof.
  intros [Hn Hmax] Ht. unfold StringToUInt64.
  destruct (last_with_suffix n t mult Hn Ht) as (c & -> & ->).
  destruct (unit_suffix_props t mult Ht) as (Hd & Hx & HX & Hc).
  unfold strtoul. rewrite c_str_app, Hc by (by apply show_base_no_nul).
  rewrite scan_show_dec by auto.
  assert (ULONG_MAX = 2 ^ 64 - 1)%Z as HU by done.
  destruct (Z.ltb_spec ULONG_MAX n); [lia|]. simpl. by rewrite andb_false_r.
Qed.

(** The signed parser agrees where the product fits in an [int64_t]. *)
Theorem StringToInt64_decimal n t mult :
  (0 ≤ n ≤ LONG_MAX)%Z → unit_suffix t mult → (mult * n ≤ LONG_MAX)%Z → (0 < mult)%Z →
  StringToInt64 (show_dec n ++ t) = Ok (0%Z, Some (mult * n)%Z).
Proof.
  intros Hn Ht Hfit Hm. unfold StringToInt64.
  destruct (last_with_suffix n t mult ltac:(lia) Ht) as (c & -> & ->).
  destruct (unit_suffix_props t mult Ht) as (Hd & Hx & HX & Hc).
  unfold atoll, strtol. rewrite c_str_app, Hc by (apply show_base_no_nul; lia).
  rewrite scan_show_dec by (auto; lia). simpl.
  assert (LONG_MIN < 0)%Z by done.
  rewrite Z.min_r, Z.max_r by lia.
  replace (LONG_MIN <=? mult * n)%Z with true by nia.
  by replace (mult * n <=? LONG_MAX)%Z with true by lia.
Qed.

(** Out-of-range input is reported only when the multiplier is 1: the check looks at the
    product, which is no longer [ULONG_MAX] once it was multiplied. *)
Theorem StringToUInt64_overflow_unreported :
  StringToUInt64 false (lit "99999999999999999999") = Ok (EINVAL, Some ULONG_MAX) ∧
  StringToUInt64 false (lit "99999999999999999999k") = Ok (0%Z, Some (2 ^ 64 - 1024)%Z).
Proof. vm_compute. split; reflexivity. Qed.

(** [StringToUInt64] reads a leading zero as octal where [StringToInt64] does not. *)
Theorem leading_zero_octal :
  StringToUInt64 false (lit "0100") = Ok (0%Z, Some 64%Z) ∧
  StringToInt64 (lit "0100") = Ok (0%Z, Some 100%Z) ∧
  StringToTimeUS false (lit "010us") = (0, 8)%Z.
Proof. vm_compute. repeat split; reflexivity. Qed.

(** A centred title is always one 80-column line. *)
Theorem StringCenterTitle_width s : length (StringCenterTitle s) = 80.
Proof.
  unfold StringCenterTitle. case_bool_decide as Hs; [done|].
  set (stmp := if decide (length s < 76) then s else take 76 s).
  assert (Hl : length stmp ≤ 76).
  { subst stmp. case_decide; [lia|]. rewrite length_take. lia. }
  assert (Hdiv : (80 - (length stmp + 2)) / 2 ≤ 80 - (length stmp + 2))
    by (apply Nat.Div0.div_le_upper_bound; lia).
  revert Hdiv. generalize ((80 - (length stmp + 2)) / 2). intros k Hk.
  rewrite !length_app, !length_replicate. change (length (lit " ")) with 1. lia.
Qed.

(** * Witnesses *)

Lemma ExtractIDs_spec_witness :
  (2%Z ∈ (list_to_set [1; 2; 3]%Z : gset Z)) ↔
  ∃ t, t ∈ Split (ToLowercase (lit "1-3")) ","%char true ∧ token_covers 4 t 2.
Proof.
  apply (ExtractIDs_spec (lit "1-3") 4 (list_to_set [1; 2; 3]%Z) 2); [vm_compute; reflexivity|lia].
Defined.

Lemma ExtractIDs_bounds_witness :
  (2 < 4)%Z ∧ ((0 ≤ 2)%Z ∨
   ∃ t r0 r1, t ∈ Split (ToLowercase (lit "1-3")) ","%char true ∧
     Split t "-"%char true = [r0; r1] ∧ (parseIDInRange r0 4 ≤ 2 < 0)%Z).
Proof.
  apply (ExtractIDs_bounds (lit "1-3") 4 (list_to_set [1; 2; 3]%Z) 2); [vm_compute; reflexivity|].
  apply (bool_decide_unpack _). vm_compute. exact I.
Defined.
