(* ===== verification/Identifiers.v ===== *)
(** The small identifier types of [src/src/faodel-common]: [Bucket] (Bucket.cpp), a 32-bit
    hash naming a namespace, and [NodeID] (NodeID.cpp), the ip address and port of a
    node packed into 64 bits, with their hexadecimal text forms. *)
From S2P Require Import Prelude StringHelpers.

(** * Bucket *)

Module Bucket.
(** [struct Bucket { uint32_t bid; }] *)
Record t := mk { bid : Z }.

#[global] Instance eq_dec : EqDecision t.
Proof. solve_decision. Defined.

Definition UNSPECIFIED : t := mk 0.

Definition of_string (bucket_string : str) : outcome t :=
  bid ← UnpackHash32 bucket_string; Ok (mk bid).

Definition Valid (b : t) : bool := negb (bid b =? 0)%Z.
Definition Unspecified (b : t) : bool := (bid b =? 0)%Z.
Definition ltb (a b : t) : bool := (bid a <? bid b)%Z.

Definition GetHex (b : t) : str := lit "0x" ++ show_hex (bid b).

Definition wf (b : t) : Prop := in_width 32 (bid b).
End Bucket.
Abbreviation bucket_t := Bucket.t.

(** * NodeID *)

Module NodeID.
(** [struct NodeID { uint64_t nid; }]: port in bits 32 to 47, ip address below. *)
Record t := mk { nid : Z }.

#[global] Instance eq_dec : EqDecision t.
Proof. solve_decision. Defined.

Definition NODE_UNSPECIFIED : t := mk 0.
Definition NODE_LOCALHOST : t := mk 1.

Definition wf (n : t) : Prop := in_width 64 (nid n).

Definition makeNodeID (ip port : Z) : Z := Z.lor (Z.shiftl port 32) ip.

Definition of_hex (hex_string : str) : outcome t :=
  if starts_0x hex_string then
    match stream_hex 64 (drop 2 hex_string) with
    | Some val => Ok (mk val)
    | None => Throw Undefined
    end
  else Throw ParseError.

Definition of_ip_port (ip port : Z) : t := mk (makeNodeID ip port).

Section resolver.
(** [gethostbyname]: the first address it reports for a name, in host order. *)
Context (gethostbyname : str → option Z).

Definition makeNodeID_host (host port : str) : outcome Z :=
  let port_id := u32 (atoi port) in
  if (64 * 1024 <=? port_id)%Z then Throw ParseError
  else if negb (IsValidIPString host) then Throw ParseError
  else
    match gethostbyname (c_str host) with
    | Some host_id => Ok (makeNodeID host_id port_id)
    | None => Throw ParseError
    end.

Definition of_host (hostname port : str) : outcome t :=
  nid ← makeNodeID_host hostname port; Ok (mk nid).
End resolver.

Definition Valid (n : t) : bool := negb (nid n =? 0)%Z.
Definition Unspecified (n : t) : bool := (nid n =? 0)%Z.
Definition ValidIP (n : t) : bool := negb (Z.land (nid n) (2 ^ 32 - 1) =? 0)%Z.
Definition ValidPort (n : t) : bool := negb (Z.land (Z.shiftr (nid n) 32) 65535 =? 0)%Z.

Definition octet (n : t) (shift : Z) : str := show_dec (Z.land (Z.shiftr (nid n) shift) 255).

Definition GetIP (n : t) : str :=
  octet n 24 ++ lit "." ++ octet n 16 ++ lit "." ++ octet n 8 ++ lit "." ++ octet n 0.

Definition GetPort (n : t) : str := show_dec (Z.land (Z.shiftr (nid n) 32) 65535).

Definition GetIPPort (n : t) : Z * Z :=
  (Z.land (nid n) (2 ^ 32 - 1), Z.land (Z.shiftr (nid n) 32) 65535)%Z.

Definition GetHttpLink (n : t) (extra_path : str) : str :=
  lit "http://" ++ GetIP n ++ lit ":" ++ GetPort n ++
  match extra_path with
  | [] => []
  | c :: _ => (if c =c? "/"%char then [] else lit "/") ++ extra_path
  end.

Definition GetHex (n : t) : str := lit "0x" ++ show_hex (nid n).

Definition GetHtmlLink (n : t) (extra_path link_text : str) : str :=
  lit "<a href=" ++ ["034"%char] ++ GetHttpLink n extra_path ++ ["034"%char] ++ lit ">"
  ++ (if negb (link_text =s? []) then link_text else GetHex n)
  ++ lit "</a>" ++ ["010"%char].
End NodeID.
Abbreviation nodeid_t := NodeID.t.

(** A label and the node it stands for; equality and order look at the label alone. *)
Record NameAndNode := mkNameAndNode { nn_name : str; nn_node : nodeid_t }.

#[global] Instance NameAndNode_eq_dec : EqDecision NameAndNode.
Proof. solve_decision. Defined.

Definition NameAndNode_eqb (a b : NameAndNode) : bool := nn_name a =s? nn_name b.
Definition NameAndNode_ltb (a b : NameAndNode) : bool := str_ltb (nn_name a) (nn_name b).

(** * Hexadecimal text *)

Lemma show_hex_not_prefixed n t :
  (0 ≤ n)%Z → no_digit 16 t → (∀ t', t ≠ "x"%char :: t') → (∀ t', t ≠ "X"%char :: t') →
  scan_number 16 (show_hex n ++ t) = Some (false, n, t).
Proof.
  intros Hn Ht Hx HX. unfold scan_number.
  pose proof (read_show_base 16 ltac:(lia) n t Hn Ht) as Hread.
  assert (Hex : ∃ c u, show_hex n = c :: u ∧ is_digit_of 16 c = true ∧
    Forall (λ c, is_digit_of 16 c = true) u).
  { pose proof (show_base_digits 16 n ltac:(lia) Hn) as Hall.
    destruct (show_hex n) as [|c u] eqn:E; [by apply show_base_nonempty in E|].
    inversion Hall; subst. eauto. }
  destruct Hex as (c & u & Hs & Hc & Hu). rewrite Hs in *. cbn [app] in *.
  rewrite skip_ws_digit, take_sign_digit by done.
  assert (Hr : take_radix 16 (c :: u ++ t) = (16%Z, c :: u ++ t)).
  { assert (Hux : ∀ x v, u ++ t = x :: v → x ≠ "x"%char ∧ x ≠ "X"%char).
    { intros x v Ev. destruct u as [|y u].
      - simpl in Ev. subst t. naive_solver.
      - injection Ev as -> _. inversion Hu as [|? ? Hy _]; subst.
        split; intros ->; vm_compute in Hy; discriminate. }
    destruct (u ++ t) as [|x [|h v]] eqn:Ev; simpl; [done|done|].
    destruct (Hux x (h :: v) eq_refl) as [H1 H2].
    rewrite (bool_decide_eq_false_2 _ H1), (bool_decide_eq_false_2 _ H2).
    by rewrite andb_false_r. }
  by rewrite Hr, Hc, Hread.
Qed.

Lemma stream_hex_show bits n :
  (0 ≤ bits)%Z → in_width bits n → stream_hex bits (show_hex n) = Some n.
Proof.
  intros Hb [Hn Hm]. pose proof (show_hex_not_prefixed n [] Hn I) as Hscan.
  rewrite app_nil_r in Hscan. specialize (Hscan ltac:(done) ltac:(done)).
  unfold stream_hex.
  assert (Hws : skip_ws (show_hex n) = show_hex n).
  { pose proof (show_base_digits 16 n ltac:(lia) Hn) as Hall.
    destruct (show_hex n) as [|c u] eqn:E; [done|]. inversion Hall; subst.
    by apply skip_ws_digit. }
  rewrite Hws. destruct (show_hex n) as [|c u] eqn:E; [by apply show_base_nonempty in E|].
  rewrite Hscan. destruct (Z.ltb_spec (2 ^ bits - 1) n); [lia|done].
Qed.

Lemma show_go_length base fuel n k :
  (2 ≤ base)%Z → (0 ≤ n < base ^ Z.of_nat k)%Z → (0 < k)%nat → (length (show_go fuel base n) ≤ k)%nat.
Proof.
  intros Hb. revert n k; induction fuel as [|fuel IH]; intros n k Hn Hk; simpl; [lia|].
  destruct (Z.ltb_spec n base) as [Hlt|Hge]; [simpl; lia|].
  destruct k as [|[|k]]; [lia| |].
  { rewrite Z.pow_1_r in Hn. lia. }
  rewrite length_app. simpl.
  assert (length (show_go fuel base (n / base)) ≤ S k)%nat; [|lia].
  apply IH; [|lia]. split; [apply Z.div_pos; lia|].
  apply Z.div_lt_upper_bound; [lia|].
  rewrite (Nat2Z.inj_succ (S k)), Z.pow_succ_r in Hn by lia. lia.
Qed.

Lemma is_digit_of_16_xdigit c : is_digit_of 16 c = true → isxdigit c = true.
Proof. by intros (_ & _ & _ & _ & H)%digit_props. Qed.

Lemma forallb_xdigit_show n : (0 ≤ n)%Z → forallb isxdigit (show_hex n) = true.
Proof.
  intros Hn. apply forallb_forall. intros c Hc%list_elem_of_In.
  pose proof (show_base_digits 16 n ltac:(lia) Hn) as Hall. rewrite Forall_forall in Hall.
  by apply is_digit_of_16_xdigit, Hall.
Qed.

Lemma UnpackHash32_hex n : in_width 32 n → UnpackHash32 (lit "0x" ++ show_hex n) = Ok n.
Proof.
  intros Hb. pose proof Hb as [H0 H1]. unfold UnpackHash32.
  assert (starts_0x (lit "0x" ++ show_hex n) = true) as -> by done.
  assert (drop 2 (lit "0x" ++ show_hex n) = show_hex n) as -> by done.
  rewrite forallb_xdigit_show by done.
  rewrite decide_False.
  - cbn [negb]. rewrite stream_hex_show by (try done; split; lia). by rewrite wrap_id.
  - rewrite length_app. change (length (lit "0x")) with 2.
    enough (length (show_hex n) ≤ 8)%nat by lia.
    apply show_go_length; [lia|split; [done|]|lia].
    by change (16 ^ Z.of_nat 8)%Z with (2 ^ 32)%Z.
Qed.

Lemma Bucket_hex_ok b : Bucket.wf b → Bucket.of_string (Bucket.GetHex b) = Ok b.
Proof.
  intros Hb. destruct b as [bid]. unfold Bucket.of_string, Bucket.GetHex.
  by rewrite UnpackHash32_hex.
Qed.

Lemma NodeID_hex_ok n : NodeID.wf n → NodeID.of_hex (NodeID.GetHex n) = Ok n.
Proof.
  intros Hn. destruct n as [nid]. unfold NodeID.of_hex, NodeID.GetHex. simpl NodeID.nid.
  change (starts_0x (lit "0x" ++ show_hex nid)) with true. cbv iota.
  change (drop 2 (lit "0x" ++ show_hex nid)) with (show_hex nid).
  by rewrite stream_hex_show.
Qed.

(** Buckets and node ids survive the trip through their hexadecimal text. *)
Theorem identifier_hex_roundtrip b n :
  Bucket.wf b → NodeID.wf n →
  Bucket.of_string (Bucket.GetHex b) = Ok b ∧ NodeID.of_hex (NodeID.GetHex n) = Ok n.
Proof. intros. split; [by apply Bucket_hex_ok|by apply NodeID_hex_ok]. Qed.

Lemma land_ones_wrap z bits : (0 ≤ bits)%Z → Z.land z (2 ^ bits - 1) = wrap bits z.
Proof. intros. rewrite Z.sub_1_r, <-Z.ones_equiv. by apply Z.land_ones. Qed.

Lemma makeNodeID_arith ip port :
  in_width 32 ip → (0 ≤ port)%Z → NodeID.makeNodeID ip port = (port * 2 ^ 32 + ip)%Z.
Proof.
  intros [H0 H1] Hp. unfold NodeID.makeNodeID. rewrite Z.shiftl_mul_pow2 by lia.
  assert (Hdis : Z.land (port * 2 ^ 32) ip = 0%Z).
  { apply Z.bits_inj'. intros k Hk. rewrite Z.land_spec, Z.bits_0.
    destruct (Z.lt_ge_cases k 32).
    - by rewrite Z.mul_pow2_bits_low by lia.
    - rewrite (Z.bits_above_log2 ip); [by rewrite andb_false_r|done|].
      destruct (decide (ip = 0)%Z) as [->|]; [simpl; lia|].
      apply Z.lt_le_trans with 32%Z; [apply Z.log2_lt_pow2; lia|lia]. }
  by rewrite Z.add_nocarry_lxor, Z.lxor_lor.
Qed.

(** Packing an address and a port and unpacking them gives both back. *)
Theorem NodeID_ip_port_roundtrip ip port :
  in_width 32 ip → in_width 16 port →
  NodeID.wf (NodeID.of_ip_port ip port) ∧
  NodeID.GetIPPort (NodeID.of_ip_port ip port) = (ip, port).
Proof.
  intros Hip Hport. pose proof Hip as [I0 I1]. pose proof Hport as [P0 P1].
  unfold NodeID.wf, NodeID.of_ip_port, NodeID.GetIPPort. simpl NodeID.nid.
  rewrite makeNodeID_arith by done. split.
  { unfold in_width. lia. }
  rewrite land_ones_wrap by done. change 65535%Z with (2 ^ 16 - 1)%Z.
  rewrite land_ones_wrap by done. rewrite Z.shiftr_div_pow2 by done.
  rewrite Z.div_add_l, (Z.div_small ip), Z.add_0_r by lia.
  unfold wrap. rewrite (Z.add_comm (port * _)), Z_mod_plus_full.
  rewrite !Z.mod_small by lia. done.
Qed.

(** * Dotted addresses *)

Definition dotted (a b c d : Z) : str :=
  show_dec a ++ lit "." ++ show_dec b ++ lit "." ++ show_dec c ++ lit "." ++ show_dec d.

Lemma strtol_show_dec n : (0 ≤ n ≤ LONG_MAX)%Z → strtol 10 (show_dec n) = (n, []).
Proof.
  intros Hn. unfold strtol.
  assert (c_str (show_dec n) = show_dec n) as ->.
  { rewrite <-(app_nil_r (show_dec n)) at 1. rewrite c_str_app by (apply show_base_no_nul; lia).
    apply app_nil_r. }
  pose proof (scan_show_dec 10 n [] ltac:(by right) ltac:(lia) I ltac:(done) ltac:(done)) as Hs.
  rewrite app_nil_r in Hs. rewrite Hs. f_equal. unfold LONG_MIN, LONG_MAX in *. lia.
Qed.

Lemma atoi_show_dec n : (0 ≤ n < 2 ^ 31)%Z → atoi (show_dec n) = n.
Proof.
  intros Hn. unfold atoi. rewrite strtol_show_dec by (unfold LONG_MAX; lia). simpl.
  unfold s32. unwrap.
  destruct (Z.ltb_spec n (2 ^ 31)); lia.
Qed.

Lemma show_dec_no_sep sep n : is_digit_of 10 sep = false → (0 ≤ n)%Z → no_sep sep (show_dec n).
Proof.
  intros Hsep Hn Hin. pose proof (show_base_digits 10 n ltac:(lia) Hn) as Hall.
  rewrite Forall_forall in Hall. specialize (Hall _ Hin). simpl in Hall. congruence.
Qed.

Lemma Split_dotted a b c d :
  (0 ≤ a)%Z → (0 ≤ b)%Z → (0 ≤ c)%Z → (0 ≤ d)%Z →
  Split (dotted a b c d) "."%char false = [show_dec a; show_dec b; show_dec c; show_dec d].
Proof.
  intros. unfold dotted. cbn [app String.list_ascii_of_string].
  repeat (rewrite Split_sep; [f_equal|by apply show_dec_no_sep|done]).
  apply Split_last; [by apply show_dec_no_sep|done].
Qed.

Lemma IsValidIPString_dotted a b c d :
  (0 ≤ a ≤ 255)%Z → (0 ≤ b ≤ 255)%Z → (0 ≤ c ≤ 255)%Z → (0 ≤ d ≤ 255)%Z →
  IsValidIPString (dotted a b c d) = true.
Proof.
  intros. unfold IsValidIPString. rewrite Split_dotted by lia.
  rewrite !strtol_show_dec by (unfold LONG_MAX; lia).
  rewrite !(bool_decide_eq_false_2 (show_dec _ = [])) by apply show_base_nonempty.
  repeat match goal with
  | |- context [((0 <=? ?x) && (?x <=? 255))%Z] =>
      replace ((0 <=? x) && (x <=? 255))%Z with true by lia
  end. done.
Qed.

Lemma land_255 z : (0 ≤ Z.land z 255 ≤ 255)%Z.
Proof.
  change 255%Z with (2 ^ 8 - 1)%Z. rewrite land_ones_wrap by done.
  pose proof (wrap_in_width 8 z ltac:(done)) as [? ?]. lia.
Qed.

Lemma octets_of_ip z :
  let o k := Z.land (Z.shiftr z k) 255 in
  (o 24 * 2 ^ 24 + o 16 * 2 ^ 16 + o 8 * 2 ^ 8 + o 0 = wrap 32 z)%Z.
Proof.
  simpl. change 255%Z with (2 ^ 8 - 1)%Z. rewrite !land_ones_wrap by done.
  rewrite Z.shiftr_0_r, !Z.shiftr_div_pow2 by done. unfold wrap.
  change (2 ^ 24)%Z with (2 ^ 16 * 2 ^ 8)%Z. change (2 ^ 32)%Z with (2 ^ 24 * 2 ^ 8)%Z.
  Z.div_mod_to_equations. lia.
Qed.

(** Formatting a node id as an address and a port and parsing those strings gives it
    back, for any resolver that maps a dotted quad to its value (as [gethostbyname] is
    documented to do without a lookup). *)
Theorem NodeID_host_roundtrip (gethostbyname : str → option Z) n :
  (∀ a b c d, (0 ≤ a ≤ 255)%Z → (0 ≤ b ≤ 255)%Z → (0 ≤ c ≤ 255)%Z → (0 ≤ d ≤ 255)%Z →
     gethostbyname (dotted a b c d) = Some (a * 2 ^ 24 + b * 2 ^ 16 + c * 2 ^ 8 + d)%Z) →
  in_width 48 (NodeID.nid n) →
  NodeID.of_host gethostbyname (NodeID.GetIP n) (NodeID.GetPort n) = Ok n.
Proof.
  intros Hres [N0 N1]. destruct n as [nid]. simpl in *.
  unfold NodeID.of_host, NodeID.makeNodeID_host, NodeID.GetPort, NodeID.GetIP, NodeID.octet.
  simpl NodeID.nid.
  fold (dotted (Z.land (Z.shiftr nid 24) 255) (Z.land (Z.shiftr nid 16) 255)
    (Z.land (Z.shiftr nid 8) 255) (Z.land (Z.shiftr nid 0) 255)).
  assert (Hport : Z.land (Z.shiftr nid 32) 65535 = (nid / 2 ^ 32)%Z).
  { change 65535%Z with (2 ^ 16 - 1)%Z. rewrite land_ones_wrap by done.
    rewrite Z.shiftr_div_pow2 by done. apply wrap_id. split.
    - by apply Z.div_pos.
    - apply Z.div_lt_upper_bound; lia. }
  assert (Hp : (0 ≤ nid / 2 ^ 32 < 2 ^ 16)%Z).
  { split; [by apply Z.div_pos|]. apply Z.div_lt_upper_bound; lia. }
  rewrite Hport, atoi_show_dec, wrap_id by (unfold in_width; lia).
  destruct (Z.leb_spec (64 * 1024) (nid / 2 ^ 32)); [lia|].
  rewrite IsValidIPString_dotted by apply land_255. cbn [negb].
  rewrite <-(app_nil_r (dotted _ _ _ _)), c_str_app.
  2:{ unfold dotted. rewrite !Forall_app.
      repeat split; try (apply show_base_no_nul; [lia|apply land_255]);
        repeat constructor; done. }
  cbn [c_str]. rewrite app_nil_r, Hres by apply land_255.
  pose proof (octets_of_ip nid) as Hip. simpl in Hip. rewrite Hip. simpl.
  rewrite makeNodeID_arith by (try apply wrap_in_width; lia). do 2 f_equal.
  unfold wrap. pose proof (Z.div_mod nid (2 ^ 32)). lia.
Qed.
