(* ===== verification/Configuration.v ===== *)
(** Configuration.cpp: the settings of a process.

    A configuration is the role of the node and a map of settings.  The text of a configuration
    is split into lines and tokens ([tokenizeLine], [addConfigToMap]); [Set] stores one setting,
    with the two list forms of a name; [findBestMatch] looks a name up under the node's role,
    under "default" and as it is; the typed getters parse what it finds.  The environment
    ([getenv]), the file system ([read_file], [None]: the file cannot be opened) and [wordexp]
    are parameters.  The log of requested options that [findBestMatch] keeps for a report, and
    the report, are left out. *)
From S2P Require Import Prelude StringHelpers Identifiers.

(** * Text *)

Definition ENOENT : Z := 2.

(** [s.find_first_of(chars, pos)] and [s.find_first_not_of(chars, pos)]; [None] is [npos]. *)
Fixpoint find_from (p : ascii → bool) (s : str) (pos : nat) : option nat :=
  match s with
  | [] => None
  | c :: s' =>
      match pos with
      | O => if p c then Some O else S <$> find_from p s' O
      | S pos' => S <$> find_from p s' pos'
      end
  end.

Definition find_first_of (p : ascii → bool) (s : str) (pos : option nat) : option nat :=
  match pos with None => None | Some n => find_from p s n end.

Definition find_first_not_of (p : ascii → bool) : str → option nat → option nat :=
  find_first_of (λ c, negb (p c)).

Definition is_blank (c : ascii) : bool := (c =c? " "%char) || (c =c? "009"%char).
Definition is_hash (c : ascii) : bool := c =c? "#"%char.

(** [s.substr(p0, p1 - p0)], where [p1] may be [npos]. *)
Definition slice (s : str) (p0 : nat) (p1 : option nat) : str :=
  match p1 with None => drop p0 s | Some p1 => take (p1 - p0) (drop p0 s) end.

(** The loop of [tokenizeLine]; [None]: out of fuel. *)
Fixpoint tokenize_loop (fuel : nat) (s : str) (endpos p0 : option nat) (tokens : list str)
    : option (list str) :=
  if decide (p0 = endpos) then Some tokens
  else
    match fuel with
    | O => None
    | S fuel =>
        let p1 := find_first_of is_blank s p0 in
        let tokens :=
          match p0 with
          | Some n => if decide (p1 = p0) then tokens else tokens ++ [slice s n p1]
          | None => tokens
          end in
        tokenize_loop fuel s endpos (find_first_not_of is_blank s p1) tokens
    end.

Definition tokenizeLine_fuel (fuel : nat) (s : str) : option (list str) :=
  tokenize_loop fuel s (find_from is_hash s 0) (Some 0) [].

(** [tokenizeLine]: [FuelExhausted] where the loop does not end. *)
Definition tokenizeLine (s : str) : outcome (list str) :=
  match tokenizeLine_fuel (length s + 2) s with
  | Some l => Ok l
  | None => Throw FuelExhausted
  end.

(** The pieces [while(getline(ss, item, sep))] reads: nothing follows a final separator. *)
Definition getlines (s : str) (sep : ascii) : list str :=
  let l := Split s sep false in
  match last l with
  | Some [] => take (length l - 1) l
  | _ => l
  end.

(** [std::to_string] of a signed integer. *)
Definition to_string (z : Z) : str :=
  if (z <? 0)%Z then lit "-" ++ show_dec (- z) else show_dec z.

(** * The object *)

Record Configuration := mkConfig {
  node_role : str;
  config_map : gmap str str
}.

(** The names [findBestMatch] tries, in order. *)
Definition search_list (c : Configuration) (lname : str) : list str :=
  [node_role c ++ lit "." ++ lname; lit "default." ++ lname; lname].

Fixpoint first_match (m : gmap str str) (names : list str) : option str :=
  match names with
  | [] => None
  | s :: names' => match m !! s with Some v => Some v | None => first_match m names' end
  end.

(** The return code and the value stored. *)
Definition findBestMatch (c : Configuration) (name default_value : str) : Z * str :=
  match first_match (config_map c) (search_list c (ToLowercase name)) with
  | Some v => (0%Z, v)
  | None => (ENOENT, default_value)
  end.

Definition GetString : Configuration → str → str → Z * str := findBestMatch.

Definition Contains (c : Configuration) (name : str) : bool :=
  negb ((GetString c name []).1 =? ENOENT)%Z.

Definition GetLowercaseString (c : Configuration) (name default_value : str) : Z * str :=
  let '(rc, tmp) := GetString c name default_value in (rc, ToLowercase tmp).

(** The loop of [GetStringVector], from index [i]; one turn more than there are settings is
    enough, since each turn but the last finds another setting. *)
Fixpoint vector_loop (fuel : nat) (c : Configuration) (name : str) (i : Z) : list str :=
  match fuel with
  | O => []
  | S fuel =>
      let '(rc, v) := GetString c (name ++ lit "." ++ to_string i) [] in
      if (rc =? ENOENT)%Z then [] else v :: vector_loop fuel c name (i + 1)
  end.

Definition GetStringVector (c : Configuration) (name : str) : list str :=
  vector_loop (S (size (config_map c))) c name 0.

(** [Set(name, val)] on strings. *)
Definition Set_ (c : Configuration) (name val : str) : Configuration :=
  let target_name := ToLowercase name in
  let n := length target_name in
  let '(target_name, target_val) :=
    if decide (2 < n) then
      let suffix := drop (n - 2) target_name in
      let prefix := take (n - 2) target_name in
      if suffix =s? lit "[]" then
        (prefix ++ lit "." ++ to_string (Z.of_nat (length (GetStringVector c prefix))), val)
      else if suffix =s? lit "<>" then
        (prefix, match config_map c !! prefix with
                 | Some old => old ++ lit ";" ++ val
                 | None => val
                 end)
      else (target_name, val)
    else (target_name, val) in
  mkConfig (if name =s? lit "node_role" then val else node_role c)
    (<[target_name := target_val]> (config_map c)).

Definition Set_int (c : Configuration) (name : str) (val : Z) : Configuration :=
  Set_ c name (to_string val).

(** [void *]: 18 characters, "0x" first except for the null pointer. *)
Definition ptr_text (val : Z) : str :=
  if (val =? 0)%Z then pad_left 18 "0"%char (show_hex 0)
  else lit "0x" ++ pad_left 16 "0"%char (show_hex val).

Definition Set_ptr (c : Configuration) (name : str) (val : Z) : Configuration :=
  Set_ c name (ptr_text val).

Definition Set_bool (c : Configuration) (name : str) (val : bool) : Configuration :=
  Set_ c name (if val then lit "true" else lit "false").

Definition Unset (c : Configuration) (name : str) : Configuration :=
  mkConfig (node_role c) (delete name (config_map c)).

(** [Append(name, val)]. *)
Definition Append_pair : Configuration → str → str → Configuration := Set_.

Definition AppendIfUnset (c : Configuration) (name val : str) : Configuration :=
  if Contains c name then c else Append_pair c name val.

(** One line of [addConfigToMap]. *)
Definition add_line (c : Configuration) (item : str) : outcome Configuration :=
  res ← tokenizeLine item;
  match res with
  | name :: (_ :: _) as vals => Ok (Append_pair c (ToLowercase name) (Join vals " "%char))
  | _ => Ok c
  end.

Fixpoint add_lines (c : Configuration) (items : list str) : outcome Configuration :=
  match items with
  | [] => Ok c
  | item :: items' => c ← add_line c item; add_lines c items'
  end.

(** [Append(config_str)]. *)
Definition addConfigToMap (c : Configuration) (config : str) : outcome Configuration :=
  add_lines c (getlines config "010"%char).

Definition Append : Configuration → str → outcome Configuration := addConfigToMap.

(** The constructor. *)
Definition new_Configuration (configuration_string env_variable_for_extra_settings : str)
    : outcome Configuration :=
  let c := mkConfig (lit "default") ∅ in
  let c := if env_variable_for_extra_settings =s? [] then c
           else Append_pair c (lit "config.additional_files.env_name.if_defined")
                  env_variable_for_extra_settings in
  if configuration_string =s? [] then Ok c else Append c configuration_string.

(** * Typed getters: the return code and what is stored through the pointer *)

(** The code of the parser if it failed, else that of the lookup. *)
Definition combine_rc (rc rc2 : Z) : Z := if (rc2 =? 0)%Z then rc else rc2.

Definition GetInt (c : Configuration) (name default_value : str) : outcome (Z * option Z) :=
  let '(rc, tmp) := findBestMatch c name default_value in
  '(rc2, v) ← StringToInt64 tmp;
  Ok (combine_rc rc rc2, v).

Definition GetUInt (erange : bool) (c : Configuration) (name default_value : str)
    : outcome (Z * option Z) :=
  let '(rc, tmp) := findBestMatch c name default_value in
  '(rc2, ival) ← StringToInt64 tmp;
  if negb (rc2 =? 0)%Z then Ok (rc2, None)
  else
    match ival with
    | None => Throw Undefined
    | Some ival =>
        if (ival <? 0)%Z then Ok (EINVAL, Some 0%Z)
        else
          '(rc3, uval) ← StringToUInt64 erange tmp;
          Ok (combine_rc rc rc3, uval)
    end.

Definition GetTimeUS (erange : bool) (c : Configuration) (name default_value : str) : Z * Z :=
  let '(rc, tmp) := findBestMatch c name default_value in
  let '(rc2, v) := StringToTimeUS erange tmp in
  (combine_rc rc rc2, v).

Definition GetBool (c : Configuration) (name default_value : str) : Z * option bool :=
  let '(rc, tmp) := findBestMatch c name default_value in
  let '(rc2, v) := StringToBoolean tmp in
  (combine_rc rc rc2, v).

(** [strtoull] with base 16. *)
Definition StringToPtr (token : str) : Z := (strtoul 16 token).1.

Definition GetPtr (c : Configuration) (name : str) (default_value : Z) : Z * Z :=
  let '(rc, tmp) := findBestMatch c name [] in
  if (rc =? ENOENT)%Z then (ENOENT, default_value) else (rc, StringToPtr tmp).

(** * Groups of settings *)

Definition component_prefix (component_name : str) : outcome str :=
  let lprefix := ToLowercase component_name in
  match last lprefix with
  | None => Throw Undefined
  | Some b => Ok (if b =c? "."%char then lprefix else lprefix ++ lit ".")
  end.

Definition GetComponentSettings (c : Configuration) (component_name : str)
    : outcome (gmap str str) :=
  lprefix ← component_prefix component_name;
  Ok (fold_left (λ results kv,
        if StringBeginsWith kv.1 lprefix
        then <[drop (length lprefix) kv.1 := kv.2]> results else results)
      (entries (config_map c)) ∅).

(** The three settings of a component's log, [None] where the caller's variable is left alone. *)
Definition GetComponentLoggingSettings (c : Configuration) (component_name : str)
    : option bool * option bool * option bool :=
  let tmp_dbg := default false (GetBool c (component_name ++ lit ".debug") (lit "false")).2 in
  let tmp_info := default false (GetBool c (component_name ++ lit ".info") (lit "false")).2 in
  let default_dbg := if tmp_dbg then lit "true" else lit "false" in
  let tmp_info := tmp_dbg || tmp_info in
  let dbg := (GetBool c (component_name ++ lit ".log.debug") default_dbg).2 in
  let default_info := if tmp_info then lit "true" else default_dbg in
  (dbg, (GetBool c (component_name ++ lit ".log.info") default_info).2,
   (GetBool c (component_name ++ lit ".log.warn") default_info).2).

Definition GetRole : Configuration → str := node_role.

Definition GetAllSettings (c : Configuration) : list (str * str) :=
  (lit "node_role", GetRole c) :: entries (config_map c).

Definition GetDefaultSecurityBucket (c : Configuration) : Z * str :=
  let bucket_string :=
    default (lit "default-bucket-name")
      (first_match (config_map c)
         [node_role c ++ lit ".security_bucket"; lit "security_bucket"]) in
  (if bucket_string =s? [] then ENOENT else 0%Z, bucket_string).

(** * The environment *)

Section environment.
Context (getenv : str → option str) (wordexp : str → Z → option (list str))
        (read_file : str → option str).

Definition WRDE_NOCMD : Z := 4.

Definition ExpandPath (s : str) (flags : Z) : str :=
  match wordexp (c_str s) flags with Some [w] => w | _ => [] end.
Definition ExpandPathSafely (s : str) : str := ExpandPath s WRDE_NOCMD.

(** [ssout << src.rdbuf()] on a stream with its contents and whether it is still good: a stream
    that is not good takes nothing, and inserting no character sets the fail bit. *)
Definition insert_rdbuf (ssout : str * bool) (src : option str) : str * bool :=
  let '(text, good) := ssout in
  if good then
    match src with
    | Some ((_ :: _) as t) => (text ++ t, true)
    | _ => (text, false)
    end
  else ssout.

Definition read_segment (ssout : str * bool) (segment : str) : str * bool :=
  let expanded := ExpandPathSafely segment in
  if decide (0 < length expanded) then insert_rdbuf ssout (read_file (c_str expanded)) else ssout.

Definition read_files (file_name : str) : str :=
  (fold_left read_segment (getlines file_name ";"%char) ([], true)).1.

Definition AppendFromFile (c : Configuration) (file_name : str) : outcome Configuration :=
  Append c (read_files file_name).

Definition add_to_list (names file : str) : str :=
  if names =s? [] then file else names ++ lit ";" ++ file.

Definition AppendFromReferences (c : Configuration) : outcome Configuration :=
  let additional_filenames := (GetString c (lit "config.additional_files") []).2 in
  let env_name1 := (GetString c (lit "config.additional_files.env_name") []).2 in
  let env_name2 := (GetString c (lit "config.additional_files.env_name.if_defined") []).2 in
  let c := mkConfig (node_role c)
    (delete (lit "config.additional_files.env_name.if_defined")
      (delete (lit "config.additional_files.env_name")
        (delete (lit "config.additional_files") (config_map c)))) in
  additional_filenames ←
    (if env_name1 =s? [] then Ok additional_filenames
     else match getenv (c_str env_name1) with
          | None => Throw RuntimeError
          | Some config_file => Ok (add_to_list additional_filenames config_file)
          end);
  let additional_filenames :=
    if env_name2 =s? [] then additional_filenames
    else match getenv (c_str env_name2) with
         | None => additional_filenames
         | Some config_file => add_to_list additional_filenames config_file
         end in
  AppendFromFile c additional_filenames.

(** The path a variable of the environment expands to, if it is set. *)
Definition env_path (ename : str) : option str := ExpandPathSafely <$> getenv (c_str ename).

(** An expanded path is taken when it is not empty. *)
Definition nonempty (s : option str) : option str :=
  match s with Some ((_ :: _) as t) => Some t | _ => None end.

Definition GetFilename (c : Configuration) (name default_env_var default_file : str)
    : outcome (Z * option str) :=
  let '(rc, tmp_fname) := GetString c (name ++ lit ".file") [] in
  match (if (rc =? 0)%Z then nonempty (Some (ExpandPathSafely tmp_fname)) else None) with
  | Some f => Ok (0%Z, Some f)
  | None =>
      let ename := (GetString c (name ++ lit ".file.env_name.if_defined") []).2 in
      match (if ename =s? [] then None else nonempty (env_path ename)) with
      | Some f => Ok (0%Z, Some f)
      | None =>
          let ename := (GetString c (name ++ lit ".file.env_name") []).2 in
          if negb (ename =s? []) then
            match nonempty (env_path ename) with
            | Some f => Ok (0%Z, Some f)
            | None => Throw RuntimeError
            end
          else
            match (if default_env_var =s? [] then None else nonempty (env_path default_env_var)) with
            | Some f => Ok (0%Z, Some f)
            | None =>
                if default_file =s? [] then Ok (ENOENT, None)
                else Ok (0%Z, Some (ExpandPathSafely default_file))
            end
      end
  end.
End environment.

(** * Mutexes (MutexWrapper.cpp)

    The wrappers are calls of the thread library; which one a component gets is chosen here.
    [pthreads] and [openmp] say what the library was built with. *)
Module Mutex.
Section build.
Context (pthreads openmp : bool).

Inductive MutexWrapperTypeID :=
| DEFAULT | NONE | OMP_LOCK | PTHREADS_LOCK | PTHREADS_RWLOCK | UNSUPPORTED | ERROR.

#[global] Instance MutexWrapperTypeID_eq_dec : EqDecision MutexWrapperTypeID.
Proof. solve_decision. Defined.

Definition GetMutexInfoByID (id : MutexWrapperTypeID) : Z * str * str :=
  match id with
  | DEFAULT => (0%Z, lit "default", lit "default")
  | NONE => (0%Z, lit "none", lit "none")
  | OMP_LOCK => (0%Z, lit "openmp", lit "lock")
  | PTHREADS_LOCK => (0%Z, lit "pthreads", lit "lock")
  | PTHREADS_RWLOCK => (0%Z, lit "pthreads", lit "rwlock")
  | UNSUPPORTED => ((-1)%Z, lit "unsupported", lit "unsupported")
  | ERROR => ((-1)%Z, lit "error", lit "error")
  end.

Definition GetMutexTypeID (threading_model mutex_type : str) : outcome MutexWrapperTypeID :=
  if (threading_model =s? lit "none") || (mutex_type =s? lit "none") then Ok NONE
  else if openmp && ((threading_model =s? lit "omp") || (threading_model =s? lit "openmp"))
  then Ok OMP_LOCK
  else if pthreads && ((threading_model =s? lit "pthreads") || (threading_model =s? lit "default"))
  then Ok (if mutex_type =s? lit "rwlock" then PTHREADS_RWLOCK else PTHREADS_LOCK)
  else Throw AssertFailed.

(** The kind of mutex that is made. *)
Definition GenerateMutexByTypeID (id : MutexWrapperTypeID) : outcome MutexWrapperTypeID :=
  match id with
  | NONE => Ok NONE
  | DEFAULT => if openmp then Ok OMP_LOCK else if pthreads then Ok PTHREADS_LOCK
               else Throw AssertFailed
  | OMP_LOCK => if openmp then Ok OMP_LOCK else Throw AssertFailed
  | PTHREADS_LOCK => if pthreads then Ok PTHREADS_LOCK else Throw AssertFailed
  | PTHREADS_RWLOCK => if pthreads then Ok PTHREADS_RWLOCK else Throw AssertFailed
  | UNSUPPORTED | ERROR => Throw AssertFailed
  end.

Definition GetDefaultThreadingModel (c : Configuration) : Z * str :=
  GetString c (lit "threading_model") (lit "default").

Definition GetComponentMutexTypeID (c : Configuration) (component_name default_mutex_type : str)
    : outcome MutexWrapperTypeID :=
  let threading_model := (GetDefaultThreadingModel c).2 in
  let mutex_type :=
    if component_name =s? [] then default_mutex_type
    else (GetString c (component_name ++ lit ".mutex_type") default_mutex_type).2 in
  GetMutexTypeID threading_model mutex_type.

Definition GenerateComponentMutex (c : Configuration) (component_name default_mutex_type : str)
    : outcome MutexWrapperTypeID :=
  id ← GetComponentMutexTypeID c component_name default_mutex_type;
  GenerateMutexByTypeID id.
End build.
End Mutex.

(** * Positions *)

Lemma find_from_Some p s n m :
  find_from p s n = Some m →
  n ≤ m ∧ (∃ c, s !! m = Some c ∧ p c = true) ∧ ∀ k c, n ≤ k < m → s !! k = Some c → p c = false.
Proof.
  revert n m; induction s as [|c s IH]; intros n m; simpl; [done|].
  destruct n as [|n].
  - destruct (p c) eqn:Hp.
    + intros [= <-]. split; [done|]. split; [by exists c|]. intros k c' ?; lia.
    + intros (m' & (_ & Hc & Hk)%IH & ->)%fmap_Some. split; [lia|]. split; [done|].
      intros [|k] c' ?; simpl; [by intros [= <-]|]. apply Hk. lia.
  - intros (m' & (Hn & Hc & Hk)%IH & ->)%fmap_Some. split; [lia|]. split; [done|].
    intros [|k] c' ?; simpl; [lia|]. apply Hk. lia.
Qed.

Lemma find_from_app p a t :
  find_from p (a ++ t) (length a) = (λ k, length a + k) <$> find_from p t 0.
Proof.
  induction a as [|c a IH]; simpl.
  - destruct (find_from p t 0); done.
  - rewrite IH. by destruct (find_from p t 0).
Qed.

Lemma find_from_skip p w t :
  Forall (λ c, p c = false) w → find_from p (w ++ t) 0 = (λ k, length w + k) <$> find_from p t 0.
Proof.
  induction 1 as [|c w Hc _ IH]; simpl.
  - by destruct (find_from p t 0).
  - rewrite Hc, IH. by destruct (find_from p t 0).
Qed.

Lemma find_from_none p s : Forall (λ c, p c = false) s → find_from p s 0 = None.
Proof. induction 1 as [|c s Hc _ IH]; simpl; [done|]. by rewrite Hc, IH. Qed.

(** * Tokens *)

(** The reference: the maximal runs of characters that are not blank. *)
Fixpoint words (cur s : str) : list str :=
  match s with
  | [] => if cur =s? [] then [] else [cur]
  | c :: s' =>
      if is_blank c then (if cur =s? [] then [] else [cur]) ++ words [] s'
      else words (cur ++ [c]) s'
  end.

Definition nonblank (w : str) : Prop := Forall (λ c, is_blank c = false) w.
Definition blank (w : str) : Prop := Forall (λ c, is_blank c = true) w.

Lemma words_run cur w : nonblank w → words cur w = if cur ++ w =s? [] then [] else [cur ++ w].
Proof.
  intros H. revert cur. induction H as [|c w Hc _ IH]; intros cur; simpl.
  - by rewrite app_nil_r.
  - by rewrite Hc, IH, <-app_assoc.
Qed.

Lemma words_blank b t : blank b → words [] (b ++ t) = words [] t.
Proof. induction 1 as [|c b Hc _ IH]; simpl; [done|]. by rewrite Hc, IH. Qed.

Lemma words_word cur w b t :
  nonblank w → is_blank b = true →
  words cur (w ++ b :: t) = (if cur ++ w =s? [] then [] else [cur ++ w]) ++ words [] t.
Proof.
  intros H Hb. revert cur. induction H as [|c w Hc _ IH]; intros cur; simpl.
  - by rewrite Hb, app_nil_r.
  - by rewrite Hc, IH, <-app_assoc.
Qed.

Lemma split_while {A} (p : A → bool) (l : list A) :
  ∃ a r, l = a ++ r ∧ Forall (λ c, p c = false) a ∧
         (r = [] ∨ ∃ x r', r = x :: r' ∧ p x = true).
Proof.
  induction l as [|c l (a & r & -> & Ha & Hr)].
  - exists [], []. auto.
  - destruct (p c) eqn:Hc.
    + exists [], (c :: a ++ r). split_and!; [done|constructor|]. right. eauto.
    + exists (c :: a), r. split_and!; [done|by constructor|done].
Qed.

(** What is left of a line at a token: a word, blanks, and the rest. *)
Lemma split_word (t : str) :
  nonblank t ∨
  (∃ w b bl, t = w ++ b :: bl ∧ nonblank w ∧ is_blank b = true ∧ blank bl) ∨
  (∃ w b bl x t', t = w ++ b :: bl ++ x :: t' ∧ nonblank w ∧ is_blank b = true ∧ blank bl ∧
                  is_blank x = false).
Proof.
  destruct (split_while is_blank t) as (w & r & -> & Hw & [->|(b & r' & -> & Hb)]).
  { left. by rewrite app_nil_r. }
  right. destruct (split_while (λ c, negb (is_blank c)) r') as (bl & t' & -> & Hbl & Ht).
  assert (blank bl) by (eapply Forall_impl; [exact Hbl|]; intros c; simpl; by destruct (is_blank c)).
  destruct Ht as [->|(x & t'' & -> & Hx)].
  - left. exists w, b, bl. by rewrite app_nil_r.
  - right. exists w, b, bl, x, t''. split_and!; try done. by destruct (is_blank x).
Qed.

Lemma not_blank_negb c : is_blank c = true → negb (is_blank c) = false.
Proof. by intros ->. Qed.

Lemma first_blank a w b t :
  nonblank w → is_blank b = true →
  find_first_of is_blank (a ++ w ++ b :: t) (Some (length a)) = Some (length a + length w).
Proof.
  intros Hw Hb. simpl. rewrite find_from_app, find_from_skip by done. simpl. rewrite Hb. simpl.
  f_equal. lia.
Qed.

Lemma first_nonblank a bl x t :
  blank bl → is_blank x = false →
  find_first_not_of is_blank (a ++ bl ++ x :: t) (Some (length a)) = Some (length a + length bl).
Proof.
  intros Hb Hx. unfold find_first_not_of. simpl. rewrite find_from_app, find_from_skip.
  - simpl. rewrite Hx. simpl. f_equal. lia.
  - eapply Forall_impl; [exact Hb|]. intros c. apply not_blank_negb.
Qed.

Lemma no_nonblank a bl :
  blank bl → find_first_not_of is_blank (a ++ bl) (Some (length a)) = None.
Proof.
  intros Hb. unfold find_first_not_of. simpl. rewrite find_from_app, find_from_none; [done|].
  eapply Forall_impl; [exact Hb|]. intros c. apply not_blank_negb.
Qed.

Lemma slice_app a w r : slice (a ++ w ++ r) (length a) (Some (length a + length w)) = w.
Proof.
  unfold slice. rewrite drop_app_length.
  replace (length a + length w - length a) with (length w) by lia. apply take_app_length.
Qed.

(** Past the end of the line the loop stays there: it stops if it is looking for the end of the
    line, and never if it is looking for a comment. *)
Lemma loop_npos fuel s e toks :
  tokenize_loop fuel s e None toks = if decide (e = None) then Some toks else None.
Proof.
  induction fuel as [|fuel IH]; simpl; repeat case_decide; congruence.
Qed.

(** A turn of the loop on a word that blanks and more text follow. *)
Lemma loop_word fuel a w b bl x t e toks :
  nonblank w → is_blank b = true → blank bl → is_blank x = false →
  Some (length a) ≠ e →
  tokenize_loop (S fuel) (a ++ w ++ b :: bl ++ x :: t) e (Some (length a)) toks
  = tokenize_loop fuel (a ++ w ++ b :: bl ++ x :: t) e
      (Some (length (a ++ w ++ b :: bl))) (toks ++ if w =s? [] then [] else [w]).
Proof.
  intros Hw Hb Hbl Hx He. cbn [tokenize_loop]. rewrite decide_False by done.
  rewrite first_blank by done.
  replace (find_first_not_of is_blank (a ++ w ++ b :: bl ++ x :: t) (Some (length a + length w)))
    with (Some (length (a ++ w ++ b :: bl))).
  2:{ pose proof (first_nonblank (a ++ w) (b :: bl) x t) as Hn.
      rewrite length_app, <-app_assoc in Hn. rewrite <-app_comm_cons in Hn.
      rewrite Hn by (try constructor; done). f_equal. rewrite !length_app. simpl. lia. }
  f_equal. destruct w as [|y w].
  - simpl. rewrite decide_True by (f_equal; lia). by rewrite app_nil_r.
  - rewrite decide_False by (intros [=]; lia). rewrite slice_app. done.
Qed.

(** The last turn: the last word, with or without blanks after it. *)
Lemma loop_last fuel a w bl e toks :
  nonblank w → blank bl → Some (length a) ≠ e →
  tokenize_loop (S fuel) (a ++ w ++ bl) e (Some (length a)) toks
  = tokenize_loop fuel (a ++ w ++ bl) e None
      (toks ++ if (w =s? []) && negb (bl =s? []) then [] else [w]).
Proof.
  intros Hw Hbl He. cbn [tokenize_loop]. rewrite decide_False by done.
  destruct Hbl as [|b bl Hb Hbl].
  - rewrite app_nil_r. replace (find_first_of is_blank (a ++ w) (Some (length a))) with (@None nat).
    2:{ simpl. by rewrite find_from_app, find_from_none. }
    rewrite decide_False by done. simpl. rewrite andb_false_r. by rewrite drop_app_length.
  - rewrite first_blank by done.
    replace (find_first_not_of is_blank (a ++ w ++ b :: bl) (Some (length a + length w)))
      with (@None nat).
    2:{ pose proof (no_nonblank (a ++ w) (b :: bl)) as Hn. rewrite length_app, <-app_assoc in Hn.
        rewrite Hn; [done|by constructor]. }
    f_equal. rewrite (bool_decide_eq_false_2 (b :: bl = [])) by done. rewrite andb_true_r.
    destruct w as [|y w].
    + simpl. rewrite decide_True by (f_equal; lia). by rewrite app_nil_r.
    + rewrite decide_False by (intros [=]; lia). rewrite slice_app. done.
Qed.

(** A line without a comment: its words, and one empty token for the empty line. *)
Lemma loop_plain n fuel a t toks :
  length t ≤ n → n + 1 < fuel → (t = [] → a = []) →
  tokenize_loop fuel (a ++ t) None (Some (length a)) toks
  = Some (toks ++ if t =s? [] then [[]] else words [] t).
Proof.
  revert fuel a t toks. induction n as [|n IH]; intros fuel a t toks Hn Hf Ht.
  - destruct t; [|simpl in Hn; lia]. destruct fuel as [|fuel]; [lia|].
    rewrite (loop_last fuel a [] []) by (done || constructor). by rewrite loop_npos.
  - destruct fuel as [|fuel]; [lia|].
    destruct (split_word t) as [Hw|[(w & b & bl & -> & Hw & Hb & Hbl)
                                   |(w & b & bl & x & t' & -> & Hw & Hb & Hbl & Hx)]].
    + pose proof (loop_last fuel a t [] None toks) as Hl. rewrite app_nil_r in Hl.
      rewrite Hl, loop_npos, andb_false_r by (done || constructor).
      rewrite words_run by done. simpl. by case_bool_decide; simplify_eq.
    + rewrite (loop_last fuel a w (b :: bl)) by (done || by constructor).
      rewrite loop_npos. simpl. rewrite andb_true_r.
      rewrite (bool_decide_eq_false_2 (w ++ _ = [])) by (by destruct w).
      rewrite words_word by done. rewrite <-(app_nil_r bl), words_blank by done.
      by rewrite app_nil_r.
    + rewrite loop_word by done.
      replace (a ++ w ++ b :: bl ++ x :: t') with ((a ++ w ++ b :: bl) ++ x :: t')
        by (by rewrite <-!app_assoc, <-!app_comm_cons).
      rewrite IH; [| |lia|done].
      2:{ rewrite !length_app in Hn. simpl in Hn. rewrite length_app in Hn. simpl in *. lia. }
      rewrite <-app_assoc. do 2 f_equal.
      rewrite (bool_decide_eq_false_2 (x :: t' = [])), (bool_decide_eq_false_2 (w ++ _ = []))
        by (by destruct w).
      rewrite words_word, words_blank by done. done.
Qed.

(** A line with a comment that starts after a blank or at the start of the line. *)
Lemma loop_comment n fuel a t post toks :
  length t ≤ n → n < fuel → (∀ c, last t = Some c → is_blank c = true) →
  tokenize_loop fuel (a ++ t ++ "#"%char :: post) (Some (length a + length t))
    (Some (length a)) toks
  = Some (toks ++ words [] t).
Proof.
  revert fuel a t toks. induction n as [|n IH]; intros fuel a t toks Hn Hf Ht.
  all: destruct fuel as [|fuel]; [lia|].
  all: destruct t as [|c t]; [simpl; rewrite decide_True by (f_equal; lia); by rewrite app_nil_r|].
  { simpl in Hn. lia. }
  remember (c :: t) as u eqn:Hu.
  assert (Hne : length u ≠ 0) by (by subst).
  destruct (split_word u) as [Hw|[(w & b & bl & -> & Hw & Hb & Hbl)
                                 |(w & b & bl & x & t' & -> & Hw & Hb & Hbl & Hx)]].
  - destruct (last u) as [z|] eqn:Hz; [|by apply last_None in Hz; subst].
    specialize (Ht z eq_refl). apply last_Some in Hz as (u' & ->).
    apply Forall_app in Hw as [_ Hw]. inversion Hw; congruence.
  - rewrite <-app_assoc, <-app_comm_cons. rewrite loop_word; [|done..|intros [=]; lia].
    replace (a ++ w ++ b :: bl ++ "#"%char :: post)
      with ((a ++ w ++ b :: bl) ++ [] ++ "#"%char :: post) by (by rewrite <-!app_assoc).
    replace (length a + length (w ++ b :: bl)) with (length (a ++ w ++ b :: bl) + length (@nil ascii))
      by (rewrite !length_app; simpl; lia).
    rewrite IH; [|simpl; lia| |done].
    2:{ rewrite !length_app in Hn. simpl in Hn. lia. }
    rewrite app_nil_r. do 2 f_equal. rewrite words_word by done.
    rewrite <-(app_nil_r bl), words_blank by done. by rewrite app_nil_r.
  - replace (a ++ (w ++ b :: bl ++ x :: t') ++ "#"%char :: post)
      with (a ++ w ++ b :: bl ++ x :: t' ++ "#"%char :: post)
      by (rewrite <-!app_assoc, <-!app_comm_cons, <-!app_assoc; done).
    rewrite loop_word; [|done..|intros [=]; lia].
    replace (a ++ w ++ b :: bl ++ x :: t' ++ "#"%char :: post)
      with ((a ++ w ++ b :: bl) ++ (x :: t') ++ "#"%char :: post)
      by (rewrite <-!app_assoc, <-!app_comm_cons; done).
    replace (length a + length (w ++ b :: bl ++ x :: t'))
      with (length (a ++ w ++ b :: bl) + length (x :: t'))
      by (rewrite !length_app; simpl; rewrite length_app; simpl; lia).
    rewrite IH.
    + rewrite <-app_assoc. do 2 f_equal. rewrite words_word, words_blank by done. done.
    + rewrite !length_app in Hn. simpl in Hn. rewrite length_app in Hn. simpl in *. lia.
    + rewrite !length_app in Hn. simpl in Hn. lia.
    + intros y Hy. apply Ht. rewrite !last_app. rewrite last_cons, last_app.
      simpl in *. by rewrite Hy.
Qed.

(** The first [#] of the line, if any, starts a token. *)
Definition comment_ok (s : str) : bool :=
  match break_at is_hash s with
  | (_, None) => true
  | (pre, Some _) => match last pre with None => true | Some c => is_blank c end
  end.

(** The tokens of a line: the words before the comment. *)
Definition line_tokens (s : str) : list str :=
  match break_at is_hash s with
  | (_, None) => if s =s? [] then [[]] else words [] s
  | (pre, Some _) => words [] pre
  end.

Lemma break_at_spec {A} (p : A → bool) l :
  match break_at p l with
  | (a, None) => a = l ∧ Forall (λ x, p x = false) l
  | (a, Some (x, r)) => l = a ++ x :: r ∧ p x = true ∧ Forall (λ x, p x = false) a
  end.
Proof.
  induction l as [|y l IH]; simpl; [done|]. destruct (p y) eqn:Hy; [done|].
  destruct (break_at p l) as [a [[x r]|]].
  - destruct IH as (-> & ? & ?). split_and!; [done..|by constructor].
  - destruct IH as (-> & ?). split; [done|by constructor].
Qed.

(** Where a comment starts inside a token, no turn of the loop lands on it. *)
Lemma loop_misses fuel s e p0 toks :
  s !! S e = Some "#"%char → (∃ c, s !! e = Some c ∧ is_blank c = false) → p0 ≠ Some (S e) →
  tokenize_loop fuel s (Some (S e)) p0 toks = None.
Proof.
  intros Hh (z & Hz & Hzb). revert p0 toks. induction fuel as [|fuel IH]; intros p0 toks Hp.
  { simpl. by rewrite decide_False. }
  cbn [tokenize_loop]. rewrite decide_False by done. apply IH.
  destruct p0 as [p0|]; [|done].
  destruct (find_first_of is_blank s (Some p0)) as [p1|] eqn:E1; [|done].
  intros E2. apply find_from_Some in E1 as (_ & (b & Hb & Hbb) & _).
  apply find_from_Some in E2 as (Hle & _ & Hk).
  assert (p1 ≠ S e) by (intros ->; rewrite Hh in Hb; by injection Hb as <-).
  specialize (Hk e z ltac:(lia) Hz). simpl in Hk. by rewrite Hzb in Hk.
Qed.

Lemma tokenizeLine_cases s :
  if comment_ok s then tokenizeLine s = Ok (line_tokens s)
  else ∀ fuel, tokenizeLine_fuel fuel s = None.
Proof.
  unfold comment_ok, line_tokens, tokenizeLine, tokenizeLine_fuel.
  pose proof (break_at_spec is_hash s) as Hs. destruct (break_at is_hash s) as [pre [[h post]|]].
  - destruct Hs as (-> & Hh & Hpre). unfold is_hash in Hh. apply bool_decide_eq_true in Hh as ->.
    rewrite (find_from_skip is_hash pre) by done. simpl.
    replace (length pre + 0) with (length pre) by lia.
    destruct (last pre) as [c|] eqn:Hl.
    2:{ apply last_None in Hl as ->. done. }
    destruct (is_blank c) eqn:Hc.
    + pose proof (loop_comment (length pre) (length (pre ++ "#"%char :: post) + 2) [] pre post [])
        as Hc'. simpl in Hc'. rewrite Hc'; [done|lia|rewrite length_app; lia|].
      intros c'. rewrite Hl. by intros [= <-].
    + intros fuel. apply last_Some in Hl as (pre' & ->).
      rewrite length_app, Nat.add_1_r, <-app_assoc.
      apply loop_misses; [|exists c; split; [by apply list_lookup_middle|done]|done].
      rewrite lookup_app_r by lia. by replace (S (length pre') - length pre') with 1 by lia.
  - destruct Hs as (-> & Hs). rewrite find_from_none by done.
    pose proof (loop_plain (length s) (length s + 2) [] s []) as Hp. simpl in Hp.
    by rewrite Hp by (done || lia).
Qed.

Lemma tokenizeLine_spec_ok s : comment_ok s = true → tokenizeLine s = Ok (line_tokens s).
Proof. intros H. pose proof (tokenizeLine_cases s) as Hs. by rewrite H in Hs. Qed.

(** C40: a line is split into the words before its comment; and a comment sign inside a word, as
    in "a b#c", is found by no turn of the loop, which then never ends. *)
Theorem tokenizeLine_spec s :
  if comment_ok s then tokenizeLine s = Ok (line_tokens s)
  else ∀ fuel, tokenizeLine_fuel fuel s = None.
Proof. apply tokenizeLine_cases. Qed.

(** * Lookup *)

Lemma tolower_digit d : (0 ≤ d < 16)%Z → tolower (digit_char d) = digit_char d.
Proof.
  intros Hd. unfold tolower, isupper, in_range, digit_char.
  destruct (Z.ltb_spec d 10); rewrite code_char_of by lia;
    (destruct (_ && _)%Z eqn:E; [lia|done]).
Qed.

Lemma lower_app a b : ToLowercase (a ++ b) = ToLowercase a ++ ToLowercase b.
Proof. apply fmap_app. Qed.

Lemma lower_idemp s : ToLowercase (ToLowercase s) = ToLowercase s.
Proof.
  unfold ToLowercase. rewrite <-list_fmap_compose. apply list_fmap_ext. intros _ c _. simpl.
  enough (bool_decide (tolower (tolower c) = tolower c) = true) as H by by apply bool_decide_eq_true in H.
  by_chars c (λ c, bool_decide (tolower (tolower c) = tolower c)).
Qed.

Lemma lower_show n : (0 ≤ n)%Z → ToLowercase (to_string n) = to_string n.
Proof.
  intros Hn. unfold to_string. replace (n <? 0)%Z with false by lia.
  unfold ToLowercase. apply list_eq_Forall2, Forall2_fmap_l.
  apply Forall_Forall2_diag, Forall_forall. intros c Hc.
  destruct (show_go_digits 10 ltac:(lia) _ n c Hn Hc) as (d & ? & ->). apply tolower_digit. lia.
Qed.

Definition no_dot (s : str) : Prop := Forall (λ c, c ≠ "."%char) s.

Lemma show_no_dot n : (0 ≤ n)%Z → no_dot (to_string n).
Proof.
  intros Hn. unfold to_string. replace (n <? 0)%Z with false by lia.
  apply Forall_forall. intros c Hc.
  destruct (show_go_digits 10 ltac:(lia) _ n c Hn Hc) as (d & ? & ->).
  unfold digit_char. case_match; intros He; apply (f_equal code) in He;
    rewrite code_char_of in He by lia; vm_compute (code _) in He; lia.
Qed.

Lemma last_dot_inj a b s t :
  no_dot s → no_dot t → a ++ "."%char :: s = b ++ "."%char :: t → a = b ∧ s = t.
Proof.
  intros Hs Ht. revert b. induction a as [|x a IH]; intros [|y b]; simpl.
  - by intros [= ->].
  - intros [= <- ->]. apply Forall_app in Hs as [_ Hs]. by inversion Hs.
  - intros [= -> <-]. apply Forall_app in Ht as [_ Ht]. by inversion Ht.
  - intros [= -> He]. by destruct (IH _ He) as [-> ->].
Qed.

(** Names of different entries of a vector differ, whatever stands before them. *)
Lemma index_name_inj a b i j :
  (0 ≤ i)%Z → (0 ≤ j)%Z → a ++ lit "." ++ to_string i = b ++ lit "." ++ to_string j → a = b ∧ i = j.
Proof.
  intros Hi Hj He. apply last_dot_inj in He as [-> He]; [|by apply show_no_dot..].
  split; [done|]. unfold to_string in He. replace (i <? 0)%Z with false in He by lia.
  replace (j <? 0)%Z with false in He by lia. by apply (show_base_inj 10) in He; [|lia..].
Qed.

Lemma lower_index name i :
  (0 ≤ i)%Z →
  ToLowercase (name ++ lit "." ++ to_string i) = ToLowercase name ++ lit "." ++ to_string i.
Proof. intros. by rewrite !lower_app, lower_show. Qed.

(** Entry [i] of a vector, as [GetString] finds it. *)
Definition entry_of (c : Configuration) (name : str) (i : Z) : option str :=
  first_match (config_map c) (search_list c (ToLowercase name ++ lit "." ++ to_string i)).

Lemma GetString_entry c name i d :
  (0 ≤ i)%Z →
  GetString c (name ++ lit "." ++ to_string i) d
  = match entry_of c name i with Some v => (0%Z, v) | None => (ENOENT, d) end.
Proof. intros Hi. unfold GetString, findBestMatch, entry_of. by rewrite lower_index. Qed.

Lemma vector_loop_spec fuel c name i :
  (0 ≤ i)%Z →
  let l := vector_loop fuel c name i in
  (∀ k : nat, k < length l → entry_of c name (i + Z.of_nat k) = l !! k) ∧
  (length l = fuel ∨ entry_of c name (i + Z.of_nat (length l)) = None).
Proof.
  revert i. induction fuel as [|fuel IH]; intros i Hi; cbn [vector_loop].
  { split; [simpl; lia|by left]. }
  rewrite GetString_entry by done. destruct (entry_of c name i) as [v|] eqn:E; simpl.
  - destruct (IH (i + 1)%Z ltac:(lia)) as [IH1 IH2]. split.
    + intros [|k] Hk; simpl.
      * rewrite <-E. f_equal. lia.
      * rewrite <-IH1 by lia. f_equal. lia.
    + destruct IH2 as [->|IH2]; [by left|right]. rewrite <-IH2. f_equal. lia.
  - split; [lia|right]. rewrite <-E. f_equal. lia.
Qed.

Lemma first_match_key m names v :
  first_match m names = Some v → ∃ k, k ∈ names ∧ k ∈ dom m.
Proof.
  induction names as [|k names IH]; simpl; [done|]. destruct (m !! k) eqn:E.
  - intros _. exists k. split; [set_solver|by apply elem_of_dom_2 in E].
  - intros (k' & ? & ?)%IH. exists k'. split; [set_solver|done].
Qed.

(** The setting that gives an entry has a name that ends with its index. *)
Lemma entry_key c name i v :
  entry_of c name i = Some v →
  ∃ p, p ++ lit "." ++ to_string i ∈ dom (config_map c).
Proof.
  intros H. apply first_match_key in H as (k & Hk & Hd). unfold search_list in Hk.
  set_unfold in Hk. destruct Hk as [->|[->|[->|[]]]].
  - exists (node_role c ++ lit "." ++ ToLowercase name). by rewrite <-!app_assoc.
  - exists (lit "default." ++ ToLowercase name). by rewrite <-!app_assoc.
  - by exists (ToLowercase name).
Qed.

Lemma entries_bound c name n :
  (∀ k : nat, k < n → entry_of c name (Z.of_nat k) ≠ None) → n ≤ size (config_map c).
Proof.
  intros H. assert (∃ X : gset str, X ⊆ dom (config_map c) ∧ size X = n ∧
    ∀ x, x ∈ X → ∃ p k, x = p ++ lit "." ++ to_string (Z.of_nat k) ∧ k < n) as (X & HX & HsX & _).
  - induction n as [|n IH].
    { exists ∅. split_and!; [set_solver|done|set_solver]. }
    destruct IH as (X & HX & HsX & HkX); [intros k ?; apply H; lia|].
    destruct (entry_of c name (Z.of_nat n)) as [v|] eqn:E; [|by apply H in E; [|lia]].
    apply entry_key in E as (p & Hp).
    exists ({[p ++ lit "." ++ to_string (Z.of_nat n)]} ∪ X). split_and!; [set_solver| |].
    + rewrite size_union, size_singleton, HsX; [lia|].
      apply disjoint_singleton_l. intros (p' & k & He & Hk)%HkX.
      apply index_name_inj in He as [_ He]; lia.
    + intros x [->%elem_of_singleton|(p' & k & -> & ?)%HkX]%elem_of_union; [by eauto|].
      exists p', k. split; [done|lia].
  - rewrite <-HsX, <-size_dom. by apply subseteq_size.
Qed.

(** The loop of [GetStringVector] ends at the first index that has no entry. *)
Lemma GetStringVector_spec c name :
  let l := GetStringVector c name in
  (∀ k : nat, k < length l → entry_of c name (Z.of_nat k) = l !! k) ∧
  entry_of c name (Z.of_nat (length l)) = None.
Proof.
  destruct (vector_loop_spec (S (size (config_map c))) c name 0 ltac:(lia)) as [H1 H2].
  fold (GetStringVector c name) in H1, H2. split; [exact H1|].
  destruct H2 as [H2|H2]; [|done].
  pose proof (entries_bound c name (length (GetStringVector c name))) as Hb.
  exfalso. cut (length (GetStringVector c name) ≤ size (config_map c)); [lia|].
  apply Hb. intros k Hk. specialize (H1 k Hk). rewrite Z.add_0_l in H1. rewrite H1.
  intros He%lookup_ge_None. lia.
Qed.

Lemma GetStringVector_unique c name l :
  (∀ k : nat, k < length l → entry_of c name (Z.of_nat k) = l !! k) →
  entry_of c name (Z.of_nat (length l)) = None → GetStringVector c name = l.
Proof.
  intros H1 H2. destruct (GetStringVector_spec c name) as [G1 G2].
  set (g := GetStringVector c name) in *.
  assert (length g = length l) as Hlen.
  { destruct (Nat.lt_trichotomy (length g) (length l)) as [Hlt|[He|Hlt]]; [|done|].
    - rewrite H1 in G2 by done. by apply lookup_ge_None in G2; lia.
    - rewrite G1 in H2 by done. by apply lookup_ge_None in H2; lia. }
  apply list_eq. intros k. destruct (decide (k < length l)).
  - rewrite <-G1, <-H1 by lia. done.
  - by rewrite !lookup_ge_None_2 by lia.
Qed.

Lemma take_drop_suffix (a b : str) :
  take (length (a ++ b) - length b) (a ++ b) = a ∧ drop (length (a ++ b) - length b) (a ++ b) = b.
Proof.
  rewrite length_app. replace (length a + length b - length b) with (length a) by lia.
  by rewrite take_app_length, drop_app_length.
Qed.

(** [Set] with the vector form of a name. *)
Lemma Set_vector c name v :
  name ≠ [] →
  Set_ c (name ++ lit "[]") v
  = mkConfig (node_role c)
      (<[ToLowercase name ++ lit "." ++ to_string (Z.of_nat (length (GetStringVector c name))) := v]>
        (config_map c)).
Proof.
  intros Hn. unfold Set_. rewrite lower_app. change (ToLowercase (lit "[]")) with (lit "[]").
  destruct (take_drop_suffix (ToLowercase name) (lit "[]")) as [Ht Hd].
  change (length (lit "[]")) with 2 in Ht, Hd. rewrite Ht, Hd.
  rewrite decide_True.
  2:{ rewrite length_app. simpl. unfold ToLowercase. rewrite length_fmap.
      destruct name; [done|simpl; lia]. }
  rewrite bool_decide_eq_true_2 by done.
  rewrite bool_decide_eq_false_2.
  2:{ intros He. apply (f_equal (reverse (A:=ascii))) in He. rewrite reverse_app in He.
      by vm_compute (reverse (lit "node_role")) in He. }
  do 5 f_equal. unfold GetStringVector. f_equal. generalize (S (size (config_map c))), 0%Z.
  intros f. clear. induction f as [|f IH]; intros i; simpl; [done|].
  unfold GetString, findBestMatch. rewrite !lower_app, lower_idemp.
  destruct (first_match _ _); simpl; [|done]. by rewrite IH.
Qed.

(** Storing another entry of a vector leaves the others as they are. *)
Lemma entry_of_insert c name i j v :
  (0 ≤ i)%Z → (0 ≤ j)%Z →
  entry_of (mkConfig (node_role c) (<[ToLowercase name ++ lit "." ++ to_string i := v]> (config_map c)))
    name j
  = if decide (i = j) then Some (default v
      (first_match (config_map c)
         [node_role c ++ lit "." ++ ToLowercase name ++ lit "." ++ to_string j;
          lit "default." ++ ToLowercase name ++ lit "." ++ to_string j]))
    else entry_of c name j.
Proof.
  intros Hi Hj. unfold entry_of, search_list. cbn [first_match node_role config_map].
  set (k := ToLowercase name ++ lit "." ++ to_string i).
  assert (∀ p : str, p ≠ [] → k ≠ p ++ ToLowercase name ++ lit "." ++ to_string j) as Hk.
  { intros p Hp He. unfold k in He. rewrite (app_assoc p) in He.
    apply index_name_inj in He as [He _]; [|done..]. apply (f_equal length) in He.
    rewrite length_app in He. destruct p; [done|simpl in He; lia]. }
  rewrite (lookup_insert_ne _ _ (node_role c ++ _)).
  2:{ rewrite app_assoc. apply Hk. by destruct (node_role c). }
  rewrite (lookup_insert_ne _ _ (lit "default." ++ _)) by (by apply Hk).
  case_decide as Hij.
  - subst j. unfold k. rewrite lookup_insert_eq. by repeat case_match.
  - rewrite lookup_insert_ne; [done|]. unfold k. intros He.
    by apply index_name_inj in He as [_ He].
Qed.

(** [Append] of several values under the vector form of one name. *)
Definition append_vector (c : Configuration) (name : str) (vals : list str) : Configuration :=
  fold_left (λ c v, Set_ c (name ++ lit "[]") v) vals c.

Lemma append_vector_snoc c name vals v :
  append_vector c name (vals ++ [v]) = Set_ (append_vector c name vals) (name ++ lit "[]") v.
Proof. unfold append_vector. by rewrite fold_left_app. Qed.

Lemma append_vector_entries c name vals :
  name ≠ [] → (∀ i, (0 ≤ i)%Z → entry_of c name i = None) →
  node_role (append_vector c name vals) = node_role c ∧
  ∀ k : nat, entry_of (append_vector c name vals) name (Z.of_nat k) = vals !! k.
Proof.
  intros Hn Hc. induction vals as [|v vals [IHr IH]] using rev_ind.
  { split; [done|]. intros k. simpl. by rewrite Hc by lia. }
  rewrite append_vector_snoc. set (c' := append_vector c name vals) in *.
  assert (GetStringVector c' name = vals) as Hv.
  { apply GetStringVector_unique.
    - intros k _. apply IH.
    - rewrite IH. by apply lookup_ge_None_2. }
  rewrite Set_vector by done. rewrite Hv. split; [done|]. intros k.
  rewrite entry_of_insert by lia. case_decide as Hk.
  - assert (k = length vals) as -> by lia.
    specialize (IH (length vals)). rewrite lookup_ge_None_2 in IH by done.
    unfold entry_of, search_list in IH. cbn [first_match] in IH |- *.
    rewrite list_lookup_middle by done. by repeat case_match.
  - rewrite IH. destruct (decide (k < length vals)).
    + by rewrite lookup_app_l.
    + rewrite !lookup_ge_None_2; [done| |lia]. rewrite length_app. simpl. lia.
Qed.

(** the values appended one after the other under "name[]" are what [GetStringVector]
    returns, in their order, whatever the role of the node. *)
Theorem vector_roundtrip c name vals :
  name ≠ [] → (∀ i, (0 ≤ i)%Z → entry_of c name i = None) →
  GetStringVector (append_vector c name vals) name = vals.
Proof.
  intros Hn Hc. destruct (append_vector_entries c name vals Hn Hc) as [_ H].
  apply GetStringVector_unique; [intros k _; apply H|]. rewrite H. by apply lookup_ge_None_2.
Qed.

(** * Setting and reading one name *)

Lemma GetString_absent c name d :
  (GetString c name d).1 = ENOENT →
  GetString c name d = (ENOENT, d) ∧ config_map c !! ToLowercase name = None.
Proof.
  unfold GetString, findBestMatch, search_list. cbn [first_match].
  destruct (config_map c !! (node_role c ++ _)); [done|].
  destruct (config_map c !! (lit "default." ++ _)); [done|].
  by destruct (config_map c !! ToLowercase name).
Qed.

(** A name without a list suffix. *)
Definition plain (name : str) : bool :=
  negb (bool_decide (2 < length name) &&
        (StringEndsWith name (lit "[]") || StringEndsWith name (lit "<>"))).

Lemma Set_plain c name val :
  plain (ToLowercase name) = true →
  Set_ c name val
  = mkConfig (if name =s? lit "node_role" then val else node_role c)
      (<[ToLowercase name := val]> (config_map c)).
Proof.
  unfold plain, StringEndsWith, Set_. intros Hp.
  change (length (lit "[]")) with 2 in Hp. change (length (lit "<>")) with 2 in Hp.
  destruct (decide (2 < length (ToLowercase name))) as [Hl|Hl]; [|done].
  rewrite bool_decide_eq_true_2, !decide_False in Hp by lia. rewrite andb_true_l in Hp.
  apply negb_true_iff, orb_false_iff in Hp as [-> ->]. done.
Qed.

Lemma GetString_Set c name val d :
  plain (ToLowercase name) = true →
  let c' := Set_ c name val in
  GetString c' name d
  = (0%Z, match config_map c !! (node_role c' ++ lit "." ++ ToLowercase name) with
          | Some v => v
          | None => default val (config_map c !! (lit "default." ++ ToLowercase name))
          end).
Proof.
  intros Hp c'. unfold GetString, findBestMatch, search_list.
  assert (config_map c' = <[ToLowercase name := val]> (config_map c)) as ->.
  { unfold c'. by rewrite Set_plain. }
  cbn [first_match].
  rewrite (lookup_insert_ne _ _ (node_role c' ++ _)).
  2:{ intros He%(f_equal length). rewrite !length_app in He. simpl in He. lia. }
  rewrite (lookup_insert_ne _ _ (lit "default." ++ _)).
  2:{ intros He%(f_equal length). rewrite !length_app in He. simpl in He. lia. }
  rewrite lookup_insert_eq. destruct (config_map c !! (node_role _ ++ _)); [done|]. by destruct (config_map c !! (lit "default." ++ _)).
Qed.

(** what is set under a name is what a lookup finds, unless the role of the node or the
    default role has a setting of its own for it, which then wins, in this order. *)
Theorem set_then_get c name val d :
  plain (ToLowercase name) = true →
  let c' := Set_ c name val in
  GetString c' name d
  = (0%Z, match config_map c !! (node_role c' ++ lit "." ++ ToLowercase name) with
          | Some v => v
          | None => default val (config_map c !! (lit "default." ++ ToLowercase name))
          end).
Proof. apply GetString_Set. Qed.

(** * The text of a configuration *)

Definition token (w : str) : Prop :=
  w ≠ [] ∧ Forall (λ c, is_blank c = false ∧ is_hash c = false ∧ c ≠ "010"%char) w.

(** A line that sets [name] to the words [vals]. *)
Definition render_line (kv : str * list str) : str := kv.1 ++ " "%char :: Join kv.2 " "%char.

Fixpoint render (l : list (str * list str)) : str :=
  match l with [] => [] | kv :: l' => render_line kv ++ "010"%char :: render l' end.

Definition setting_ok (kv : str * list str) : Prop := token kv.1 ∧ kv.2 ≠ [] ∧ Forall token kv.2.

Lemma token_nonblank w : token w → nonblank w.
Proof. intros [_ H]. eapply Forall_impl; [exact H|]. naive_solver. Qed.

Lemma words_join vals : Forall token vals → words [] (Join vals " "%char) = vals.
Proof.
  induction 1 as [|w vals Hw Hv IH]; [done|]. cbn [Join].
  pose proof (proj1 Hw) as Hn. apply token_nonblank in Hw.
  destruct vals as [|v vals].
  - rewrite app_nil_r, words_run by done. by rewrite bool_decide_eq_false_2.
  - rewrite words_word by done. rewrite IH. by rewrite bool_decide_eq_false_2.
Qed.

(** Every character of the line satisfies a property that the tokens and the space have. *)
Lemma Forall_join (P : ascii → Prop) vals :
  P " "%char → Forall (Forall P) vals → Forall P (Join vals " "%char).
Proof.
  intros Hs. induction 1 as [|w vals Hw Hv IH]; [by constructor|]. cbn [Join].
  apply Forall_app. split; [done|]. destruct vals; [done|]. by constructor.
Qed.

Lemma render_line_chars (P : ascii → Prop) kv :
  P " "%char → Forall P kv.1 → Forall (Forall P) kv.2 → Forall P (render_line kv).
Proof.
  intros. unfold render_line. apply Forall_app. split; [done|]. constructor; [done|].
  by apply Forall_join.
Qed.

Lemma setting_chars (P : ascii → Prop) kv :
  (∀ c, is_blank c = false ∧ is_hash c = false ∧ c ≠ "010"%char → P c) → P " "%char →
  setting_ok kv → Forall P (render_line kv).
Proof.
  intros HP Hs ([_ H1] & _ & H2). apply render_line_chars; [done| |].
  - by eapply Forall_impl.
  - eapply Forall_impl; [exact H2|]. intros w [_ Hw]. by eapply Forall_impl.
Qed.

Lemma tokenize_render kv : setting_ok kv → tokenizeLine (render_line kv) = Ok (kv.1 :: kv.2).
Proof.
  intros Hkv. assert (Forall (λ c, is_hash c = false) (render_line kv)) as Hh
    by (apply setting_chars; [naive_solver|done|done]).
  pose proof (tokenizeLine_spec_ok (render_line kv)) as Hs. unfold comment_ok, line_tokens in Hs.
  rewrite break_at_none in Hs by done. rewrite Hs by done. f_equal.
  destruct Hkv as ([Hn1 Hn2] & _ & Hv). unfold render_line in *.
  rewrite bool_decide_eq_false_2 by (by destruct kv.1).
  rewrite words_word, words_join by (done || by apply token_nonblank).
  by rewrite bool_decide_eq_false_2.
Qed.

Lemma split_go_app sep cur a b :
  Forall (λ c, c ≠ sep) a →
  split_go sep false cur (a ++ sep :: b) = (cur ++ a) :: split_go sep false [] b.
Proof.
  intros H. revert cur. induction H as [|c a Hc _ IH]; intros cur; simpl.
  - by rewrite bool_decide_eq_true_2, app_nil_r.
  - rewrite bool_decide_eq_false_2 by done. by rewrite IH, <-app_assoc.
Qed.

Lemma getlines_cons sep a b :
  Forall (λ c, c ≠ sep) a → getlines (a ++ sep :: b) sep = a :: getlines b sep.
Proof.
  intros H. unfold getlines, Split. rewrite split_go_app by done. simpl app.
  assert (split_go sep false [] b ≠ []) as Hne.
  { clear. generalize (@nil ascii). induction b as [|c b IH]; intros cur; simpl; [done|].
    case_bool_decide; [done|]. apply IH. }
  destruct (split_go sep false [] b) as [|x l] eqn:E; [done|].
  rewrite last_cons_cons. destruct (last (x :: l)) as [[|]|]; try done.
  replace (length (a :: x :: l) - 1) with (S (length (x :: l) - 1)) by (simpl; lia). done.
Qed.

Lemma getlines_render l :
  Forall setting_ok l → getlines (render l) "010"%char = render_line <$> l.
Proof.
  induction 1 as [|kv l Hkv Hl IH]; [done|]. cbn [render].
  rewrite getlines_cons; [by rewrite IH|]. apply setting_chars; [naive_solver|done|done].
Qed.

(** Applying a list of settings one after the other. *)
Definition set_all (c : Configuration) (l : list (str * list str)) : Configuration :=
  fold_left (λ c kv, Set_ c (ToLowercase kv.1) (Join kv.2 " "%char)) l c.

(** appending the text of a list of settings sets them one after the other, so that later
    lines win, names are lower-case and the words of a value are kept. *)
Theorem append_text c l : Forall setting_ok l → Append c (render l) = Ok (set_all c l).
Proof.
  intros Hl. unfold Append, addConfigToMap. rewrite getlines_render by done.
  revert c. induction Hl as [|kv l Hkv Hl IH]; intros c; simpl; [done|].
  unfold add_line. rewrite tokenize_render by done. simpl.
  destruct Hkv as (_ & Hne & _). destruct kv as [k [|v vs]]; [done|]. apply IH.
Qed.

(** * Files *)

Section files.
Context (getenv : str → option str) (wordexp : str → Z → option (list str))
        (read_file : str → option str).
Let read := read_segment wordexp read_file.

(** A segment whose file cannot be read or is empty. *)
Definition unreadable (segment : str) : Prop :=
  ExpandPathSafely wordexp segment ≠ [] ∧
  (read_file (c_str (ExpandPathSafely wordexp segment)) = None ∨
   read_file (c_str (ExpandPathSafely wordexp segment)) = Some []).

Lemma read_failed segs t : fold_left read segs (t, false) = (t, false).
Proof.
  induction segs as [|s segs IH]; [done|]. simpl. unfold read at 2, read_segment. simpl.
  by case_decide.
Qed.

(** a file of a list that is missing or empty ends the reading: the files after it are
    ignored. *)
Theorem unreadable_file_ends_list pre bad post text :
  fold_left read pre ([], true) = (text, true) → unreadable bad →
  fold_left read (pre ++ bad :: post) ([], true) = (text, false).
Proof.
  intros Hp [Hne Hr]. rewrite fold_left_app, Hp. simpl.
  replace (read (text, true) bad) with (text, false); [apply read_failed|].
  unfold read, read_segment. rewrite decide_True.
  - by destruct Hr as [-> | ->].
  - destruct (ExpandPathSafely wordexp bad); [done|simpl; lia].
Qed.

(** Without references nothing is read and the configuration stays as it is. *)
Lemma no_references c :
  (GetString c (lit "config.additional_files") []).1 = ENOENT →
  (GetString c (lit "config.additional_files.env_name") []).1 = ENOENT →
  (GetString c (lit "config.additional_files.env_name.if_defined") []).1 = ENOENT →
  AppendFromReferences getenv wordexp read_file c = Ok c.
Proof.
  intros H1 H2 H3.
  apply GetString_absent in H1 as [E1 H1], H2 as [E2 H2], H3 as [E3 H3].
  unfold AppendFromReferences. rewrite E1, E2, E3. destruct c as [r m].
  cbn [config_map node_role snd] in *.
  rewrite (delete_id m _ H1), (delete_id m _ H2), (delete_id m _ H3). done.
Qed.
End files.

(** * Pointers *)

Lemma c_str_id s : Forall (λ c, c ≠ nul) s → c_str s = s.
Proof.
  induction 1 as [|c s Hc _ IH]; simpl; [done|]. rewrite bool_decide_eq_false_2 by done. by rewrite IH.
Qed.

Lemma read_zeros n base t :
  (2 ≤ base)%Z → read_digits base 0 (replicate n "0"%char ++ t) = read_digits base 0 t.
Proof.
  intros Hb. induction n as [|n IH]; [done|]. cbn [replicate app read_digits].
  change (digit_val "0"%char) with (Some 0%Z). cbn iota beta.
  rewrite (proj2 (Z.ltb_lt 0 base)) by lia. by rewrite Z.add_0_r, Z.mul_0_l.
Qed.

Lemma show_hex_chars n : (0 ≤ n)%Z → Forall (λ c, is_digit_of 16 c = true) (show_hex n).
Proof. intros. apply show_go_all_digits; lia. Qed.

Lemma is_digit_xdigit c : is_digit_of 16 c = true → isxdigit c = true ∧ c ≠ nul.
Proof.
  intros H.
  assert (implb (is_digit_of 16 c) (isxdigit c && negb (c =c? nul)) = true) as Hc
    by (by_chars c (λ c, implb (is_digit_of 16 c) (isxdigit c && negb (c =c? nul)))).
  rewrite H in Hc. simpl in Hc. apply andb_prop in Hc as [-> Hc]. split; [done|].
  intros ->. by vm_compute in Hc.
Qed.

Lemma StringToPtr_text v : (0 ≤ v < 2 ^ 64)%Z → StringToPtr (ptr_text v) = v.
Proof.
  intros Hv. unfold ptr_text. destruct (Z.eqb_spec v 0) as [->|Hnz]; [by vm_compute|].
  unfold pad_left. set (z := replicate _ _). set (ds := z ++ show_hex v).
  assert (Forall (λ c, is_digit_of 16 c = true) ds) as Hds.
  { apply Forall_app. split; [|apply show_hex_chars; lia].
    apply Forall_replicate. done. }
  assert (ds ≠ []) as Hne.
  { unfold ds. intros [_ He]%app_nil. by apply (show_base_nonempty 16) in He. }
  assert (read_digits 16 0 ds = (v, [])) as Hrd.
  { unfold ds, z. rewrite read_zeros by lia.
    pose proof (read_show_base 16 ltac:(lia) v []) as Hr. rewrite app_nil_r in Hr. apply Hr; [lia|done]. }
  destruct ds as [|d ds]; [done|]. apply Forall_cons in Hds as Hd. destruct Hd as [Hd _].
  unfold StringToPtr, strtoul. change (lit "0x") with ["0"%char; "x"%char]. cbn [app].
  rewrite c_str_id.
  2:{ constructor; [done|]. constructor; [done|]. eapply Forall_impl; [exact Hds|].
      intros c Hc. by apply is_digit_xdigit. }
  unfold scan_number, skip_ws. cbn [drop_while]. change (isspace "0"%char) with false. cbn iota.
  cbn [take_sign]. rewrite !bool_decide_eq_false_2 by done. cbn iota. cbn [take_radix].
  destruct (is_digit_xdigit d Hd) as [-> _].
  change (((16 =? 0)%Z || (16 =? 16)%Z) && ("0" =c? "0")%char
          && (("x" =c? "x")%char || ("x" =c? "X")%char) && true) with true. cbn iota.
  rewrite Hd, Hrd. replace (ULONG_MAX <? v)%Z with false by (unfold ULONG_MAX; lia). done.
Qed.

(** a pointer stored in a configuration is read back as it was. *)
Theorem pointer_roundtrip c name v d :
  plain (ToLowercase name) = true → (0 ≤ v < 2 ^ 64)%Z →
  config_map c !! (node_role (Set_ptr c name v) ++ lit "." ++ ToLowercase name) = None →
  config_map c !! (lit "default." ++ ToLowercase name) = None →
  GetPtr (Set_ptr c name v) name d = (0%Z, v).
Proof.
  intros Hp Hv H1 H2. unfold GetPtr, Set_ptr in *.
  pose proof (GetString_Set c name (ptr_text v) [] Hp) as Hg. unfold GetString in Hg.
  rewrite Hg, H1, H2. simpl. by rewrite StringToPtr_text.
Qed.

(** * Mutexes *)

Module MutexFacts.
Import Mutex.

(** The kind a configuration names can always be made. *)
Lemma component_mutex_made pthreads openmp c component_name default_mutex_type id :
  GetComponentMutexTypeID pthreads openmp c component_name default_mutex_type = Ok id →
  GenerateComponentMutex pthreads openmp c component_name default_mutex_type = Ok id.
Proof.
  intros H. unfold GenerateComponentMutex. rewrite H. simpl.
  unfold GetComponentMutexTypeID, GetMutexTypeID in H.
  destruct pthreads, openmp; simpl in H; repeat case_match; simplify_eq; done.
Qed.

(** In a pthreads build the model and type of a kind give the kind back. *)
Lemma mutex_info_roundtrip id :
  id ∈ [NONE; PTHREADS_LOCK; PTHREADS_RWLOCK] →
  let '(rc, tm, mt) := GetMutexInfoByID id in rc = 0%Z ∧ GetMutexTypeID true false tm mt = Ok id.
Proof. intros H. set_unfold in H. by destruct H as [->|[->|[->|[]]]]. Qed.
End MutexFacts.

(** * Witnesses *)

Lemma vector_roundtrip_witness :
  GetStringVector (append_vector (mkConfig (lit "server") ∅) (lit "Url") [lit "a"; lit "b"; lit "c"])
    (lit "Url") = [lit "a"; lit "b"; lit "c"].
Proof.
  apply vector_roundtrip; [done|]. intros i _. unfold entry_of, search_list. cbn [first_match config_map].
  by rewrite !lookup_empty.
Defined.

Lemma set_then_get_witness :
  GetString (Set_ (mkConfig (lit "server") ∅) (lit "Debug") (lit "true")) (lit "debug") []
  = (0%Z, lit "true").
Proof.
  change (lit "debug") with (ToLowercase (lit "Debug")) at 1.
  pose proof (set_then_get (mkConfig (lit "server") ∅) (lit "debug") (lit "true") [] eq_refl) as H.
  exact H.
Defined.

Lemma append_text_witness :
  Append (mkConfig (lit "default") ∅) (render [(lit "A", [lit "x"; lit "y"]); (lit "b", [lit "1"])])
  = Ok (set_all (mkConfig (lit "default") ∅) [(lit "A", [lit "x"; lit "y"]); (lit "b", [lit "1"])]).
Proof. apply append_text. repeat constructor; done. Defined.

Definition demo_files (name : str) : option str :=
  if name =s? lit "/a" then Some (lit "x 1") else if name =s? lit "/c" then Some (lit "y 2") else None.

Lemma unreadable_witness :
  fold_left (read_segment (λ s _, Some [s]) demo_files) ([lit "/a"] ++ lit "/b" :: [lit "/c"]) ([], true)
  = (lit "x 1", false).
Proof.
  apply (unreadable_file_ends_list (λ s _, Some [s]) demo_files [lit "/a"]); [vm_compute; reflexivity|].
  split; [by vm_compute|]. left. by vm_compute.
Defined.

Lemma pointer_roundtrip_witness :
  GetPtr (Set_ptr (mkConfig (lit "default") ∅) (lit "ptr") 3735928559) (lit "ptr") 0
  = (0%Z, 3735928559%Z).
Proof. apply pointer_roundtrip; [by vm_compute|lia|by vm_compute|by vm_compute]. Defined.
