(* ===== verification/Whookie.v ===== *)
(** The web service of a node (whookie): the HTTP request parser, the request handler with its
    table of hooks, the replies, a connection that reads a request in pieces, the server's life
    cycle, and the client's side of a request.

    Sources under src/src/whookie: server/boost/request_parser.cpp, request_handler.cpp,
    reply.cpp, mime_types.cpp, connection.cpp, server.cpp and client/Client.cpp.  The sockets
    (Boost.Asio) are byte sequences: a request arrives in chunks of any size, a response is what
    was written before the end of the stream.  A hook is a function from the arguments of a
    request to the text of its page. *)
From S2P Require Import Prelude StringHelpers Identifiers Configuration.

(** * Requests (request.hpp, header.hpp) *)

Record header := mkHeader { h_name : str; h_value : str }.

Record request := mkReq {
  req_method : str;
  req_uri : str;
  http_version_major : Z;
  http_version_minor : Z;
  req_headers : list header
}.

(** Character constants of the protocol. *)
Definition CR : ascii := "013"%char.
Definition LF : ascii := "010"%char.
Definition TAB : ascii := "009"%char.
Definition SP : ascii := " "%char.

(** * The parser (request_parser.cpp)

    A character is tested as an [int] made from a signed [char]. *)
Module Parser.

Inductive result_type := good | bad | indeterminate.

Inductive state :=
| method_start | method | uri | http_version_h | http_version_t_1 | http_version_t_2
| http_version_p | http_version_slash | http_version_major_start | s_http_version_major
| http_version_minor_start | s_http_version_minor | expecting_newline_1 | header_line_start
| header_lws | header_name | space_before_header_value | header_value | expecting_newline_2
| expecting_newline_3.

Definition is_char (c : ascii) : bool := ((0 <=? schar c) && (schar c <=? 127))%Z.
Definition is_ctl (c : ascii) : bool :=
  (((0 <=? schar c) && (schar c <=? 31)) || (schar c =? 127))%Z.
Definition is_tspecial (c : ascii) : bool :=
  bool_decide (c ∈ lit "()<>@,;:\/[]?={} " ++ ["034"%char; TAB]).
Definition is_digit (c : ascii) : bool := ((48 <=? schar c) && (schar c <=? 57))%Z.

Definition not_token (c : ascii) : bool := negb (is_char c) || is_ctl c || is_tspecial c.

Definition push_method (r : request) (c : ascii) : request :=
  mkReq (req_method r ++ [c]) (req_uri r) (http_version_major r) (http_version_minor r) (req_headers r).
Definition push_uri (r : request) (c : ascii) : request :=
  mkReq (req_method r) (req_uri r ++ [c]) (http_version_major r) (http_version_minor r) (req_headers r).
Definition set_version (r : request) (major minor : Z) : request :=
  mkReq (req_method r) (req_uri r) major minor (req_headers r).
Definition set_headers (r : request) (hs : list header) : request :=
  mkReq (req_method r) (req_uri r) (http_version_major r) (http_version_minor r) hs.

(** [version * 10 + input - '0'] on an [int], which wraps where the program overflows. *)
Definition add_digit (version : Z) (c : ascii) : Z := s32 (version * 10 + schar c - 48).

(** [req.headers.back()] changed; the states that do it come after a header was pushed. *)
Definition on_last (f : header → header) (hs : list header) : list header :=
  match last hs with
  | Some h => take (length hs - 1) hs ++ [f h]
  | None => hs
  end.
Definition push_name (c : ascii) (h : header) : header := mkHeader (h_name h ++ [c]) (h_value h).
Definition push_value (c : ascii) (h : header) : header := mkHeader (h_name h) (h_value h ++ [c]).

Definition consume (st : state) (req : request) (input : ascii) : result_type * state * request :=
  let fail := (bad, st, req) in
  let go st' req' := (indeterminate, st', req') in
  match st with
  | method_start =>
      if not_token input then fail else go method (push_method req input)
  | method =>
      if input =c? SP then go uri req
      else if not_token input then fail else go method (push_method req input)
  | uri =>
      if input =c? SP then go http_version_h req
      else if is_ctl input then fail else go uri (push_uri req input)
  | http_version_h => if input =c? "H"%char then go http_version_t_1 req else fail
  | http_version_t_1 => if input =c? "T"%char then go http_version_t_2 req else fail
  | http_version_t_2 => if input =c? "T"%char then go http_version_p req else fail
  | http_version_p => if input =c? "P"%char then go http_version_slash req else fail
  | http_version_slash =>
      if input =c? "/"%char then go http_version_major_start (set_version req 0 0) else fail
  | http_version_major_start =>
      if is_digit input
      then go s_http_version_major
             (set_version req (add_digit (http_version_major req) input) (http_version_minor req))
      else fail
  | s_http_version_major =>
      if input =c? "."%char then go http_version_minor_start req
      else if is_digit input
      then go s_http_version_major
             (set_version req (add_digit (http_version_major req) input) (http_version_minor req))
      else fail
  | http_version_minor_start =>
      if is_digit input
      then go s_http_version_minor
             (set_version req (http_version_major req) (add_digit (http_version_minor req) input))
      else fail
  | s_http_version_minor =>
      if input =c? CR then go expecting_newline_1 req
      else if is_digit input
      then go s_http_version_minor
             (set_version req (http_version_major req) (add_digit (http_version_minor req) input))
      else fail
  | expecting_newline_1 => if input =c? LF then go header_line_start req else fail
  | header_line_start =>
      if input =c? CR then go expecting_newline_3 req
      else if negb (bool_decide (length (req_headers req) = 0)) && ((input =c? SP) || (input =c? TAB))
      then go header_lws req
      else if not_token input then fail
      else go header_name (set_headers req (req_headers req ++ [mkHeader [input] []]))
  | header_lws =>
      if input =c? CR then go expecting_newline_2 req
      else if (input =c? SP) || (input =c? TAB) then go header_lws req
      else if is_ctl input then fail
      else go header_value (set_headers req (on_last (push_value input) (req_headers req)))
  | header_name =>
      if input =c? ":"%char then go space_before_header_value req
      else if not_token input then fail
      else go header_name (set_headers req (on_last (push_name input) (req_headers req)))
  | space_before_header_value => if input =c? SP then go header_value req else fail
  | header_value =>
      if input =c? CR then go expecting_newline_2 req
      else if is_ctl input then fail
      else go header_value (set_headers req (on_last (push_value input) (req_headers req)))
  | expecting_newline_2 => if input =c? LF then go header_line_start req else fail
  | expecting_newline_3 => if input =c? LF then (good, st, req) else fail
  end.

(** [parse]: up to the character that decides, and what follows it. *)
Fixpoint parse (st : state) (req : request) (input : str) : result_type * state * request * str :=
  match input with
  | [] => (indeterminate, st, req, [])
  | c :: input' =>
      match consume st req c with
      | (indeterminate, st', req') => parse st' req' input'
      | (r, st', req') => (r, st', req', input')
      end
  end.
End Parser.

(** * Replies (reply.cpp, mime_types.cpp) *)

Inductive status_type :=
| ok | created | accepted | no_content | multiple_choices | moved_permanently | moved_temporarily
| not_modified | bad_request | unauthorized | forbidden | not_found | internal_server_error
| not_implemented | bad_gateway | service_unavailable.

Definition crlf : str := [CR; LF].

(** The number and the words of a status. *)
Definition status_words (s : status_type) : str :=
  match s with
  | ok => lit "200 OK" | created => lit "201 Created" | accepted => lit "202 Accepted"
  | no_content => lit "204 No Content" | multiple_choices => lit "300 Multiple Choices"
  | moved_permanently => lit "301 Moved Permanently"
  | moved_temporarily => lit "302 Moved Temporarily"
  | not_modified => lit "304 Not Modified" | bad_request => lit "400 Bad Request"
  | unauthorized => lit "401 Unauthorized" | forbidden => lit "403 Forbidden"
  | not_found => lit "404 Not Found"
  | internal_server_error => lit "500 Internal Server Error"
  | not_implemented => lit "501 Not Implemented" | bad_gateway => lit "502 Bad Gateway"
  | service_unavailable => lit "503 Service Unavailable"
  end.

Definition status_string (s : status_type) : str := lit "HTTP/1.0 " ++ status_words s ++ crlf.

Record reply := mkReply { rep_status : status_type; rep_headers : list header; rep_content : str }.

Definition to_buffers (r : reply) : str :=
  status_string (rep_status r)
  ++ (rep_headers r ≫= λ h, h_name h ++ lit ": " ++ h_value h ++ crlf)
  ++ crlf ++ rep_content r.

(** The page of a stock reply: no content for "ok", and "204 Content" for the page of 204. *)
Definition stock_page (s : status_type) : str :=
  match s with
  | ok => []
  | no_content =>
      lit "<html><head><title>No Content</title></head><body><h1>204 Content</h1></body></html>"
  | _ => lit "<html><head><title>" ++ drop 4 (status_words s) ++ lit "</title></head><body><h1>"
         ++ status_words s ++ lit "</h1></body></html>"
  end.

Definition stock_reply (s : status_type) : reply :=
  mkReply s [mkHeader (lit "Content-Length") (to_string (Z.of_nat (length (stock_page s))));
             mkHeader (lit "Content-Type") (lit "text/html")] (stock_page s).

Definition extension_to_type (extension : str) : str :=
  if extension =s? lit "gif" then lit "image/gif"
  else if (extension =s? lit "htm") || (extension =s? lit "html") then lit "text/html"
  else if extension =s? lit "jpg" then lit "image/jpeg"
  else if extension =s? lit "png" then lit "image/png"
  else lit "text/plain".

(** * The request handler (request_handler.cpp) *)

(** [is >> std::hex >> value] on an [int] and a short stream: [None] where extraction fails.  The
    extractor takes a sign and a "0x" that digits must follow. *)
Definition stream_hex_int (s : str) : option Z :=
  let '(neg, t) := take_sign (skip_ws s) in
  let digits :=
    match t with
    | z :: x :: r => if (z =c? "0"%char) && ((x =c? "x"%char) || (x =c? "X"%char)) then r else t
    | _ => t
    end in
  match digits with
  | c :: _ =>
      if is_digit_of 16 c
      then let v := (read_digits 16 0 digits).1 in Some (if neg then (- v)%Z else v)
      else None
  | [] => None
  end.

Fixpoint url_decode (inp : str) : option str :=
  match inp with
  | [] => Some []
  | c :: s1 =>
      if c =c? "%"%char then
        match s1 with
        | h :: l :: s2 =>
            match stream_hex_int [h; l] with
            | Some value => cons (char_of (wrap 8 value)) <$> url_decode s2
            | None => None
            end
        | _ => None
        end
      else if c =c? "+"%char then cons SP <$> url_decode s1
      else cons c <$> url_decode s1
  end.

(** [s.find("..") != npos] *)
Fixpoint has_dotdot (s : str) : bool :=
  match s with
  | a :: ((b :: _) as s') => ((a =c? "."%char) && (b =c? "."%char)) || has_dotdot s'
  | _ => false
  end.

(** [splitString]: before and after the first delimiter. *)
Definition splitString (item : str) (delim : ascii) : str * str :=
  match break_at (λ c, c =c? delim) item with
  | (a, Some (_, b)) => (a, b)
  | (a, None) => (item, [])
  end.

Definition add_arg (m : gmap str str) (item : str) : gmap str str :=
  let '(k, v) := splitString item "="%char in <[k := v]> m.

(** [parseArgString]: the pieces between the ampersands that are not empty. *)
Definition parseArgString (args : str) : gmap str str :=
  fold_left add_arg (Split args "&"%char true) ∅.

Definition handler := gmap str str → str.
Abbreviation hooks := (gmap str handler).

Definition handle_request (cbs : hooks) (req : request) : reply :=
  match url_decode (req_uri req) with
  | None => stock_reply bad_request
  | Some request_path =>
      match request_path with
      | c :: _ =>
          if negb (c =c? "/"%char) || has_dotdot request_path then stock_reply bad_request
          else
            let '(tag, rest) := break_at (λ c, c =c? "&"%char) request_path in
            let args := match rest with Some (_, a) => a | None => [] end in
            let arg_map := parseArgString args in
            match cbs !! tag with
            | None => mkReply not_found [] []
            | Some f =>
                let content := f arg_map in
                mkReply ok
                  [mkHeader (lit "Content-Length") (to_string (Z.of_nat (length content)));
                   mkHeader (lit "Content-Type") (extension_to_type (lit "html"))] content
            end
      | [] => stock_reply bad_request
      end
  end.

(** The return code and the table. *)
Definition registerHook (cbs : hooks) (name : str) (f : handler) : Z * hooks :=
  match cbs !! name with
  | None => (0%Z, <[name := f]> cbs)
  | Some _ => ((-1)%Z, cbs)
  end.
Definition updateHook (cbs : hooks) (name : str) (f : handler) : Z * hooks :=
  (0%Z, <[name := f]> cbs).
Definition deregisterHook (cbs : hooks) (name : str) : Z * hooks :=
  (match cbs !! name with None => -1 | Some _ => 0 end, delete name cbs)%Z.

(** * A connection (connection.cpp): [do_read] over the chunks that arrive; [None]: it still reads. *)
Fixpoint do_read (cbs : hooks) (st : Parser.state) (req : request) (chunks : list str) : option reply :=
  match chunks with
  | [] => None
  | buffer :: chunks' =>
      match Parser.parse st req buffer with
      | (Parser.good, _, req', _) => Some (handle_request cbs req')
      | (Parser.bad, _, _, _) => Some (stock_reply bad_request)
      | (Parser.indeterminate, st', req', _) => do_read cbs st' req' chunks'
      end
  end.

Definition empty_request : request := mkReq [] [] 0 0 [].
Definition serve (cbs : hooks) (chunks : list str) : option reply :=
  do_read cbs Parser.method_start empty_request chunks.

(** * The client (Client.cpp) *)

Definition request_text (server path : str) : str :=
  lit "GET " ++ path ++ lit " HTTP/1.0" ++ crlf
  ++ lit "Host: " ++ server ++ crlf
  ++ lit "Accept: */*" ++ crlf
  ++ lit "Connection: close" ++ crlf ++ crlf.

(** Does the text contain [p]? *)
Fixpoint contains (p s : str) : bool :=
  mismatch_at_end p s || match s with [] => false | _ :: s' => contains p s' end.

(** [getline(response_stream, line)]: the line, what follows, and whether any text was there. *)
Definition getline (s : str) : option (str * str) :=
  match s with
  | [] => None
  | _ => match break_at (λ c, c =c? LF) s with
         | (a, Some (_, r)) => Some (a, r)
         | (a, None) => Some (a, [])
         end
  end.

(** [response_stream >> word]. *)
Definition read_word (s : str) : option (str * str) :=
  match break_at isspace (skip_ws s) with
  | ([], _) => None
  | (w, Some (c, r)) => Some (w, c :: r)
  | (w, None) => Some (w, [])
  end.

(** [response_stream >> status_code] on an [unsigned int], with at least one digit. *)
Definition read_uint (s : str) : option (Z * str) :=
  match scan_number 10 s with
  | Some (neg, v, r) =>
      if (2 ^ 32 - 1 <? v)%Z then None else Some (if neg then u32 (- v) else v, r)
  | None => None
  end.

(** Skip the header lines; the text after the blank line. *)
Fixpoint skip_headers (fuel : nat) (s : str) : str :=
  match fuel with
  | O => s
  | S fuel =>
      match getline s with
      | None => s
      | Some (line, r) => if line =s? [CR] then r else skip_headers fuel r
      end
  end.

(** [retrieveData] on the bytes of the response, up to the end of the stream: the return code and
    the data.  The first line is taken to be complete when it is read (a response that begins with
    an empty line may be cut there). *)
Definition retrieveData (response : str) : Z * option str :=
  if negb (contains crlf response) then ((-3)%Z, None)
  else
    let status_line :=
      '(http_version, r) ← read_word response;
      '(status_code, r) ← read_uint r;
      '(_, r) ← getline r;
      Some (http_version, status_code, r) in
    match status_line with
    | None => ((-1)%Z, None)
    | Some (http_version, status_code, r) =>
        if negb (take 5 http_version =s? lit "HTTP/") then ((-1)%Z, None)
        else if negb (status_code =? 200)%Z then ((-2)%Z, None)
        else if negb (contains (crlf ++ crlf) r) then ((-3)%Z, None)
        else (0%Z, Some (skip_headers (S (length r)) r))
    end.

(** * The server (server.cpp)

    [asio] holds the hooks of the request handler; it is there from [Init] to the last [stop].
    The pages of the default hooks are parameters, and so is whether a port can be bound. *)
Section server.
Context (page_root page_about page_proc page_config page_bootstrap : handler)
        (can_bind : str → Z → bool) (interfaces_up : list (str * option str)).

Definition new_request_handler : hooks :=
  (registerHook (registerHook (registerHook ∅ (lit "/") page_root).2
     (lit "/about") page_about).2 (lit "/proc") page_proc).2.

Record server := mkServer {
  configured_ : bool;
  port_ : Z;
  num_starters_ : Z;
  asio_ : option hooks;
  app_name : str
}.

(** The hook calls go through [asio_], which is no object before [Init] and after [stop]. *)
Definition on_hooks (f : hooks → Z * hooks) (s : server) : outcome (Z * server) :=
  match asio_ s with
  | None => Throw Undefined
  | Some cbs =>
      let '(rc, cbs) := f cbs in
      Ok (rc, mkServer (configured_ s) (port_ s) (num_starters_ s) (Some cbs) (app_name s))
  end.

(** The address of the first interface that has one of the prefixes, in the order of the
    prefixes; [None] for an interface without an IPv4 address. *)
Fixpoint search_prefix (ifs : list (str * option str)) (interface : str) : option str :=
  match ifs with
  | [] => None
  | (name, Some host) :: ifs' =>
      if StringBeginsWith name interface then Some host else search_prefix ifs' interface
  | (_, None) :: ifs' => search_prefix ifs' interface
  end.

Fixpoint search_list_of (prefixes : list str) : str :=
  match prefixes with
  | [] => []
  | p :: prefixes' =>
      match search_prefix interfaces_up p with Some host => host | None => search_list_of prefixes' end
  end.

Definition search_interfaces (interfaces : str) : str :=
  search_list_of (Split interfaces ","%char true).

(** Count upwards until a port can be bound; [None]: out of fuel. *)
Fixpoint find_port (fuel : nat) (address : str) (port : Z) : option Z :=
  match fuel with
  | O => None
  | S fuel => if can_bind address port then Some port else find_port fuel address (u32 (port + 1))
  end.

Definition start (fuel : nat) (address : str) (port : Z) (s : server) : option (Z * server) :=
  let s := mkServer (configured_ s) (port_ s) (num_starters_ s + 1) (asio_ s) (app_name s) in
  if configured_ s then Some (port_ s, s)
  else
    port ← find_port fuel address port;
    Some (port, mkServer true port (num_starters_ s) (asio_ s) (app_name s)).

Definition stop (s : server) : Z * server :=
  if (num_starters_ s =? 0)%Z then (0%Z, s)
  else
    let n := (num_starters_ s - 1)%Z in
    (n, if (n =? 0)%Z then mkServer false (port_ s) n None (app_name s)
        else mkServer (configured_ s) (port_ s) n (asio_ s) (app_name s)).

(** [InitAndModifyConfiguration]; the node id is set from the address that was bound. *)
Definition InitAndModifyConfiguration (fuel : nat) (config : Configuration) (s : server)
    : outcome (option server) :=
  let app_name := (GetString config (lit "whookie.app_name") (lit "Whookie Application")).2 in
  '(_, port) ← GetInt config (lit "whookie.port") (lit "1990");
  let address := (GetLowercaseString config (lit "whookie.address") (lit "0.0.0.0")).2 in
  let interfaces := (GetLowercaseString config (lit "whookie.interfaces") (lit "eth,lo")).2 in
  let interface_address :=
    if address =s? lit "0.0.0.0" then search_interfaces interfaces else [] in
  let address := if interface_address =s? [] then address else interface_address in
  match port with
  | None => Throw Undefined
  | Some port =>
      let s := mkServer (configured_ s) (port_ s) (num_starters_ s) (Some new_request_handler) app_name in
      '(_, s) ← on_hooks (λ cbs, updateHook cbs (lit "/config") page_config) s;
      '(_, s) ← on_hooks (λ cbs, updateHook cbs (lit "/bootstraps") page_bootstrap) s;
      Ok (snd <$> start fuel address (u32 port) s)
  end.
End server.

(** * The parser *)

Section parser.
Import Parser.

(** Parsing a text in two pieces is parsing it at once. *)
Lemma parse_app st req a b :
  parse st req (a ++ b)
  = match parse st req a with
    | (indeterminate, st', req', _) => parse st' req' b
    | (r, st', req', rest) => (r, st', req', rest ++ b)
    end.
Proof.
  revert st req. induction a as [|c a IH]; intros st req; simpl; [done|].
  destruct (consume st req c) as [[[] st'] req']; [done..|apply IH].
Qed.

(** A turn of the parser that goes on. *)
Lemma parse_step st req c i st' req' :
  consume st req c = (indeterminate, st', req') → parse st req (c :: i) = parse st' req' i.
Proof. intros H. simpl. by rewrite H. Qed.

Definition token_chars (s : str) : Prop := Forall (λ c, not_token c = false) s.
Definition value_chars (s : str) : Prop := Forall (λ c, is_ctl c = false) s.
Definition uri_chars (s : str) : Prop := Forall (λ c, is_ctl c = false ∧ c ≠ SP) s.

Lemma token_not c : not_token c = false → c ≠ SP ∧ c ≠ ":"%char ∧ c ≠ CR ∧ c ≠ TAB.
Proof. intros H. split_and!; intros ->; by vm_compute in H. Qed.

Lemma not_ctl c : is_ctl c = false → c ≠ CR.
Proof. intros H ->. by vm_compute in H. Qed.

Lemma parse_method req m i :
  token_chars m →
  parse method req (m ++ SP :: i)
  = parse uri (mkReq (req_method req ++ m) (req_uri req) (http_version_major req)
                 (http_version_minor req) (req_headers req)) i.
Proof.
  intros H. revert req. induction H as [|c m Hc _ IH]; intros req; cbn [app].
  - rewrite (parse_step _ _ _ _ uri req) by done. rewrite app_nil_r. by destruct req.
  - destruct (token_not c Hc) as (Hsp & _).
    rewrite (parse_step _ _ _ _ method (push_method req c)).
    + rewrite IH. simpl. by rewrite <-app_assoc.
    + simpl. rewrite bool_decide_eq_false_2 by done. by rewrite Hc.
Qed.

Lemma parse_uri req u i :
  uri_chars u →
  parse uri req (u ++ SP :: i)
  = parse http_version_h (mkReq (req_method req) (req_uri req ++ u) (http_version_major req)
                 (http_version_minor req) (req_headers req)) i.
Proof.
  intros H. revert req. induction H as [|c u [Hc Hsp] _ IH]; intros req; cbn [app].
  - rewrite (parse_step _ _ _ _ http_version_h req) by done. rewrite app_nil_r. by destruct req.
  - rewrite (parse_step _ _ _ _ uri (push_uri req c)).
    + rewrite IH. simpl. by rewrite <-app_assoc.
    + simpl. rewrite bool_decide_eq_false_2 by done. by rewrite Hc.
Qed.

Lemma on_last_snoc f hs h : on_last f (hs ++ [h]) = hs ++ [f h].
Proof.
  unfold on_last. rewrite last_snoc. f_equal. rewrite length_app. simpl.
  replace (length hs + 1 - 1) with (length hs) by lia. apply take_app_length.
Qed.

Lemma parse_name req hs n v m i :
  token_chars m → req_headers req = hs ++ [mkHeader n v] →
  parse header_name req (m ++ ":"%char :: SP :: i)
  = parse header_value (set_headers req (hs ++ [mkHeader (n ++ m) v])) i.
Proof.
  intros H. revert req n. induction H as [|c m Hc _ IH]; intros req n Hr; cbn [app].
  - rewrite (parse_step _ _ _ _ space_before_header_value req) by done.
    rewrite (parse_step _ _ _ _ header_value req) by done.
    rewrite app_nil_r, <-Hr. by destruct req.
  - destruct (token_not c Hc) as (_ & Hcol & _).
    rewrite (parse_step _ _ _ _ header_name
               (set_headers req (on_last (push_name c) (req_headers req)))).
    + rewrite Hr, on_last_snoc. rewrite (IH _ (n ++ [c])) by done. simpl. by rewrite <-app_assoc.
    + simpl. rewrite bool_decide_eq_false_2 by done. by rewrite Hc.
Qed.

Lemma parse_value req hs n v m i :
  value_chars m → req_headers req = hs ++ [mkHeader n v] →
  parse header_value req (m ++ crlf ++ i)
  = parse header_line_start (set_headers req (hs ++ [mkHeader n (v ++ m)])) i.
Proof.
  intros H. revert req v. induction H as [|c m Hc _ IH]; intros req v Hr; cbn [app].
  - change (crlf ++ i) with (CR :: LF :: i).
    rewrite (parse_step _ _ _ _ expecting_newline_2 req) by done.
    rewrite (parse_step _ _ _ _ header_line_start req) by done.
    rewrite app_nil_r, <-Hr. by destruct req.
  - rewrite (parse_step _ _ _ _ header_value
               (set_headers req (on_last (push_value c) (req_headers req)))).
    + rewrite Hr, on_last_snoc. rewrite (IH _ (v ++ [c])) by done. simpl. by rewrite <-app_assoc.
    + simpl. rewrite bool_decide_eq_false_2 by (by apply not_ctl). by rewrite Hc.
Qed.

Definition header_ok (h : header) : Prop :=
  h_name h ≠ [] ∧ token_chars (h_name h) ∧ value_chars (h_value h).

Definition header_text (h : header) : str := h_name h ++ lit ": " ++ h_value h ++ crlf.

Lemma parse_header req h i :
  header_ok h →
  parse header_line_start req (header_text h ++ i)
  = parse header_line_start (set_headers req (req_headers req ++ [h])) i.
Proof.
  intros (Hne & Hn & Hv). destruct h as [[|c n] v]; [done|]. simpl in Hne, Hn, Hv.
  apply Forall_cons in Hn as [Hc Hn]. destruct (token_not c Hc) as (Hsp & _ & Hcr & Htab).
  unfold header_text. cbn [h_name h_value].
  replace (((c :: n) ++ lit ": " ++ v ++ crlf) ++ i)
    with (c :: n ++ ":"%char :: SP :: v ++ crlf ++ i)
    by (simpl; by rewrite <-!app_assoc; simpl; rewrite <-app_assoc).
  rewrite (parse_step _ _ _ _ header_name (set_headers req (req_headers req ++ [mkHeader [c] []]))).
  - rewrite (parse_name _ (req_headers req) [c] []) by done.
    rewrite (parse_value _ (req_headers req) (c :: n) []) by done. done.
  - simpl. rewrite (bool_decide_eq_false_2 (c = CR)), (bool_decide_eq_false_2 (c = SP)),
      (bool_decide_eq_false_2 (c = TAB)) by done. simpl. rewrite andb_false_r. by rewrite Hc.
Qed.

Lemma parse_headers req hs i :
  Forall header_ok hs →
  parse header_line_start req ((hs ≫= header_text) ++ i)
  = parse header_line_start (set_headers req (req_headers req ++ hs)) i.
Proof.
  intros H. revert req. induction H as [|h hs Hh _ IH]; intros req; simpl.
  - rewrite app_nil_r. by destruct req.
  - rewrite <-app_assoc, parse_header by done. rewrite IH. simpl. by rewrite <-app_assoc.
Qed.

(** The digits of a version number, read one by one. *)
Lemma digit_is d : (0 ≤ d < 10)%Z →
  is_digit (digit_char d) = true ∧ digit_char d ≠ "."%char ∧ digit_char d ≠ CR ∧
  schar (digit_char d) = (48 + d)%Z.
Proof.
  intros Hd. unfold is_digit, schar, digit_char. replace (d <? 10)%Z with true by lia.
  rewrite code_char_of by lia. replace (48 + d <? 128)%Z with true by lia. split_and!; [lia| | |done].
  all: intros He; apply (f_equal code) in He; rewrite code_char_of in He by lia;
    vm_compute (code _) in He; lia.
Qed.

Lemma add_digit_val n d :
  (0 ≤ n)%Z → (0 ≤ d < 10)%Z → (n * 10 + d < 2 ^ 31)%Z →
  add_digit n (digit_char d) = (n * 10 + d)%Z.
Proof.
  intros. unfold add_digit, s32. destruct (digit_is d) as (_ & _ & _ & ->); [done|].
  replace (n * 10 + (48 + d) - 48)%Z with (n * 10 + d)%Z by lia.
  rewrite wrap_id by (unfold in_width; lia). by replace (n * 10 + d <? 2 ^ 31)%Z with true by lia.
Qed.

(** The value read from the digits of [n], and that each of them is a digit. *)
Lemma fold_show fuel n :
  (0 ≤ n < 2 ^ 31)%Z → Z.to_nat (Z.log2 n) < fuel →
  fold_left add_digit (show_go fuel 10 n) 0%Z = n.
Proof.
  revert n; induction fuel as [|fuel IH]; intros n Hn Hf; [lia|]. simpl.
  destruct (Z.ltb_spec n 10).
  - simpl. rewrite add_digit_val by lia. lia.
  - pose proof (Z.div_mod n 10 ltac:(lia)). pose proof (Z.mod_pos_bound n 10 ltac:(lia)).
    assert (0 ≤ n / 10)%Z by (apply Z.div_pos; lia).
    rewrite fold_left_app, IH; [|lia|].
    + simpl. rewrite add_digit_val by lia. lia.
    + enough (Z.log2 (n / 10) < Z.log2 n)%Z by (pose proof (Z.log2_nonneg (n / 10)%Z); lia).
      destruct (decide (n / 10 = 0)%Z) as [->|Hq0].
      { change (Z.log2 0) with 0%Z. apply Z.log2_pos. lia. }
      apply Z.lt_le_trans with (Z.log2 (2 * (n / 10)))%Z.
      * rewrite Z.log2_double by lia. lia.
      * apply Z.log2_le_mono. lia.
Qed.

Definition all_digits (s : str) : Prop := Forall (λ c, ∃ d, (0 ≤ d < 10)%Z ∧ c = digit_char d) s.

Lemma show_digits n : (0 ≤ n)%Z → all_digits (show_dec n).
Proof. intros Hn. apply Forall_forall. intros c Hc. by eapply (show_go_digits 10 ltac:(lia)). Qed.

Lemma parse_major req ds i :
  all_digits ds →
  parse s_http_version_major req (ds ++ "."%char :: i)
  = parse http_version_minor_start
      (set_version req (fold_left add_digit ds (http_version_major req)) (http_version_minor req)) i.
Proof.
  intros H. revert req. induction H as [|c ds (d & Hd & ->) _ IH]; intros req; cbn [app].
  - rewrite (parse_step _ _ _ _ http_version_minor_start req) by done. by destruct req.
  - destruct (digit_is d Hd) as (Hdig & Hdot & _).
    erewrite parse_step.
    2:{ simpl. rewrite bool_decide_eq_false_2 by done. by rewrite Hdig. }
    by rewrite IH.
Qed.

Lemma parse_minor req ds i :
  all_digits ds →
  parse s_http_version_minor req (ds ++ crlf ++ i)
  = parse header_line_start
      (set_version req (http_version_major req) (fold_left add_digit ds (http_version_minor req))) i.
Proof.
  intros H. revert req. induction H as [|c ds (d & Hd & ->) _ IH]; intros req; cbn [app].
  - change (crlf ++ i) with (CR :: LF :: i).
    rewrite (parse_step _ _ _ _ expecting_newline_1 req) by done.
    rewrite (parse_step _ _ _ _ header_line_start req) by done. by destruct req.
  - destruct (digit_is d Hd) as (Hdig & _ & Hcr & _).
    erewrite parse_step.
    2:{ simpl. rewrite bool_decide_eq_false_2 by done. by rewrite Hdig. }
    by rewrite IH.
Qed.

Definition version_text (major minor : Z) : str :=
  lit "HTTP/" ++ show_dec major ++ lit "." ++ show_dec minor.

Lemma parse_version req major minor i :
  (0 ≤ major < 2 ^ 31)%Z → (0 ≤ minor < 2 ^ 31)%Z →
  parse http_version_h req (version_text major minor ++ crlf ++ i)
  = parse header_line_start (set_version req major minor) i.
Proof.
  intros Hma Hmi. unfold version_text. rewrite <-!app_assoc.
  change (lit "HTTP/" ++ show_dec major ++ lit "." ++ show_dec minor ++ crlf ++ i)
    with ("H"%char :: "T"%char :: "T"%char :: "P"%char :: "/"%char
          :: show_dec major ++ "."%char :: show_dec minor ++ crlf ++ i).
  do 5 (erewrite parse_step; [|reflexivity]).
  pose proof (show_digits major ltac:(lia)) as Dma. pose proof (show_digits minor ltac:(lia)) as Dmi.
  pose proof (fold_show (S (Z.to_nat (Z.log2 major))) major Hma ltac:(lia)) as Fma.
  pose proof (fold_show (S (Z.to_nat (Z.log2 minor))) minor Hmi ltac:(lia)) as Fmi.
  change (show_go _ 10 major) with (show_dec major) in Fma.
  change (show_go _ 10 minor) with (show_dec minor) in Fmi.
  pose proof (show_base_nonempty 10 major) as Nma. pose proof (show_base_nonempty 10 minor) as Nmi.
  destruct (show_dec major) as [|c ds]; [done|]. destruct (show_dec minor) as [|c' ds']; [done|].
  apply Forall_cons in Dma as [(d & Hd & ->) Dma], Dmi as [(d' & Hd' & ->) Dmi].
  destruct (digit_is d Hd) as (Hdig & _), (digit_is d' Hd') as (Hdig' & _).
  cbn [app]. erewrite parse_step; [|simpl; by rewrite Hdig]. rewrite parse_major by done.
  erewrite parse_step; [|simpl; by rewrite Hdig']. rewrite parse_minor by done.
  simpl in *. by rewrite Fma, Fmi.
Qed.

(** A request as text, and the requests that have one. *)
Definition print_request (r : request) : str :=
  req_method r ++ SP :: req_uri r ++ SP :: version_text (http_version_major r) (http_version_minor r)
  ++ crlf ++ (req_headers r ≫= header_text) ++ crlf.

Definition request_ok (r : request) : Prop :=
  req_method r ≠ [] ∧ token_chars (req_method r) ∧ uri_chars (req_uri r) ∧
  (0 ≤ http_version_major r < 2 ^ 31)%Z ∧ (0 ≤ http_version_minor r < 2 ^ 31)%Z ∧
  Forall header_ok (req_headers r).

Lemma parse_print r i :
  request_ok r →
  parse method_start empty_request (print_request r ++ i) = (good, expecting_newline_3, r, i).
Proof.
  intros (Hm & Ht & Hu & Hma & Hmi & Hh). destruct r as [[|c m] u major minor hs]; [done|].
  simpl in Ht, Hu, Hma, Hmi, Hh. apply Forall_cons in Ht as [Hc Ht].
  unfold print_request. cbn [req_method req_uri http_version_major http_version_minor req_headers].
  repeat (rewrite <-app_assoc || rewrite <-app_comm_cons).
  erewrite parse_step; [|simpl; by rewrite Hc].
  rewrite parse_method, parse_uri, parse_version, parse_headers by done. done.
Qed.
End parser.

(** The parser looks at the last header only after it pushed one. *)
Section parser_safety.
Import Parser.

Definition has_header (st : state) : bool :=
  match st with
  | header_lws | header_name | space_before_header_value | header_value | expecting_newline_2 => true
  | _ => false
  end.

Definition parser_ok (st : state) (req : request) : Prop :=
  has_header st = true → req_headers req ≠ [].

Lemma on_last_nonempty f hs : hs ≠ [] → on_last f hs ≠ [].
Proof.
  intros H. unfold on_last. destruct (last hs) eqn:E; [|by apply last_None in E].
  intros [_ ?]%app_nil. done.
Qed.

Lemma consume_ok st req c r st' req' :
  parser_ok st req → consume st req c = (r, st', req') → parser_ok st' req'.
Proof.
  intros Hok. unfold consume, parser_ok in *.
  destruct st; repeat case_match; intros [= <- <- <-]; simpl; try done; intros _;
    try (by apply Hok); try (apply on_last_nonempty; by apply Hok);
    try (intros [_ ?]%app_nil; done).
  destruct (req_headers req); [|done]. simpl in *. done.
Qed.

Lemma parse_ok st req i r st' req' rest :
  parser_ok st req → parse st req i = (r, st', req', rest) → parser_ok st' req'.
Proof.
  revert st req. induction i as [|c i IH]; intros st req Hok; simpl.
  { by intros [= <- <- <- <-]. }
  destruct (consume st req c) as [[r0 st0] req0] eqn:E. apply consume_ok in E; [|done].
  destruct r0; [by intros [= <- <- <- <-]..|by apply IH].
Qed.
End parser_safety.

(** * Connections *)

Lemma do_read_concat cbs st req chunks :
  do_read cbs st req chunks = do_read cbs st req [concat chunks].
Proof.
  revert st req. induction chunks as [|b chunks IH]; intros st req; [done|].
  cbn [do_read concat]. rewrite parse_app.
  destruct (Parser.parse st req b) as [[[[] st'] req'] rest] eqn:E; [done..|].
  rewrite IH. cbn [do_read]. done.
Qed.

Lemma serve_print cbs r : request_ok r → serve cbs [print_request r] = Some (handle_request cbs r).
Proof.
  intros Hr. unfold serve. cbn [do_read]. pose proof (parse_print r [] Hr) as Hp.
  rewrite app_nil_r in Hp. by rewrite Hp.
Qed.

(** a request that arrives in pieces of any size is answered as if it had come at once, and
    a well-formed request is handed to the handler as it was written. *)
Theorem request_roundtrip cbs r chunks :
  request_ok r → concat chunks = print_request r →
  serve cbs chunks = Some (handle_request cbs r).
Proof.
  intros Hr Hc. unfold serve. rewrite do_read_concat, Hc. by apply serve_print.
Qed.

(** * The client *)

Lemma contains_app p a b : contains p (a ++ p ++ b) = true.
Proof.
  induction a as [|c a IH]; simpl.
  - assert (mismatch_at_end p (p ++ b) = true) as Hm.
    { induction p as [|x p IH]; simpl; [done|]. by rewrite bool_decide_eq_true_2, IH. }
    destruct (p ++ b); simpl; by rewrite Hm.
  - rewrite IH. by rewrite orb_true_r.
Qed.

Definition no_lf (s : str) : Prop := Forall (λ c, c ≠ LF) s.

Lemma getline_crlf h r : no_lf h → getline (h ++ crlf ++ r) = Some (h ++ [CR], r).
Proof.
  intros H. unfold getline.
  replace (h ++ crlf ++ r) with ((h ++ [CR]) ++ LF :: r) by (by rewrite <-app_assoc).
  rewrite break_at_app.
  - by destruct h.
  - apply Forall_app. split; [|by repeat constructor].
    eapply Forall_impl; [exact H|]. intros c Hc. by apply bool_decide_eq_false.
  - done.
Qed.

Definition line_ok (h : header) : Prop := no_lf (h_name h) ∧ no_lf (h_value h).

Lemma skip_headers_spec hs body fuel :
  Forall line_ok hs → length hs < fuel →
  skip_headers fuel ((hs ≫= header_text) ++ crlf ++ body) = body.
Proof.
  intros H. revert fuel. induction H as [|h hs [Hn Hv] _ IH]; intros fuel Hf.
  all: destruct fuel as [|fuel]; [simpl in Hf; lia|].
  - done.
  - assert (((h :: hs) ≫= header_text) ++ crlf ++ body
      = (h_name h ++ lit ": " ++ h_value h) ++ crlf ++ (hs ≫= header_text) ++ crlf ++ body) as ->.
    { simpl. unfold header_text. by rewrite <-!app_assoc. }
    cbn [skip_headers]. rewrite getline_crlf.
    2:{ repeat (apply Forall_app; split); [done|by repeat constructor|done]. }
    rewrite bool_decide_eq_false_2; [apply IH; simpl in Hf; lia|].
    intros He%(f_equal length). rewrite !length_app in He. simpl in He. lia.
Qed.

Lemma length_headers hs : length hs ≤ length (hs ≫= header_text).
Proof.
  induction hs as [|h hs IH]; [done|]. cbn [mbind list_bind length]. rewrite length_app.
  assert (2 ≤ length (header_text h)).
  { unfold header_text. rewrite !length_app. simpl. lia. }
  etrans; [|apply Nat.add_le_mono; [exact H|exact IH]]. lia.
Qed.

Lemma contains_headers h hs body :
  contains (crlf ++ crlf) (((h :: hs) ≫= header_text) ++ crlf ++ body) = true.
Proof.
  assert (∃ a, (h :: hs) ≫= header_text = a ++ crlf) as [a ->].
  { revert h. induction hs as [|h' hs IH]; intros h.
    - exists (h_name h ++ lit ": " ++ h_value h). simpl. unfold header_text.
      by rewrite app_nil_r, <-!app_assoc.
    - destruct (IH h') as [a Ha]. exists (header_text h ++ a).
      change ((h :: h' :: hs) ≫= header_text) with (header_text h ++ ((h' :: hs) ≫= header_text)).
      by rewrite Ha, app_assoc. }
  rewrite <-app_assoc, (app_assoc crlf crlf). apply contains_app.
Qed.

(** The client reads the content of a reply with status 200, and -2 from any other. *)
Lemma retrieve_ok h hs body :
  Forall line_ok (h :: hs) →
  retrieveData (to_buffers (mkReply ok (h :: hs) body)) = (0%Z, Some body).
Proof.
  intros Hh. unfold retrieveData, to_buffers. cbn [rep_status rep_headers rep_content].
  fold header_text. set (H := ((h :: hs) ≫= header_text)).
  replace (contains crlf _) with true.
  2:{ symmetry. unfold status_string. rewrite <-!app_assoc.
      rewrite (app_assoc (lit "HTTP/1.0 ")). apply contains_app. }
  cbn [negb].
  change (read_word (status_string ok ++ H ++ crlf ++ body))
    with (Some (lit "HTTP/1.0", lit " 200 OK" ++ crlf ++ H ++ crlf ++ body)).
  cbn [mbind option_bind].
  change (read_uint (lit " 200 OK" ++ crlf ++ H ++ crlf ++ body))
    with (Some (200%Z, lit " OK" ++ crlf ++ H ++ crlf ++ body)).
  cbn [mbind option_bind]. rewrite getline_crlf by (by repeat constructor).
  cbn [mbind option_bind]. change (take 5 (lit "HTTP/1.0") =s? lit "HTTP/") with true.
  cbn [negb]. change (200 =? 200)%Z with true. cbn [negb]. unfold H.
  rewrite contains_headers. cbn [negb]. do 2 f_equal. apply skip_headers_spec; [done|].
  pose proof (length_headers (h :: hs)). rewrite length_app. lia.
Qed.

Lemma retrieve_not_ok r :
  rep_status r ≠ ok → retrieveData (to_buffers r) = ((-2)%Z, None).
Proof.
  intros Hs. unfold retrieveData, to_buffers.
  replace (contains crlf _) with true.
  2:{ symmetry. unfold status_string. rewrite <-!app_assoc.
      rewrite (app_assoc (lit "HTTP/1.0 ")). apply contains_app. }
  set (R := (rep_headers r ≫= _) ++ crlf ++ rep_content r). cbn [negb].
  destruct (rep_status r); [done|..]; reflexivity.
Qed.

(** * Paths and arguments *)

(** The characters of a punycoded path, decoded one by one. *)
Definition puny_decodes (c : ascii) : bool :=
  if isalnum c then negb (c =c? "%"%char) && negb (c =c? "+"%char)
  else match puny_char c with
       | [p; h; l] =>
           (p =c? "%"%char) &&
           match stream_hex_int [h; l] with Some v => char_of (wrap 8 v) =c? c | None => false end
       | _ => false
       end.

Lemma puny_decodes_all c : puny_decodes c = true.
Proof. by_chars c puny_decodes. Qed.

(** Any path can be requested in its punycoded form. *)
Lemma url_decode_punycode s : url_decode (MakePunycode s) = Some s.
Proof.
  induction s as [|c s IH]; [done|]. change (MakePunycode (c :: s)) with (puny_char c ++ MakePunycode s).
  pose proof (puny_decodes_all c) as Hc. unfold puny_decodes in Hc. destruct (isalnum c) eqn:Ha.
  - unfold puny_char. rewrite Ha. apply andb_prop in Hc as [H1 H2]. simpl.
    apply negb_true_iff in H1, H2. by rewrite H1, H2, IH.
  - destruct (puny_char c) as [|p [|h [|l [|]]]]; try done. apply andb_prop in Hc as [Hp Hv].
    cbn [app url_decode]. rewrite Hp. destruct (stream_hex_int [h; l]); [|done].
    apply bool_decide_eq_true in Hv as ->. by rewrite IH.
Qed.

Definition query_item (kv : str * str) : str := kv.1 ++ "="%char :: kv.2.

(** The path of a hook with arguments. *)
Definition query_path (tag : str) (args : list (str * str)) : str :=
  tag ++ (args ≫= λ kv, "&"%char :: query_item kv).

Definition arg_ok (kv : str * str) : Prop :=
  Forall (λ c, c ≠ "&"%char ∧ c ≠ "="%char) kv.1 ∧ Forall (λ c, c ≠ "&"%char) kv.2.

Definition args_map (args : list (str * str)) : gmap str str :=
  fold_left (λ m kv, <[kv.1 := kv.2]> m) args ∅.

Lemma split_go_piece sep a cur b :
  Forall (λ c, c ≠ sep) a → cur ++ a ≠ [] →
  split_go sep true cur (a ++ sep :: b) = (cur ++ a) :: split_go sep true [] b.
Proof.
  intros H. revert cur. induction H as [|c a Hc _ IH]; intros cur Hne; simpl.
  - rewrite app_nil_r in *. rewrite bool_decide_eq_true_2 by done.
    by rewrite (bool_decide_eq_false_2 (cur = [])).
  - rewrite bool_decide_eq_false_2 by done. rewrite IH; rewrite <-app_assoc; done.
Qed.

Lemma split_go_end sep a cur :
  Forall (λ c, c ≠ sep) a → cur ++ a ≠ [] → split_go sep true cur a = [cur ++ a].
Proof.
  intros H. revert cur. induction H as [|c a Hc _ IH]; intros cur Hne; simpl.
  - rewrite app_nil_r in *. by rewrite bool_decide_eq_false_2.
  - rewrite bool_decide_eq_false_2 by done. rewrite IH; rewrite <-app_assoc; done.
Qed.

Lemma query_item_chars kv : arg_ok kv → Forall (λ c, c ≠ "&"%char) (query_item kv).
Proof.
  intros [H1 H2]. apply Forall_app. split; [eapply Forall_impl; [exact H1|naive_solver]|].
  by constructor.
Qed.

Lemma split_query kv args :
  Forall arg_ok (kv :: args) →
  Split (query_item kv ++ (args ≫= λ kv, "&"%char :: query_item kv)) "&"%char true
  = query_item <$> kv :: args.
Proof.
  revert kv. induction args as [|kv' args IH]; intros kv H; apply Forall_cons in H as [Hkv Hargs].
  - simpl. rewrite app_nil_r. unfold Split. rewrite split_go_end; [done| |].
    + by apply query_item_chars.
    + unfold query_item. by destruct kv.1.
  - change ((kv' :: args) ≫= λ kv, "&"%char :: query_item kv)
      with ("&"%char :: query_item kv' ++ (args ≫= λ kv, "&"%char :: query_item kv)).
    unfold Split. rewrite split_go_piece.
    + cbn [fmap list_fmap]. cbn [app]. f_equal. by apply IH.
    + by apply query_item_chars.
    + unfold query_item. by destruct kv.1.
Qed.

Lemma splitString_item kv : arg_ok kv → splitString (query_item kv) "="%char = (kv.1, kv.2).
Proof.
  intros [H1 _]. unfold splitString, query_item. rewrite break_at_app; [done| |done].
  eapply Forall_impl; [exact H1|]. intros c [_ Hc]. by apply bool_decide_eq_false.
Qed.

Lemma parseArgString_query args :
  Forall arg_ok args →
  parseArgString (match args with
                  | [] => []
                  | kv :: args' => query_item kv ++ (args' ≫= λ kv, "&"%char :: query_item kv)
                  end)
  = args_map args.
Proof.
  destruct args as [|kv args]; [done|]. intros H. unfold parseArgString, args_map.
  rewrite split_query by done. generalize (∅ : gmap str str). induction H as [|x l Hx _ IH]; [done|].
  intros m. cbn [fmap list_fmap fold_left]. rewrite <-IH. f_equal.
  unfold add_arg. by rewrite splitString_item.
Qed.

(** The handler runs the hook named in the path, with the arguments of the path. *)
Lemma handle_query cbs m u major minor hs tag args f :
  url_decode u = Some (query_path tag args) → head tag = Some "/"%char →
  Forall (λ c, c ≠ "&"%char) tag → has_dotdot (query_path tag args) = false →
  Forall arg_ok args → cbs !! tag = Some f →
  ∃ h1 h2, Forall line_ok [h1; h2] ∧
    handle_request cbs (mkReq m u major minor hs) = mkReply ok [h1; h2] (f (args_map args)).
Proof.
  intros Hu Hh Ht Hd Ha Hf. unfold handle_request. cbn [req_uri]. rewrite Hu.
  destruct tag as [|c tag]; [done|]. injection Hh as ->.
  unfold query_path in *. cbn [app] in Hd |- *. rewrite Hd. cbn [negb orb].
  rewrite bool_decide_eq_true_2 by done. cbn [negb orb].
  assert (break_at (λ c, c =c? "&"%char) ("/"%char :: tag ++ (args ≫= λ kv, "&"%char :: query_item kv))
    = ("/"%char :: tag, match args with
        | [] => None
        | kv :: args' => Some ("&"%char, query_item kv ++ (args' ≫= λ kv, "&"%char :: query_item kv))
        end)) as ->.
  { assert (Forall (λ c, (c =c? "&"%char) = false) ("/"%char :: tag)) as Ht'
      by (eapply Forall_impl; [exact Ht|]; intros c Hc; by apply bool_decide_eq_false).
    destruct args as [|kv args].
    - simpl (mbind _ []). rewrite app_nil_r. by apply (break_at_none _ ("/"%char :: tag)).
    - by apply (break_at_app _ ("/"%char :: tag)). }
  rewrite Hf.
  replace (parseArgString _) with (args_map args)
    by (rewrite <-parseArgString_query by done; by destruct args).
  eexists _, _. split; [|reflexivity].
  assert (∀ n, (0 ≤ n)%Z → no_lf (to_string n)) as Hn.
  { intros n Hn. unfold to_string. replace (n <? 0)%Z with false by lia.
    eapply Forall_impl; [by apply show_digits|]. intros c (d & Hdd & ->).
    intros He. destruct (digit_is d Hdd) as (Hdig & _). rewrite He in Hdig. by vm_compute in Hdig. }
  repeat constructor; simpl; try done. apply Hn. lia.
Qed.

Lemma request_text_print server u :
  request_text server u
  = print_request (mkReq (lit "GET") u 1 0
      [mkHeader (lit "Host") server; mkHeader (lit "Accept") (lit "*/*");
       mkHeader (lit "Connection") (lit "close")]).
Proof.
  unfold request_text, print_request, header_text, version_text. simpl.
  repeat (rewrite <-app_assoc || rewrite <-app_comm_cons). simpl. done.
Qed.

(** The request of a client. *)
Definition get_request (server u : str) : request :=
  mkReq (lit "GET") u 1 0
    [mkHeader (lit "Host") server; mkHeader (lit "Accept") (lit "*/*");
     mkHeader (lit "Connection") (lit "close")].

(** A page the handler answers with comes back to the client, whatever it holds. *)
Lemma web_answer cbs server u h hs body chunks :
  uri_chars u → value_chars server → handle_request cbs (get_request server u) = mkReply ok (h :: hs) body →
  Forall line_ok (h :: hs) → concat chunks = request_text server u →
  retrieveData <$> (to_buffers <$> serve cbs chunks) = Some (0%Z, Some body).
Proof.
  intros Hu Hs Hrep Hok Hc. rewrite request_text_print in Hc.
  change (concat chunks = print_request (get_request server u)) in Hc.
  assert (request_ok (get_request server u)) as Hr.
  { unfold get_request. split_and!; simpl; try done; try lia; [by repeat constructor|].
    repeat constructor; simpl; done. }
  unfold serve. rewrite do_read_concat, Hc. fold (serve cbs [print_request (get_request server u)]).
  rewrite serve_print, Hrep by done.
  cbn [fmap option_fmap option_map]. by rewrite retrieve_ok.
Qed.

(** C15: what a client asks of another node's web service is what the hook of that name answers:
    the request text, cut into any pieces on its way, is parsed, decoded and handed to the hook
    with its arguments, and the client gets back the page the hook wrote, whatever it holds. *)
Theorem web_roundtrip cbs server u tag args f chunks :
  uri_chars u → value_chars server → url_decode u = Some (query_path tag args) →
  head tag = Some "/"%char → Forall (λ c, c ≠ "&"%char) tag →
  has_dotdot (query_path tag args) = false → Forall arg_ok args → cbs !! tag = Some f →
  concat chunks = request_text server u →
  retrieveData <$> (to_buffers <$> serve cbs chunks) = Some (0%Z, Some (f (args_map args))).
Proof.
  intros Hu Hs Hdec Hh Ht Hd Ha Hf Hc.
  destruct (handle_query cbs (lit "GET") u 1 0 (req_headers (get_request server u)) tag args f)
    as (h1 & h2 & Hok & Hrep); [done..|].
  by apply (web_answer cbs server u h1 [h2]).
Qed.

(** a path that escapes ("..") or is not absolute, a malformed escape, and a hook that is not
    registered are answered without running any hook, and the client sees -2. *)
Theorem web_refused cbs req :
  (∀ path, url_decode (req_uri req) = Some path →
     head path ≠ Some "/"%char ∨ has_dotdot path = true ∨
     cbs !! (break_at (λ c, c =c? "&"%char) path).1 = None) →
  retrieveData (to_buffers (handle_request cbs req)) = ((-2)%Z, None).
Proof.
  intros H. apply retrieve_not_ok. unfold handle_request.
  destruct (url_decode (req_uri req)) as [path|]; [|done]. specialize (H path eq_refl).
  destruct path as [|c path]; [done|]. destruct (negb (c =c? "/"%char) || _) eqn:E; [done|].
  apply orb_false_iff in E as [E1 E2]. apply negb_false_iff, bool_decide_eq_true in E1 as ->.
  destruct H as [H|[H|H]]; [done|congruence|].
  destruct (break_at (λ c, c =c? "&"%char) _) as [tag rest]. case_match eqn:E; [|done].
  exfalso. clear -H E. simpl in H. by rewrite (E : @lookup _ handler _ _ tag cbs = _) in H.
Qed.

(** * The life of a server *)

Section server_life.
Context (page_root page_about page_proc page_config page_bootstrap : handler)
        (can_bind : str → Z → bool) (interfaces_up : list (str * option str)).
Let Init := InitAndModifyConfiguration page_root page_about page_proc page_config page_bootstrap
              can_bind interfaces_up.

Definition new_server : server := mkServer false 0 0 None [].

Inductive server_step : server → server → Prop :=
| step_Init fuel config s s' : Init fuel config s = Ok (Some s') → server_step s s'
| step_hook f s rc s' : on_hooks f s = Ok (rc, s') → server_step s s'
| step_stop s : server_step s (stop s).2.

Definition server_ok (s : server) : Prop :=
  (is_Some (asio_ s) ↔ configured_ s = true) ∧ (configured_ s = true ↔ 0 < num_starters_ s)%Z ∧
  (0 ≤ num_starters_ s)%Z.

Lemma server_step_ok s s' : server_ok s → server_step s s' → server_ok s'.
Proof.
  intros (H1 & H2 & H3) Hs. destruct Hs as [fuel config s s' Hi|f s rc s' Hh|s].
  - unfold Init, InitAndModifyConfiguration in Hi. apply bind_Ok in Hi as ([rc port] & _ & Hi).
    destruct port as [port|]; [|done]. unfold on_hooks in Hi. simpl in Hi.
    injection Hi as Hi. apply fmap_Some in Hi as ([p s''] & Hst & ->).
    unfold start in Hst. simpl in Hst. destruct (configured_ s) eqn:Hc.
    + injection Hst as <- <-. unfold server_ok. simpl. split_and!; [done|split; [lia|done]|lia].
    + destruct (find_port _ _ _ _); [|done]. injection Hst as <- <-. unfold server_ok. simpl.
      split_and!; [done|split; [lia|done]|lia].
  - unfold on_hooks in Hh. destruct (asio_ s) as [cbs|]; [|done]. destruct (f cbs).
    injection Hh as <- <-. unfold server_ok. simpl. split_and!; try done. naive_solver.
  - unfold stop. destruct (Z.eqb_spec (num_starters_ s) 0); simpl; [done|].
    destruct (Z.eqb_spec (num_starters_ s - 1) 0); unfold server_ok; simpl.
    + split_and!; [|split; [done|lia]|lia]. split; [by intros [? ?]|done].
    + split_and!; [done| |lia]. rewrite H2. lia.
Qed.

(** the web service runs exactly while it has been started more often than stopped, and the
    table of hooks exists exactly while it runs, so that a hook call is defined then. *)
Theorem server_hooks_live s :
  rtc server_step new_server s →
  (is_Some (asio_ s) ↔ (0 < num_starters_ s)%Z) ∧ (configured_ s = true ↔ (0 < num_starters_ s)%Z) ∧
  ∀ f, (0 < num_starters_ s)%Z → ∃ r, on_hooks f s = Ok r.
Proof.
  intros Hr. assert (server_ok s) as (H1 & H2 & H3).
  { cut (server_ok new_server).
    - induction Hr; eauto using server_step_ok.
    - unfold server_ok. simpl. split_and!; [|split; [done|lia]|lia].
      split; [by intros [? ?]|done]. }
  split_and!; [naive_solver|done|].
  intros f Hn. apply H2, H1 in Hn as [cbs Hc]. unfold on_hooks. rewrite Hc. destruct (f cbs). by eexists.
Qed.
End server_life.

(** A second [Init] of a running server starts with an empty table: hooks that were registered
    in between are gone. *)
Lemma second_Init_drops_hooks pr pa pp pc pb can_bind ifs fuel config s s' name f rc s'' :
  on_hooks (λ cbs, updateHook cbs name f) s = Ok (rc, s') →
  name ∉ [lit "/"; lit "/about"; lit "/proc"; lit "/config"; lit "/bootstraps"] →
  InitAndModifyConfiguration pr pa pp pc pb can_bind ifs fuel config s' = Ok (Some s'') →
  (asio_ s' ≫= lookup name) ≠ None ∧ (asio_ s'' ≫= lookup name) = None.
Proof.
  intros Hh Hn Hi. unfold on_hooks in Hh. destruct (asio_ s) as [cbs|]; [|done].
  simpl in Hh. injection Hh as <- <-. split; [simpl; by rewrite lookup_insert_eq|].
  unfold InitAndModifyConfiguration in Hi. apply bind_Ok in Hi as ([rc' port] & _ & Hi).
  destruct port as [port|]; [|done]. unfold on_hooks in Hi. simpl in Hi.
  injection Hi as Hi. apply fmap_Some in Hi as ([p s1] & Hst & ->).
  assert (asio_ s1 = Some (<[lit "/bootstraps" := pb]> (<[lit "/config" := pc]>
            (new_request_handler pr pa pp)))) as Ha.
  { unfold start in Hst. simpl in Hst. destruct (configured_ s).
    - by injection Hst as <- <-.
    - destruct (find_port _ _ _ _); [|done]. by injection Hst as <- <-. }
  simpl. rewrite Ha. simpl. unfold new_request_handler, registerHook.
  set_unfold in Hn. destruct (decide (name = lit "/")); [naive_solver|].
  destruct (decide (name = lit "/about")); [naive_solver|].
  destruct (decide (name = lit "/proc")); [naive_solver|].
  destruct (decide (name = lit "/config")); [naive_solver|].
  destruct (decide (name = lit "/bootstraps")); [naive_solver|].
  rewrite !lookup_insert_ne by done. rewrite lookup_empty. simpl.
  rewrite !lookup_insert_ne by done. rewrite lookup_empty. simpl.
  rewrite !lookup_insert_ne by done. rewrite lookup_empty. simpl.
  by rewrite !lookup_insert_ne, lookup_empty by done.
Qed.

(** * Witnesses *)

Definition demo_hooks : hooks := <[lit "/hi" := λ m, default (lit "?") (m !! lit "who")]> ∅.

Lemma web_roundtrip_witness :
  retrieveData <$> (to_buffers <$> serve demo_hooks
     [take 7 (request_text (lit "10.0.0.1") (lit "/hi&who=a+b%21"));
      drop 7 (request_text (lit "10.0.0.1") (lit "/hi&who=a+b%21"))])
  = Some (0%Z, Some (lit "a b!")).
Proof.
  etrans; [apply (web_roundtrip demo_hooks (lit "10.0.0.1") (lit "/hi&who=a+b%21") (lit "/hi")
                    [(lit "who", lit "a b!")] (λ m, default (lit "?") (m !! lit "who")))|].
  all: try (by vm_compute).
  all: repeat constructor; done.
Defined.

Lemma web_refused_witness :
  retrieveData (to_buffers (handle_request demo_hooks (mkReq (lit "GET") (lit "/../x") 1 0 [])))
  = ((-2)%Z, None).
Proof. apply web_refused. intros path [= <-]. right. left. by vm_compute. Defined.

Lemma request_roundtrip_witness :
  serve demo_hooks [lit "GE"; lit "T /hi HTTP/1.0" ++ crlf; crlf]
  = Some (handle_request demo_hooks (mkReq (lit "GET") (lit "/hi") 1 0 [])).
Proof.
  apply request_roundtrip; [|by vm_compute].
  split_and!; simpl; try done; try lia; repeat constructor; done.
Defined.

Definition demo_page : handler := λ _, [].
Definition demo_server : server :=
  match InitAndModifyConfiguration demo_page demo_page demo_page demo_page demo_page
          (λ _ p, (1991 <? p)%Z) [] 10 (mkConfig (lit "default") ∅) new_server with
  | Ok (Some s) => s
  | _ => new_server
  end.

Lemma server_hooks_live_witness :
  num_starters_ demo_server = 1%Z ∧ port_ demo_server = 1992%Z ∧ is_Some (asio_ demo_server).
Proof.
  split_and!; [by vm_compute..|].
  apply (server_hooks_live demo_page demo_page demo_page demo_page demo_page (λ _ p, (1991 <? p)%Z) []).
  - apply rtc_once. eapply (step_Init _ _ _ _ _ _ _ 10 (mkConfig (lit "default") ∅)). by vm_compute.
  - by vm_compute.
Defined.
