(* ===== verification/ResourceURL.v ===== *)
(** [ResourceURL] (src/src/faodel-common/ResourceURL.cpp, ResourceURL.hh): the
    "type:<node>[bucket]/path/name&options" names of Faodel resources: parser, printer,
    path manipulation, options and ordering. *)
From S2P Require Import Prelude StringHelpers Identifiers.

Record ResourceURL := mkURL {
  resource_type : str;      (** empty means "ref" *)
  reference_node : nodeid_t;
  bucket : bucket_t;
  path : str;
  name : str;
  options : str
}.

#[global] Instance ResourceURL_eq_dec : EqDecision ResourceURL.
Proof. solve_decision. Defined.

Definition url_default : ResourceURL :=
  mkURL [] NodeID.NODE_UNSPECIFIED Bucket.UNSPECIFIED [] [] [].

(** The field-wise constructor: an empty path becomes the root path. *)
Definition url_make (ty : str) (node : nodeid_t) (b : bucket_t) (p n o : str) : ResourceURL :=
  mkURL ty node b (if p =s? [] then lit "/" else p) n o.

Definition with_path_name (u : ResourceURL) (p n : str) : ResourceURL :=
  mkURL (resource_type u) (reference_node u) (bucket u) p n (options u).
Definition with_options (u : ResourceURL) (o : str) : ResourceURL :=
  mkURL (resource_type u) (reference_node u) (bucket u) (path u) (name u) o.

(** * Predicates *)

Definition IsReference (u : ResourceURL) : bool := resource_type u =s? [].
Definition Type_ (u : ResourceURL) : str := if IsReference u then lit "ref" else resource_type u.
Definition IsRootLevel (u : ResourceURL) : bool := path u =s? lit "/".
Definition IsRoot (u : ResourceURL) : bool := (path u =s? lit "/") && (name u =s? []).
Definition Valid (u : ResourceURL) : bool :=
  (negb (path u =s? []) && negb (name u =s? [])) || IsRoot u.
Definition IsFullURL (u : ResourceURL) : bool :=
  Valid u && Bucket.Valid (bucket u) && NodeID.Valid (reference_node u).
Definition IsEmpty (u : ResourceURL) : bool :=
  bool_decide (reference_node u = NodeID.NODE_UNSPECIFIED)
  && bool_decide (bucket u = Bucket.UNSPECIFIED)
  && (path u =s? []) && (name u =s? []) && (options u =s? []).

(** * Options *)

Definition GetSortedOptions (u : ResourceURL) : str :=
  Join (merge_sort str_le (Split (options u) "&"%char true)) "&"%char.

(** [full_op.compare(0, sname.size(), sname) == 0] *)
Definition op_matches (sname full_op : str) : bool := take (length sname) full_op =s? sname.

Fixpoint replace_first (p : str → bool) (new : str) (l : list str) : option (list str) :=
  match l with
  | [] => None
  | x :: l' => if p x then Some (new :: l') else (x ::.) <$> replace_first p new l'
  end.

Definition SetOption (u : ResourceURL) (option_name value : str) : ResourceURL :=
  let new_option := option_name ++ lit "=" ++ value in
  if options u =s? [] then with_options u new_option
  else
    let sname := option_name ++ lit "=" in
    let ops := Split (options u) "&"%char true in
    let ops' :=
      match replace_first (op_matches sname) new_option ops with
      | Some ops' => ops'
      | None => ops ++ [new_option]
      end in
    with_options u (Join ops' "&"%char).

Fixpoint find_op (sname : str) (ops : list str) : option str :=
  match ops with
  | [] => None
  | full_op :: ops' =>
      if op_matches sname full_op then Some (drop (length sname) full_op) else find_op sname ops'
  end.

Definition GetOption (u : ResourceURL) (option_name default_value : str) : str :=
  default default_value (find_op (option_name ++ lit "=") (Split (options u) "&"%char true)).

Fixpoint remove_ops (sname : str) (ops : list str) (removed : str) : list str * str :=
  match ops with
  | [] => ([], removed)
  | op :: ops' =>
      if op_matches sname op then remove_ops sname ops' (drop (length sname) op)
      else let '(l, r) := remove_ops sname ops' removed in (op :: l, r)
  end.

Definition RemoveOption (u : ResourceURL) (option_name : str) : ResourceURL * str :=
  let '(ops, removed) :=
    remove_ops (option_name ++ lit "=") (Split (options u) "&"%char true) [] in
  (with_options u (Join ops "&"%char), removed).

(** An option without a value makes the code index past the end of the split pair. *)
Fixpoint option_pairs (ops : list str) : outcome (list (str * str)) :=
  match ops with
  | [] => Ok []
  | full_op :: ops' =>
      match Split full_op "="%char true with
      | k :: v :: _ => l ← option_pairs ops'; Ok ((k, v) :: l)
      | _ => Throw Undefined
      end
  end.

Definition GetOptions (u : ResourceURL) : outcome (list (str * str)) :=
  option_pairs (Split (options u) "&"%char true).

(** * Printing *)

Definition GetURL (u : ResourceURL)
    (include_type include_node include_bucket include_options : bool) : str :=
  (if include_type
   then (if resource_type u =s? [] then lit "ref" else resource_type u) ++ lit ":" else [])
  ++ (if include_node then lit "<" ++ NodeID.GetHex (reference_node u) ++ lit ">" else [])
  ++ (if include_bucket then lit "[" ++ Bucket.GetHex (bucket u) ++ lit "]" else [])
  ++ (if negb (path u =s? lit "/") then path u else [])
  ++ lit "/" ++ name u
  ++ (if include_options && negb (options u =s? []) then lit "&" ++ GetSortedOptions u else []).

Definition GetPathName (u : ResourceURL) : str := GetURL u false false false false.
Definition GetBucketPathName (u : ResourceURL) : str := GetURL u false false true false.
Definition GetFullURL (u : ResourceURL) : str := GetURL u true true true true.

Definition Dashify (u : ResourceURL) : str :=
  (λ c, if c =c? "/"%char then "-"%char else c) <$> GetPathName u.

(** * Parsing *)

Record url_parts := mkParts {
  tmp_type : str; tmp_bucket : str; tmp_nodeid : str; tmp_path_and_name : str; tmp_options : str
}.
Definition no_parts : url_parts := mkParts [] [] [] [] [].

Definition is_delim (c : ascii) : bool := bool_decide (c ∈ lit "[]<>/:&").

(** The scan of [ParseURL]: one pass over the text, [at_start] being [i == 0].
    [None] is out of fuel; each turn consumes a character, so the length of the text is
    enough (see [parse_loop_total]). *)
Fixpoint parse_loop (fuel : nat) (at_start : bool) (rest : str) (p : url_parts)
    : option (outcome url_parts) :=
  match fuel with
  | O => None
  | S fuel =>
      match rest with
      | [] => Some (Ok p)
      | c :: rest' =>
          if c =c? "["%char then
            match break_at is_delim rest' with
            | (b, Some (d, after)) =>
                if d =c? "]"%char
                then parse_loop fuel false after
                       (mkParts (tmp_type p) b (tmp_nodeid p) (tmp_path_and_name p) (tmp_options p))
                else Some (Throw InvalidArgument)
            | (_, None) => Some (Throw InvalidArgument)
            end
          else if c =c? "<"%char then
            match break_at (λ d, d =c? ">"%char) rest' with
            | (n, Some (_, after)) =>
                parse_loop fuel false after
                  (mkParts (tmp_type p) (tmp_bucket p) n (tmp_path_and_name p) (tmp_options p))
            | (_, None) => Some (Throw InvalidArgument)
            end
          else if c =c? "/"%char then
            let '(pn, tail) := break_at (λ d, d =c? "&"%char) rest' in
            parse_loop fuel false (match tail with Some (d, after) => d :: after | None => [] end)
              (mkParts (tmp_type p) (tmp_bucket p) (tmp_nodeid p) (c :: pn) (tmp_options p))
          else if c =c? "&"%char then
            Some (Ok (mkParts (tmp_type p) (tmp_bucket p) (tmp_nodeid p)
                        (tmp_path_and_name p) rest'))
          else if negb at_start then Some (Throw InvalidArgument)
          else if c =c? ":"%char then
            parse_loop fuel false rest'
              (mkParts [] (tmp_bucket p) (tmp_nodeid p) (tmp_path_and_name p) (tmp_options p))
          else
            match break_at is_delim rest with
            | (t, Some (d, after)) =>
                if d =c? ":"%char
                then parse_loop fuel false after
                       (mkParts (ToLowercase t) (tmp_bucket p) (tmp_nodeid p)
                          (tmp_path_and_name p) (tmp_options p))
                else Some (Throw InvalidArgument)
            | (_, None) => Some (Throw InvalidArgument)
            end
      end
  end.

(** [find_last_of]: the text before and after the last occurrence of [sep]. *)
Fixpoint break_last (sep : ascii) (s : str) : option (str * str) :=
  match s with
  | [] => None
  | c :: s' =>
      match break_last sep s' with
      | Some (a, b) => Some (c :: a, b)
      | None => if c =c? sep then Some ([], s') else None
      end
  end.

Definition normalize_type (ty : str) : str :=
  if ty =s? lit "ref" then []
  else if (ty =s? lit "local") || (ty =s? lit "localkv") || (ty =s? lit "lkv") then lit "local"
  else ty.

(** Path and name of the "/path/name" text. *)
Definition split_path_name (ty pn : str) : outcome (str * str) :=
  if pn =s? [] then
    if (ty =s? lit "local") || (ty =s? lit "null") then Ok (lit "/", [])
    else Throw InvalidArgument
  else if pn =s? lit "/" then Ok (lit "/", [])
  else
    let pn := match last pn with
              | Some c => if c =c? "/"%char then take (length pn - 1) pn else pn
              | None => pn
              end in
    let '(p, n) :=
      match break_last "/"%char pn with
      | Some (a, b) => (if a =s? [] then lit "/" else a, b)
      | None => (lit "/", pn)
      end in
    if negb (bool_decide (head p = Some "/"%char)) then Throw InvalidArgument
    else if (n =s? []) && negb (ty =s? lit "local") && negb (ty =s? lit "null")
              && negb (ty =s? lit "unconfigured")
    then Throw InvalidArgument
    else Ok (p, n).

(** A reference under "/local" is a local resource. *)
Definition patch_local (ty p n : str) : str :=
  if ty =s? [] then
    if (p =s? lit "/local") || ((p =s? lit "/") && (n =s? lit "local"))
       || StringBeginsWith p (lit "/local/")
    then lit "local" else ty
  else ty.

(** type, bucket, node, path, name, options *)
Definition ParseURL (url : str) : outcome (str * str * str * str * str * str) :=
  match parse_loop (S (length url)) true url no_parts with
  | None => Throw Undefined
  | Some (Throw e) => Throw e
  | Some (Ok parts) =>
      let ty := normalize_type (tmp_type parts) in
      '(p, n) ← split_path_name ty (tmp_path_and_name parts);
      Ok (patch_local ty p n, tmp_bucket parts, tmp_nodeid parts, p, n, tmp_options parts)
  end.

Definition of_url (url : str) : outcome ResourceURL :=
  '(ty, b, nd, p, n, o) ← ParseURL url;
  bkt ← (if b =s? [] then Ok Bucket.UNSPECIFIED else Bucket.of_string b);
  node ← (if nd =s? [] then Ok NodeID.NODE_UNSPECIFIED else NodeID.of_hex nd);
  Ok (mkURL ty node bkt p n o).

(** [SetURL] writes the parsed parts over an existing object; an absent bucket or node
    leaves the old one in place. *)
Definition SetURL (u : ResourceURL) (url : str) : outcome ResourceURL :=
  '(ty, b, nd, p, n, o) ← ParseURL url;
  bkt ← (if b =s? [] then Ok (bucket u) else Bucket.of_string b);
  node ← (if nd =s? [] then Ok (reference_node u) else NodeID.of_hex nd);
  Ok (mkURL ty node bkt p n o).

(** * Moving in the path *)

Definition PushDir (u : ResourceURL) (next_dir : str) : outcome ResourceURL :=
  match next_dir with
  | [] => Ok u
  | c :: _ =>
      let s := (if negb (path u =s? lit "/") then path u else []) ++ lit "/" ++ name u
               ++ (if c =c? "/"%char then [] else lit "/") ++ next_dir in
      let all_parts := SplitPath s in
      p ← JoinPath all_parts (Z.of_nat (length all_parts) - 1);
      match last all_parts with
      | Some n => Ok (with_path_name u p n)
      | None => Throw Undefined
      end
  end.

Definition PopDir (u : ResourceURL) : outcome (ResourceURL * str) :=
  let out_dir := name u in
  if path u =s? lit "/" then Ok (with_path_name u (path u) [], out_dir)
  else
    match SplitPath (path u) with
    | [] => Ok (with_path_name u (lit "/") [], out_dir)
    | [d] => Ok (with_path_name u (lit "/") d, out_dir)
    | all_parts =>
        p ← JoinPath all_parts (Z.of_nat (length all_parts) - 1);
        Ok (with_path_name u p (default [] (last all_parts)), out_dir)
    end.

Definition GetLineageReference (u : ResourceURL) (steps_back : Z)
    (default_bucket : bucket_t) (default_node : nodeid_t) : outcome ResourceURL :=
  let new_bucket := if Bucket.Unspecified default_bucket then bucket u else default_bucket in
  let new_node := if NodeID.Unspecified default_node then reference_node u else default_node in
  if (steps_back <=? 0)%Z then
    Ok (url_make (lit "ref") new_node new_bucket (path u) (name u) [])
  else
    let path_parts := SplitPath (path u) in
    if (Z.of_nat (length path_parts) <=? steps_back)%Z then
      Ok (url_make (lit "ref") new_node new_bucket (lit "/")
            (default (name u) (head path_parts)) [])
    else
      let k := (Z.of_nat (length path_parts) - steps_back)%Z in
      new_path ← JoinPath path_parts k;
      match path_parts !! Z.to_nat k with
      | Some new_name => Ok (url_make (lit "ref") new_node new_bucket new_path new_name [])
      | None => Throw Undefined
      end.

Definition GetParent (u : ResourceURL) : outcome ResourceURL :=
  GetLineageReference u 1 Bucket.UNSPECIFIED NodeID.NODE_UNSPECIFIED.

Definition GetPathDepth (u : ResourceURL) : nat :=
  length (filter (.= "/"%char) (drop 1 (path u))).

(** * Comparison *)

Definition url_ltb (u x : ResourceURL) : bool :=
  if Bucket.ltb (bucket u) (bucket x) then true
  else if str_ltb (path u) (path x) then true
  else str_ltb (name u) (name x).

Definition url_eqb (u x : ResourceURL) : bool :=
  bool_decide (bucket u = bucket x) && (path u =s? path x) && (name u =s? name x).

Example parse_ex : of_url (lit "DHT:[my_bucket]<0xAB>/a/b/c&x=1") =
  Ok (mkURL (lit "dht") (NodeID.mk 171) (Bucket.mk (hash32 (lit "my_bucket"))) (lit "/a/b") (lit "c") (lit "x=1")).
Proof. vm_compute. reflexivity. Qed.

(** * The scan terminates *)

Lemma parse_loop_total fuel at_start rest p :
  length rest < fuel → parse_loop fuel at_start rest p ≠ None.
Proof.
  revert at_start rest p; induction fuel as [|fuel IH]; intros st rest p Hf; [lia|].
  destruct rest as [|c rest]; simpl; [done|]. simpl in Hf.
  repeat match goal with
  | |- context [break_at ?q ?l] =>
      let E := fresh in destruct (break_at q l) as [? [[? ?]|]] eqn:E;
      [apply break_at_length in E; simpl in E|]
  | |- context [if ?b then _ else _] => destruct b
  | |- parse_loop _ _ _ _ ≠ None => apply IH; simpl; lia
  | |- Some _ ≠ None => done
  end.
Qed.

(** * Parsing what was printed *)

Definition wf_type (ty : str) : Prop :=
  Forall (λ c, is_delim c = false) ty ∧ ToLowercase ty = ty ∧ normalize_type ty = ty.

Definition wf_path (p : str) : Prop :=
  p = lit "/" ∨ (p ≠ [] ∧ head p = Some "/"%char ∧ "&"%char ∉ p ∧ p ≠ lit "/").

(** What a URL object must satisfy to be recovered from its text: no delimiters where the
    syntax gives them a meaning, a non-empty name, and a type the parser does not rename. *)
Record wf_url (u : ResourceURL) : Prop := {
  wf_ty : wf_type (resource_type u);
  wf_node : NodeID.wf (reference_node u);
  wf_bucket : Bucket.wf (bucket u);
  wf_path_ok : wf_path (path u);
  wf_name : name u ≠ [] ∧ "/"%char ∉ name u ∧ "&"%char ∉ name u;
  wf_local : patch_local (resource_type u) (path u) (name u) = resource_type u
}.

Lemma is_delim_false c :
  is_delim c = false →
  c ≠ "["%char ∧ c ≠ "<"%char ∧ c ≠ "/"%char ∧ c ≠ "&"%char ∧ c ≠ ":"%char.
Proof.
  unfold is_delim. rewrite bool_decide_eq_false. intros H.
  repeat split; intros ->; apply H; set_solver.
Qed.

Lemma parse_type fuel ty rest p :
  ty ≠ [] → Forall (λ c, is_delim c = false) ty →
  parse_loop (S fuel) true (ty ++ ":"%char :: rest) p =
  parse_loop fuel false rest
    (mkParts (ToLowercase ty) (tmp_bucket p) (tmp_nodeid p) (tmp_path_and_name p) (tmp_options p)).
Proof.
  intros Hne Hty. pose proof (break_at_app is_delim ty ":"%char rest Hty eq_refl) as Hb.
  destruct ty as [|c ty]; [done|]. apply Forall_inv in Hty as (?&?&?&?&?)%is_delim_false.
  cbn [app] in *. cbn [parse_loop]. rewrite !bool_decide_eq_false_2 by done. cbn [negb].
  by rewrite Hb.
Qed.

Lemma parse_node fuel st n rest p :
  ">"%char ∉ n →
  parse_loop (S fuel) st ("<"%char :: n ++ ">"%char :: rest) p =
  parse_loop fuel false rest
    (mkParts (tmp_type p) (tmp_bucket p) n (tmp_path_and_name p) (tmp_options p)).
Proof.
  intros Hn. simpl. rewrite break_at_app; [done| |done].
  apply Forall_forall. intros c Hc. apply bool_decide_eq_false. set_solver.
Qed.

Lemma parse_bucket fuel st b rest p :
  Forall (λ c, is_delim c = false) b →
  parse_loop (S fuel) st ("["%char :: b ++ "]"%char :: rest) p =
  parse_loop fuel false rest
    (mkParts (tmp_type p) b (tmp_nodeid p) (tmp_path_and_name p) (tmp_options p)).
Proof. intros Hb. simpl. by rewrite break_at_app. Qed.

(** The path runs to the first ampersand, and the options to the end of the text. *)
Lemma parse_path fuel st pn opts p :
  "&"%char ∉ pn →
  parse_loop (S (S fuel)) st
    ("/"%char :: pn ++ match opts with Some o => "&"%char :: o | None => [] end) p =
  Some (Ok (mkParts (tmp_type p) (tmp_bucket p) (tmp_nodeid p) ("/"%char :: pn)
              (default (tmp_options p) opts))).
Proof.
  intros Hpn.
  assert (Hf : Forall (λ c, (c =c? "&"%char) = false) pn).
  { apply Forall_forall. intros c Hc. apply bool_decide_eq_false. set_solver. }
  cbn [parse_loop]. rewrite !bool_decide_eq_false_2, bool_decide_eq_true_2 by done.
  destruct opts as [o|].
  - rewrite break_at_app by done. done.
  - rewrite app_nil_r, break_at_none by done. done.
Qed.

Lemma break_last_app sep a b : sep ∉ b → break_last sep (a ++ sep :: b) = Some (a, b).
Proof.
  intros Hb. induction a as [|c a IH]; simpl.
  - assert (break_last sep b = None) as ->.
    { induction b as [|d b IHb]; simpl; [done|].
      apply not_elem_of_cons in Hb as [Hd Hb]. rewrite IHb by done.
      by rewrite bool_decide_eq_false_2. }
    by rewrite bool_decide_eq_true_2.
  - by rewrite IH.
Qed.

Lemma split_path_name_printed ty p n :
  wf_path p → n ≠ [] → "/"%char ∉ n →
  split_path_name ty ((if negb (p =s? lit "/") then p else []) ++ lit "/" ++ n) = Ok (p, n).
Proof.
  intros Hp Hn Hs. set (pre := if negb (p =s? lit "/") then p else []).
  assert (Hpre : (if pre =s? [] then lit "/" else pre) = p ∧ head p = Some "/"%char).
  { subst pre. destruct Hp as [->|(Hne & Hh & _ & Hd)]; [done|].
    rewrite (bool_decide_eq_false_2 (p = lit "/")) by done. simpl.
    by rewrite bool_decide_eq_false_2. }
  destruct Hpre as [Hpre Hhead]. unfold split_path_name.
  rewrite bool_decide_eq_false_2.
  2:{ intros H%(f_equal length). rewrite !length_app in H. simpl in H. lia. }
  rewrite bool_decide_eq_false_2.
  2:{ intros H%(f_equal length). rewrite !length_app in H. simpl in H.
      destruct n; [done|]. simpl in H. lia. }
  assert (Hl : last (pre ++ lit "/" ++ n) = last n).
  { destruct n as [|c n'] using rev_ind; [done|]. rewrite !app_assoc. by rewrite !last_snoc. }
  rewrite Hl. destruct (last n) as [c|] eqn:El; [|by apply last_None in El].
  apply last_Some in El as [n' ->].
  rewrite (bool_decide_eq_false_2 (c = "/"%char)) by set_solver.
  cbn [String.list_ascii_of_string app] in *. rewrite break_last_app by done.
  rewrite Hpre, Hhead. rewrite bool_decide_eq_true_2 by done. cbn [negb].
  rewrite (bool_decide_eq_false_2 (n' ++ [c] = [])) by done. done.
Qed.

Lemma hex_chars n c :
  (0 ≤ n)%Z → c ∈ lit "0x" ++ show_hex n → is_delim c = false ∧ c ≠ ">"%char.
Proof.
  intros Hn Hc.
  assert (Hok : c = "x"%char ∨ is_digit_of 16 c = true).
  { rewrite elem_of_app in Hc. destruct Hc as [Hc|Hc].
    - simpl in Hc. repeat (apply elem_of_cons in Hc as [->|Hc]; [auto|]). set_solver.
    - right. pose proof (show_base_digits 16 n ltac:(lia) Hn) as Hall.
      rewrite Forall_forall in Hall. by apply Hall. }
  destruct Hok as [->|Hd]; [done|].
  set (P := λ c, implb (is_digit_of 16 c) (negb (is_delim c) && negb (c =c? ">"%char))).
  assert (HP : P c = true) by (apply forall_char_spec; vm_compute; reflexivity).
  unfold P in HP. rewrite Hd in HP. simpl in HP.
  apply andb_true_iff in HP as [H1%negb_true_iff H2%negb_true_iff].
  by apply bool_decide_eq_false in H2.
Qed.

Lemma GetFullURL_shape u :
  GetFullURL u =
  (if resource_type u =s? [] then lit "ref" else resource_type u) ++ ":"%char ::
  "<"%char :: NodeID.GetHex (reference_node u) ++ ">"%char ::
  "["%char :: Bucket.GetHex (bucket u) ++ "]"%char ::
  ((if negb (path u =s? lit "/") then path u else []) ++ lit "/" ++ name u) ++
  match (if options u =s? [] then None else Some (GetSortedOptions u)) with
  | Some o => "&"%char :: o | None => [] end.
Proof.
  unfold GetFullURL, GetURL. rewrite <-!app_assoc. cbn [app String.list_ascii_of_string].
  destruct (options u =s? []); done.
Qed.

Lemma options_sorted_nil u :
  default [] (if options u =s? [] then None else Some (GetSortedOptions u)) = GetSortedOptions u.
Proof.
  case_bool_decide as Ho; [|done]. unfold GetSortedOptions. by rewrite Ho.
Qed.

Lemma parse_full u :
  wf_url u →
  parse_loop (S (length (GetFullURL u))) true (GetFullURL u) no_parts =
  Some (Ok (mkParts (ToLowercase (if resource_type u =s? [] then lit "ref" else resource_type u))
              (Bucket.GetHex (bucket u)) (NodeID.GetHex (reference_node u))
              ((if negb (path u =s? lit "/") then path u else []) ++ lit "/" ++ name u)
              (GetSortedOptions u))).
Proof.
  intros [[Hd [Hlow Hnorm]] [Hn _] [Hb _] Hp (Hne & Hslash & Hamp) _].
  set (ty := if resource_type u =s? [] then lit "ref" else resource_type u).
  assert (Hty : ty ≠ [] ∧ Forall (λ c, is_delim c = false) ty).
  { subst ty. case_bool_decide as E; [|done]. split; [done|].
    repeat constructor. }
  assert (Hfuel : ∃ f, length (GetFullURL u) = S (S (S (S f)))).
  { assert (4 ≤ length (GetFullURL u)).
    { rewrite GetFullURL_shape. repeat (rewrite length_app; cbn [length]). lia. }
    exists (length (GetFullURL u) - 4). lia. }
  destruct Hfuel as [f ->]. rewrite GetFullURL_shape. fold ty.
  rewrite parse_type by naive_solver.
  rewrite parse_node by (intros ?%hex_chars; naive_solver).
  rewrite parse_bucket by (apply Forall_forall; intros c ?%hex_chars; naive_solver).
  set (pre := if negb (path u =s? lit "/") then path u else []).
  assert (Hpn : ∃ pn, pre ++ lit "/" ++ name u = "/"%char :: pn ∧ "&"%char ∉ pn).
  { subst pre. destruct Hp as [E|(Hpne & Hh & Ha & E)].
    - rewrite (bool_decide_eq_true_2 _ E). by exists (name u).
    - rewrite (bool_decide_eq_false_2 _ E). cbn [negb].
      destruct (path u) as [|c q]; [done|]. injection Hh as ->.
      exists (q ++ lit "/" ++ name u). split; [done|]. set_solver. }
  destruct Hpn as (pn & Epn & Hpn). rewrite Epn. cbn [app].
  rewrite parse_path by done. cbn [tmp_type tmp_bucket tmp_nodeid tmp_options no_parts].
  by rewrite options_sorted_nil.
Qed.

(** C39: A well-formed URL is recovered from its full text, with its options sorted. *)
Theorem URL_roundtrip u :
  wf_url u → of_url (GetFullURL u) = Ok (with_options u (GetSortedOptions u)).
Proof.
  intros Hwf. unfold of_url, ParseURL. rewrite parse_full by done.
  destruct Hwf as [[_ [Hlow Hnorm]] Hn Hb Hp (Hne & Hslash & _) Hloc].
  cbn [tmp_type tmp_bucket tmp_nodeid tmp_path_and_name tmp_options].
  assert (Hty : normalize_type (ToLowercase (if resource_type u =s? [] then lit "ref"
      else resource_type u)) = resource_type u).
  { case_bool_decide as E; [by rewrite E|]. by rewrite Hlow. }
  rewrite Hty, split_path_name_printed by done. simpl mbind.
  rewrite Hloc, Bucket_hex_ok, NodeID_hex_ok by done. by destruct u.
Qed.

(** * Options: reading back what was written *)

Definition op_ok (op : str) : Prop := no_sep "&"%char op ∧ op ≠ [].

Lemma Split_ops_ok s : Forall op_ok (Split s "&"%char true).
Proof.
  apply Forall_forall. intros op Hop. apply elem_of_Split in Hop as [? ?]. by split; [|auto].
Qed.

Lemma Split_Join_ops ops : Forall op_ok ops → Split (Join ops "&"%char) "&"%char true = ops.
Proof.
  intros Hops. apply Split_Join; eapply Forall_impl; try done; intros op [? ?]; done.
Qed.

Lemma op_matches_spec sname op : op_matches sname op = true ↔ ∃ v, op = sname ++ v.
Proof.
  unfold op_matches. rewrite bool_decide_eq_true. split.
  - intros H. exists (drop (length sname) op). rewrite <-H at 1. by rewrite take_drop.
  - intros [v ->]. by rewrite take_app_length.
Qed.

Lemma find_op_app sname ops1 ops2 :
  find_op sname (ops1 ++ ops2) =
  match find_op sname ops1 with Some v => Some v | None => find_op sname ops2 end.
Proof.
  induction ops1 as [|op ops1 IH]; simpl; [done|]. by destruct (op_matches sname op).
Qed.

Lemma replace_first_spec p new l :
  match replace_first p new l with
  | Some l' => ∃ a x b, l = a ++ x :: b ∧ l' = a ++ new :: b ∧ p x = true ∧
                        Forall (λ y, p y = false) a
  | None => Forall (λ y, p y = false) l
  end.
Proof.
  induction l as [|y l IH]; simpl; [constructor|].
  destruct (p y) eqn:E.
  - exists [], y, l. by repeat split.
  - destruct (replace_first p new l) as [l'|]; simpl; [|by constructor].
    destruct IH as (a & x & b & -> & -> & ? & ?). exists (y :: a), x, b.
    repeat split; try done. by constructor.
Qed.

Lemma find_op_none sname ops :
  Forall (λ op, op_matches sname op = false) ops → find_op sname ops = None.
Proof. induction 1 as [|op ops Hop _ IH]; simpl; [done|]. by rewrite Hop. Qed.

(** The options after [SetOption], as a list. *)
Lemma SetOption_ops u n v :
  no_sep "&"%char n → no_sep "&"%char v →
  let sname := n ++ lit "=" in
  ∃ a b, Split (options (SetOption u n v)) "&"%char true = a ++ (sname ++ v) :: b ∧
    Forall (λ y, op_matches sname y = false) a ∧
    (Split (options u) "&"%char true = a ++ b ∧ b = [] ∨
     ∃ x, op_matches sname x = true ∧ Split (options u) "&"%char true = a ++ x :: b).
Proof.
  intros Hn Hv sname.
  assert (Hnew : op_ok (sname ++ v)).
  { split; [|by destruct n]. unfold no_sep, sname in *. set_solver. }
  assert (Enew : n ++ lit "=" ++ v = sname ++ v) by (unfold sname; by rewrite <-app_assoc).
  unfold SetOption. rewrite Enew. case_bool_decide as Ho.
  - exists [], []. rewrite Ho. simpl. split; [|split; [constructor|by left]].
    apply Split_last; [apply Hnew|intros _; apply Hnew].
  - pose proof (Split_ops_ok (options u)) as Hops.
    pose proof (replace_first_spec (op_matches sname) (sname ++ v)
      (Split (options u) "&"%char true)) as Hr.
    destruct (replace_first _ _ _) as [ops'|]; simpl.
    + destruct Hr as (a & x & b & Eops & -> & Hx & Ha). exists a, b.
      rewrite Eops in *. apply Forall_app in Hops as [Hoa [_ Hob]%Forall_cons].
      split; [|split; [done|right; eauto]].
      apply Split_Join_ops, Forall_app. split; [done|]. by constructor.
    + exists (Split (options u) "&"%char true), [].
      split; [|split; [done|left; by rewrite app_nil_r]].
      apply Split_Join_ops, Forall_app. split; [done|]. by apply Forall_singleton.
Qed.

Lemma op_matches_other n1 n2 v :
  n1 ≠ n2 → no_sep "="%char n1 → no_sep "="%char n2 →
  op_matches (n2 ++ lit "=") ((n1 ++ lit "=") ++ v) = false.
Proof.
  intros Hne H1 H2. apply not_true_iff_false. rewrite op_matches_spec. intros [w Hw].
  rewrite <-!app_assoc in Hw. apply Hne. clear Hne. cbn [String.list_ascii_of_string app] in Hw.
  revert n2 H2 Hw. unfold no_sep in *. induction n1 as [|c n1 IH]; intros [|d n2] H2 Hw; simpl in *.
  - done.
  - assert (d = "="%char) as -> by congruence. destruct H2. left.
  - assert (c = "="%char) as -> by congruence. destruct H1. left.
  - assert (c = d) as -> by congruence. f_equal.
    apply not_elem_of_cons in H1 as [_ H1], H2 as [_ H2]. apply IH; [done|done|congruence].
Qed.

(** After [SetOption] the option has the new value and every other option the value it
    had. *)
Theorem GetOption_SetOption u n v m d :
  no_sep "&"%char n → no_sep "&"%char v → no_sep "="%char n → no_sep "="%char m →
  GetOption (SetOption u n v) m d = if decide (m = n) then v else GetOption u m d.
Proof.
  intros Hn Hv Hen Hem. unfold GetOption.
  destruct (SetOption_ops u n v Hn Hv) as (a & b & -> & Ha & Hold).
  rewrite find_op_app. cbn [find_op]. case_decide as Hmn.
  - subst m. rewrite (find_op_none _ a Ha).
    assert (op_matches (n ++ lit "=") ((n ++ lit "=") ++ v) = true) as ->
      by (apply op_matches_spec; eauto).
    by rewrite drop_app_length.
  - rewrite op_matches_other by auto.
    destruct Hold as [[-> ->]|(x & Hx & ->)].
    + by rewrite app_nil_r; destruct (find_op _ a).
    + rewrite find_op_app. cbn [find_op].
      apply op_matches_spec in Hx as [w ->]. by rewrite op_matches_other by auto.
Qed.

Lemma remove_ops_spec sname ops r :
  (remove_ops sname ops r).1 = filter (λ op, op_matches sname op = false) ops.
Proof.
  revert r; induction ops as [|op ops IH]; intros r; simpl; [done|].
  destruct (op_matches sname op) eqn:E; simpl.
  - rewrite filter_cons_False by congruence. apply IH.
  - rewrite filter_cons_True by done.
    specialize (IH r). destruct (remove_ops sname ops r). simpl in *. by rewrite IH.
Qed.

(** [RemoveOption] removes every occurrence. *)
Theorem RemoveOption_gone u n d : GetOption (RemoveOption u n).1 n d = d.
Proof.
  unfold RemoveOption, GetOption.
  pose proof (remove_ops_spec (n ++ lit "=") (Split (options u) "&"%char true) []) as Hr.
  destruct (remove_ops _ _ _) as [ops r]. simpl in *. subst ops.
  rewrite Split_Join_ops.
  - rewrite find_op_none; [done|]. apply Forall_forall. intros op [? ?]%list_elem_of_filter. done.
  - apply Forall_forall. intros op [_ Hop]%list_elem_of_filter.
    pose proof (Split_ops_ok (options u)) as Hall. rewrite Forall_forall in Hall. by apply Hall.
Qed.

(** * Path moves *)

(** A path component: no slash, not empty. *)
Definition component (d : str) : Prop := d ≠ [] ∧ no_sep "/"%char d.

Definition path_of (ps : list str) : str := ps ≫= λ item, lit "/" ++ item.

Lemma SplitPath_path_of ps : Forall component ps → SplitPath (path_of ps) = ps.
Proof.
  intros Hps. destruct ps as [|p ps]; [done|].
  assert (Hj : ∀ p ps, path_of (p :: ps) = "/"%char :: Join (p :: ps) "/"%char).
  { clear. intros p ps. revert p. induction ps as [|q ps IH]; intros p.
    - done.
    - change (path_of (p :: q :: ps)) with ("/"%char :: p ++ path_of (q :: ps)).
      by rewrite IH. }
  rewrite Hj. unfold SplitPath, Split. simpl.
  apply (Split_Join (p :: ps) "/"%char true); eapply Forall_impl; try done; by intros ? [? ?].
Qed.

Lemma path_of_app a b : path_of (a ++ b) = path_of a ++ path_of b.
Proof. apply bind_app. Qed.

Lemma JoinPath_init ps n :
  JoinPath (ps ++ [n]) (Z.of_nat (length (ps ++ [n])) - 1) = Ok (path_of ps).
Proof.
  unfold JoinPath.
  assert (Hl : (Z.of_nat (length (ps ++ [n])) - 1 = Z.of_nat (length ps))%Z)
    by (rewrite length_app; simpl; lia).
  rewrite Hl, (proj2 (Z.leb_le 0 _)) by lia. simpl.
  rewrite (proj2 (Z.leb_le (Z.of_nat (length ps)) _)) by lia. simpl.
  by rewrite Nat2Z.id, take_app_length.
Qed.

(** A URL whose path is [/p1/.../pk], one component at least, and whose name is [n]. *)
Definition located (u : ResourceURL) (ps : list str) (n : str) : Prop :=
  ps ≠ [] ∧ Forall component ps ∧ component n ∧ path u = path_of ps ∧ name u = n.

Lemma path_of_not_root ps : Forall component ps → path_of ps ≠ lit "/".
Proof.
  intros Hps E. pose proof (SplitPath_path_of ps Hps) as Hsp. rewrite E in Hsp.
  change (SplitPath (lit "/")) with (@nil str) in Hsp. by subst.
Qed.

Lemma PushDir_located u ps n d :
  located u ps n → component d →
  PushDir u d = Ok (with_path_name u (path_of (ps ++ [n])) d).
Proof.
  intros (Hne & Hps & Hn & Hp & Hname) Hd. unfold PushDir.
  destruct d as [|c d'] eqn:Ed; [by destruct Hd|].
  rewrite Hp, Hname. rewrite bool_decide_eq_false_2 by (by apply path_of_not_root).
  rewrite (bool_decide_eq_false_2 (c = "/"%char))
    by (destruct Hd as [_ Hd]; unfold no_sep in Hd; set_solver).
  cbn [negb]. rewrite <-Ed in *.
  assert (E : path_of ps ++ lit "/" ++ n ++ lit "/" ++ d = path_of ((ps ++ [n]) ++ [d])).
  { rewrite !path_of_app. unfold path_of at 3 4. simpl. by rewrite !app_nil_r, <-!app_assoc. }
  rewrite E, SplitPath_path_of.
  - rewrite JoinPath_init. simpl. by rewrite last_snoc.
  - rewrite !Forall_app, !Forall_singleton. done.
Qed.

(** Below the root, [PopDir] undoes [PushDir] and returns the pushed name. *)
Theorem PopDir_PushDir u ps n d :
  located u ps n → component d →
  (u' ← PushDir u d; PopDir u') = Ok (u, d).
Proof.
  intros Hu Hd. rewrite (PushDir_located u ps n d Hu Hd). cbn [mbind outcome_bind].
  destruct Hu as (Hne & Hps & Hn & Hp & Hname). unfold PopDir.
  cbn [path name with_path_name].
  rewrite bool_decide_eq_false_2.
  2:{ apply path_of_not_root, Forall_app. by rewrite Forall_singleton. }
  rewrite SplitPath_path_of by (rewrite Forall_app, Forall_singleton; done).
  destruct (ps ++ [n]) as [|x [|y l]] eqn:E.
  - by destruct ps.
  - destruct ps as [|? [|]]; simplify_eq/=.
  - pose proof (JoinPath_init ps n) as HJ. pose proof (last_snoc n ps) as HL.
    rewrite E in HJ, HL. rewrite HL, HJ. simpl.
    unfold with_path_name. simpl. rewrite <-Hp. destruct u; simpl in *; by subst.
Qed.

(** Pushing a directory onto the root leaves an empty path: the result is not [Valid] and
    differs from the URL that parses to the same place. *)
Theorem PushDir_root_invalid :
  let root := mkURL [] NodeID.NODE_UNSPECIFIED Bucket.UNSPECIFIED (lit "/") [] [] in
  ∃ u v, PushDir root (lit "a") = Ok u ∧ of_url (lit "/a") = Ok v ∧
    Valid root = true ∧ Valid u = false ∧ GetPathName u = GetPathName v ∧ url_eqb u v = false.
Proof.
  simpl. eexists _, _. split; [vm_compute; reflexivity|]. split; [vm_compute; reflexivity|].
  by vm_compute.
Qed.

(** [GetPathDepth] counts the slashes after the first character of the path, one less
    than the number of parents the comment promises. *)
Theorem GetPathDepth_parents ps u :
  Forall component ps → path u = path_of ps → ps ≠ [] → S (GetPathDepth u) = length ps.
Proof.
  intros Hps Hp Hne. unfold GetPathDepth. rewrite Hp. clear Hp u.
  destruct ps as [|p ps]; [done|].
  change (drop 1 (path_of (p :: ps))) with (drop 0 (p ++ path_of ps)). rewrite drop_0.
  assert (Hc : ∀ t, no_sep "/"%char t → length (filter (.= "/"%char) t) = 0).
  { intros t Ht. induction t as [|c t IH]; [done|].
    apply not_elem_of_cons in Ht as [Hc Ht].
    rewrite filter_cons_False by congruence. by apply IH. }
  apply Forall_cons in Hps as [[_ Hp] Hps].
  rewrite filter_app, length_app, (Hc p Hp). simpl. f_equal. clear p Hp Hne.
  induction Hps as [|q qs [_ Hq] _ IH]; [done|].
  change (path_of (q :: qs)) with ("/"%char :: q ++ path_of qs).
  rewrite filter_cons_True by done. simpl.
  rewrite filter_app, length_app, (Hc q Hq). simpl. by rewrite IH.
Qed.

(** * Ordering *)

(** [operator<] is not asymmetric: two URLs of one bucket can each be below the other, so
    it is no ordering for a sorted container. *)
Theorem url_ltb_not_asymmetric :
  ∃ u v, url_ltb u v = true ∧ url_ltb v u = true ∧ url_eqb u v = false.
Proof.
  exists (mkURL [] (NodeID.mk 0) (Bucket.mk 1) (lit "/a") (lit "y") []),
         (mkURL [] (NodeID.mk 0) (Bucket.mk 1) (lit "/b") (lit "x") []).
  by vm_compute.
Qed.

(** * Witnesses *)

Definition url_w : ResourceURL :=
  mkURL (lit "dht") (NodeID.mk 0x22) (Bucket.mk 0x7) (lit "/a") (lit "b") (lit "z=1&y=2").

Lemma url_w_wf : wf_url url_w.
Proof.
  split.
  - split; [repeat constructor|split; reflexivity].
  - split; simpl; lia.
  - split; simpl; lia.
  - right. split; [discriminate|]. split; [reflexivity|].
    split; [|discriminate]. apply (bool_decide_unpack _). vm_compute. exact I.
  - split; [discriminate|]. split; apply (bool_decide_unpack _); vm_compute; exact I.
  - reflexivity.
Qed.

Lemma URL_roundtrip_witness :
  of_url (GetFullURL url_w) = Ok (with_options url_w (lit "y=2&z=1")).
Proof. apply (URL_roundtrip url_w), url_w_wf. Defined.

Lemma GetOption_SetOption_witness :
  GetOption (SetOption url_w (lit "y") (lit "5")) (lit "z") [] = lit "1".
Proof.
  apply (GetOption_SetOption url_w (lit "y") (lit "5") (lit "z") []);
    apply (bool_decide_unpack _); vm_compute; exact I.
Defined.

Lemma PopDir_PushDir_witness : (u' ← PushDir url_w (lit "c"); PopDir u') = Ok (url_w, lit "c").
Proof.
  apply (PopDir_PushDir url_w [lit "a"] (lit "b") (lit "c")).
  - split; [discriminate|]. split; [apply Forall_singleton|split; [|split; reflexivity]].
    + split; [discriminate|]. apply (bool_decide_unpack _). vm_compute. exact I.
    + split; [discriminate|]. apply (bool_decide_unpack _). vm_compute. exact I.
  - split; [discriminate|]. apply (bool_decide_unpack _). vm_compute. exact I.
Defined.
