(* ===== verification/Key.v ===== *)
(** Kelpie keys (src/src/kelpie/Key.cpp, Key.hh): a row label and an optional column
    label, wildcard matching, the numeric tag of a row label, and the packed form. *)
From S2P Require Import Prelude StringHelpers Identifiers.

Definition KELPIE_OK : Z := 0.
Definition KELPIE_WAITING : Z := 1.
Definition KELPIE_EEXIST : Z := 2.
Definition KELPIE_RECHECK : Z := 3.
Definition KELPIE_ENOENT : Z := -2.
Definition KELPIE_EIO : Z := -5.
Definition KELPIE_NXIO : Z := -6.
Definition KELPIE_EINVAL : Z := -22.
Definition KELPIE_ETIMEDOUT : Z := -110.
Definition KELPIE_EOVERFLOW : Z := -84.
Definition KELPIE_TODO : Z := -1000.

Abbreviation rc_t := Z.

Record Key := mkKey { K1 : str; K2 : str }.

#[global] Instance Key_eq_dec : EqDecision Key.
Proof. solve_decision. Defined.
#[global] Instance Key_countable : Countable Key.
Proof.
  apply (inj_countable' (λ k, (K1 k, K2 k)) (λ p, mkKey p.1 p.2)). by intros [].
Defined.

(** [Key(k1)] *)
Definition row_key (k1 : str) : Key := mkKey k1 [].

Definition key_valid (k : Key) : bool := bool_decide (0 < length (K1 k)).
Definition key_str (k : Key) : str := K1 k ++ lit "|" ++ K2 k.
Definition key_ltb (a b : Key) : bool :=
  str_ltb (K1 a) (K1 b) || ((K1 a =s? K1 b) && str_ltb (K2 a) (K2 b)).
Definition key_size (k : Key) : nat := length (K1 k) + length (K2 k).

Definition star : str := lit "*".
Definition IsRowWildcard (k : Key) : bool := StringEndsWith (K1 k) star.
Definition IsColWildcard (k : Key) : bool := StringEndsWith (K2 k) star.
Definition IsWildcard (k : Key) : bool := IsRowWildcard k || IsColWildcard k.

(** Remove the last character: [s.erase(s.size()-1)]. *)
Definition chop (s : str) : str := take (length s - 1) s.

(** One half of [matchesPrefixString]: the label against an exact text or a prefix. *)
Definition label_matches (is_prefix : bool) (want label : str) : bool :=
  if is_prefix then (want =s? []) || StringBeginsWith label want else label =s? want.

Definition matchesPrefixString (k : Key) (row_is_prefix : bool) (row_match : str)
    (col_is_prefix : bool) (col_match : str) : bool :=
  if negb (label_matches row_is_prefix row_match (K1 k)) then false
  else if negb (label_matches col_is_prefix col_match (K2 k)) then false
  else true.

Definition Matches (k : Key) (row_wildcard col_wildcard : str) : bool :=
  let is_row_wildcard := StringEndsWith row_wildcard star in
  let is_col_wildcard := StringEndsWith col_wildcard star in
  let row_prefix := if is_row_wildcard then chop row_wildcard else row_wildcard in
  let col_prefix := if is_col_wildcard then chop col_wildcard else col_wildcard in
  matchesPrefixString k is_row_wildcard row_prefix is_col_wildcard col_prefix.

(** [find_last_of('{')] on a label that ends in ['}']: the text before the brace, and the
    text between the braces. *)
Fixpoint last_brace (s : str) : option (str * str) :=
  match s with
  | [] => None
  | c :: s' =>
      match last_brace s' with
      | Some (a, b) => Some (c :: a, b)
      | None => if c =c? "{"%char then Some ([], s') else None
      end
  end.

Definition tag_split (s : str) : option (str * str) :=
  match last_brace s with
  | Some (before, after) =>
      if bool_decide (last s = Some "}"%char) then Some (before, chop after) else None
  | None => None
  end.

Definition SetK1Tag (k : Key) (new_tag : Z) : Key :=
  let base := match tag_split (K1 k) with Some (before, _) => before | None => K1 k end in
  mkKey (base ++ lit "{0x" ++ show_hex new_tag ++ lit "}") (K2 k).

(** The return code and the tag; an empty pair of braces leaves [val] uninitialised. *)
Definition GetK1Tag (k : Key) : outcome (rc_t * Z) :=
  match tag_split (K1 k) with
  | None => Ok (KELPIE_ENOENT, 0%Z)
  | Some (_, s_num) =>
      match stream_hex 32 s_num with
      | Some val => Ok (KELPIE_OK, val)
      | None => Throw Undefined
      end
  end.

Definition MAX_STRING_BYTES : nat := 255.

(** [pup() const]: both labels, then their lengths, one byte each. *)
Definition pup (k : Key) : outcome str :=
  if bool_decide (MAX_STRING_BYTES < length (K1 k)) || bool_decide (MAX_STRING_BYTES < length (K2 k))
  then Throw RuntimeError
  else Ok (K1 k ++ K2 k
           ++ [char_of (Z.land (Z.of_nat (length (K1 k))) 255);
               char_of (Z.land (Z.of_nat (length (K2 k))) 255)]).

(** [pup(packed_string)]: works backward from the end of the string. *)
Definition unpup (packed : str) : outcome Key :=
  let n := length packed in
  let '(s0, s1) :=
    if bool_decide (2 < n)
    then (Z.to_nat (code (default nul (packed !! (n - 2)))),
          Z.to_nat (code (default nul (packed !! (n - 1)))))
    else (0, 0) in
  if bool_decide (n < s0 + s1 + 2) then Throw RuntimeError
  else Ok (mkKey (if bool_decide (s0 = 0) then [] else take s0 packed)
                 (if bool_decide (s1 = 0) then [] else take s1 (drop s0 packed))).

Definition str_as_args (k : Key) : str :=
  (if negb (K1 k =s? []) then lit "-k1 " ++ K1 k else [])
  ++ (if negb (K1 k =s? []) && negb (K2 k =s? []) then lit " " else [])
  ++ (if negb (K2 k =s? []) then lit "-k2 " ++ K2 k else []).

(** * Matching *)

(** What a wildcard text stands for: the labels it selects. *)
Definition selects (wildcard label : str) : Prop :=
  (∃ p, wildcard = p ++ star ∧ p `prefix_of` label) ∨
  (¬ star `suffix_of` wildcard ∧ label = wildcard).

Lemma chop_snoc p c : chop (p ++ [c]) = p.
Proof.
  unfold chop. rewrite length_app. simpl. replace (length p + 1 - 1) with (length p) by lia.
  apply take_app_length.
Qed.

Lemma StringEndsWith_star s : StringEndsWith s star = true ↔ ∃ p, s = p ++ star.
Proof. rewrite StringEndsWith_spec. done. Qed.

Lemma label_matches_spec w label :
  label_matches (StringEndsWith w star) (if StringEndsWith w star then chop w else w) label = true
  ↔ selects w label.
Proof.
  unfold selects. destruct (StringEndsWith w star) eqn:E.
  - pose proof E as [p ->]%StringEndsWith_star. unfold star, label_matches. simpl.
    rewrite chop_snoc, orb_true_iff, bool_decide_eq_true, StringBeginsWith_spec. split.
    + intros Hp. left. exists p. split; [done|]. destruct Hp as [->|?]; [apply prefix_nil|done].
    + intros [(q & Hq & Hpre)|[Hn _]].
      * apply (inj (.++ lit "*")) in Hq as ->. by right.
      * destruct Hn. by apply suffix_app_r.
  - apply not_true_iff_false in E. rewrite StringEndsWith_spec in E. simpl.
    rewrite bool_decide_eq_true. split; [naive_solver|].
    intros [(q & -> & _)|[_ ->]]; [|done]. destruct E. by apply suffix_app_r.
Qed.

#[global] Instance selects_dec w label : Decision (selects w label).
Proof.
  refine (cast_if (decide (label_matches (StringEndsWith w star)
    (if StringEndsWith w star then chop w else w) label = true)));
    by rewrite <-label_matches_spec.
Defined.

Lemma selects_star p label : selects (p ++ star) label ↔ p `prefix_of` label.
Proof.
  unfold selects. split; [|by left; exists p].
  intros [(q & Hq & ?)|[Hn _]].
  - by apply (inj (.++ star)) in Hq as ->.
  - destruct Hn. by apply suffix_app_r.
Qed.

Lemma selects_exact w label : StringEndsWith w star = false → selects w label ↔ label = w.
Proof.
  intros E. apply not_true_iff_false in E. rewrite StringEndsWith_spec in E.
  unfold selects. split; [|naive_solver]. intros [(p & -> & _)|[_ ?]]; [|done].
  destruct E. by apply suffix_app_r.
Qed.

Lemma chop_star p : chop (p ++ star) = p.
Proof. apply chop_snoc. Qed.

(** A key matches a pattern exactly when both labels are selected by their wildcards. *)
Theorem Matches_spec k row col :
  Matches k row col = true ↔ selects row (K1 k) ∧ selects col (K2 k).
Proof.
  unfold Matches, matchesPrefixString. rewrite <-!label_matches_spec.
  destruct (label_matches _ _ (K1 k)), (label_matches _ _ (K2 k)); naive_solver.
Qed.

(** * Packing *)

(** Packing and unpacking a key gives it back; packing fails only for a label that does
    not fit in the one-byte length. *)
Theorem pup_roundtrip k :
  length (K1 k) ≤ MAX_STRING_BYTES → length (K2 k) ≤ MAX_STRING_BYTES →
  (s ← pup k; unpup s) = Ok k.
Proof.
  unfold MAX_STRING_BYTES. intros H1 H2. destruct k as [a b]. simpl in *.
  unfold pup, MAX_STRING_BYTES. simpl K1. simpl K2.
  rewrite !bool_decide_eq_false_2 by lia. simpl.
  change 255%Z with (2 ^ 8 - 1)%Z. rewrite !land_ones_wrap by done.
  unwrap. unfold unpup.
  set (x := char_of (Z.of_nat (length a))). set (y := char_of (Z.of_nat (length b))).
  assert (Hn : length (a ++ b ++ [x; y]) = length a + length b + 2)
    by (rewrite !length_app; simpl; lia). rewrite Hn.
  assert (Hx : (a ++ b ++ [x; y]) !! (length a + length b + 2 - 2) = Some x).
  { rewrite lookup_app_r, lookup_app_r by lia.
    by replace (length a + length b + 2 - 2 - length a - length b) with 0 by lia. }
  assert (Hy : (a ++ b ++ [x; y]) !! (length a + length b + 2 - 1) = Some y).
  { rewrite lookup_app_r, lookup_app_r by lia.
    by replace (length a + length b + 2 - 1 - length a - length b) with 1 by lia. }
  assert (Hsel : (if bool_decide (2 < length a + length b + 2)
     then (Z.to_nat (code (default nul ((a ++ b ++ [x; y]) !! (length a + length b + 2 - 2)))),
           Z.to_nat (code (default nul ((a ++ b ++ [x; y]) !! (length a + length b + 2 - 1)))))
     else (0, 0)) = (length a, length b)).
  { rewrite Hx, Hy. simpl. subst x y. rewrite !code_char_of by lia. rewrite !Nat2Z.id.
    case_bool_decide; [done|]. f_equal; lia. }
  rewrite Hsel. cbv beta iota zeta. rewrite bool_decide_eq_false_2 by lia.
  rewrite take_app_length, drop_app_length, take_app_length.
  destruct a, b; done.
Qed.

(** Unpacking never builds a key longer than the text it was given. *)
Theorem unpup_bounds s k : unpup s = Ok k → key_size k + 2 ≤ length s ∨ key_size k = 0.
Proof.
  unfold unpup, key_size. destruct (if bool_decide (2 < length s) then _ else _) as [s0 s1].
  case_bool_decide; [done|]. intros [= <-]. simpl. left.
  repeat case_bool_decide; rewrite ?length_take, ?length_drop; simpl; lia.
Qed.

(** * Tags *)

Lemma last_brace_app a b : "{"%char ∉ b → last_brace (a ++ "{"%char :: b) = Some (a, b).
Proof.
  intros Hb. induction a as [|c a IH]; simpl; [|by rewrite IH].
  assert (last_brace b = None) as ->; [|done].
  induction b as [|d b IHb]; simpl; [done|].
  apply not_elem_of_cons in Hb as [Hd Hb]. rewrite IHb by done.
  by rewrite bool_decide_eq_false_2.
Qed.

Lemma hex_no_brace n : (0 ≤ n)%Z → "{"%char ∉ lit "0x" ++ show_hex n.
Proof.
  intros Hn Hin. apply elem_of_app in Hin as [Hin|Hin].
  - simpl in Hin. repeat (apply elem_of_cons in Hin as [?|Hin]; [done|]). by apply elem_of_nil in Hin.
  - pose proof (show_base_digits 16 n ltac:(lia) Hn) as Hall. rewrite Forall_forall in Hall.
    by apply Hall in Hin.
Qed.

Lemma tag_split_tagged base n :
  (0 ≤ n)%Z →
  tag_split (base ++ lit "{0x" ++ show_hex n ++ lit "}") = Some (base, lit "0x" ++ show_hex n).
Proof.
  intros Hn. unfold tag_split.
  change (lit "{0x" ++ show_hex n ++ lit "}")
    with ("{"%char :: (lit "0x" ++ show_hex n) ++ ["}"%char]).
  rewrite last_brace_app.
  - rewrite bool_decide_eq_true_2; [by rewrite chop_snoc|].
    by rewrite app_comm_cons, app_assoc, last_snoc.
  - rewrite elem_of_app. intros [H|H]; [by apply hex_no_brace in H|].
    by apply list_elem_of_singleton in H.
Qed.

Lemma scan_0x n : (0 ≤ n)%Z → scan_number 16 (lit "0x" ++ show_hex n) = Some (false, n, []).
Proof.
  intros Hn. unfold scan_number.
  change (skip_ws (lit "0x" ++ show_hex n)) with (lit "0x" ++ show_hex n).
  change (take_sign (lit "0x" ++ show_hex n)) with (false, lit "0x" ++ show_hex n).
  pose proof (read_show_base 16 ltac:(lia) n [] Hn I) as Hread. rewrite app_nil_r in Hread.
  pose proof (show_base_digits 16 n ltac:(lia) Hn) as Hall.
  destruct (show_hex n) as [|c u] eqn:E; [by apply show_base_nonempty in E|].
  apply Forall_inv in Hall. simpl in Hall.
  assert (Hr : take_radix 16 (lit "0x" ++ c :: u) = (16%Z, c :: u)).
  { simpl. by rewrite (is_digit_of_16_xdigit _ Hall). }
  by rewrite Hr, Hall, Hread.
Qed.

Lemma stream_hex_0x bits n :
  (0 ≤ bits)%Z → in_width bits n → stream_hex bits (lit "0x" ++ show_hex n) = Some n.
Proof.
  intros Hb [Hn Hm].
  transitivity (Some (match scan_number 16 (lit "0x" ++ show_hex n) with
    | None => 0
    | Some (neg, v, _) =>
        if 2 ^ bits - 1 <? v then 2 ^ bits - 1 else if neg then wrap bits (- v) else v
    end)%Z); [done|].
  rewrite scan_0x by done. destruct (Z.ltb_spec (2 ^ bits - 1) n); [lia|done].
Qed.

(** Setting a tag makes it readable, keeps the column, and replaces an earlier tag. *)
Theorem K1Tag_roundtrip k t t' :
  in_width 32 t → in_width 32 t' →
  GetK1Tag (SetK1Tag k t) = Ok (KELPIE_OK, t) ∧
  SetK1Tag (SetK1Tag k t) t' = SetK1Tag k t' ∧ K2 (SetK1Tag k t) = K2 k.
Proof.
  intros Ht Ht'. pose proof Ht as [H0 _]. split; [|split; [|done]].
  - unfold GetK1Tag. unfold SetK1Tag at 1. cbn [K1]. rewrite tag_split_tagged by done.
    by rewrite stream_hex_0x.
  - unfold SetK1Tag at 1 3. cbn [K2]. f_equal.
    unfold SetK1Tag. cbn [K1]. by rewrite tag_split_tagged.
Qed.

(** * Witnesses *)

Lemma pup_roundtrip_witness :
  (s ← pup (mkKey (lit "row") (lit "col")); unpup s) = Ok (mkKey (lit "row") (lit "col")).
Proof. apply (pup_roundtrip (mkKey (lit "row") (lit "col"))); unfold MAX_STRING_BYTES; simpl; lia. Defined.

Lemma K1Tag_roundtrip_witness :
  let k := mkKey (lit "row") (lit "col") in
  GetK1Tag (SetK1Tag k 5) = Ok (KELPIE_OK, 5%Z) ∧
  SetK1Tag (SetK1Tag k 5) 6 = SetK1Tag k 6 ∧ K2 (SetK1Tag k 5) = lit "col".
Proof. apply (K1Tag_roundtrip (mkKey (lit "row") (lit "col")) 5 6); split; lia. Defined.
