(* ===== verification/DataObject.v ===== *)
(** Lunasa data objects (src/src/lunasa/DataObject.cpp, common/Allocation.hh): the
    reference-counted handle [DataObject], the allocation it points to, the sizes and
    capacities of the header, and the constructors' size arithmetic at 32 bits. *)
From S2P Require Import Prelude.

(** * Allocations *)

(** Layout of [struct Allocation] on x86-64: the local bookkeeping, the header that
    travels with the object, and the user section. *)
Definition offsetof_header : Z := 48.
Definition offsetof_user : Z := 56.
Definition sizeof_Allocation : Z := 56.
Definition LDO_ALIGNMENT : Z := 4.

Record AllocationSegment := mkSegment {
  buffer_ptr : Z;           (** the user's memory, by identity *)
  net_buffer_offset : Z;
  seg_size : Z
}.

(** An [Allocation]: the reference count and bookkeeping, the header fields, and the bytes
    of the user section. *)
Record Allocation := mkAllocation {
  ref_count : Z;
  allocated_bytes : Z;
  padding : Z;
  user_data_segments : list AllocationSegment;
  type_id : Z;
  meta_bytes : Z;
  data_bytes : Z
}.

(** [AllocatorMalloc::Allocate]: the capacity plus the size of the bookkeeping, in a
    [uint32_t]. *)
Definition Allocate (user_capacity : Z) : Allocation :=
  mkAllocation 0 (u32 (user_capacity + sizeof_Allocation)) 0 [] 0 0 0.

Definition setHeader (a : Allocation) (initial_ref_count meta_size data_size pad ty : Z)
    : Allocation :=
  mkAllocation initial_ref_count (allocated_bytes a) pad (user_data_segments a) ty
    meta_size data_size.

Definition alloc_GetUserCapacity (a : Allocation) : Z := u32 (allocated_bytes a - offsetof_user).

(** * The process: live allocations and handles

    A [DataObject] is a variable holding [impl], a pointer or null.  [heap] holds the
    allocations that have not been freed, [objs] the live variables. *)

Abbreviation loc := nat.
Abbreviation var := nat.

Record lunasa_state := mkState {
  heap : gmap loc Allocation;
  objs : gmap var (option loc)
}.

Definition set_ref (a : Allocation) (n : Z) : Allocation :=
  mkAllocation n (allocated_bytes a) (padding a) (user_data_segments a) (type_id a)
    (meta_bytes a) (data_bytes a).

(** [IncrRef] and [DecrRef] through a pointer; touching freed memory is undefined.  The count is an
    [atomic_int], which wraps. *)
Definition IncrRef (l : loc) (h : gmap loc Allocation) : outcome (gmap loc Allocation) :=
  match h !! l with
  | Some a => Ok (<[l := set_ref a (s32 (ref_count a + 1))]> h)
  | None => Throw Undefined
  end.

Definition DecrRef (l : loc) (h : gmap loc Allocation) : outcome (gmap loc Allocation) :=
  match h !! l with
  | Some a =>
      _ ← F_ASSERT (0 <? ref_count a)%Z;
      let num_left := s32 (ref_count a - 1) in
      Ok (if (num_left =? 0)%Z then delete l h else <[l := set_ref a num_left]> h)
  | None => Throw Undefined
  end.

Definition incr_opt (p : option loc) (h : gmap loc Allocation) : outcome (gmap loc Allocation) :=
  match p with Some l => IncrRef l h | None => Ok h end.
Definition decr_opt (p : option loc) (h : gmap loc Allocation) : outcome (gmap loc Allocation) :=
  match p with Some l => DecrRef l h | None => Ok h end.

Definition impl_of (s : lunasa_state) (v : var) : outcome (option loc) :=
  match objs s !! v with Some p => Ok p | None => Throw Undefined end.

(** [DataObject::DataObject()] *)
Definition ctor_null (v : var) (s : lunasa_state) : outcome lunasa_state :=
  Ok (mkState (heap s) (<[v := None]> (objs s))).

(** The padding of the allocating constructor: 1 to 4 bytes. *)
Definition ldo_padding (meta_capacity data_capacity : Z) : Z :=
  LDO_ALIGNMENT - Z.land (u32 (meta_capacity + data_capacity)) (LDO_ALIGNMENT - 1).

(** The allocating constructor: size check at 64 bits, padding added at 32.  When the size of the
    bookkeeping makes the sum wrap, the header is written past the end of the block. *)
Definition new_allocation (total_user_capacity meta_capacity data_capacity tag : Z)
    : outcome Allocation :=
  if (total_user_capacity <? meta_capacity + data_capacity)%Z then Throw InvalidArgument
  else
    let pad := ldo_padding meta_capacity data_capacity in
    let a := Allocate (u32 (total_user_capacity + pad)) in
    if (allocated_bytes a <? sizeof_Allocation)%Z then Throw Undefined
    else Ok (setHeader a 1 meta_capacity data_capacity pad tag).

(** [l] is the address [malloc] returns: any address that is not live. *)
Definition ctor_alloc (v : var) (l : loc) (total meta data tag : Z) (s : lunasa_state)
    : outcome lunasa_state :=
  a ← new_allocation total meta data tag;
  Ok (mkState (<[l := a]> (heap s)) (<[v := Some l]> (objs s))).

(** Copy constructor: shares the allocation. *)
Definition ctor_copy (v source : var) (s : lunasa_state) : outcome lunasa_state :=
  p ← impl_of s source;
  h ← incr_opt p (heap s);
  Ok (mkState h (<[v := p]> (objs s))).

(** Move constructor: takes the pointer over. *)
Definition ctor_move (v source : var) (s : lunasa_state) : outcome lunasa_state :=
  p ← impl_of s source;
  Ok (mkState (heap s) (<[source := None]> (<[v := p]> (objs s)))).

(** [operator=(const DataObject &)]: release what [v] holds, then share the source. *)
Definition assign_copy (v source : var) (s : lunasa_state) : outcome lunasa_state :=
  old ← impl_of s v;
  h ← decr_opt old (heap s);
  p ← impl_of s source;
  h ← incr_opt p h;
  Ok (mkState h (<[v := p]> (objs s))).

(** [operator=(DataObject &&)] *)
Definition assign_move (v source : var) (s : lunasa_state) : outcome lunasa_state :=
  old ← impl_of s v;
  h ← decr_opt old (heap s);
  p ← impl_of s source;
  Ok (mkState h (<[source := None]> (<[v := p]> (objs s)))).

(** [~DataObject()] *)
Definition dtor (v : var) (s : lunasa_state) : outcome lunasa_state :=
  p ← impl_of s v;
  h ← decr_opt p (heap s);
  Ok (mkState h (delete v (objs s))).

(** * Sizes *)

Definition GetHeaderSize : Z := offsetof_user - offsetof_header.
Definition GetMetaSize (impl : option Allocation) : Z := from_option meta_bytes 0%Z impl.
Definition GetDataSize (impl : option Allocation) : Z := from_option data_bytes 0%Z impl.
Definition GetUserSize (impl : option Allocation) : Z :=
  from_option (λ a, u32 (meta_bytes a + data_bytes a)) 0%Z impl.
Definition GetWireSize (impl : option Allocation) : Z :=
  from_option (λ a, u32 (GetHeaderSize + meta_bytes a + data_bytes a)) 0%Z impl.
Definition GetRawAllocationSize (impl : option Allocation) : Z :=
  from_option allocated_bytes 0%Z impl.
Definition GetUserCapacity (impl : option Allocation) : Z :=
  from_option alloc_GetUserCapacity 0%Z impl.

Definition ModifyUserSizes (impl : option Allocation) (new_meta_size new_data_size : Z)
    : Z * option Allocation :=
  match impl with
  | None => ((-1)%Z, None)
  | Some a =>
      if (alloc_GetUserCapacity a <? new_meta_size + new_data_size)%Z then ((-1)%Z, impl)
      else (0%Z, Some (mkAllocation (ref_count a) (allocated_bytes a) (padding a)
                        (user_data_segments a) (type_id a) new_meta_size new_data_size))
  end.

(** [AddUserDataSegment]: an object made from user memory gets an empty allocation and one
    segment, built from (pointer, handle, offset, size). *)
Definition AddUserDataSegment (a : Allocation) (userMemory metaCapacity dataCapacity : Z)
    : Allocation :=
  mkAllocation (ref_count a) (allocated_bytes a) (padding a)
    (user_data_segments a ++ [mkSegment userMemory metaCapacity dataCapacity]) (type_id a)
    (u16 (meta_bytes a + metaCapacity)) (u32 (data_bytes a + dataCapacity)).

Definition user_allocation (userMemory metaCapacity dataCapacity : Z) : Allocation :=
  AddUserDataSegment (setHeader (Allocate 0) 1 0 0 0 0) userMemory metaCapacity dataCapacity.

(** Where the data section starts: inside the allocation, or in the user's memory. *)
Inductive data_ptr := NullPtr | InAllocation (offset : Z) | InUserMemory (base offset : Z).

Definition GetDataPtr (impl : option Allocation) : outcome data_ptr :=
  match impl with
  | None => Ok NullPtr
  | Some a =>
      match user_data_segments a with
      | segment :: _ =>
          _ ← F_ASSERT (allocated_bytes a =? sizeof_Allocation)%Z;
          _ ← F_ASSERT (u32 (meta_bytes a + data_bytes a) <? seg_size segment)%Z;
          Ok (InUserMemory (buffer_ptr segment) (meta_bytes a))
      | [] =>
          if (sizeof_Allocation <=? allocated_bytes a)%Z
          then Ok (InAllocation (offsetof_user + meta_bytes a)) else Throw AssertFailed
      end
  end.

Definition GetMetaPtr (impl : option Allocation) : outcome data_ptr :=
  match impl with
  | None => Ok NullPtr
  | Some a =>
      match user_data_segments a with
      | segment :: _ =>
          _ ← F_ASSERT (allocated_bytes a =? sizeof_Allocation)%Z;
          _ ← F_ASSERT (meta_bytes a <? seg_size segment)%Z;
          Ok (InUserMemory (buffer_ptr segment) 0)
      | [] =>
          if (sizeof_Allocation <=? allocated_bytes a)%Z
          then Ok (InAllocation offsetof_user) else Throw AssertFailed
      end
  end.

(** * Reference counts are exact *)

Section counting.
Implicit Types (hs : gmap var (option loc)) (l : loc) (v : var) (p : option loc).

(** The number of live handles on allocation [l]. *)
Definition handles hs l : nat := size (filter (λ kv, kv.2 = Some l) hs).

Definition points p l : nat := if decide (p = Some l) then 1 else 0.

Lemma points_None l : points None l = 0.
Proof. done. Qed.
Lemma points_eq l : points (Some l) l = 1.
Proof. unfold points. by rewrite decide_True. Qed.
Lemma points_ne l l' : l ≠ l' → points (Some l) l' = 0.
Proof. intros. unfold points. rewrite decide_False; congruence. Qed.

Lemma handles_insert_new hs v p l :
  hs !! v = None → handles (<[v := p]> hs) l = points p l + handles hs l.
Proof.
  intros Hv. unfold handles, points. case_decide as Hp.
  - rewrite map_filter_insert_True by done. rewrite map_size_insert_None; [done|].
    apply map_lookup_filter_None. by left.
  - rewrite map_filter_insert_not'; [done|done|]. intros y. by rewrite Hv.
Qed.

Lemma handles_delete hs v p l :
  hs !! v = Some p → handles hs l = points p l + handles (delete v hs) l.
Proof.
  intros Hv. rewrite <-(insert_delete_id hs v p Hv) at 1.
  apply handles_insert_new. apply lookup_delete_eq.
Qed.

Lemma handles_insert hs v p l :
  handles (<[v := p]> hs) l = points p l + handles (delete v hs) l.
Proof.
  rewrite <-insert_delete_eq. apply handles_insert_new. apply lookup_delete_eq.
Qed.

Lemma handles_le hs l : handles hs l ≤ size hs.
Proof. unfold handles. apply map_subseteq_size, map_filter_subseteq. Qed.
End counting.

(** Every handle points to a live allocation, and every live allocation counts its
    handles: nothing dangles and nothing is leaked. *)
Definition refs_exact (s : lunasa_state) : Prop :=
  (∀ l a, heap s !! l = Some a →
     ref_count a = Z.of_nat (handles (objs s) l) ∧ handles (objs s) l ≠ 0 ∧ (ref_count a ≤ INT_MAX)%Z) ∧
  (∀ l, handles (objs s) l ≠ 0 → is_Some (heap s !! l)).

(** The heap invariant for a set of handles given by its count, while an operation is in
    the middle of moving a pointer from one variable to another. *)
Definition exact_for (h : gmap loc Allocation) (n : loc → nat) : Prop :=
  ∀ l, match h !! l with
       | Some a => ref_count a = Z.of_nat (n l) ∧ n l ≠ 0 ∧ (ref_count a ≤ INT_MAX)%Z
       | None => n l = 0
       end.

Lemma refs_exact_alt s : refs_exact s ↔ exact_for (heap s) (handles (objs s)).
Proof.
  unfold refs_exact, exact_for. split.
  - intros [H1 H2] l. destruct (heap s !! l) as [a|] eqn:E; [by apply H1|].
    destruct (handles (objs s) l) eqn:En; [done|].
    destruct (H2 l) as [a Ha]; [lia|]. congruence.
  - intros H. split.
    + intros l a Hl. specialize (H l). by rewrite Hl in H.
    + intros l Hl. specialize (H l). destruct (heap s !! l); [eauto|done].
Qed.

Lemma exact_for_ext h n1 n2 : (∀ l, n1 l = n2 l) → exact_for h n1 → exact_for h n2.
Proof. intros He H l. specialize (H l). by rewrite <-He. Qed.

Lemma incr_opt_exact p h n :
  exact_for h n → (∀ l, p = Some l → n l ≠ 0 ∧ (Z.of_nat (n l) < INT_MAX)%Z) →
  ∃ h', incr_opt p h = Ok h' ∧ exact_for h' (λ l, points p l + n l).
Proof.
  intros H Hp. destruct p as [l|]; simpl.
  - pose proof (H l) as Hl. destruct (Hp l eq_refl) as [Hn Hmax]. unfold IncrRef.
    destruct (h !! l) as [a|]; [|done]. rewrite s32_id by lia. eexists. split; [done|].
    intros l'. destruct (decide (l = l')) as [<-|Hne].
    + rewrite lookup_insert_eq, points_eq. simpl. lia.
    + rewrite lookup_insert_ne, points_ne by done. apply (H l').
  - exists h. split; [done|]. eapply exact_for_ext; [|exact H].
    by intros l.
Qed.

Lemma decr_opt_exact p h n :
  exact_for h (λ l, points p l + n l) → ∃ h', decr_opt p h = Ok h' ∧ exact_for h' n.
Proof.
  intros H. destruct p as [l|]; simpl.
  - pose proof (H l) as Hl. cbv beta in Hl. rewrite points_eq in Hl.
    unfold DecrRef. destruct (h !! l) as [a|]; [|lia]. destruct Hl as (Hl & _ & Hmax).
    destruct (Z.ltb_spec 0 (ref_count a)); [|lia]. simpl. rewrite s32_id by lia. eexists. split; [done|].
    intros l'. specialize (H l'). cbv beta in H.
    destruct (decide (l = l')) as [<-|Hne].
    + rewrite points_eq in H. destruct (Z.eqb_spec (ref_count a - 1) 0).
      * rewrite lookup_delete_eq. lia.
      * rewrite lookup_insert_eq. simpl. lia.
    + rewrite points_ne in H by done.
      destruct (ref_count a - 1 =? 0)%Z;
        rewrite ?lookup_delete_ne, ?lookup_insert_ne by done; done.
  - exists h. split; [done|]. eapply exact_for_ext; [|done].
    by intros l.
Qed.

Lemma points_handles hs v p l : hs !! v = Some p → p = Some l → handles hs l ≠ 0.
Proof.
  intros Hv ->. rewrite (handles_delete hs v _ l Hv), points_eq. lia.
Qed.

(** One step of a program that uses data objects: construct, copy, move, assign, destroy. *)
Inductive ldo_op :=
| OpNull (v : var)
| OpAlloc (v : var) (l : loc) (total meta data tag : Z)
| OpCopy (v source : var)
| OpMove (v source : var)
| OpAssign (v source : var)
| OpMoveAssign (v source : var)
| OpDestroy (v : var).

Definition run_op (o : ldo_op) : lunasa_state → outcome lunasa_state :=
  match o with
  | OpNull v => ctor_null v
  | OpAlloc v l total meta data tag => ctor_alloc v l total meta data tag
  | OpCopy v src => ctor_copy v src
  | OpMove v src => ctor_move v src
  | OpAssign v src => assign_copy v src
  | OpMoveAssign v src => assign_move v src
  | OpDestroy v => dtor v
  end.

(** A capacity that with the padding and the bookkeeping is below 4 GB. *)
Definition fits (total : Z) : Prop := (0 ≤ total)%Z ∧ (total + 4 + sizeof_Allocation < 2 ^ 32)%Z.

Lemma ldo_padding_range meta data : (1 ≤ ldo_padding meta data ≤ 4)%Z.
Proof.
  unfold ldo_padding, LDO_ALIGNMENT. change (4 - 1)%Z with (2 ^ 2 - 1)%Z.
  rewrite Z.sub_1_r, <-Z.ones_equiv, Z.land_ones by done.
  pose proof (Z.mod_pos_bound (u32 (meta + data)) (2 ^ 2)). lia.
Qed.

Lemma new_allocation_fits total meta data tag :
  (meta + data ≤ total)%Z → fits total →
  new_allocation total meta data tag =
    Ok (setHeader (Allocate (u32 (total + ldo_padding meta data))) 1 meta data (ldo_padding meta data) tag).
Proof.
  intros Hle [H0 Hfit]. unfold new_allocation. pose proof (ldo_padding_range meta data) as Hpad.
  destruct (Z.ltb_spec total (meta + data)); [lia|]. cbv zeta. unfold sizeof_Allocation in *.
  assert ((allocated_bytes (Allocate (u32 (total + ldo_padding meta data))) <? 56)%Z = false) as ->; [|done].
  unfold Allocate, sizeof_Allocation. cbn [allocated_bytes]. unwrap. apply Z.ltb_ge. lia.
Qed.

(** The C++ rules for a step: a constructor runs on a fresh variable, an assignment or a
    destructor on a live one, sources are live, [malloc] returns a free address, and an
    assignment is not from the object to itself.  An object and its bookkeeping must fit in 32 bits,
    and there are at most as many handles as an [int] counts. *)
Definition op_ok (o : ldo_op) (s : lunasa_state) : Prop :=
  match o with
  | OpNull v => objs s !! v = None
  | OpAlloc v l total meta data _ =>
      objs s !! v = None ∧ heap s !! l = None ∧ (meta + data ≤ total)%Z ∧ fits total
  | OpCopy v src =>
      objs s !! v = None ∧ is_Some (objs s !! src) ∧ (Z.of_nat (size (objs s)) < INT_MAX)%Z
  | OpMove v src => objs s !! v = None ∧ is_Some (objs s !! src)
  | OpAssign v src =>
      v ≠ src ∧ is_Some (objs s !! v) ∧ is_Some (objs s !! src) ∧ (Z.of_nat (size (objs s)) ≤ INT_MAX)%Z
  | OpMoveAssign v src => v ≠ src ∧ is_Some (objs s !! v) ∧ is_Some (objs s !! src)
  | OpDestroy v => is_Some (objs s !! v)
  end.

(** No step of a rule-abiding program fails, and each keeps the counts exact. *)
Theorem refs_exact_step o s :
  refs_exact s → op_ok o s → ∃ s', run_op o s = Ok s' ∧ refs_exact s'.
Proof.
  rewrite refs_exact_alt. intros H Hok.
  destruct o as [v|v l total meta data tag|v src|v src|v src|v src|v]; simpl in Hok |- *.
  - eexists. split; [done|]. apply refs_exact_alt. simpl.
    eapply exact_for_ext; [|done]. intros l. by rewrite handles_insert_new, points_None.
  - destruct Hok as (Hv & Hl & Hle & Hfit). unfold ctor_alloc. rewrite new_allocation_fits by done. simpl.
    eexists. split; [done|]. apply refs_exact_alt. simpl. intros l'.
    rewrite handles_insert_new by done. specialize (H l').
    destruct (decide (l = l')) as [<-|Hne].
    + rewrite lookup_insert_eq, points_eq. rewrite Hl in H. simpl. unfold INT_MAX. lia.
    + by rewrite lookup_insert_ne, points_ne.
  - destruct Hok as (Hv & (p & Hp) & Hmax). unfold ctor_copy, impl_of. rewrite Hp. simpl.
    destruct (incr_opt_exact p (heap s) _ H) as (h' & -> & Hh').
    { intros l Hpl. split; [by apply points_handles with src p|]. pose proof (handles_le (objs s) l). lia. }
    simpl. eexists. split; [done|]. apply refs_exact_alt. simpl.
    eapply exact_for_ext; [|done]. intros l. by rewrite handles_insert_new.
  - destruct Hok as (Hv & p & Hp). unfold ctor_move, impl_of. rewrite Hp. simpl.
    eexists. split; [done|]. apply refs_exact_alt. simpl.
    assert (Hne : v ≠ src) by congruence.
    eapply exact_for_ext; [|done]. intros l.
    rewrite handles_insert, delete_insert_ne, handles_insert_new
      by (done || by rewrite lookup_delete_ne).
    by rewrite (handles_delete (objs s) src p l Hp).
  - destruct Hok as (Hne & (old & Hv) & (p & Hp) & Hmax). unfold assign_copy, impl_of. rewrite Hv, Hp. simpl.
    destruct (decr_opt_exact old (heap s) (handles (delete v (objs s)))) as (h1 & -> & H1).
    { eapply exact_for_ext; [|exact H]. intros l. by apply handles_delete. }
    simpl. destruct (incr_opt_exact p h1 _ H1) as (h2 & -> & H2).
    { intros l Hpl. split; [apply points_handles with src p; [by rewrite lookup_delete_ne|done]|].
      pose proof (handles_le (delete v (objs s)) l) as Hle. rewrite map_size_delete, Hv in Hle.
      assert (size (objs s) ≠ 0) by (intros E%map_size_empty_iff; by rewrite E in Hv).
      lia. }
    simpl. eexists. split; [done|]. apply refs_exact_alt. simpl.
    eapply exact_for_ext; [|done]. intros l. by rewrite handles_insert.
  - destruct Hok as (Hne & (old & Hv) & p & Hp). unfold assign_move, impl_of. rewrite Hv, Hp. simpl.
    destruct (decr_opt_exact old (heap s) (handles (delete v (objs s)))) as (h1 & -> & H1).
    { eapply exact_for_ext; [|exact H]. intros l. by apply handles_delete. }
    simpl. eexists. split; [done|]. apply refs_exact_alt. simpl.
    eapply exact_for_ext; [|done]. intros l.
    rewrite handles_insert, delete_insert_ne by done. rewrite handles_insert.
    rewrite (handles_delete (delete v (objs s)) src p l) by (by rewrite lookup_delete_ne).
    by rewrite (delete_delete _ src v).
  - destruct Hok as (p & Hp). unfold dtor, impl_of. rewrite Hp. simpl.
    destruct (decr_opt_exact p (heap s) (handles (delete v (objs s)))) as (h1 & -> & H1).
    { eapply exact_for_ext; [|exact H]. intros l. by apply handles_delete. }
    simpl. eexists. split; [done|]. by apply refs_exact_alt.
Qed.

(** The states a rule-abiding program can reach from an empty process. *)
Inductive reachable : lunasa_state → Prop :=
| reach_init : reachable (mkState ∅ ∅)
| reach_step o s s' : reachable s → op_ok o s → run_op o s = Ok s' → reachable s'.

Lemma reachable_exact s : reachable s → refs_exact s.
Proof.
  induction 1 as [|o s s' _ IH Hok Hrun].
  - apply refs_exact_alt. intros l. simpl. rewrite lookup_empty.
    unfold handles. by rewrite map_filter_empty, map_size_empty.
  - destruct (refs_exact_step o s IH Hok) as (s'' & Hrun' & ?). congruence.
Qed.

(** C34: In every state that a process can reach with objects that fit in 32 bits with their
    bookkeeping and with at most 2^31 - 1 live objects, the next such step succeeds, no handle
    dangles, and memory is live exactly while a handle refers to it; when the last handle is gone the
    heap is empty. *)
Theorem ldo_memory_safe s :
  reachable s →
  (∀ v l, objs s !! v = Some (Some l) → is_Some (heap s !! l)) ∧
  (∀ l, is_Some (heap s !! l) → ∃ v, objs s !! v = Some (Some l)) ∧
  (∀ o, op_ok o s → ∃ s', run_op o s = Ok s') ∧
  (objs s = ∅ → heap s = ∅).
Proof.
  intros Hr%reachable_exact. pose proof Hr as [H1 H2]. split; [|split; [|split]].
  - intros v l Hv. apply H2. by apply points_handles with v (Some l).
  - intros l [a Ha]. destruct (H1 l a Ha) as (_ & Hn & _).
    destruct (map_choose (filter (λ kv, kv.2 = Some l) (objs s))) as (v & p & Hvp).
    { intros He. apply Hn. unfold handles. by rewrite He, map_size_empty. }
    apply map_lookup_filter_Some in Hvp as [Hv Hp]. simpl in Hp. subst p. by exists v.
  - intros o Hok. destruct (refs_exact_step o s Hr Hok) as (s' & ? & _). eauto.
  - intros Ho. apply map_empty. intros l. destruct (heap s !! l) as [a|] eqn:Ha; [|done].
    destruct (H1 l a Ha) as (_ & [] & _). rewrite Ho. unfold handles.
    by rewrite map_filter_empty, map_size_empty.
Qed.

(** Assigning an object to itself when it holds the last reference frees the allocation
    and then increments the count of freed memory. *)
Theorem self_assignment_undefined :
  ∃ s, reachable s ∧ is_Some (objs s !! 0) ∧ assign_copy 0 0 s = Throw Undefined.
Proof.
  eexists. split; [|split].
  - eapply (reach_step (OpAlloc 0 0 8 0 8 0)); [apply reach_init|by split_and!|]. vm_compute. reflexivity.
  - by eexists.
  - done.
Qed.

(** * Sizes and capacities *)

(** An allocated object has room for the sizes in its header, the user section ends on a
    4-byte boundary, as long as capacity, padding and bookkeeping together fit in 32 bits. *)
Theorem new_allocation_capacity total meta data tag a :
  in_width 16 meta → in_width 32 data → (total + 4 + sizeof_Allocation < 2 ^ 32)%Z →
  new_allocation total meta data tag = Ok a →
  (GetUserSize (Some a) + 1 ≤ GetUserCapacity (Some a))%Z ∧
  (GetMetaSize (Some a), GetDataSize (Some a)) = (meta, data) ∧ ref_count a = 1%Z ∧
  ((meta + data + padding a) mod LDO_ALIGNMENT = 0)%Z.
Proof.
  intros [M0 M1] [D0 D1] Hfit Hnew.
  assert (meta + data ≤ total)%Z as Hle.
  { unfold new_allocation in Hnew. by destruct (Z.ltb_spec total (meta + data)). }
  rewrite new_allocation_fits in Hnew by (done || (split; lia)). injection Hnew as <-.
  pose proof (ldo_padding_range meta data) as Hpad.
  unfold sizeof_Allocation in *. simpl. unfold alloc_GetUserCapacity. simpl.
  unfold offsetof_user, sizeof_Allocation.
  unwrap. split; [lia|]. split; [done|]. split; [done|].
  unfold ldo_padding, LDO_ALIGNMENT. change (4 - 1)%Z with (2 ^ 2 - 1)%Z.
  rewrite Z.sub_1_r, <-Z.ones_equiv, Z.land_ones by done.
  unwrap. change (2 ^ 2)%Z with 4%Z.
  Z.div_mod_to_equations. lia.
Qed.

(** At the documented limit of 4 GB - 1 bytes the 32-bit additions wrap: the constructor
    succeeds with an allocation that holds none of the bytes its header announces; a little below
    it, the header itself does not fit in the block. *)
Theorem new_allocation_wraps :
  ∃ a, new_allocation (2 ^ 32 - 1) 0 (2 ^ 32 - 1) 0 = Ok a ∧
    GetUserSize (Some a) = (2 ^ 32 - 1)%Z ∧ GetUserCapacity (Some a) = 0%Z ∧
    new_allocation (2 ^ 32 - 16) 0 (2 ^ 32 - 16) 0 = Throw Undefined.
Proof. eexists. split; [vm_compute; reflexivity|]. by vm_compute. Qed.

(** [ModifyUserSizes] reports success exactly when the new sizes fit, and then only the
    two sizes change. *)
Theorem ModifyUserSizes_spec a m d :
  let '(rc, impl) := ModifyUserSizes (Some a) m d in
  ((m + d ≤ GetUserCapacity (Some a))%Z →
     rc = 0%Z ∧ GetMetaSize impl = m ∧ GetDataSize impl = d ∧
     GetUserCapacity impl = GetUserCapacity (Some a)) ∧
  ((GetUserCapacity (Some a) < m + d)%Z → rc = (-1)%Z ∧ impl = Some a).
Proof.
  simpl. destruct (Z.ltb_spec (alloc_GetUserCapacity a) (m + d)); split; intros; try lia; done.
Qed.

(** For an object made from user memory the capacity of the segment is recorded as the
    size of the data section alone, and the check in [GetDataPtr] compares it with the
    whole user section: it fails for every such object. *)
Theorem user_ldo_GetDataPtr_fails mem meta data :
  in_width 16 meta → in_width 32 data → (meta + data < 2 ^ 32)%Z →
  GetDataPtr (Some (user_allocation mem meta data)) = Throw AssertFailed.
Proof.
  intros [? ?] [? ?] Hfit.
  assert (Hseg : user_allocation mem meta data =
    mkAllocation 1 sizeof_Allocation 0 [mkSegment mem meta data] 0 meta data).
  { unfold user_allocation, AddUserDataSegment, Allocate. simpl. f_equal.
    - by apply wrap_id.
    - by apply wrap_id. }
  rewrite Hseg. simpl. unwrap.
  unfold F_ASSERT. destruct (Z.ltb_spec (meta + data) data); [lia|done].
Qed.

(** * Witnesses *)

(** An object, a copy of it, and a second object that the copy is then assigned to. *)
Definition demo_program : list ldo_op :=
  [OpAlloc 0 0 8 0 8 0; OpCopy 1 0; OpAlloc 2 5 100 10 20 7; OpAssign 2 1; OpDestroy 0; OpMove 3 1].

#[global] Instance op_ok_dec o s : Decision (op_ok o s).
Proof. destruct o; unfold op_ok, fits; apply _. Defined.

(** Run a program as long as its steps are legal and succeed. *)
Fixpoint run_all (os : list ldo_op) (s : lunasa_state) : option lunasa_state :=
  match os with
  | [] => Some s
  | o :: os =>
      if decide (op_ok o s) then
        match run_op o s with Ok s' => run_all os s' | Throw _ => None end
      else None
  end.

Lemma run_all_reachable os s s' : reachable s → run_all os s = Some s' → reachable s'.
Proof.
  revert s. induction os as [|o os IH]; intros s Hs; cbn [run_all]; [by intros [= <-]|].
  case_decide; [|done]. destruct (run_op o s) as [s1|] eqn:E; [|done].
  apply IH. by eapply (reach_step o).
Qed.

Lemma ldo_memory_safe_witness :
  ∃ s, run_all demo_program (mkState ∅ ∅) = Some s ∧ objs s !! 2 = Some (Some 0) ∧
    is_Some (heap s !! 0) ∧ heap s !! 5 = None ∧
    ∃ s', run_op (OpDestroy 2) s = Ok s' ∧ is_Some (heap s' !! 0).
Proof.
  eexists. split; [vm_compute; reflexivity|].
  match goal with |- context [objs ?x] => set (s := x) end.
  assert (Hr : reachable s).
  { apply (run_all_reachable demo_program (mkState ∅ ∅)); [apply reach_init|vm_compute; reflexivity]. }
  destruct (ldo_memory_safe s Hr) as (Hlive & _ & Hnext & _).
  split_and!; [reflexivity|by apply (Hlive 2)|reflexivity|].
  destruct (Hnext (OpDestroy 2)) as [s' Hs']; [by exists (Some 0)|]. exists s'. split; [exact Hs'|].
  vm_compute in Hs'. injection Hs' as <-. by eexists.
Defined.

Lemma new_allocation_capacity_witness :
  let a := mkAllocation 1 66 2 [] 0 2 4 in
  (GetUserSize (Some a) + 1 ≤ GetUserCapacity (Some a))%Z ∧
  (GetMetaSize (Some a), GetDataSize (Some a)) = (2, 4)%Z ∧ ref_count a = 1%Z ∧
  ((2 + 4 + padding a) mod LDO_ALIGNMENT = 0)%Z.
Proof.
  apply (new_allocation_capacity 8 2 4 0); [split; lia|split; lia|reflexivity|].
  vm_compute. reflexivity.
Defined.
