(* ===== verification/LdoBytes.v ===== *)
(** The bytes of data objects (src/src/lunasa/DataObject.cpp, Lunasa.cpp): memory with bounds,
    little-endian integers, the header that travels with an object, deep copies and comparisons,
    wiping, and the files an object is written to and read from.

    An object here is the allocation of [DataObject] together with the bytes of its user section.
    An access outside of the section is [Undefined].  A fresh allocation holds arbitrary bytes,
    the argument [garbage]. *)
From S2P Require Import Prelude DataObject.

(** * Memory *)

Definition zlen (s : str) : Z := Z.of_nat (length s).

Definition in_bounds (m : str) (off len : Z) : bool :=
  ((0 <=? off) && (0 <=? len) && (off + len <=? zlen m))%Z.

Definition mem_read (m : str) (off len : Z) : outcome str :=
  if in_bounds m off len then Ok (take (Z.to_nat len) (drop (Z.to_nat off) m)) else Throw Undefined.

(** [memcpy(&m[off], bs, bs.size())] *)
Definition mem_write (m : str) (off : Z) (bs : str) : outcome str :=
  if in_bounds m off (zlen bs)
  then Ok (take (Z.to_nat off) m ++ bs ++ drop (Z.to_nat off + length bs) m)
  else Throw Undefined.

(** Unsigned integers of [n] bytes on x86-64, low byte first. *)
Fixpoint le (n : nat) (z : Z) : str :=
  match n with O => [] | S n => char_of (z mod 256) :: le n (z / 256) end.

Fixpoint unle (s : str) : Z :=
  match s with [] => 0 | c :: s' => (code c + 256 * unle s')%Z end.

Lemma length_le n z : length (le n z) = n.
Proof. revert z. induction n as [|n IH]; intros z; simpl; [done|]. by rewrite IH. Qed.

Lemma zlen_le n z : zlen (le n z) = Z.of_nat n.
Proof. unfold zlen. by rewrite length_le. Qed.

Lemma unle_le n z : (0 ≤ z < 256 ^ Z.of_nat n)%Z → unle (le n z) = z.
Proof.
  revert z. induction n as [|n IH]; intros z Hz; simpl.
  - change (256 ^ Z.of_nat 0)%Z with 1%Z in Hz. lia.
  - pose proof (Z.mod_pos_bound z 256 ltac:(lia)). rewrite code_char_of by lia.
    rewrite IH; [pose proof (Z.div_mod z 256 ltac:(lia)); lia|].
    rewrite Nat2Z.inj_succ, Z.pow_succ_r in Hz by lia. split.
    + apply Z.div_pos; lia.
    + apply Z.div_lt_upper_bound; lia.
Qed.

Lemma zlen_app a b : zlen (a ++ b) = (zlen a + zlen b)%Z.
Proof. unfold zlen. rewrite length_app. lia. Qed.

Lemma zlen_nonneg a : (0 ≤ zlen a)%Z.
Proof. unfold zlen. lia. Qed.

Lemma zlen_take m n : (0 ≤ n ≤ zlen m)%Z → zlen (take (Z.to_nat n) m) = n.
Proof. intros H. unfold zlen in *. rewrite length_take. lia. Qed.

Lemma in_bounds_spec m off len :
  in_bounds m off len = true ↔ (0 ≤ off)%Z ∧ (0 ≤ len)%Z ∧ (off + len ≤ zlen m)%Z.
Proof. unfold in_bounds. rewrite !andb_true_iff, !Z.leb_le. tauto. Qed.

(** A piece in the middle of a memory. *)
Lemma read_middle a b c : mem_read (a ++ b ++ c) (zlen a) (zlen b) = Ok b.
Proof.
  unfold mem_read. rewrite (proj2 (in_bounds_spec _ _ _)).
  2:{ rewrite !zlen_app. pose proof (zlen_nonneg a). pose proof (zlen_nonneg b).
      pose proof (zlen_nonneg c). lia. }
  unfold zlen. rewrite !Nat2Z.id, drop_app_length, take_app_length. done.
Qed.

Lemma read_middle' m a b c off len :
  m = a ++ b ++ c → off = zlen a → len = zlen b → mem_read m off len = Ok b.
Proof. intros -> -> ->. apply read_middle. Qed.

Lemma write_middle a b c b' :
  length b' = length b → mem_write (a ++ b ++ c) (zlen a) b' = Ok (a ++ b' ++ c).
Proof.
  intros Hl. unfold mem_write. rewrite (proj2 (in_bounds_spec _ _ _)).
  2:{ rewrite !zlen_app. unfold zlen. lia. }
  unfold zlen. rewrite Nat2Z.id, take_app_length. f_equal. f_equal. f_equal.
  rewrite Hl, drop_app_ge by lia. replace (length a + length b - length a) with (length b) by lia.
  by rewrite drop_app_length.
Qed.

(** Every access in bounds cuts the memory in three. *)
Lemma bounds_split m off len :
  in_bounds m off len = true →
  ∃ a b c, m = a ++ b ++ c ∧ zlen a = off ∧ zlen b = len.
Proof.
  intros (H1 & H2 & H3)%in_bounds_spec.
  exists (take (Z.to_nat off) m), (take (Z.to_nat len) (drop (Z.to_nat off) m)),
    (drop (Z.to_nat len) (drop (Z.to_nat off) m)).
  rewrite take_drop, take_drop. split; [done|]. unfold zlen in *.
  rewrite !length_take, length_drop. lia.
Qed.

(** * Objects *)

Record ldo_obj := mkLdo { alloc : Allocation; user : str }.

(** The bytes behind a new allocation: what was in memory, cut to the size that was allocated. *)
Definition fresh_user (a : Allocation) (garbage : str) : str :=
  let n := Z.to_nat (allocated_bytes a - offsetof_user) in
  take n (garbage ++ replicate n "000"%char).

Definition new_ldo (garbage : str) (total meta data tag : Z) : outcome ldo_obj :=
  a ← new_allocation total meta data tag;
  Ok (mkLdo a (fresh_user a garbage)).

(** The header: type, meta size, data size. *)
Definition header_bytes (a : Allocation) : str :=
  le 2 (type_id a) ++ le 2 (meta_bytes a) ++ le 4 (data_bytes a).

Definition set_header_bytes (a : Allocation) (h : str) : Allocation :=
  mkAllocation (ref_count a) (allocated_bytes a) (padding a) (user_data_segments a)
    (unle (take 2 h)) (unle (take 2 (drop 2 h))) (unle (take 4 (drop 4 h))).

Definition GetPaddingSize (a : Allocation) : Z := padding a.

(** [header + user] as one piece of memory. *)
Definition wire (o : ldo_obj) : str := header_bytes (alloc o) ++ user o.

(** [writeToFile]: the contents of the file. *)
Definition writeToFile (o : ldo_obj) : outcome str :=
  mem_read (wire o) 0 (u32 (GetHeaderSize + meta_bytes (alloc o) + data_bytes (alloc o))).

Definition readFromFile (o : ldo_obj) (file : option str) : outcome ldo_obj :=
  match file with
  | None => Throw AssertFailed
  | Some f =>
      _ ← F_ASSERT (zlen f <=? u32 (GetHeaderSize + meta_bytes (alloc o) + data_bytes (alloc o)))%Z;
      w ← mem_write (wire o) 0 f;
      Ok (mkLdo (set_header_bytes (alloc o) w) (drop 8 w))
  end.

Definition LoadDataObjectFromFile (garbage : str) (file : option str) : outcome ldo_obj :=
  match file with
  | None => Throw RuntimeError
  | Some f =>
      if (zlen f <? GetHeaderSize)%Z then Throw RuntimeError
      else
        let dataCapacity := u32 (zlen f - GetHeaderSize) in
        o ← new_ldo garbage dataCapacity 0 dataCapacity 0;
        readFromFile o file
  end.

(** The sections. *)
Definition meta_section (o : ldo_obj) : outcome str := mem_read (user o) 0 (meta_bytes (alloc o)).
Definition data_section (o : ldo_obj) : outcome str :=
  mem_read (user o) (meta_bytes (alloc o)) (data_bytes (alloc o)).

Definition wipe (o : ldo_obj) (off len : Z) : outcome ldo_obj :=
  u ← mem_write (user o) off (replicate (Z.to_nat len) "000"%char);
  Ok (mkLdo (alloc o) u).
Definition WipeMeta (o : ldo_obj) : outcome ldo_obj := wipe o 0 (meta_bytes (alloc o)).
Definition WipeData (o : ldo_obj) : outcome ldo_obj :=
  wipe o (meta_bytes (alloc o)) (data_bytes (alloc o)).
Definition WipeUser (o : ldo_obj) : outcome ldo_obj :=
  wipe o 0 (u32 (meta_bytes (alloc o) + data_bytes (alloc o))).

Definition SetTypeID (o : ldo_obj) (t : Z) : ldo_obj :=
  let a := alloc o in
  mkLdo (mkAllocation (ref_count a) (allocated_bytes a) (padding a) (user_data_segments a) t
           (meta_bytes a) (data_bytes a)) (user o).

(** An object of the given sizes and type with a payload copied into its user section. *)
Definition restore (garbage : str) (ldo_type meta data : Z) (payload : str) : outcome ldo_obj :=
  o ← new_ldo garbage (u32 (meta + data)) meta data 0;
  u ← mem_write (user o) 0 payload;
  Ok (SetTypeID (mkLdo (alloc o) u) ldo_type).

(** [deepcopy] into another variable; user memory is not supported. *)
Definition deepcopy (garbage : str) (source : option ldo_obj) : outcome ldo_obj :=
  match source with
  | None => Throw Undefined
  | Some src =>
      let a := alloc src in
      _ ← F_ASSERT (bool_decide (user_data_segments a = []));
      let pad := ldo_padding (meta_bytes a) (data_bytes a) in
      let alloc_size := u32 (meta_bytes a + data_bytes a + pad) in
      let b := setHeader (Allocate alloc_size) 1 (meta_bytes a) (data_bytes a) pad (type_id a) in
      bytes ← mem_read (user src) 0 (u32 (meta_bytes a + data_bytes a));
      u ← mem_write (fresh_user b garbage) 0 bytes;
      Ok (mkLdo b u)
  end.

(** [DeepCompare]; [same]: both handles point to one allocation (or are both null). *)
Definition DeepCompare (same : bool) (x y : option ldo_obj) : outcome Z :=
  if same then Ok 0%Z
  else
    match x, y with
    | Some x, Some y =>
        if negb (type_id (alloc x) =? type_id (alloc y))%Z then Ok (-2)%Z
        else if negb (meta_bytes (alloc x) =? meta_bytes (alloc y))%Z then Ok (-3)%Z
        else if negb (data_bytes (alloc x) =? data_bytes (alloc y))%Z then Ok (-4)%Z
        else
          mx ← meta_section x; my ← meta_section y;
          if negb (bool_decide (mx = my)) then Ok (-5)%Z
          else
            dx ← data_section x; dy ← data_section y;
            if negb (bool_decide (dx = dy)) then Ok (-6)%Z else Ok 0%Z
    | _, _ => Ok (-1)%Z
    end.

(** * Well-formed objects *)

Record ldo_ok (o : ldo_obj) : Prop := {
  ok_plain : user_data_segments (alloc o) = [];
  ok_type : (0 ≤ type_id (alloc o) < 2 ^ 16)%Z;
  ok_meta : (0 ≤ meta_bytes (alloc o) < 2 ^ 16)%Z;
  ok_data : (0 ≤ data_bytes (alloc o) < 2 ^ 32)%Z;
  ok_alloc : (offsetof_user ≤ allocated_bytes (alloc o) < 2 ^ 32)%Z;
  ok_len : zlen (user o) = (allocated_bytes (alloc o) - offsetof_user)%Z;
  ok_fits : (meta_bytes (alloc o) + data_bytes (alloc o) ≤ zlen (user o))%Z
}.

Lemma zlen_fresh a g :
  (offsetof_user ≤ allocated_bytes a)%Z →
  zlen (fresh_user a g) = (allocated_bytes a - offsetof_user)%Z.
Proof.
  intros H. unfold fresh_user, zlen. rewrite length_take, length_app, length_replicate. lia.
Qed.

(** The allocating constructor gives a well-formed object of the sizes asked for, as long as the
    sum of the sizes and the bookkeeping fits 32 bits. *)
Lemma new_ldo_ok garbage total meta data tag :
  (0 ≤ meta < 2 ^ 16)%Z → (0 ≤ data)%Z → (0 ≤ tag < 2 ^ 16)%Z → (meta + data ≤ total)%Z →
  (total + 60 < 2 ^ 32)%Z →
  ∃ o, new_ldo garbage total meta data tag = Ok o ∧ ldo_ok o ∧
       meta_bytes (alloc o) = meta ∧ data_bytes (alloc o) = data ∧ type_id (alloc o) = tag ∧
       (total ≤ zlen (user o))%Z.
Proof.
  intros Hm Hd Ht Hs Hf. unfold new_ldo.
  rewrite new_allocation_fits by (done || (unfold fits, sizeof_Allocation; lia)). cbn [mbind outcome_bind].
  pose proof (ldo_padding_range meta data) as Hp.
  set (a := setHeader _ _ _ _ _ _).
  assert (allocated_bytes a = total + ldo_padding meta data + sizeof_Allocation)%Z as Ha.
  { unfold a. simpl. unfold sizeof_Allocation. unwrap. done. }
  assert (zlen (fresh_user a garbage) = total + ldo_padding meta data)%Z as Hz.
  { rewrite zlen_fresh; rewrite Ha; unfold sizeof_Allocation, offsetof_user; lia. }
  eexists. split; [done|]. split_and!; try done.
  - constructor; cbn [alloc user]; try done.
    all: try (rewrite Ha; unfold sizeof_Allocation, offsetof_user; lia).
    all: rewrite ?Hz, ?Ha; unfold a; simpl; unfold sizeof_Allocation, offsetof_user; lia.
  - cbn [user]. lia.
Qed.

(** * Files *)

Lemma length_header a : length (header_bytes a) = 8.
Proof. unfold header_bytes. rewrite !length_app, !length_le. done. Qed.

Lemma take_le n z r : take n (le n z ++ r) = le n z.
Proof. rewrite <-(length_le n z) at 1. apply take_app_length. Qed.
Lemma drop_le n z r : drop n (le n z ++ r) = r.
Proof. rewrite <-(length_le n z) at 1. apply drop_app_length. Qed.

Lemma drop_drop_app n m (x y : str) : length x = n → drop (n + m) (x ++ y) = drop m y.
Proof. intros <-. rewrite <-drop_drop, drop_app_length. done. Qed.

(** Reading a header back gives the fields that were written. *)
Lemma set_header_header a b r :
  (0 ≤ type_id b < 2 ^ 16)%Z → (0 ≤ meta_bytes b < 2 ^ 16)%Z → (0 ≤ data_bytes b < 2 ^ 32)%Z →
  set_header_bytes a (header_bytes b ++ r)
  = mkAllocation (ref_count a) (allocated_bytes a) (padding a) (user_data_segments a)
      (type_id b) (meta_bytes b) (data_bytes b).
Proof.
  intros Ht Hm Hd. unfold set_header_bytes, header_bytes. rewrite <-!app_assoc.
  f_equal.
  - rewrite take_le. apply unle_le. lia.
  - rewrite drop_le, take_le. apply unle_le. lia.
  - rewrite (drop_drop_app 2 2) by apply length_le. rewrite drop_le, take_le. apply unle_le. lia.
Qed.

Lemma writeToFile_ok o :
  ldo_ok o → (meta_bytes (alloc o) + data_bytes (alloc o) + 60 < 2 ^ 32)%Z →
  ∃ body rest, user o = body ++ rest ∧ zlen body = (meta_bytes (alloc o) + data_bytes (alloc o))%Z ∧
    writeToFile o = Ok (header_bytes (alloc o) ++ body).
Proof.
  intros [Hp Ht Hm Hd Ha Hl Hf] Hs.
  destruct (bounds_split (user o) 0 (meta_bytes (alloc o) + data_bytes (alloc o)))
    as (x & body & rest & Hu & Hx & Hb); [apply in_bounds_spec; lia|].
  destruct x; [|unfold zlen in Hx; simpl in Hx; lia]. simpl in Hu.
  exists body, rest. split_and!; [done..|]. unfold writeToFile, wire, GetHeaderSize, offsetof_user, offsetof_header.
  unwrap. rewrite Hu, app_assoc. apply (read_middle' _ [] (header_bytes (alloc o) ++ body) rest).
  - done.
  - done.
  - rewrite zlen_app, Hb. unfold zlen. rewrite length_header. lia.
Qed.

(** An object of two bytes of meta data and five of data. *)
Definition sample_ldo : ldo_obj :=
  mkLdo (mkAllocation 1 67 4 [] 7 2 5) (lit "mmdata!----").

Lemma sample_ldo_ok : ldo_ok sample_ldo.
Proof. constructor; vm_compute; done. Qed.

(** Two objects with the same contents: type, meta section and data section. *)
Definition same_object (x y : ldo_obj) : Prop :=
  type_id (alloc x) = type_id (alloc y) ∧
  meta_section x = meta_section y ∧ data_section x = data_section y.

(** The sections are made of the first bytes of the user section. *)
Lemma sections_prefix o o' body rest rest' :
  user o = body ++ rest → user o' = body ++ rest' →
  meta_bytes (alloc o') = meta_bytes (alloc o) → data_bytes (alloc o') = data_bytes (alloc o) →
  (0 ≤ meta_bytes (alloc o))%Z → (0 ≤ data_bytes (alloc o))%Z →
  zlen body = (meta_bytes (alloc o) + data_bytes (alloc o))%Z →
  meta_section o' = meta_section o ∧ data_section o' = data_section o.
Proof.
  intros Hu Hu' Hm Hd Hm0 Hd0 Hb. unfold meta_section, data_section. rewrite Hu, Hu', Hm, Hd.
  destruct (bounds_split body (meta_bytes (alloc o)) (data_bytes (alloc o)))
    as (b1 & b2 & b3 & Hb123 & Hb1 & Hb2); [apply in_bounds_spec; lia|].
  assert (b3 = []) as ->.
  { assert (zlen b3 = 0)%Z as H3 by (rewrite Hb123, !zlen_app in Hb; lia). by destruct b3. }
  rewrite app_nil_r in Hb123. subst body. rewrite <-!app_assoc. split.
  - rewrite (read_middle' _ [] b1 (b2 ++ rest')), (read_middle' _ [] b1 (b2 ++ rest)) by done. done.
  - rewrite (read_middle' _ b1 b2 rest'), (read_middle' _ b1 b2 rest) by done. done.
Qed.

(** The meta and data sections together, as a driver hands them to its store. *)
Lemma user_slice_ok o :
  ldo_ok o → ∃ body rest, user o = body ++ rest ∧
    zlen body = (meta_bytes (alloc o) + data_bytes (alloc o))%Z ∧
    mem_read (user o) 0 (GetUserSize (Some (alloc o))) = Ok body.
Proof.
  intros [Hp Ht Hm Hd Ha Hl Hf].
  destruct (bounds_split (user o) 0 (meta_bytes (alloc o) + data_bytes (alloc o)))
    as (x & body & rest & Hu & Hx & Hb); [apply in_bounds_spec; lia|].
  destruct x; [|unfold zlen in Hx; simpl in Hx; lia]. simpl in Hu.
  exists body, rest. split_and!; [done..|]. unfold GetUserSize. cbn [from_option].
  rewrite wrap_id by (unfold in_width, offsetof_user in *; lia). by rewrite (read_middle' _ [] body rest).
Qed.

(** What was taken from an object and put into a new one of its sizes and type is the object. *)
Lemma restore_ok garbage o body rest :
  ldo_ok o → user o = body ++ rest → zlen body = (meta_bytes (alloc o) + data_bytes (alloc o))%Z →
  (zlen body + 60 < 2 ^ 32)%Z →
  ∃ o', restore garbage (type_id (alloc o)) (meta_bytes (alloc o)) (data_bytes (alloc o)) body = Ok o' ∧
        ldo_ok o' ∧ same_object o' o.
Proof.
  intros [Hp Ht Hm Hd Ha Hl Hf] Hu Hb Hs. unfold restore. rewrite wrap_id by (unfold in_width; lia).
  destruct (new_ldo_ok garbage (meta_bytes (alloc o) + data_bytes (alloc o)) (meta_bytes (alloc o))
    (data_bytes (alloc o)) 0) as (n & -> & Hn & Hnm & Hnd & _ & Hnt); [lia..|].
  cbn [mbind outcome_bind]. destruct Hn as [Np Nt Nm Nd Na Nl Nf].
  destruct (bounds_split (user n) 0 (zlen body)) as (x & nb & nr & Hnu & Hx & Hnb);
    [apply in_bounds_spec; lia|].
  destruct x; [|unfold zlen in Hx; simpl in Hx; lia]. simpl in Hnu. rewrite Hnu.
  assert (mem_write (nb ++ nr) 0 body = Ok (body ++ nr)) as ->.
  { apply (write_middle [] nb nr body). unfold zlen in Hnb. lia. }
  assert (zlen (body ++ nr) = zlen (user n)) as Hbn by (rewrite Hnu, !zlen_app; lia).
  eexists. split; [done|]. split.
  { constructor; cbn [SetTypeID alloc user user_data_segments type_id meta_bytes data_bytes allocated_bytes];
      try done; rewrite ?Hbn; lia. }
  split; [done|]. apply (sections_prefix _ _ body rest nr); done || lia.
Qed.

(** A payload with more bytes than the new object has room for runs over its end. *)
Lemma restore_overflow garbage ty meta data payload :
  (0 ≤ meta < 2 ^ 16)%Z → (0 ≤ data)%Z → (meta + data + 60 < 2 ^ 32)%Z →
  (meta + data + 4 < zlen payload)%Z →
  restore garbage ty meta data payload = Throw Undefined.
Proof.
  intros Hm Hd Hs Hl. unfold restore, new_ldo. rewrite wrap_id by (unfold in_width; lia).
  rewrite new_allocation_fits by (done || (unfold fits, sizeof_Allocation; lia)). cbn [mbind outcome_bind].
  pose proof (ldo_padding_range meta data) as Hp. unfold mem_write. cbn [user].
  destruct (in_bounds _ _ _) eqn:Hb; [|done]. apply in_bounds_spec in Hb as (_ & _ & Hb).
  rewrite zlen_fresh in Hb; revert Hb; simpl; unfold sizeof_Allocation, offsetof_user; unwrap; lia.
Qed.

(** A file that holds an object, read over an object with enough room. *)
Lemma readFromFile_written n o body rest :
  ldo_ok n → ldo_ok o → user o = body ++ rest →
  zlen body = (meta_bytes (alloc o) + data_bytes (alloc o))%Z →
  (zlen body ≤ meta_bytes (alloc n) + data_bytes (alloc n) < 2 ^ 32 - 8)%Z →
  ∃ o', readFromFile n (Some (header_bytes (alloc o) ++ body)) = Ok o' ∧ ldo_ok o' ∧ same_object o' o.
Proof.
  intros [Np Nt Nm Nd Na Nl Nf] [Hp Ht Hm Hd Ha Hl Hf] Hu Hb Hroom.
  assert (zlen (header_bytes (alloc o) ++ body) = 8 + zlen body)%Z as Hz.
  { rewrite zlen_app. unfold zlen at 1. rewrite length_header. lia. }
  unfold readFromFile, GetHeaderSize, offsetof_user, offsetof_header. cbn beta iota zeta.
  rewrite Hz, wrap_id by (unfold in_width; lia).
  match goal with |- context [F_ASSERT ?b] => replace b with true by lia end.
  cbn [F_ASSERT mbind outcome_bind].
  destruct (bounds_split (user n) 0 (zlen body)) as (x & nb & nr & Hnu & Hx & Hnb);
    [apply in_bounds_spec; pose proof (zlen_nonneg body); lia|].
  destruct x; [|unfold zlen in Hx; simpl in Hx; lia]. simpl in Hnu.
  assert (mem_write (wire n) 0 (header_bytes (alloc o) ++ body)
          = Ok (header_bytes (alloc o) ++ body ++ nr)) as ->.
  { unfold wire. rewrite Hnu, !app_assoc.
    apply (write_middle [] (header_bytes (alloc n) ++ nb) nr).
    rewrite !length_app, !length_header. unfold zlen in Hnb. lia. }
  cbn [mbind outcome_bind]. rewrite set_header_header by done.
  assert (drop 8 (header_bytes (alloc o) ++ body ++ nr) = body ++ nr) as ->.
  { rewrite <-(length_header (alloc o)). apply drop_app_length. }
  assert (zlen (body ++ nr) = zlen (user n)) as Hbn by (rewrite Hnu, !zlen_app; lia).
  eexists. split; [done|]. split.
  { constructor; cbn [alloc user user_data_segments type_id meta_bytes data_bytes allocated_bytes];
      try done; rewrite ?Hbn; lia. }
  split; [done|]. apply (sections_prefix _ _ body rest nr); done || lia.
Qed.

(** an object that is written to a file and loaded from it is the same object: same type,
    same sizes, same bytes, in an allocation of its own. *)
Theorem ldo_file_roundtrip o garbage :
  ldo_ok o → (meta_bytes (alloc o) + data_bytes (alloc o) + 60 < 2 ^ 32)%Z →
  ∃ file o', writeToFile o = Ok file ∧
        LoadDataObjectFromFile garbage (Some file) = Ok o' ∧ ldo_ok o' ∧
        type_id (alloc o') = type_id (alloc o) ∧
        meta_section o' = meta_section o ∧ data_section o' = data_section o.
Proof.
  intros Hok Hs. destruct (writeToFile_ok o Hok Hs) as (body & rest & Hu & Hb & Hw).
  exists (header_bytes (alloc o) ++ body). rewrite Hw.
  assert (zlen (header_bytes (alloc o) ++ body) = 8 + zlen body)%Z as Hz.
  { rewrite zlen_app. unfold zlen at 1. rewrite length_header. lia. }
  unfold LoadDataObjectFromFile, GetHeaderSize, offsetof_user, offsetof_header. cbn beta iota zeta.
  rewrite Hz. pose proof (zlen_nonneg body).
  replace (8 + zlen body <? 56 - 48)%Z with false by lia.
  replace (8 + zlen body - (56 - 48))%Z with (zlen body) by lia.
  rewrite wrap_id by (unfold in_width; lia).
  destruct (new_ldo_ok garbage (zlen body) 0 (zlen body) 0) as (n & -> & Hn & Hnm & Hnd & _ & Hnt);
    [lia..|]. cbn [mbind outcome_bind].
  destruct (readFromFile_written n o body rest) as (o' & -> & Hok' & Hsame); [done..|lia|].
  by exists o'.
Qed.

Lemma ldo_file_witness :
  ∃ file o', writeToFile sample_ldo = Ok file ∧
    LoadDataObjectFromFile (lit "old bytes") (Some file) = Ok o' ∧ ldo_ok o' ∧
    type_id (alloc o') = 7%Z ∧ meta_section o' = Ok (lit "mm") ∧ data_section o' = Ok (lit "data!").
Proof. apply (ldo_file_roundtrip sample_ldo (lit "old bytes")); [exact sample_ldo_ok|vm_compute; done]. Defined.

(** * Copies and comparisons *)

Lemma sections_ok o :
  ldo_ok o → ∃ m d rest, user o = m ++ d ++ rest ∧ zlen m = meta_bytes (alloc o) ∧
    zlen d = data_bytes (alloc o) ∧ meta_section o = Ok m ∧ data_section o = Ok d.
Proof.
  intros [Hp Ht Hm Hd Ha Hl Hf].
  destruct (bounds_split (user o) (meta_bytes (alloc o)) (data_bytes (alloc o)))
    as (m & d & rest & Hu & H1 & H2); [apply in_bounds_spec; lia|].
  exists m, d, rest. split_and!; [done..| |].
  - unfold meta_section. by apply (read_middle' _ [] m (d ++ rest)).
  - unfold data_section. by apply (read_middle' _ m d rest).
Qed.

(** two objects compare as equal exactly when they have the same type, sizes and bytes, and a
    difference is reported with the code of the first field that differs. *)
Theorem DeepCompare_spec x y :
  ldo_ok x → ldo_ok y →
  ∃ rc, DeepCompare false (Some x) (Some y) = Ok rc ∧
    (rc = 0%Z ↔ type_id (alloc x) = type_id (alloc y) ∧ meta_bytes (alloc x) = meta_bytes (alloc y) ∧
              data_bytes (alloc x) = data_bytes (alloc y) ∧ meta_section x = meta_section y ∧
              data_section x = data_section y).
Proof.
  intros Hx Hy. destruct (sections_ok x Hx) as (mx & dx & rx & _ & _ & _ & Mx & Dx).
  destruct (sections_ok y Hy) as (my & dy & ry & _ & _ & _ & My & Dy).
  unfold DeepCompare. rewrite Mx, My, Dx, Dy. cbn [mbind outcome_bind].
  destruct (Z.eqb_spec (type_id (alloc x)) (type_id (alloc y))); simpl.
  2:{ eexists. split; [done|]. naive_solver. }
  destruct (Z.eqb_spec (meta_bytes (alloc x)) (meta_bytes (alloc y))); simpl.
  2:{ eexists. split; [done|]. naive_solver. }
  destruct (Z.eqb_spec (data_bytes (alloc x)) (data_bytes (alloc y))); simpl.
  2:{ eexists. split; [done|]. naive_solver. }
  case_bool_decide; simpl; [|eexists; split; [done|]; naive_solver].
  case_bool_decide; simpl; eexists; (split; [done|]); naive_solver.
Qed.

Lemma DeepCompare_witness :
  ∃ rc, DeepCompare false (Some sample_ldo) (Some sample_ldo) = Ok rc ∧ rc = 0%Z.
Proof.
  destruct (DeepCompare_spec sample_ldo sample_ldo sample_ldo_ok sample_ldo_ok) as (rc & Hrc & Hz).
  exists rc. split; [exact Hrc|]. by apply Hz.
Defined.

(** a deep copy is a well-formed object that compares equal to its source. *)
Theorem deepcopy_equal garbage src :
  ldo_ok src → (meta_bytes (alloc src) + data_bytes (alloc src) + 60 < 2 ^ 32)%Z →
  ∃ o, deepcopy garbage (Some src) = Ok o ∧ ldo_ok o ∧ DeepCompare false (Some o) (Some src) = Ok 0%Z.
Proof.
  intros Hok Hs. destruct (sections_ok src Hok) as (m & d & rest & Hu & Hm & Hd & Ms & Ds).
  destruct Hok as [Kp Kt Km Kd Ka Kl Kf]. unfold deepcopy. cbn beta iota zeta.
  rewrite bool_decide_eq_true_2 by done. cbn [F_ASSERT mbind outcome_bind].
  pose proof (ldo_padding_range (meta_bytes (alloc src)) (data_bytes (alloc src))) as Hpad.
  set (pad := ldo_padding _ _) in *. rewrite !(wrap_id 32) by (unfold in_width; lia).
  set (b := setHeader _ _ _ _ _ _).
  assert (allocated_bytes b = meta_bytes (alloc src) + data_bytes (alloc src) + pad + 56)%Z as Hb.
  { unfold b. simpl. unfold sizeof_Allocation. unwrap. done. }
  assert (zlen (fresh_user b garbage) = meta_bytes (alloc src) + data_bytes (alloc src) + pad)%Z as Hf.
  { rewrite zlen_fresh; rewrite Hb; unfold offsetof_user; lia. }
  rewrite (read_middle' (user src) [] (m ++ d) rest).
  2:{ by rewrite Hu, <-app_assoc. }
  2:{ done. }
  2:{ rewrite zlen_app. lia. }
  cbn [mbind outcome_bind].
  destruct (bounds_split (fresh_user b garbage) 0 (zlen (m ++ d))) as (x & fb & fr & Hfu & Hx & Hfb).
  { apply in_bounds_spec. rewrite zlen_app. lia. }
  destruct x; [|unfold zlen in Hx; simpl in Hx; lia]. simpl in Hfu. rewrite Hfu.
  rewrite (write_middle [] fb fr) by (unfold zlen in Hfb; lia). cbn [mbind outcome_bind app].
  set (o := mkLdo b ((m ++ d) ++ fr)). exists o. split; [done|].
  assert (zlen ((m ++ d) ++ fr) = zlen (fresh_user b garbage)) as Hz
    by (rewrite Hfu, zlen_app, (zlen_app fb); lia).
  assert (ldo_ok o) as Ho.
  { constructor; unfold o; cbn [alloc user]; try done.
    - rewrite Hb. unfold offsetof_user. lia.
    - rewrite Hz, Hf, Hb. unfold offsetof_user. lia.
    - rewrite Hz, Hf. unfold b. simpl. lia. }
  split; [done|].
  assert (meta_section o = Ok m ∧ data_section o = Ok d) as [Mo Do].
  { unfold meta_section, data_section, o. cbn [alloc user]. rewrite <-app_assoc. split.
    - by apply (read_middle' _ [] m (d ++ fr)).
    - by apply (read_middle' _ m d fr). }
  unfold DeepCompare. rewrite Mo, Ms, Do, Ds. unfold o, b. cbn [alloc mbind outcome_bind]. simpl.
  rewrite !Z.eqb_refl. simpl. by rewrite !bool_decide_eq_true_2.
Qed.

Lemma deepcopy_witness :
  ∃ o, deepcopy [] (Some sample_ldo) = Ok o ∧ ldo_ok o ∧ DeepCompare false (Some o) (Some sample_ldo) = Ok 0%Z.
Proof. apply (deepcopy_equal [] sample_ldo); [exact sample_ldo_ok|vm_compute; done]. Defined.

(** Wiping the data leaves zeros there and the meta section as it was. *)
Lemma WipeData_spec o m :
  ldo_ok o → meta_section o = Ok m →
  ∃ o', WipeData o = Ok o' ∧ alloc o' = alloc o ∧ meta_section o' = Ok m ∧
        data_section o' = Ok (replicate (Z.to_nat (data_bytes (alloc o))) "000"%char).
Proof.
  intros Hok Hm. destruct (sections_ok o Hok) as (m' & d & rest & Hu & Hlm & Hld & Hm' & _).
  assert (m' = m) as -> by congruence.
  assert (length (replicate (Z.to_nat (data_bytes (alloc o))) "000"%char) = length d) as Hz.
  { rewrite length_replicate. unfold zlen in Hld. lia. }
  unfold WipeData, wipe. rewrite Hu, <-Hlm, write_middle by done. cbn [mbind outcome_bind].
  eexists. split; [done|]. split; [done|]. unfold meta_section, data_section. cbn [alloc user]. split.
  - by apply (read_middle' _ [] m (replicate (Z.to_nat (data_bytes (alloc o))) "000"%char ++ rest)).
  - apply (read_middle' _ m _ rest); [done|done|]. unfold zlen. rewrite Hz. by unfold zlen in Hld.
Qed.
