(* ===== verification/DataPackers.v ===== *)
(** Packing many values into one data object (src/src/lunasa/common): [DataObjectPacker], the
    random-access and sequential bundles, and the registry of object types.

    A packer works on the bytes of an object ([LdoBytes]); a pointer into the object is its offset
    in the user section.  The index of a packer is a [std::multimap]: a list sorted by key, equal
    keys in the order of insertion.  A null data pointer is [None]. *)
From S2P Require Import Prelude StringHelpers DataObject LdoBytes.

Definition ENOENT : Z := 2.

(** * Compile-time hashes (StringHelpers.hh) *)

Fixpoint const_hash32 (input : str) : Z :=
  match input with
  | [] => 5381
  | c :: input' => if c =c? nul then 5381 else u32 (u32 (schar c) + 33 * const_hash32 input')
  end.

Definition const_hash16 (input : str) : Z :=
  u16 (Z.lxor (Z.shiftr (const_hash32 input) 16) (Z.land (const_hash32 input) 65535)).

(** * DataObjectPacker *)

Definition object_type_id : Z := const_hash16 (lit "DataObjectPacker").

Definition sizeof_dop_meta : Z := 12.
Definition sizeof_v1 : Z := 8.
Definition sizeof_v2 : Z := 12.

Record packer := mkPacker {
  finalized : bool;
  version : Z;
  ldo : ldo_obj;
  index : list (Z * Z)
}.

(** One variable: its name, its type, the bytes to copy (or none), and their number. *)
Record variable := mkVar { v_name : str; v_type : Z; v_ptr : option str; v_bytes : Z }.

Definition valid_version (v : Z) : bool := ((1 <=? v) && (v <=? 2))%Z.

Definition getEntryOverhead (version : Z) : outcome Z :=
  if (version =? 1)%Z then Ok sizeof_v1
  else if (version =? 2)%Z then Ok sizeof_v2 else Throw RuntimeError.

(** [std::min(name.size(), size_t(255))] *)
Definition name_length (name : str) : Z := Z.min (zlen name) 255.

Definition ComputeEntrySize (dop_format_version : Z) (name : str) (data_bytes : Z) : outcome Z :=
  if (dop_format_version =? 1)%Z then Ok (sizeof_v1 + name_length name + u32 data_bytes)%Z
  else if (dop_format_version =? 2)%Z then Ok (sizeof_v2 + u32 data_bytes)%Z
  else Throw RuntimeError.

(** [memcpy(p, data_ptr, n)] if there is a pointer. *)
Definition copy_in (u : str) (p : Z) (ptr : option str) (n : Z) : outcome str :=
  match ptr with
  | None => Ok u
  | Some src => bs ← mem_read src 0 n; mem_write u p bs
  end.

(** [writeEntry] at offset [p] of the user section: the section and the size of the entry. *)
Definition writeEntry (version : Z) (u : str) (p : Z) (v : variable) : outcome (str * Z) :=
  let data_bytes := u32 (v_bytes v) in
  if (version =? 1)%Z then
    let nl := name_length (v_name v) in
    u ← mem_write u p (le 1 nl ++ le 1 (v_type v) ++ le 2 (hash16 (v_name v)) ++ le 4 data_bytes
                       ++ take (Z.to_nat nl) (v_name v));
    u ← copy_in u (p + sizeof_v1 + nl) (v_ptr v) data_bytes;
    Ok (u, sizeof_v1 + nl + data_bytes)%Z
  else if (version =? 2)%Z then
    u ← mem_write u p (le 4 (hash32 (v_name v)) ++ le 4 data_bytes ++ le 1 (v_type v));
    u ← copy_in u (p + sizeof_v2) (v_ptr v) data_bytes;
    Ok (u, sizeof_v2 + data_bytes)%Z
  else Throw RuntimeError.

Fixpoint write_entries (version : Z) (u : str) (p : Z) (vs : list variable) : outcome str :=
  match vs with
  | [] => Ok u
  | v :: vs' => '(u, size) ← writeEntry version u p v; write_entries version u (p + size) vs'
  end.

Fixpoint payload_size (version : Z) (vs : list variable) : outcome Z :=
  match vs with
  | [] => Ok 0%Z
  | v :: vs' =>
      n ← ComputeEntrySize version (v_name v) (v_bytes v);
      m ← payload_size version vs';
      Ok (n + m)%Z
  end.

(** The fields of [dop_meta_t], at the start of the user section. *)
Definition write_meta (u : str) (num_vars data_type_hash packing_version : Z) : outcome str :=
  mem_write u 0 (le 4 num_vars ++ le 4 data_type_hash ++ le 1 packing_version).

Definition get_num_vars (o : ldo_obj) : outcome Z := bs ← mem_read (user o) 0 4; Ok (unle bs).
Definition get_data_type_hash (o : ldo_obj) : outcome Z := bs ← mem_read (user o) 4 4; Ok (unle bs).
Definition get_packing_version (o : ldo_obj) : outcome Z := bs ← mem_read (user o) 8 1; Ok (unle bs).

(** The constructor from vectors of the same length, given here as one list; [using_null_ptrs]
    (an empty vector of pointers) is a list of variables without pointers. *)
Definition new_packer (garbage : str) (vs : list variable) (data_type_hash dop_format_version : Z)
    : outcome packer :=
  if negb (valid_version dop_format_version) then Throw RuntimeError
  else
    n ← payload_size dop_format_version vs;
    o ← new_ldo garbage (u32 (sizeof_dop_meta + u32 n)) sizeof_dop_meta (u32 n) object_type_id;
    u ← write_meta (user o) (u32 (Z.of_nat (length vs))) data_type_hash dop_format_version;
    u ← write_entries dop_format_version u sizeof_dop_meta vs;
    Ok (mkPacker true dop_format_version (mkLdo (alloc o) u) []).

(** The constructor with a capacity. *)
Definition new_packer_capacity (garbage : str) (max_data_capacity data_type_hash dop_format_version : Z)
    : outcome packer :=
  if negb (valid_version dop_format_version) then Throw RuntimeError
  else
    o ← new_ldo garbage (u32 (sizeof_dop_meta + max_data_capacity)) sizeof_dop_meta 0 object_type_id;
    u ← write_meta (user o) 0 data_type_hash dop_format_version;
    Ok (mkPacker false dop_format_version (mkLdo (alloc o) u) []).

(** The constructor from an object that arrived. *)
Definition open_packer (o : ldo_obj) : outcome packer :=
  if negb (type_id (alloc o) =? object_type_id)%Z then Throw RuntimeError
  else
    version ← get_packing_version o;
    if negb (valid_version version) then Throw RuntimeError else Ok (mkPacker true version o []).

Definition VerifyDataType (p : packer) (expected_data_type_hash : Z) : outcome bool :=
  h ← get_data_type_hash (ldo p); Ok (expected_data_type_hash =? h)%Z.

Definition RemainingCapacity (p : packer) : outcome Z :=
  if finalized p then Ok 0%Z
  else
    let a := alloc (ldo p) in
    let dspace_left := u32 (alloc_GetUserCapacity a - u32 (meta_bytes a + data_bytes a)) in
    overhead ← getEntryOverhead (version p);
    Ok (if (dspace_left <? overhead)%Z then 0%Z else dspace_left).

Definition AppendVariable (p : packer) (v : variable) : outcome (Z * packer) :=
  if finalized p then Ok ((-1)%Z, p)
  else
    entry_size ← ComputeEntrySize (version p) (v_name v) (v_bytes v);
    let offset := data_bytes (alloc (ldo p)) in
    match ModifyUserSizes (Some (alloc (ldo p))) sizeof_dop_meta (u32 (offset + entry_size)) with
    | (0%Z, Some a) =>
        '(u, _) ← writeEntry (version p) (user (ldo p)) (meta_bytes a + offset) v;
        n ← get_num_vars (mkLdo a u);
        u ← mem_write u 0 (le 4 (u32 (n + 1)));
        Ok (0%Z, mkPacker false (version p) (mkLdo a u) (index p))
    | _ => Ok ((-1)%Z, p)
    end.

(** [index.insert]: after the keys that are not greater. *)
Fixpoint mm_insert (k x : Z) (l : list (Z * Z)) : list (Z * Z) :=
  match l with
  | [] => [(k, x)]
  | (k', x') :: l' => if (k' <=? k)%Z then (k', x') :: mm_insert k x l' else (k, x) :: l
  end.

Definition equal_range (k : Z) (l : list (Z * Z)) : list Z :=
  (filter (λ kx, kx.1 = k) l).*2.

(** The fields of an entry at offset [p] of the user section. *)
Definition read_field (o : ldo_obj) (p off len : Z) : outcome Z :=
  bs ← mem_read (user o) (p + off) len; Ok (unle bs).

Definition entry_hash (version : Z) (o : ldo_obj) (p : Z) : outcome Z :=
  if (version =? 1)%Z then read_field o p 2 2 else read_field o p 0 4.
Definition entry_data_length (o : ldo_obj) (p : Z) : outcome Z := read_field o p 4 4.
Definition entry_type (version : Z) (o : ldo_obj) (p : Z) : outcome Z :=
  if (version =? 1)%Z then read_field o p 1 1 else read_field o p 8 1.
(** [GetName] and its length, for version 1. *)
Definition entry_name (o : ldo_obj) (p : Z) : outcome str :=
  nl ← read_field o p 0 1; mem_read (user o) (p + sizeof_v1) nl.
(** [GetDataPtr] *)
Definition entry_data (version : Z) (o : ldo_obj) (p : Z) : outcome Z :=
  if (version =? 1)%Z then nl ← read_field o p 0 1; Ok (p + sizeof_v1 + nl)%Z
  else Ok (p + sizeof_v2)%Z.
(** [GetTotalSize] *)
Definition entry_total (version : Z) (o : ldo_obj) (p : Z) : outcome Z :=
  len ← entry_data_length o p;
  if (version =? 1)%Z then nl ← read_field o p 0 1; Ok (sizeof_v1 + nl + len)%Z
  else Ok (sizeof_v2 + len)%Z.

Definition MatchesName (o : ldo_obj) (p : Z) (name : str) : outcome bool :=
  my_name ← entry_name o p;
  Ok ((my_name =s? name) || ((zlen my_name =? 255)%Z && StringBeginsWith name my_name)).

(** The loop of [rebuildIndexIfNeeded].  The bounds check compares [offset], which the loop never
    changes from zero. *)
Fixpoint index_loop (n : nat) (version : Z) (o : ldo_obj) (max_offset offset payload : Z)
    (idx : list (Z * Z)) : outcome (list (Z * Z)) :=
  match n with
  | O => Ok idx
  | S n =>
      if (max_offset <? offset)%Z then Throw RuntimeError
      else
        h ← entry_hash version o payload;
        size ← entry_total version o payload;
        index_loop n version o max_offset offset (payload + size) (mm_insert h payload idx)
  end.

Definition rebuildIndexIfNeeded (p : packer) : outcome packer :=
  n ← get_num_vars (ldo p);
  if (Z.of_nat (length (index p)) =? n)%Z then Ok p
  else
    let a := alloc (ldo p) in
    let max_offset := u32 (data_bytes a - (if (version p =? 1)%Z then sizeof_v1 else sizeof_v2)) in
    idx ← index_loop (Z.to_nat n) (version p) (ldo p) max_offset 0 (meta_bytes a) [];
    Ok (mkPacker (finalized p) (version p) (ldo p) idx).

(** The loop over [equal_range]: the first entry with the name (or, in version 2, the hash). *)
Fixpoint find_entry (version : Z) (o : ldo_obj) (name : str) (hash : Z) (l : list Z)
    : outcome (option Z) :=
  match l with
  | [] => Ok None
  | q :: l' =>
      b ← (if (version =? 1)%Z then MatchesName o q name
           else h ← entry_hash version o q; Ok (h =? hash)%Z);
      if (b : bool) then Ok (Some q) else find_entry version o name hash l'
  end.

(** The pointer, number of bytes and type of an entry, or the values that are stored when there
    is none. *)
Definition var_result (version : Z) (o : ldo_obj) (q : option Z) : outcome (Z * option Z * Z * Z) :=
  match q with
  | None => Ok (ENOENT, None, 0, 0)%Z
  | Some q =>
      d ← entry_data version o q; n ← entry_data_length o q; t ← entry_type version o q;
      Ok (0%Z, Some d, n, t)
  end.

Definition GetVarPointer (p : packer) (name : str) : outcome (Z * option Z * Z * Z * packer) :=
  let hash := if (version p =? 1)%Z then hash16 name else hash32 name in
  p ← rebuildIndexIfNeeded p;
  q ← find_entry (version p) (ldo p) name hash (equal_range hash (index p));
  r ← var_result (version p) (ldo p) q;
  Ok (r, p).

(** By hash; no result is stored for a format without 32-bit hashes. *)
Definition GetVarPointer_hash (p : packer) (hash : Z)
    : outcome (option (Z * option Z * Z * Z * packer)) :=
  if negb (version p =? 2)%Z then Ok None
  else
    p ← rebuildIndexIfNeeded p;
    q ← find_entry 2 (ldo p) [] hash (equal_range hash (index p));
    r ← var_result 2 (ldo p) q;
    Ok (Some (r, p)).

Fixpoint read_names (o : ldo_obj) (l : list Z) : outcome (list str) :=
  match l with
  | [] => Ok []
  | q :: l' => n ← entry_name o q; ns ← read_names o l'; Ok (n :: ns)
  end.

Definition GetVarNames (p : packer) : outcome (Z * list str * packer) :=
  if negb (version p =? 1)%Z then Ok (EINVAL, [], p)
  else
    p ← rebuildIndexIfNeeded p;
    ns ← read_names (ldo p) (index p).*2;
    Ok (0%Z, ns, p).

(** * Bundles

    [lens] and [packed_data] of the random bundle are the arrays of the structure, the first of
    [MaxItems] lengths; an access past their end is [Undefined].  The offsets of a user are
    [bundle_offsets_t]. *)

Record bundle_offsets := mkOffsets {
  max_payload_bytes : Z;
  current_byte_offset : Z;
  current_id : Z
}.

Module RandomBundle.
Record bundle := mkBundle { num_items : Z; lens : list Z; packed_data : str }.

Definition Init (b : bundle) : bundle := mkBundle 0 (lens b) (packed_data b).
Definition GetMaxItems (b : bundle) : Z := Z.of_nat (length (lens b)).

(** [new_data] is the memory of the caller, [len] the length given (a [uint16_t]). *)
Definition AppendBack (b : bundle) (o : bundle_offsets) (new_data : str) (len : Z)
    : outcome (bool * bundle * bundle_offsets) :=
  let len := u16 len in
  let off := current_byte_offset o in
  let refuse := Ok (false, b, mkOffsets (max_payload_bytes o) off (num_items b)) in
  if (GetMaxItems b <? num_items b + 1)%Z then refuse
  else if (max_payload_bytes o <? u32 (off + len))%Z then refuse
  else
    packed ← (if (0 <? len)%Z then bs ← mem_read new_data 0 len; mem_write (packed_data b) off bs
              else Ok (packed_data b));
    let n := u16 (num_items b + 1) in
    Ok (true, mkBundle n (<[Z.to_nat (num_items b) := len]> (lens b)) packed,
        mkOffsets (max_payload_bytes o) (u32 (off + len)) n).

(** [AppendBack] of a string: its size goes through a [uint16_t]. *)
Definition AppendBack_string (b : bundle) (o : bundle_offsets) (s : str)
    : outcome (bool * bundle * bundle_offsets) := AppendBack b o s (zlen s).

Definition GetNext (b : bundle) (o : bundle_offsets) : outcome (option str * bundle_offsets) :=
  if (num_items b <=? current_id o)%Z then Ok (None, o)
  else
    match lens b !! Z.to_nat (current_id o) with
    | None => Throw Undefined
    | Some len =>
        let off := current_byte_offset o in
        if (max_payload_bytes o <? u32 (off + len))%Z then Ok (None, o)
        else
          bs ← mem_read (packed_data b) off len;
          Ok (Some bs, mkOffsets (max_payload_bytes o) (u32 (off + len)) (u32 (current_id o + 1)))
    end.
End RandomBundle.

Module SequentialBundle.
Record bundle := mkBundle { num_items : Z; packed_data : str }.

Definition Init (b : bundle) : bundle := mkBundle 0 (packed_data b).

(** The sizes are compared at 64 bits, after a sum of two [uint32_t] at 32. *)
Definition AppendBack (b : bundle) (o : bundle_offsets) (new_data : str) (len : Z)
    : outcome (bool * bundle * bundle_offsets) :=
  let len := u32 len in
  let off := current_byte_offset o in
  if (max_payload_bytes o <? u32 (off + len) + 4)%Z
  then Ok (false, b, mkOffsets (max_payload_bytes o) off (num_items b))
  else
    packed ← mem_write (packed_data b) off (le 4 len);
    let off := u32 (off + 4) in
    packed ← (if (0 <? len)%Z then bs ← mem_read new_data 0 len; mem_write packed off bs
              else Ok packed);
    let n := u32 (num_items b + 1) in
    Ok (true, mkBundle n packed, mkOffsets (max_payload_bytes o) (u32 (off + len)) n).

Definition GetNext (b : bundle) (o : bundle_offsets) : outcome (option str * bundle_offsets) :=
  let off := current_byte_offset o in
  if (num_items b <=? current_id o)%Z then Ok (None, o)
  else if (max_payload_bytes o <? off + 4)%Z then Ok (None, o)
  else
    bs ← mem_read (packed_data b) off 4;
    let len := unle bs in
    if (max_payload_bytes o <? off + 4 + len)%Z then Ok (None, o)
    else
      item ← mem_read (packed_data b) (off + 4) len;
      Ok (Some item, mkOffsets (max_payload_bytes o) (u32 (off + 4 + len)) (u32 (current_id o + 1))).
End SequentialBundle.

(** * DataObjectTypeRegistry

    The dump functions are opaque values of type [D]. *)
Module TypeRegistry.
Section registry.
Context {D : Type}.

Record registry := mkReg { ldo_names : gmap Z str; ldo_dump_functions : gmap Z D }.

Definition RegisterDataObjectType (r : registry) (type_id : Z) (name : str) (dump_func : D)
    : outcome registry :=
  let add := mkReg (<[type_id := name]> (ldo_names r)) (<[type_id := dump_func]> (ldo_dump_functions r)) in
  match ldo_names r !! type_id with
  | Some known => if known =s? name then Throw RuntimeError else Ok add
  | None => Ok add
  end.

Definition DeregisterDataObjectType (r : registry) (type_id : Z) : registry :=
  mkReg (delete type_id (ldo_names r)) (delete type_id (ldo_dump_functions r)).

(** [DumpDataObject]: the function that is called, and whether it was registered. *)
Definition DumpDataObject (r : registry) (hexdump : D) (type_id : Z) : D * bool :=
  match ldo_dump_functions r !! type_id with
  | None => (hexdump, false)
  | Some f => (f, true)
  end.
End registry.
Arguments registry D : clear implicits.
End TypeRegistry.

(** * Entries *)

(** A variable whose bytes are given, and fit the fields of an entry. *)
Definition var_ok (v : variable) (d : str) : Prop :=
  v_ptr v = Some d ∧ zlen d = v_bytes v ∧ (v_bytes v < 2 ^ 32)%Z ∧ (0 ≤ v_type v < 256)%Z.

Definition esize (ver : Z) (v : variable) : Z :=
  if (ver =? 1)%Z then (sizeof_v1 + name_length (v_name v) + v_bytes v)%Z
  else (sizeof_v2 + v_bytes v)%Z.

Definition vhash (ver : Z) (name : str) : Z := if (ver =? 1)%Z then hash16 name else hash32 name.

(** The bytes of an entry; the padding of version 2 is whatever was there. *)
Definition is_entry (ver : Z) (v : variable) (d bs : str) : Prop :=
  if (ver =? 1)%Z then
    bs = le 1 (name_length (v_name v)) ++ le 1 (v_type v) ++ le 2 (hash16 (v_name v))
         ++ le 4 (v_bytes v) ++ take (Z.to_nat (name_length (v_name v))) (v_name v) ++ d
  else
    ∃ pad, zlen pad = 3%Z ∧
      bs = le 4 (hash32 (v_name v)) ++ le 4 (v_bytes v) ++ le 1 (v_type v) ++ pad ++ d.

Lemma hash32_range s : (0 ≤ hash32 s < 2 ^ 32)%Z.
Proof. unfold hash32, hash_dbj2. apply wrap_in_width. lia. Qed.
Lemma hash16_range s : (0 ≤ hash16 s < 2 ^ 16)%Z.
Proof. unfold hash16. apply wrap_in_width. lia. Qed.

Lemma name_length_range n : (0 ≤ name_length n ≤ 255)%Z.
Proof. unfold name_length. pose proof (zlen_nonneg n). lia. Qed.

Lemma zlen_name n : zlen (take (Z.to_nat (name_length n)) n) = name_length n.
Proof. apply zlen_take. pose proof (name_length_range n). unfold name_length in *. lia. Qed.

Lemma var_ok_bytes v d : var_ok v d → (0 ≤ v_bytes v < 2 ^ 32)%Z.
Proof. intros (_ & <- & ? & _). pose proof (zlen_nonneg d). lia. Qed.

Lemma is_entry_zlen ver v d bs : var_ok v d → is_entry ver v d bs → zlen bs = esize ver v.
Proof.
  intros (_ & Hd & _) H. unfold is_entry, esize, sizeof_v1, sizeof_v2 in *. destruct (ver =? 1)%Z.
  - subst bs. rewrite !zlen_app, !zlen_le, zlen_name, Hd. lia.
  - destruct H as (pad & Hp & ->). rewrite !zlen_app, !zlen_le, Hp, Hd. lia.
Qed.

Lemma ComputeEntrySize_ok ver v d :
  valid_version ver = true → var_ok v d →
  ComputeEntrySize ver (v_name v) (v_bytes v) = Ok (esize ver v).
Proof.
  intros Hv Hok%var_ok_bytes. unfold ComputeEntrySize, esize, valid_version in *.
  rewrite wrap_id by (unfold in_width; lia).
  destruct (Z.eqb_spec ver 1); [done|]. by replace (ver =? 2)%Z with true by lia.
Qed.

(** Split a piece of memory at a length. *)
Lemma zsplit (b : str) n : (0 ≤ n ≤ zlen b)%Z → ∃ b1 b2, b = b1 ++ b2 ∧ zlen b1 = n.
Proof.
  intros H. exists (take (Z.to_nat n) b), (drop (Z.to_nat n) b). rewrite take_drop.
  split; [done|by apply zlen_take].
Qed.

Lemma zlen_length (a b : str) : zlen a = zlen b → length a = length b.
Proof. unfold zlen. lia. Qed.

Lemma copy_in_ok a b c d n p :
  zlen d = n → zlen b = n → p = zlen a → copy_in (a ++ b ++ c) p (Some d) n = Ok (a ++ d ++ c).
Proof.
  intros <- Hb ->. unfold copy_in. rewrite (read_middle' d [] d []); [|by rewrite app_nil_r|done|done].
  cbn [mbind outcome_bind]. apply write_middle. by apply zlen_length.
Qed.

Lemma writeEntry_ok ver v d a b c :
  valid_version ver = true → var_ok v d → zlen b = esize ver v →
  ∃ b', writeEntry ver (a ++ b ++ c) (zlen a) v = Ok (a ++ b' ++ c, esize ver v) ∧
        is_entry ver v d b' ∧ zlen b' = zlen b.
Proof.
  intros Hv Hok Hb. pose proof (var_ok_bytes v d Hok) as Hbytes.
  pose proof (name_length_range (v_name v)) as Hnl. destruct Hok as (Hptr & Hd & Hlt & Hty).
  unfold writeEntry, esize, is_entry, sizeof_v1, sizeof_v2 in *. rewrite wrap_id by done.
  destruct (Z.eqb_spec ver 1) as [->|Hne].
  - set (h := le 1 _ ++ le 1 _ ++ le 2 _ ++ le 4 _ ++ take _ _).
    assert (zlen h = 8 + name_length (v_name v))%Z as Hh.
    { unfold h. rewrite !zlen_app, !zlen_le, zlen_name. lia. }
    destruct (zsplit b (8 + name_length (v_name v))) as (b1 & b2 & -> & Hb1); [lia|].
    rewrite zlen_app in Hb. rewrite <-(app_assoc b1).
    rewrite (write_middle a b1 (b2 ++ c)) by (apply zlen_length; lia).
    cbn [mbind outcome_bind]. rewrite Hptr, (app_assoc a h).
    rewrite (copy_in_ok (a ++ h) b2 c d) by (try rewrite zlen_app; lia). cbn [mbind outcome_bind].
    exists (h ++ d). split_and!.
    + by rewrite <-!app_assoc.
    + unfold h. by rewrite <-!app_assoc.
    + rewrite !zlen_app. lia.
  - unfold valid_version in Hv. replace (ver =? 2)%Z with true by lia.
    set (h := le 4 _ ++ le 4 _ ++ le 1 _).
    assert (zlen h = 9)%Z as Hh by (unfold h; rewrite !zlen_app, !zlen_le; lia).
    destruct (zsplit b 9) as (b1 & b2 & -> & Hb1); [lia|]. rewrite zlen_app in Hb.
    destruct (zsplit b2 3) as (pad & b3 & -> & Hpad); [lia|]. rewrite zlen_app in Hb.
    rewrite <-(app_assoc b1), (write_middle a b1 ((pad ++ b3) ++ c)) by (apply zlen_length; lia).
    cbn [mbind outcome_bind]. rewrite Hptr.
    replace (a ++ h ++ (pad ++ b3) ++ c) with ((a ++ h ++ pad) ++ b3 ++ c) by (by rewrite <-!app_assoc).
    rewrite (copy_in_ok (a ++ h ++ pad) b3 c d) by (try rewrite !zlen_app; lia).
    cbn [mbind outcome_bind]. exists (h ++ pad ++ d). split_and!.
    + by rewrite <-!app_assoc.
    + exists pad. split; [done|]. unfold h. by rewrite <-!app_assoc.
    + rewrite !zlen_app. lia.
Qed.

(** The bytes of several entries, one after the other. *)
Inductive packed (ver : Z) : list (variable * str) → list str → Prop :=
| packed_nil : packed ver [] []
| packed_cons v d e vs es :
    var_ok v d → is_entry ver v d e → packed ver vs es → packed ver ((v, d) :: vs) (e :: es).

Definition total_size (ver : Z) (vs : list (variable * str)) : Z :=
  foldr (λ vd n, esize ver vd.1 + n)%Z 0%Z vs.

Definition vars_ok (vs : list (variable * str)) : Prop := Forall (λ vd, var_ok vd.1 vd.2) vs.

Lemma esize_nonneg ver v d : var_ok v d → (8 ≤ esize ver v)%Z.
Proof.
  intros Hok%var_ok_bytes. pose proof (name_length_range (v_name v)).
  unfold esize, sizeof_v1, sizeof_v2. destruct (ver =? 1)%Z; lia.
Qed.

Lemma total_size_nonneg ver vs : vars_ok vs → (8 * Z.of_nat (length vs) ≤ total_size ver vs)%Z.
Proof.
  induction 1 as [|[v d] vs H _ IH]; [simpl; lia|]. apply (esize_nonneg ver) in H. simpl in *. lia.
Qed.

Lemma payload_size_ok ver vs :
  valid_version ver = true → vars_ok vs → payload_size ver vs.*1 = Ok (total_size ver vs).
Proof.
  intros Hv. induction 1 as [|[v d] vs H _ IH]; [done|].
  change ((v, d) :: vs).*1 with (v :: vs.*1). cbn [payload_size].
  erewrite ComputeEntrySize_ok by done. cbn [mbind outcome_bind]. rewrite IH. done.
Qed.

Lemma write_entries_ok ver vs a b c :
  valid_version ver = true → vars_ok vs → zlen b = total_size ver vs →
  ∃ es, write_entries ver (a ++ b ++ c) (zlen a) vs.*1 = Ok (a ++ concat es ++ c) ∧
        packed ver vs es ∧ zlen (concat es) = zlen b.
Proof.
  intros Hv Hvs. revert a b. induction Hvs as [|[v d] vs Hok Hvs IH]; intros a b Hb.
  - exists []. simpl in Hb. destruct b; [|unfold zlen in Hb; simpl in Hb; lia].
    split_and!; [done|constructor|done].
  - simpl in Hok. pose proof (esize_nonneg ver v d Hok). pose proof (total_size_nonneg ver vs Hvs).
    simpl in Hb. destruct (zsplit b (esize ver v)) as (b1 & b2 & -> & Hb1); [lia|].
    rewrite zlen_app in Hb. rewrite <-(app_assoc b1).
    destruct (writeEntry_ok ver v d a b1 (b2 ++ c) Hv Hok Hb1) as (e & He & Hie & Hze).
    cbn [fmap list_fmap write_entries fst]. rewrite He. cbn [mbind outcome_bind].
    destruct (IH (a ++ e) b2 ltac:(lia)) as (es & Hes & Hp & Hz).
    rewrite zlen_app, <-!app_assoc in Hes. rewrite <-Hb1, <-Hze, Hes.
    exists (e :: es). simpl. rewrite <-!app_assoc. split_and!; [done|by constructor|].
    rewrite !zlen_app. lia.
Qed.

(** * Reading entries *)

Lemma read_field_at o p off len k a x y z val :
  user o = a ++ x ++ y ++ z → p = zlen a → off = zlen x → y = le k val → len = Z.of_nat k →
  (0 ≤ val < 256 ^ Z.of_nat k)%Z → read_field o p off len = Ok val.
Proof.
  intros Hu -> -> -> -> Hval. unfold read_field.
  rewrite (read_middle' (user o) (a ++ x) (le k val) z).
  - simpl. by rewrite unle_le.
  - by rewrite Hu, <-!app_assoc.
  - by rewrite zlen_app.
  - by rewrite zlen_le.
Qed.

(** What the accessors find in an entry [e] at offset [q]. *)
Record entry_at (ver : Z) (o : ldo_obj) (q : Z) (v : variable) (d : str) : Prop := {
  at_hash : entry_hash ver o q = Ok (vhash ver (v_name v));
  at_total : entry_total ver o q = Ok (esize ver v);
  at_length : entry_data_length o q = Ok (v_bytes v);
  at_type : entry_type ver o q = Ok (v_type v);
  at_name : ver = 1%Z → entry_name o q = Ok (take (Z.to_nat (name_length (v_name v))) (v_name v));
  at_data : ∃ p, entry_data ver o q = Ok p ∧ mem_read (user o) p (v_bytes v) = Ok d
}.

Lemma entry_at_ok ver o v d e a c :
  valid_version ver = true → var_ok v d → is_entry ver v d e → user o = a ++ e ++ c →
  entry_at ver o (zlen a) v d.
Proof.
  intros Hv Hok He Hu. pose proof (var_ok_bytes v d Hok) as Hb. destruct Hok as (_ & Hd & _ & Ht).
  pose proof (hash16_range (v_name v)) as H16. pose proof (hash32_range (v_name v)) as H32.
  pose proof (name_length_range (v_name v)) as Hnl. pose proof (zlen_name (v_name v)) as Hzn.
  unfold is_entry in He. destruct (Z.eqb_spec ver 1) as [->|Hne].
  - subst e. set (n := take _ _) in *. rewrite <-!app_assoc in Hu.
    assert (read_field o (zlen a) 0 1 = Ok (name_length (v_name v))) as R0.
    { eapply (read_field_at _ _ _ _ 1 a []); [exact Hu|done..|simpl; lia]. }
    assert (read_field o (zlen a) 4 4 = Ok (v_bytes v)) as R4.
    { eapply (read_field_at _ _ _ _ 4 a (le 1 _ ++ le 1 _ ++ le 2 _)); [|done| |done|done|simpl; lia].
      - rewrite Hu, <-!app_assoc. done.
      - rewrite !zlen_app, !zlen_le. lia. }
    constructor.
    + unfold entry_hash, vhash. simpl.
      eapply (read_field_at _ _ _ _ 2 a (le 1 _ ++ le 1 _)); [|done| |done|done|simpl; lia].
      * rewrite Hu, <-!app_assoc. done.
      * rewrite !zlen_app, !zlen_le. lia.
    + unfold entry_total, entry_data_length. rewrite R4. simpl. rewrite R0. simpl. done.
    + exact R4.
    + unfold entry_type. simpl.
      eapply (read_field_at _ _ _ _ 1 a (le 1 _)); [exact Hu|done| |done|done|simpl; lia].
      by rewrite zlen_le.
    + intros _. unfold entry_name. rewrite R0. cbn [mbind outcome_bind].
      apply (read_middle' _ (a ++ le 1 (name_length (v_name v)) ++ le 1 (v_type v)
               ++ le 2 (hash16 (v_name v)) ++ le 4 (v_bytes v)) n (d ++ c)); [|unfold sizeof_v1|done].
      * by rewrite Hu, <-!app_assoc.
      * rewrite !zlen_app, !zlen_le. lia.
    + unfold entry_data. simpl. rewrite R0. simpl. eexists. split; [done|].
      apply (read_middle' _ (a ++ le 1 (name_length (v_name v)) ++ le 1 (v_type v)
               ++ le 2 (hash16 (v_name v)) ++ le 4 (v_bytes v) ++ n) d c); [|unfold sizeof_v1|done].
      * by rewrite Hu, <-!app_assoc.
      * rewrite !zlen_app, !zlen_le. lia.
  - destruct He as (pad & Hpad & ->). rewrite <-!app_assoc in Hu.
    assert (read_field o (zlen a) 4 4 = Ok (v_bytes v)) as R4.
    { eapply (read_field_at _ _ _ _ 4 a (le 4 _)); [exact Hu|done| |done|done|simpl; lia].
      by rewrite zlen_le. }
    apply Z.eqb_neq in Hne. constructor.
    + unfold entry_hash, vhash. rewrite Hne.
      eapply (read_field_at _ _ _ _ 4 a []); [exact Hu|done..|simpl; lia].
    + unfold entry_total, entry_data_length, esize. rewrite R4. simpl. by rewrite Hne.
    + exact R4.
    + unfold entry_type. rewrite Hne.
      eapply (read_field_at _ _ _ _ 1 a (le 4 _ ++ le 4 _)); [|done| |done|done|simpl; lia].
      * rewrite Hu, <-!app_assoc. done.
      * rewrite !zlen_app, !zlen_le. lia.
    + intros ->. done.
    + unfold entry_data. rewrite Hne. eexists. split; [done|].
      apply (read_middle' _ (a ++ le 4 (hash32 (v_name v)) ++ le 4 (v_bytes v) ++ le 1 (v_type v) ++ pad)
               d c); [|unfold sizeof_v2|done].
      * by rewrite Hu, <-!app_assoc.
      * rewrite !zlen_app, !zlen_le. lia.
Qed.

(** * The index *)

(** The offsets of entries that start at [q]. *)
Fixpoint positions (ver q : Z) (vs : list (variable * str)) : list Z :=
  match vs with [] => [] | vd :: vs' => q :: positions ver (q + esize ver vd.1) vs' end.

Definition index_of (ver q : Z) (vs : list (variable * str)) (idx : list (Z * Z)) : list (Z * Z) :=
  fold_left (λ idx vq, mm_insert (vhash ver (v_name vq.1.1)) vq.2 idx)
    (zip vs (positions ver q vs)) idx.

Lemma length_mm_insert k x l : length (mm_insert k x l) = S (length l).
Proof. induction l as [|[k' x'] l IH]; simpl; [done|]. case_match; simpl; congruence. Qed.

Lemma packed_entries ver o vs es a c :
  valid_version ver = true → packed ver vs es → user o = a ++ concat es ++ c →
  Forall (λ vq, entry_at ver o vq.2 vq.1.1 vq.1.2) (zip vs (positions ver (zlen a) vs)).
Proof.
  intros Hv Hp. revert a. induction Hp as [|v d e vs es Hok He _ IH]; intros a Hu; simpl; [done|].
  simpl in Hu. rewrite <-app_assoc in Hu. constructor.
  - by apply (entry_at_ok ver o v d e a (concat es ++ c)).
  - rewrite <-(is_entry_zlen ver v d e) by done. rewrite <-zlen_app. apply IH.
    by rewrite Hu, <-!app_assoc.
Qed.

Lemma index_loop_ok ver o vs q idx max_offset :
  (0 ≤ max_offset)%Z →
  Forall (λ vq, entry_at ver o vq.2 vq.1.1 vq.1.2) (zip vs (positions ver q vs)) →
  index_loop (length vs) ver o max_offset 0 q idx = Ok (index_of ver q vs idx).
Proof.
  intros Hm. revert q idx. induction vs as [|[v d] vs IH]; intros q idx H; [done|].
  cbn [length index_loop]. replace (max_offset <? 0)%Z with false by lia.
  simpl in H. apply Forall_cons in H as [[Hh Ht _ _ _ _] H]. simpl in Hh, Ht.
  rewrite Hh. cbn [mbind outcome_bind]. rewrite Ht. cbn [mbind outcome_bind].
  rewrite IH by done. done.
Qed.

Definition mm_sorted (l : list (Z * Z)) : Prop := StronglySorted (λ x y, (x.1 ≤ y.1)%Z) l.

Lemma elem_of_mm_insert k x l y : y ∈ mm_insert k x l ↔ y = (k, x) ∨ y ∈ l.
Proof.
  induction l as [|[k' x'] l IH]; simpl; [set_solver|].
  case_match; rewrite !elem_of_cons, ?IH; tauto.
Qed.

Lemma mm_insert_sorted k x l : mm_sorted l → mm_sorted (mm_insert k x l).
Proof.
  induction 1 as [|[k' x'] l Hl IH Hk]; simpl; [repeat constructor|].
  destruct (Z.leb_spec k' k).
  - constructor; [done|]. apply Forall_forall. intros y [->|Hy]%elem_of_mm_insert; [simpl; lia|].
    rewrite Forall_forall in Hk. by apply Hk.
  - constructor; [by constructor|]. constructor; [simpl; lia|].
    eapply Forall_impl; [exact Hk|]. intros y Hy. simpl in *. lia.
Qed.

(** Equal keys stay in the order of insertion. *)
Lemma equal_range_insert k x l h :
  mm_sorted l →
  equal_range h (mm_insert k x l) = equal_range h l ++ (if decide (k = h) then [x] else []).
Proof.
  unfold equal_range. induction 1 as [|[k' x'] l Hl IH Hk]; simpl.
  - rewrite filter_cons, filter_nil. simpl. by case_decide.
  - destruct (Z.leb_spec k' k).
    + rewrite !filter_cons. cbn [fst]. destruct (decide (k' = h)).
      * rewrite !fmap_cons, IH. done.
      * exact IH.
    + rewrite (filter_cons _ (k, x)). simpl. case_decide as Hkh.
      * rewrite (filter_cons _ (k', x')). simpl. rewrite decide_False by lia.
        destruct (filter (λ kx : Z * Z, kx.1 = h) l) as [|y r] eqn:E; [done|].
        assert (y ∈ filter (λ kx : Z * Z, kx.1 = h) l) as Hy by (rewrite E; set_solver).
        apply list_elem_of_filter in Hy as [Hy Hin]. rewrite Forall_forall in Hk.
        specialize (Hk y Hin). simpl in *. lia.
      * by rewrite app_nil_r.
Qed.

Lemma index_of_spec ver q vs idx h :
  mm_sorted idx →
  mm_sorted (index_of ver q vs idx) ∧
  equal_range h (index_of ver q vs idx)
  = equal_range h idx ++ (filter (λ vq, vhash ver (v_name vq.1.1) = h) (zip vs (positions ver q vs))).*2.
Proof.
  unfold index_of. generalize (zip vs (positions ver q vs)) as l. intros l. revert idx.
  induction l as [|[[v d] p] l IH]; intros idx Hs; simpl.
  - by rewrite app_nil_r.
  - destruct (IH (mm_insert (vhash ver (v_name v)) p idx)) as [IH1 IH2]; [by apply mm_insert_sorted|].
    split; [done|]. rewrite IH2, equal_range_insert by done. rewrite filter_cons. simpl.
    case_decide; simpl; [by rewrite <-app_assoc|by rewrite app_nil_r].
Qed.

Lemma length_index_of ver q vs idx : length (index_of ver q vs idx) = length idx + length vs.
Proof.
  unfold index_of. assert (length (zip vs (positions ver q vs)) = length vs) as Hl.
  { revert q. induction vs as [|vd vs IH]; intros q; simpl; [done|]. by rewrite IH. }
  rewrite <-Hl. generalize (zip vs (positions ver q vs)) as l. intros l. revert idx.
  induction l as [|vq l IH]; intros idx; simpl; [lia|]. rewrite IH, length_mm_insert. lia.
Qed.

(** * Packed objects *)

(** Object [o] holds the variables [vs] in format [ver], under the tag [dth]. *)
Record holds (ver dth : Z) (vs : list (variable * str)) (o : ldo_obj) : Prop := {
  h_version : valid_version ver = true;
  h_count : (Z.of_nat (length vs) < 2 ^ 32)%Z;
  h_dth : (0 ≤ dth < 2 ^ 32)%Z;
  h_type : type_id (alloc o) = object_type_id;
  h_meta : meta_bytes (alloc o) = sizeof_dop_meta;
  h_data : data_bytes (alloc o) = total_size ver vs;
  h_bytes : ∃ pad es rest, zlen pad = 3%Z ∧ packed ver vs es ∧
    user o = (le 4 (Z.of_nat (length vs)) ++ le 4 dth ++ le 1 ver ++ pad) ++ concat es ++ rest
}.

(** Variables that a lookup can tell apart. *)
Definition distinct (ver : Z) (vs : list (variable * str)) : Prop :=
  if (ver =? 1)%Z
  then Forall (λ vd, zlen (v_name vd.1) < 255)%Z vs ∧ NoDup ((λ vd, v_name vd.1) <$> vs)
  else NoDup ((λ vd, hash32 (v_name vd.1)) <$> vs).

Lemma NoDup_fmap_eq {A B} (f : A → B) l x y :
  NoDup (f <$> l) → x ∈ l → y ∈ l → f x = f y → x = y.
Proof.
  induction l as [|z l IH]; simpl; [set_solver|]. rewrite NoDup_cons. intros [Hz Hl] Hx Hy Hf.
  apply elem_of_cons in Hx, Hy. destruct Hx as [->|Hx], Hy as [->|Hy]; [done| | |by apply IH].
  - destruct Hz. apply list_elem_of_fmap. by exists y.
  - destruct Hz. apply list_elem_of_fmap. by exists x.
Qed.

(** The test of [find_entry] on an entry. *)
Definition entry_matches (ver : Z) (name : str) (v : variable) : bool :=
  if (ver =? 1)%Z then v_name v =s? name else true.

Lemma find_entry_ok ver o name l v d q :
  Forall (λ vq, entry_at ver o vq.2 vq.1.1 vq.1.2 ∧ vhash ver (v_name vq.1.1) = vhash ver name ∧
                (ver = 1 → zlen (v_name vq.1.1) < 255)%Z) l →
  ((v, d), q) ∈ l → entry_matches ver name v = true →
  (∀ v' d' q', ((v', d'), q') ∈ l → entry_matches ver name v' = true → q' = q) →
  find_entry ver o name (vhash ver name) l.*2 = Ok (Some q).
Proof.
  intros Hall Hin Hm Hu. induction l as [|[[v' d'] q'] l IH]; [set_solver|].
  apply Forall_cons in Hall as [(He & Hh & Hlen) Hall]. cbn [fst snd] in *.
  change (((v', d'), q') :: l).*2 with (q' :: l.*2). cbn [find_entry].
  assert ((if (ver =? 1)%Z then MatchesName o q' name
           else h ← entry_hash ver o q'; Ok (h =? vhash ver name)%Z)
          = Ok (entry_matches ver name v')) as ->.
  { unfold entry_matches. destruct (Z.eqb_spec ver 1) as [Hv1|Hv1].
    - unfold MatchesName. rewrite (at_name _ _ _ _ _ He Hv1). cbn [mbind outcome_bind].
      specialize (Hlen Hv1). unfold name_length. rewrite Z.min_l by lia.
      assert (take (Z.to_nat (zlen (v_name v'))) (v_name v') = v_name v') as ->
        by (unfold zlen; rewrite Nat2Z.id; apply firstn_all).
      replace (zlen (v_name v') =? 255)%Z with false by lia.
      by rewrite andb_false_l, orb_false_r.
    - rewrite (at_hash _ _ _ _ _ He). simpl. by rewrite Hh, Z.eqb_refl. }
  cbn [mbind outcome_bind]. destruct (entry_matches ver name v') eqn:Hm'.
  - rewrite (Hu v' d' q'); [done|set_solver|done].
  - apply elem_of_cons in Hin as [Hin|Hin]; [by injection Hin as -> -> ->; congruence|].
    apply IH; [done|done|]. intros v2 d2 q2 H2 H2'. apply (Hu v2 d2); [set_solver|done].
Qed.

Lemma get_num_vars_ok ver dth vs o :
  holds ver dth vs o → get_num_vars o = Ok (Z.of_nat (length vs)).
Proof.
  intros [Hv Hc Hd _ _ _ (pad & es & rest & Hp & _ & Hu)]. unfold get_num_vars.
  rewrite (read_middle' (user o) [] (le 4 (Z.of_nat (length vs)))
             (le 4 dth ++ le 1 ver ++ pad ++ concat es ++ rest)).
  - cbn [mbind outcome_bind]. rewrite unle_le; [done|simpl; lia].
  - by rewrite Hu, <-!app_assoc.
  - done.
  - by rewrite zlen_le.
Qed.

Lemma holds_entries ver dth vs o :
  holds ver dth vs o →
  Forall (λ vq, entry_at ver o vq.2 vq.1.1 vq.1.2)
    (zip vs (positions ver sizeof_dop_meta vs)).
Proof.
  intros [Hv _ _ _ _ _ (pad & es & rest & Hp & Hpk & Hu)].
  replace sizeof_dop_meta with (zlen (le 4 (Z.of_nat (length vs)) ++ le 4 dth ++ le 1 ver ++ pad)).
  - by apply (packed_entries ver o vs es _ rest).
  - rewrite !zlen_app, !zlen_le. unfold sizeof_dop_meta. lia.
Qed.

Lemma rebuild_ok ver dth vs o f :
  holds ver dth vs o →
  rebuildIndexIfNeeded (mkPacker f ver o []) = Ok (mkPacker f ver o (index_of ver sizeof_dop_meta vs [])).
Proof.
  intros Ho. unfold rebuildIndexIfNeeded. cbn [ldo version index finalized].
  rewrite (get_num_vars_ok _ _ _ _ Ho). cbn [mbind outcome_bind]. simpl length.
  destruct (Z.eqb_spec (Z.of_nat 0) (Z.of_nat (length vs))) as [He|He].
  { destruct vs; [done|simpl in He; lia]. }
  rewrite Nat2Z.id, (h_meta _ _ _ _ Ho).
  rewrite index_loop_ok; [done| |by eapply holds_entries].
  apply wrap_in_width. lia.
Qed.

Lemma zip_positions ver q vs : (zip vs (positions ver q vs)).*1 = vs.
Proof. revert q. induction vs as [|vd vs IH]; intros q; simpl; [done|]. f_equal. apply IH. Qed.

(** A lookup in an object finds the variable: its bytes and its type. *)
Lemma GetVarPointer_ok ver dth vs o f v d :
  holds ver dth vs o → vars_ok vs → distinct ver vs → (v, d) ∈ vs →
  ∃ p pk, GetVarPointer (mkPacker f ver o []) (v_name v) = Ok (0%Z, Some p, v_bytes v, v_type v, pk) ∧
          mem_read (user o) p (v_bytes v) = Ok d.
Proof.
  intros Ho Hok Hdis Hin. pose proof (holds_entries _ _ _ _ Ho) as Hent.
  set (l := zip vs (positions ver sizeof_dop_meta vs)) in *.
  assert (l.*1 = vs) as Hl by apply zip_positions.
  rewrite <-Hl in Hin. apply list_elem_of_fmap in Hin as ([[v0 d0] q] & He & Hq).
  simpl in He. injection He as <- <-.
  unfold GetVarPointer. cbn [version]. fold (vhash ver (v_name v)).
  rewrite (rebuild_ok _ _ _ _ _ Ho). cbn [mbind outcome_bind version ldo index].
  destruct (index_of_spec ver sizeof_dop_meta vs [] (vhash ver (v_name v))) as [_ Hr]; [constructor|].
  rewrite Hr. fold l. cbn [equal_range]. change (equal_range _ [] ++ ?x) with x.
  rewrite (find_entry_ok ver o (v_name v) _ v d q).
  - cbn [mbind outcome_bind var_result]. rewrite Forall_forall in Hent.
    specialize (Hent _ Hq) as [_ _ Hlen Hty _ (p & Hd & Hm)]. simpl in *.
    rewrite Hd. cbn [mbind outcome_bind]. rewrite Hlen. cbn [mbind outcome_bind]. rewrite Hty.
    cbn [mbind outcome_bind]. eauto.
  - apply Forall_forall. intros [[v' d'] q'] [Hh Hin']%list_elem_of_filter. simpl in *.
    rewrite Forall_forall in Hent. split_and!; [by apply (Hent _ Hin')|done|].
    intros ->. unfold distinct in Hdis. simpl in Hdis. destruct Hdis as [Hlt _].
    rewrite Forall_forall in Hlt. apply (Hlt (v', d')). rewrite <-Hl. apply list_elem_of_fmap.
    by exists (v', d', q').
  - apply list_elem_of_filter. done.
  - unfold entry_matches. case_match; [|done]. by apply bool_decide_eq_true.
  - intros v' d' q' [Hh Hin']%list_elem_of_filter Hm. simpl in Hh.
    unfold distinct in Hdis. unfold entry_matches in Hm. unfold vhash in Hh.
    destruct (ver =? 1)%Z.
    + apply bool_decide_eq_true in Hm. destruct Hdis as [_ Hnd]. rewrite <-Hl, <-list_fmap_compose in Hnd.
      by pose proof (NoDup_fmap_eq _ _ _ _ Hnd Hin' Hq Hm) as [= -> -> ->].
    + rewrite <-Hl, <-list_fmap_compose in Hdis.
      by pose proof (NoDup_fmap_eq _ _ _ _ Hdis Hin' Hq Hh) as [= -> -> ->].
Qed.

Lemma object_type_range : (0 ≤ object_type_id < 2 ^ 16)%Z.
Proof. unfold object_type_id, const_hash16. apply wrap_in_width. lia. Qed.

Lemma new_packer_ok garbage ver dth vs :
  valid_version ver = true → vars_ok vs → (0 ≤ dth < 2 ^ 32)%Z →
  (total_size ver vs + 72 < 2 ^ 32)%Z →
  ∃ o, new_packer garbage vs.*1 dth ver = Ok (mkPacker true ver o []) ∧ holds ver dth vs o.
Proof.
  intros Hv Hok Hd Hs. pose proof (total_size_nonneg ver vs Hok) as Hn.
  unfold new_packer. rewrite Hv, payload_size_ok by done. cbn [negb mbind outcome_bind].
  unfold sizeof_dop_meta. rewrite length_fmap. unwrap.
  destruct (new_ldo_ok garbage (12 + total_size ver vs) 12 (total_size ver vs) object_type_id)
    as (o & -> & Ho & Hm & Hdt & Ht & Hu); [lia|lia|apply object_type_range|lia|lia|].
  cbn [mbind outcome_bind].
  destruct (zsplit (user o) 9) as (x & u1 & Hx & Hzx); [lia|].
  rewrite Hx, zlen_app in Hu.
  destruct (zsplit u1 3) as (pad & u2 & -> & Hpad); [lia|]. rewrite zlen_app in Hu.
  destruct (zsplit u2 (total_size ver vs)) as (b & rest & -> & Hb); [lia|].
  unfold write_meta. rewrite Hx.
  rewrite (write_middle [] x (pad ++ b ++ rest)).
  2:{ apply zlen_length. rewrite !zlen_app, !zlen_le. lia. }
  cbn [mbind outcome_bind app]. set (hd := le 4 _ ++ le 4 _ ++ le 1 _).
  destruct (write_entries_ok ver vs (hd ++ pad) b rest Hv Hok Hb) as (es & He & Hpk & Hz).
  replace (zlen (hd ++ pad)) with 12%Z in He
    by (unfold hd; rewrite !zlen_app, !zlen_le; lia).
  rewrite <-app_assoc in He. rewrite He. cbn [mbind outcome_bind].
  eexists. split; [done|]. constructor; cbn [alloc user]; try done; [lia|].
  exists pad, es, rest. split_and!; [done..|]. unfold hd. by rewrite <-!app_assoc.
Qed.

Lemma open_packer_ok ver dth vs o :
  holds ver dth vs o → open_packer o = Ok (mkPacker true ver o []).
Proof.
  intros [Hv _ Hd Ht _ _ (pad & es & rest & Hp & _ & Hu)]. unfold open_packer.
  rewrite Ht, Z.eqb_refl. cbn [negb]. unfold get_packing_version.
  rewrite (read_middle' (user o) (le 4 (Z.of_nat (length vs)) ++ le 4 dth) (le 1 ver)
             (pad ++ concat es ++ rest)).
  - cbn [mbind outcome_bind]. unfold valid_version in Hv.
    rewrite unle_le by (simpl; lia). unfold valid_version. by rewrite Hv.
  - by rewrite Hu, <-!app_assoc.
  - by rewrite zlen_app, !zlen_le.
  - by rewrite zlen_le.
Qed.

(** every variable that is packed into an object is found there by its name, with its bytes
    and its type, by whoever opens the object, in both formats; names must be told apart by what
    the format keeps of them. *)
Theorem packer_roundtrip garbage ver dth vs :
  valid_version ver = true → vars_ok vs → distinct ver vs → (0 ≤ dth < 2 ^ 32)%Z →
  (total_size ver vs + 72 < 2 ^ 32)%Z →
  ∃ o pk, new_packer garbage vs.*1 dth ver = Ok (mkPacker true ver o []) ∧
    open_packer o = Ok pk ∧
    ∀ v d, (v, d) ∈ vs →
      ∃ p pk', GetVarPointer pk (v_name v) = Ok (0%Z, Some p, v_bytes v, v_type v, pk') ∧
               mem_read (user o) p (v_bytes v) = Ok d.
Proof.
  intros Hv Hok Hdis Hd Hs. destruct (new_packer_ok garbage ver dth vs Hv Hok Hd Hs) as (o & Hn & Ho).
  exists o, (mkPacker true ver o []). split_and!; [done|by eapply open_packer_ok|].
  intros v d Hin. by eapply GetVarPointer_ok.
Qed.

Lemma total_size_app ver vs ws : total_size ver (vs ++ ws) = (total_size ver vs + total_size ver ws)%Z.
Proof. induction vs as [|vd vs IH]; [done|]. simpl in *. lia. Qed.

Lemma packed_app ver vs ws es fs : packed ver vs es → packed ver ws fs → packed ver (vs ++ ws) (es ++ fs).
Proof. induction 1; simpl; [done|]. intros. constructor; auto. Qed.

Lemma packed_zlen ver vs es : packed ver vs es → zlen (concat es) = total_size ver vs.
Proof.
  induction 1 as [|v d e vs es Hok He Hp IH]; [done|]. simpl. rewrite zlen_app, IH.
  by rewrite (is_entry_zlen ver v d).
Qed.

(** Appending to a packer with room adds the variable to the ones it holds; without room it
    refuses and changes nothing. *)
Lemma AppendVariable_spec ver dth vs o v d idx :
  holds ver dth vs o → zlen (user o) = alloc_GetUserCapacity (alloc o) → var_ok v d →
  (total_size ver vs + esize ver v + 12 < 2 ^ 32)%Z → (Z.of_nat (length vs) + 1 < 2 ^ 32)%Z →
  let p := mkPacker false ver o idx in
  if (sizeof_dop_meta + total_size ver vs + esize ver v <=? zlen (user o))%Z
  then ∃ o', AppendVariable p v = Ok (0%Z, mkPacker false ver o' idx) ∧
             holds ver dth (vs ++ [(v, d)]) o' ∧ zlen (user o') = zlen (user o) ∧
             alloc_GetUserCapacity (alloc o') = alloc_GetUserCapacity (alloc o)
  else AppendVariable p v = Ok ((-1)%Z, p).
Proof.
  intros Ho Hcap Hvar Hs Hc. cbn zeta. pose proof (get_num_vars_ok _ _ _ _ Ho) as Hnum.
  destruct Ho as [Hv Hcnt Hd Ht Hm Hdt (pad & es & rest & Hp & Hpk & Hu)].
  pose proof (packed_zlen _ _ _ Hpk) as Hze. pose proof (esize_nonneg ver v d Hvar) as He8.
  pose proof (zlen_nonneg (concat es)) as Hz0.
  unfold AppendVariable. cbn [finalized version ldo]. erewrite ComputeEntrySize_ok by done.
  cbn [mbind outcome_bind]. rewrite Hdt, wrap_id by (unfold in_width; lia).
  unfold ModifyUserSizes. rewrite <-Hcap.
  destruct (Z.leb_spec (sizeof_dop_meta + total_size ver vs + esize ver v) (zlen (user o))) as [Hfit|Hno].
  2:{ by replace (zlen (user o) <? sizeof_dop_meta + (total_size ver vs + esize ver v))%Z with true by lia. }
  replace (zlen (user o) <? sizeof_dop_meta + (total_size ver vs + esize ver v))%Z with false by lia.
  cbn [meta_bytes]. set (hd := le 4 _ ++ le 4 _ ++ le 1 _ ++ pad) in Hu.
  assert (zlen hd = sizeof_dop_meta) as Hhd.
  { unfold hd, sizeof_dop_meta. rewrite !zlen_app, !zlen_le. lia. }
  destruct (zsplit rest (esize ver v)) as (b & rest' & -> & Hb).
  { rewrite Hu, !zlen_app in Hfit. lia. }
  destruct (writeEntry_ok ver v d (hd ++ concat es) b rest' Hv Hvar Hb) as (e & He & Hie & Hzb).
  rewrite Hu, (app_assoc hd). rewrite zlen_app, Hhd, Hze in He. rewrite He.
  cbn [mbind outcome_bind].
  assert (get_num_vars (mkLdo (mkAllocation (ref_count (alloc o)) (allocated_bytes (alloc o))
    (padding (alloc o)) (user_data_segments (alloc o)) (type_id (alloc o)) sizeof_dop_meta
    (total_size ver vs + esize ver v)) ((hd ++ concat es) ++ e ++ rest')) = Ok (Z.of_nat (length vs))) as ->.
  { unfold get_num_vars. cbn [user]. unfold hd.
    rewrite (read_middle' _ [] (le 4 (Z.of_nat (length vs)))
               ((le 4 dth ++ le 1 ver ++ pad) ++ concat es ++ e ++ rest')).
    - cbn [mbind outcome_bind]. rewrite unle_le; [done|simpl; lia].
    - by rewrite <-!app_assoc.
    - done.
    - by rewrite zlen_le. }
  cbn [mbind outcome_bind]. rewrite wrap_id by (unfold in_width; lia).
  unfold hd. rewrite <-!app_assoc.
  rewrite (write_middle [] (le 4 (Z.of_nat (length vs))) (le 4 dth ++ le 1 ver ++ pad ++ concat es ++ e ++ rest'))
    by (by rewrite !length_le).
  cbn [mbind outcome_bind app]. eexists. split; [done|]. cbn [alloc user].
  split_and!; [| |rewrite Hu in Hcap; unfold hd in Hcap; rewrite <-!app_assoc in Hcap; by rewrite Hcap].
  - constructor; cbn [alloc user type_id meta_bytes data_bytes]; try done.
    + rewrite length_app. simpl. lia.
    + rewrite total_size_app. simpl. lia.
    + exists pad, (es ++ [e]), rest'. split_and!; [done| |].
      * apply packed_app; [done|]. constructor; [done|done|constructor].
      * rewrite length_app. simpl length. rewrite concat_app. simpl concat.
        replace (Z.of_nat (length vs + 1)) with (Z.of_nat (length vs) + 1)%Z by lia.
        by rewrite app_nil_r, <-!app_assoc.
  - rewrite !zlen_app, !zlen_le. lia.
Qed.

(** A new packer holds no variables, and has the capacity asked for. *)
Lemma new_packer_capacity_ok garbage ver dth cap :
  valid_version ver = true → (0 ≤ dth < 2 ^ 32)%Z → (0 ≤ cap)%Z → (cap + 72 < 2 ^ 32)%Z →
  ∃ o, new_packer_capacity garbage cap dth ver = Ok (mkPacker false ver o []) ∧ holds ver dth [] o ∧
       zlen (user o) = alloc_GetUserCapacity (alloc o) ∧ (sizeof_dop_meta + cap ≤ zlen (user o))%Z.
Proof.
  intros Hv Hd Hc Hs. unfold new_packer_capacity. rewrite Hv. cbn [negb].
  unfold sizeof_dop_meta. unwrap.
  destruct (new_ldo_ok garbage (12 + cap) 12 0 object_type_id) as (o & -> & Ho & Hm & Hdt & Ht & Hu);
    [lia|lia|apply object_type_range|lia|lia|].
  cbn [mbind outcome_bind].
  destruct (zsplit (user o) 9) as (x & u1 & Hx & Hzx); [lia|].
  pose proof Hu as Hu'. rewrite Hx, zlen_app in Hu'.
  destruct (zsplit u1 3) as (pad & rest & -> & Hpad); [lia|].
  unfold write_meta. rewrite Hx, (write_middle [] x (pad ++ rest)).
  2:{ apply zlen_length. rewrite !zlen_app, !zlen_le. lia. }
  cbn [mbind outcome_bind app]. set (hd := le 4 0 ++ le 4 dth ++ le 1 ver).
  assert (zlen (hd ++ pad ++ rest) = zlen (user o)) as Hz.
  { rewrite Hx, !zlen_app. unfold hd. rewrite !zlen_app, !zlen_le. lia. }
  eexists. split; [done|]. cbn [alloc user]. rewrite Hz. split_and!; [| |lia].
  - constructor; cbn [alloc user]; try done. exists pad, [], rest. split_and!; [done|constructor|].
    unfold hd. simpl length. change (Z.of_nat 0) with 0%Z. by rewrite <-!app_assoc.
  - destruct Ho as [_ _ _ _ Ha Hl _]. unfold alloc_GetUserCapacity. rewrite Hl.
    rewrite wrap_id; [done|]. unfold in_width, offsetof_user in *. lia.
Qed.

(** A series of calls of [AppendVariable]: the codes they return, and the packer. *)
Fixpoint append_vars (p : packer) (vs : list variable) : outcome (list Z * packer) :=
  match vs with
  | [] => Ok ([], p)
  | v :: vs' =>
      '(rc, p) ← AppendVariable p v;
      '(rcs, p) ← append_vars p vs';
      Ok (rc :: rcs, p)
  end.

Lemma append_vars_ok ver dth vs held o :
  holds ver dth held o → zlen (user o) = alloc_GetUserCapacity (alloc o) → vars_ok vs → vars_ok held →
  (total_size ver held + total_size ver vs + 12 < 2 ^ 32)%Z →
  ∃ rcs o' added,
    append_vars (mkPacker false ver o []) vs.*1 = Ok (rcs, mkPacker false ver o' []) ∧
    holds ver dth (held ++ added) o' ∧ added `sublist_of` vs ∧
    Forall2 (λ rc vd, (rc = 0 ∧ vd ∈ added) ∨ rc = -1)%Z rcs vs ∧
    ((sizeof_dop_meta + total_size ver held + total_size ver vs ≤ zlen (user o))%Z →
     Forall (eq 0%Z) rcs).
Proof.
  intros Ho Hcap Hvs. revert held o Ho Hcap.
  induction Hvs as [|[v d] vs Hv Hvs IH]; intros held o Ho Hcap Hheld Hs.
  - exists [], o, []. rewrite app_nil_r. split_and!; [done|done|done|constructor|done].
  - simpl in Hv. cbn [fst snd] in *. change (total_size ver ((v, d) :: vs))
      with (esize ver v + total_size ver vs)%Z in *.
    pose proof (total_size_nonneg ver vs Hvs). pose proof (total_size_nonneg ver held Hheld).
    pose proof (esize_nonneg ver v d Hv).
    pose proof (AppendVariable_spec ver dth held o v d [] Ho Hcap Hv ltac:(lia) ltac:(lia)) as Ha.
    cbn zeta in Ha. change (((v, d) :: vs).*1) with (v :: vs.*1). cbn [append_vars].
    destruct (Z.leb_spec (sizeof_dop_meta + total_size ver held + esize ver v) (zlen (user o))) as [Hfit|Hno].
    + destruct Ha as (o1 & Ha & Ho1 & Hz & Hcap1). rewrite Ha. cbn [mbind outcome_bind].
      destruct (IH (held ++ [(v, d)]) o1) as (rcs & o' & added & Hap & Ho' & Hsub & Hrcs & Hall);
        [done|congruence|by apply Forall_app_2; [|apply Forall_singleton]| |].
      { rewrite total_size_app. simpl. lia. }
      rewrite Hap. cbn [mbind outcome_bind]. exists (0%Z :: rcs), o', ((v, d) :: added).
      rewrite <-app_assoc in Ho'. split_and!; [done|done|by apply sublist_skip| |].
      * constructor; [set_solver|]. eapply Forall2_impl; [exact Hrcs|]. set_solver.
      * intros Hr. constructor; [done|]. apply Hall. rewrite total_size_app, Hz. simpl. lia.
    + rewrite Ha. cbn [mbind outcome_bind].
      destruct (IH held o Ho Hcap Hheld) as (rcs & o' & added & Hap & Ho' & Hsub & Hrcs & Hall); [lia|].
      rewrite Hap. cbn [mbind outcome_bind]. exists ((-1)%Z :: rcs), o', added.
      split_and!; [done|done|by apply sublist_cons| |lia]. constructor; [by right|done].
Qed.

Lemma sublist_map {A B} (f : A → B) l k : l `sublist_of` k → f <$> l `sublist_of` f <$> k.
Proof. induction 1; simpl; by constructor. Qed.

Lemma distinct_sublist ver vs ws : ws `sublist_of` vs → distinct ver vs → distinct ver ws.
Proof.
  intros Hs. unfold distinct. case_match.
  - intros [Hf Hn]. split.
    + rewrite Forall_forall in Hf |- *. intros x Hx. apply Hf. by eapply elem_of_sublist.
    + apply (sublist_NoDup _ _ Hn). by apply sublist_map.
  - intros Hn. apply (sublist_NoDup _ _ Hn). by apply sublist_map.
Qed.

(** variables appended to a packer one at a time are each accepted or refused; those accepted
    are found by their names afterwards, with their bytes and types, whatever was refused in
    between, and when the capacity asked for is enough for all of them none is refused. *)
Theorem append_then_find garbage ver dth cap vs :
  valid_version ver = true → vars_ok vs → distinct ver vs → (0 ≤ dth < 2 ^ 32)%Z →
  (0 ≤ cap)%Z → (cap + 72 < 2 ^ 32)%Z → (total_size ver vs + 12 < 2 ^ 32)%Z →
  ∃ p0 rcs p, new_packer_capacity garbage cap dth ver = Ok p0 ∧
    append_vars p0 vs.*1 = Ok (rcs, p) ∧
    Forall2 (λ rc vd,
      (rc = 0%Z ∧ ∃ ptr p', GetVarPointer p (v_name vd.1)
                            = Ok (0%Z, Some ptr, v_bytes vd.1, v_type vd.1, p') ∧
                            mem_read (user (ldo p)) ptr (v_bytes vd.1) = Ok vd.2) ∨
      rc = (-1)%Z) rcs vs ∧
    ((total_size ver vs ≤ cap)%Z → Forall (eq 0%Z) rcs).
Proof.
  intros Hv Hok Hdis Hd Hc Hcs Hs.
  destruct (new_packer_capacity_ok garbage ver dth cap Hv Hd Hc Hcs) as (o & Hn & Ho & Hcap & Hz).
  destruct (append_vars_ok ver dth vs [] o Ho Hcap Hok) as (rcs & o' & added & Ha & Ho' & Hsub & Hrcs & Hall);
    [constructor|done|]. simpl app in Ho'.
  exists (mkPacker false ver o []), rcs, (mkPacker false ver o' []). split_and!; [done|done| |].
  - eapply Forall2_impl; [exact Hrcs|]. intros rc [v d] [[-> Hin]|Hrc]; [left|by right].
    split; [done|]. apply (GetVarPointer_ok ver dth added); [done| |by eapply distinct_sublist|done].
    unfold vars_ok in *. rewrite Forall_forall in Hok |- *. intros x Hx. apply Hok.
    by eapply elem_of_sublist.
  - intros Hle. apply Hall. simpl. lia.
Qed.

(** the bounds check of the index never fires, whatever the object says: an object that
    claims more variables than it holds is read past its end. *)
Theorem index_check_never_fires n ver o max_offset q idx :
  (0 ≤ max_offset)%Z → index_loop n ver o max_offset 0 q idx ≠ Throw RuntimeError.
Proof.
  intros Hm. revert q idx. induction n as [|n IH]; intros q idx; simpl; [done|].
  replace (max_offset <? 0)%Z with false by lia.
  assert (∀ p off len, read_field o p off len ≠ Throw RuntimeError) as Hf.
  { intros p off len. unfold read_field, mem_read. by case_match. }
  destruct (entry_hash ver o q) eqn:E; simpl.
  2:{ intros [= ->]. unfold entry_hash in E. case_match; by apply Hf in E. }
  destruct (entry_total ver o q) eqn:E2; simpl; [apply IH|].
  intros [= ->]. unfold entry_total, entry_data_length in E2.
  destruct (read_field o q 4 4) eqn:E3; simpl in E2; [|by injection E2 as ->; apply Hf in E3].
  destruct (ver =? 1)%Z; [|done]. destruct (read_field o q 0 1) eqn:E4; simpl in E2; [done|].
  injection E2 as ->. by apply Hf in E4.
Qed.

(** * Bundles: what was appended is what is read *)

Module SequentialFacts.
Import SequentialBundle.

Definition encode (item : str) : str := le 4 (zlen item) ++ item.

(** Append the items, all of which must be accepted. *)
Fixpoint append_all (b : bundle) (o : bundle_offsets) (items : list str)
    : outcome (option (bundle * bundle_offsets)) :=
  match items with
  | [] => Ok (Some (b, o))
  | item :: items' =>
      '(accepted, b, o) ← AppendBack b o item (zlen item);
      if (accepted : bool) then append_all b o items' else Ok None
  end.

(** Read until there is nothing left. *)
Fixpoint read_all (fuel : nat) (b : bundle) (o : bundle_offsets) : outcome (list str) :=
  match fuel with
  | O => Throw FuelExhausted
  | S fuel =>
      '(item, o) ← GetNext b o;
      match item with
      | None => Ok []
      | Some i => rest ← read_all fuel b o; Ok (i :: rest)
      end
  end.

Lemma encode_zlen i : zlen (encode i) = (4 + zlen i)%Z.
Proof. unfold encode. rewrite zlen_app, zlen_le. lia. Qed.

Lemma AppendBack_ok n a c item max id :
  (zlen a + 4 + zlen item ≤ max)%Z → (max ≤ zlen (a ++ c))%Z → (max < 2 ^ 32)%Z →
  ∃ c', zlen (encode item ++ c') = zlen c ∧
    AppendBack (mkBundle n (a ++ c)) (mkOffsets max (zlen a) id) item (zlen item)
    = Ok (true, mkBundle (u32 (n + 1)) ((a ++ encode item) ++ c'),
          mkOffsets max (zlen (a ++ encode item)) (u32 (n + 1))).
Proof.
  intros Hfit Hmem Hmax. pose proof (zlen_nonneg a). pose proof (zlen_nonneg item).
  rewrite zlen_app in Hmem.
  destruct (zsplit c 4) as (x & c1 & -> & Hx); [lia|]. rewrite zlen_app in Hmem.
  destruct (zsplit c1 (zlen item)) as (y & c' & -> & Hy); [lia|]. exists c'. split.
  { rewrite !zlen_app, encode_zlen. lia. }
  unfold AppendBack. cbn [max_payload_bytes current_byte_offset num_items packed_data].
  unwrap. replace (max <? zlen a + zlen item + 4)%Z with false by lia.
  rewrite (write_middle a x (y ++ c')) by (apply zlen_length; rewrite zlen_le; lia).
  cbn [mbind outcome_bind].
  assert ((if (0 <? zlen item)%Z
           then bs ← mem_read item 0 (zlen item); mem_write (a ++ le 4 (zlen item) ++ y ++ c') (zlen a + 4) bs
           else Ok (a ++ le 4 (zlen item) ++ y ++ c'))
          = Ok (a ++ le 4 (zlen item) ++ item ++ c')) as ->.
  { destruct (Z.ltb_spec 0 (zlen item)) as [Hpos|Hz].
    - rewrite (read_middle' item [] item []) by (done || by rewrite app_nil_r).
      cbn [mbind outcome_bind]. rewrite (app_assoc a).
      replace (zlen a + 4)%Z with (zlen (a ++ le 4 (zlen item))) by (rewrite zlen_app, zlen_le; lia).
      rewrite (write_middle _ y c') by (by apply zlen_length). by rewrite <-app_assoc.
    - assert (item = []) as -> by (destruct item; [done|unfold zlen in Hz; simpl in Hz; lia]).
      assert (y = []) as ->; [|done]. destruct y; [done|unfold zlen in Hy; simpl in Hy; lia]. }
  cbn [mbind outcome_bind]. unwrap. unfold encode. rewrite <-!app_assoc, !zlen_app, zlen_le.
  replace (zlen a + (Z.of_nat 4 + zlen item))%Z with (zlen a + 4 + zlen item)%Z by lia. done.
Qed.

(** The items as they lie in the payload. *)
Definition payload (items : list str) : str := concat (encode <$> items).

Lemma append_all_ok n a c items max id :
  (zlen a + zlen (payload items) ≤ max)%Z → (max ≤ zlen (a ++ c))%Z → (max < 2 ^ 32)%Z →
  (0 ≤ n)%Z → (n + Z.of_nat (length items) < 2 ^ 32)%Z →
  ∃ c' o, zlen (payload items ++ c') = zlen c ∧
    append_all (mkBundle n (a ++ c)) (mkOffsets max (zlen a) id) items
    = Ok (Some (mkBundle (n + Z.of_nat (length items)) (a ++ payload items ++ c'), o)).
Proof.
  revert n a c id. induction items as [|i items IH]; intros n a c id Hfit Hmem Hmax Hn Hlen.
  - exists c, (mkOffsets max (zlen a) id). simpl. by rewrite Z.add_0_r.
  - unfold payload in *. cbn [fmap list_fmap concat] in *. rewrite zlen_app, encode_zlen in Hfit.
    pose proof (zlen_nonneg (concat (encode <$> items))).
    destruct (AppendBack_ok n a c i max id) as (c1 & Hc1 & Ha); [lia|lia|lia|].
    cbn [append_all]. rewrite Ha. cbn [mbind outcome_bind]. simpl length in Hlen.
    rewrite wrap_id by (unfold in_width; lia).
    destruct (IH (n + 1)%Z (a ++ encode i) c1 (n + 1)%Z) as (c2 & o & Hc2 & Hall).
    { rewrite zlen_app, encode_zlen. lia. }
    { rewrite zlen_app, (zlen_app a). rewrite zlen_app in Hc1, Hmem. lia. }
    { done. }
    { lia. }
    { lia. }
    rewrite Hall. exists c2, o. split.
    + rewrite <-app_assoc, (zlen_app (encode i)), Hc2. by rewrite zlen_app in Hc1.
    + replace (n + Z.of_nat (length (i :: items)))%Z with (n + 1 + Z.of_nat (length items))%Z
        by (simpl; lia). by rewrite <-!app_assoc.
Qed.

Lemma read_all_S fuel b o :
  read_all (S fuel) b o
  = '(item, o) ← GetNext b o;
    match item with None => Ok [] | Some i => rest ← read_all fuel b o; Ok (i :: rest) end.
Proof. done. Qed.

Lemma read_all_ok items n a c max k :
  (zlen a + zlen (payload items) ≤ max)%Z → (max < 2 ^ 32)%Z → (0 ≤ k)%Z →
  (k + Z.of_nat (length items) = n)%Z → (n < 2 ^ 32)%Z → Forall (λ i, zlen i < 2 ^ 32)%Z items →
  read_all (S (length items)) (mkBundle n (a ++ payload items ++ c)) (mkOffsets max (zlen a) k)
  = Ok items.
Proof.
  revert a k. induction items as [|i items IH]; intros a k Hfit Hmax Hk Hn Hn32 Hi.
  - cbn [read_all length]. unfold GetNext. cbn [num_items current_id]. simpl in Hn.
    by replace (n <=? k)%Z with true by lia.
  - apply Forall_cons in Hi as [Hi His]. unfold payload in *. cbn [fmap list_fmap concat length] in *.
    rewrite zlen_app, encode_zlen in Hfit. pose proof (zlen_nonneg (concat (encode <$> items))).
    pose proof (zlen_nonneg i). pose proof (zlen_nonneg a).
    assert (GetNext (mkBundle n (a ++ (encode i ++ concat (encode <$> items)) ++ c))
              (mkOffsets max (zlen a) k)
            = Ok (Some i, mkOffsets max (zlen (a ++ encode i)) (k + 1))) as Hg.
    { unfold GetNext. cbn [num_items current_id current_byte_offset max_payload_bytes packed_data].
      replace (n <=? k)%Z with false by lia. replace (max <? zlen a + 4)%Z with false by lia.
      unfold encode at 1. rewrite <-!app_assoc.
      rewrite (read_middle' _ a (le 4 (zlen i)) (i ++ concat (encode <$> items) ++ c))
        by (done || by rewrite zlen_le).
      cbn [mbind outcome_bind]. rewrite unle_le by (simpl; lia).
      replace (max <? zlen a + 4 + zlen i)%Z with false by lia.
      rewrite (read_middle' _ (a ++ le 4 (zlen i)) i (concat (encode <$> items) ++ c)).
      2:{ unfold encode. by rewrite <-!app_assoc. }
      2:{ by rewrite zlen_app, zlen_le. }
      2:{ done. }
      cbn [mbind outcome_bind]. unwrap. rewrite zlen_app, encode_zlen. do 3 f_equal. lia. }
    rewrite read_all_S, Hg. cbn [mbind outcome_bind].
    rewrite <-app_assoc, app_assoc. rewrite IH; [done|..]; try done; try lia.
    rewrite zlen_app, encode_zlen. lia.
Qed.
End SequentialFacts.

(** the items appended to a sequential bundle are all accepted as long as they fit its
    payload, and are read back in order, and nothing after them. *)
Theorem sequential_bundle_roundtrip mem items max :
  (zlen (SequentialFacts.payload items) ≤ max)%Z → (max ≤ zlen mem)%Z → (max < 2 ^ 32)%Z →
  (Z.of_nat (length items) < 2 ^ 32)%Z →
  ∃ b o, SequentialFacts.append_all (SequentialBundle.mkBundle 0 mem) (mkOffsets max 0 0) items
         = Ok (Some (b, o)) ∧
    SequentialFacts.read_all (S (length items)) b (mkOffsets max 0 0) = Ok items.
Proof.
  intros Hfit Hmem Hmax Hlen.
  destruct (SequentialFacts.append_all_ok 0 [] mem items max 0) as (c & o & Hc & Ha); simpl; try done; try lia.
  simpl in Ha. eexists _, o. split; [exact Ha|].
  apply (SequentialFacts.read_all_ok items (Z.of_nat (length items)) [] c max 0); try done; try lia.
  assert (∀ i, i ∈ items → zlen i ≤ zlen (SequentialFacts.payload items))%Z as Hle.
  { clear. induction items as [|j items IH]; [set_solver|]. unfold SequentialFacts.payload in *.
    cbn [fmap list_fmap concat]. intros i. rewrite zlen_app, SequentialFacts.encode_zlen.
    pose proof (zlen_nonneg (concat (SequentialFacts.encode <$> items))). pose proof (zlen_nonneg j).
    intros [->|Hi]%elem_of_cons; [lia|]. specialize (IH i Hi). lia. }
  apply Forall_forall. intros i Hi. specialize (Hle i Hi). lia.
Qed.

Module RandomFacts.
Import RandomBundle.

Fixpoint append_all (b : bundle) (o : bundle_offsets) (items : list str)
    : outcome (option (bundle * bundle_offsets)) :=
  match items with
  | [] => Ok (Some (b, o))
  | item :: items' =>
      '(accepted, b, o) ← AppendBack_string b o item;
      if (accepted : bool) then append_all b o items' else Ok None
  end.

Fixpoint read_all (fuel : nat) (b : bundle) (o : bundle_offsets) : outcome (list str) :=
  match fuel with
  | O => Throw FuelExhausted
  | S fuel =>
      '(item, o) ← GetNext b o;
      match item with
      | None => Ok []
      | Some i => rest ← read_all fuel b o; Ok (i :: rest)
      end
  end.

Lemma rnd_read_all_S fuel b o :
  read_all (S fuel) b o
  = '(item, o) ← GetNext b o;
    match item with None => Ok [] | Some i => rest ← read_all fuel b o; Ok (i :: rest) end.
Proof. done. Qed.

Lemma rnd_AppendBack_ok (n : nat) l a c item max id :
  n < length l → (Z.of_nat (length l) < 2 ^ 16)%Z → (zlen item < 2 ^ 16)%Z →
  (zlen a + zlen item ≤ max)%Z → (max ≤ zlen (a ++ c))%Z → (max < 2 ^ 32)%Z →
  ∃ c', zlen (item ++ c') = zlen c ∧
    AppendBack_string (mkBundle (Z.of_nat n) l (a ++ c)) (mkOffsets max (zlen a) id) item
    = Ok (true, mkBundle (Z.of_nat (S n)) (<[n := zlen item]> l) ((a ++ item) ++ c'),
          mkOffsets max (zlen (a ++ item)) (Z.of_nat (S n))).
Proof.
  intros Hn Hl Hi Hfit Hmem Hmax. pose proof (zlen_nonneg a). pose proof (zlen_nonneg item).
  rewrite zlen_app in Hmem. destruct (zsplit c (zlen item)) as (y & c' & -> & Hy); [lia|].
  exists c'. split; [by rewrite !zlen_app, Hy|].
  unfold AppendBack_string, AppendBack, GetMaxItems.
  cbn [max_payload_bytes current_byte_offset num_items packed_data lens]. unwrap.
  replace (Z.of_nat (length l) <? Z.of_nat n + 1)%Z with false by lia.
  replace (max <? zlen a + zlen item)%Z with false by lia. rewrite Nat2Z.id.
  assert ((if (0 <? zlen item)%Z
           then bs ← mem_read item 0 (zlen item); mem_write (a ++ y ++ c') (zlen a) bs
           else Ok (a ++ y ++ c')) = Ok (a ++ item ++ c')) as ->.
  { destruct (Z.ltb_spec 0 (zlen item)) as [Hpos|Hz].
    - rewrite (read_middle' item [] item []) by (done || by rewrite app_nil_r).
      cbn [mbind outcome_bind]. by rewrite write_middle by (by apply zlen_length).
    - assert (item = []) as -> by (destruct item; [done|unfold zlen in Hz; simpl in Hz; lia]).
      assert (y = []) as ->; [|done]. destruct y; [done|unfold zlen in Hy; simpl in Hy; lia]. }
  cbn [mbind outcome_bind]. rewrite <-app_assoc, zlen_app.
  by replace (Z.of_nat n + 1)%Z with (Z.of_nat (S n)) by lia.
Qed.

Definition item_ok (i : str) : Prop := (zlen i < 2 ^ 16)%Z.

Lemma rnd_append_all_ok (n : nat) l a c items max id :
  n + length items ≤ length l → (Z.of_nat (length l) < 2 ^ 16)%Z → Forall item_ok items →
  (zlen a + zlen (concat items) ≤ max)%Z → (max ≤ zlen (a ++ c))%Z → (max < 2 ^ 32)%Z →
  ∃ l' c' o,
    append_all (mkBundle (Z.of_nat n) l (a ++ c)) (mkOffsets max (zlen a) id) items
    = Ok (Some (mkBundle (Z.of_nat (n + length items)) l' (a ++ concat items ++ c'), o)) ∧
    (∀ j, j < n → l' !! j = l !! j) ∧
    (∀ j, j < length items → l' !! (n + j) = zlen <$> items !! j).
Proof.
  intros Hn Hl Hok. revert n l a c id Hn Hl. induction Hok as [|i items Hi _ IH]; intros n l a c id Hn Hl.
  - intros _ _ _. exists l, c, (mkOffsets max (zlen a) id). rewrite Nat.add_0_r. split_and!; [done..|].
    simpl. lia.
  - cbn [concat length] in *. rewrite zlen_app. intros Hfit Hmem Hmax.
    pose proof (zlen_nonneg (concat items)).
    destruct (rnd_AppendBack_ok n l a c i max id) as (c1 & Hc1 & Ha); [lia|lia|done|lia|lia|lia|].
    cbn [append_all]. rewrite Ha. cbn [mbind outcome_bind].
    destruct (IH (S n) (<[n := zlen i]> l) (a ++ i) c1 (Z.of_nat (S n))) as (l' & c2 & o & Hall & H1 & H2).
    { rewrite length_insert. lia. }
    { by rewrite length_insert. }
    { rewrite zlen_app. lia. }
    { rewrite zlen_app, (zlen_app a). rewrite zlen_app in Hc1, Hmem. lia. }
    { done. }
    exists l', c2, o. split_and!.
    + rewrite Hall. replace (S n + length items) with (n + S (length items)) by lia.
      by rewrite <-!app_assoc.
    + intros j Hj. rewrite H1 by lia. by rewrite list_lookup_insert_ne by lia.
    + intros [|j] Hj.
      * rewrite Nat.add_0_r, H1 by lia. rewrite list_lookup_insert_eq by lia. done.
      * simpl. rewrite <-H2 by lia. f_equal. lia.
Qed.

Lemma rnd_read_all_ok items (k : nat) l a c max :
  (zlen a + zlen (concat items) ≤ max)%Z → (max < 2 ^ 32)%Z →
  (Z.of_nat (k + length items) < 2 ^ 16)%Z →
  (∀ j, j < length items → l !! (k + j) = zlen <$> items !! j) →
  read_all (S (length items)) (mkBundle (Z.of_nat (k + length items)) l (a ++ concat items ++ c))
    (mkOffsets max (zlen a) (Z.of_nat k)) = Ok items.
Proof.
  revert k a. induction items as [|i items IH]; intros k a Hfit Hmax Hlen Hl.
  - rewrite rnd_read_all_S. unfold GetNext. cbn [num_items current_id length].
    by rewrite Nat.add_0_r, Z.leb_refl.
  - cbn [concat length] in *. rewrite zlen_app in Hfit. pose proof (zlen_nonneg (concat items)).
    pose proof (zlen_nonneg i). pose proof (zlen_nonneg a).
    assert (GetNext (mkBundle (Z.of_nat (k + S (length items))) l (a ++ (i ++ concat items) ++ c))
              (mkOffsets max (zlen a) (Z.of_nat k))
            = Ok (Some i, mkOffsets max (zlen (a ++ i)) (Z.of_nat (S k)))) as Hg.
    { unfold GetNext. cbn [num_items current_id current_byte_offset max_payload_bytes packed_data lens].
      rewrite (proj2 (Z.leb_gt (Z.of_nat (k + S (length items))) (Z.of_nat k))) by lia.
      pose proof (Hl 0 ltac:(lia)) as Hl0. rewrite Nat.add_0_r in Hl0. simpl in Hl0.
      rewrite Nat2Z.id, Hl0. unwrap. replace (max <? zlen a + zlen i)%Z with false by lia.
      rewrite (read_middle' _ a i (concat items ++ c)) by (done || by rewrite <-!app_assoc).
      cbn [mbind outcome_bind]. rewrite zlen_app. do 3 f_equal. lia. }
    rewrite rnd_read_all_S, Hg. cbn [mbind outcome_bind]. rewrite <-app_assoc, app_assoc.
    replace (k + S (length items)) with (S k + length items) by lia.
    rewrite IH; [done|..].
    + rewrite zlen_app. lia.
    + done.
    + lia.
    + intros j Hj. pose proof (Hl (S j) ltac:(lia)) as Hj'. simpl in Hj'. rewrite <-Hj'. f_equal. lia.
Qed.
End RandomFacts.

(** the items appended to a random-access bundle, each shorter than 64 KB, are all accepted as
    long as they fit its payload and its table of lengths, and are read back in order, and
    nothing after them. *)
Theorem random_bundle_roundtrip mem lens items max :
  length items ≤ length lens → (Z.of_nat (length lens) < 2 ^ 16)%Z →
  Forall RandomFacts.item_ok items →
  (zlen (concat items) ≤ max)%Z → (max ≤ zlen mem)%Z → (max < 2 ^ 32)%Z →
  ∃ b o, RandomFacts.append_all (RandomBundle.mkBundle 0 lens mem) (mkOffsets max 0 0) items
         = Ok (Some (b, o)) ∧
    RandomFacts.read_all (S (length items)) b (mkOffsets max 0 0) = Ok items.
Proof.
  intros Hlen Hl Hok Hfit Hmem Hmax.
  destruct (RandomFacts.rnd_append_all_ok 0 lens [] mem items max 0) as (l' & c & o & Ha & _ & H2); try done.
  simpl in Ha. eexists _, o. split; [exact Ha|].
  apply (RandomFacts.rnd_read_all_ok items 0 l' [] c max); try done; simpl; lia.
Qed.

(** a string of 64 KB or more is accepted by a random-access bundle and stored with its
    length cut to 16 bits: one of exactly 64 KB is stored as an empty item. *)
Theorem long_string_truncated b o s :
  zlen s = 65536%Z → (RandomBundle.num_items b < RandomBundle.GetMaxItems b)%Z →
  (0 ≤ current_byte_offset o ≤ max_payload_bytes o)%Z → (max_payload_bytes o < 2 ^ 32)%Z →
  RandomBundle.AppendBack_string b o s
  = Ok (true,
        RandomBundle.mkBundle (u16 (RandomBundle.num_items b + 1))
          (<[Z.to_nat (RandomBundle.num_items b) := 0%Z]> (RandomBundle.lens b))
          (RandomBundle.packed_data b),
        mkOffsets (max_payload_bytes o) (current_byte_offset o) (u16 (RandomBundle.num_items b + 1))).
Proof.
  intros Hs Hn Ho Hm. unfold RandomBundle.AppendBack_string, RandomBundle.AppendBack. rewrite Hs.
  change (u16 65536) with 0%Z. rewrite Z.add_0_r, (wrap_id 32) by (unfold in_width; lia).
  replace (RandomBundle.GetMaxItems b <? RandomBundle.num_items b + 1)%Z with false by lia.
  by replace (max_payload_bytes o <? current_byte_offset o)%Z with false by lia.
Qed.

(** * The registry of types *)

(** registering a type id that belongs to a type of another name replaces it, and only a
    second registration under the same name is refused. *)
Theorem type_collision {D} (r : TypeRegistry.registry D) id name1 name2 (f1 f2 hexdump : D) r1 :
  name1 ≠ name2 → TypeRegistry.RegisterDataObjectType r id name1 f1 = Ok r1 →
  TypeRegistry.RegisterDataObjectType r1 id name1 f1 = Throw RuntimeError ∧
  ∃ r2, TypeRegistry.RegisterDataObjectType r1 id name2 f2 = Ok r2 ∧
        TypeRegistry.DumpDataObject r2 hexdump id = (f2, true).
Proof.
  intros Hne Hr. assert (TypeRegistry.ldo_names r1 !! id = Some name1) as Hn.
  { unfold TypeRegistry.RegisterDataObjectType in Hr.
    repeat case_match; simplify_eq; simpl; apply lookup_insert_eq. }
  unfold TypeRegistry.RegisterDataObjectType. rewrite Hn. split; [by rewrite bool_decide_eq_true_2|].
  rewrite bool_decide_eq_false_2 by done. eexists. split; [done|].
  unfold TypeRegistry.DumpDataObject. simpl. by rewrite lookup_insert_eq.
Qed.

(** * Concrete packers *)

Definition sample_vars : list (variable * str) :=
  [(mkVar (lit "rows") 1 (Some (lit "1234")) 4, lit "1234");
   (mkVar (lit "label") 2 (Some (lit "a longer value")) 14, lit "a longer value");
   (mkVar (lit "n") 3 (Some []) 0, [])].

Lemma sample_vars_ok : vars_ok sample_vars.
Proof. repeat constructor; vm_compute; done. Qed.

Lemma sample_distinct ver : distinct ver sample_vars.
Proof.
  unfold distinct. case_match.
  - split; [repeat constructor; vm_compute; done|]. by apply (bool_decide_unpack _); vm_compute.
  - by apply (bool_decide_unpack _); vm_compute.
Qed.

Lemma packer_roundtrip_witness :
  ∃ o pk, new_packer (lit "old") sample_vars.*1 77 2 = Ok (mkPacker true 2 o []) ∧
    open_packer o = Ok pk ∧
    ∃ p pk', GetVarPointer pk (lit "label") = Ok (0%Z, Some p, 14%Z, 2%Z, pk') ∧
             mem_read (user o) p 14 = Ok (lit "a longer value").
Proof.
  destruct (packer_roundtrip (lit "old") 2 77 sample_vars) as (o & pk & Hn & Ho & Hf);
    [done|exact sample_vars_ok|exact (sample_distinct 2)|lia|vm_compute; done|].
  exists o, pk. split; [exact Hn|]. split; [exact Ho|].
  apply (Hf (mkVar (lit "label") 2 (Some (lit "a longer value")) 14)). set_solver.
Defined.

(** There is room for two of the three. *)
Lemma append_then_find_witness :
  ∃ p0 rcs p, new_packer_capacity [] 30 77 1 = Ok p0 ∧ append_vars p0 sample_vars.*1 = Ok (rcs, p) ∧
    length rcs = 3.
Proof.
  destruct (append_then_find [] 1 77 30 sample_vars) as (p0 & rcs & p & Hn & Ha & Hf & _);
    [done|exact sample_vars_ok|exact (sample_distinct 1)|lia..|vm_compute; done|].
  exists p0, rcs, p. split; [exact Hn|]. split; [exact Ha|]. by apply Forall2_length in Hf.
Defined.

Example append_refused_between :
  match new_packer_capacity [] 30 77 1 with
  | Ok p0 => match append_vars p0 sample_vars.*1 with Ok (rcs, _) => rcs | _ => [] end
  | _ => []
  end = [0; -1; 0]%Z.
Proof. vm_compute. done. Qed.

Lemma sequential_bundle_witness :
  ∃ b o, SequentialFacts.append_all (SequentialBundle.mkBundle 0 (replicate 20 "000"%char))
           (mkOffsets 20 0 0) [lit "one"; []; lit "two"] = Ok (Some (b, o)) ∧
    SequentialFacts.read_all 4 b (mkOffsets 20 0 0) = Ok [lit "one"; []; lit "two"].
Proof.
  apply (sequential_bundle_roundtrip (replicate 20 "000"%char) [lit "one"; []; lit "two"] 20);
    vm_compute; done.
Defined.

Lemma random_bundle_witness :
  ∃ b o, RandomFacts.append_all (RandomBundle.mkBundle 0 [9; 9; 9; 9]%Z (replicate 8 "000"%char))
           (mkOffsets 8 0 0) [lit "one"; []; lit "two"] = Ok (Some (b, o)) ∧
    RandomFacts.read_all 4 b (mkOffsets 8 0 0) = Ok [lit "one"; []; lit "two"].
Proof.
  apply (random_bundle_roundtrip (replicate 8 "000"%char) [9; 9; 9; 9]%Z [lit "one"; []; lit "two"] 8);
    try (vm_compute; done); [simpl; lia|repeat constructor; vm_compute; done].
Defined.

Lemma type_collision_witness :
  ∃ r2, TypeRegistry.RegisterDataObjectType
          (TypeRegistry.mkReg {[5%Z := lit "a"]} {[5%Z := 1]}) 5 (lit "b") 2 = Ok r2 ∧
        TypeRegistry.DumpDataObject r2 0 5 = (2, true).
Proof.
  refine (proj2 (type_collision (TypeRegistry.mkReg ∅ ∅) 5 (lit "a") (lit "b") 1 2 0 _ _ _)).
  - by vm_compute.
  - vm_compute. done.
Defined.
