(* ===== verification/ArrowObject.v ===== *)
(** Tables of Apache Arrow in data objects (src/src/faodel-arrow/ArrowDataObject.cpp, .hh).

    An object holds tables as chunks, one behind the other: a header (magic number, length, number of
    rows) and the table as a stream of the Arrow library; the meta section has the number of chunks
    and a status word.  The library is the class [Arrow]; what the code relies on is [ArrowLaws]:
    a stream is read back as the table that was written, its length is what the mock stream counts,
    and it is padded to eight bytes.

    [tables_roundtrip]: tables packed together are each read back under their numbers.
    [append_spec]: a table is appended where there is room for it, and an object that has less than the
    sixteen bytes of a chunk header left is written past its end, whatever the table.  The latter is
    the case of every object that was made for the tables it holds ([make_then_append]). *)
From S2P Require Import Prelude StringHelpers DataObject LdoBytes DataPackers.

(** * The library *)

Class Arrow := {
  table : Type;
  codec : Type;
  write_options : Type;
  num_rows : table → Z;
  (** [Codec::Create] and the options with it *)
  Codec_Create : codec → option write_options;
  (** The bytes that a stream writer puts into a buffer of a size, how many of the tables it took, and
      whether all of it, with the end of the stream, was written *)
  write_stream : write_options → list table → Z → str * nat * bool;
  (** The number of bytes a mock stream counts for a table *)
  mock_size : write_options → table → option Z;
  (** [RecordBatchStreamReader::Open] and [ToTable] *)
  read_stream : str → option table
}.

Class ArrowLaws `{Arrow} := {
  stream : write_options → list table → option str;
  concat_tables : list table → option table;
  concat_one t : concat_tables [t] = Some t;
  rows_nonneg t : (0 ≤ num_rows t)%Z;
  write_fits opts ts s n :
    stream opts ts = Some s → (zlen s ≤ n)%Z → write_stream opts ts n = (s, length ts, true);
  write_bounded opts ts n : (0 ≤ n)%Z → (zlen (write_stream opts ts n).1.1 ≤ n)%Z;
  mock_counts opts t : mock_size opts t = zlen <$> stream opts [t];
  stream_aligned opts ts s : stream opts ts = Some s → (zlen s mod 8 = 0)%Z ∧ (0 < zlen s)%Z;
  (** A reader stops at the end of the stream. *)
  read_written opts ts s rest :
    stream opts ts = Some s → read_stream (s ++ rest) = concat_tables ts
}.

(** The statuses of the library that the code gives, and those the library itself gives. *)
Inductive Status := OK | Invalid | OutOfMemory | CapacityError | IndexError | UnknownError | LibraryError.

#[global] Instance Status_eq_dec : EqDecision Status.
Proof. solve_decision. Defined.

Section arrow.
Context `{Arrow}.

Definition object_type_name : str := lit "ArrowRecordBatch".
Definition fado_type_id : Z := const_hash16 object_type_name.

Definition sizeof_fado_meta : Z := 8.
Definition sizeof_fado_chunk : Z := 16.
Definition fado_magic : Z := 0xf4D02112.

(** A null object is [None]. *)
Abbreviation fado := (option ldo_obj).

(** * Sizes and checks *)

Definition impl_of (f : fado) : option Allocation := alloc <$> f.

Definition Valid (f : fado) : bool :=
  match f with None => false | Some o => (type_id (alloc o) =? fado_type_id)%Z end.

Definition GetDataSize_fado (f : fado) : Z := GetDataSize (impl_of f).
Definition GetCapacity (f : fado) : Z := u32 (GetUserCapacity (impl_of f) - sizeof_fado_meta).
Definition GetAvailableCapacity (f : fado) : Z :=
  u32 (GetCapacity f - GetDataSize_fado f - sizeof_fado_chunk).

Definition roundupChunkSize (size : Z) : Z :=
  if negb (Z.land size 3 =? 0)%Z then u32 (Z.land size (Z.lnot 3) + 4) else size.

(** ** The meta section *)

Definition meta_field (o : ldo_obj) (off : Z) : outcome Z := bs ← mem_read (user o) off 4; Ok (unle bs).
Definition num_chunks (o : ldo_obj) : outcome Z := meta_field o 0.
Definition object_status (o : ldo_obj) : outcome Z := meta_field o 4.
Definition meta_wipe (o : ldo_obj) : outcome ldo_obj :=
  u ← mem_write (user o) 0 (le 4 0 ++ le 4 0); Ok (mkLdo (alloc o) u).

(** Where the data section starts; a null object has no sections. *)
Definition data_ptr (o : ldo_obj) : Z := meta_bytes (alloc o).
Definition the_ldo (f : fado) : outcome ldo_obj := match f with Some o => Ok o | None => Throw Undefined end.

Definition GetObjectStatus (f : fado) : outcome Z :=
  if negb (Valid f) then Ok 0%Z else o ← the_ldo f; object_status o.
Definition SetObjectStatus (f : fado) (status : Z) : outcome fado :=
  if negb (Valid f) then Ok f
  else o ← the_ldo f; u ← mem_write (user o) 4 (le 4 status); Ok (Some (mkLdo (alloc o) u)).

(** [int] of the stored number *)
Definition NumberOfTables (f : fado) : outcome Z :=
  if negb (Valid f) then Ok 0%Z else o ← the_ldo f; n ← num_chunks o; Ok (s32 n).

Definition ValidChunk (f : fado) (chunk_id : Z) : outcome bool :=
  if negb (Valid f) || (chunk_id <? 0)%Z then Ok false
  else n ← NumberOfTables f; Ok (chunk_id <? n)%Z.

(** ** Chunks *)

Definition chunk_magic (o : ldo_obj) (p : Z) : outcome Z := read_field o p 0 4.
Definition chunk_length (o : ldo_obj) (p : Z) : outcome Z := read_field o p 4 4.
Definition chunk_rows (o : ldo_obj) (p : Z) : outcome Z := read_field o p 8 8.
Definition chunk_valid (o : ldo_obj) (p : Z) : outcome bool :=
  m ← chunk_magic o p; Ok (m =? fado_magic)%Z.

Definition next_chunk (o : ldo_obj) (p : Z) : outcome Z :=
  len ← chunk_length o p; Ok (p + roundupChunkSize (u32 (sizeof_fado_chunk + len)))%Z.

Fixpoint skip_chunks (o : ldo_obj) (n : nat) (p : Z) : outcome Z :=
  match n with O => Ok p | S n => q ← next_chunk o p; skip_chunks o n q end.

(** The place of a chunk in the user section. *)
Definition locateChunk (o : ldo_obj) (chunk_id : Z) : outcome (option Z) :=
  n ← num_chunks o;
  if (chunk_id <? 0)%Z || (n <=? chunk_id)%Z then Ok None
  else p ← skip_chunks o (Z.to_nat chunk_id) (data_ptr o); Ok (Some p).

Definition validChunkOrDie (o : ldo_obj) (p : Z) : outcome () :=
  v ← chunk_valid o p; if (v : bool) then Ok () else Throw Halt.

Fixpoint sum_rows (o : ldo_obj) (n : nat) (p num_rows : Z) : outcome Z :=
  match n with
  | O => Ok num_rows
  | S n =>
      _ ← validChunkOrDie o p;
      r ← chunk_rows o p;
      p' ← next_chunk o p;
      sum_rows o n p' (u64 (num_rows + r))
  end.

Definition NumberOfRows (f : fado) : outcome Z :=
  if negb (Valid f) then Ok 0%Z
  else
    o ← the_ldo f;
    n ← NumberOfTables f;
    sum_rows o (Z.to_nat n) (data_ptr o) 0.

Definition GetPackedRecordSize (f : fado) (chunk_id : Z) : outcome Z :=
  if negb (Valid f) then Ok 0%Z
  else
    o ← the_ldo f;
    c ← locateChunk o chunk_id;
    match c with
    | None => Ok 0%Z
    | Some p => _ ← validChunkOrDie o p; chunk_length o p
    end.

Fixpoint chunks_valid (o : ldo_obj) (ids : list nat) : outcome bool :=
  match ids with
  | [] => Ok true
  | i :: ids =>
      c ← locateChunk o (Z.of_nat i);
      match c with
      | None => Throw Undefined
      | Some p =>
          len ← chunk_length o p;
          v ← (if (len =? 0)%Z then Ok false else chunk_valid o p);
          if (v : bool) then chunks_valid o ids else Ok false
      end
  end.

Definition dbgAllChunksValid (f : fado) : outcome bool :=
  if negb (Valid f) then Ok false
  else
    o ← the_ldo f;
    n ← num_chunks o;
    chunks_valid o (seq 0 (Z.to_nat (s32 n))).

(** The status and the table. *)
Definition ExtractTable (f : fado) (chunk_id : Z) : outcome (Status * option table) :=
  ok ← ValidChunk f chunk_id;
  if negb ok then Ok (IndexError, None)
  else
    o ← the_ldo f;
    c ← locateChunk o chunk_id;
    match c with
    | None => Ok (IndexError, None)
    | Some p =>
        v ← chunk_valid o p;
        if negb v then Ok (IndexError, None)
        else
          len ← chunk_length o p;
          data ← mem_read (user o) (p + sizeof_fado_chunk) len;
          match read_stream data with
          | Some t => Ok (OK, Some t)
          | None => Ok (LibraryError, None)
          end
    end.

(** * Constructors *)

Definition new_fado (garbage : str) (max_arrow_capacity : Z) : outcome fado :=
  o ← new_ldo garbage (u32 (sizeof_fado_meta + max_arrow_capacity)) sizeof_fado_meta 0 fado_type_id;
  o ← meta_wipe o;
  Ok (Some o).

Definition import_fado (import_ldo : fado) : fado := if Valid import_ldo then import_ldo else None.

(** * Appending *)

Definition GetSerializedTableSize (opts : write_options) (t : table) : option Z := mock_size opts t.

Definition total_rows (ts : list table) : Z := foldl (λ n t, u64 (n + num_rows t)) 0%Z ts.

Definition set_num_chunks (o : ldo_obj) (n : Z) : outcome ldo_obj :=
  u ← mem_write (user o) 0 (le 4 n); Ok (mkLdo (alloc o) u).

(** [ldo.ModifyUserSizes(ldo.GetMetaSize(), n)], whose result is not looked at *)
Definition resize_data (o : ldo_obj) (n : Z) : ldo_obj :=
  match (ModifyUserSizes (Some (alloc o)) (meta_bytes (alloc o)) n).2 with
  | Some a => mkLdo a (user o)
  | None => o
  end.

(** [doAppendTables]: the difference of capacities is 32 bits wide, and 64 bits wide where the
    size of a header is taken off. *)
Definition doAppendTables (o : ldo_obj) (ts : list table) (tables_size_in_bytes : Z)
    (opts : write_options) : outcome (Status * ldo_obj) :=
  let capacity := GetUserCapacity (Some (alloc o)) in
  let user_size := GetUserSize (Some (alloc o)) in
  let available_capacity := u64 (u32 (capacity - user_size) - sizeof_fado_chunk) in
  if (available_capacity <? u64 tables_size_in_bytes)%Z then Ok (CapacityError, o)
  else
    let chunk := (data_ptr o + data_bytes (alloc o))%Z in
    u ← mem_write (user o) chunk (le 4 fado_magic ++ le 4 (u32 tables_size_in_bytes) ++ le 8 0);
    match ts with
    | [] => Throw Undefined
    | _ =>
        let '(bs, k, ok) := write_stream opts ts tables_size_in_bytes in
        u ← mem_write u (chunk + sizeof_fado_chunk) bs;
        u ← mem_write u (chunk + 8) (le 8 (total_rows (take k ts)));
        let o := mkLdo (alloc o) u in
        if negb ok then Ok (LibraryError, o)
        else
          let new_chunk_size := roundupChunkSize (u32 (sizeof_fado_chunk + tables_size_in_bytes)) in
          let o := resize_data o (u32 (data_bytes (alloc o) + new_chunk_size)) in
          n ← num_chunks o;
          o ← set_num_chunks o (u32 (n + 1));
          Ok (OK, o)
    end.

Definition doAppendTable (o : ldo_obj) (t : table) (table_size_in_bytes : Z) (opts : write_options)
    : outcome (Status * ldo_obj) :=
  doAppendTables o [t] table_size_in_bytes opts.

(** The constructor for one table; the library stops the process where it cannot serialize it. *)
Definition new_fado_table (garbage : str) (t : table) (c : codec) : outcome fado :=
  match Codec_Create c with
  | None => Throw Exit
  | Some opts =>
      match GetSerializedTableSize opts t with
      | None => Throw Exit
      | Some n =>
          o ← new_ldo garbage (u32 (sizeof_fado_meta + sizeof_fado_chunk + n)) sizeof_fado_meta 0 fado_type_id;
          o ← meta_wipe o;
          '(s, o) ← doAppendTable o t n opts;
          Ok (if decide (s = OK) then Some o else None)
      end
  end.

Definition Append (f : fado) (t : table) (c : codec) : outcome (Status * fado) :=
  if negb (Valid f) then Ok (Invalid, f)
  else
    match Codec_Create c with
    | None => Ok (LibraryError, f)
    | Some opts =>
        match GetSerializedTableSize opts t with
        | None => Ok (LibraryError, f)
        | Some n =>
            o ← the_ldo f;
            '(s, o) ← doAppendTable o t n opts;
            Ok (s, Some o)
        end
    end.

Definition ENOMEM : Z := 12.
Definition EINVAL : Z := 22.

(** [doAppendChunkStrip] of the data section of an object *)
Definition doAppendChunkStrip (f : fado) (src : ldo_obj) (strip_bytes strip_chunks : Z)
    : outcome (Z * fado) :=
  if (strip_bytes =? 0)%Z || (strip_chunks =? 0)%Z then Ok (0%Z, f)
  else
    let available_capacity := u32 (GetUserCapacity (impl_of f) - GetUserSize (impl_of f)) in
    if (available_capacity <? strip_bytes)%Z then Ok (ENOMEM, f)
    else
      v ← chunk_valid src (data_ptr src);
      if negb v then Ok (EINVAL, f)
      else
        o ← the_ldo f;
        strip ← mem_read (user src) (data_ptr src) strip_bytes;
        u ← mem_write (user o) (data_ptr o + data_bytes (alloc o)) strip;
        let o := resize_data (mkLdo (alloc o) u) (u32 (data_bytes (alloc o) + strip_bytes)) in
        n ← num_chunks o;
        o ← set_num_chunks o (u32 (n + strip_chunks));
        Ok (0%Z, Some o).

Definition Append_fado (f src_fado : fado) : outcome (Status * fado) :=
  if negb (Valid src_fado) then Ok (OK, f)
  else
    src_tables ← NumberOfTables src_fado;
    if (src_tables =? 0)%Z then Ok (OK, f)
    else
      src ← the_ldo src_fado;
      '(rc, f) ← doAppendChunkStrip f src (data_bytes (alloc src)) (u32 src_tables);
      Ok (if (rc =? 0)%Z then OK
          else if (rc =? ENOMEM)%Z then OutOfMemory
          else if (rc =? EINVAL)%Z then Invalid else UnknownError, f).

Definition Wipe (f : fado) (zero_out_data : bool) : outcome fado :=
  o ← the_ldo f;
  o ← (if zero_out_data then WipeData o else Ok o);
  o ← meta_wipe o;
  Ok (Some (resize_data o 0)).

(** * The makers *)

Definition Make (garbage : str) (t : table) (c : codec) : outcome (Status * fado) :=
  match Codec_Create c with
  | None => Ok (LibraryError, None)
  | Some opts =>
      match GetSerializedTableSize opts t with
      | None => Ok (LibraryError, None)
      | Some n =>
          f ← new_fado garbage (u32 (sizeof_fado_chunk + n));
          o ← the_ldo f;
          '(s, o) ← doAppendTable o t n opts;
          Ok (s, if decide (s = OK) then Some o else None)
      end
  end.

Fixpoint table_sizes (opts : write_options) (ts : list table) : option (list Z) :=
  match ts with
  | [] => Some []
  | t :: ts =>
      n ← GetSerializedTableSize opts t;
      ns ← table_sizes opts ts;
      Some (n :: ns)
  end.

Fixpoint append_each (o : ldo_obj) (opts : write_options) (tns : list (table * Z))
    : outcome (Status * fado) :=
  match tns with
  | [] => Ok (OK, Some o)
  | (t, n) :: tns =>
      '(s, o) ← doAppendTable o t n opts;
      if decide (s = OK) then append_each o opts tns else Ok (s, None)
  end.

Definition Make_tables (garbage : str) (ts : list table) (c : codec) : outcome (Status * fado) :=
  match Codec_Create c with
  | None => Ok (LibraryError, None)
  | Some opts =>
      match table_sizes opts ts with
      | None => Ok (LibraryError, None)
      | Some ns =>
          f ← new_fado garbage (u32 (foldr (λ n m, sizeof_fado_chunk + n + m)%Z 0%Z ns));
          o ← the_ldo f;
          append_each o opts (zip ts ns)
      end
  end.

Fixpoint append_fados (f : fado) (fados : list fado) : outcome (Status * fado) :=
  match fados with
  | [] => Ok (OK, f)
  | src :: fados =>
      '(s, f) ← Append_fado f src;
      if decide (s = OK) then append_fados f fados else Ok (s, None)
  end.

Definition Make_fados (garbage : str) (fados : list fado) : outcome (Status * fado) :=
  let size := foldl (λ n f, u32 (n + GetDataSize_fado f)) 0%Z fados in
  if (size =? 0)%Z then Ok (OK, None)
  else
    f ← new_fado garbage size;
    append_fados f fados.

Definition MakeMerged (garbage : str) (ts : list table) (c : codec) : outcome (Status * fado) :=
  match ts with
  | [] => Ok (OK, None)
  | _ =>
      match Codec_Create c with
      | None => Ok (LibraryError, None)
      | Some opts =>
          match table_sizes opts ts with
          | None => Ok (LibraryError, None)
          | Some ns =>
              let total_size := foldr Z.add 0%Z ns in
              f ← new_fado garbage (u32 (sizeof_fado_chunk + total_size));
              o ← the_ldo f;
              '(s, o) ← doAppendTables o ts total_size opts;
              Ok (s, if decide (s = OK) then Some o else None)
          end
      end
  end.

End arrow.

(** * What an object holds *)

Lemma write_at (u a b c b' : str) off :
  u = a ++ b ++ c → off = zlen a → zlen b' = zlen b → mem_write u off b' = Ok (a ++ b' ++ c).
Proof. intros -> -> Hb. apply write_middle. by apply zlen_length. Qed.

Lemma roundup_id n : (n mod 4 = 0)%Z → roundupChunkSize n = n.
Proof.
  intros H. unfold roundupChunkSize. change 3%Z with (Z.ones 2). rewrite Z.land_ones by lia.
  change (2 ^ 2)%Z with 4%Z. by rewrite H.
Qed.

Section holding.
Context `{ArrowLaws}.

Definition chunk_bytes (data : str) (rows : Z) : str :=
  le 4 fado_magic ++ le 4 (zlen data) ++ le 8 rows ++ data.

(** A chunk with a table and its number of rows. *)
Definition is_chunk (it : table * Z) (c : str) : Prop :=
  ∃ data, c = chunk_bytes data it.2 ∧ read_stream data = Some it.1 ∧ (0 < zlen data)%Z ∧
          (zlen data mod 4 = 0)%Z ∧ in_width 64 it.2.

Record holds_tables (its : list (table * Z)) (o : ldo_obj) : Prop := {
  ht_type : type_id (alloc o) = fado_type_id;
  ht_meta : meta_bytes (alloc o) = sizeof_fado_meta;
  ht_cap : zlen (user o) = alloc_GetUserCapacity (alloc o);
  ht_count : (Z.of_nat (length its) < 2 ^ 31)%Z;
  ht_user : ∃ status cs rest, Forall2 is_chunk its cs ∧ data_bytes (alloc o) = zlen (concat cs) ∧
    user o = (le 4 (Z.of_nat (length its)) ++ le 4 status) ++ concat cs ++ rest
}.

(** The bytes behind the chunks. *)
Definition room (o : ldo_obj) : Z := (zlen (user o) - sizeof_fado_meta - data_bytes (alloc o))%Z.

Lemma cap_width a : in_width 32 (alloc_GetUserCapacity a).
Proof. by apply wrap_in_width. Qed.

Lemma chunk_zlen it c : is_chunk it c → (16 < zlen c)%Z ∧ (zlen c mod 4 = 0)%Z.
Proof.
  intros (data & -> & _ & Hpos & Hmod & _). unfold chunk_bytes. rewrite !zlen_app, !zlen_le.
  split; [lia|]. change (Z.of_nat 4) with 4%Z. change (Z.of_nat 8) with 8%Z.
  replace (4 + (4 + (8 + zlen data)))%Z with (zlen data + 4 * 4)%Z by lia. by rewrite Z.mod_add.
Qed.

Lemma sizes its o : holds_tables its o →
  (0 ≤ data_bytes (alloc o))%Z ∧ (0 ≤ room o)%Z ∧ (zlen (user o) < 2 ^ 32)%Z ∧
  GetUserCapacity (Some (alloc o)) = zlen (user o) ∧
  GetUserSize (Some (alloc o)) = (8 + data_bytes (alloc o))%Z.
Proof.
  intros [Ht Hm Hc Hn (status & cs & rest & Hcs & Hd & Hu)]. pose proof (cap_width (alloc o)) as [_ Hw].
  rewrite <-Hc in Hw. unfold room. rewrite Hd.
  assert (zlen (user o) = 8 + zlen (concat cs) + zlen rest)%Z as Hz.
  { rewrite Hu, !zlen_app, !zlen_le. lia. }
  pose proof (zlen_nonneg (concat cs)). pose proof (zlen_nonneg rest). unfold sizeof_fado_meta in *.
  split_and!; try lia; [done|]. simpl. rewrite Hm, Hd. apply wrap_id. unfold in_width. lia.
Qed.

Lemma num_chunks_ok its o : holds_tables its o → num_chunks o = Ok (Z.of_nat (length its)).
Proof.
  intros [_ _ _ Hn (status & cs & rest & _ & _ & Hu)]. unfold num_chunks, meta_field. rewrite Hu.
  rewrite (read_middle' _ [] (le 4 (Z.of_nat (length its))) (le 4 status ++ concat cs ++ rest));
    [|by rewrite <-!app_assoc|done|by rewrite zlen_le].
  cbn [mbind outcome_bind]. rewrite unle_le; [done|]. simpl. lia.
Qed.

Lemma NumberOfTables_ok its o : holds_tables its o → NumberOfTables (Some o) = Ok (Z.of_nat (length its)).
Proof.
  intros Ho. unfold NumberOfTables, Valid. rewrite (ht_type _ _ Ho), Z.eqb_refl. cbn [negb the_ldo mbind outcome_bind].
  rewrite (num_chunks_ok its o Ho). cbn [mbind outcome_bind]. f_equal. unfold s32.
  pose proof (ht_count _ _ Ho). rewrite wrap_id by (unfold in_width; lia). by replace (_ <? 2 ^ 31)%Z with true by lia.
Qed.

(** The room a call of [doAppendTables] sees. *)
Lemma available its o : holds_tables its o →
  u64 (u32 (GetUserCapacity (Some (alloc o)) - GetUserSize (Some (alloc o))) - sizeof_fado_chunk)
  = if (16 <=? room o)%Z then (room o - 16)%Z else (2 ^ 64 + room o - 16)%Z.
Proof.
  intros Ho. destruct (sizes its o Ho) as (Hd0 & Hr0 & Hu0 & -> & ->).
  replace (zlen (user o) - (8 + data_bytes (alloc o)))%Z with (room o) by (unfold room, sizeof_fado_meta; lia).
  assert (room o < 2 ^ 32)%Z by (unfold room, sizeof_fado_meta; lia).
  rewrite (wrap_id 32) by (unfold in_width; lia). unfold sizeof_fado_chunk.
  destruct (Z.leb_spec 16 (room o)); [apply wrap_id; unfold in_width; lia|].
  unfold wrap. rewrite <-(Z.mod_add _ 1) by lia. rewrite Z.mod_small; lia.
Qed.

Lemma total_rows_width ts : in_width 64 (total_rows ts).
Proof.
  unfold total_rows. assert (in_width 64 0) as Hw0 by (unfold in_width; lia). revert Hw0. generalize 0%Z.
  induction ts as [|t ts IH]; intros n Hn; simpl; [done|]. apply IH. by apply wrap_in_width.
Qed.

(** The three writes of a chunk. *)
Lemma chunk_writes a rest n bs rows :
  (16 + n ≤ zlen rest)%Z → (zlen bs ≤ n)%Z → (n < 2 ^ 32)%Z →
  ∃ u1 u2 z rest', zlen (bs ++ z) = n ∧ (zlen rest = 16 + n + zlen rest')%Z ∧
    mem_write (a ++ rest) (zlen a) (le 4 fado_magic ++ le 4 (u32 n) ++ le 8 0) = Ok u1 ∧
    mem_write u1 (zlen a + sizeof_fado_chunk) bs = Ok u2 ∧
    mem_write u2 (zlen a + 8) (le 8 rows) = Ok (a ++ chunk_bytes (bs ++ z) rows ++ rest').
Proof.
  intros Hroom Hbs Hn. pose proof (zlen_nonneg bs).
  destruct (zsplit rest 16) as (x & rest1 & -> & Hx); [lia|]. rewrite zlen_app in Hroom.
  destruct (zsplit rest1 (zlen bs)) as (y & rest2 & -> & Hy); [lia|]. rewrite zlen_app in Hroom.
  destruct (zsplit rest2 (n - zlen bs)) as (z & rest3 & -> & Hz); [lia|].
  set (h := le 4 fado_magic ++ le 4 (u32 n)).
  assert (zlen h = 8)%Z as Hh by (unfold h; rewrite zlen_app, !zlen_le; lia).
  exists (a ++ (h ++ le 8 0) ++ y ++ z ++ rest3), (a ++ (h ++ le 8 0) ++ bs ++ z ++ rest3), z, rest3.
  split_and!; [rewrite zlen_app; lia|rewrite !zlen_app; lia| | |].
  - rewrite (app_assoc (le 4 fado_magic)). fold h. apply write_at with x; [done|done|].
    rewrite zlen_app, Hh, zlen_le. lia.
  - rewrite (write_at _ (a ++ h ++ le 8 0) y (z ++ rest3)); [by rewrite <-!app_assoc|by rewrite <-!app_assoc| |done].
    rewrite !zlen_app, Hh, zlen_le. unfold sizeof_fado_chunk. lia.
  - rewrite (write_at _ (a ++ h) (le 8 0) (bs ++ z ++ rest3)).
    + unfold chunk_bytes, h. rewrite zlen_app, Hz, (wrap_id 32) by (unfold in_width; lia).
      replace (zlen bs + (n - zlen bs))%Z with n by lia. by rewrite <-!app_assoc.
    + by rewrite <-!app_assoc.
    + rewrite zlen_app. lia.
    + by rewrite !zlen_le.
Qed.

(** Chunks that were written behind the others are taken in. *)
Lemma take_in its o its' cs cs' status rest rest' :
  holds_tables its o → Forall2 is_chunk its cs → Forall2 is_chunk its' cs' →
  data_bytes (alloc o) = zlen (concat cs) →
  user o = (le 4 (Z.of_nat (length its)) ++ le 4 status) ++ concat cs ++ rest →
  zlen rest = (zlen (concat cs') + zlen rest')%Z → (Z.of_nat (length its + length its') < 2 ^ 31)%Z →
  let u := (le 4 (Z.of_nat (length its)) ++ le 4 status) ++ concat cs ++ concat cs' ++ rest' in
  let o1 := resize_data (mkLdo (alloc o) u) (u32 (data_bytes (alloc o) + zlen (concat cs'))) in
  ∃ o', (n ← num_chunks o1; set_num_chunks o1 (u32 (n + Z.of_nat (length its')))) = Ok o' ∧
        holds_tables (its ++ its') o' ∧ room o' = (room o - zlen (concat cs'))%Z.
Proof.
  intros Ho Hcs Hcs' Hd Hu Hrest Hcnt u o1. destruct (sizes its o Ho) as (Hd0 & Hr0 & Hu32 & _ & _).
  pose proof Ho as [Hty Hm Hc _ _]. pose proof (zlen_nonneg (concat cs')). pose proof (zlen_nonneg rest').
  assert (zlen (user o) = 8 + zlen (concat cs) + zlen (concat cs') + zlen rest')%Z as Hz.
  { rewrite Hu, !zlen_app, !zlen_le. lia. }
  assert (o1 = mkLdo (mkAllocation (ref_count (alloc o)) (allocated_bytes (alloc o)) (padding (alloc o))
            (user_data_segments (alloc o)) fado_type_id sizeof_fado_meta (zlen (concat cs) + zlen (concat cs'))) u) as ->.
  { unfold o1, resize_data. cbn [alloc user]. rewrite Hm, Hd, wrap_id by (unfold in_width; lia).
    unfold ModifyUserSizes. rewrite <-Hc. replace (zlen (user o) <? _)%Z with false by (unfold sizeof_fado_meta; lia).
    cbn [snd]. by rewrite Hty. }
  set (tail := le 4 status ++ concat cs ++ concat cs' ++ rest').
  assert (u = [] ++ le 4 (Z.of_nat (length its)) ++ tail) as Eu by (unfold u, tail; by rewrite <-!app_assoc).
  unfold num_chunks, meta_field, set_num_chunks. cbn [user alloc].
  rewrite (read_middle' u [] (le 4 (Z.of_nat (length its))) tail _ _ Eu) by (by rewrite ?zlen_le).
  cbn [mbind outcome_bind]. rewrite unle_le by (simpl; lia). rewrite (wrap_id 32) by (unfold in_width; lia).
  rewrite (write_at u [] (le 4 (Z.of_nat (length its))) tail _ _ Eu) by (by rewrite ?zlen_le).
  cbn [mbind outcome_bind app]. eexists. split; [done|].
  assert (zlen (le 4 (Z.of_nat (length its) + Z.of_nat (length its')) ++ tail) = zlen (user o)) as Hlen.
  { unfold tail. rewrite !zlen_app, !zlen_le. lia. }
  split; [|unfold room; cbn [user alloc data_bytes]; rewrite Hlen, Hd; lia].
  split; cbn [user alloc type_id meta_bytes data_bytes]; [done|done|by rewrite Hlen, Hc|by rewrite length_app|].
  exists status, (cs ++ cs'), rest'. rewrite concat_app, zlen_app, length_app. split_and!; [by apply Forall2_app|done|].
  unfold tail. rewrite Nat2Z.inj_add. by rewrite <-!app_assoc.
Qed.

(** A chunk written behind the others. *)
Lemma append_tables_ok its o ts s t n opts :
  holds_tables its o → stream opts ts = Some s → ts ≠ [] → concat_tables ts = Some t →
  (zlen s ≤ n)%Z → (n mod 4 = 0)%Z → (n < 2 ^ 63)%Z → (Z.of_nat (length its) + 1 < 2 ^ 31)%Z →
  if (16 <=? room o)%Z then
    if (n <=? room o - 16)%Z then
      ∃ o', doAppendTables o ts n opts = Ok (OK, o') ∧ holds_tables (its ++ [(t, total_rows ts)]) o' ∧
            room o' = (room o - (16 + n))%Z
    else doAppendTables o ts n opts = Ok (CapacityError, o)
  else doAppendTables o ts n opts = Throw Undefined.
Proof.
  intros Ho Hs Hts Ht Hsn Hmod Hn63 Hcnt. destruct (sizes its o Ho) as (Hd0 & Hr0 & Hu32 & _ & _).
  destruct (stream_aligned _ _ _ Hs) as [_ Hs0].
  unfold doAppendTables. cbv zeta. rewrite (available its o Ho), (wrap_id 64 n) by (unfold in_width; lia).
  pose proof Ho as [Hty Hm Hc Hn (status & cs & rest & Hcs & Hd & Hu)].
  set (a := (le 4 (Z.of_nat (length its)) ++ le 4 status) ++ concat cs).
  assert (zlen a = data_ptr o + data_bytes (alloc o))%Z as Ha.
  { unfold a, data_ptr. rewrite Hm, Hd, !zlen_app, !zlen_le. unfold sizeof_fado_meta. lia. }
  assert (user o = a ++ rest) as Hua by (unfold a; by rewrite <-!app_assoc).
  assert (room o = zlen rest) as Hroom.
  { unfold room. rewrite Hua, zlen_app, Ha. unfold data_ptr. rewrite Hm. lia. }
  rewrite <-Ha, Hua. destruct (Z.leb_spec 16 (room o)) as [H16|H16].
  2:{ replace (2 ^ 64 + room o - 16 <? n)%Z with false by lia. unfold mem_write.
      assert (in_bounds (a ++ rest) (zlen a) (zlen (le 4 fado_magic ++ le 4 (u32 n) ++ le 8 0)) = false) as ->.
      { apply not_true_is_false. rewrite in_bounds_spec, !zlen_app, !zlen_le. lia. }
      done. }
  destruct (Z.leb_spec n (room o - 16)) as [Hfit|Hno].
  2:{ by replace (room o - 16 <? n)%Z with true by lia. }
  replace (room o - 16 <? n)%Z with false by lia.
  assert (16 + n < 2 ^ 32)%Z by (unfold room, sizeof_fado_meta in *; lia).
  destruct (chunk_writes a rest n s (total_rows ts)) as (u1 & u2 & z & rest' & Hz & Hr & E1 & E2 & E3); [lia|lia|lia|].
  rewrite E1. cbn [mbind outcome_bind]. destruct ts as [|t0 ts0]; [done|]. set (tl := t0 :: ts0) in *.
  rewrite (write_fits opts tl s n Hs Hsn), E2. cbn [mbind outcome_bind]. rewrite take_ge by done.
  rewrite E3. cbn [mbind outcome_bind negb alloc]. unfold sizeof_fado_chunk.
  rewrite (wrap_id 32 (16 + n)) by (unfold in_width; lia).
  rewrite roundup_id by (replace (16 + n)%Z with (n + 4 * 4)%Z by lia; by rewrite Z.mod_add).
  set (c := chunk_bytes (s ++ z) (total_rows tl)).
  assert (zlen (concat [c]) = 16 + n)%Z as Hzc.
  { cbn [concat]. rewrite app_nil_r. unfold c, chunk_bytes. rewrite !zlen_app, !zlen_le. rewrite zlen_app in Hz. lia. }
  destruct (take_in its o [(t, total_rows tl)] cs [c] status rest rest') as (o' & Eo & Hho & Hroom'); try done.
  { constructor; [|constructor]. exists (s ++ z). rewrite (read_written opts tl s z Hs), Hz.
    split_and!; try done; [lia|apply total_rows_width]. }
  { lia. } { cbn [length]. lia. }
  exists o'. rewrite Hzc in Eo, Hroom'. split_and!; [|done|done].
  cbn [concat app] in Eo. rewrite app_nil_r in Eo. change (Z.of_nat (length [(t, total_rows tl)])) with 1%Z in Eo. unfold a. rewrite <-app_assoc.
  destruct (num_chunks _) as [k|e] in Eo |- *; cbn [mbind outcome_bind] in Eo |- *; [|done].
  by rewrite Eo.
Qed.

(** ** Reading *)

(** What is found at a chunk. *)
Lemma chunk_fields o a it c r :
  user o = a ++ c ++ r → is_chunk it c → (zlen (user o) < 2 ^ 32)%Z →
  chunk_valid o (zlen a) = Ok true ∧ chunk_rows o (zlen a) = Ok it.2 ∧
  next_chunk o (zlen a) = Ok (zlen a + zlen c)%Z ∧
  ∃ data, chunk_length o (zlen a) = Ok (zlen data) ∧ (0 < zlen data)%Z ∧
    mem_read (user o) (zlen a + sizeof_fado_chunk) (zlen data) = Ok data ∧ read_stream data = Some it.1.
Proof.
  intros Hu Hc Hw. destruct (chunk_zlen it c Hc) as [Hc16 Hc4]. destruct Hc as (data & -> & Hread & Hpos & Hmod & Hrows).
  unfold chunk_bytes in *. rewrite Hu, !zlen_app, !zlen_le in Hw. pose proof (zlen_nonneg a). pose proof (zlen_nonneg r).
  set (h1 := le 4 fado_magic) in *. set (h2 := le 4 (zlen data)) in *. set (h3 := le 8 it.2) in *.
  assert (zlen h1 = 4 ∧ zlen h2 = 4 ∧ zlen h3 = 8)%Z as (E1 & E2 & E3) by (unfold h1, h2, h3; by rewrite !zlen_le).
  assert (chunk_length o (zlen a) = Ok (zlen data)) as Hlen.
  { apply (read_field_at o _ 4 4 4 a h1 h2 (h3 ++ data ++ r)); try done.
    all: first [rewrite Hu; by rewrite <-!app_assoc | simpl; lia]. }
  split_and!.
  - unfold chunk_valid, chunk_magic. rewrite (read_field_at o (zlen a) 0 4 4 a [] h1 (h2 ++ h3 ++ data ++ r) fado_magic);
      try done. all: rewrite Hu; by rewrite <-!app_assoc.
  - apply (read_field_at o _ 8 8 8 a (h1 ++ h2) h3 (data ++ r)); try done.
    all: first [rewrite Hu; by rewrite <-!app_assoc | rewrite zlen_app; lia].
  - unfold next_chunk. rewrite Hlen. cbn [mbind outcome_bind]. f_equal. unfold sizeof_fado_chunk.
    rewrite (wrap_id 32) by (unfold in_width; lia). rewrite !zlen_app, E1, E2, E3 in Hc4 |- *.
    replace (4 + (4 + (8 + zlen data)))%Z with (16 + zlen data)%Z in * by lia. by rewrite roundup_id.
  - exists data. split_and!; [done|done| |done].
    apply (read_middle' _ (a ++ h1 ++ h2 ++ h3) data r); [rewrite Hu; by rewrite <-!app_assoc| |done].
    rewrite !zlen_app. unfold sizeof_fado_chunk. lia.
Qed.

(** The place of a chunk. *)
Lemma skip_chunks_ok o its cs a r i :
  user o = a ++ concat cs ++ r → Forall2 is_chunk its cs → (zlen (user o) < 2 ^ 32)%Z → i ≤ length cs →
  skip_chunks o i (zlen a) = Ok (zlen (a ++ concat (take i cs))).
Proof.
  intros Hu Hcs Hw. revert a i Hu. induction Hcs as [|it c its cs Hc _ IH]; intros a i Hu Hi.
  - simpl in Hi. assert (i = 0) as -> by lia. simpl. by rewrite app_nil_r.
  - destruct i as [|i]; [simpl; by rewrite app_nil_r|]. cbn [skip_chunks concat app] in *.
    rewrite <-app_assoc in Hu. destruct (chunk_fields o a it c (concat cs ++ r) Hu Hc Hw) as (_ & _ & -> & _).
    cbn [mbind outcome_bind]. rewrite <-zlen_app. rewrite (IH (a ++ c)); [|by rewrite <-app_assoc|simpl in Hi; lia].
    cbn [take concat]. by rewrite <-app_assoc.
Qed.

Lemma locateChunk_ok its o i it :
  holds_tables its o → its !! i = Some it →
  ∃ a c r, locateChunk o (Z.of_nat i) = Ok (Some (zlen a)) ∧ user o = a ++ c ++ r ∧ is_chunk it c.
Proof.
  intros Ho Hit. destruct (sizes its o Ho) as (_ & _ & Hw & _). pose proof (num_chunks_ok its o Ho) as Hn.
  pose proof Ho as [_ Hm _ _ (status & cs & rest & Hcs & _ & Hu)].
  pose proof (lookup_lt_Some _ _ _ Hit) as Hlt. destruct (Forall2_lookup_l _ _ _ _ _ Hcs Hit) as (c & Hc & Hisc).
  pose proof (Forall2_length _ _ _ Hcs) as Hl. set (hd := le 4 _ ++ le 4 status) in Hu.
  assert (zlen hd = data_ptr o) as Hhd.
  { unfold data_ptr, hd. rewrite Hm, zlen_app, !zlen_le. done. }
  exists (hd ++ concat (take i cs)), c, (concat (drop (S i) cs) ++ rest). split_and!; [| |done].
  - unfold locateChunk. rewrite Hn. cbn [mbind outcome_bind].
    replace (Z.of_nat i <? 0)%Z with false by lia. replace (Z.of_nat (length its) <=? Z.of_nat i)%Z with false by lia.
    cbn [orb]. rewrite Nat2Z.id, <-Hhd, (skip_chunks_ok o its cs hd rest i) by (done || lia). done.
  - rewrite Hu, <-(take_drop_middle cs i c Hc) at 1. rewrite concat_app. cbn [concat]. by rewrite <-!app_assoc.
Qed.

(** A table is read back under its number, and numbers outside of the range are refused. *)
Lemma ExtractTable_ok its o i :
  holds_tables its o → (Z.of_nat i < 2 ^ 31)%Z →
  ExtractTable (Some o) (Z.of_nat i)
  = Ok (match its !! i with Some it => (OK, Some it.1) | None => (IndexError, None) end).
Proof.
  intros Ho Hi. destruct (sizes its o Ho) as (_ & _ & Hw & _). unfold ExtractTable, ValidChunk, Valid.
  rewrite (ht_type _ _ Ho), Z.eqb_refl. cbn [negb orb]. replace (Z.of_nat i <? 0)%Z with false by lia. cbn [negb orb].
  rewrite (NumberOfTables_ok its o Ho). cbn [mbind outcome_bind].
  destruct (its !! i) as [it|] eqn:Hit.
  2:{ apply lookup_ge_None in Hit. by replace (Z.of_nat i <? _)%Z with false by lia. }
  pose proof (lookup_lt_Some _ _ _ Hit). replace (Z.of_nat i <? _)%Z with true by lia. cbn [negb the_ldo mbind outcome_bind].
  destruct (locateChunk_ok its o i it Ho Hit) as (a & c & r & -> & Hu & Hc). cbn [mbind outcome_bind].
  destruct (chunk_fields o a it c r Hu Hc Hw) as (-> & _ & _ & data & -> & _ & Hrd & Hread).
  cbn [mbind outcome_bind negb]. rewrite Hrd. cbn [mbind outcome_bind]. by rewrite Hread.
Qed.

Lemma sum_rows_ok o its cs a r n :
  user o = a ++ concat cs ++ r → Forall2 is_chunk its cs → (zlen (user o) < 2 ^ 32)%Z →
  sum_rows o (length its) (zlen a) n = Ok (foldl (λ n it, u64 (n + it.2)) n its).
Proof.
  intros Hu Hcs Hw. revert a n Hu. induction Hcs as [|it c its cs Hc _ IH]; intros a n Hu; [done|].
  cbn [length sum_rows concat foldl] in *. rewrite <-app_assoc in Hu. unfold validChunkOrDie.
  destruct (chunk_fields o a it c (concat cs ++ r) Hu Hc Hw) as (-> & -> & -> & _).
  cbn [mbind outcome_bind]. rewrite <-zlen_app. apply IH. by rewrite <-app_assoc.
Qed.

Lemma NumberOfRows_ok its o :
  holds_tables its o → NumberOfRows (Some o) = Ok (foldl (λ n it, u64 (n + it.2)) 0%Z its).
Proof.
  intros Ho. destruct (sizes its o Ho) as (_ & _ & Hw & _). unfold NumberOfRows, Valid.
  rewrite (ht_type _ _ Ho), Z.eqb_refl. cbn [negb the_ldo mbind outcome_bind].
  rewrite (NumberOfTables_ok its o Ho). cbn [mbind outcome_bind]. rewrite Nat2Z.id.
  pose proof Ho as [_ Hm _ _ (status & cs & rest & Hcs & _ & Hu)]. set (hd := le 4 _ ++ le 4 status) in Hu.
  assert (data_ptr o = zlen hd) as -> by (unfold data_ptr, hd; by rewrite Hm, zlen_app, !zlen_le).
  by apply (sum_rows_ok o its cs hd rest).
Qed.

(** ** New objects *)

Lemma new_ldo_size garbage total meta data tag o :
  (0 ≤ meta)%Z → (0 ≤ data)%Z → (meta + data ≤ total)%Z → (total + 60 < 2 ^ 32)%Z →
  new_ldo garbage total meta data tag = Ok o → zlen (user o) = (total + ldo_padding meta data)%Z.
Proof.
  intros Hm Hd Hs Hf. unfold new_ldo.
  rewrite new_allocation_fits by (done || (unfold fits, sizeof_Allocation; lia)). cbn [mbind outcome_bind]. intros [= <-]. cbn [user]. pose proof (ldo_padding_range meta data) as Hp.
  set (a := setHeader _ _ _ _ _ _).
  assert (allocated_bytes a = total + ldo_padding meta data + sizeof_Allocation)%Z as Ha.
  { unfold a. simpl. unfold sizeof_Allocation. unwrap. done. }
  rewrite zlen_fresh; rewrite Ha; unfold sizeof_Allocation, offsetof_user; lia.
Qed.

Lemma new_fado_ok garbage cap :
  (0 ≤ cap)%Z → (cap + 68 < 2 ^ 32)%Z →
  ∃ o, new_fado garbage cap = Ok (Some o) ∧ holds_tables [] o ∧ (cap ≤ room o ≤ cap + 4)%Z.
Proof.
  intros Hcap0 Hcap. unfold new_fado, sizeof_fado_meta. rewrite (wrap_id 32) by (unfold in_width; lia).
  destruct (new_ldo_ok garbage (8 + cap) 8 0 fado_type_id) as (o & E & Ho & Hm & Hd & Ht & Hu);
    [lia|lia|by vm_compute|lia|lia|].
  pose proof (new_ldo_size garbage (8 + cap) 8 0 fado_type_id o ltac:(lia) ltac:(lia) ltac:(lia) ltac:(lia) E) as Hz.
  pose proof (ldo_padding_range 8 0) as Hp. rewrite E. cbn [mbind outcome_bind].
  destruct (zsplit (user o) 8) as (x & r & Hx & Hzx); [lia|]. unfold meta_wipe.
  rewrite (write_at (user o) [] x r _ 0 Hx) by (by rewrite ?zlen_app, ?zlen_le, ?Hzx).
  cbn [mbind outcome_bind app]. eexists. split; [done|].
  assert (zlen ((le 4 0 ++ le 4 0) ++ r) = zlen (user o)) as Hl.
  { rewrite Hx, !zlen_app, !zlen_le, Hzx. done. }
  split; [|unfold room, sizeof_fado_meta; cbn [user alloc]; rewrite Hl, Hd, Hz; lia].
  split; cbn [user alloc]; try done.
  - rewrite Hl. destruct Ho as [_ _ _ _ Ha Hlen _]. unfold alloc_GetUserCapacity. rewrite Hlen.
    rewrite wrap_id; [done|]. unfold in_width, offsetof_user in *. lia.
  - by exists 0%Z, [], r.
Qed.

(** ** Appending one table *)

Definition one_table (t : table) : table * Z := (t, total_rows [t]).

Lemma stream_mod opts ts bs : stream opts ts = Some bs → (zlen bs mod 4 = 0)%Z.
Proof.
  intros Hs. destruct (stream_aligned _ _ _ Hs) as [H8 _]. apply Z.mod_divide in H8; [|done].
  apply Z.mod_divide; [done|]. etrans; [|exact H8]. by exists 2%Z.
Qed.

Lemma append_table_ok its o t bs opts :
  holds_tables its o → stream opts [t] = Some bs → (zlen bs < 2 ^ 63)%Z →
  (Z.of_nat (length its) + 1 < 2 ^ 31)%Z →
  if (16 <=? room o)%Z then
    if (zlen bs <=? room o - 16)%Z then
      ∃ o', doAppendTable o t (zlen bs) opts = Ok (OK, o') ∧ holds_tables (its ++ [one_table t]) o' ∧
            room o' = (room o - (16 + zlen bs))%Z
    else doAppendTable o t (zlen bs) opts = Ok (CapacityError, o)
  else doAppendTable o t (zlen bs) opts = Throw Undefined.
Proof.
  intros Ho Hs Hn Hc. apply (append_tables_ok its o [t] bs t); try done; [apply concat_one|by eapply stream_mod].
Qed.

(** C38: a table appended to an object with room for it is held behind the others, and each table is
    read back under its number; a table that does not fit is refused and the object stays as it was;
    but in an object with less than the sixteen bytes of a chunk header left the difference that
    is compared wraps around, and every table is taken for one that fits and written past
    the end of the object. *)
Theorem append_spec its o t c opts bs :
  holds_tables its o → Codec_Create c = Some opts → stream opts [t] = Some bs → (zlen bs < 2 ^ 63)%Z →
  (Z.of_nat (length its) + 1 < 2 ^ 31)%Z →
  if (16 <=? room o)%Z then
    if (zlen bs <=? room o - 16)%Z then
      ∃ o', Append (Some o) t c = Ok (OK, Some o') ∧ holds_tables (its ++ [one_table t]) o' ∧
        (∀ i, (Z.of_nat i < 2 ^ 31)%Z → ExtractTable (Some o') (Z.of_nat i)
           = Ok (match (its.*1 ++ [t]) !! i with Some t' => (OK, Some t') | None => (IndexError, None) end))
    else Append (Some o) t c = Ok (CapacityError, Some o)
  else Append (Some o) t c = Throw Undefined.
Proof.
  intros Ho Hc Hs Hn Hcnt. pose proof (append_table_ok its o t bs opts Ho Hs Hn Hcnt) as Ha.
  unfold Append, Valid, GetSerializedTableSize. rewrite (ht_type _ _ Ho), Z.eqb_refl, Hc, mock_counts, Hs.
  cbn [negb fmap option_fmap option_map the_ldo mbind outcome_bind].
  destruct (16 <=? room o)%Z; [|by rewrite Ha]. destruct (zlen bs <=? room o - 16)%Z; [|by rewrite Ha].
  destruct Ha as (o' & -> & Ho' & _). exists o'. split_and!; [done|done|]. intros i Hi.
  rewrite (ExtractTable_ok _ o' i Ho' Hi). change (its.*1 ++ [t]) with (its.*1 ++ [one_table t].*1).
  rewrite <-fmap_app, list_lookup_fmap. by destruct ((its ++ [one_table t]) !! i).
Qed.

(** An object made for one table has no room left, and appending to it is undefined. *)
Lemma make_then_append garbage t c opts bs t' c' opts' bs' :
  Codec_Create c = Some opts → stream opts [t] = Some bs → (zlen bs + 84 < 2 ^ 32)%Z →
  Codec_Create c' = Some opts' → stream opts' [t'] = Some bs' → (zlen bs' < 2 ^ 63)%Z →
  ∃ o, Make garbage t c = Ok (OK, Some o) ∧ holds_tables [one_table t] o ∧ Append (Some o) t' c' = Throw Undefined.
Proof.
  intros Hc Hs Hn Hc' Hs' Hn'. pose proof (zlen_nonneg bs). unfold Make, GetSerializedTableSize.
  rewrite Hc, mock_counts, Hs. cbn [fmap option_fmap option_map]. unfold sizeof_fado_chunk.
  rewrite (wrap_id 32) by (unfold in_width; lia).
  destruct (new_fado_ok garbage (16 + zlen bs)) as (o & -> & Ho & Hr); [lia|lia|]. cbn [mbind outcome_bind the_ldo].
  pose proof (append_table_ok [] o t bs opts Ho Hs ltac:(lia) ltac:(simpl; lia)) as Ha.
  replace (16 <=? room o)%Z with true in Ha by lia. replace (zlen bs <=? room o - 16)%Z with true in Ha by lia.
  destruct Ha as (o' & -> & Ho' & Hr'). cbn [mbind outcome_bind]. rewrite decide_True by done.
  exists o'. split_and!; [done|done|].
  pose proof (append_table_ok _ o' t' bs' opts' Ho' Hs' Hn' ltac:(simpl; lia)) as Ha'.
  replace (16 <=? room o')%Z with false in Ha' by lia.
  unfold Append, Valid, GetSerializedTableSize. rewrite (ht_type _ _ Ho'), Z.eqb_refl, Hc', mock_counts, Hs'.
  cbn [negb fmap option_fmap option_map the_ldo mbind outcome_bind]. by rewrite Ha'.
Qed.

(** ** Several tables *)

Definition packed_size (bss : list str) : Z := foldr (λ bs m, sizeof_fado_chunk + zlen bs + m)%Z 0%Z bss.

Lemma packed_size_nonneg bss : (16 * Z.of_nat (length bss) ≤ packed_size bss)%Z.
Proof.
  induction bss as [|bs bss IH]; [done|]. pose proof (zlen_nonneg bs). simpl. unfold sizeof_fado_chunk. simpl in *. lia.
Qed.

Lemma table_sizes_ok opts ts bss :
  Forall2 (λ t bs, stream opts [t] = Some bs) ts bss → table_sizes opts ts = Some (zlen <$> bss).
Proof.
  induction 1 as [|t bs ts bss Hs _ IH]; [done|]. simpl. unfold GetSerializedTableSize. rewrite mock_counts, Hs.
  simpl. by rewrite IH.
Qed.

Lemma append_each_ok opts ts bss its o :
  Forall2 (λ t bs, stream opts [t] = Some bs) ts bss → holds_tables its o →
  (packed_size bss ≤ room o)%Z → (Z.of_nat (length its + length ts) < 2 ^ 31)%Z →
  ∃ o', append_each o opts (zip ts (zlen <$> bss)) = Ok (OK, Some o') ∧
        holds_tables (its ++ (one_table <$> ts)) o' ∧ room o' = (room o - packed_size bss)%Z.
Proof.
  intros Hall. revert its o. induction Hall as [|t bs ts bss Hs Hall IH]; intros its o Ho Hroom Hcnt.
  - exists o. simpl. rewrite app_nil_r. split_and!; [done|done|lia].
  - cbn [fmap list_fmap zip zip_with append_each packed_size foldr length] in *. fold (packed_size bss) in *.
    pose proof (packed_size_nonneg bss). pose proof (zlen_nonneg bs). unfold sizeof_fado_chunk in *.
    destruct (sizes its o Ho) as (? & ? & ? & _).
    assert (room o < 2 ^ 32)%Z by (unfold room, sizeof_fado_meta; lia).
    pose proof (append_table_ok its o t bs opts Ho Hs ltac:(lia) ltac:(lia)) as Ha.
    replace (16 <=? room o)%Z with true in Ha by lia. replace (zlen bs <=? room o - 16)%Z with true in Ha by lia.
    destruct Ha as (o1 & -> & Ho1 & Hr1). cbn [mbind outcome_bind]. rewrite decide_True by done.
    destruct (IH (its ++ [one_table t]) o1) as (o' & -> & Ho' & Hr'); [done|lia|rewrite length_app; simpl; lia|].
    exists o'. split_and!; [done|by rewrite <-app_assoc in Ho'|lia].
Qed.

(** The rows of tables, as the code adds them up. *)
Definition all_rows (ts : list table) : Z := foldl (λ n it, u64 (n + it.2)) 0%Z (one_table <$> ts).

(** C28: tables that are packed into one object are each read back under their numbers, the numbers of
    tables and of rows are those of the tables, other numbers are refused, and the object has
    all that was asked of it and no room for another chunk header. *)
Theorem tables_roundtrip garbage ts bss c opts :
  Codec_Create c = Some opts → Forall2 (λ t bs, stream opts [t] = Some bs) ts bss →
  (packed_size bss + 68 < 2 ^ 32)%Z →
  ∃ o, Make_tables garbage ts c = Ok (OK, Some o) ∧
    NumberOfTables (Some o) = Ok (Z.of_nat (length ts)) ∧
    NumberOfRows (Some o) = Ok (all_rows ts) ∧
    ∀ i, (Z.of_nat i < 2 ^ 31)%Z → ExtractTable (Some o) (Z.of_nat i)
         = Ok (match ts !! i with Some t => (OK, Some t) | None => (IndexError, None) end).
Proof.
  intros Hc Hall Hsz. pose proof (packed_size_nonneg bss). pose proof (Forall2_length _ _ _ Hall) as Hl.
  unfold Make_tables. rewrite Hc, (table_sizes_ok opts ts bss Hall).
  assert (foldr (λ n m, sizeof_fado_chunk + n + m)%Z 0%Z (zlen <$> bss) = packed_size bss) as ->.
  { unfold packed_size. clear. induction bss as [|bs bss IH]; [done|]. cbn [fmap list_fmap foldr]. by rewrite <-IH. }
  rewrite (wrap_id 32) by (unfold in_width; lia).
  destruct (new_fado_ok garbage (packed_size bss)) as (o & -> & Ho & Hr); [lia|lia|]. cbn [mbind outcome_bind the_ldo].
  destruct (append_each_ok opts ts bss [] o Hall Ho) as (o' & -> & Ho' & _); [lia|simpl; lia|].
  cbn [app] in Ho'. exists o'. split_and!; [done| | |].
  - rewrite (NumberOfTables_ok _ o' Ho'). by rewrite length_fmap.
  - apply (NumberOfRows_ok _ o' Ho').
  - intros i Hi. rewrite (ExtractTable_ok _ o' i Ho' Hi), list_lookup_fmap. by destruct (ts !! i).
Qed.

(** Tables that are merged are read back as the one table they make. *)
Lemma merged_ok garbage ts bss bs t c opts :
  Codec_Create c = Some opts → ts ≠ [] → Forall2 (λ t bs, stream opts [t] = Some bs) ts bss →
  stream opts ts = Some bs → concat_tables ts = Some t →
  (zlen bs ≤ foldr Z.add 0 (zlen <$> bss))%Z → (foldr Z.add 0 (zlen <$> bss) + 84 < 2 ^ 32)%Z →
  ∃ o, MakeMerged garbage ts c = Ok (OK, Some o) ∧ holds_tables [(t, total_rows ts)] o ∧
       ExtractTable (Some o) 0 = Ok (OK, Some t).
Proof.
  intros Hc Hne Hall Hs Ht Hle Hsz. set (n := foldr Z.add 0%Z (zlen <$> bss)) in *.
  assert (n mod 4 = 0)%Z as Hmod.
  { unfold n. clear -Hall. induction Hall as [|t bs ts bss Hs _ IH]; [done|]. cbn [fmap list_fmap foldr].
    rewrite Z.add_mod, (stream_mod _ _ _ Hs), IH by done. done. }
  pose proof (zlen_nonneg bs). unfold MakeMerged. destruct ts as [|t0 ts0]; [done|]. set (tl := t0 :: ts0) in *.
  rewrite Hc, (table_sizes_ok opts tl bss Hall). fold n. unfold sizeof_fado_chunk.
  rewrite (wrap_id 32) by (unfold in_width; lia).
  destruct (new_fado_ok garbage (16 + n)) as (o & -> & Ho & Hr); [lia|lia|]. cbn [mbind outcome_bind the_ldo].
  pose proof (append_tables_ok [] o tl bs t n opts Ho Hs Hne Ht Hle Hmod ltac:(lia) ltac:(simpl; lia)) as Ha.
  replace (16 <=? room o)%Z with true in Ha by lia. replace (n <=? room o - 16)%Z with true in Ha by lia.
  destruct Ha as (o' & -> & Ho' & _). cbn [mbind outcome_bind]. rewrite decide_True by done.
  exists o'. split_and!; [done|done|]. apply (ExtractTable_ok _ o' 0 Ho'). simpl. lia.
Qed.

(** ** Joining objects *)

Lemma append_fado_ok its o its' src :
  holds_tables its o → holds_tables its' src → its' ≠ [] → (Z.of_nat (length its + length its') < 2 ^ 31)%Z →
  if (data_bytes (alloc src) <=? room o)%Z then
    ∃ o', Append_fado (Some o) (Some src) = Ok (OK, Some o') ∧ holds_tables (its ++ its') o' ∧
          room o' = (room o - data_bytes (alloc src))%Z
  else Append_fado (Some o) (Some src) = Ok (OutOfMemory, Some o).
Proof.
  intros Ho Hsrc Hne Hcnt. destruct (sizes its o Ho) as (Hd0 & Hr0 & Hu32 & Hcap & Husz).
  destruct (sizes its' src Hsrc) as (_ & _ & Hw & _ & _).
  unfold Append_fado, Valid. rewrite (ht_type _ _ Hsrc), Z.eqb_refl. cbn [negb].
  rewrite (NumberOfTables_ok its' src Hsrc). cbn [mbind outcome_bind the_ldo].
  assert (0 < length its') as Hpos by (destruct its'; [done|simpl; lia]).
  replace (Z.of_nat (length its') =? 0)%Z with false by lia. rewrite (wrap_id 32) by (unfold in_width; lia).
  pose proof Hsrc as [_ Hm' _ _ (status' & cs' & rest' & Hcs' & Hd' & Hu')]. rewrite Hd'.
  destruct its' as [|it its']; [done|]. destruct cs' as [|c cs']; [by apply Forall2_length in Hcs'|].
  apply Forall2_cons in Hcs' as Hcc. destruct Hcc as [Hc0 _]. destruct (chunk_zlen _ _ Hc0) as [Hc16 _].
  assert (16 < zlen (concat (c :: cs')))%Z as Hbig.
  { cbn [concat]. rewrite zlen_app. pose proof (zlen_nonneg (concat cs')). lia. }
  unfold doAppendChunkStrip. replace (_ =? 0)%Z with false by lia. replace (Z.of_nat _ =? 0)%Z with false by lia.
  cbn [orb impl_of fmap option_fmap option_map]. rewrite Hcap, Husz.
  replace (zlen (user o) - (8 + data_bytes (alloc o)))%Z with (room o) by (unfold room, sizeof_fado_meta; lia).
  rewrite (wrap_id 32) by (unfold in_width, room, sizeof_fado_meta in *; lia).
  rewrite Z.ltb_antisym. destruct (Z.leb_spec (zlen (concat (c :: cs'))) (room o)) as [Hfit|Hno]; [|done]. cbn [negb].
  set (hd' := le 4 (Z.of_nat (length (it :: its'))) ++ le 4 status') in Hu'.
  assert (data_ptr src = zlen hd') as -> by (unfold data_ptr, hd'; by rewrite Hm', zlen_app, !zlen_le).
  assert (user src = hd' ++ c ++ (concat cs' ++ rest')) as Hu'' by (rewrite Hu'; cbn [concat]; by rewrite <-app_assoc).
  destruct (chunk_fields src hd' it c _ Hu'' Hc0 Hw) as (-> & _). cbn [mbind outcome_bind negb the_ldo].
  rewrite (read_middle' (user src) hd' (concat (c :: cs')) rest' _ _ Hu') by done. cbn [mbind outcome_bind].
  pose proof Ho as [_ Hm _ _ (status & cs & rest & Hcs & Hd & Hu)].
  assert (room o = zlen rest) as Hroom.
  { unfold room, sizeof_fado_meta. rewrite Hu, Hd, !zlen_app, !zlen_le. lia. }
  destruct (zsplit rest (zlen (concat (c :: cs')))) as (x & r & -> & Hx); [lia|]. rewrite zlen_app in Hroom.
  set (hd := le 4 (Z.of_nat (length its)) ++ le 4 status) in Hu.
  rewrite (write_at (user o) (hd ++ concat cs) x r).
  2:{ rewrite Hu. by rewrite <-!app_assoc. } 
  2:{ unfold data_ptr, hd. rewrite Hm, Hd, !zlen_app, !zlen_le. unfold sizeof_fado_meta. lia. } 2:{ done. }
  cbn [mbind outcome_bind]. rewrite <-(app_assoc hd).
  destruct (take_in its o (it :: its') cs (c :: cs') status (x ++ r) r) as (o' & Eo & Ho' & Hr'); try done.
  { rewrite zlen_app. lia. }
  fold hd in Eo. exists o'. split_and!; [|done|done].
  destruct (num_chunks _) as [k|e] in Eo |- *; cbn [mbind outcome_bind] in Eo |- *; [|done]. by rewrite Eo.
Qed.

(** An object to copy from; the null object has nothing. *)
Definition source (f : option ldo_obj) (its : list (table * Z)) : Prop :=
  match f with None => its = [] | Some src => holds_tables its src end.

Lemma append_source_ok its o f its' :
  holds_tables its o → source f its' → (GetDataSize_fado f ≤ room o)%Z →
  (Z.of_nat (length its + length its') < 2 ^ 31)%Z →
  ∃ o', Append_fado (Some o) f = Ok (OK, Some o') ∧ holds_tables (its ++ its') o' ∧
        room o' = (room o - GetDataSize_fado f)%Z.
Proof.
  intros Ho Hf Hroom Hcnt. destruct f as [src|]; simpl in Hf.
  2:{ subst its'. exists o. rewrite app_nil_r. split_and!; [done|done|]. unfold GetDataSize_fado. simpl. lia. }
  destruct (decide (its' = [])) as [->|Hne].
  - exists o. rewrite app_nil_r. split_and!; [|done|].
    + unfold Append_fado, Valid. rewrite (ht_type _ _ Hf), Z.eqb_refl, (NumberOfTables_ok [] src Hf). done.
    + pose proof Hf as [_ _ _ _ (status & cs & rest & Hcs & Hd & _)]. apply Forall2_nil_inv_l in Hcs as ->.
      unfold GetDataSize_fado. simpl. rewrite Hd. change (zlen (concat [])) with 0%Z. lia.
  - pose proof (append_fado_ok its o its' src Ho Hf Hne Hcnt) as Ha. unfold GetDataSize_fado in *. simpl in Hroom |- *.
    by replace (data_bytes (alloc src) <=? room o)%Z with true in Ha by lia.
Qed.

Definition total_data (fados : list (option ldo_obj)) : Z := foldr (λ f n, GetDataSize_fado f + n)%Z 0%Z fados.

Lemma source_size f its : source f its → (0 ≤ GetDataSize_fado f)%Z.
Proof.
  destruct f as [src|]; simpl; [|done]. intros Hf. by destruct (sizes its src Hf) as (? & _).
Qed.

Lemma total_data_nonneg fados itss : Forall2 source fados itss → (0 ≤ total_data fados)%Z.
Proof. induction 1 as [|f its fados itss Hf _ IH]; [done|]. pose proof (source_size f its Hf). simpl. lia. Qed.

Lemma append_fados_ok fados itss its o :
  Forall2 source fados itss → holds_tables its o → (total_data fados ≤ room o)%Z →
  (Z.of_nat (length its + length (concat itss)) < 2 ^ 31)%Z →
  ∃ o', append_fados (Some o) fados = Ok (OK, Some o') ∧ holds_tables (its ++ concat itss) o'.
Proof.
  intros Hall. revert its o. induction Hall as [|f its' fados itss Hf Hall IH]; intros its o Ho Hroom Hcnt.
  - exists o. by rewrite app_nil_r.
  - cbn [append_fados concat total_data foldr] in *. fold (total_data fados) in *. rewrite length_app in Hcnt.
    pose proof (total_data_nonneg _ _ Hall). pose proof (source_size f its' Hf).
    destruct (append_source_ok its o f its' Ho Hf) as (o1 & -> & Ho1 & Hr1); [lia|lia|].
    cbn [mbind outcome_bind]. rewrite decide_True by done.
    destruct (IH (its ++ its') o1) as (o' & -> & Ho'); [done|lia|rewrite length_app; lia|].
    exists o'. by rewrite <-app_assoc in Ho'.
Qed.

(** Objects that are joined give one with all their tables, in their order; null objects and objects
    without tables are passed over. *)
Lemma joined_ok garbage fados itss :
  Forall2 source fados itss → (0 < total_data fados)%Z → (total_data fados + 68 < 2 ^ 32)%Z →
  (Z.of_nat (length (concat itss)) < 2 ^ 31)%Z →
  ∃ o, Make_fados garbage fados = Ok (OK, Some o) ∧ holds_tables (concat itss) o.
Proof.
  intros Hall Hpos Hsz Hcnt. unfold Make_fados.
  assert (∀ n, (0 ≤ n)%Z → (n + total_data fados < 2 ^ 32)%Z →
            foldl (λ n f, u32 (n + GetDataSize_fado f)) n fados = (n + total_data fados)%Z) as Hsum.
  { clear Hpos Hsz Hcnt. induction Hall as [|f its fados itss Hf Hall IH]; intros n Hn Hb; [simpl; lia|].
    pose proof (source_size f its Hf). pose proof (total_data_nonneg _ _ Hall).
    cbn [foldl total_data foldr] in *. fold (total_data fados) in *.
    rewrite (wrap_id 32) by (unfold in_width; lia). rewrite IH by lia. lia. }
  rewrite Hsum, Z.add_0_l by lia. replace (total_data fados =? 0)%Z with false by lia.
  destruct (new_fado_ok garbage (total_data fados)) as (o & -> & Ho & Hr); [lia|lia|]. cbn [mbind outcome_bind].
  destruct (append_fados_ok fados itss [] o Hall Ho) as (o' & -> & Ho'); [lia|simpl; lia|]. by exists o'.
Qed.

End holding.

(** * A concrete library

    A table is a string with a row for each character; its stream is the length and the characters,
    padded to eight bytes. *)

Definition toy_pad (n : nat) : str := replicate (Nat.modulo (8 - Nat.modulo n 8) 8) "000"%char.

Definition toy_stream (ts : list str) : option str :=
  let t := concat ts in
  if (zlen t <? 2 ^ 64)%Z then Some (le 8 (zlen t) ++ t ++ toy_pad (length t)) else None.

Definition toy_read (s : str) : option str :=
  let n := Z.to_nat (unle (take 8 s)) in
  if bool_decide (8 + n ≤ length s) then Some (take n (drop 8 s)) else None.

#[global] Instance toy_arrow : Arrow := {|
  table := str;
  codec := bool;
  write_options := ();
  num_rows := zlen;
  Codec_Create := λ c, if c then Some () else None;
  write_stream := λ _ ts n,
    match toy_stream ts with
    | Some s => if (zlen s <=? n)%Z then (s, length ts, true) else (take (Z.to_nat n) s, 0, false)
    | None => ([], 0, false)
    end;
  mock_size := λ _ t, zlen <$> toy_stream [t];
  read_stream := toy_read
|}.

Lemma toy_aligned ts s : toy_stream ts = Some s → (zlen s mod 8 = 0)%Z ∧ (0 < zlen s)%Z.
Proof.
  unfold toy_stream. destruct (_ <? _)%Z; [|done]. set (x := le 8 _ ++ _). intros Hs.
  assert (s = x) as -> by congruence. unfold x. rewrite !zlen_app, zlen_le. unfold toy_pad, zlen.
  rewrite length_replicate. set (n := length (concat ts)). split; [|lia].
  rewrite !Nat2Z.inj_mod, Nat2Z.inj_sub by (pose proof (Nat.mod_upper_bound n 8); lia). rewrite Nat2Z.inj_mod.
  change (Z.of_nat 8) with 8%Z. pose proof (Z.mod_pos_bound (Z.of_nat n) 8 ltac:(lia)).
  Z.div_mod_to_equations. lia.
Qed.

Lemma toy_reads ts s rest : toy_stream ts = Some s → toy_read (s ++ rest) = Some (concat ts).
Proof.
  unfold toy_stream. destruct (Z.ltb_spec (zlen (concat ts)) (2 ^ 64)) as [Hlt|]; [|done].
  set (x := le 8 _ ++ _). intros Hs. assert (s = x) as -> by congruence. unfold x.
  unfold toy_read. rewrite <-app_assoc, take_le, drop_le, unle_le by (pose proof (zlen_nonneg (concat ts)); simpl; lia).
  unfold zlen. rewrite Nat2Z.id, bool_decide_eq_true_2 by (rewrite !length_app, length_le; lia).
  by rewrite <-app_assoc, take_app_length.
Qed.

#[global] Instance toy_arrow_laws : ArrowLaws.
Proof.
  refine {| stream := λ _ ts, toy_stream ts; concat_tables := λ ts, Some (concat ts) |}.
  - intros t. simpl. by rewrite app_nil_r.
  - intros t. apply zlen_nonneg.
  - intros opts ts s n Hs Hn. simpl in *. rewrite Hs. by replace (zlen s <=? n)%Z with true by lia.
  - intros opts ts n Hn. simpl. destruct (toy_stream ts) as [s|]; [|done].
    destruct (Z.leb_spec (zlen s) n); simpl; [done|]. unfold zlen. rewrite length_take. lia.
  - done.
  - intros opts ts s. apply toy_aligned.
  - intros opts ts s rest. apply toy_reads.
Defined.

Definition toy_tables : list str := [lit "first"; lit "the second"; []].

Lemma tables_roundtrip_witness :
  ∃ o, Make_tables [] toy_tables true = Ok (OK, Some o) ∧ NumberOfRows (Some o) = Ok 15%Z ∧
       ExtractTable (Some o) 1 = Ok (OK, Some (lit "the second")).
Proof.
  destruct (@tables_roundtrip toy_arrow toy_arrow_laws [] toy_tables
    [le 8 5 ++ lit "first" ++ toy_pad 5; le 8 10 ++ lit "the second" ++ toy_pad 10; le 8 0] true tt)
    as (o & Hm & _ & Hr & He); [done|by repeat constructor|by vm_compute|].
  exists o. split_and!; [exact Hm|exact Hr|]. apply (He 1). done.
Defined.

(** An object with thirty-six bytes behind its table. *)
Definition toy_object : outcome (option ldo_obj) :=
  f ← new_fado [] 64; '(_, f) ← Append f (lit "rows") true; Ok f.

Lemma append_spec_witness :
  ∃ o, toy_object = Ok (Some o) ∧
    (∃ o', Append (Some o) (lit "more") true = Ok (OK, Some o') ∧
           ExtractTable (Some o') 1 = Ok (OK, Some (lit "more"))) ∧
    Append (Some o) (lit "more than fits in there") true = Ok (CapacityError, Some o).
Proof.
  assert (∃ o, toy_object = Ok (Some o) ∧ holds_tables [one_table (lit "rows")] o ∧ room o = 36%Z) as (o & E & Ho & Hr).
  { eexists. split; [vm_compute; reflexivity|]. split; [|by vm_compute].
    split; [by vm_compute|by vm_compute|by vm_compute|by vm_compute|].
    exists 0%Z, [chunk_bytes (le 8 4 ++ lit "rows" ++ toy_pad 4) 4]. eexists. split_and!.
    - constructor; [|constructor]. eexists. split_and!; done.
    - by vm_compute.
    - vm_compute. reflexivity. }
  exists o. split_and!; [done| |].
  - pose proof (@append_spec toy_arrow toy_arrow_laws [@one_table toy_arrow (lit "rows")] o (lit "more") true tt (le 8 4 ++ lit "more" ++ toy_pad 4)
      Ho eq_refl eq_refl ltac:(by vm_compute) ltac:(by vm_compute)) as Ha. rewrite Hr in Ha.
    destruct Ha as (o' & Ha & _ & He). exists o'. split; [exact Ha|]. by apply (He 1).
  - pose proof (@append_spec toy_arrow toy_arrow_laws [@one_table toy_arrow (lit "rows")] o (lit "more than fits in there") true tt
      (le 8 23 ++ lit "more than fits in there" ++ toy_pad 23)
      Ho eq_refl eq_refl ltac:(by vm_compute) ltac:(by vm_compute)) as Ha. by rewrite Hr in Ha.
Defined.

(** Appending to the object of one table, which has four bytes left, writes past its end. *)
Example full_object_overflows :
  ('(_, f) ← Make [] (lit "rows") true; Append f (lit "more") true) = Throw Undefined ∧
  ('(_, f) ← Make [] (lit "rows") true; Ok (GetAvailableCapacity f)) = Ok (2 ^ 32 - 12)%Z.
Proof. split; vm_compute; reflexivity. Qed.

(** The documented errors of the two calls that append. *)
Example append_statuses :
  Append None (lit "rows") true = Ok (Invalid, None) ∧
  ('(_, f) ← Make [] (lit "rows") true; Append_fado None f) = Ok (OutOfMemory, None) ∧
  ('(_, f) ← Make [] (lit "rows") true; Make_fados [] [f; None])
  = ('(_, f) ← Make [] (lit "rows") true; Make_fados [] [f]).
Proof. split_and!; vm_compute; reflexivity. Qed.
