(* ===== verification/NntiBuffers.v ===== *)
(** NNTI's buffers and event queues (src/src/nnti): nnti_buffer.hpp, nnti_eq.hpp,
    nnti_freelist.hpp and the results and events of nnti_types.h.

    A buffer is memory that other nodes send to.  A queuing buffer is used as a ring: [copy_in]
    puts each message where there is room and moves the write offset, [event_complete] moves the
    read offset when the application is done with a message.  The theorem is that the messages
    that wait in the ring are the ones that were sent, as long as no message fills the ring to
    the last byte or overflows it; what the code does there is stated too. *)
From S2P Require Import Prelude DataObject LdoBytes.

(** * Results and events *)

Inductive NNTI_result_t :=
| NNTI_OK | NNTI_EIO | NNTI_EMSGSIZE | NNTI_EALIGN | NNTI_ECANCELED | NNTI_ETIMEDOUT
| NNTI_EINVAL | NNTI_ENOMEM | NNTI_ENOENT | NNTI_ENOTSUP | NNTI_EEXIST | NNTI_EBADRPC
| NNTI_ENOTINIT | NNTI_EPERM | NNTI_EINTR | NNTI_EWOULDBLOCK | NNTI_EAGAIN | NNTI_EDROPPED
| NNTI_EDECODE | NNTI_EENCODE.

#[global] Instance NNTI_result_eq_dec : EqDecision NNTI_result_t.
Proof. solve_decision. Defined.

Inductive NNTI_op_t := NNTI_OP_NOOP | NNTI_OP_SEND | NNTI_OP_PUT | NNTI_OP_GET
| NNTI_OP_ATOMIC_FADD | NNTI_OP_ATOMIC_CSWAP.

#[global] Instance NNTI_op_eq_dec : EqDecision NNTI_op_t.
Proof. solve_decision. Defined.

Inductive NNTI_event_type_t := NNTI_EVENT_NOOP | NNTI_EVENT_SEND | NNTI_EVENT_PUT
| NNTI_EVENT_GET | NNTI_EVENT_ATOMIC | NNTI_EVENT_OVERFLOW | NNTI_EVENT_UNEXPECTED
| NNTI_EVENT_ACK | NNTI_EVENT_RECV.

#[global] Instance NNTI_event_type_eq_dec : EqDecision NNTI_event_type_t.
Proof. solve_decision. Defined.

(** An event; the buffer it is about is named by the address of its payload, 0 for none. *)
Record NNTI_event_t := mkEvent {
  ev_type : NNTI_event_type_t;
  ev_result : NNTI_result_t;
  ev_op : NNTI_op_t;
  ev_start : Z;
  ev_offset : Z;
  ev_length : Z;
  ev_peer : Z;
  ev_context : Z
}.

#[global] Instance NNTI_event_eq_dec : EqDecision NNTI_event_t.
Proof. solve_decision. Defined.

(** * Buffers *)

Definition NNTI_BF_QUEUING : Z := 16.

(** A buffer; [payload_] is the address of its memory and [mem] what is there. *)
Record nnti_buffer := mkBuffer {
  id_ : Z;
  flags_ : Z;
  payload_size_ : Z;
  payload_ : Z;
  mem : str;
  next_read_offset_ : Z;
  next_write_offset_ : Z
}.

#[global] Instance nnti_buffer_eq_dec : EqDecision nnti_buffer.
Proof. solve_decision. Defined.

(** The constructors take the next id; [posix_memalign] leaves the memory as it is. *)
Definition new_buffer (next_id flags addr : Z) (memory : str) : nnti_buffer * Z :=
  (mkBuffer next_id flags (zlen memory) addr memory 0 0, u32 (next_id + 1)).

Definition queuing (b : nnti_buffer) : bool := negb (Z.land (flags_ b) NNTI_BF_QUEUING =? 0)%Z.

Definition with_mem (b : nnti_buffer) (m : str) : nnti_buffer :=
  mkBuffer (id_ b) (flags_ b) (payload_size_ b) (payload_ b) m (next_read_offset_ b)
    (next_write_offset_ b).
Definition with_write (b : nnti_buffer) (w : Z) : nnti_buffer :=
  mkBuffer (id_ b) (flags_ b) (payload_size_ b) (payload_ b) (mem b) (next_read_offset_ b) w.
Definition with_read (b : nnti_buffer) (r : Z) : nnti_buffer :=
  mkBuffer (id_ b) (flags_ b) (payload_size_ b) (payload_ b) (mem b) r (next_write_offset_ b).

(** Where [copy_in] puts [buf_size] bytes in a queuing buffer: the result, the offset, and the
    next write offset. *)
Definition place (b : nnti_buffer) (buf_size : Z) : outcome (NNTI_result_t * Z * Z) :=
  let r := next_read_offset_ b in
  let w := next_write_offset_ b in
  if (w <? r)%Z then
    if (buf_size <=? u64 (r - w))%Z then Ok (NNTI_OK, w, u64 (w + buf_size))
    else Ok (NNTI_ENOMEM, w, w)
  else
    if (buf_size <=? u64 (payload_size_ b - w))%Z then
      if (payload_size_ b =? 0)%Z then Throw Undefined
      else Ok (NNTI_OK, w, (u64 (w + buf_size)) mod (payload_size_ b))%Z
    else if (buf_size <? r)%Z then Ok (NNTI_OK, 0%Z, buf_size)
    else Ok (NNTI_OK, w, w).

Definition copy_in (b : nnti_buffer) (requested_offset : Z) (buf : str)
    : outcome (nnti_buffer * NNTI_result_t * Z) :=
  if queuing b then
    '(rc, current_offset, w) ← place b (zlen buf);
    if bool_decide (rc = NNTI_OK) then
      m ← mem_write (mem b) current_offset buf;
      Ok (with_mem (with_write b w) m, rc, current_offset)
    else Ok (with_write b w, rc, requested_offset)
  else
    if (u64 (requested_offset + zlen buf) <=? payload_size_ b)%Z then
      m ← mem_write (mem b) requested_offset buf;
      Ok (with_mem b m, NNTI_OK, requested_offset)
    else Ok (b, NNTI_ENOMEM, requested_offset).

Definition event_complete (b : nnti_buffer) (offset length : Z) : outcome nnti_buffer :=
  if queuing b then
    if (payload_size_ b =? 0)%Z then Throw Undefined
    else Ok (with_read b ((u64 (offset + length)) mod (payload_size_ b))%Z)
  else Ok b.

(** * The ring: messages that wait are the ones that were sent *)

Lemma mem_write_split m off bs m' :
  mem_write m off bs = Ok m' →
  ∃ a b c, m = a ++ b ++ c ∧ m' = a ++ bs ++ c ∧ zlen a = off ∧ length b = length bs.
Proof.
  intros H. destruct (in_bounds m off (zlen bs)) eqn:E.
  2:{ unfold mem_write in H. by rewrite E in H. }
  destruct (bounds_split _ _ _ E) as (a & b & c & -> & <- & Hb).
  assert (length bs = length b) as Hl by (unfold zlen in Hb; lia).
  rewrite write_middle in H by done. injection H as <-. eauto 10.
Qed.

Lemma mem_write_Ok m off bs :
  (0 ≤ off)%Z → (off + zlen bs ≤ zlen m)%Z → ∃ m', mem_write m off bs = Ok m'.
Proof.
  intros H1 H2. unfold mem_write. rewrite (proj2 (in_bounds_spec _ _ _)); [eauto|].
  pose proof (zlen_nonneg bs). lia.
Qed.

Lemma mem_write_zlen m off bs m' : mem_write m off bs = Ok m' → zlen m' = zlen m.
Proof.
  intros (a & b & c & -> & -> & _ & Hl)%mem_write_split. rewrite !zlen_app. unfold zlen. lia.
Qed.

Lemma mem_write_same m off bs m' :
  mem_write m off bs = Ok m' → mem_read m' off (zlen bs) = Ok bs.
Proof. intros (a & b & c & _ & -> & <- & _)%mem_write_split. apply read_middle. Qed.

(** A write leaves what lies beside it. *)
Lemma mem_write_other m off bs m' o l x :
  mem_write m off bs = Ok m' → (o + l ≤ off ∨ off + zlen bs ≤ o)%Z →
  mem_read m o l = Ok x → mem_read m' o l = Ok x.
Proof.
  intros Hw Hd Hr. pose proof (mem_write_zlen _ _ _ _ Hw) as Hz.
  destruct (mem_write_split _ _ _ _ Hw) as (a & b & c & -> & -> & <- & Hl).
  unfold mem_read in *. destruct (in_bounds (a ++ b ++ c) o l) eqn:E; [|done].
  apply in_bounds_spec in E. rewrite (proj2 (in_bounds_spec _ _ _)) by (rewrite Hz; lia).
  rewrite <-Hr. f_equal. destruct Hd as [Hd|Hd]; unfold zlen in *.
  - rewrite !skipn_app, !take_app_le; [done| |]; rewrite length_drop; lia.
  - f_equal. rewrite !(drop_app_ge a), !drop_app_ge by lia. by rewrite Hl.
Qed.

(** The messages of [q] lie one after the other in [m], from [a] to [e]. *)
Inductive chain (m : str) : Z → list (Z * str) → Z → Prop :=
| chain_nil a : chain m a [] a
| chain_cons a bs q e :
    (0 < zlen bs)%Z → mem_read m a (zlen bs) = Ok bs →
    chain m (a + zlen bs) q e → chain m a ((a, bs) :: q) e.
#[export] Hint Constructors chain : faodel.

Lemma chain_le m a q e : chain m a q e → (a ≤ e)%Z.
Proof. induction 1; lia. Qed.

Lemma chain_snoc m a q e bs :
  chain m a q e → (0 < zlen bs)%Z → mem_read m e (zlen bs) = Ok bs →
  chain m a (q ++ [(e, bs)]) (e + zlen bs).
Proof. intros H Hp Hr. induction H; simpl; auto with faodel. Qed.

Lemma chain_write m off bs m' a q e :
  mem_write m off bs = Ok m' → chain m a q e → (e ≤ off ∨ off + zlen bs ≤ a)%Z →
  chain m' a q e.
Proof.
  intros Hw H Hd. induction H as [|a x q e Hp Hr Hc IH]; [auto with faodel|].
  pose proof (chain_le _ _ _ _ Hc). constructor; [done| |apply IH; lia].
  eapply mem_write_other; [done| |done]. lia.
Qed.

Lemma chain_read m a q e x : chain m a q e → x ∈ q → mem_read m x.1 (zlen x.2) = Ok x.2.
Proof. induction 1; intros Hx; apply elem_of_cons in Hx || (by inversion Hx). naive_solver. Qed.

(** A queuing buffer [b] in which the messages [q] wait, oldest first: they fill the ring from
    the read offset to the write offset, maybe by way of its end. *)
Definition waiting (b : nnti_buffer) (q : list (Z * str)) : Prop :=
  let r := next_read_offset_ b in
  let w := next_write_offset_ b in
  (r ≤ w)%Z ∧ chain (mem b) r q w ∨
  (w < r)%Z ∧ ∃ q1 q2 e, q = q1 ++ q2 ∧ chain (mem b) r q1 e ∧ (e ≤ payload_size_ b)%Z ∧
                          chain (mem b) 0 q2 w.

Record ring_ok (b : nnti_buffer) (q : list (Z * str)) : Prop := {
  ring_queuing : queuing b = true;
  ring_size : (0 < payload_size_ b < 2 ^ 64)%Z;
  ring_mem : zlen (mem b) = payload_size_ b;
  ring_read : (0 ≤ next_read_offset_ b < payload_size_ b)%Z;
  ring_write : (0 ≤ next_write_offset_ b < payload_size_ b)%Z;
  ring_waiting : waiting b q
}.

(** There is room for a message: it neither fills the ring nor overflows it. *)
Definition room (b : nnti_buffer) (size : Z) : bool :=
  let r := next_read_offset_ b in
  let w := next_write_offset_ b in
  if (w <? r)%Z then (size <? r - w)%Z
  else ((size <? payload_size_ b - w) || (size =? payload_size_ b - w) && (0 <? r) || (size <? r))%Z.

(** What clients do to a ring: a message arrives, a message is refused, the oldest message is
    done with. *)
Inductive ring_step : nnti_buffer * list (Z * str) → nnti_buffer * list (Z * str) → Prop :=
| ring_arrive b q b' o bs off :
    (0 < zlen bs)%Z → room b (zlen bs) = true →
    copy_in b o bs = Ok (b', NNTI_OK, off) → ring_step (b, q) (b', q ++ [(off, bs)])
| ring_refuse b q b' o bs rc off :
    copy_in b o bs = Ok (b', rc, off) → rc ≠ NNTI_OK → ring_step (b, q) (b', q)
| ring_complete b x q b' :
    event_complete b x.1 (zlen x.2) = Ok b' → ring_step (b, x :: q) (b', q).

(** What [place] gives where there is room. *)
Lemma place_room b q size :
  ring_ok b q → (0 < size)%Z → room b size = true →
  ∃ off, place b size = Ok (NNTI_OK, off, ((off + size) mod (payload_size_ b))%Z) ∧
         (0 ≤ off)%Z ∧ (off + size ≤ payload_size_ b)%Z ∧
         (off = next_write_offset_ b ∧
            ((next_write_offset_ b < next_read_offset_ b ∧ off + size < next_read_offset_ b)%Z ∨
             (next_read_offset_ b ≤ next_write_offset_ b ∧
              (off + size < payload_size_ b ∨ 0 < next_read_offset_ b))%Z) ∨
          off = 0%Z ∧ (size < next_read_offset_ b ≤ next_write_offset_ b)%Z).
Proof.
  intros [_ Hs _ Hr Hw _] Hp. unfold room, place.
  destruct (Z.ltb_spec (next_write_offset_ b) (next_read_offset_ b)) as [Hlt|Hge].
  - intros Hroom%Z.ltb_lt. exists (next_write_offset_ b).
    unwrap. rewrite (proj2 (Z.leb_le _ _)) by lia. rewrite Z.mod_small by lia.
    split; [done|]. lia.
  - rewrite !orb_true_iff, andb_true_iff, !Z.ltb_lt, Z.eqb_eq. intros Hroom.
    rewrite (wrap_id 64 (payload_size_ b - next_write_offset_ b)) by (unfold in_width; lia).
    destruct (Z.leb_spec size (payload_size_ b - next_write_offset_ b)).
    + exists (next_write_offset_ b). rewrite (proj2 (Z.eqb_neq _ _)) by lia. unwrap.
      split; [done|]. lia.
    + exists 0%Z. rewrite (proj2 (Z.ltb_lt _ _)) by lia. rewrite Z.mod_small by lia.
      split; [done|]. lia.
Qed.

(** A message for which there is room is stored, and waits behind the others. *)
Lemma copy_in_ring b q o bs :
  ring_ok b q → (0 < zlen bs)%Z → room b (zlen bs) = true →
  ∃ b' off, copy_in b o bs = Ok (b', NNTI_OK, off) ∧ ring_ok b' (q ++ [(off, bs)]).
Proof.
  intros Hok Hp Hroom. destruct (place_room _ _ _ Hok Hp Hroom) as (off & Hpl & H0 & Hb & Hcase).
  destruct Hok as [Hq Hs Hm Hr Hw Hwait].
  destruct (mem_write_Ok (mem b) off bs) as [m' Hwr]; [lia|lia|].
  unfold copy_in. rewrite Hq, Hpl. cbn [mbind outcome_bind].
  rewrite bool_decide_eq_true_2 by done. rewrite Hwr. cbn [mbind outcome_bind].
  eexists _, _. split; [done|].
  pose proof (mem_write_same _ _ _ _ Hwr) as Hsame.
  pose proof (mem_write_zlen _ _ _ _ Hwr) as Hz.
  constructor; cbn [with_mem with_write mem payload_size_ next_read_offset_ next_write_offset_];
    [done|done|congruence|done|apply Z.mod_pos_bound; lia|].
  unfold waiting in *.
  cbn [with_mem with_write mem payload_size_ next_read_offset_ next_write_offset_] in *.
  destruct (decide (off + zlen bs = payload_size_ b)%Z) as [He|He].
  { replace ((off + zlen bs) mod payload_size_ b)%Z with 0%Z by (rewrite He, Z.mod_same; lia).
    right. split; [lia|]. exists (q ++ [(off, bs)]), [], (payload_size_ b).
    rewrite app_nil_r. split; [done|]. split; [|split; [lia|constructor]].
    rewrite <-He. destruct Hwait as [[Hle Hc]|[Hlt _]]; [|lia].
    destruct Hcase as [[-> _]|]; [|lia].
    apply chain_snoc; [|done|done]. eapply chain_write; [done|done|]. lia. }
  rewrite Z.mod_small by lia.
  destruct Hwait as [[Hle Hc]|(Hlt & q1 & q2 & e & -> & Hc1 & He1 & Hc2)].
  - destruct Hcase as [[-> _]|[-> Hf]].
    + left. split; [lia|]. apply chain_snoc; [|done|done]. eapply chain_write; [done|done|]. lia.
    + right. split; [lia|]. exists q, [(0%Z, bs)], (next_write_offset_ b).
      split; [done|]. split; [eapply chain_write; [done|done|]; lia|]. split; [lia|].
      apply (chain_snoc m' 0 [] 0); auto with faodel.
  - destruct Hcase as [[-> Hf]|]; [|lia]. right. split; [lia|].
    pose proof (chain_le _ _ _ _ Hc1).
    exists q1, (q2 ++ [(next_write_offset_ b, bs)]), e. rewrite app_assoc. split; [done|].
    split; [eapply chain_write; [done|done|]; lia|]. split; [done|].
    apply chain_snoc; [|done|done]. eapply chain_write; [done|done|]. lia.
Qed.

(** Completing the oldest message frees its place. *)
Lemma event_complete_ring b x q :
  ring_ok b (x :: q) →
  ∃ b', event_complete b x.1 (zlen x.2) = Ok b' ∧ ring_ok b' q.
Proof.
  intros [Hq Hs Hm Hr Hw Hwait]. unfold event_complete. rewrite Hq.
  rewrite (proj2 (Z.eqb_neq _ _)) by lia. eexists. split; [done|].
  unfold waiting in Hwait.
  assert (x.1 = next_read_offset_ b ∧
            (x.1 + zlen x.2 ≤ next_write_offset_ b ∧ chain (mem b) (x.1 + zlen x.2) q (next_write_offset_ b) ∨
             next_write_offset_ b < next_read_offset_ b ∧
             ∃ q1 q2 e, q = q1 ++ q2 ∧ chain (mem b) (x.1 + zlen x.2) q1 e ∧
               e ≤ payload_size_ b ∧ chain (mem b) 0 q2 (next_write_offset_ b)) ∧ 0 < zlen x.2
          ∨ x.1 = 0 ∧ 0 < zlen x.2 ∧ zlen x.2 ≤ next_write_offset_ b ∧
            chain (mem b) (zlen x.2) q (next_write_offset_ b))%Z as Hx.
  { destruct Hwait as [[Hle Hc]|(Hlt & q1 & q2 & e & Heq & Hc1 & He1 & Hc2)].
    - inversion Hc as [|? ? ? ? Hp _ Hc']; subst. pose proof (chain_le _ _ _ _ Hc').
      left. simpl. auto.
    - destruct q1 as [|y q1]; simpl in Heq.
      + subst q2. inversion Hc2 as [|? ? ? ? Hp _ Hc']; subst. pose proof (chain_le _ _ _ _ Hc').
        right. simpl in *. rewrite Z.add_0_l in *. auto.
      + injection Heq as <- ->. inversion Hc1 as [|? ? ? ? Hp _ Hc']; subst.
        left. simpl. split; [done|]. split; [|done]. right. eauto 10. }
  assert (0 ≤ x.1 ∧ 0 < zlen x.2 ∧ x.1 + zlen x.2 ≤ payload_size_ b)%Z as (H1 & H2 & H3).
  { destruct Hx as [(Hx & [[? _]|(_ & q1 & q2 & e & _ & Hc & ? & _)] & ?)|]; [lia| |lia].
    pose proof (chain_le _ _ _ _ Hc). lia. }
  assert (u64 (x.1 + zlen x.2) = x.1 + zlen x.2)%Z as -> by (unwrap; lia).
  constructor; cbn [with_read mem payload_size_ next_read_offset_ next_write_offset_];
    [done|done|done|apply Z.mod_pos_bound; lia|done|].
  unfold waiting. cbn [with_read mem payload_size_ next_read_offset_ next_write_offset_].
  destruct (decide (x.1 + zlen x.2 = payload_size_ b)%Z) as [He|He].
  - destruct Hx as [(Hx & [[? _]|(Hlt & q1 & q2 & e & -> & Hc & Hle & Hc2)] & ?)|]; [lia| |lia].
    rewrite He, Z.mod_same by lia. left. split; [lia|].
    destruct Hc as [|a bs q1 e Hp _ Hc]; [done|]. apply chain_le in Hc. lia.
  - rewrite Z.mod_small by lia.
    destruct Hx as [(Hx & [[? ?]|(Hlt & ?)] & ?)|(-> & ? & ? & ?)]; [by left| |by left].
    right. split; [lia|done].
Qed.

(** A message that is refused leaves the buffer as it was, and was not stored. *)
Lemma copy_in_refused b o bs b' rc off :
  copy_in b o bs = Ok (b', rc, off) → rc ≠ NNTI_OK → b' = b ∧ rc = NNTI_ENOMEM ∧ off = o.
Proof.
  intros H Hrc. unfold copy_in in H. destruct (queuing b).
  - apply bind_Ok in H as ([[rc' cur] w] & Hp & H). case_bool_decide; [by unbind; simplify_eq|].
    simplify_eq. unfold place in Hp. repeat case_match; simplify_eq. by destruct b.
  - case_match; [by unbind; simplify_eq|]. by simplify_eq.
Qed.

Lemma ring_step_ok b q b' q' : ring_step (b, q) (b', q') → ring_ok b q → ring_ok b' q'.
Proof.
  intros H Hok. inversion H as [? ? ? o bs off Hp Hroom Hc|? ? ? o bs rc off Hc Hrc|? x ? ? Hc]; subst.
  - destruct (copy_in_ring b q o bs Hok Hp Hroom) as (b2 & off2 & E & Hok').
    rewrite Hc in E. by injection E as <- <-.
  - by destruct (copy_in_refused _ _ _ _ _ _ Hc Hrc) as (-> & _ & _).
  - destruct (event_complete_ring _ _ _ Hok) as (b2 & E & Hok'). rewrite Hc in E. by injection E as <-.
Qed.

Lemma new_ring_ok next_id flags addr memory :
  negb (Z.land flags NNTI_BF_QUEUING =? 0)%Z = true → (0 < zlen memory < 2 ^ 64)%Z →
  ring_ok (new_buffer next_id flags addr memory).1 [].
Proof.
  intros Hf Hz. constructor; simpl; try done; try lia. left. simpl. split; [lia|constructor].
Qed.

Lemma ring_steps_ok x y : rtc ring_step x y → ring_ok x.1 x.2 → ring_ok y.1 y.2.
Proof.
  induction 1 as [|[b q] [b' q'] z Hs _ IH]; [done|]. intros Hok. apply IH.
  by eapply ring_step_ok.
Qed.

Lemma ring_ok_read b q x : ring_ok b q → x ∈ q → mem_read (mem b) x.1 (zlen x.2) = Ok x.2.
Proof.
  intros [_ _ _ _ _ [[_ Hc]|(_ & q1 & q2 & e & -> & Hc1 & _ & Hc2)]] Hx.
  - exact (chain_read _ _ _ _ _ Hc Hx).
  - apply elem_of_app in Hx as [Hx|Hx].
    + exact (chain_read _ _ _ _ _ Hc1 Hx).
    + exact (chain_read _ _ _ _ _ Hc2 Hx).
Qed.

(** C12: In a queuing buffer whose clients complete messages in the order of their arrival and
    send none that fills or overflows the ring, every message that waits reads back as it was
    sent, whatever came before: no arrival overwrites it.  The oldest can always be completed,
    and a message for which there is room is always stored, behind the others. *)
Theorem ring_messages_intact next_id flags addr memory b q :
  negb (Z.land flags NNTI_BF_QUEUING =? 0)%Z = true → (0 < zlen memory < 2 ^ 64)%Z →
  rtc ring_step ((new_buffer next_id flags addr memory).1, []) (b, q) →
  (∀ off bs, (off, bs) ∈ q → mem_read (mem b) off (zlen bs) = Ok bs) ∧
  (∀ off bs q', q = (off, bs) :: q' →
     ∃ b', event_complete b off (zlen bs) = Ok b' ∧ ring_step (b, q) (b', q')) ∧
  (∀ o bs, (0 < zlen bs)%Z → room b (zlen bs) = true →
     ∃ b' off, copy_in b o bs = Ok (b', NNTI_OK, off) ∧ ring_step (b, q) (b', q ++ [(off, bs)])).
Proof.
  intros Hf Hz Hsteps.
  assert (ring_ok b q) as Hok.
  { apply (ring_steps_ok _ _ Hsteps). by apply new_ring_ok. }
  split_and!.
  - intros off bs Hx. by apply (ring_ok_read b q (off, bs)).
  - intros off bs q' ->. destruct (event_complete_ring _ _ _ Hok) as (b' & E & _).
    exists b'. split; [done|]. by apply (ring_complete b (off, bs)).
  - intros o bs Hp Hroom. destruct (copy_in_ring b q o bs Hok Hp Hroom) as (b' & off & E & _).
    exists b', off. split; [done|]. by eapply ring_arrive.
Qed.

(** What [copy_in] does when there is no room.  If the write offset is behind the read offset,
    the message is refused, or fills the ring so that it counts as empty; otherwise the branch
    that logs OVERFLOW leaves the result at [NNTI_OK], and copies past the end of the memory. *)
Lemma copy_in_overflow b q o bs :
  ring_ok b q → (next_read_offset_ b ≤ next_write_offset_ b)%Z →
  (payload_size_ b - next_write_offset_ b < zlen bs)%Z → (next_read_offset_ b ≤ zlen bs)%Z →
  copy_in b o bs = Throw Undefined.
Proof.
  intros [Hq Hs Hm Hr Hw _] Hle Hback Hfront. unfold copy_in, place. rewrite Hq.
  rewrite (proj2 (Z.ltb_ge _ _)) by lia.
  rewrite (wrap_id 64 (payload_size_ b - next_write_offset_ b)) by (unfold in_width; lia).
  rewrite (proj2 (Z.leb_gt _ _)), (proj2 (Z.ltb_ge _ _)) by lia. cbn [mbind outcome_bind].
  rewrite bool_decide_eq_true_2 by done. unfold mem_write.
  destruct (in_bounds _ _ _) eqn:E; [|done]. apply in_bounds_spec in E. lia.
Qed.

(** In a well-formed ring, a message is copied past the end of the buffer exactly when the
    write offset is not behind the read offset and the message fits neither at the back nor at
    the front: this is the branch that only logs "OVERFLOW". *)
Theorem copy_in_safe_iff b q o bs :
  ring_ok b q → (zlen bs < 2 ^ 64)%Z →
  (∃ x, copy_in b o bs = Ok x) ↔
  ¬ (next_read_offset_ b ≤ next_write_offset_ b ∧
     payload_size_ b - next_write_offset_ b < zlen bs ∧ next_read_offset_ b ≤ zlen bs)%Z.
Proof.
  intros Hok Hz. split.
  { intros [x Hx] (H1 & H2 & H3). by rewrite (copy_in_overflow b q) in Hx. }
  destruct Hok as [Hq Hs Hm Hr Hw _]. intros Hno. pose proof (zlen_nonneg bs).
  assert (∃ rc off w, place b (zlen bs) = Ok (rc, off, w) ∧
            (rc = NNTI_OK → 0 ≤ off ∧ off + zlen bs ≤ zlen (mem b))%Z) as (rc & off & w & E & Hb).
  { unfold place. destruct (Z.ltb_spec (next_write_offset_ b) (next_read_offset_ b)).
    - rewrite (wrap_id 64 (next_read_offset_ b - _)) by (unfold in_width; lia).
      case_match eqn:E; eexists _, _, _; (split; [done|]); [lia|done].
    - rewrite (wrap_id 64 (payload_size_ b - _)) by (unfold in_width; lia).
      rewrite (proj2 (Z.eqb_neq (payload_size_ b) 0)) by lia.
      repeat case_match; eexists _, _, _; (split; [done|]); lia. }
  unfold copy_in. rewrite Hq, E. cbn [mbind outcome_bind]. case_bool_decide as Hrc; [|eauto].
  destruct (Hb Hrc). destruct (mem_write_Ok (mem b) off bs) as [m ->]; [done..|].
  cbn [mbind outcome_bind]. eauto.
Qed.

(** ** Rings at work *)

Definition ring8 : nnti_buffer := (new_buffer 1 NNTI_BF_QUEUING 4096 (replicate 8 zero)).1.

(** Two messages arrive, the first is completed, and a third goes to the front of the ring. *)
Definition ring8_later : nnti_buffer :=
  mkBuffer 1 NNTI_BF_QUEUING 8 4096 (lit "hicdefg" ++ [zero]) 4 2.

Lemma ring8_steps :
  rtc ring_step (ring8, []) (ring8_later, [(4%Z, lit "efg"); (0%Z, lit "hi")]).
Proof.
  eapply rtc_l.
  { eapply (ring_arrive _ _ _ 0 (lit "abcd")); [done|vm_compute; reflexivity..]. }
  eapply rtc_l.
  { eapply (ring_arrive _ _ _ 0 (lit "efg")); [done|vm_compute; reflexivity..]. }
  eapply rtc_l; [eapply (ring_complete _ (0%Z, lit "abcd")); vm_compute; reflexivity|].
  eapply rtc_l.
  { eapply (ring_arrive _ _ _ 0 (lit "hi")); [done|vm_compute; reflexivity..]. }
  apply rtc_refl.
Qed.

Lemma ring_messages_intact_witness :
  mem_read (mem ring8_later) 4 3 = Ok (lit "efg") ∧ mem_read (mem ring8_later) 0 2 = Ok (lit "hi").
Proof.
  destruct (ring_messages_intact 1 NNTI_BF_QUEUING 4096 (replicate 8 zero) _ _ eq_refl
    ltac:(vm_compute; split; congruence) ring8_steps) as (H & _).
  split; [apply (H 4%Z (lit "efg"))|apply (H 0%Z (lit "hi"))]; set_solver.
Defined.

(** An empty ring whose offsets are in its middle has no room for more than half of its memory,
    and does not refuse such a message. *)
Lemma copy_in_safe_iff_witness :
  let b := mkBuffer 1 NNTI_BF_QUEUING 8 4096 (replicate 8 zero) 4 4 in
  (∃ x, copy_in b 0 (lit "abcd") = Ok x) ∧ ¬ (∃ x, copy_in b 0 (lit "abcde") = Ok x).
Proof.
  intros b.
  assert (ring_ok b []) as Hok.
  { constructor; try done. left. split; [done|constructor]. }
  split.
  - apply (copy_in_safe_iff b [] 0 (lit "abcd") Hok); [done|]. intros (_ & H & _).
    vm_compute in H. discriminate H.
  - intros H. apply (copy_in_safe_iff b [] 0 (lit "abcde") Hok) in H; [|done]. apply H.
    vm_compute. split_and!; congruence.
Defined.

(** A message that fills the ring to the last byte makes it look empty, and the next message
    overwrites it. *)
Example full_ring_forgets :
  ('(b1, rc1, off1) ← copy_in ring8 0 (lit "12345678");
   '(b2, rc2, off2) ← copy_in b1 0 (lit "xy");
   m ← mem_read (mem b2) 0 8; Ok (rc1, off1, rc2, off2, m))
  = Ok (NNTI_OK, 0%Z, NNTI_OK, 0%Z, lit "xy345678").
Proof. vm_compute. reflexivity. Qed.

(** The bounds check of a buffer that does not queue adds the offset and the size in 64 bits. *)
Example offset_wraps :
  copy_in (new_buffer 1 0 4096 (replicate 8 zero)).1 (2 ^ 64 - 1) (lit "ab") = Throw Undefined.
Proof. vm_compute. reflexivity. Qed.

(** * The map of buffers *)

Module BufferMap.

(** Buffers are at addresses; an entry has the address, and the id and payload of the buffer
    there, which do not change while it is in the map. *)
Record handle := mkHandle { at_ : Z; hid : Z; hpayload : Z }.

Record nnti_buffer_map := mkMap {
  id_map_ : gmap Z handle;
  payload_map_ : gmap Z handle
}.

Definition empty_map : nnti_buffer_map := mkMap ∅ ∅.

Definition insert (m : nnti_buffer_map) (buf : handle) : outcome nnti_buffer_map :=
  F_ASSERT (bool_decide (id_map_ m !! hid buf = None));;
  F_ASSERT (bool_decide (payload_map_ m !! hpayload buf = None));;
  Ok (mkMap (<[hid buf := buf]> (id_map_ m)) (<[hpayload buf := buf]> (payload_map_ m))).

Definition get_id (m : nnti_buffer_map) (id : Z) : option handle := id_map_ m !! id.
Definition get_payload (m : nnti_buffer_map) (target : Z) : option handle := payload_map_ m !! target.

Definition remove_id (m : nnti_buffer_map) (id : Z) : nnti_buffer_map * option handle :=
  match id_map_ m !! id with
  | Some buf => (mkMap (delete id (id_map_ m)) (delete (hpayload buf) (payload_map_ m)), Some buf)
  | None => (m, None)
  end.
Definition remove (m : nnti_buffer_map) (buf : handle) : nnti_buffer_map * option handle :=
  remove_id m (hid buf).

Definition empty (m : nnti_buffer_map) : bool := bool_decide (id_map_ m = ∅).

(** The two indices hold the same buffers. *)
Record wf (m : nnti_buffer_map) : Prop := {
  wf_id : ∀ i h, id_map_ m !! i = Some h → hid h = i ∧ payload_map_ m !! hpayload h = Some h;
  wf_payload : ∀ p h, payload_map_ m !! p = Some h → hpayload h = p ∧ id_map_ m !! hid h = Some h
}.

Lemma empty_map_wf : wf empty_map.
Proof. split; intros ? ? H; simpl in H; by rewrite lookup_empty in H. Qed.

Lemma buffer_insert_wf m h m' : insert m h = Ok m' → wf m → wf m'.
Proof.
  unfold insert. intros H [W1 W2]. unbind. simplify_eq.
  rewrite !bool_decide_eq_true in *. split; simpl; intros k h2 Hx.
  - apply lookup_insert_Some in Hx as [[<- <-]|[Hne Hx]]; [by rewrite lookup_insert_eq|].
    destruct (W1 _ _ Hx) as [? Hp]. split; [done|].
    rewrite lookup_insert_ne; [done|]. intros Heq. rewrite Heq in *. congruence.
  - apply lookup_insert_Some in Hx as [[<- <-]|[Hne Hx]]; [by rewrite lookup_insert_eq|].
    destruct (W2 _ _ Hx) as [? Hp]. split; [done|].
    rewrite lookup_insert_ne; [done|]. intros Heq. rewrite Heq in *. congruence.
Qed.

Lemma remove_id_wf m i : wf m → wf (remove_id m i).1.
Proof.
  intros W. destruct W as [W1 W2]. unfold remove_id. destruct (id_map_ m !! i) as [h|] eqn:E; [|done].
  destruct (W1 _ _ E) as [Hi Hp]. split; simpl; intros k h2 Hx.
  - apply lookup_delete_Some in Hx as [Hne Hx]. destruct (W1 _ _ Hx) as [? Hq]. split; [done|].
    rewrite lookup_delete_ne; [done|]. intros Heq. rewrite Heq in *. simplify_eq.
  - apply lookup_delete_Some in Hx as [Hne Hx]. destruct (W2 _ _ Hx) as [? Hq]. split; [done|].
    rewrite lookup_delete_ne; [done|]. intros Heq. rewrite Heq in *. simplify_eq.
Qed.

(** A buffer that was inserted is found under its id and its payload, the others as before. *)
Lemma insert_get m h m' :
  insert m h = Ok m' →
  get_id m' (hid h) = Some h ∧ get_payload m' (hpayload h) = Some h ∧
  (∀ i, i ≠ hid h → get_id m' i = get_id m i) ∧
  (∀ p, p ≠ hpayload h → get_payload m' p = get_payload m p).
Proof.
  unfold insert, get_id, get_payload. intros H. unbind. simplify_eq. simpl.
  rewrite !lookup_insert_eq. split_and!; [done..| |]; intros; by rewrite lookup_insert_ne.
Qed.

(** A buffer that was removed is found no more, neither under its id nor under its payload. *)
Lemma remove_get m h :
  wf m → get_id m (hid h) = Some h →
  let m' := (remove m h).1 in
  get_id m' (hid h) = None ∧ get_payload m' (hpayload h) = None ∧
  (∀ i, i ≠ hid h → get_id m' i = get_id m i) ∧
  (∀ p, p ≠ hpayload h → get_payload m' p = get_payload m p).
Proof.
  unfold remove, remove_id, get_id, get_payload. intros _ ->. simpl.
  rewrite !lookup_delete_eq. split_and!; [done..| |]; intros; by rewrite lookup_delete_ne.
Qed.

(** Registering the same memory twice ends in a failed assertion. *)
Lemma insert_same_payload m h h' m' :
  insert m h = Ok m' → hpayload h' = hpayload h → insert m' h' = Throw AssertFailed.
Proof.
  intros H Hp. destruct (insert_get _ _ _ H) as (_ & Hg & _). unfold get_payload in Hg.
  unfold insert. rewrite Hp. destruct (F_ASSERT (bool_decide (id_map_ _ !! hid h' = None))) eqn:E.
  - cbn [mbind outcome_bind]. by rewrite bool_decide_eq_false_2 by (by rewrite Hg).
  - cbn [mbind outcome_bind]. unfold F_ASSERT in E. case_match; congruence.
Qed.

End BufferMap.

(** * Reservations

    The threads of [simple_reservation_manager] add one to an atomic counter to ask for a
    reservation and take it away again, in a second atomic step, when they were too late. *)

Module Reservations.

(** The counter, the threads that hold a reservation, and the ones between their two steps. *)
Record state := mkState { outstanding_reservations_ : Z; held : nat; late : nat }.

Definition initial : state := mkState 0 0 0.

Inductive step (max_reservations_ : Z) : state → state → Prop :=
| get_ok s :
    (outstanding_reservations_ s < max_reservations_)%Z →
    step max_reservations_ s
      (mkState (outstanding_reservations_ s + 1) (S (held s)) (late s))
| get_late s :
    (max_reservations_ ≤ outstanding_reservations_ s)%Z →
    step max_reservations_ s
      (mkState (outstanding_reservations_ s + 1) (held s) (S (late s)))
| get_undo s n :
    late s = S n →
    step max_reservations_ s (mkState (outstanding_reservations_ s - 1) (held s) n)
| return_reservation s n :
    held s = S n →
    step max_reservations_ s (mkState (outstanding_reservations_ s - 1) n (late s)).

Definition counted (max : Z) (s : state) : Prop :=
  (outstanding_reservations_ s = Z.of_nat (held s) + Z.of_nat (late s))%Z ∧
  (Z.of_nat (held s) ≤ max)%Z.

Lemma step_counted max s s' : step max s s' → counted max s → counted max s'.
Proof. intros [] [H1 H2]; split; simpl; lia. Qed.

Lemma steps_counted max s s' : rtc (step max) s s' → counted max s → counted max s'.
Proof. induction 1; eauto using step_counted. Qed.

End Reservations.

(** Whatever the interleaving, no more reservations are held than the queue has places; the
    counter counts those that are held and the attempts about to be taken back. *)
Lemma reservations_bounded max s :
  (0 ≤ max)%Z → rtc (Reservations.step max) Reservations.initial s →
  (Z.of_nat (Reservations.held s) ≤ max)%Z ∧
  (Reservations.outstanding_reservations_ s
   = Z.of_nat (Reservations.held s) + Z.of_nat (Reservations.late s))%Z.
Proof.
  intros Hm H. destruct (Reservations.steps_counted _ _ _ H) as [H1 H2]; [by split|done].
Qed.

(** * Event queues *)

Module EventQueue.

(** The queue of events, of fixed size, the notifications that wait in its pipe (fewer than the
    pipe holds), and the counter of its [simple_reservation_manager], between the atomic steps
    above. *)
Record nnti_event_queue := mkQueue {
  q_size_ : nat;
  q_ : list NNTI_event_t;
  notifications : nat;
  outstanding : Z;
  cb_ : NNTI_event_t → NNTI_result_t
}.

Definition new_queue (size : nat) (cb : NNTI_event_t → NNTI_result_t) : nnti_event_queue :=
  mkQueue size [] 0 0 cb.

(** [get_reservation] by one thread at a time. *)
Definition get_reservation (q : nnti_event_queue) : nnti_event_queue * option Z :=
  if (outstanding q <? Z.of_nat (q_size_ q))%Z
  then (mkQueue (q_size_ q) (q_ q) (notifications q) (outstanding q + 1) (cb_ q), Some (outstanding q))
  else (q, None).

(** The callback of a queue that was made without one. *)
Definition default_eq_callback (e : NNTI_event_t) : NNTI_result_t := NNTI_EIO.

Definition push (q : nnti_event_queue) (e : NNTI_event_t) : nnti_event_queue * bool :=
  if bool_decide (length (q_ q) < q_size_ q)
  then (mkQueue (q_size_ q) (q_ q ++ [e]) (notifications q) (outstanding q) (cb_ q), true)
  else (q, false).

Definition pop (q : nnti_event_queue) : nnti_event_queue * option NNTI_event_t :=
  match q_ q with
  | [] => (q, None)
  | e :: es => (mkQueue (q_size_ q) es (notifications q) (outstanding q - 1) (cb_ q), Some e)
  end.

Definition notify (q : nnti_event_queue) : nnti_event_queue :=
  mkQueue (q_size_ q) (q_ q) (S (notifications q)) (outstanding q) (cb_ q).

(** [read(eq->read_fd(), &dummy, 4)] on a pipe that does not block. *)
Definition read_fd (q : nnti_event_queue) : nnti_event_queue :=
  mkQueue (q_size_ q) (q_ q) (pred (notifications q)) (outstanding q) (cb_ q).

Definition invoke_cb (q : nnti_event_queue) (e : NNTI_event_t) : NNTI_result_t := cb_ q e.

(** [q->push(e); q->notify();] *)
Definition post (q : nnti_event_queue) (e : NNTI_event_t) : nnti_event_queue := notify (push q e).1.

(** The first loop of [eq_wait]: the first queue with an event. *)
Fixpoint eq_poll (qs : list nnti_event_queue) : list nnti_event_queue * option (nat * NNTI_event_t) :=
  match qs with
  | [] => ([], None)
  | q :: qs' =>
      match pop q with
      | (q', Some e) => (read_fd q' :: qs', Some (0, e))
      | (q', None) => let '(qs2, r) := eq_poll qs' in (q' :: qs2, prod_map S id <$> r)
      end
  end.

(** The loop after [poll()]: the first queue with a notification and an event. *)
Fixpoint eq_ready (qs : list nnti_event_queue) : list nnti_event_queue * option (nat * NNTI_event_t) :=
  match qs with
  | [] => ([], None)
  | q :: qs' =>
      let skip q' := let '(qs2, r) := eq_ready qs' in (q' :: qs2, prod_map S id <$> r) in
      if bool_decide (0 < notifications q) then
        match pop (read_fd q) with
        | (q', Some e) => (q' :: qs', Some (0, e))
        | (q', None) => skip q'
        end
      else skip q
  end.

(** [eq_wait]; [arrive] is what other threads do to the queues between the first loop and the
    end of [poll()], which times out if there is no notification by then.  When the queues that
    were notified are empty the code returns a variable that it has not set. *)
Definition eq_wait (arrive : list nnti_event_queue → list nnti_event_queue)
    (eq_list : list nnti_event_queue)
    : outcome (list nnti_event_queue * NNTI_result_t * option (nat * NNTI_event_t)) :=
  match eq_poll eq_list with
  | (qs, Some (i, e)) => Ok (qs, NNTI_OK, Some (i, e))
  | (qs, None) =>
      let qs := arrive qs in
      if existsb (λ q, bool_decide (0 < notifications q)) qs then
        match eq_ready qs with
        | (qs', Some (i, e)) => Ok (qs', NNTI_OK, Some (i, e))
        | (qs', None) => Throw Undefined
        end
      else Ok (qs, NNTI_ETIMEDOUT, None)
  end.

(** Every event that waits has its notification. *)
Definition notified (q : nnti_event_queue) : Prop := notifications q = length (q_ q).

(** A queue without its first event, one notification and one reservation. *)
Definition taken (q : nnti_event_queue) : nnti_event_queue :=
  mkQueue (q_size_ q) (tail (q_ q)) (pred (notifications q)) (outstanding q - 1) (cb_ q).

Lemma taken_notified q : notified q → notified (taken q).
Proof. unfold notified. simpl. intros ->. by destruct (q_ q). Qed.

Lemma post_notified q e : notified q → length (q_ q) < q_size_ q → notified (post q e).
Proof.
  unfold notified, post, push. intros H Hl. rewrite bool_decide_eq_true_2 by done. simpl.
  rewrite H, length_app. simpl. lia.
Qed.

(** The first loop takes the first event of the first queue that has one. *)
Lemma eq_poll_spec qs :
  match eq_poll qs with
  | (qs', Some (i, e)) =>
      ∃ q es, qs !! i = Some q ∧ q_ q = e :: es ∧ qs' = <[i := taken q]> qs ∧
              Forall (λ q, q_ q = []) (take i qs)
  | (qs', None) => qs' = qs ∧ Forall (λ q, q_ q = []) qs
  end.
Proof.
  induction qs as [|q qs IH]; simpl; [done|].
  unfold pop. destruct (q_ q) as [|e es] eqn:E.
  - destruct (eq_poll qs) as [qs2 [[i e]|]]; simpl.
    + destruct IH as (q2 & es & Hi & He & -> & Hf). exists q2, es. auto.
    + destruct IH as [-> Hf]. auto.
  - exists q, es. split_and!; try done. unfold taken, read_fd. simpl. by rewrite E.
Qed.

(** Where every event has its notification, [poll()] finds the same event as the first loop. *)
Lemma eq_ready_poll qs : Forall notified qs → eq_ready qs = eq_poll qs.
Proof.
  induction 1 as [|q qs Hq _ IH]; simpl; [done|]. unfold notified in Hq.
  rewrite IH. unfold pop. simpl. rewrite Hq. destruct (q_ q) as [|e es] eqn:E; simpl.
  - done.
  - done.
Qed.

Lemma ready_iff qs :
  Forall notified qs →
  existsb (λ q, bool_decide (0 < notifications q)) qs = false ↔ Forall (λ q, q_ q = []) qs.
Proof.
  induction 1 as [|q qs Hq _ IH]; simpl; [done|]. rewrite orb_false_iff, IH, Forall_cons.
  unfold notified in Hq. rewrite bool_decide_eq_false, Hq.
  assert (¬ 0 < length (q_ q) ↔ q_ q = []) as ->; [|done].
  rewrite <-length_zero_iff_nil. lia.
Qed.

(** [eq_wait] on queues in which every event has its notification. *)
Lemma eq_wait_cases arrive qs :
  Forall notified (arrive qs) →
  eq_wait arrive qs =
  match eq_poll qs with
  | (qs', Some x) => Ok (qs', NNTI_OK, Some x)
  | _ => match eq_poll (arrive qs) with
         | (qs', Some x) => Ok (qs', NNTI_OK, Some x)
         | _ => Ok (arrive qs, NNTI_ETIMEDOUT, None)
         end
  end.
Proof.
  intros Ha. unfold eq_wait. pose proof (eq_poll_spec qs) as Hs.
  destruct (eq_poll qs) as [qs1 [[i e]|]]; [done|]. destruct Hs as [-> _].
  destruct (existsb _ _) eqn:E.
  - rewrite eq_ready_poll by done. pose proof (eq_poll_spec (arrive qs)) as Hs.
    destruct (eq_poll (arrive qs)) as [qs2 [[i e]|]]; [done|]. destruct Hs as [-> Hs].
    apply ready_iff in Hs; [|done]. congruence.
  - apply ready_iff in E; [|done]. pose proof (eq_poll_spec (arrive qs)) as Hs.
    destruct (eq_poll (arrive qs)) as [qs2 [[i e]|]]; [|done]. destruct Hs as (q & es & Hi & He & _).
    rewrite Forall_lookup in E. by rewrite (E _ _ Hi) in He.
Qed.

End EventQueue.

(** Where every event that is pushed has its notification, [eq_wait] never returns an unset
    result: it takes the oldest event of the first queue that has one, now or after what arrives
    while it waits, tells which queue it was, and leaves every other event; it times out exactly
    when all queues are empty. *)
Theorem eq_wait_spec arrive qs :
  Forall EventQueue.notified qs → Forall EventQueue.notified (arrive qs) →
  ∃ qs0 qs' rc r,
    EventQueue.eq_wait arrive qs = Ok (qs', rc, r) ∧ (qs0 = qs ∨ qs0 = arrive qs) ∧
    Forall EventQueue.notified qs' ∧
    match r with
    | Some (i, e) =>
        rc = NNTI_OK ∧ ∃ q es, qs0 !! i = Some q ∧ EventQueue.q_ q = e :: es ∧
          qs' = <[i := EventQueue.taken q]> qs0 ∧ EventQueue.q_ (EventQueue.taken q) = es
    | None => rc = NNTI_ETIMEDOUT ∧ qs' = arrive qs ∧
              Forall (λ q, EventQueue.q_ q = []) qs ∧ Forall (λ q, EventQueue.q_ q = []) (arrive qs)
    end.
Proof.
  intros Hn Ha. rewrite EventQueue.eq_wait_cases by done.
  assert (∀ l i e qs1, Forall EventQueue.notified l → EventQueue.eq_poll l = (qs1, Some (i, e)) →
    Forall EventQueue.notified qs1 ∧
    ∃ q es, l !! i = Some q ∧ EventQueue.q_ q = e :: es ∧
      qs1 = <[i := EventQueue.taken q]> l ∧ EventQueue.q_ (EventQueue.taken q) = es) as Htake.
  { intros l i e qs1 Hl E. pose proof (EventQueue.eq_poll_spec l) as Hs. rewrite E in Hs.
    destruct Hs as (q & es & Hi & He & -> & _). split.
    - apply Forall_insert; [done|]. apply EventQueue.taken_notified. by eapply Forall_lookup_1.
    - exists q, es. split_and!; try done. simpl. by rewrite He. }
  pose proof (EventQueue.eq_poll_spec qs) as Hs.
  destruct (EventQueue.eq_poll qs) as [qs1 [[i e]|]] eqn:E1.
  { destruct (Htake _ _ _ _ Hn E1). exists qs, qs1, NNTI_OK, (Some (i, e)). auto 10. }
  destruct Hs as [_ Hs]. pose proof (EventQueue.eq_poll_spec (arrive qs)) as Hs2.
  destruct (EventQueue.eq_poll (arrive qs)) as [qs2 [[i e]|]] eqn:E2.
  { destruct (Htake _ _ _ _ Ha E2). exists (arrive qs), qs2, NNTI_OK, (Some (i, e)). auto 10. }
  destruct Hs2 as [_ Hs2]. exists qs, (arrive qs), NNTI_ETIMEDOUT, None. auto 10.
Qed.

Definition sample_event (n : Z) : NNTI_event_t :=
  mkEvent NNTI_EVENT_RECV NNTI_OK NNTI_OP_SEND 4096 0 n 7 0.

Lemma eq_wait_spec_witness :
  let q := EventQueue.post (EventQueue.new_queue 2 EventQueue.default_eq_callback) (sample_event 5) in
  ∃ qs, EventQueue.eq_wait id [EventQueue.new_queue 2 EventQueue.default_eq_callback; q]
        = Ok (qs, NNTI_OK, Some (1, sample_event 5)) ∧ Forall EventQueue.notified qs.
Proof.
  intros q. set (l := [EventQueue.new_queue 2 EventQueue.default_eq_callback; q]).
  assert (Forall EventQueue.notified l) as Hl by (repeat constructor).
  destruct (eq_wait_spec id l Hl Hl) as (qs0 & qs' & rc & r & E & H0 & Hn & _).
  exists qs'. split; [|done]. rewrite E. clear H0 Hn.
  vm_compute in E. injection E as <- <- <-. reflexivity.
Defined.

(** The notification is written after the event is pushed: a waiter that takes the event in
    between finds no notification to read, and the one that comes then makes the next wait
    return a result that was never set. *)
Example late_notification :
  let q := EventQueue.new_queue 2 EventQueue.default_eq_callback in
  let q1 := (EventQueue.push q (sample_event 5)).1 in
  match EventQueue.eq_wait id [q1] with
  | Ok ([q2], NNTI_OK, Some _) => EventQueue.eq_wait id [EventQueue.notify q2]
  | _ => Throw FuelExhausted
  end = Throw Undefined.
Proof. reflexivity. Qed.

(** An event that finds the queue full is lost, and its notification has the same effect. *)
Example lost_event :
  let q := EventQueue.new_queue 1 EventQueue.default_eq_callback in
  let q2 := EventQueue.post (EventQueue.post q (sample_event 5)) (sample_event 6) in
  EventQueue.q_ q2 = [sample_event 5] ∧
  match EventQueue.eq_wait id [q2] with
  | Ok (qs, _, _) => EventQueue.eq_wait id qs
  | Throw e => Throw e
  end = Throw Undefined.
Proof. split; reflexivity. Qed.

(** Events are pushed without a reservation, and popping one returns one: a queue for one event
    then grants two reservations. *)
Example reservations_overreturned :
  let q := (EventQueue.push (EventQueue.new_queue 1 EventQueue.default_eq_callback) (sample_event 5)).1 in
  let '(q1, r1) := EventQueue.get_reservation (EventQueue.pop q).1 in
  let '(q2, r2) := EventQueue.get_reservation q1 in
  (r1, r2) = (Some (-1), Some 0)%Z.
Proof. reflexivity. Qed.

(** * Free lists *)

Module Freelist.

Record nnti_freelist (A : Type) := mkFreelist { stack_size_ : nat; stack_ : list A }.
Arguments mkFreelist {A}.
Arguments stack_size_ {A}.
Arguments stack_ {A}.

Definition new_freelist {A} (size : nat) : nnti_freelist A := mkFreelist size [].

Definition push {A} (f : nnti_freelist A) (t : A) : nnti_freelist A * bool :=
  if bool_decide (length (stack_ f) < stack_size_ f)
  then (mkFreelist (stack_size_ f) (t :: stack_ f), true) else (f, false).

Definition pop {A} (f : nnti_freelist A) : nnti_freelist A * option A :=
  match stack_ f with
  | [] => (f, None)
  | t :: ts => (mkFreelist (stack_size_ f) ts, Some t)
  end.

Definition empty {A} (f : nnti_freelist A) : bool :=
  match stack_ f with [] => true | _ => false end.

(** What was pushed last is popped first; a full list refuses, and never holds more than its
    size. *)
Lemma push_pop {A} (f : nnti_freelist A) t :
  length (stack_ f) ≤ stack_size_ f →
  length (stack_ (push f t).1) ≤ stack_size_ f ∧
  if (push f t).2 then pop (push f t).1 = (f, Some t)
  else (push f t).1 = f ∧ length (stack_ f) = stack_size_ f.
Proof.
  intros H. unfold push. case_bool_decide; simpl; [|split; [done|]; split; [done|lia]].
  split; [lia|]. by destruct f.
Qed.

End Freelist.
