(* ===== verification/NntiCore.v ===== *)
(** NNTI's tables and names (src/src/nnti): nnti_vector.hpp (handles as indices),
    nnti_connection.hpp (connections by id and by process), nnti_op.hpp and nnti_wid.cpp (queues
    and maps of operations and work ids), nnti_url.cpp and nnti_pid.cpp (the URL of a process and
    its id), and transport_factory.cpp (which transport a configuration asks for).

    [gethostbyname], [boost::lexical_cast] and the transports that were built in are
    arguments. *)
From S2P Require Import Prelude StringHelpers Identifiers Configuration NntiBuffers.

(** * Vectors of handles *)

Module Vector.
Section vector.
Context {T : Type} (max_size : Z).

(** [std::vector<T*>] with [nullptr] as [None]. *)
Record nnti_vector := mkVector { vector_ : list (option T); lowest_avail_ : nat }.

Definition new_vector (initial_size : nat) : nnti_vector := mkVector (replicate initial_size None) 0.

(** The loop for a new lowest available index, from [i]. *)
Fixpoint find_null (l : list (option T)) (i : nat) : option nat :=
  match l with
  | [] => None
  | x :: l' =>
      match i with
      | O => match x with None => Some O | Some _ => S <$> find_null l' O end
      | S i' => S <$> find_null l' i'
      end
  end.

(** [vector_.resize(n, nullptr)] *)
Definition resize (l : list (option T)) (n : nat) : list (option T) :=
  take n l ++ replicate (n - length l) None.

Definition add (v : nnti_vector) (t : T) : outcome (nnti_vector * nat) :=
  let index := lowest_avail_ v in
  if bool_decide (index < length (vector_ v)) then
    let l := <[index := Some t]> (vector_ v) in
    match find_null l (S index) with
    | Some i => Ok (mkVector l i, index)
    | None =>
        let old_size := length l in
        if (Z.of_nat old_size =? max_size)%Z then Throw Exit
        else
          let new_size := if (3 * Z.of_nat old_size <? 2 * max_size)%Z
                          then old_size * 3 / 2 else Z.to_nat max_size in
          Ok (mkVector (resize l new_size) (S old_size), index)
    end
  else Throw Undefined.

Definition at_ (v : nnti_vector) (index : nat) : outcome (option T) :=
  match vector_ v !! index with Some t => Ok t | None => Throw Undefined end.

Definition remove (v : nnti_vector) (index : nat) : outcome (nnti_vector * option T) :=
  t ← at_ v index;
  Ok (mkVector (<[index := None]> (vector_ v))
        (if bool_decide (index < lowest_avail_ v) then index else lowest_avail_ v), t).

(** ** The vector as a table of handles *)

(** The handles in use. *)
Definition live (v : nnti_vector) (i : nat) : option T := mjoin (vector_ v !! i).

Record wf (v : nnti_vector) : Prop := {
  wf_length : 4 ≤ length (vector_ v);
  wf_lowest : vector_ v !! lowest_avail_ v = Some None
}.

Lemma find_null_spec l i j : find_null l i = Some j → i ≤ j ∧ l !! j = Some None.
Proof.
  revert i j. induction l as [|x l IH]; intros i j; simpl; [done|].
  destruct i as [|i].
  - destruct x as [t|].
    + intros (k & Hk & ->)%fmap_Some. destruct (IH _ _ Hk). split; [lia|done].
    + intros [= <-]. done.
  - intros (k & Hk & ->)%fmap_Some. destruct (IH _ _ Hk). split; [lia|done].
Qed.

Lemma new_vector_wf n : 4 ≤ n → wf (new_vector n).
Proof.
  intros Hn. split; simpl; [by rewrite length_replicate|]. by apply lookup_replicate_2; lia.
Qed.

Lemma resize_lookup l n i :
  length l ≤ n → mjoin (resize l n !! i) = mjoin (l !! i).
Proof.
  intros Hn. unfold resize. rewrite take_ge by done.
  destruct (decide (i < length l)); [by rewrite lookup_app_l|].
  rewrite lookup_app_r by lia. rewrite (lookup_ge_None_2 l i) by lia.
  destruct (decide (i - length l < n - length l)).
  - by rewrite lookup_replicate_2.
  - by rewrite lookup_ge_None_2 by (rewrite length_replicate; lia).
Qed.

Lemma insert_live l i (t : T) j :
  i < length l → mjoin (<[i := Some t]> l !! j) = if decide (j = i) then Some t else mjoin (l !! j).
Proof.
  intros Hi. destruct (decide (j = i)) as [->|Hne].
  - by rewrite list_lookup_insert_eq.
  - by rewrite list_lookup_insert_ne.
Qed.

(** [add] gives an index that was not in use, and keeps the others. *)
Lemma add_spec v t :
  wf v → (3 * Z.of_nat (length (vector_ v)) < 2 * max_size)%Z →
  ∃ v' i, add v t = Ok (v', i) ∧ wf v' ∧ live v i = None ∧
          ∀ j, live v' j = if decide (j = i) then Some t else live v j.
Proof.
  intros [Hl Hlow] Hmax. unfold add. set (i := lowest_avail_ v) in *.
  assert (i < length (vector_ v)) as Hi by (by eapply lookup_lt_Some).
  rewrite bool_decide_eq_true_2 by done.
  destruct (find_null _ _) as [j|] eqn:E.
  - apply find_null_spec in E as [Hj Hnull]. eexists _, _. split; [done|]. split_and!.
    + split; simpl; [by rewrite length_insert|done].
    + unfold live. fold i. by rewrite Hlow.
    + intros k. unfold live. simpl. by apply insert_live.
  - rewrite length_insert. rewrite (proj2 (Z.eqb_neq _ _)) by lia.
    rewrite (proj2 (Z.ltb_lt _ _)) by lia.
    set (n := length (vector_ v)) in *.
    assert (n + 2 ≤ n * 3 / 2) as Hgrow.
    { apply Nat.div_le_lower_bound; lia. }
    eexists _, _. split; [done|]. split_and!.
    + split; cbn [vector_ lowest_avail_]; unfold resize.
      * rewrite length_app, length_take, length_replicate, length_insert. fold n. lia.
      * rewrite take_ge by (rewrite length_insert; fold n; lia).
        rewrite lookup_app_r by (rewrite length_insert; fold n; lia).
        rewrite length_insert. fold n. apply lookup_replicate_2. lia.
    + unfold live. fold i. by rewrite Hlow.
    + intros k. unfold live. cbn [vector_]. rewrite resize_lookup by (rewrite length_insert; fold n; lia).
      by apply insert_live.
Qed.

(** [remove] gives what was at the index, and frees it. *)
Lemma remove_spec v i :
  wf v → i < length (vector_ v) →
  ∃ v', remove v i = Ok (v', live v i) ∧ wf v' ∧
        ∀ j, live v' j = if decide (j = i) then None else live v j.
Proof.
  intros [Hl Hlow] Hi. destruct (lookup_lt_is_Some_2 _ _ Hi) as [x Hx].
  unfold remove, at_, live. rewrite Hx. cbn [mbind outcome_bind]. eexists. split; [done|]. split.
  - split; simpl; [by rewrite length_insert|]. case_bool_decide.
    + by apply list_lookup_insert_eq.
    + destruct (decide (i = lowest_avail_ v)) as [->|]; [by apply list_lookup_insert_eq|].
      by rewrite list_lookup_insert_ne.
  - intros j. simpl. destruct (decide (j = i)) as [->|Hne].
    + by rewrite list_lookup_insert_eq.
    + by rewrite list_lookup_insert_ne.
Qed.

End vector.
Arguments nnti_vector : clear implicits.
End Vector.

(** The users of a vector and the handles they hold: what they add, until they remove it. *)
Inductive vector_step {T} (max_size : Z) :
    Vector.nnti_vector T * gmap nat T → Vector.nnti_vector T * gmap nat T → Prop :=
| step_add v m t v' i :
    (3 * Z.of_nat (length (Vector.vector_ v)) < 2 * max_size)%Z →
    Vector.add max_size v t = Ok (v', i) → vector_step max_size (v, m) (v', <[i := t]> m)
| step_remove v m i v' r :
    is_Some (m !! i) → Vector.remove v i = Ok (v', r) → vector_step max_size (v, m) (v', delete i m).

Lemma vector_step_ok {T} max_size (v : Vector.nnti_vector T) m v' m' :
  vector_step max_size (v, m) (v', m') →
  Vector.wf v ∧ (∀ i, Vector.live v i = m !! i) →
  Vector.wf v' ∧ (∀ i, Vector.live v' i = m' !! i).
Proof.
  intros H [Hwf Hm]. inversion H as [? ? t ? i Hmax Ha|? ? i ? r [t Hi] Hr]; subst.
  - destruct (Vector.add_spec max_size v t Hwf Hmax) as (v2 & i2 & E & Hwf' & _ & Hl).
    rewrite Ha in E. injection E as <- <-. split; [done|]. intros j. rewrite Hl.
    destruct (decide (j = i)) as [->|]; [by rewrite lookup_insert_eq|].
    by rewrite lookup_insert_ne.
  - assert (i < length (Vector.vector_ v)) as Hlt.
    { pose proof (Hm i) as Hl. rewrite Hi in Hl. unfold Vector.live in Hl.
      destruct (Vector.vector_ v !! i) eqn:E; [by eapply lookup_lt_Some|done]. }
    destruct (Vector.remove_spec v i Hwf Hlt) as (v2 & E & Hwf' & Hl).
    rewrite Hr in E. injection E as <- _. split; [done|]. intros j. rewrite Hl.
    destruct (decide (j = i)) as [->|]; [by rewrite lookup_delete_eq|].
    by rewrite lookup_delete_ne.
Qed.

Lemma vector_steps_ok {T} max_size (x y : Vector.nnti_vector T * gmap nat T) :
  rtc (vector_step max_size) x y →
  Vector.wf x.1 ∧ (∀ i, Vector.live x.1 i = x.2 !! i) →
  Vector.wf y.1 ∧ (∀ i, Vector.live y.1 i = y.2 !! i).
Proof.
  induction 1 as [|[v m] [v' m'] z Hs _ IH]; [done|]. intros Hx. by eapply IH, vector_step_ok.
Qed.

(** A vector of handles that starts with at least four places is a finite map from the
    indices given out to the objects behind them, whatever is added and removed: [add] always
    succeeds while there is memory and gives an index that is not in use, [at] finds what was
    added, and [remove] gives it back. *)
Theorem vector_refines_map {T} max_size n (v : Vector.nnti_vector T) (m : gmap nat T) :
  4 ≤ n → rtc (vector_step max_size) (Vector.new_vector n, ∅) (v, m) →
  (∀ i t, m !! i = Some t →
     Vector.at_ v i = Ok (Some t) ∧ ∃ v', Vector.remove v i = Ok (v', Some t)) ∧
  (∀ i, m !! i = None → i < length (Vector.vector_ v) → Vector.at_ v i = Ok None) ∧
  (∀ t, (3 * Z.of_nat (length (Vector.vector_ v)) < 2 * max_size)%Z →
     ∃ v' i, Vector.add max_size v t = Ok (v', i) ∧ m !! i = None).
Proof.
  intros Hn Hsteps.
  destruct (vector_steps_ok _ _ _ Hsteps) as [Hwf Hlive].
  { split; [by apply Vector.new_vector_wf|]. intros i. simpl. rewrite lookup_empty.
    unfold Vector.live. simpl. destruct (replicate n None !! i) as [x|] eqn:E; [|done].
    by apply lookup_replicate_1 in E as [-> _]. }
  simpl in *. assert (∀ i t, m !! i = Some t → Vector.vector_ v !! i = Some (Some t)) as Hat.
  { intros i t Hi. specialize (Hlive i). unfold Vector.live in Hlive.
    destruct (Vector.vector_ v !! i) as [[x|]|]; simpl in Hlive; congruence. }
  split_and!.
  - intros i t Hi. pose proof (Hat _ _ Hi) as E. unfold Vector.at_. rewrite E. split; [done|].
    unfold Vector.remove, Vector.at_. rewrite E. cbn [mbind outcome_bind]. eauto.
  - intros i Hi Hlt. specialize (Hlive i). unfold Vector.live in Hlive.
    destruct (lookup_lt_is_Some_2 _ _ Hlt) as [x E]. rewrite E in Hlive. unfold Vector.at_.
    rewrite E. simpl in Hlive. by rewrite Hlive, Hi.
  - intros t Hmax. destruct (Vector.add_spec max_size v t Hwf Hmax) as (v' & i & E & _ & Hfree & _).
    exists v', i. split; [done|]. by rewrite <-Hlive.
Qed.

Lemma vector_refines_map_witness :
  let v := Vector.mkVector [Some 10%Z; None; None; None] 1 in
  Vector.at_ v 0 = Ok (Some 10%Z) ∧ Vector.at_ v 2 = Ok None ∧
  ∃ v' i, Vector.add (2 ^ 60) v 20%Z = Ok (v', i) ∧ i ≠ 0.
Proof.
  intros v.
  assert (rtc (vector_step (2 ^ 60)) (Vector.new_vector 4, ∅) (v, <[0 := 10%Z]> ∅)) as Hs.
  { apply rtc_once. by apply step_add. }
  destruct (vector_refines_map (2 ^ 60) 4 v _ ltac:(lia) Hs) as (H1 & H2 & H3).
  split_and!.
  - by apply (H1 0 10%Z).
  - apply H2; [done|simpl; lia].
  - destruct (H3 20%Z) as (v' & i & E & Hi); [done|]. exists v', i. split; [done|].
    intros ->. done.
Defined.

(** The fourth handle makes a vector of four places grow to six, of which index 4 is passed over;
    the fifth takes the last, and the vector grows again. *)
Example vector_grows :
  foldl (λ acc t, v ← acc; x ← Vector.add (2 ^ 60) v.1 t; Ok (x.1, v.2 ++ [x.2]))
    (Ok (Vector.new_vector 4, [])) [10%Z; 20%Z; 30%Z; 40%Z; 50%Z]
  = Ok (Vector.mkVector [Some 10; Some 20; Some 30; Some 40; None; Some 50; None; None; None]%Z 7,
        [0; 1; 2; 3; 5]).
Proof. vm_compute. reflexivity. Qed.

(** With two or three places, half as much again is not enough for the next index, which is then
    written outside of the vector. *)
Example small_vector_overruns :
  (v1 ← Vector.add (2 ^ 60) (Vector.new_vector 2) 10%Z;
   v2 ← Vector.add (2 ^ 60) v1.1 20%Z;
   Vector.add (2 ^ 60) v2.1 30%Z) = Throw Undefined.
Proof. vm_compute. reflexivity. Qed.

(** * Connections *)

Module Connections.

(** A connection: its address, its id and the process at the other end. *)
Record conn := mkConn { at_ : Z; cid : Z; cpid : Z }.

#[global] Instance conn_eq_dec : EqDecision conn.
Proof. solve_decision. Defined.

(** [std::set<nnti_connection *>] is the set of addresses. *)
Record nnti_connection_map := mkMap {
  id_map_ : gmap Z conn;
  pid_map_ : gmap Z conn;
  conn_set_ : gset Z
}.

Definition empty_map : nnti_connection_map := mkMap ∅ ∅ ∅.

(** A connection to a process that has one is not inserted. *)
Definition insert (m : nnti_connection_map) (c : conn) : outcome nnti_connection_map :=
  match pid_map_ m !! cpid c with
  | None =>
      F_ASSERT (bool_decide (id_map_ m !! cid c = None));;
      F_ASSERT (bool_decide (at_ c ∉ conn_set_ m));;
      Ok (mkMap (<[cid c := c]> (id_map_ m)) (<[cpid c := c]> (pid_map_ m)) ({[at_ c]} ∪ conn_set_ m))
  | Some _ => Ok m
  end.

Definition get_id (m : nnti_connection_map) (id : Z) : option conn := id_map_ m !! id.
Definition get_pid (m : nnti_connection_map) (pid : Z) : option conn := pid_map_ m !! pid.

(** [remove(conn)] erases what is found under the id and under the process; erasing a pointer
    that is not in the set is erasing at its end. *)
Definition remove (m : nnti_connection_map) (c : conn) : outcome (nnti_connection_map * option conn) :=
  let id_conn := id_map_ m !! cid c in
  if bool_decide (at_ c ∈ conn_set_ m) then
    Ok (mkMap (delete (cid c) (id_map_ m)) (delete (cpid c) (pid_map_ m)) (conn_set_ m ∖ {[at_ c]}),
        id_conn)
  else Throw Undefined.

(** The three indices hold the same connections. *)
Record wf (m : nnti_connection_map) : Prop := {
  wf_id : ∀ i c, id_map_ m !! i = Some c → cid c = i ∧ pid_map_ m !! cpid c = Some c;
  wf_pid : ∀ p c, pid_map_ m !! p = Some c → cpid c = p ∧ id_map_ m !! cid c = Some c;
  wf_set : ∀ a, a ∈ conn_set_ m ↔ ∃ p c, pid_map_ m !! p = Some c ∧ at_ c = a;
  wf_at : ∀ p q c d, pid_map_ m !! p = Some c → pid_map_ m !! q = Some d → at_ c = at_ d → c = d
}.

Lemma empty_wf : wf empty_map.
Proof.
  split; simpl; try (intros; by rewrite lookup_empty in *). intros a. split; [set_solver|].
  intros (p & c & H & _). by rewrite lookup_empty in H.
Qed.

Lemma conn_insert_wf m c m' : insert m c = Ok m' → wf m → wf m'.
Proof.
  unfold insert. intros H W. destruct (pid_map_ m !! cpid c) as [d|] eqn:E; [by simplify_eq|].
  unbind. simplify_eq. rewrite !bool_decide_eq_true in *. destruct W as [W1 W2 W3 W4].
  assert (∀ p d, pid_map_ m !! p = Some d → at_ d ≠ at_ c) as Hfresh.
  { intros p d Hd Heq. match goal with H : at_ c ∉ _ |- _ => apply H end. apply W3. eauto. }
  split; simpl.
  - intros i d [[<- <-]|[Hne Hd]]%lookup_insert_Some; [by rewrite lookup_insert_eq|].
    destruct (W1 _ _ Hd) as [? Hp]. split; [done|]. rewrite lookup_insert_ne; [done|congruence].
  - intros p d [[<- <-]|[Hne Hd]]%lookup_insert_Some; [by rewrite lookup_insert_eq|].
    destruct (W2 _ _ Hd) as [? Hi]. split; [done|]. rewrite lookup_insert_ne; [done|congruence].
  - intros a. rewrite elem_of_union, elem_of_singleton, W3. split.
    + intros [->|(p & d & Hd & <-)]; [exists (cpid c), c; by rewrite lookup_insert_eq|].
      exists p, d. split; [|done]. rewrite lookup_insert_ne; [done|congruence].
    + intros (p & d & [[<- <-]|[Hne Hd]]%lookup_insert_Some & <-); eauto.
  - intros p q d1 d2 [[<- <-]|[? Hd1]]%lookup_insert_Some [[<- <-]|[? Hd2]]%lookup_insert_Some Heq;
      [done| | |by eauto].
    + by destruct (Hfresh _ _ Hd2).
    + by destruct (Hfresh _ _ Hd1).
Qed.

Lemma remove_ok m c :
  wf m → get_id m (cid c) = Some c →
  ∃ m', remove m c = Ok (m', Some c) ∧ wf m' ∧
        (∀ i, get_id m' i = if decide (i = cid c) then None else get_id m i) ∧
        (∀ p, get_pid m' p = if decide (p = cpid c) then None else get_pid m p).
Proof.
  intros [W1 W2 W3 W4] Hc. unfold get_id, get_pid in *. destruct (W1 _ _ Hc) as [_ Hp].
  unfold remove. rewrite bool_decide_eq_true_2 by (apply W3; eauto). rewrite Hc.
  eexists. split; [done|]. split.
  - split; simpl.
    + intros i d [Hne Hd]%lookup_delete_Some. destruct (W1 _ _ Hd) as [<- Hq]. split; [done|].
      rewrite lookup_delete_ne; [done|]. intros Heq. rewrite <-Heq, Hp in Hq. congruence.
    + intros p d [Hne Hd]%lookup_delete_Some. destruct (W2 _ _ Hd) as [<- Hi]. split; [done|].
      rewrite lookup_delete_ne; [done|]. intros Heq. rewrite <-Heq, Hc in Hi. congruence.
    + intros a. rewrite elem_of_difference, elem_of_singleton, W3. split.
      * intros [(p & d & Hd & <-) Hne]. exists p, d. split; [|done].
        rewrite lookup_delete_ne; [done|]. intros <-. congruence.
      * intros (p & d & [Hne Hd]%lookup_delete_Some & <-). split; [eauto|].
        intros Heq. pose proof (W4 _ _ _ _ Hd Hp Heq) as ->.
        by destruct (W2 _ _ Hd) as [<- _].
    + intros p q d1 d2 [_ H1]%lookup_delete_Some [_ H2]%lookup_delete_Some. eauto.
  - split; simpl; intros k; case_decide as Hk; subst.
    all: try (by rewrite lookup_delete_eq). all: by rewrite lookup_delete_ne.
Qed.

(** Inserting a connection to a new process, with an id and address of its own. *)
Lemma insert_ok m c :
  get_pid m (cpid c) = None → get_id m (cid c) = None → at_ c ∉ conn_set_ m →
  ∃ m', insert m c = Ok m' ∧
        (∀ i, get_id m' i = if decide (i = cid c) then Some c else get_id m i) ∧
        (∀ p, get_pid m' p = if decide (p = cpid c) then Some c else get_pid m p).
Proof.
  unfold get_id, get_pid. intros Hp Hi Ha. unfold insert. rewrite Hp.
  rewrite !bool_decide_eq_true_2 by done. eexists. split; [done|]. simpl.
  split; intros k; case_decide as Hk; subst; rewrite ?lookup_insert_eq; [done| |done|].
  all: by rewrite lookup_insert_ne.
Qed.

End Connections.

(** Along every sequence of insertions and removals of inserted connections, a connection is
    found under its id exactly when it is found under its process: the maps and the set of the
    connection table never disagree; removing a connection that is in the table succeeds, gives
    it back, and takes it out of both. *)
Theorem connections_coherent m :
  rtc (λ m m', (∃ c, Connections.insert m c = Ok m') ∨
               (∃ c r, Connections.get_id m (Connections.cid c) = Some c ∧
                       Connections.remove m c = Ok (m', r))) Connections.empty_map m →
  (∀ c, Connections.get_id m (Connections.cid c) = Some c ↔
        Connections.get_pid m (Connections.cpid c) = Some c) ∧
  (∀ c, Connections.get_id m (Connections.cid c) = Some c →
     ∃ m', Connections.remove m c = Ok (m', Some c) ∧
           Connections.get_id m' (Connections.cid c) = None ∧
           Connections.get_pid m' (Connections.cpid c) = None).
Proof.
  intros Hsteps. assert (Connections.wf m) as W.
  { revert Hsteps. apply rtc_ind_r; [apply Connections.empty_wf|].
    intros y z _ [[c Hc]|(c & r & Hc & Hr)] W.
    - by eapply Connections.conn_insert_wf.
    - destruct (Connections.remove_ok y c W Hc) as (m' & E & W' & _). rewrite Hr in E.
      by injection E as <- _. }
  split.
  - intros c. destruct W as [W1 W2 _ _]. split; intros H.
    + by destruct (W1 _ _ H).
    + by destruct (W2 _ _ H).
  - intros c Hc. destruct (Connections.remove_ok m c W Hc) as (m' & E & _ & Hi & Hp).
    exists m'. split; [done|]. rewrite Hi, Hp, !decide_True by done. done.
Qed.

(** The second connection to a process is not in the table, and removing it takes the first one
    out of the map of processes on the way to undefined behaviour. *)
Example second_connection :
  let c1 := Connections.mkConn 100 1 7 in
  let c2 := Connections.mkConn 200 2 7 in
  (m1 ← Connections.insert Connections.empty_map c1;
   m2 ← Connections.insert m1 c2;
   Ok (Connections.get_pid m2 7, Connections.get_id m2 2))
  = Ok (Some c1, None) ∧
  (m1 ← Connections.insert Connections.empty_map c1;
   m2 ← Connections.insert m1 c2;
   Connections.remove m2 c2) = Throw Undefined.
Proof. split; vm_compute; reflexivity. Qed.

Lemma connections_coherent_witness :
  let c := Connections.mkConn 100 1 7 in
  ∃ m m', Connections.insert Connections.empty_map c = Ok m ∧
    Connections.get_id m 1 = Some c ∧ Connections.get_pid m 7 = Some c ∧
    Connections.remove m c = Ok (m', Some c) ∧ Connections.get_pid m' 7 = None.
Proof.
  intros c.
  destruct (Connections.insert_ok Connections.empty_map c) as (m & E & Hi & Hp); [done..|].
  destruct (connections_coherent m) as [H1 H2].
  { apply rtc_once. left. eauto. }
  assert (Connections.get_id m 1 = Some c) as Hc by (by rewrite Hi).
  destruct (H2 c Hc) as (m' & Er & _ & Hg). pose proof (proj1 (H1 c) Hc) as Hc2.
  exists m, m'. split_and!; done.
Defined.

(** * Operations and work ids *)

Module Ops.

(** An operation or work id: its address, its id, and whether it is complete; ids come from an
    atomic counter of 32 bits. *)
Record op := mkOp { at_ : Z; oid : Z; complete_ : bool }.

#[global] Instance op_eq_dec : EqDecision op.
Proof. solve_decision. Defined.

Definition new_op (next_id address : Z) : op * Z := (mkOp address next_id false, u32 (next_id + 1)).
Definition new_work_id (next_id address : Z) : op * Z := (mkOp address next_id false, u32 (next_id + 1)).

(** [nnti_op_queue]; the front of an empty deque is undefined. *)
Definition queue_push (q : list op) (o : op) : list op := q ++ [o].
Definition queue_pop (q : list op) : outcome (list op * op) :=
  match q with [] => Throw Undefined | o :: q' => Ok (q', o) end.
Definition queue_front (q : list op) : outcome op :=
  match q with [] => Throw Undefined | o :: _ => Ok o end.
Definition queue_empty (q : list op) : bool := match q with [] => true | _ => false end.

(** [nnti_op_map] *)
Definition map_insert (m : gmap Z op) (o : op) : outcome (gmap Z op) :=
  F_ASSERT (bool_decide (m !! oid o = None));; Ok (<[oid o := o]> m).
Definition map_get (m : gmap Z op) (id : Z) : option op := m !! id.
Definition map_remove_id (m : gmap Z op) (id : Z) : gmap Z op * option op :=
  match m !! id with Some o => (delete id m, Some o) | None => (m, None) end.
Definition map_remove (m : gmap Z op) (o : op) : gmap Z op * option op := map_remove_id m (oid o).
Definition map_empty (m : gmap Z op) : bool := bool_decide (m = ∅).

(** [nnti_work_id_queue] *)
Definition wid_push (q : list op) (o : op) : list op := q ++ [o].
Definition wid_pop (q : list op) : outcome (list op * op) :=
  match q with [] => Throw Undefined | o :: q' => Ok (q', o) end.
Definition wid_front (q : list op) : outcome op :=
  match q with [] => Throw Undefined | o :: _ => Ok o end.
Definition wid_queue_empty (q : list op) : bool := match q with [] => true | _ => false end.
Fixpoint first_incomplete (q : list op) : option op :=
  match q with
  | [] => None
  | o :: q' => if complete_ o then first_incomplete q' else Some o
  end.

(** [nnti_work_id_map] *)
Definition wid_insert (m : gmap Z op) (o : op) : outcome (gmap Z op) :=
  F_ASSERT (bool_decide (m !! oid o = None));; Ok (<[oid o := o]> m).
Definition wid_get (m : gmap Z op) (id : Z) : option op := m !! id.
Definition wid_remove_id (m : gmap Z op) (id : Z) : gmap Z op * option op :=
  match m !! id with Some o => (delete id m, Some o) | None => (m, None) end.
Definition wid_remove (m : gmap Z op) (o : op) : gmap Z op * option op := wid_remove_id m (oid o).
Definition wid_map_empty (m : gmap Z op) : bool := bool_decide (m = ∅).

(** The first work id of the queue that is not complete, if there is one. *)
Lemma first_incomplete_spec q :
  match first_incomplete q with
  | Some o => ∃ a b, q = a ++ o :: b ∧ Forall (λ o, complete_ o = true) a ∧ complete_ o = false
  | None => Forall (λ o, complete_ o = true) q
  end.
Proof.
  induction q as [|o q IH]; simpl; [done|]. destruct (complete_ o) eqn:E.
  - destruct (first_incomplete q) as [x|]; [|auto].
    destruct IH as (a & b & -> & Ha & Hx). exists (o :: a), b. auto.
  - exists [], q. auto.
Qed.

(** What was inserted is found and given back, and the map is then as it was. *)
Lemma wid_insert_remove m o m' :
  wid_insert m o = Ok m' → wid_get m' (oid o) = Some o ∧ wid_remove m' o = (m, Some o).
Proof.
  unfold wid_insert, wid_get, wid_remove, wid_remove_id. intros H. unbind. simplify_eq.
  rewrite bool_decide_eq_true in *. rewrite lookup_insert_eq, delete_insert_id by done. done.
Qed.

(** Ids of operations are used again after 2^32 of them; inserting one whose id is still in the
    map fails an assertion. *)
Lemma id_collision m o o' m' :
  map_insert m o = Ok m' → oid o' = oid o → map_insert m' o' = Throw AssertFailed.
Proof.
  unfold map_insert. intros H Hid. unbind. simplify_eq. rewrite Hid, lookup_insert_eq. done.
Qed.

End Ops.

(** * URLs and process ids *)

Module Url.

(** [s.rfind(c)] *)
Fixpoint rlast (c : ascii) (s : str) : option nat :=
  match s with
  | [] => None
  | x :: s' =>
      match rlast c s' with
      | Some i => Some (S i)
      | None => if x =c? c then Some 0 else None
      end
  end.

(** [s.rfind(c, pos)] *)
Definition rfind (c : ascii) (s : str) (pos : nat) : option nat := rlast c (take (S pos) s).

(** [s.find(pat)] is not [npos] *)
Fixpoint contains (pat s : str) : bool :=
  StringBeginsWith s pat || match s with [] => false | _ :: s' => contains pat s' end.

(** [parse()]: the result, the host name and the port; a host name starts at position 7. *)
Definition parse (url : str) : NNTI_result_t * str * str :=
  if contains (lit "http://") url then
    let path := default (length url) (find_from (λ c, c =c? "/"%char) url 7) in
    let port_start := rfind ":"%char url path in
    let hostname :=
      match port_start with
      | Some p => if bool_decide (p < 7) then slice url 7 (Some path) else slice url 7 (Some p)
      | None => slice url 7 (Some path)
      end in
    let port :=
      match port_start with
      | Some p =>
          if bool_decide (7 < p) then
            if bool_decide (url !! path = Some "/"%char) then slice url (S p) (Some path)
            else slice url (S p) (Some (S path))
          else []
      | None => []
      end in
    (NNTI_OK, hostname, port)
  else (NNTI_EINVAL, [], []).

Section resolver.
(** The resolver, [boost::lexical_cast] to unsigned integers of a width, and what an address
    holds that was never set. *)
Context (gethostbyname : str → option Z) (lexical_cast : Z → str → option Z) (unset : Z).

Record nnti_url := mkUrl { url_ : str; hostname_ : str; port_ : str; addr_ : Z; pid_ : Z }.

Definition hostname2addr (hostname : str) : Z := default unset (gethostbyname (c_str hostname)).

Definition has_port (port : str) : bool := negb (port =s? []).

Definition port_as_ushort (port : str) : Z :=
  if has_port port then default 0%Z (lexical_cast 16 port) else 0%Z.

Definition to_pid (addr : Z) (port : str) : Z :=
  NodeID.nid (NodeID.of_ip_port addr (port_as_ushort port)).

Definition nnti_url_string (url : str) : nnti_url :=
  let '(_, h, p) := parse url in
  mkUrl url h p (hostname2addr h) (to_pid (hostname2addr h) p).

Definition to_url (pid : Z) : str := NodeID.GetHttpLink (NodeID.mk pid) [].

Definition nnti_url_pid (pid : Z) : nnti_url :=
  let '(_, h, p) := parse (to_url pid) in mkUrl (to_url pid) h p unset pid.

Definition nnti_url_host (hostname port : str) : nnti_url :=
  mkUrl (lit "http://" ++ hostname ++ lit ":" ++ port ++ lit "/") hostname port
    (hostname2addr hostname) (to_pid (hostname2addr hostname) port).

Definition nnti_url_port (hostname : str) (port : Z) : nnti_url :=
  nnti_url_host hostname (show_dec port).

(** [nnti_pid::to_pid(string)] *)
Definition url_to_pid (url : str) : Z := pid_ (nnti_url_string url).

(** [str2uint32] and [str2uint64] *)
Definition str2uint32 (s : str) : Z := default 0%Z (lexical_cast 32 s).
Definition str2uint64 (s : str) : Z := default 0%Z (lexical_cast 64 s).

(** [dt_pid_to_url]: [strncpy] into [maxlen] bytes, then a NUL at the last. *)
Definition dt_pid_to_url (pid : Z) (maxlen : nat) : outcome str :=
  let s := c_str (to_url pid) in
  if bool_decide (maxlen = 0) then Throw Undefined
  else Ok (take (maxlen - 1) (take maxlen (s ++ replicate maxlen zero)) ++ [zero]).
End resolver.

End Url.

(** ** URLs read back *)

Lemma rlast_None c s : c ∉ s → Url.rlast c s = None.
Proof.
  induction s as [|x s IH]; simpl; [done|]. rewrite not_elem_of_cons. intros [Hx Hs].
  rewrite IH by done. by rewrite bool_decide_eq_false_2.
Qed.

Lemma rlast_last c a b : c ∉ b → Url.rlast c (a ++ c :: b) = Some (length a).
Proof.
  intros Hb. induction a as [|x a IH]; simpl.
  - rewrite rlast_None by done. by rewrite bool_decide_eq_true_2.
  - by rewrite IH.
Qed.

(** Characters of a host name or a port. *)
Definition name_char (c : ascii) : Prop := c ≠ "/"%char ∧ c ≠ ":"%char.

(** What may follow the port. *)
Definition path_or_end (rest : str) : Prop := rest = [] ∨ ∃ r, rest = "/"%char :: r.

Lemma path_start h p rest :
  Forall name_char h → Forall name_char p → path_or_end rest →
  let url := lit "http://" ++ h ++ ":"%char :: p ++ rest in
  default (length url) (find_from (λ c, c =c? "/"%char) url 7) = 7 + length h + S (length p).
Proof.
  intros Hh Hp Hrest url. unfold url. change 7 with (length (lit "http://")) at 1.
  rewrite find_from_app.
  replace (h ++ ":"%char :: p ++ rest) with ((h ++ ":"%char :: p) ++ rest) by (by rewrite <-app_assoc).
  rewrite find_from_skip.
  - destruct Hrest as [->|[r ->]]; cbn [find_from fmap option_fmap option_map default].
    + rewrite app_nil_r, !length_app. simpl. lia.
    + rewrite bool_decide_eq_true_2 by done. simpl. rewrite length_app. simpl. lia.
  - apply Forall_forall. intros c Hc. apply bool_decide_eq_false.
    rewrite Forall_forall in Hh, Hp. apply elem_of_app in Hc as [Hc|Hc]; [by apply Hh|].
    apply elem_of_cons in Hc as [->|Hc]; [done|by apply Hp].
Qed.

Lemma rfind_port h p rest :
  Forall name_char p → path_or_end rest →
  Url.rfind ":"%char (lit "http://" ++ h ++ ":"%char :: p ++ rest) (7 + length h + S (length p))
  = Some (7 + length h).
Proof.
  intros Hp Hrest. unfold Url.rfind.
  replace (lit "http://" ++ h ++ ":"%char :: p ++ rest)
    with ((lit "http://" ++ h) ++ ":"%char :: (p ++ rest)) by (by rewrite <-app_assoc).
  rewrite take_app_ge by (rewrite length_app; simpl; lia).
  rewrite length_app. change (length (lit "http://")) with 7.
  replace (S (7 + length h + S (length p)) - (7 + length h)) with (S (S (length p))) by lia.
  cbn [take]. rewrite take_app_ge by lia.
  replace (S (length p) - length p) with 1 by lia.
  rewrite rlast_last; [by rewrite length_app|].
  rewrite not_elem_of_app. rewrite Forall_forall in Hp. split.
  - intros Hin. by destruct (Hp _ Hin).
  - destruct Hrest as [->|[r ->]]; simpl; set_solver.
Qed.

(** The parser finds a host and a port that have neither slashes nor colons, with and without a
    path after them. *)
Lemma parse_host_port h p rest :
  Forall name_char h → Forall name_char p → h ≠ [] → path_or_end rest →
  Url.parse (lit "http://" ++ h ++ ":"%char :: p ++ rest) = (NNTI_OK, h, p).
Proof.
  intros Hh Hp Hne Hrest. unfold Url.parse.
  change (Url.contains (lit "http://") (lit "http://" ++ h ++ ":"%char :: p ++ rest)) with true.
  cbv zeta. rewrite path_start, rfind_port by done.
  destruct h as [|c h]; [done|]. set (hn := c :: h) in *.
  rewrite bool_decide_eq_false_2 by lia.
  rewrite bool_decide_eq_true_2 by (unfold hn; simpl; lia).
  assert (∀ n, slice (lit "http://" ++ hn ++ ":"%char :: p ++ rest) 7 (Some (7 + n))
               = take n (hn ++ ":"%char :: p ++ rest)) as Hs.
  { intros n. unfold slice. by replace (7 + n - 7) with n by lia. }
  assert (∀ n, slice (lit "http://" ++ hn ++ ":"%char :: p ++ rest) (S (7 + length hn))
                 (Some (7 + length hn + S n)) = take n (p ++ rest)) as Hs2.
  { intros n. unfold slice. replace (7 + length hn + S n - S (7 + length hn)) with n by lia.
    f_equal. change (S (7 + length hn)) with (7 + S (length hn)).
    rewrite (app_assoc (lit "http://")), cons_middle, app_assoc.
    rewrite drop_app_ge by (rewrite !length_app; simpl; lia).
    rewrite !length_app. change (length (lit "http://")) with 7. simpl length.
    by replace (7 + S (S (length h)) - (7 + S (length h) + 1)) with 0 by lia. }
  f_equal; [f_equal|].
  - rewrite Hs. by rewrite take_app_length.
  - case_bool_decide as Hat.
    + etrans; [apply (Hs2 (length p))|]. apply take_app_length.
    + replace (S (7 + length hn + S (length p))) with (7 + length hn + S (S (length p))) by lia.
      etrans; [apply (Hs2 (S (length p)))|].
      destruct Hrest as [->|[r ->]].
      * rewrite app_nil_r. by rewrite take_ge by lia.
      * exfalso. apply Hat.
        replace (lit "http://" ++ hn ++ ":"%char :: p ++ "/"%char :: r)
          with ((lit "http://" ++ hn ++ ":"%char :: p) ++ "/"%char :: r) by (by rewrite <-!app_assoc).
        apply list_lookup_middle. rewrite !length_app. simpl. lia.
Qed.

Lemma digits_name_char n : (0 ≤ n)%Z → Forall name_char (show_dec n).
Proof.
  intros Hn. eapply Forall_impl; [by apply (show_base_digits 10)|].
  intros c Hc. simpl in Hc. split; intros ->; vm_compute in Hc; discriminate Hc.
Qed.

Lemma ip_name_char n : Forall name_char (NodeID.GetIP n).
Proof.
  unfold NodeID.GetIP, NodeID.octet. rewrite !Forall_app.
  repeat split; try (apply digits_name_char, land_255); by repeat constructor.
Qed.

Lemma c_str_ip n : c_str (NodeID.GetIP n) = NodeID.GetIP n.
Proof.
  rewrite <-(app_nil_r (NodeID.GetIP n)) at 1. rewrite c_str_app; [apply app_nil_r|].
  unfold NodeID.GetIP, NodeID.octet. rewrite !Forall_app.
  repeat split; try (apply show_base_no_nul; [lia|apply land_255]); repeat constructor; done.
Qed.

Section pids.
Context (gethostbyname : str → option Z) (lexical_cast : Z → str → option Z) (unset : Z).
(** The resolver knows dotted addresses, and [lexical_cast] the decimal numbers of its width. *)
Hypothesis resolves : ∀ n, gethostbyname (NodeID.GetIP n) = Some (wrap 32 (NodeID.nid n)).
Hypothesis casts : ∀ bits z, in_width bits z → lexical_cast bits (show_dec z) = Some z.

Lemma url_of_pid_fields pid :
  Url.parse (Url.to_url pid)
  = (NNTI_OK, NodeID.GetIP (NodeID.mk pid), NodeID.GetPort (NodeID.mk pid)).
Proof.
  unfold Url.to_url, NodeID.GetHttpLink.
  apply (parse_host_port (NodeID.GetIP (NodeID.mk pid)) (NodeID.GetPort (NodeID.mk pid)) []).
  - apply ip_name_char.
  - apply digits_name_char. change 65535%Z with (2 ^ 16 - 1)%Z. rewrite land_ones_wrap by done.
    by apply wrap_in_width.
  - unfold NodeID.GetIP. intros Hnil. apply app_nil in Hnil as [_ Hnil]. discriminate Hnil.
  - by left.
Qed.

(** The URL of a process id gives the id back: printed as an address and a port, parsed and
    resolved again, every id with an address and a 16-bit port is itself, for a resolver that
    knows dotted addresses and a [lexical_cast] that reads decimal numbers of its width.  A URL
    made of a host and a port is parsed into them. *)
Theorem pid_url_roundtrip pid h p :
  in_width 48 pid → Forall name_char h → Forall name_char p → h ≠ [] →
  Url.url_to_pid gethostbyname lexical_cast unset (Url.to_url pid) = pid ∧
  Url.pid_ (Url.nnti_url_string gethostbyname lexical_cast unset
              (Url.url_ (Url.nnti_url_host gethostbyname lexical_cast unset h p)))
  = Url.pid_ (Url.nnti_url_host gethostbyname lexical_cast unset h p).
Proof.
  intros [H0 H1] Hh Hp Hne. split.
  - unfold Url.url_to_pid, Url.nnti_url_string. rewrite url_of_pid_fields. cbn [Url.pid_].
    unfold Url.hostname2addr, Url.to_pid, Url.port_as_ushort, Url.has_port.
    replace (c_str (NodeID.GetIP (NodeID.mk pid))) with (NodeID.GetIP (NodeID.mk pid)).
    2:{ symmetry. apply c_str_ip. }
    rewrite resolves. unfold NodeID.GetPort. cbn [NodeID.nid].
    rewrite bool_decide_eq_false_2 by apply show_base_nonempty. cbn [negb].
    assert (Z.land (Z.shiftr pid 32) 65535 = pid / 2 ^ 32)%Z as ->.
    { change 65535%Z with (2 ^ 16 - 1)%Z. rewrite land_ones_wrap, Z.shiftr_div_pow2 by done.
      apply wrap_id. split; [by apply Z.div_pos|]. apply Z.div_lt_upper_bound; lia. }
    assert (0 ≤ pid / 2 ^ 32 < 2 ^ 16)%Z as Hport.
    { split; [by apply Z.div_pos|]. apply Z.div_lt_upper_bound; lia. }
    rewrite (casts 16) by exact Hport. cbn [default NodeID.of_ip_port NodeID.nid].
    cbn [default]. unfold from_option, id.
    rewrite makeNodeID_arith; [|by apply wrap_in_width|lia].
    unfold wrap. pose proof (Z.div_mod pid (2 ^ 32)). lia.
  - unfold Url.nnti_url_string, Url.nnti_url_host. cbn [Url.url_].
    change (lit "http://" ++ h ++ lit ":" ++ p ++ lit "/")
      with (lit "http://" ++ h ++ ":"%char :: p ++ ["/"%char]).
    rewrite parse_host_port; [done..|right; by exists []].
Qed.

End pids.

(** A resolver of dotted addresses, and a cast of decimal numbers. *)
Definition resolve_dotted (s : str) : option Z :=
  match Split s "."%char false with
  | [a; b; c; d] => Some (atoi a * 2 ^ 24 + atoi b * 2 ^ 16 + atoi c * 2 ^ 8 + atoi d)%Z
  | _ => None
  end.

Definition cast_decimal (bits : Z) (s : str) : option Z :=
  let '(v, rest) := read_digits 10 0 s in
  if bool_decide (s ≠ [] ∧ rest = [] ∧ (v < 2 ^ bits)%Z) then Some v else None.

Lemma resolve_dotted_ip n : resolve_dotted (NodeID.GetIP n) = Some (wrap 32 (NodeID.nid n)).
Proof.
  unfold NodeID.GetIP, NodeID.octet. set (o k := Z.land (Z.shiftr (NodeID.nid n) k) 255).
  change (resolve_dotted (dotted (o 24) (o 16) (o 8) (o 0)) = Some (wrap 32 (NodeID.nid n)))%Z.
  assert (∀ k, 0 ≤ o k ≤ 255)%Z as Ho by (intros k; apply land_255).
  unfold resolve_dotted. rewrite Split_dotted by apply Ho.
  rewrite !atoi_show_dec by (pose proof (Ho 24%Z); pose proof (Ho 16%Z); pose proof (Ho 8%Z);
    pose proof (Ho 0%Z); lia).
  f_equal. apply (octets_of_ip (NodeID.nid n)).
Qed.

Lemma cast_decimal_ok bits z : in_width bits z → cast_decimal bits (show_dec z) = Some z.
Proof.
  intros [H0 H1]. unfold cast_decimal.
  pose proof (read_show_base 10 ltac:(lia) z [] H0 I) as Hr. rewrite app_nil_r in Hr. rewrite Hr.
  rewrite bool_decide_eq_true_2; [done|]. split_and!; [apply show_base_nonempty|done|done].
Qed.

Lemma pid_url_roundtrip_witness :
  Url.url_to_pid resolve_dotted cast_decimal 0 (Url.to_url 0x1f907f000001) = 0x1f907f000001%Z.
Proof.
  apply (pid_url_roundtrip resolve_dotted cast_decimal 0 resolve_dotted_ip cast_decimal_ok
    0x1f907f000001 (lit "node1") (lit "80")); [done| | |done];
  repeat constructor; discriminate.
Defined.

(** The host name starts at position 7 wherever the scheme is. *)
Example scheme_elsewhere :
  Url.parse (lit "x http://node1:80/") = (NNTI_OK, [], []) ∧
  Url.parse (lit "nnti://node1:80/") = (NNTI_EINVAL, [], []).
Proof. split; vm_compute; reflexivity. Qed.

(** * The choice of a transport *)

Module Factory.

Inductive NNTI_transport_id_t :=
| NNTI_TRANSPORT_NULL | NNTI_TRANSPORT_IBVERBS | NNTI_TRANSPORT_UGNI | NNTI_TRANSPORT_MPI.

#[global] Instance NNTI_transport_id_eq_dec : EqDecision NNTI_transport_id_t.
Proof. solve_decision. Defined.

(** The number of an id; the variable that holds one may have other values. *)
Definition id_of (t : NNTI_transport_id_t) : Z :=
  match t with
  | NNTI_TRANSPORT_NULL => 0 | NNTI_TRANSPORT_IBVERBS => 1
  | NNTI_TRANSPORT_UGNI => 2 | NNTI_TRANSPORT_MPI => 3
  end.

Section build.
(** Which transports were built, and the default among them. *)
Context (ibverbs ugni mpi : bool) (default_transport : NNTI_transport_id_t).

Definition id_key : str := lit "nnti.transport.id".
Definition proto_key : str := lit "nnti.transport.protocol".
Definition name_key : str := lit "nnti.transport.name".
Definition name_key2 : str := lit "net.transport.name".

Definition transport_named (trans_name : str) : option NNTI_transport_id_t :=
  if trans_name =s? lit "null" then Some NNTI_TRANSPORT_NULL
  else if trans_name =s? lit "ibverbs" then Some NNTI_TRANSPORT_IBVERBS
  else if trans_name =s? lit "mpi" then Some NNTI_TRANSPORT_MPI
  else if trans_name =s? lit "ugni" then Some NNTI_TRANSPORT_UGNI
  else None.

(** The id that the configuration asks for, by number or by name. *)
Definition wanted (config : Configuration) : outcome (Configuration * Z) :=
  '(rc, v) ← GetInt config id_key (lit "0");
  if negb (rc =? 0)%Z then
    let '(rc2, name2) := GetLowercaseString config name_key2 [] in
    let '(rc1, name1) := GetLowercaseString config name_key [] in
    if negb (rc2 =? 0)%Z && negb (rc1 =? 0)%Z then
      let trans_id := id_of default_transport in Ok (Set_int config id_key trans_id, trans_id)
    else
      let trans_name := if (rc2 =? 0)%Z then name2 else name1 in
      match transport_named trans_name with
      | None => Throw RuntimeError
      | Some t => Ok (Set_int config id_key (id_of t), id_of t)
      end
  else Ok (config, s32 (default 0%Z v)).

Definition set_transport (config : Configuration) (name proto : str) : Configuration :=
  Set_ (Set_ config name_key name) proto_key proto.

(** The transports as they fall back, the configuration they get, and the id the transport is
    recorded under; no transport is [nullptr]. *)
Definition instance (config : Configuration) (trans_id : Z)
    : outcome (Configuration * option NNTI_transport_id_t * Z) :=
  if (trans_id =? 0)%Z
  then Ok (set_transport config (lit "null") (lit "null"), Some NNTI_TRANSPORT_NULL, trans_id)
  else if ((trans_id =? 1) && ibverbs)%Z
  then Ok (set_transport config (lit "ibverbs") (lit "ib"), Some NNTI_TRANSPORT_IBVERBS, trans_id)
  else
    let trans_id := if (trans_id =? 1)%Z then 3%Z else trans_id in
    if ((trans_id =? 2) && ugni)%Z
    then Ok (set_transport config (lit "ugni") (lit "ugni"), Some NNTI_TRANSPORT_UGNI, trans_id)
    else
      let trans_id := if (trans_id =? 2)%Z then 3%Z else trans_id in
      if (trans_id =? 3)%Z then
        if mpi
        then Ok (set_transport config (lit "mpi") (lit "mpi"), Some NNTI_TRANSPORT_MPI, trans_id)
        else Throw Exit
      else Ok (config, None, trans_id).

(** [get_instance(config)], with the map of transports. *)
Definition get_instance (transport_map : gmap Z (option NNTI_transport_id_t)) (config : Configuration)
    : outcome (gmap Z (option NNTI_transport_id_t) * Configuration * option NNTI_transport_id_t) :=
  '(config, trans_id) ← wanted config;
  '(config, t, trans_id) ← instance config trans_id;
  Ok (<[trans_id := t]> transport_map, config, t).

(** [get_instance(trans_id, config)] and [get_instance(trans_name, config)] *)
Definition get_instance_id transport_map (trans_id : NNTI_transport_id_t) (config : Configuration) :=
  get_instance transport_map (Set_int config id_key (id_of trans_id)).
Definition get_instance_name transport_map (trans_name : str) (config : Configuration) :=
  get_instance transport_map (Set_ config name_key trans_name).

Definition exists_ (transport_map : gmap Z (option NNTI_transport_id_t)) (trans_id : NNTI_transport_id_t)
    : bool := bool_decide (is_Some (transport_map !! id_of trans_id)).

(** Which transports are there. *)
Definition built (t : NNTI_transport_id_t) : bool :=
  match t with
  | NNTI_TRANSPORT_NULL => true | NNTI_TRANSPORT_IBVERBS => ibverbs
  | NNTI_TRANSPORT_UGNI => ugni | NNTI_TRANSPORT_MPI => mpi
  end.

(** A transport that was not built is replaced by MPI, and without MPI the process aborts. *)
Lemma instance_spec config t :
  match instance config (id_of t) with
  | Ok (config', Some t', id) =>
      built t' = true ∧ id = id_of t' ∧ (t' = t ∨ built t = false ∧ t' = NNTI_TRANSPORT_MPI)
  | Ok (_, None, _) => False
  | Throw e => e = Exit ∧ built t = false ∧ mpi = false
  end.
Proof. unfold instance, built. destruct t, ibverbs, ugni, mpi; simpl; try done; intuition. Qed.

Lemma GetInt_unset config name :
  (findBestMatch config name (lit "0")).1 = ENOENT →
  GetInt config name (lit "0") = Ok (ENOENT, Some 0%Z).
Proof.
  unfold findBestMatch, GetInt, findBestMatch. intros H. by case_match.
Qed.

(** A configuration that names its transport, and gives no number, gets it, or MPI if it was not
    built; the transport is recorded under its own id. *)
Lemma get_instance_named m config name t :
  (findBestMatch config id_key (lit "0")).1 = ENOENT →
  GetLowercaseString config name_key2 [] = (0%Z, name) → transport_named name = Some t →
  built t || mpi = true →
  ∃ config' t', get_instance m config = Ok (<[id_of t' := Some t']> m, config', Some t') ∧
    built t' = true ∧ (t' = t ∨ built t = false ∧ t' = NNTI_TRANSPORT_MPI).
Proof.
  intros Hid Hname Ht Hb. unfold get_instance, wanted. rewrite GetInt_unset by done.
  cbn [mbind outcome_bind]. rewrite Hname. destruct (GetLowercaseString config name_key []) as [rc1 n1].
  cbn [negb Z.eqb andb ENOENT mbind outcome_bind]. rewrite Ht. cbn [mbind outcome_bind].
  pose proof (instance_spec (Set_int config id_key (id_of t)) t) as Hs.
  destruct (instance _ _) as [[[c [t'|]] id]|e]; cbn [mbind outcome_bind].
  - destruct Hs as (H1 & -> & H2). eauto 10.
  - done.
  - destruct Hs as (_ & H1 & H2). by rewrite H1, H2 in Hb.
Qed.

(** A number that is no transport gives a null pointer, recorded as if it were one. *)
Lemma unknown_id m config id :
  (4 ≤ id < 2 ^ 31)%Z → GetInt config id_key (lit "0") = Ok (0%Z, Some id) →
  get_instance m config = Ok (<[id := None]> m, config, None).
Proof.
  intros Hr Hid. unfold get_instance, wanted. rewrite Hid. cbn [mbind outcome_bind negb Z.eqb].
  assert (s32 (default 0%Z (Some id)) = id) as ->.
  { simpl. unfold s32. unwrap. case_match; lia. }
  unfold instance. rewrite !(proj2 (Z.eqb_neq id _)) by lia. done.
Qed.

End build.
End Factory.
