(* ===== verification/NntiMpi.v ===== *)
(** NNTI over MPI (src/src/nnti/transports/mpi): the tables of outstanding requests, the command
    messages, and what a node does with the commands it receives: sends into buffers or to the
    list of unexpected messages, gets, puts, and atomic operations.

    MPI is the environment: it completes a request of the table, delivers the command messages
    and the long messages, and takes the replies.  Messages that are copied by the application
    into the command itself ([NNTI_OF_ZERO_COPY]) and the connections made over the web server
    are not modelled. *)
From S2P Require Import Prelude DataObject LdoBytes NntiBuffers.
Import EventQueue.

(** * Outstanding requests

    Two vectors of the same shape, of requests and of the objects they are for, and in each
    object its index in them.  [MPI_REQUEST_NULL] and [nullptr] are [None]. *)

Module Outstanding.
Section outstanding.
(** The size above which a removal compacts the vectors. *)
Context (limit : nat).

Record t := mkT {
  requests_ : list (option Z);
  objects_ : list (option Z);
  index_ : gmap Z nat
}.

Definition new : t := mkT [] [] ∅.

Definition add (s : t) (r o : Z) : t :=
  mkT (requests_ s ++ [Some r]) (objects_ s ++ [Some o])
    (<[o := length (objects_ s)]> (index_ s)).

(** [v.erase(std::remove(v.begin(), v.end(), null), v.end())] *)
Definition compact (l : list (option Z)) : list (option Z) :=
  filter (λ x, x ≠ None) l.

(** [v.resize(n)] *)
Definition resize (n : nat) (l : list (option Z)) : list (option Z) :=
  take n l ++ replicate (n - length l) None.

(** The loop that writes the new indices; a null object cannot be written to. *)
Fixpoint reindex (i : nat) (l : list (option Z)) (index : gmap Z nat) : outcome (gmap Z nat) :=
  match l with
  | [] => Ok index
  | Some o :: l' => reindex (S i) l' (<[o := i]> index)
  | None :: _ => Throw Undefined
  end.

Definition remove (s : t) (i : nat) : outcome t :=
  if bool_decide (i < length (requests_ s) ∧ i < length (objects_ s)) then
    let rs := <[i := None]> (requests_ s) in
    let os := <[i := None]> (objects_ s) in
    if bool_decide (limit < length rs) then
      let rs' := compact rs in
      let os' := resize (length rs') (compact os) in
      ix ← reindex 0 os' (index_ s); Ok (mkT rs' os' ix)
    else Ok (mkT rs os (index_ s))
  else Throw Undefined.

(** [MPI_Testany] completes request [i] and makes it null; its object is taken out of the table
    by the index that it has. *)
Definition poll (s : t) (i : nat) : outcome (t * Z) :=
  match objects_ s !! i with
  | Some (Some o) =>
      match index_ s !! o with
      | Some j => s' ← remove (mkT (<[i := None]> (requests_ s)) (objects_ s) (index_ s)) j; Ok (s', o)
      | None => Throw Undefined
      end
  | _ => Throw Undefined
  end.

Definition purge (s : t) : t := mkT [] [] (index_ s).

(** ** The table as a list of pairs *)

Definition request_of (x : option (Z * Z)) : option Z := option_map fst x.
Definition object_of (x : option (Z * Z)) : option Z := option_map snd x.

(** The two vectors hold the requests and objects of [l], and every object knows its index. *)
Record view (s : t) (l : list (option (Z * Z))) : Prop := {
  view_requests : requests_ s = map request_of l;
  view_objects : objects_ s = map object_of l;
  view_index : ∀ i r o, l !! i = Some (Some (r, o)) → index_ s !! o = Some i
}.

(** The requests that are active, each with its object. *)
Definition active (l : list (option (Z * Z))) : list (Z * Z) :=
  flat_map (λ x, match x with Some p => [p] | None => [] end) l.

Lemma active_app l1 l2 : active (l1 ++ l2) = active l1 ++ active l2.
Proof. apply flat_map_app. Qed.

Lemma elem_of_active l p : p ∈ active l ↔ Some p ∈ l.
Proof.
  unfold active. induction l as [|[x|] l IH]; simpl; [set_solver| |]; rewrite elem_of_cons, ?IH; [|naive_solver].
  rewrite elem_of_cons. naive_solver.
Qed.

Lemma view_new : view new [].
Proof. split; simpl; try done. Qed.

Lemma view_add s l r o :
  view s l → o ∉ (active l).*2 → view (add s r o) (l ++ [Some (r, o)]).
Proof.
  intros [Hr Ho Hi] Hfresh. split; simpl.
  - by rewrite Hr, map_app.
  - by rewrite Ho, map_app.
  - intros i r' o' Hl. assert (length (objects_ s) = length l) as Hlen by (by rewrite Ho, length_map).
    apply lookup_app_Some in Hl as [Hl|[Hge Hl]].
    + rewrite lookup_insert_ne; [by eapply Hi|]. intros <-. apply Hfresh.
      apply list_elem_of_fmap. exists (r', o). split; [done|]. apply elem_of_active.
      by eapply list_elem_of_lookup_2.
    + apply list_lookup_singleton_Some in Hl as [Hz [= <- <-]].
      rewrite lookup_insert_eq, Hlen. f_equal. lia.
Qed.

Lemma map_insert_None {B} (f : option (Z * Z) → option B) l i :
  f None = None → <[i := None]> (map f l) = map f (<[i := None]> l).
Proof. intros Hf. rewrite <-Hf. symmetry. apply (list_fmap_insert f). Qed.

Lemma compact_map (f : option (Z * Z) → option Z) l :
  (∀ x, f x = None ↔ x = None) → compact (map f l) = map f (map Some (active l)).
Proof.
  intros Hf. unfold compact, active. induction l as [|x l IH]; [done|]. simpl.
  destruct x as [p|].
  - rewrite filter_cons_True by (rewrite Hf; done). simpl. by rewrite IH.
  - rewrite filter_cons_False by (rewrite Hf; naive_solver). done.
Qed.

Lemma reindex_spec k (l : list (Z * Z)) ix :
  NoDup (l.*2) →
  ∃ ix', reindex k (map object_of (map Some l)) ix = Ok ix' ∧
         (∀ i r o, l !! i = Some (r, o) → ix' !! o = Some (k + i)) ∧
         (∀ o, o ∉ l.*2 → ix' !! o = ix !! o).
Proof.
  revert k ix. induction l as [|[r o] l IH]; intros k ix Hnd; simpl.
  { exists ix. split_and!; [done| |done]. intros i r o Hl. by rewrite lookup_nil in Hl. }
  apply NoDup_cons in Hnd as [Ho Hnd].
  destruct (IH (S k) (<[o := k]> ix) Hnd) as (ix' & E & H1 & H2). exists ix'. split; [done|]. split.
  - intros [|i] r' o' Hl; simpl in Hl.
    + injection Hl as <- <-. rewrite H2, lookup_insert_eq by done. f_equal. lia.
    + rewrite (H1 _ _ _ Hl). f_equal. lia.
  - intros o' [Hne Ho']%not_elem_of_cons. rewrite H2 by done. by rewrite lookup_insert_ne.
Qed.

Lemma view_nodup s l : view s l → NoDup ((active l).*2).
Proof.
  intros [_ _ Hi]. revert Hi. generalize (index_ s). intros ix.
  assert (∀ k, (∀ i r o, l !! i = Some (Some (r, o)) → ix !! o = Some (k + i)) →
               NoDup ((active l).*2)) as Hall; [|intros Hi; by apply (Hall 0)].
  induction l as [|[[r o]|] l IH]; intros k Hi; simpl; [constructor| |].
  - constructor.
    + intros (p & -> & Hp%elem_of_active)%list_elem_of_fmap. destruct p as [r' o]. simpl in Hi.
      apply list_elem_of_lookup_1 in Hp as [j Hj].
      pose proof (Hi 0 _ _ eq_refl) as H0. pose proof (Hi (S j) _ _ Hj) as HS.
      simpl in *. rewrite H0 in HS. injection HS as HS. lia.
    + apply (IH (S k)). intros i r' o' Hl. rewrite (Hi (S i) r' o') by done. f_equal. lia.
  - apply (IH (S k)). intros i r' o' Hl. rewrite (Hi (S i) r' o') by done. f_equal. lia.
Qed.

(** Removing the object at [i], whose request is already null. *)
Lemma remove_view s l i r o :
  requests_ s = map request_of (<[i := None]> l) → objects_ s = map object_of l →
  (∀ i r o, l !! i = Some (Some (r, o)) → index_ s !! o = Some i) → l !! i = Some (Some (r, o)) →
  ∃ s' l', remove s i = Ok s' ∧ view s' l' ∧ active l' = active (<[i := None]> l).
Proof.
  intros Hr Ho Hix Hi. pose proof (lookup_lt_Some _ _ _ Hi) as Hlt. unfold remove.
  rewrite bool_decide_eq_true_2.
  2:{ rewrite Hr, Ho, !length_map, length_insert. done. }
  rewrite Hr, Ho, !map_insert_None, list_insert_insert_eq by done.
  set (l' := <[i := None]> l) in *.
  assert (∀ j r o, l' !! j = Some (Some (r, o)) → index_ s !! o = Some j) as Hix'.
  { intros j r' o' Hj. apply (Hix j r'). unfold l' in Hj.
    apply list_lookup_insert_Some in Hj as [(_ & Hj & _)|[_ Hj]]; [discriminate Hj|done]. }
  case_bool_decide; [|exists (mkT (map request_of l') (map object_of l') (index_ s)), l'; done].
  rewrite !compact_map by (by intros [[??]|]).
  assert (resize (length (map request_of (map Some (active l')))) (map object_of (map Some (active l')))
          = map object_of (map Some (active l'))) as ->.
  { unfold resize. rewrite !length_map, Nat.sub_diag, take_ge by (by rewrite !length_map).
    apply app_nil_r. }
  destruct (reindex_spec 0 (active l') (index_ s)) as (ix & E & H1 & _).
  { by apply (view_nodup (mkT (map request_of l') (map object_of l') (index_ s)) l'). }
  rewrite E. cbn [mbind outcome_bind]. eexists _, (map Some (active l')). split; [done|]. split.
  - split; [done|done|]. intros j r' o' Hj. cbn [index_].
    rewrite list_lookup_fmap in Hj. apply fmap_Some in Hj as (x & Hj & Hx).
    injection Hx as <-. exact (H1 _ _ _ Hj).
  - generalize (active l'). intros k. unfold active. induction k as [|x k IH]; [done|].
    simpl. by rewrite IH.
Qed.

Lemma filter_keeps {A} (P : A → Prop) `{∀ x, Decision (P x)} (l : list A) :
  (∀ x, x ∈ l → P x) → filter P l = l.
Proof.
  induction l as [|x l IH]; intros Hall; [done|].
  rewrite filter_cons_True by (apply Hall; apply elem_of_cons; by left).
  f_equal. apply IH. intros y Hy. apply Hall, elem_of_cons. by right.
Qed.

Lemma active_insert_None l i r o :
  l !! i = Some (Some (r, o)) → NoDup ((active l).*2) →
  active (<[i := None]> l) = filter (λ p, p.2 ≠ o) (active l).
Proof.
  intros Hi Hnd. pose proof (take_drop_middle _ _ _ Hi) as Hsplit.
  pose proof (lookup_lt_Some _ _ _ Hi) as Hlt.
  rewrite insert_take_drop by done. rewrite <-Hsplit in Hnd |- * at 3.
  revert Hnd. generalize (take i l) (drop (S i) l). intros l1 l2 Hnd.
  rewrite !active_app in *. simpl in *. rewrite filter_app, filter_cons_False by (simpl; tauto).
  rewrite fmap_app in Hnd. apply NoDup_app in Hnd as (_ & H1 & Hnd). simpl in Hnd.
  apply NoDup_cons in Hnd as [H2 _]. f_equal; symmetry; apply filter_keeps; intros p Hp Heq.
  - apply (H1 p.2); [by apply list_elem_of_fmap_2|]. rewrite Heq. apply elem_of_cons. by left.
  - apply H2. rewrite <-Heq. by apply list_elem_of_fmap_2.
Qed.

(** The object that [poll] gives for a request is the one that was added with it. *)
Lemma poll_view s l i r o :
  view s l → l !! i = Some (Some (r, o)) →
  ∃ s' l', poll s i = Ok (s', o) ∧ view s' l' ∧ active l' = filter (λ p, p.2 ≠ o) (active l).
Proof.
  intros V Hi. pose proof (view_nodup _ _ V) as Hnd. destruct V as [Hr Ho Hix].
  unfold poll. rewrite Ho, list_lookup_fmap, Hi. cbn [fmap option_fmap option_map object_of snd].
  rewrite (Hix _ _ _ Hi).
  destruct (remove_view (mkT (<[i := None]> (requests_ s)) (map object_of l) (index_ s)) l i r o)
    as (s' & l' & E & V' & Ha); simpl; [by rewrite Hr, map_insert_None|done..|].
  rewrite E. cbn [mbind outcome_bind]. exists s', l'. split_and!; [done..|].
  by rewrite Ha, (active_insert_None l i r o).
Qed.
End outstanding.
End Outstanding.

(** The requests of a transport: each is added with an object that has none, until MPI completes
    it. *)
Inductive request_step (limit : nat) :
    Outstanding.t * list (Z * Z) → Outstanding.t * list (Z * Z) → Prop :=
| request_added s ps r o :
    o ∉ ps.*2 → request_step limit (s, ps) (Outstanding.add s r o, ps ++ [(r, o)])
| request_completed s ps i r s' o :
    Outstanding.requests_ s !! i = Some (Some r) → Outstanding.poll limit s i = Ok (s', o) →
    request_step limit (s, ps) (s', filter (λ p, p.2 ≠ o) ps).

Lemma request_steps_view limit x y :
  rtc (request_step limit) x y →
  (∃ l, Outstanding.view x.1 l ∧ Outstanding.active l = x.2) →
  ∃ l, Outstanding.view y.1 l ∧ Outstanding.active l = y.2.
Proof.
  induction 1 as [|x y z Hs _ IH]; [done|]. intros (l & V & Ha). apply IH.
  destruct Hs as [s ps r o Hf|s ps i r s' o Hi Hp]; simpl in *.
  - exists (l ++ [Some (r, o)]). split; [by apply Outstanding.view_add; [|rewrite Ha]|].
    rewrite Outstanding.active_app, Ha. done.
  - rewrite (Outstanding.view_requests _ _ V), list_lookup_fmap in Hi.
    apply fmap_Some in Hi as ([[r' o']|] & Hi & Hr); [|discriminate Hr].
    destruct (Outstanding.poll_view limit _ _ _ _ _ V Hi) as (s2 & l2 & E & V2 & Ha2).
    rewrite Hp in E. injection E as <- <-. exists l2. by rewrite Ha2, Ha.
Qed.

(** Along every sequence of requests posted and completed, with the compactions in between,
    the vectors of requests and of their objects stay aligned: when MPI completes a request, the
    object that the transport finds and takes out is the one it was posted for, every request
    that is outstanding is in the table, and the table has no other. *)
Theorem outstanding_aligned limit s ps :
  rtc (request_step limit) (Outstanding.new, []) (s, ps) →
  (∀ i r, Outstanding.requests_ s !! i = Some (Some r) →
     ∃ s' o, Outstanding.poll limit s i = Ok (s', o) ∧ (r, o) ∈ ps ∧
             request_step limit (s, ps) (s', filter (λ p, p.2 ≠ o) ps)) ∧
  (∀ r o, (r, o) ∈ ps → ∃ i s', Outstanding.requests_ s !! i = Some (Some r) ∧
                                 Outstanding.poll limit s i = Ok (s', o)).
Proof.
  intros Hsteps. destruct (request_steps_view _ _ _ Hsteps) as (l & V & Ha).
  { exists []. split; [apply Outstanding.view_new|done]. }
  simpl in *. pose proof (Outstanding.view_requests _ _ V) as Hr. split.
  - intros i r Hi. pose proof Hi as Hi0. rewrite Hr, list_lookup_fmap in Hi.
    apply fmap_Some in Hi as ([[r' o]|] & Hi & Hreq); [|discriminate Hreq].
    injection Hreq as <-.
    destruct (Outstanding.poll_view limit _ _ _ _ _ V Hi) as (s' & l' & E & _).
    exists s', o. split_and!; [done| |by eapply request_completed].
    rewrite <-Ha. apply Outstanding.elem_of_active. by eapply list_elem_of_lookup_2.
  - intros r o Hp. rewrite <-Ha, Outstanding.elem_of_active in Hp.
    apply list_elem_of_lookup_1 in Hp as [i Hi].
    destruct (Outstanding.poll_view limit _ _ _ _ _ V Hi) as (s' & l' & E & _).
    exists i, s'. split; [|done]. by rewrite Hr, list_lookup_fmap, Hi.
Qed.

(** Three requests in a table that compacts above one entry: the first to complete is the second,
    and the object of the third is then at another index. *)
Lemma outstanding_aligned_witness :
  ∃ s s', rtc (request_step 1) (Outstanding.new, []) (s, [(10, 100); (12, 102)]%Z) ∧
    Outstanding.requests_ s = [Some 10; Some 12]%Z ∧ Outstanding.poll 1 s 1 = Ok (s', 102%Z).
Proof.
  set (s := Outstanding.add (Outstanding.add (Outstanding.add Outstanding.new 10 100) 11 101) 12 102).
  set (s1 := Outstanding.mkT [Some 10; Some 12]%Z [Some 100; Some 102]%Z
               (<[102%Z := 1]> (<[100%Z := 0]> (Outstanding.index_ s)))).
  assert (rtc (request_step 1) (Outstanding.new, []) (s1, [(10, 100); (12, 102)]%Z)) as Hs.
  { eapply rtc_l; [apply (request_added 1 _ _ 10 100); set_solver|].
    eapply rtc_l; [apply (request_added 1 _ _ 11 101); set_solver|].
    eapply rtc_l; [apply (request_added 1 _ _ 12 102); set_solver|].
    eapply rtc_l; [apply (request_completed 1 s _ 1 11 s1 101); vm_compute; reflexivity|].
    apply rtc_refl. }
  destruct (outstanding_aligned 1 s1 _ Hs) as [H1 _].
  destruct (H1 1 12%Z eq_refl) as (s' & o & E & Ho & _).
  exists s1, s'. split; [done|]. split; [done|]. rewrite E.
  assert (o = 102%Z) as ->; [set_solver|done].
Defined.

(** * Commands *)

(** [cmd_msg_size_] and [offsetof(struct cmd_msg, eager_payload)] *)
Definition cmd_msg_size : Z := 2048.
Definition header_length : Z := 233.

(** A command message; handles of buffers are the addresses of their payloads, 0 for none. *)
Record cmd_msg := mkCmd {
  cmd_op : NNTI_op_t;
  initiator : Z;
  initiator_hdl : Z;
  initiator_offset : Z;
  target_offset : Z;
  payload_length : Z;
  target_base_addr : Z;
  eager_payload : str
}.

#[global] Instance cmd_msg_eq_dec : EqDecision cmd_msg.
Proof. solve_decision. Defined.

Definition eager (c : cmd_msg) : bool := (payload_length c <=? u64 (cmd_msg_size - header_length))%Z.
Definition unexpected (c : cmd_msg) : bool := (target_base_addr c =? 0)%Z.

(** A work request.  A remote handle has the address and the length of the buffer. *)
Record work_request := mkWr {
  wr_op : NNTI_op_t;
  wr_peer : Z;
  local_hdl : Z;
  local_offset : Z;
  remote_hdl : option (Z * Z);
  remote_offset : Z;
  wr_length : Z;
  operand1 : Z;
  operand2 : Z
}.

(** A registered buffer with its event queue and callback. *)
Record target := mkTarget { tbuf : nnti_buffer; teq : option Z; tcb : NNTI_event_t → NNTI_result_t }.

Definition with_buf (b : target) (x : nnti_buffer) : target := mkTarget x (teq b) (tcb b).

(** The state of a transport: its process id, the buffers by payload address, the event queues,
    the queue for unexpected messages and those messages, the command buffers posted to MPI, the
    peers by process id, and the messages sent back by commands, with the tag they have. *)
Inductive reply := Get_data (peer hdl : Z) (bytes : str) | Atomic_data (peer hdl : Z) (bytes : str).

Record transport := mkTransport {
  me : Z;
  buffer_map : gmap Z target;
  queues : gmap Z nnti_event_queue;
  unexpected_queue_ : option Z;
  unexpected_msgs_ : list cmd_msg;
  posted : nat;
  conn_map : gmap Z Z;
  replies : list reply
}.

Definition with_buffer (t : transport) (a : Z) (b : target) : transport :=
  mkTransport (me t) (<[a := b]> (buffer_map t)) (queues t) (unexpected_queue_ t) (unexpected_msgs_ t)
    (posted t) (conn_map t) (replies t).
Definition with_queue (t : transport) (k : Z) (q : nnti_event_queue) : transport :=
  mkTransport (me t) (buffer_map t) (<[k := q]> (queues t)) (unexpected_queue_ t) (unexpected_msgs_ t)
    (posted t) (conn_map t) (replies t).
Definition with_unexpected (t : transport) (l : list cmd_msg) : transport :=
  mkTransport (me t) (buffer_map t) (queues t) (unexpected_queue_ t) l (posted t) (conn_map t) (replies t).
Definition with_posted (t : transport) (n : nat) : transport :=
  mkTransport (me t) (buffer_map t) (queues t) (unexpected_queue_ t) (unexpected_msgs_ t) n (conn_map t)
    (replies t).
Definition with_reply (t : transport) (r : reply) : transport :=
  mkTransport (me t) (buffer_map t) (queues t) (unexpected_queue_ t) (unexpected_msgs_ t) (posted t)
    (conn_map t) (replies t ++ [r]).

(** [post_recv()] and [add_outstanding_cmd_msg] *)
Definition repost (t : transport) : transport := with_posted t (S (posted t)).

(** ** The initiator *)

(** [mpi_cmd_msg::pack], for a message that is not zero-copy: a short payload is copied from the
    local buffer into the message. *)
Definition pack (t : transport) (wr : work_request) : outcome cmd_msg :=
  let c := mkCmd (wr_op wr) (me t) (local_hdl wr) (local_offset wr) (remote_offset wr) (wr_length wr)
             (match remote_hdl wr with Some (a, _) => a | None => 0%Z end) [] in
  match buffer_map t !! local_hdl wr with
  | None => if (local_hdl wr =? 0)%Z then Ok c else Throw Undefined
  | Some b =>
      if eager c then
        bs ← mem_read (mem (tbuf b)) (local_offset wr) (wr_length wr);
        Ok (mkCmd (cmd_op c) (initiator c) (initiator_hdl c) (initiator_offset c) (target_offset c)
              (payload_length c) (target_base_addr c) bs)
      else Ok c
  end.

(** [mpi_cmd_op::set]: the operands of an atomic operation are written over the payload. *)
Definition overlay (bs over : str) : str := over ++ drop (length over) bs.

Definition set_operands (wr : work_request) (c : cmd_msg) : cmd_msg :=
  let over :=
    match wr_op wr with
    | NNTI_OP_ATOMIC_FADD => le 8 (u64 (operand1 wr))
    | NNTI_OP_ATOMIC_CSWAP => le 8 (u64 (operand1 wr)) ++ le 8 (u64 (operand2 wr))
    | _ => []
    end in
  mkCmd (cmd_op c) (initiator c) (initiator_hdl c) (initiator_offset c) (target_offset c)
    (payload_length c) (target_base_addr c) (overlay (eager_payload c) over).

(** [mpi_buffer::length]: the size in the packed form of a buffer has 32 bits. *)
Definition mpi_length (b : nnti_buffer) : Z := u32 (payload_size_ b).

(** The bounds checks of [execute_cmd_op]; the sums are of 64 bits. *)
Definition check_bounds (wr : work_request) (local_length : Z) : NNTI_result_t :=
  if (local_length <? u64 (local_offset wr + wr_length wr))%Z then NNTI_EMSGSIZE
  else
    match remote_hdl wr with
    | Some (_, remote_length) =>
        if (remote_length <? u64 (remote_offset wr + wr_length wr))%Z then NNTI_EMSGSIZE else NNTI_OK
    | None => NNTI_OK
    end.

(** [send]: the command message, and the long message if it is not eager. *)
Definition send (t : transport) (wr : work_request) : outcome (NNTI_result_t * option (cmd_msg * str)) :=
  c ← pack t wr;
  match buffer_map t !! local_hdl wr with
  | None => Throw Undefined
  | Some b =>
      if bool_decide (check_bounds wr (mpi_length (tbuf b)) = NNTI_OK) then
        if eager c then Ok (NNTI_OK, Some (set_operands wr c, []))
        else
          bs ← mem_read (mem (tbuf b)) (local_offset wr) (wr_length wr);
          Ok (NNTI_OK, Some (set_operands wr c, bs))
      else Ok (NNTI_EMSGSIZE, None)
  end.

(** [put], [get] and the atomic operations: the command, and the bytes a put sends with it.  The
    remote handle is not optional. *)
Definition rdma (t : transport) (wr : work_request) : outcome (NNTI_result_t * option (cmd_msg * str)) :=
  c ← pack t wr;
  match buffer_map t !! local_hdl wr, remote_hdl wr with
  | Some b, Some _ =>
      if bool_decide (check_bounds wr (mpi_length (tbuf b)) = NNTI_OK) then
        match wr_op wr with
        | NNTI_OP_PUT =>
            bs ← mem_read (mem (tbuf b)) (local_offset wr) (wr_length wr);
            Ok (NNTI_OK, Some (set_operands wr c, bs))
        | _ => Ok (NNTI_OK, Some (set_operands wr c, []))
        end
      else Ok (NNTI_EMSGSIZE, None)
  | _, _ => Throw Undefined
  end.

(** ** The target *)

(** [create_event] for a message, at an offset of its target. *)
Definition create_event (c : cmd_msg) (peer offset : Z) : NNTI_event_t :=
  if unexpected c
  then mkEvent NNTI_EVENT_UNEXPECTED NNTI_OK NNTI_OP_SEND 0 0 (payload_length c) peer 0
  else mkEvent NNTI_EVENT_RECV NNTI_OK NNTI_OP_SEND (target_base_addr c) offset (payload_length c) peer 0.

(** The callback of a queue, and its queue where the callback does not take the event. *)
Definition offer_queue (t : transport) (k : Z) (e : NNTI_event_t) : outcome transport :=
  match queues t !! k with
  | None => Throw Undefined
  | Some q => if bool_decide (invoke_cb q e = NNTI_OK) then Ok t else Ok (with_queue t k (post q e))
  end.

(** The callback of the buffer comes first; without a queue the event goes no further. *)
Definition offer (t : transport) (b : target) (e : NNTI_event_t) : outcome transport :=
  if bool_decide (tcb b e = NNTI_OK) then Ok t
  else match teq b with Some k => offer_queue t k e | None => Ok t end.

Definition complete_send_command (t : transport) (c : cmd_msg) (peer : Z) (incoming : str)
    : outcome transport :=
  if unexpected c then
    match unexpected_queue_ t with
    | None => Ok t
    | Some k => offer_queue (with_unexpected t (unexpected_msgs_ t ++ [c])) k
                  (create_event c peer (target_offset c))
    end
  else
    match buffer_map t !! target_base_addr c with
    | None => Throw AssertFailed
    | Some b =>
        if eager c then
          '(x, rc, actual_offset) ← copy_in (tbuf b) (target_offset c)
                                      (take (Z.to_nat (payload_length c)) (eager_payload c));
          let b := with_buf b x in
          t ← offer (with_buffer t (target_base_addr c) b) b (create_event c peer actual_offset);
          Ok (repost t)
        else
          m ← mem_write (mem (tbuf b)) (target_offset c) incoming;
          let b := with_buf b (with_mem (tbuf b) m) in
          t ← offer (with_buffer t (target_base_addr c) b) b (create_event c peer (target_offset c));
          Ok (repost t)
    end.

Definition complete_get_command (t : transport) (c : cmd_msg) (peer : Z) : outcome transport :=
  match buffer_map t !! target_base_addr c with
  | None => Throw Undefined
  | Some b =>
      bs ← mem_read (mem (tbuf b)) (target_offset c) (payload_length c);
      Ok (repost (with_reply t (Get_data peer (initiator_hdl c) bs)))
  end.

Definition complete_put_command (t : transport) (c : cmd_msg) (incoming : str) : outcome transport :=
  match buffer_map t !! target_base_addr c with
  | None => Throw Undefined
  | Some b =>
      m ← mem_write (mem (tbuf b)) (target_offset c) incoming;
      Ok (repost (with_buffer t (target_base_addr c) (with_buf b (with_mem (tbuf b) m))))
  end.

(** An [int64_t] from its eight bytes. *)
Definition s64 (z : Z) : Z := (let v := u64 z in if v <? 2 ^ 63 then v else v - 2 ^ 64)%Z.
Definition int64_at (m : str) (off : Z) : outcome Z := bs ← mem_read m off 8; Ok (s64 (unle bs)).

(** An atomic operation computes a new value from the current one and the operands; the current
    one is sent back.  A signed sum out of range is undefined. *)
Definition atomic_command (f : Z → Z → Z → outcome Z) (t : transport) (c : cmd_msg) (peer : Z)
    : outcome transport :=
  match buffer_map t !! target_base_addr c with
  | None => Throw Undefined
  | Some b =>
      o1 ← int64_at (eager_payload c) 0;
      o2 ← int64_at (eager_payload c ++ replicate 16 zero) 8;
      current ← int64_at (mem (tbuf b)) (target_offset c);
      v ← f current o1 o2;
      m ← mem_write (mem (tbuf b)) (target_offset c) (le 8 (u64 v));
      Ok (repost (with_reply (with_buffer t (target_base_addr c) (with_buf b (with_mem (tbuf b) m)))
            (Atomic_data peer (initiator_hdl c) (le 8 (u64 current)))))
  end.

Definition complete_fadd_command : transport → cmd_msg → Z → outcome transport :=
  atomic_command (λ current o1 _,
    let v := (current + o1)%Z in
    if ((- 2 ^ 63 <=? v) && (v <? 2 ^ 63))%Z then Ok v else Throw Undefined).

Definition complete_cswap_command : transport → cmd_msg → Z → outcome transport :=
  atomic_command (λ current o1 o2, Ok (if (current =? o1)%Z then o2 else current)).

(** [progress_msg_requests] on a message that has arrived in one of the posted command buffers;
    [unpack] looks up the peer it comes from. *)
Definition dispatch (t : transport) (c : cmd_msg) (incoming : str) : outcome transport :=
  match conn_map t !! initiator c with
  | None => Throw Undefined
  | Some peer =>
      match cmd_op c with
      | NNTI_OP_SEND => complete_send_command t c peer incoming
      | NNTI_OP_GET => complete_get_command t c peer
      | NNTI_OP_PUT => complete_put_command t c incoming
      | NNTI_OP_ATOMIC_FADD => complete_fadd_command t c peer
      | NNTI_OP_ATOMIC_CSWAP => complete_cswap_command t c peer
      | NNTI_OP_NOOP => Ok t
      end
  end.

(** MPI delivers a command into a posted buffer; without one it stays with MPI ([None]). *)
Definition receive (t : transport) (c : cmd_msg) (incoming : str) : option (outcome transport) :=
  match posted t with
  | O => None
  | S n => Some (dispatch (with_posted t n) c incoming)
  end.

(** [next_unexpected]: the oldest unexpected message into a buffer of the application, by address,
    which need not be in the map.  The offset of a long message is not reported. *)
Definition next_unexpected (t : transport) (dst : Z) (dst_offset : Z) (incoming : str)
    : outcome (transport * NNTI_result_t * option NNTI_event_t) :=
  match unexpected_msgs_ t with
  | [] => Ok (t, NNTI_ENOENT, None)
  | c :: rest =>
      match buffer_map t !! dst, conn_map t !! initiator c with
      | Some b, Some peer =>
          '(x, rc, actual_offset) ←
            (if eager c then copy_in (tbuf b) dst_offset (take (Z.to_nat (payload_length c)) (eager_payload c))
             else m ← mem_write (mem (tbuf b)) dst_offset incoming; Ok (with_mem (tbuf b) m, NNTI_OK, 0%Z));
          let e := mkEvent NNTI_EVENT_SEND NNTI_OK NNTI_OP_SEND dst actual_offset (payload_length c) peer 0 in
          Ok (repost (with_unexpected (with_buffer t dst (with_buf b x)) rest), rc, Some e)
      | _, _ => Throw Undefined
      end
  end.

(** [event_complete]: the buffer is found by the address in the event. *)
Definition transport_event_complete (t : transport) (e : NNTI_event_t) : outcome transport :=
  match buffer_map t !! ev_start e with
  | None => Throw Undefined
  | Some b =>
      x ← event_complete (tbuf b) (ev_offset e) (ev_length e);
      Ok (with_buffer t (ev_start e) (with_buf b x))
  end.

(** [eq_create] and [eq_destroy], with the handle the queue gets. *)
Definition eq_create (t : transport) (k : Z) (size : nat) (unexpected_flag : bool)
    (cb : NNTI_event_t → NNTI_result_t) : transport :=
  mkTransport (me t) (buffer_map t) (<[k := new_queue size cb]> (queues t))
    (if unexpected_flag then Some k else unexpected_queue_ t) (unexpected_msgs_ t) (posted t)
    (conn_map t) (replies t).
Definition eq_destroy (t : transport) (k : Z) : transport :=
  mkTransport (me t) (buffer_map t) (delete k (queues t))
    (if bool_decide (unexpected_queue_ t = Some k) then None else unexpected_queue_ t)
    (unexpected_msgs_ t) (posted t) (conn_map t) (replies t).

(** [register_memory] with the id the buffer gets, and [unregister_memory]; the buffer map asserts
    that neither the id nor the address is in use. *)
Definition register_memory (t : transport) (next_id flags addr : Z) (memory : str) (eq : option Z)
    (cb : NNTI_event_t → NNTI_result_t) : outcome transport :=
  F_ASSERT (bool_decide (map_Forall (λ _ b, id_ (tbuf b) ≠ next_id) (buffer_map t)));;
  F_ASSERT (bool_decide (buffer_map t !! addr = None));;
  Ok (with_buffer t addr (mkTarget (new_buffer next_id flags addr memory).1 eq cb)).

Definition unregister_memory (t : transport) (addr : Z) : outcome transport :=
  match buffer_map t !! addr with
  | None => Throw Undefined
  | Some _ =>
      Ok (mkTransport (me t) (delete addr (buffer_map t)) (queues t) (unexpected_queue_ t) (unexpected_msgs_ t)
            (posted t) (conn_map t) (replies t))
  end.

(** ** The end of an operation at the initiator *)

(** [create_event(cmd_op)]; the type of an event for another operation is left as it was. *)
Definition create_op_event (wr : work_request) (context : Z) (unset : NNTI_event_type_t) : NNTI_event_t :=
  mkEvent
    (match wr_op wr with
     | NNTI_OP_SEND => NNTI_EVENT_SEND
     | NNTI_OP_PUT => NNTI_EVENT_PUT
     | NNTI_OP_GET => NNTI_EVENT_GET
     | NNTI_OP_ATOMIC_FADD | NNTI_OP_ATOMIC_CSWAP => NNTI_EVENT_ATOMIC
     | NNTI_OP_NOOP => unset
     end) NNTI_OK (wr_op wr) (local_hdl wr) (local_offset wr) (wr_length wr) (wr_peer wr) context.

(** The callback of a queue, if there is a queue. *)
Definition taken_by (t : transport) (k : option Z) (e : NNTI_event_t) : outcome bool :=
  match k with
  | None => Ok false
  | Some k => match queues t !! k with
              | None => Throw Undefined
              | Some q => Ok (bool_decide (invoke_cb q e = NNTI_OK))
              end
  end.

(** [progress_op_requests]: the callbacks of the request, of its own queue and of the queue of the
    buffer, in this order, and then the queues. *)
Definition complete_op (t : transport) (wr_cb : NNTI_event_t → NNTI_result_t) (alt_eq buf_eq : option Z)
    (e : NNTI_event_t) : outcome transport :=
  if bool_decide (wr_cb e = NNTI_OK) then Ok t
  else
    a ← taken_by t alt_eq e;
    if (a : bool) then Ok t
    else
      b ← taken_by t buf_eq e;
      if (b : bool) then Ok t
      else
        match (match alt_eq with Some k => Some k | None => buf_eq end) with
        | None => Ok t
        | Some k => match queues t !! k with
                    | None => Throw Undefined
                    | Some q => Ok (with_queue t k (post q e))
                    end
        end.

(** An event that no callback takes is put on one queue, the request's before the buffer's. *)
Lemma complete_op_queued t wr_cb alt_eq buf_eq e k q :
  wr_cb e ≠ NNTI_OK → taken_by t alt_eq e = Ok false → taken_by t buf_eq e = Ok false →
  (match alt_eq with Some k => Some k | None => buf_eq end) = Some k → queues t !! k = Some q →
  complete_op t wr_cb alt_eq buf_eq e = Ok (with_queue t k (post q e)).
Proof.
  intros H1 H2 H3 H4 H5. unfold complete_op. rewrite bool_decide_eq_false_2 by done.
  rewrite H2. cbn [mbind outcome_bind]. rewrite H3. cbn [mbind outcome_bind]. by rewrite H4, H5.
Qed.

(** ** Sends arrive *)

Lemma pack_eager t wr b bs :
  buffer_map t !! local_hdl wr = Some b →
  mem_read (mem (tbuf b)) (local_offset wr) (wr_length wr) = Ok bs → (wr_length wr ≤ 1815)%Z →
  pack t wr = Ok (mkCmd (wr_op wr) (me t) (local_hdl wr) (local_offset wr) (remote_offset wr)
                    (wr_length wr) (match remote_hdl wr with Some (a, _) => a | None => 0%Z end) bs).
Proof.
  intros Hb Hr Hl. unfold pack. rewrite Hb. unfold eager. cbn [payload_length].
  change (u64 (cmd_msg_size - header_length)) with 1815%Z.
  rewrite (proj2 (Z.leb_le _ _)) by done. rewrite Hr. done.
Qed.

Lemma send_eager t wr b bs :
  buffer_map t !! local_hdl wr = Some b → wr_op wr = NNTI_OP_SEND →
  mem_read (mem (tbuf b)) (local_offset wr) (wr_length wr) = Ok bs → (wr_length wr ≤ 1815)%Z →
  check_bounds wr (mpi_length (tbuf b)) = NNTI_OK →
  send t wr = Ok (NNTI_OK, Some (mkCmd NNTI_OP_SEND (me t) (local_hdl wr) (local_offset wr)
                 (remote_offset wr) (wr_length wr)
                 (match remote_hdl wr with Some (a, _) => a | None => 0%Z end) bs, [])).
Proof.
  intros Hb Hop Hr Hl Hc. unfold send. rewrite (pack_eager t wr b bs) by done.
  cbn [mbind outcome_bind]. rewrite Hb, bool_decide_eq_true_2 by done.
  unfold eager. cbn [payload_length]. change (u64 (cmd_msg_size - header_length)) with 1815%Z.
  rewrite (proj2 (Z.leb_le _ _)) by done. unfold set_operands. rewrite Hop. done.
Qed.

Lemma mem_read_zlen m off len bs : mem_read m off len = Ok bs → zlen bs = len.
Proof.
  unfold mem_read. destruct (in_bounds m off len) eqn:E; [|done]. intros [= <-].
  apply in_bounds_spec in E as (H1 & H2 & H3). unfold zlen in *.
  rewrite length_take, length_drop. lia.
Qed.

(** C7: A message of 1 to 1815 bytes that is sent from a buffer of one node to a queuing buffer of
    another arrives, if the buffer has room for it, its callback and the one of its event queue
    decline the event, and the event queue is not full: the receiver, which knows the sender and has
    a command buffer posted, posts an event for it on the queue of the buffer, where it waits behind the earlier ones with its notification; at the offset and length of the
    event the buffer reads as the bytes that were sent; the messages already waiting are intact;
    and the command buffer is posted again. *)
Theorem send_delivers s t wr src dst q events k bs remote_length :
  buffer_map s !! local_hdl wr = Some src → wr_op wr = NNTI_OP_SEND →
  remote_hdl wr = Some (payload_ (tbuf dst), remote_length) → payload_ (tbuf dst) ≠ 0%Z →
  check_bounds wr (mpi_length (tbuf src)) = NNTI_OK →
  mem_read (mem (tbuf src)) (local_offset wr) (wr_length wr) = Ok bs → (0 < wr_length wr ≤ 1815)%Z →
  buffer_map t !! payload_ (tbuf dst) = Some dst → ring_ok (tbuf dst) q →
  room (tbuf dst) (zlen bs) = true → (∀ e, tcb dst e ≠ NNTI_OK) → teq dst = Some k →
  queues t !! k = Some events → (∀ e, cb_ events e ≠ NNTI_OK) →
  notified events → length (q_ events) < q_size_ events →
  is_Some (conn_map t !! me s) → 0 < posted t →
  ∃ c t' e dst' events',
    send s wr = Ok (NNTI_OK, Some (c, [])) ∧ receive t c [] = Some (Ok t') ∧
    queues t' !! k = Some events' ∧ q_ events' = q_ events ++ [e] ∧ notified events' ∧
    ev_type e = NNTI_EVENT_RECV ∧ ev_start e = payload_ (tbuf dst) ∧ ev_length e = wr_length wr ∧
    buffer_map t' !! payload_ (tbuf dst) = Some dst' ∧
    mem_read (mem (tbuf dst')) (ev_offset e) (ev_length e) = Ok bs ∧
    ring_ok (tbuf dst') (q ++ [(ev_offset e, bs)]) ∧ posted t' = posted t.
Proof.
  intros Hsrc Hop Hrem Hnz Hcheck Hread Hlen Hdst Hring Hroom Hcb Heq Hev Hqcb Hnot Hfull [peer Hconn] Hpost.
  pose proof (mem_read_zlen _ _ _ _ Hread) as Hz.
  rewrite (send_eager s wr src bs) by (done || lia). rewrite Hrem.
  destruct (posted t) as [|n] eqn:Ep; [lia|].
  destruct (copy_in_ring (tbuf dst) q (remote_offset wr) bs Hring) as (x & off & Hcopy & Hring'); [lia|done|].
  eexists _, _, (mkEvent NNTI_EVENT_RECV NNTI_OK NNTI_OP_SEND (payload_ (tbuf dst)) off (wr_length wr) peer 0),
    (with_buf dst x), _.
  split; [done|]. split.
  { unfold receive. rewrite Ep. unfold dispatch. cbn [with_posted conn_map initiator]. rewrite Hconn.
    cbn [cmd_op]. unfold complete_send_command, unexpected. cbn [target_base_addr].
    rewrite (proj2 (Z.eqb_neq _ _)) by done. cbn [with_posted buffer_map]. rewrite Hdst.
    unfold eager. cbn [payload_length eager_payload target_offset target_base_addr].
    change (u64 (cmd_msg_size - header_length)) with 1815%Z. rewrite (proj2 (Z.leb_le _ _)) by lia.
    rewrite take_ge by (unfold zlen in Hz; lia). rewrite Hcopy. cbn [mbind outcome_bind].
    unfold offer. cbn [with_buf tcb teq]. rewrite bool_decide_eq_false_2 by apply Hcb. rewrite Heq.
    unfold offer_queue. cbn [with_buffer queues with_posted]. rewrite Hev.
    unfold invoke_cb. rewrite bool_decide_eq_false_2 by apply Hqcb. cbn [mbind outcome_bind].
    unfold create_event, unexpected. cbn [target_base_addr payload_length].
    rewrite (proj2 (Z.eqb_neq _ _)) by done. reflexivity. }
  cbn [repost with_posted with_queue with_buffer queues buffer_map posted ev_offset ev_length].
  split; [apply lookup_insert_eq|]. split_and!; try done.
  - unfold post, push. by rewrite bool_decide_eq_true_2.
  - by apply post_notified.
  - apply lookup_insert_eq.
  - rewrite <-Hz. apply (ring_ok_read x (q ++ [(off, bs)]) (off, bs) Hring'). set_solver.
Qed.

(** ** Atomic operations *)

Definition in_int64 (z : Z) : Prop := (- 2 ^ 63 ≤ z < 2 ^ 63)%Z.

Lemma s64_u64 z : in_int64 z → s64 (u64 z) = z.
Proof.
  intros [H1 H2]. unfold s64. rewrite wrap_idemp. unfold wrap.
  destruct (Z.leb_spec 0 z).
  - rewrite Z.mod_small by lia. case_match; lia.
  - assert (z mod 2 ^ 64 = z + 2 ^ 64)%Z as ->.
    { symmetry. apply (Z.mod_unique_pos z (2 ^ 64) (-1)); lia. }
    case_match; lia.
Qed.

Lemma int64_at_read m off v : mem_read m off 8 = Ok (le 8 (u64 v)) → in_int64 v → int64_at m off = Ok v.
Proof.
  intros Hr Hv. unfold int64_at. rewrite Hr. cbn [mbind outcome_bind]. rewrite unle_le.
  - by rewrite s64_u64.
  - apply (wrap_in_width 64 v). lia.
Qed.

Lemma int64_at_mem m off v : int64_at m off = Ok v → in_bounds m off 8 = true ∧ in_int64 v.
Proof.
  unfold int64_at. intros (bs & Hr & Hv)%bind_Ok. injection Hv as <-. split.
  - unfold mem_read in Hr. by destruct (in_bounds m off 8).
  - unfold s64, in_int64. pose proof (wrap_in_width 64 (unle bs) ltac:(lia)) as [??]. case_match; lia.
Qed.

(** Writing an integer where there is one. *)
Lemma int64_write m off v v' :
  int64_at m off = Ok v → in_int64 v' →
  ∃ m', mem_write m off (le 8 (u64 v')) = Ok m' ∧ int64_at m' off = Ok v'.
Proof.
  intros [Hb _]%int64_at_mem Hv'. apply in_bounds_spec in Hb as (H1 & H2 & H3).
  destruct (mem_write_Ok m off (le 8 (u64 v'))) as [m' Hw]; [done|by rewrite zlen_le|].
  exists m'. split; [done|]. apply int64_at_read; [|done].
  pose proof (mem_write_same _ _ _ _ Hw) as Hs. by rewrite zlen_le in Hs.
Qed.

(** The commands of [cs], one after the other. *)
Fixpoint dispatch_all (t : transport) (cs : list cmd_msg) : outcome transport :=
  match cs with
  | [] => Ok t
  | c :: cs' => t' ← dispatch t c []; dispatch_all t' cs'
  end.

(** A fetch-and-add of [a] on the integer at [off] of the buffer at [addr]. *)
Definition is_fadd (t : transport) (addr off : Z) (c : cmd_msg) (a : Z) : Prop :=
  cmd_op c = NNTI_OP_ATOMIC_FADD ∧ target_base_addr c = addr ∧ target_offset c = off ∧
  int64_at (eager_payload c) 0 = Ok a ∧ is_Some (conn_map t !! initiator c).

(** The integer at an offset of a registered buffer. *)
Definition value_at (t : transport) (addr off : Z) : outcome Z :=
  match buffer_map t !! addr with Some b => int64_at (mem (tbuf b)) off | None => Throw Undefined end.

(** The old values that are sent back. *)
Definition atomic_replies (t : transport) : list str :=
  flat_map (λ r, match r with Atomic_data _ _ bs => [bs] | Get_data _ _ _ => [] end) (replies t).

Lemma fadd_step t addr off c a v :
  is_fadd t addr off c a → value_at t addr off = Ok v → in_int64 (v + a) →
  ∃ t', dispatch t c [] = Ok t' ∧ value_at t' addr off = Ok (v + a)%Z ∧ conn_map t' = conn_map t ∧
        atomic_replies t' = atomic_replies t ++ [le 8 (u64 v)].
Proof.
  intros (Hop & Ha & Ho & Harg & [peer Hp]) Hv Hr. unfold value_at in Hv.
  destruct (buffer_map t !! addr) as [b|] eqn:Hb; [|done].
  unfold dispatch. rewrite Hp, Hop. unfold complete_fadd_command, atomic_command.
  rewrite Ha, Ho, Hb, Harg. cbn [mbind outcome_bind].
  destruct (int64_at (eager_payload c ++ replicate 16 zero) 8) as [o2|e] eqn:E2.
  2:{ exfalso. apply int64_at_mem in Harg as [Hb0 _]. apply in_bounds_spec in Hb0 as (_ & _ & Hb0).
      unfold int64_at, mem_read in E2. rewrite (proj2 (in_bounds_spec _ _ _)) in E2; [done|].
      rewrite zlen_app. unfold zlen at 2. rewrite length_replicate. lia. }
  cbn [mbind outcome_bind]. rewrite Hv. cbn [mbind outcome_bind].
  replace ((- 2 ^ 63 <=? v + a) && (v + a <? 2 ^ 63))%Z with true by (destruct Hr; lia).
  cbn [mbind outcome_bind].
  destruct (int64_write _ _ _ (v + a) Hv Hr) as (m' & -> & Hm'). cbn [mbind outcome_bind].
  eexists. split; [done|]. split_and!; [|done|].
  - unfold value_at. cbn [repost with_posted with_reply with_buffer buffer_map].
    by rewrite lookup_insert_eq.
  - unfold atomic_replies. cbn [repost with_posted with_reply with_buffer replies].
    by rewrite flat_map_app.
Qed.

(** The values that fetch-and-adds of [args] find, from [v] on, and the value they leave. *)
Fixpoint running (v : Z) (args : list Z) : list Z :=
  match args with [] => [] | a :: args' => v :: running (v + a) args' end.
Definition total (v : Z) (args : list Z) : Z := foldl Z.add v args.

(** C33: Fetch-and-adds from any peers, in the order in which a node takes them, are atomic: each
    gets back the sum of the ones before it and the value is the sum of them all, as long as the
    sums fit 64 bits. *)
Theorem fadd_linearizable t addr off cs args v :
  Forall2 (is_fadd t addr off) cs args → value_at t addr off = Ok v →
  Forall in_int64 (running v args) → in_int64 (total v args) →
  ∃ t', dispatch_all t cs = Ok t' ∧ value_at t' addr off = Ok (total v args) ∧
        atomic_replies t' = atomic_replies t ++ map (λ x, le 8 (u64 x)) (running v args).
Proof.
  intros H. revert t v args H.
  induction cs as [|c cs IH]; intros t v args H; inversion H as [|? a ? args' Hc Hcs]; subst.
  { intros Hv _ _. exists t. rewrite app_nil_r. done. }
  cbn [running total foldl dispatch_all map]. intros Hv Hrun Htot.
  apply Forall_cons in Hrun as [_ Hrun].
  assert (in_int64 (v + a)) as Hva.
  { destruct args' as [|a' args']; [done|]. by apply Forall_cons in Hrun as [? _]. }
  destruct (fadd_step t addr off c a v Hc Hv Hva) as (t1 & -> & Hv1 & Hconn & Hrep).
  cbn [mbind outcome_bind].
  destruct (IH t1 (v + a)%Z args') as (t' & E & Hv' & Hrep'); [|done..|].
  { eapply Forall2_impl; [done|]. unfold is_fadd. by rewrite Hconn. }
  exists t'. split; [done|]. split; [done|]. by rewrite Hrep', Hrep, <-app_assoc.
Qed.

(** A compare-and-swap stores the new value exactly when the current one is the one expected, and
    sends back the current one. *)
Lemma cswap_step t addr off c o1 o2 v b peer :
  buffer_map t !! addr = Some b → target_base_addr c = addr → target_offset c = off →
  int64_at (eager_payload c) 0 = Ok o1 → int64_at (eager_payload c ++ replicate 16 zero) 8 = Ok o2 →
  value_at t addr off = Ok v →
  ∃ t', complete_cswap_command t c peer = Ok t' ∧
        value_at t' addr off = Ok (if (v =? o1)%Z then o2 else v) ∧
        atomic_replies t' = atomic_replies t ++ [le 8 (u64 v)].
Proof.
  intros Hb Ha Ho H1 H2 Hv. unfold value_at in Hv. rewrite Hb in Hv.
  unfold complete_cswap_command, atomic_command. rewrite Ha, Ho, Hb, H1, H2, Hv.
  cbn [mbind outcome_bind].
  destruct (int64_write _ _ _ (if (v =? o1)%Z then o2 else v) Hv) as (m' & -> & Hm').
  { apply int64_at_mem in Hv as [_ ?], H2 as [_ ?]. by case_match. }
  cbn [mbind outcome_bind]. eexists. split; [done|]. split.
  - unfold value_at. cbn [repost with_posted with_reply with_buffer buffer_map].
    by rewrite lookup_insert_eq.
  - unfold atomic_replies. cbn [repost with_posted with_reply with_buffer replies].
    by rewrite flat_map_app.
Qed.

(** ** Command buffers *)

(** The command buffers that are posted or hold an unexpected message. *)
Definition buffers_in_use (t : transport) : nat := posted t + length (unexpected_msgs_ t).

(** The message that [dispatch] drops: unexpected, and no queue to tell the application. *)
Definition dropped (t : transport) (c : cmd_msg) : bool :=
  match cmd_op c with
  | NNTI_OP_SEND => unexpected c && bool_decide (unexpected_queue_ t = None)
  | NNTI_OP_NOOP => true
  | _ => false
  end.

Lemma offer_queue_in_use t k e t' :
  offer_queue t k e = Ok t' → posted t' = posted t ∧ unexpected_msgs_ t' = unexpected_msgs_ t.
Proof. unfold offer_queue. intros H. repeat case_match; by simplify_eq. Qed.

Lemma offer_in_use t b e t' :
  offer t b e = Ok t' → posted t' = posted t ∧ unexpected_msgs_ t' = unexpected_msgs_ t.
Proof.
  unfold offer. intros H. repeat case_match; [by simplify_eq|by eapply offer_queue_in_use|by simplify_eq].
Qed.

(** Every command gives its buffer back, or keeps it with the unexpected messages, except for a
    message that is dropped: its buffer is never posted again. *)
Lemma receive_in_use t c incoming t' :
  receive t c incoming = Some (Ok t') →
  buffers_in_use t = buffers_in_use t' + if dropped t c then 1 else 0.
Proof.
  unfold receive. destruct (posted t) as [|n] eqn:Ep; [done|]. intros [= H].
  unfold dispatch in H. destruct (conn_map _ !! _) as [peer|]; [|done].
  unfold buffers_in_use, dropped. rewrite Ep. destruct (cmd_op c).
  - injection H as <-. simpl. lia.
  - unfold complete_send_command in H. destruct (unexpected c); simpl in *.
    + destruct (unexpected_queue_ t) as [k|]; simpl.
      * apply offer_queue_in_use in H as [-> ->]. simpl. rewrite length_app. simpl. lia.
      * injection H as <-. simpl. lia.
    + destruct (buffer_map t !! target_base_addr c) as [b|]; [|done]. destruct (eager c).
      * apply bind_Ok in H as ([[x rc] off] & _ & H). apply bind_Ok in H as (t1 & H1 & H).
        injection H as <-. apply offer_in_use in H1 as [H1 H2]. simpl in *. rewrite H1, H2. lia.
      * apply bind_Ok in H as (m & _ & H). apply bind_Ok in H as (t1 & H1 & H).
        injection H as <-. apply offer_in_use in H1 as [H1 H2]. simpl in *. rewrite H1, H2. lia.
  - unfold complete_put_command in H. case_match; unbind; simplify_eq; simpl; lia.
  - unfold complete_get_command in H. case_match; unbind; simplify_eq; simpl; lia.
  - unfold complete_fadd_command, atomic_command in H. case_match; unbind; simplify_eq; simpl; lia.
  - unfold complete_cswap_command, atomic_command in H. case_match; unbind; simplify_eq; simpl; lia.
Qed.

Lemma next_unexpected_in_use t dst off incoming t' rc e :
  next_unexpected t dst off incoming = Ok (t', rc, e) → buffers_in_use t' = buffers_in_use t.
Proof.
  unfold next_unexpected, buffers_in_use. destruct (unexpected_msgs_ t) as [|c rest] eqn:E.
  { intros [= <- _ _]. by rewrite E. }
  repeat case_match; try done.
  all: intros ([[x rc'] off'] & _ & Hn)%bind_Ok; injection Hn as <- _ _; simpl; lia.
Qed.

(** ** Two nodes *)

Definition no_cb (e : NNTI_event_t) : NNTI_result_t := NNTI_EIO.

Definition sender : transport :=
  mkTransport 7 {[100%Z := mkTarget (new_buffer 1 0 100 (lit "hello")).1 None no_cb]} ∅ None [] 64 ∅ [].

Definition receiver : transport :=
  mkTransport 8 {[4096%Z := mkTarget ring8 (Some 1%Z) no_cb]} {[1%Z := new_queue 4 no_cb]} None [] 1
    {[7%Z := 70%Z]} [].

Definition hello : work_request := mkWr NNTI_OP_SEND 80 100 0 (Some (4096, 8)%Z) 0 5 0 0.

Lemma send_delivers_witness :
  ∃ c t' e dst', send sender hello = Ok (NNTI_OK, Some (c, [])) ∧ receive receiver c [] = Some (Ok t') ∧
    buffer_map t' !! 4096%Z = Some dst' ∧ mem_read (mem (tbuf dst')) (ev_offset e) 5 = Ok (lit "hello").
Proof.
  destruct (send_delivers sender receiver hello
    (mkTarget (new_buffer 1 0 100 (lit "hello")).1 None no_cb) (mkTarget ring8 (Some 1%Z) no_cb)
    [] (new_queue 4 no_cb) 1 (lit "hello") 8)
    as (c & t' & e & dst' & ev & H1 & H2 & _ & _ & _ & _ & _ & H3 & H4 & H5 & _);
    [done|done|done|done|vm_compute; reflexivity|vm_compute; reflexivity|done|done|
     |vm_compute; reflexivity|done|done|done|done|done|simpl; lia|by eexists|simpl; lia|].
  { apply new_ring_ok; vm_compute; [reflexivity|]. split; congruence. }
  exists c, t', e, dst'. split_and!; [done|done|exact H4|]. rewrite H3 in H5. exact H5.
Defined.

Definition counter : transport :=
  mkTransport 8 {[4096%Z := mkTarget (new_buffer 2 0 4096 (le 8 40)).1 None no_cb]} ∅ None [] 2
    {[7%Z := 70%Z]} [].

Definition add_to_counter (a : Z) : cmd_msg := mkCmd NNTI_OP_ATOMIC_FADD 7 100 0 0 8 4096 (le 8 (u64 a)).

Lemma fadd_linearizable_witness :
  ∃ t', dispatch_all counter [add_to_counter 2; add_to_counter (-10)] = Ok t' ∧
        value_at t' 4096 0 = Ok 32%Z ∧ atomic_replies t' = [le 8 40; le 8 42].
Proof.
  destruct (fadd_linearizable counter 4096 0 [add_to_counter 2; add_to_counter (-10)] [2; -10]%Z 40)
    as (t' & H1 & H2 & H3).
  - repeat constructor; try done; vm_compute; try reflexivity; by eexists.
  - vm_compute. reflexivity.
  - repeat constructor; vm_compute; congruence.
  - vm_compute. split; congruence.
  - exists t'. split_and!; [done|exact H2|]. rewrite H3. vm_compute. reflexivity.
Defined.

(** An unexpected message to a node without a queue for them takes a command buffer with it: with
    one buffer the node then receives nothing any more. *)
Example deaf_after_drop :
  let c := mkCmd NNTI_OP_SEND 7 100 0 0 2 0 (lit "hi") in
  match receive receiver c [] with
  | Some (Ok t') => posted t' = 0 ∧ receive t' c [] = None
  | _ => False
  end.
Proof. vm_compute. split; reflexivity. Qed.

(** A message that a buffer refuses is reported as received, with nothing stored. *)
Example refused_but_reported :
  let b := (new_buffer 1 0 4096 (replicate 2 zero)).1 in
  let t := mkTransport 8 {[4096%Z := mkTarget b (Some 1%Z) no_cb]} {[1%Z := new_queue 4 no_cb]} None [] 1
             {[7%Z := 70%Z]} [] in
  match receive t (mkCmd NNTI_OP_SEND 7 100 0 0 5 4096 (lit "hello")) [] with
  | Some (Ok t') =>
      (tbuf <$> buffer_map t' !! 4096%Z) = Some b ∧
      (q_ <$> queues t' !! 1%Z)
      = Some [mkEvent NNTI_EVENT_RECV NNTI_OK NNTI_OP_SEND 4096 0 5 70 0]
  | _ => False
  end.
Proof. vm_compute. split; reflexivity. Qed.

(** The payload is copied into the command before the bounds are checked. *)
Example copied_before_checked :
  send sender (mkWr NNTI_OP_SEND 80 100 0 (Some (4096, 8)%Z) 0 6 0 0) = Throw Undefined.
Proof. vm_compute. reflexivity. Qed.

(** The event for a long unexpected message has offset 0 wherever the message was put. *)
Example long_unexpected_offset :
  let c := mkCmd NNTI_OP_SEND 7 100 0 0 1816 0 [] in
  let b := (new_buffer 1 0 4096 (replicate 1824 zero)).1 in
  let t := mkTransport 8 {[4096%Z := mkTarget b None no_cb]} ∅ None [c] 0 {[7%Z := 70%Z]} [] in
  match next_unexpected t 4096 8 (replicate 1816 "x"%char) with
  | Ok (t', rc, Some e) => (rc, ev_offset e) = (NNTI_OK, 0%Z) ∧
      ((λ b, mem_read (mem (tbuf b)) 8 1) <$> buffer_map t' !! 4096%Z) = Some (Ok (lit "x"))
  | _ => False
  end.
Proof. vm_compute. split; reflexivity. Qed.
