(* ===== verification/MpiConnect.v ===== *)
(** Connecting in the MPI transport of NNTI (src/src/nnti/transports/mpi: mpi_transport.cpp,
    mpi_connection.hpp, mpi_peer.hpp).

    A node has a table of connections ([NntiCore.Connections]); connections and peers are objects on
    its heap, which the table, each other and the handles of the application point to.  To connect, a
    node enters a connection in its table and asks the web server of the other node for the page
    "/nnti/mpi/connect"; the other node enters a connection to the caller and answers with its
    own address and rank.  The lock of the table is not held while the node waits for the page, so
    [connect] and [disconnect] are two steps each, and other calls come in between.

    [handshake]: through the web server, both nodes end with a connection to each other that has the
    rank of the other.  [connections_safe]: calls that keep three rules never touch a connection or
    peer that was freed; the examples after it break each of the rules. *)
From S2P Require Import Prelude StringHelpers Identifiers Configuration Whookie NntiBuffers NntiCore.

(** * Objects *)

(** Members that no constructor has set are [None]. *)
Record mpi_peer := mkPeer {
  p_url : Url.nnti_url;
  p_pid : Z;
  p_rank : Z;
  p_conn : option Z
}.

Record connection_params_t := mkParams {
  hostname : str;
  addr : option Z;
  port : option Z;
  fingerprint : str;
  rank : option Z
}.

Record mpi_connection := mkConnection {
  id_ : Z;
  peer_pid_ : Z;
  peer_ : option Z;
  fingerprint_ : str;
  peer_params_ : connection_params_t
}.

(** The part of a transport that connecting uses, and the heap of its process. *)
Record node := mkNode {
  conn_map_ : Connections.nnti_connection_map;
  conns : gmap Z mpi_connection;
  peers : gmap Z mpi_peer;
  next_id_ : Z;
  url_ : Url.nnti_url;
  nnti_comm_rank_ : Z;
  node_fingerprint_ : Z
}.

Definition me_pid (n : node) : Z := Url.pid_ (url_ n).

Definition set_map (m : Connections.nnti_connection_map) (n : node) : node :=
  mkNode m (conns n) (peers n) (next_id_ n) (url_ n) (nnti_comm_rank_ n) (node_fingerprint_ n).
Definition set_conns (cs : gmap Z mpi_connection) (n : node) : node :=
  mkNode (conn_map_ n) cs (peers n) (next_id_ n) (url_ n) (nnti_comm_rank_ n) (node_fingerprint_ n).
Definition set_peers (ps : gmap Z mpi_peer) (n : node) : node :=
  mkNode (conn_map_ n) (conns n) ps (next_id_ n) (url_ n) (nnti_comm_rank_ n) (node_fingerprint_ n).
Definition set_next_id (i : Z) (n : node) : node :=
  mkNode (conn_map_ n) (conns n) (peers n) i (url_ n) (nnti_comm_rank_ n) (node_fingerprint_ n).

Definition no_params : connection_params_t := mkParams [] None None [] None.

(** Reading through a pointer. *)
Definition deref {A} (h : gmap Z A) (a : Z) : outcome A :=
  match h !! a with Some x => Ok x | None => Throw Undefined end.

(** [delete] of an object. *)
Definition delete_conn (ca : Z) (n : node) : outcome node :=
  _ ← deref (conns n) ca; Ok (set_conns (delete ca (conns n)) n).
Definition delete_peer (pa : Z) (n : node) : outcome node :=
  _ ← deref (peers n) pa; Ok (set_peers (delete pa (peers n)) n).

(** A member that was set. *)
Definition was_set {A} (x : option A) : outcome A :=
  match x with Some a => Ok a | None => Throw Undefined end.

Section transport.
(** The resolver, [lexical_cast] to unsigned integers of a width and to [int32_t], and what an
    address holds that was never set. *)
Context (gethostbyname : str → option Z) (lexical_cast : Z → str → option Z)
        (lexical_cast_int32 : str → option Z) (unset : Z).

Definition str2int32 (s : str) : Z := default 0%Z (lexical_cast_int32 s).

(** * mpi_connection.hpp *)

(** The constructor stops at the first key that is missing. *)
Definition connection_params (peer : gmap str str) : connection_params_t :=
  match peer !! lit "hostname" with
  | None => no_params
  | Some h =>
      match peer !! lit "addr" with
      | None => mkParams h None None [] None
      | Some a =>
          let a := Some (Url.str2uint32 lexical_cast a) in
          match peer !! lit "port" with
          | None => mkParams h a None [] None
          | Some p =>
              let p := Some (Url.str2uint32 lexical_cast p) in
              match peer !! lit "fingerprint" with
              | None => mkParams h a p [] None
              | Some f =>
                  mkParams h a p f (str2int32 <$> peer !! lit "rank")
              end
          end
      end
  end.

(** The URL of the other end; the port is narrowed to 16 bits. *)
Definition params_url (p : connection_params_t) : outcome Url.nnti_url :=
  q ← was_set (port p);
  Ok (Url.nnti_url_port gethostbyname lexical_cast unset (hostname p) (u16 q)).

(** [split_string] *)
Definition split_string (item : str) (delim : ascii) : str * str :=
  match break_at (λ c, c =c? delim) item with
  | (a, Some (_, b)) => (a, b)
  | (a, None) => (item, [])
  end.

Definition add_param (m : gmap str str) (line : str) : gmap str str :=
  let '(k, v) := split_string line "="%char in <[k := v]> m.

(** The map [peer_params] makes of the lines of a reply. *)
Definition param_map (params : str) : gmap str str :=
  fold_left add_param (getlines params LF) ∅.

(** [peer_params] with a map: the connection and its peer change. *)
Definition peer_params_of_map (n : node) (ca : Z) (params : gmap str str) : outcome node :=
  c ← deref (conns n) ca;
  let ps := connection_params params in
  url ← params_url ps;
  pa ← was_set (peer_ c);
  p ← deref (peers n) pa;
  r ← was_set (rank ps);
  Ok (set_conns (<[ca := mkConnection (id_ c) (Url.pid_ url) (peer_ c) (fingerprint_ c) ps]> (conns n))
        (set_peers (<[pa := mkPeer (p_url p) (p_pid p) r (p_conn p)]> (peers n)) n)).

(** [peer_params] with the text of a reply *)
Definition peer_params (n : node) (ca : Z) (params : str) : outcome node :=
  peer_params_of_map n ca (param_map params).

(** [nnti_connection()] and [mpi_connection(transport)] *)
Definition new_connection (n : node) (ca : Z) : node :=
  set_next_id (u32 (next_id_ n + 1))
    (set_conns (<[ca := mkConnection (next_id_ n) 0 None [] no_params]> (conns n)) n).

(** [mpi_connection(transport, map)] makes its own peer, at [pa]. *)
Definition new_connection_of_map (n : node) (args : gmap str str) (pa ca : Z) : outcome node :=
  let ps := connection_params args in
  url ← params_url ps;
  r ← was_set (rank ps);
  Ok (set_next_id (u32 (next_id_ n + 1))
       (set_conns (<[ca := mkConnection (next_id_ n) (Url.pid_ url) (Some pa) (fingerprint ps) ps]> (conns n))
         (set_peers (<[pa := mkPeer url (Url.pid_ url) r (Some ca)]> (peers n)) n))).

(** [mpi_connection(transport, string)] reads the parameters before it makes its peer. *)
Definition new_connection_of_string (n : node) (params : str) (pa ca : Z) : outcome node :=
  n ← peer_params (new_connection n ca) ca params;
  c ← deref (conns n) ca;
  url ← params_url (peer_params_ c);
  r ← was_set (rank (peer_params_ c));
  Ok (set_conns (<[ca := mkConnection (id_ c) (peer_pid_ c) (Some pa) (fingerprint (peer_params_ c))
                           (peer_params_ c)]> (conns n))
        (set_peers (<[pa := mkPeer url (Url.pid_ url) r (Some ca)]> (peers n)) n)).

(** * mpi_transport.cpp *)

(** What the table holds for a connection. *)
Definition entry (ca : Z) (c : mpi_connection) : Connections.conn :=
  Connections.mkConn ca (id_ c) (peer_pid_ c).

(** [conn_map_.get(pid)] and the object found. *)
Definition get_conn (n : node) (pid : Z) : outcome (option (Z * mpi_connection)) :=
  match Connections.get_pid (conn_map_ n) pid with
  | None => Ok None
  | Some e => c ← deref (conns n) (Connections.at_ e); Ok (Some (Connections.at_ e, c))
  end.

(** [conn_map_.insert(conn)] and [conn_map_.remove(conn)] go through the pointer. *)
Definition map_insert (n : node) (ca : Z) : outcome node :=
  c ← deref (conns n) ca;
  m ← Connections.insert (conn_map_ n) (entry ca c);
  Ok (set_map m n).
Definition map_remove (n : node) (ca : Z) : outcome node :=
  c ← deref (conns n) ca;
  '(m, _) ← Connections.remove (conn_map_ n) (entry ca c);
  Ok (set_map m n).

Definition build_whookie_path (n : node) (service : str) : str :=
  lit "/nnti/mpi/" ++ service
  ++ lit "&hostname=" ++ Url.hostname_ (url_ n)
  ++ lit "&addr=" ++ show_dec (Url.addr_ (url_ n))
  ++ lit "&port=" ++ Url.port_ (url_ n)
  ++ lit "&fingerprint=" ++ show_dec (node_fingerprint_ n)
  ++ lit "&rank=" ++ to_string (nnti_comm_rank_ n).
Definition build_whookie_connect_path (n : node) : str := build_whookie_path n (lit "connect").
Definition build_whookie_disconnect_path (n : node) : str := build_whookie_path n (lit "disconnect").

(** How far [connect] gets under the lock: it has a peer from an earlier connection, or a
    connection of its own that waits for the page of the other node. *)
Inductive connect_state := Reused (peer_hdl : Z) | Waiting (conn : Z).

(** [connect] up to where the lock is given back; [pa] and [ca] are where [new] puts its objects. *)
Definition connect (n : node) (url : str) (pa ca : Z) : outcome (node * connect_state) :=
  let peer_url := Url.nnti_url_string gethostbyname lexical_cast unset url in
  let pid := Url.pid_ peer_url in
  let n := set_peers (<[pa := mkPeer peer_url pid (-1) None]> (peers n)) n in
  found ← get_conn n pid;
  match found with
  | Some (_, c) => hdl ← was_set (peer_ c); Ok (n, Reused hdl)
  | None =>
      let n := new_connection n ca in
      let n := set_peers (<[pa := mkPeer peer_url pid (-1) (Some ca)]> (peers n)) n in
      c ← deref (conns n) ca;
      let n := set_conns (<[ca := mkConnection (id_ c) pid (Some pa) (fingerprint_ c) (peer_params_ c)]>
                            (conns n)) n in
      n ← map_insert n ca;
      Ok (n, Waiting ca)
  end.

(** The attempts at the page, [retries] more after the one numbered [i]; [web] says what each
    attempt gives. *)
Fixpoint attempt (web : nat → Z * str) (retries i : nat) : option str :=
  let '(wh_rc, reply) := web i in
  if (wh_rc =? 0)%Z then Some reply
  else match retries with O => None | S retries => attempt web retries (S i) end.

(** [connect] from there on *)
Definition connect_reply (n : node) (ca : Z) (web : nat → Z * str)
    : outcome (node * NNTI_result_t * option Z) :=
  match attempt web 4 0 with
  | None => Ok (n, NNTI_ETIMEDOUT, None)
  | Some reply =>
      n ← peer_params n ca reply;
      c ← deref (conns n) ca;
      hdl ← was_set (peer_ c);
      Ok (n, NNTI_OK, Some hdl)
  end.

(** [disconnect] under the lock: the connection that was in the table. *)
Definition disconnect (n : node) (pa : Z) : outcome (node * option Z) :=
  p ← deref (peers n) pa;
  found ← get_conn n (p_pid p);
  match found with
  | None => Ok (n, None)
  | Some (ca, _) => n ← map_remove n ca; Ok (n, Some ca)
  end.

(** [disconnect] from there on: the page is asked for once, and not of the node itself. *)
Definition disconnect_reply (n : node) (pa ca : Z) (wh_rc : Z) : outcome (node * NNTI_result_t) :=
  p ← deref (peers n) pa;
  if negb (p_pid p =? me_pid n)%Z && negb (wh_rc =? 0)%Z then Ok (n, NNTI_ETIMEDOUT)
  else
    n ← delete_conn ca n;
    n ← delete_peer pa n;
    Ok (n, NNTI_OK).

(** [args.at(key)] *)
Definition at_key (args : gmap str str) (key : str) : outcome str :=
  match args !! key with Some v => Ok v | None => Throw OutOfRange end.

Definition line (key value : str) : str := key ++ "="%char :: value ++ [LF].

Definition connect_results (n : node) : str :=
  line (lit "hostname") (Url.hostname_ (url_ n))
  ++ line (lit "addr") (show_dec (Url.addr_ (url_ n)))
  ++ line (lit "port") (Url.port_ (url_ n))
  ++ line (lit "fingerprint") (show_dec (node_fingerprint_ n))
  ++ line (lit "rank") (to_string (nnti_comm_rank_ n)).

Definition connect_cb (n : node) (args : gmap str str) (pa ca : Z) : outcome (node * str) :=
  h ← at_key args (lit "hostname");
  p ← at_key args (lit "port");
  let peer_url := Url.nnti_url_host gethostbyname lexical_cast unset h p in
  f ← at_key args (lit "fingerprint");
  found ← get_conn n (Url.pid_ peer_url);
  let fresh n :=
    n ← new_connection_of_map n args pa ca;
    map_insert n ca in
  n ←
    match found with
    | Some (old, c) =>
        if (fingerprint_ c =s? f) then Ok n
        else if (fingerprint_ c =s? []) then Ok n
        else
          n ← map_remove n old;
          n ← delete_conn old n;
          fresh n
    | None => fresh n
    end;
  Ok (n, connect_results n).

Definition disconnect_cb (n : node) (args : gmap str str) : outcome (node * str) :=
  h ← at_key args (lit "hostname");
  p ← at_key args (lit "port");
  let peer_url := Url.nnti_url_host gethostbyname lexical_cast unset h p in
  found ← get_conn n (Url.pid_ peer_url);
  match found with
  | None => Ok (n, [])
  | Some (ca, _) =>
      n ← map_remove n ca;
      n ← delete_conn ca n;
      Ok (n, [])
  end.

(** [stop] takes every connection out of the table and frees none of them. *)
Definition stop_connections (n : node) : outcome node :=
  foldl (λ r ca, r ≫= λ n, map_remove n ca) (Ok n) (elements (Connections.conn_set_ (conn_map_ n))).

(** The pages; those of [stats] and [peers] are arguments. *)
Definition register_whookie_cb (connect_page disconnect_page stats_page peers_page : handler)
    (cbs : hooks) : hooks :=
  let cbs := (registerHook cbs (lit "/nnti/mpi/connect") connect_page).2 in
  let cbs := (registerHook cbs (lit "/nnti/mpi/disconnect") disconnect_page).2 in
  let cbs := (registerHook cbs (lit "/nnti/mpi/stats") stats_page).2 in
  (registerHook cbs (lit "/nnti/mpi/peers") peers_page).2.

Definition unregister_whookie_cb (cbs : hooks) : hooks :=
  let cbs := (deregisterHook cbs (lit "/nnti/mpi/connect")).2 in
  let cbs := (deregisterHook cbs (lit "/nnti/mpi/disconnect")).2 in
  let cbs := (deregisterHook cbs (lit "/nnti/mpi/stats")).2 in
  (deregisterHook cbs (lit "/nnti/mpi/peers")).2.

(** The page a node gives for a request, as it is when the request comes. *)
Definition page (r : outcome (node * str)) : str :=
  match r with Ok (_, results) => results | Throw _ => [] end.

(** [get_url]: [strncpy] into [maxlen] bytes. *)
Definition get_url (n : node) (maxlen : nat) : str :=
  let s := c_str (Url.url_ (url_ n)) in take maxlen (s ++ replicate maxlen zero).

(** * Calls in turn

    The threads that wait for a page: those in [connect] by their connection, those in [disconnect] by
    their connection and the handle they were given. *)
Record world := mkWorld {
  w_node : node;
  connecting : gset Z;
  disconnecting : gmap Z Z
}.

Inductive event :=
| EConnect (url : str) (pa ca : Z)
| EReply (ca : Z) (web : nat → Z * str)
| EDisconnect (pa : Z)
| EDisconnected (ca wh_rc : Z)
| EConnectCb (args : gmap str str) (pa ca : Z)
| EDisconnectCb (args : gmap str str)
| EStop.

Definition act (w : world) (e : event) : outcome world :=
  let n := w_node w in
  match e with
  | EConnect url pa ca =>
      '(n, st) ← connect n url pa ca;
      Ok (mkWorld n (match st with Waiting ca => {[ca]} ∪ connecting w | Reused _ => connecting w end)
            (disconnecting w))
  | EReply ca web =>
      '(n, _, _) ← connect_reply n ca web;
      Ok (mkWorld n (connecting w ∖ {[ca]}) (disconnecting w))
  | EDisconnect pa =>
      '(n, found) ← disconnect n pa;
      Ok (mkWorld n (connecting w)
            (match found with Some ca => <[ca := pa]> (disconnecting w) | None => disconnecting w end))
  | EDisconnected ca wh_rc =>
      match disconnecting w !! ca with
      | Some pa =>
          '(n, _) ← disconnect_reply n pa ca wh_rc;
          Ok (mkWorld n (connecting w) (delete ca (disconnecting w)))
      | None => Ok w
      end
  | EConnectCb args pa ca =>
      '(n, _) ← connect_cb n args pa ca;
      Ok (mkWorld n (connecting w) (disconnecting w))
  | EDisconnectCb args =>
      '(n, _) ← disconnect_cb n args;
      Ok (mkWorld n (connecting w) (disconnecting w))
  | EStop => n ← stop_connections n; Ok (mkWorld n (connecting w) (disconnecting w))
  end.

Definition run (w : world) (es : list event) : outcome world :=
  foldl (λ r e, r ≫= λ w, act w e) (Ok w) es.

Definition has_keys (args : gmap str str) (keys : list str) : bool :=
  forallb (λ k, bool_decide (is_Some (args !! k))) keys.
Definition peer_keys : list str :=
  [lit "hostname"; lit "addr"; lit "port"; lit "fingerprint"; lit "rank"].

(** The connection to a process is not one that is being made. *)
Definition settled (w : world) (pid : Z) : bool :=
  match Connections.get_pid (conn_map_ (w_node w)) pid with
  | Some e => bool_decide (Connections.at_ e ∉ connecting w)
  | None => true
  end.

(** A reply names the process that was asked, by the id it was asked under. *)
Definition names (reply : str) (pid : Z) : bool :=
  has_keys (param_map reply) peer_keys &&
  match params_url (connection_params (param_map reply)) with
  | Ok url => (Url.pid_ url =? pid)%Z
  | Throw _ => false
  end.

(** What is asked of the callers: new objects get unused memory; a reply names the process that was
    asked; requests of other nodes have their arguments; nothing ends a connection that is being made;
    a handle that is given up is a live one, and is given up once; the transport is stopped when
    no [connect] is under way. *)
Definition allowed (w : world) (e : event) : bool :=
  let n := w_node w in
  let fresh pa ca := bool_decide (peers n !! pa = None) && bool_decide (conns n !! ca = None) in
  match e with
  | EConnect _ pa ca => fresh pa ca
  | EReply ca web =>
      bool_decide (ca ∈ connecting w) &&
      match attempt web 4 0, conns n !! ca with
      | Some reply, Some c => names reply (peer_pid_ c)
      | _, _ => true
      end
  | EDisconnect pa =>
      match peers n !! pa with
      | Some p =>
          settled w (p_pid p) &&
          bool_decide (map_Forall (λ _ q, q ≠ pa) (disconnecting w))
      | None => false
      end
  | EDisconnected ca _ => bool_decide (is_Some (disconnecting w !! ca))
  | EConnectCb args pa ca => fresh pa ca && has_keys args peer_keys
  | EDisconnectCb args =>
      match args !! lit "hostname", args !! lit "port" with
      | Some h, Some p => settled w (Url.pid_ (Url.nnti_url_host gethostbyname lexical_cast unset h p))
      | _, _ => false
      end
  | EStop => bool_decide (connecting w = ∅)
  end.

Fixpoint disciplined (w : world) (es : list event) : bool :=
  match es with
  | [] => true
  | e :: es =>
      allowed w e && match act w e with Ok w' => disciplined w' es | Throw _ => true end
  end.

(** Every connection of the table is a live object that has the id and the process the table has it
    under, and a live peer for that process. *)
Definition in_table (n : node) (pid : Z) (e : Connections.conn) : Prop :=
  Connections.pid_map_ (conn_map_ n) !! pid = Some e.

Record sound_entry (n : node) (pid : Z) (e : Connections.conn) (c : mpi_connection) (pa : Z) (p : mpi_peer)
    : Prop := {
  se_conn : conns n !! Connections.at_ e = Some c;
  se_entry : entry (Connections.at_ e) c = e;
  se_pid : peer_pid_ c = pid;
  se_peer_ : peer_ c = Some pa;
  se_peer : peers n !! pa = Some p;
  se_peer_pid : p_pid p = pid;
  se_id : (0 ≤ id_ c < next_id_ n)%Z
}.

Record inv (w : world) : Prop := {
  inv_map : Connections.wf (conn_map_ (w_node w));
  inv_next : (0 ≤ next_id_ (w_node w))%Z;
  inv_entry : ∀ pid e, in_table (w_node w) pid e → ∃ c pa p, sound_entry (w_node w) pid e c pa p;
  inv_connecting : ∀ a, a ∈ connecting w →
    ∃ pid e c, in_table (w_node w) pid e ∧ Connections.at_ e = a ∧
               conns (w_node w) !! a = Some c ∧ fingerprint_ c = [];
  inv_disconnecting : ∀ ca pa, disconnecting w !! ca = Some pa →
    is_Some (conns (w_node w) !! ca) ∧ ca ∉ Connections.conn_set_ (conn_map_ (w_node w)) ∧
    is_Some (peers (w_node w) !! pa) ∧
    (∀ pid e c, in_table (w_node w) pid e → conns (w_node w) !! Connections.at_ e = Some c →
                peer_ c ≠ Some pa);
  inv_once : ∀ ca ca' pa, disconnecting w !! ca = Some pa → disconnecting w !! ca' = Some pa → ca = ca'
}.

End transport.

(** * The invariant *)

Lemma deref_live {A} (h : gmap Z A) a x : h !! a = Some x → deref h a = Ok x.
Proof. unfold deref. by intros ->. Qed.

Lemma table_set n pid e : Connections.wf (conn_map_ n) → in_table n pid e →
  Connections.at_ e ∈ Connections.conn_set_ (conn_map_ n).
Proof. intros W H. apply (Connections.wf_set _ W). eauto. Qed.

Lemma get_conn_cases n S D pid :
  inv (mkWorld n S D) →
  (get_conn n pid = Ok None ∧ Connections.get_pid (conn_map_ n) pid = None) ∨
  ∃ e c pa p, in_table n pid e ∧ sound_entry n pid e c pa p ∧
              get_conn n pid = Ok (Some (Connections.at_ e, c)).
Proof.
  intros I. unfold get_conn. destruct (Connections.get_pid (conn_map_ n) pid) as [e|] eqn:E; [right|by left].
  destruct (inv_entry _ I pid e E) as (c & pa & p & Hs). exists e, c, pa, p. split_and!; [done|done|].
  simpl in Hs. by rewrite (deref_live _ _ _ (se_conn _ _ _ _ _ _ Hs)).
Qed.

(** What the invariant sees of an object. *)
Definition same_conn (c c' : mpi_connection) : Prop :=
  id_ c' = id_ c ∧ peer_pid_ c' = peer_pid_ c ∧ peer_ c' = peer_ c ∧ fingerprint_ c' = fingerprint_ c.

Lemma inv_keep n n' S D :
  inv (mkWorld n S D) → conn_map_ n' = conn_map_ n → (next_id_ n ≤ next_id_ n')%Z →
  (∀ a c, conns n !! a = Some c → ∃ c', conns n' !! a = Some c' ∧ same_conn c c') →
  (∀ a p, peers n !! a = Some p → ∃ p', peers n' !! a = Some p' ∧ p_pid p' = p_pid p) →
  inv (mkWorld n' S D).
Proof.
  intros [I1 I2 I3 I4 I5 I6] Hm Hi Hc Hp. simpl in *. unfold in_table in *.
  split; simpl; unfold in_table; rewrite ?Hm; auto.
  - lia.
  - intros pid e He. destruct (I3 pid e He) as (c & pa & p & [H1 H2 H3 H4 H5 H6 H7]).
    destruct (Hc _ _ H1) as (c' & Hc' & E1 & E2 & E3 & E4). destruct (Hp _ _ H5) as (p' & Hp' & E5).
    exists c', pa, p'. split; try congruence; [|lia]. unfold entry in *. by rewrite E1, E2.
  - intros a Ha. destruct (I4 a Ha) as (pid & e & c & He & Hat & Hca & Hf).
    destruct (Hc _ _ Hca) as (c' & Hc' & _ & _ & _ & E4). exists pid, e, c'. split_and!; congruence.
  - intros ca pa Hd. destruct (I5 ca pa Hd) as ([c Hca] & Hs & [p Hpa] & Hno). split_and!; try done.
    + destruct (Hc _ _ Hca) as (c' & -> & _). done.
    + destruct (Hp _ _ Hpa) as (p' & -> & _). done.
    + intros pid e c' He Hc'. destruct (I3 pid e He) as (c2 & pa2 & p2 & Hse).
      pose proof (se_conn _ _ _ _ _ _ Hse) as Hc2. destruct (Hc _ _ Hc2) as (c3 & Hc3 & _ & _ & E3 & _).
      assert (c' = c3) as -> by congruence. rewrite E3. by apply (Hno pid e c2).
Qed.

(** New objects and ids do not disturb the old ones. *)
Lemma inv_new_objects n n' S D :
  inv (mkWorld n S D) → conn_map_ n' = conn_map_ n → conns n ⊆ conns n' → peers n ⊆ peers n' →
  (next_id_ n ≤ next_id_ n')%Z → inv (mkWorld n' S D).
Proof.
  intros I Hm Hc Hp Hi. apply (inv_keep n); try done.
  - intros a c Ha. exists c. split; [by eapply lookup_weaken|done].
  - intros a p Ha. exists p. split; [by eapply lookup_weaken|done].
Qed.

Lemma map_remove_inv n S D pid e :
  inv (mkWorld n S D) → in_table n pid e → Connections.at_ e ∉ S →
  ∃ m, map_remove n (Connections.at_ e) = Ok (set_map m n) ∧ inv (mkWorld (set_map m n) S D) ∧
       Connections.at_ e ∉ Connections.conn_set_ m ∧
       ∀ q d, in_table (set_map m n) q d ↔ q ≠ pid ∧ in_table n q d.
Proof.
  intros I He HS. pose proof I as [I1 I2 I3 I4 I5 I6]. simpl in *.
  destruct (I3 pid e He) as (c & pa & p & Hse). pose proof (se_entry _ _ _ _ _ _ Hse) as Hent.
  destruct (Connections.wf_pid _ I1 pid e He) as [Hpid Hid].
  destruct (Connections.remove_ok (conn_map_ n) e I1 Hid) as (m & Er & W & _ & Hp).
  exists m. assert (map_remove n (Connections.at_ e) = Ok (set_map m n)) as ->.
  { unfold map_remove. rewrite (deref_live _ _ _ (se_conn _ _ _ _ _ _ Hse)). cbn [mbind outcome_bind].
    rewrite Hent, Er. done. }
  assert (∀ q d, in_table (set_map m n) q d ↔ q ≠ pid ∧ in_table n q d) as Hiff.
  { intros q d. unfold in_table, set_map. cbn [conn_map_]. specialize (Hp q). unfold Connections.get_pid in Hp.
    rewrite Hp, Hpid. clear Hp. case_decide.
    - split; [done|]. by intros [? _].
    - split; [by intros ?|]. by intros [_ ?]. }
  assert (∀ a, a ∈ Connections.conn_set_ m → a ∈ Connections.conn_set_ (conn_map_ n) ∧ a ≠ Connections.at_ e) as Hset.
  { intros a (q & d & Hd & <-)%(Connections.wf_set _ W). apply Hiff in Hd as [Hq Hd].
    split; [by eapply table_set|]. intros Heq.
    pose proof (Connections.wf_at _ I1 _ _ _ _ Hd He Heq) as ->.
    destruct (Connections.wf_pid _ I1 q e Hd). congruence. }
  split_and!; [done| |naive_solver|done].
  split; simpl; auto.
  - intros q d [_ Hd]%Hiff. destruct (I3 q d Hd) as (c2 & pa2 & p2 & [? ? ? ? ? ? ?]). exists c2, pa2, p2. done.
  - intros a Ha. destruct (I4 a Ha) as (q & d & c2 & Hd & Hat & Hc2 & Hf). exists q, d, c2. split_and!; try done.
    apply Hiff. split; [|done]. intros ->. unfold in_table in *. assert (d = e) as -> by congruence. by subst a.
  - intros ca pa' Hd. destruct (I5 ca pa' Hd) as (H1 & H2 & H3 & H4). split_and!; [done|naive_solver|done|].
    intros q d c2 [_ Hq]%Hiff. by apply (H4 q d c2).
Qed.

Lemma map_insert_inv n S D ca c pa p :
  inv (mkWorld n S D) → conns n !! ca = Some c → ca ∉ Connections.conn_set_ (conn_map_ n) →
  peer_ c = Some pa → peers n !! pa = Some p → p_pid p = peer_pid_ c → (0 ≤ id_ c < next_id_ n)%Z →
  (∀ q d, in_table n q d → Connections.cid d ≠ id_ c) →
  (∀ k v, D !! k = Some v → k ≠ ca ∧ v ≠ pa) →
  ∃ m, map_insert n ca = Ok (set_map m n) ∧ inv (mkWorld (set_map m n) S D) ∧
       (∀ q d, in_table n q d → in_table (set_map m n) q d) ∧
       (Connections.get_pid (conn_map_ n) (peer_pid_ c) = None →
        in_table (set_map m n) (peer_pid_ c) (entry ca c)).
Proof.
  intros I Hc Hset Hpa Hp Hpid Hid Hfresh HD. pose proof I as [I1 I2 I3 I4 I5 I6]. simpl in *.
  unfold map_insert. rewrite (deref_live _ _ _ Hc). cbn [mbind outcome_bind].
  destruct (Connections.get_pid (conn_map_ n) (peer_pid_ c)) as [d|] eqn:E.
  { exists (conn_map_ n). unfold Connections.insert. cbn [Connections.cpid entry].
    unfold Connections.get_pid in E. rewrite E. cbn [mbind outcome_bind].
    split_and!; [done| |done|done]. by apply (inv_new_objects n). }
  assert (Connections.get_id (conn_map_ n) (id_ c) = None) as Hno.
  { destruct (Connections.get_id _ _) as [d|] eqn:Ed; [|done].
    destruct (Connections.wf_id _ I1 _ _ Ed) as [Hcid Hd]. by destruct (Hfresh _ _ Hd). }
  destruct (Connections.insert_ok (conn_map_ n) (entry ca c)) as (m & Ei & _ & Hp'); [done..|].
  exists m. rewrite Ei. cbn [mbind outcome_bind].
  pose proof (Connections.conn_insert_wf _ _ _ Ei I1) as W.
  assert (∀ q d, in_table (set_map m n) q d ↔
            (q = peer_pid_ c ∧ d = entry ca c) ∨ (q ≠ peer_pid_ c ∧ in_table n q d)) as Hiff.
  { intros q d. unfold in_table, set_map. cbn [conn_map_]. specialize (Hp' q). unfold Connections.get_pid in Hp'.
    rewrite Hp'. simpl. clear Hp'. case_decide as Hq; [subst q|].
    - split; [intros [= <-]; by left|]. intros [[_ ->]|[? _]]; done.
    - split; [by right|]. intros [[? _]|[_ ?]]; done. }
  assert (∀ q d, in_table n q d → in_table (set_map m n) q d) as Hmono.
  { intros q d Hd. apply Hiff. right. split; [|done]. intros ->. unfold in_table, Connections.get_pid in *. congruence. }
  split_and!; [done| |done|intros _; apply Hiff; by left].
  split; simpl; auto.
  - intros q d [[-> ->]|[_ Hd]]%Hiff; [by exists c, pa, p|].
    destruct (I3 q d Hd) as (c2 & pa2 & p2 & [? ? ? ? ? ? ?]). exists c2, pa2, p2. done.
  - intros a Ha. destruct (I4 a Ha) as (q & d & c2 & Hd & Hat & Hc2 & Hf). exists q, d, c2. auto.
  - intros k v Hd. destruct (I5 k v Hd) as (H1 & H2 & H3 & H4). destruct (HD k v Hd) as [Hk Hv].
    split_and!; [done| |done|].
    + intros (q & d & Hq & Hat)%(Connections.wf_set _ W). apply Hiff in Hq as [[-> ->]|[_ Hq]]; [done|].
      apply H2. rewrite <-Hat. by eapply table_set.
    + intros q d c2 [[-> ->]|[_ Hq]]%Hiff Hc2; [|by apply (H4 q d c2)].
      simpl in Hc2. congruence.
Qed.

Lemma delete_conn_inv n S D ca c :
  inv (mkWorld n S D) → conns n !! ca = Some c → ca ∉ Connections.conn_set_ (conn_map_ n) → D !! ca = None →
  ∃ n', delete_conn ca n = Ok n' ∧ inv (mkWorld n' S D) ∧ n' = set_conns (delete ca (conns n)) n.
Proof.
  intros [I1 I2 I3 I4 I5 I6] Hc Hset HD. simpl in *. eexists. split.
  { unfold delete_conn. rewrite (deref_live _ _ _ Hc). done. }
  assert (∀ q d, in_table n q d → Connections.at_ d ≠ ca) as Hne
    by (intros q d Hd <-; by apply Hset; eapply table_set).
  split; [|done]. split; simpl; auto.
  - intros q d Hd. destruct (I3 q d Hd) as (c2 & pa2 & p2 & [? ? ? ? ? ? ?]). exists c2, pa2, p2.
    split; try done. simpl. rewrite lookup_delete_ne; [done|]. by apply not_eq_sym, (Hne q d).
  - intros a Ha. destruct (I4 a Ha) as (q & d & c2 & Hd & Hat & Hc2 & Hf). exists q, d, c2. split_and!; try done.
    rewrite lookup_delete_ne; [done|]. intros ->. by apply (Hne q d).
  - intros k v Hd. destruct (I5 k v Hd) as (H1 & H2 & H3 & H4). split_and!; try done.
    + rewrite lookup_delete_ne; [done|]. congruence.
    + intros q d c2 Hq [_ Hc2]%lookup_delete_Some. by apply (H4 q d c2).
Qed.

Lemma inv_add_connecting n S D pid e c :
  inv (mkWorld n S D) → in_table n pid e → conns n !! Connections.at_ e = Some c → fingerprint_ c = [] →
  inv (mkWorld n ({[Connections.at_ e]} ∪ S) D).
Proof.
  intros [I1 I2 I3 I4 I5 I6] He Hc Hf. split; simpl in *; auto.
  intros a [->%elem_of_singleton|Ha]%elem_of_union; [|by auto]. by exists pid, e, c.
Qed.

Lemma inv_sub_connecting n S S' D : inv (mkWorld n S D) → S' ⊆ S → inv (mkWorld n S' D).
Proof. intros [I1 I2 I3 I4 I5 I6] HS. split; simpl in *; auto. Qed.

Lemma insert_twice {A} (m : gmap Z A) k x y : m !! k = None → m ⊆ <[k := x]> (<[k := y]> m).
Proof. intros H. rewrite insert_insert_eq. by apply insert_subseteq. Qed.

(** A connection made under a new id with a new peer enters the table. *)
Lemma insert_new n n1 S D ca c pa p :
  inv (mkWorld n S D) → peers n !! pa = None → conns n !! ca = None →
  conn_map_ n1 = conn_map_ n → conns n ⊆ conns n1 → peers n ⊆ peers n1 →
  next_id_ n1 = (next_id_ n + 1)%Z → conns n1 !! ca = Some c → peers n1 !! pa = Some p →
  peer_ c = Some pa → p_pid p = peer_pid_ c → id_ c = next_id_ n →
  ∃ m, map_insert n1 ca = Ok (set_map m n1) ∧ inv (mkWorld (set_map m n1) S D) ∧
       (∀ q d, in_table n q d → in_table (set_map m n1) q d) ∧
       (Connections.get_pid (conn_map_ n) (peer_pid_ c) = None →
        in_table (set_map m n1) (peer_pid_ c) (entry ca c)).
Proof.
  intros I Hpa Hca Hm Hsc Hsp Hnext Hc Hp Hcp Hpid Hid.
  assert (inv (mkWorld n1 S D)) as I1 by (eapply inv_new_objects; try done; lia).
  assert (in_table n = in_table n1) as Ht by (unfold in_table; by rewrite Hm). rewrite Ht.
  pose proof (inv_next _ I) as H0. simpl in H0. rewrite <-Hm.
  apply (map_insert_inv n1 S D ca c pa p); try done.
  - rewrite Hm. intros (q & d & Hd & Hat)%(Connections.wf_set _ (inv_map _ I)).
    destruct (inv_entry _ I q d Hd) as (c2 & pa2 & p2 & Hse). pose proof (se_conn _ _ _ _ _ _ Hse). simpl in *. congruence.
  - lia.
  - rewrite <-Ht. intros q d Hd. destruct (inv_entry _ I q d Hd) as (c2 & pa2 & p2 & Hse).
    rewrite <-(se_entry _ _ _ _ _ _ Hse). pose proof (se_id _ _ _ _ _ _ Hse). simpl in *. lia.
  - intros k v Hkv. destruct (inv_disconnecting _ I k v Hkv) as ([? ?] & _ & [? ?] & _). simpl in *.
    split; congruence.
Qed.

Section safety.
Context (gethostbyname : str → option Z) (lexical_cast : Z → str → option Z)
        (lexical_cast_int32 : str → option Z) (unset : Z).
Local Abbreviation connect := (connect gethostbyname lexical_cast unset).
Local Abbreviation connect_cb := (connect_cb gethostbyname lexical_cast lexical_cast_int32 unset).
Local Abbreviation disconnect_cb := (disconnect_cb gethostbyname lexical_cast unset).
Local Abbreviation connect_reply := (connect_reply gethostbyname lexical_cast lexical_cast_int32 unset).
Local Abbreviation peer_params := (peer_params gethostbyname lexical_cast lexical_cast_int32 unset).
Local Abbreviation new_connection_of_map := (new_connection_of_map gethostbyname lexical_cast lexical_cast_int32 unset).
Local Abbreviation new_connection_of_string := (new_connection_of_string gethostbyname lexical_cast lexical_cast_int32 unset).
Local Abbreviation params_url := (params_url gethostbyname lexical_cast unset).
Local Abbreviation connection_params := (connection_params lexical_cast lexical_cast_int32).
Local Abbreviation act := (act gethostbyname lexical_cast lexical_cast_int32 unset).
Local Abbreviation run := (run gethostbyname lexical_cast lexical_cast_int32 unset).
Local Abbreviation allowed := (allowed gethostbyname lexical_cast lexical_cast_int32 unset).
Local Abbreviation disciplined := (disciplined gethostbyname lexical_cast lexical_cast_int32 unset).
Local Abbreviation names := (names gethostbyname lexical_cast lexical_cast_int32 unset).
Local Abbreviation nnti_url_string := (Url.nnti_url_string gethostbyname lexical_cast unset).
Local Abbreviation nnti_url_host := (Url.nnti_url_host gethostbyname lexical_cast unset).

Lemma connect_inv n S D url pa ca :
  inv (mkWorld n S D) → peers n !! pa = None → conns n !! ca = None → (next_id_ n + 1 < 2 ^ 32)%Z →
  ∃ n' st, connect n url pa ca = Ok (n', st) ∧
    inv (mkWorld n' (match st with Waiting ca => {[ca]} ∪ S | Reused _ => S end) D) ∧
    (next_id_ n' ≤ next_id_ n + 1)%Z ∧
    (Connections.get_pid (conn_map_ n) (Url.pid_ (nnti_url_string url)) = None →
     let pid := Url.pid_ (nnti_url_string url) in
     st = Waiting ca ∧ in_table n' pid (Connections.mkConn ca (next_id_ n) pid) ∧
     conns n' !! ca = Some (mkConnection (next_id_ n) pid (Some pa) [] no_params) ∧
     peers n' !! pa = Some (mkPeer (nnti_url_string url) pid (-1) (Some ca))).
Proof.
  intros I Hpa Hca Hn. unfold connect. set (u := nnti_url_string url).
  set (n0 := set_peers _ n). assert (inv (mkWorld n0 S D)) as I0.
  { eapply inv_new_objects; try done. by apply insert_subseteq. }
  pose proof (inv_next _ I) as H0. simpl in H0.
  destruct (get_conn_cases n0 S D (Url.pid_ u) I0) as [[-> Hnone]|(e & c & pa2 & p2 & He & Hse & ->)];
    cbn [mbind outcome_bind].
  - erewrite (deref_live _ ca); [|apply lookup_insert_eq].
    cbn [mbind outcome_bind id_ fingerprint_ peer_params_].
    set (n1 := set_conns _ _). set (c := mkConnection _ _ _ _ _) in n1.
    destruct (insert_new n n1 S D ca c pa (mkPeer u (Url.pid_ u) (-1) (Some ca)))
      as (m & -> & I1 & _ & Hin); try done.
    + by apply insert_twice.
    + by apply insert_twice.
    + simpl. apply wrap_id. unfold in_width. lia.
    + apply lookup_insert_eq.
    + apply lookup_insert_eq.
    + cbn [mbind outcome_bind]. eexists _, _. split; [done|]. split_and!.
      * apply (inv_add_connecting _ _ _ (Url.pid_ u) (entry ca c) c); try done; [by apply Hin|].
        apply lookup_insert_eq.
      * simpl. unfold u32, wrap. rewrite Z.mod_small; lia.
      * intros _. split_and!; [done|by apply Hin|apply lookup_insert_eq|apply lookup_insert_eq].
  - rewrite (se_peer_ _ _ _ _ _ _ Hse). cbn [was_set mbind outcome_bind]. eexists _, _.
    split; [done|]. split; [done|]. split; [simpl; lia|]. intros Hno. unfold in_table in He. simpl in He.
    unfold Connections.get_pid in Hno. fold u in Hno. congruence.
Qed.

Lemma has_keys_params m :
  has_keys m peer_keys = true →
  ∃ h a p f r, connection_params m = mkParams h (Some a) (Some p) f (Some r) ∧
    m !! lit "hostname" = Some h ∧ m !! lit "fingerprint" = Some f ∧
    Some p = Url.str2uint32 lexical_cast <$> m !! lit "port".
Proof.
  unfold has_keys, peer_keys. cbn [forallb]. rewrite !andb_true_iff, !bool_decide_eq_true.
  intros ([h Hh] & [a Ha] & [p Hp] & [f Hf] & [r Hr] & _). unfold connection_params.
  rewrite Hh, Ha, Hp, Hf, Hr. by repeat eexists.
Qed.

Lemma has_keys_at m k : has_keys m peer_keys = true → k ∈ peer_keys → ∃ v, at_key m k = Ok v ∧ m !! k = Some v.
Proof.
  intros H Hk. unfold has_keys in H. rewrite forallb_forall in H. specialize (H k).
  rewrite bool_decide_eq_true in H. destruct H as [v Hv]; [by apply list_elem_of_In|].
  exists v. unfold at_key. by rewrite Hv.
Qed.

Lemma connect_reply_inv n S D ca c web :
  inv (mkWorld n S D) → ca ∈ S → conns n !! ca = Some c →
  (∀ reply, attempt web 4 0 = Some reply → names reply (peer_pid_ c) = true) →
  ∃ n' rc hdl, connect_reply n ca web = Ok (n', rc, hdl) ∧ inv (mkWorld n' (S ∖ {[ca]}) D) ∧
               next_id_ n' = next_id_ n.
Proof.
  intros I Hca Hc Hnames. unfold connect_reply. destruct (attempt web 4 0) as [reply|].
  2:{ eexists _, _, _. split; [done|]. split; [|done]. eapply inv_sub_connecting; [done|set_solver]. }
  specialize (Hnames reply eq_refl). unfold names in Hnames. apply andb_prop in Hnames as [Hk Hpid].
  destruct (has_keys_params _ Hk) as (h & a & p & f & r & Hps & _). unfold peer_params, peer_params_of_map.
  rewrite (deref_live _ _ _ Hc). cbn [mbind outcome_bind].
  destruct (params_url _) as [url|] eqn:Eu; [|done]. cbn [mbind outcome_bind]. apply Z.eqb_eq in Hpid.
  destruct (inv_connecting _ I ca Hca) as (pid & e & c2 & He & Hat & Hc2 & Hf).
  destruct (inv_entry _ I pid e He) as (c3 & pa & q & Hse). simpl in *.
  pose proof (se_conn _ _ _ _ _ _ Hse) as Hc3. rewrite Hat in Hc3.
  assert (c3 = c) as -> by congruence. clear Hc3. pose proof (se_peer _ _ _ _ _ _ Hse) as Hq.
  rewrite (se_peer_ _ _ _ _ _ _ Hse). cbn [was_set mbind outcome_bind].
  rewrite (deref_live _ _ _ Hq), Hps. cbn [mbind outcome_bind rank was_set].
  erewrite (deref_live _ ca); [|apply lookup_insert_eq]. cbn [mbind outcome_bind was_set peer_].
  eexists _, _, _. split; [done|]. split; [|done].
  apply (inv_sub_connecting _ S); [|set_solver]. apply (inv_keep n); try done; simpl.
  - intros x cx Hx. destruct (decide (x = ca)) as [->|Hne].
    + rewrite lookup_insert_eq. eexists. split; [done|]. rewrite Hc in Hx. injection Hx as <-.
      split_and!; try done. simpl. symmetry. apply (se_peer_ _ _ _ _ _ _ Hse).
    + rewrite lookup_insert_ne by done. by exists cx.
  - intros x px Hx. destruct (decide (x = pa)) as [->|Hne].
    + rewrite lookup_insert_eq. eexists. split; [done|]. simpl. congruence.
    + rewrite lookup_insert_ne by done. by exists px.
Qed.

(** The connection of a process leaves the table. *)
Lemma take_out n S D pid :
  inv (mkWorld n S D) → settled (mkWorld n S D) pid = true →
  (get_conn n pid = Ok None) ∨
  ∃ ca c m, get_conn n pid = Ok (Some (ca, c)) ∧ map_remove n ca = Ok (set_map m n) ∧
    inv (mkWorld (set_map m n) S D) ∧ conns n !! ca = Some c ∧ D !! ca = None ∧
    ca ∉ Connections.conn_set_ m ∧
    (∀ q d, in_table (set_map m n) q d ↔ q ≠ pid ∧ in_table n q d).
Proof.
  intros I Hset. destruct (get_conn_cases n S D pid I) as [[H _]|(e & c & pa & p & He & Hse & H)]; [by left|right].
  unfold settled in Hset. simpl in Hset.
  replace (Connections.get_pid (conn_map_ n) pid) with (Some e) in Hset by (symmetry; exact He).
  apply bool_decide_eq_true in Hset.
  destruct (map_remove_inv n S D pid e I He Hset) as (m & Hr & I' & Hout & Hiff).
  exists (Connections.at_ e), c, m. split_and!; try done.
  - apply (se_conn _ _ _ _ _ _ Hse).
  - destruct (D !! Connections.at_ e) as [v|] eqn:E; [|done].
    destruct (inv_disconnecting _ I _ _ E) as (_ & Hno & _). exfalso. apply Hno. simpl.
    eapply table_set; [apply (inv_map _ I)|done].
Qed.

Lemma disconnect_inv n S D pa p :
  inv (mkWorld n S D) → peers n !! pa = Some p → settled (mkWorld n S D) (p_pid p) = true →
  map_Forall (λ _ q, q ≠ pa) D →
  ∃ n' found, disconnect n pa = Ok (n', found) ∧
    inv (mkWorld n' S (match found with Some ca => <[ca := pa]> D | None => D end)) ∧
    next_id_ n' = next_id_ n.
Proof.
  intros I Hp Hset HD. unfold disconnect. rewrite (deref_live _ _ _ Hp). cbn [mbind outcome_bind].
  destruct (take_out n S D (p_pid p) I Hset) as [->|(ca & c & m & -> & Hr & I' & Hc & HDca & Hout & Hiff)];
    cbn [mbind outcome_bind]; [by eexists _, _|].
  rewrite Hr. cbn [mbind outcome_bind]. eexists _, _. split; [done|]. split; [|done].
  destruct I' as [J1 J2 J3 J4 J5 J6]. simpl in *. split; simpl; auto.
  - intros k v [[<- <-]|[Hne Hk]]%lookup_insert_Some; [|by apply J5].
    split_and!; [by exists c|done|by exists p|].
    intros q d c2 Hq Hc2 Hpe. destruct (J3 q d Hq) as (c3 & pa3 & p3 & Hse3).
    assert (c3 = c2) as -> by (pose proof (se_conn _ _ _ _ _ _ Hse3); simpl in *; congruence).
    apply Hiff in Hq as [Hq _]. apply Hq. rewrite <-(se_peer_pid _ _ _ _ _ _ Hse3).
    pose proof (se_peer_ _ _ _ _ _ _ Hse3). pose proof (se_peer _ _ _ _ _ _ Hse3). simpl in *. congruence.
  - intros k k' v [[<- <-]|[Hne Hk]]%lookup_insert_Some [[<- Hv]|[Hne' Hk']]%lookup_insert_Some; try done.
    + by destruct (HD _ _ Hk').
    + subst v. by destruct (HD _ _ Hk).
    + by apply (J6 k k' v).
Qed.

Lemma inv_end_disconnecting n S D ca : inv (mkWorld n S D) → inv (mkWorld n S (delete ca D)).
Proof.
  intros [I1 I2 I3 I4 I5 I6]. split; simpl in *; auto.
  - intros k v [_ Hk]%lookup_delete_Some. by apply I5.
  - intros k k' v [_ Hk]%lookup_delete_Some [_ Hk']%lookup_delete_Some. by apply (I6 k k' v).
Qed.

Lemma delete_peer_inv n S D pa p :
  inv (mkWorld n S D) → peers n !! pa = Some p →
  (∀ q e c, in_table n q e → conns n !! Connections.at_ e = Some c → peer_ c ≠ Some pa) →
  (∀ k v, D !! k = Some v → v ≠ pa) →
  delete_peer pa n = Ok (set_peers (delete pa (peers n)) n) ∧
  inv (mkWorld (set_peers (delete pa (peers n)) n) S D).
Proof.
  intros [I1 I2 I3 I4 I5 I6] Hp Hno HD. simpl in *.
  split; [unfold delete_peer; by rewrite (deref_live _ _ _ Hp)|]. split; simpl; auto.
  - intros q e He. destruct (I3 q e He) as (c2 & pa2 & p2 & [H1 H2 H3 H4 H5 H6 H7]). exists c2, pa2, p2.
    split; try done. simpl. rewrite lookup_delete_ne; [done|]. intros <-. by apply (Hno q e c2).
  - intros k v Hk. destruct (I5 k v Hk) as (H1 & H2 & H3 & H4). split_and!; try done.
    rewrite lookup_delete_ne; [done|]. by apply not_eq_sym, (HD k v).
Qed.

Lemma disconnect_reply_inv n S D pa ca wh_rc :
  inv (mkWorld n S D) → D !! ca = Some pa →
  ∃ n' rc, disconnect_reply n pa ca wh_rc = Ok (n', rc) ∧ inv (mkWorld n' S (delete ca D)) ∧
           next_id_ n' = next_id_ n.
Proof.
  intros I HD. destruct (inv_disconnecting _ I _ _ HD) as ([c Hc] & Hset & [p Hp] & Hno). simpl in *.
  pose proof (inv_end_disconnecting _ _ _ ca I) as I1.
  unfold disconnect_reply. rewrite (deref_live _ _ _ Hp). cbn [mbind outcome_bind].
  case_match; [by eexists _, _|].
  destruct (delete_conn_inv n S _ ca c I1 Hc Hset) as (n1 & -> & I2 & Hn1); [apply lookup_delete_eq|].
  cbn [mbind outcome_bind]. destruct (delete_peer_inv n1 S (delete ca D) pa p) as [-> I3].
  - done.
  - by rewrite Hn1.
  - intros q e c2 He Hc2. rewrite Hn1 in He, Hc2. simpl in Hc2. apply lookup_delete_Some in Hc2 as [_ Hc2].
    by apply (Hno q e c2).
  - intros k v [Hk Hv]%lookup_delete_Some ->. apply Hk. by apply (inv_once _ I ca k pa).
  - cbn [mbind outcome_bind]. eexists _, _. split; [done|]. split; [done|]. by rewrite Hn1.
Qed.

(** The connection that answers a request of another node. *)
Lemma fresh_inv n S D args pa ca :
  inv (mkWorld n S D) → peers n !! pa = None → conns n !! ca = None → (next_id_ n + 1 < 2 ^ 32)%Z →
  has_keys args peer_keys = true →
  ∃ n', (n ← new_connection_of_map n args pa ca; map_insert n ca) = Ok n' ∧ inv (mkWorld n' S D) ∧
        (next_id_ n' ≤ next_id_ n + 1)%Z ∧
        (∀ url r, params_url (connection_params args) = Ok url → rank (connection_params args) = Some r →
         Connections.get_pid (conn_map_ n) (Url.pid_ url) = None →
         in_table n' (Url.pid_ url) (Connections.mkConn ca (next_id_ n) (Url.pid_ url)) ∧
         conns n' !! ca = Some (mkConnection (next_id_ n) (Url.pid_ url) (Some pa)
                                  (fingerprint (connection_params args)) (connection_params args)) ∧
         peers n' !! pa = Some (mkPeer url (Url.pid_ url) r (Some ca))).
Proof.
  intros I Hpa Hca Hn Hk. destruct (has_keys_params _ Hk) as (h & a & p & f & r & Hps & _).
  pose proof (inv_next _ I) as H0. simpl in H0.
  unfold new_connection_of_map. rewrite Hps. cbn [params_url port was_set mbind outcome_bind hostname rank fingerprint].
  set (u := Url.nnti_url_port _ _ _ _ _). set (n1 := set_next_id _ _).
  assert (next_id_ n1 = next_id_ n + 1)%Z as Hn1 by (simpl; apply wrap_id; unfold in_width; lia).
  destruct (insert_new n n1 S D ca (mkConnection (next_id_ n) (Url.pid_ u) (Some pa) f
              (mkParams h (Some a) (Some p) f (Some r))) pa (mkPeer u (Url.pid_ u) r (Some ca)))
    as (m & -> & I1 & _ & Hin); try done.
  - by apply insert_subseteq.
  - by apply insert_subseteq.
  - apply lookup_insert_eq.
  - apply lookup_insert_eq.
  - eexists. split; [done|]. split; [done|]. split; [change (next_id_ n1 ≤ next_id_ n + 1)%Z; lia|].
    intros url r' Hu [= <-] Hno. injection Hu as <-. fold u in Hno |- *.
    split_and!; [by apply Hin|apply lookup_insert_eq|apply lookup_insert_eq].
Qed.

Lemma connecting_settled n S D pid c ca :
  inv (mkWorld n S D) → get_conn n pid = Ok (Some (ca, c)) → fingerprint_ c ≠ [] →
  settled (mkWorld n S D) pid = true.
Proof.
  intros I Hg Hf. destruct (get_conn_cases n S D pid I) as [[H _]|(e & c2 & pa & p & He & Hse & H)]; [congruence|].
  assert (Connections.at_ e = ca ∧ c2 = c) as [Hat ->] by (rewrite Hg in H; by injection H).
  unfold settled. simpl. replace (Connections.get_pid (conn_map_ n) pid) with (Some e) by (symmetry; exact He).
  apply bool_decide_eq_true. intros Hin. destruct (inv_connecting _ I _ Hin) as (q & d & c3 & _ & _ & Hc3 & Hf3).
  pose proof (se_conn _ _ _ _ _ _ Hse). simpl in *. congruence.
Qed.

Lemma connect_cb_inv n S D args pa ca :
  inv (mkWorld n S D) → peers n !! pa = None → conns n !! ca = None → (next_id_ n + 1 < 2 ^ 32)%Z →
  has_keys args peer_keys = true →
  ∃ n' results, connect_cb n args pa ca = Ok (n', results) ∧ inv (mkWorld n' S D) ∧
                (next_id_ n' ≤ next_id_ n + 1)%Z.
Proof.
  intros I Hpa Hca Hn Hk. unfold connect_cb.
  destruct (has_keys_at args (lit "hostname") Hk) as (h & -> & _); [by left|].
  destruct (has_keys_at args (lit "port") Hk) as (q & -> & _); [by apply (bool_decide_unpack _)|].
  destruct (has_keys_at args (lit "fingerprint") Hk) as (f & -> & _); [by apply (bool_decide_unpack _)|].
  cbn [mbind outcome_bind]. set (u := nnti_url_host h q).
  destruct (get_conn_cases n S D (Url.pid_ u) I) as [[-> _]|(e & c & pa2 & p2 & He & Hse & Hg)]; cbn [mbind outcome_bind].
  { destruct (fresh_inv n S D args pa ca) as (n' & -> & I' & Hn' & _); try done. by eexists _, _. }
  rewrite Hg. cbn [mbind outcome_bind].
  case_bool_decide; [eexists _, _; split; [done|]; split; [done|lia]|].
  case_bool_decide as Hf; [eexists _, _; split; [done|]; split; [done|lia]|].
  destruct (take_out n S D (Url.pid_ u) I) as [Hg'|(old & c2 & m & Hg' & Hr & I1 & Hc & HD & Hout & _)];
    [by eapply connecting_settled|congruence|].
  assert (Connections.at_ e = old) as -> by (rewrite Hg in Hg'; by injection Hg').
  rewrite Hr. cbn [mbind outcome_bind].
  destruct (delete_conn_inv (set_map m n) S D old c2 I1 Hc Hout HD) as (n2 & -> & I2 & Hn2). cbn [mbind outcome_bind].
  subst n2. destruct (fresh_inv (set_conns (delete old (conns n)) (set_map m n)) S D args pa ca)
    as (n' & E & I' & Hn' & _); try done.
  { cbn [set_conns conns]. apply lookup_delete_None. by right. }
  cbn [set_map conns] in E |- *. rewrite E. cbn [mbind outcome_bind]. by eexists _, _.
Qed.

Lemma disconnect_cb_inv n S D args h p :
  inv (mkWorld n S D) → args !! lit "hostname" = Some h → args !! lit "port" = Some p →
  settled (mkWorld n S D) (Url.pid_ (nnti_url_host h p)) = true →
  ∃ n' results, disconnect_cb n args = Ok (n', results) ∧ inv (mkWorld n' S D) ∧ next_id_ n' = next_id_ n.
Proof.
  intros I Hh Hp Hset. unfold disconnect_cb, at_key. rewrite Hh, Hp. cbn [mbind outcome_bind].
  destruct (take_out n S D _ I Hset) as [->|(ca & c & m & -> & Hr & I1 & Hc & HD & Hout & _)];
    cbn [mbind outcome_bind]; [by eexists _, _|].
  rewrite Hr. cbn [mbind outcome_bind].
  destruct (delete_conn_inv (set_map m n) S D ca c I1 Hc Hout HD) as (n2 & -> & I2 & Hn2).
  cbn [mbind outcome_bind]. eexists _, _. split; [done|]. split; [done|]. by rewrite Hn2.
Qed.

Lemma stop_inv n D :
  inv (mkWorld n ∅ D) →
  ∃ m, stop_connections n = Ok (set_map m n) ∧ inv (mkWorld (set_map m n) ∅ D) ∧
       ∀ q d, ¬ in_table (set_map m n) q d.
Proof.
  intros I. unfold stop_connections.
  assert (∀ l m, inv (mkWorld (set_map m n) ∅ D) → NoDup l →
            (∀ a, a ∈ l ↔ a ∈ Connections.conn_set_ m) →
            ∃ m', foldl (λ r ca, r ≫= λ n, map_remove n ca) (Ok (set_map m n)) l = Ok (set_map m' n) ∧
                  inv (mkWorld (set_map m' n) ∅ D) ∧ ∀ q d, ¬ in_table (set_map m' n) q d) as H.
  { intros l. induction l as [|a l IH]; intros m Im Hnd Hl.
    - exists m. split_and!; [done|done|]. intros q d Hd. pose proof (table_set _ _ _ (inv_map _ Im) Hd) as Hin.
      simpl in Hin. apply Hl in Hin. by apply not_elem_of_nil in Hin.
    - apply NoDup_cons in Hnd as [Ha Hnd]. cbn [foldl].
      assert (a ∈ Connections.conn_set_ m) as Hin by (apply Hl; by left).
      apply (Connections.wf_set _ (inv_map _ Im)) in Hin as (pid & e & He & <-).
      destruct (map_remove_inv (set_map m n) ∅ D pid e Im He) as (m1 & Hr & I1 & Hout & Hiff); [set_solver|].
      cbn [mbind outcome_bind]. rewrite Hr. apply (IH m1); [done|done|].
      intros b. specialize (Hl b). rewrite elem_of_cons in Hl.
      pose proof (Connections.wf_set _ (inv_map _ I1) b) as W1. simpl in W1.
      pose proof (Connections.wf_set _ (inv_map _ Im) b) as W2. simpl in W2.
      destruct (decide (b = Connections.at_ e)) as [->|Hb].
      + split; [done|]. intros Hb. by destruct Hout.
      + rewrite W1. transitivity (b ∈ Connections.conn_set_ m); [tauto|]. rewrite W2. split.
        * intros (q & d & Hq & Hd). exists q, d. split; [|done]. apply Hiff. split; [|done].
          intros ->. unfold in_table in He. simpl in He. congruence.
        * intros (q & d & [_ Hq]%Hiff & Hd). by exists q, d. }
  destruct (H (elements (Connections.conn_set_ (conn_map_ n))) (conn_map_ n)) as (m & Hm & Im & Hno).
  - by apply (inv_new_objects n).
  - apply NoDup_elements.
  - intros a. apply elem_of_elements.
  - exists m. split_and!; [|done|done]. rewrite <-Hm. by destruct n.
Qed.

Lemma act_inv w e :
  inv w → allowed w e = true → (next_id_ (w_node w) + 1 < 2 ^ 32)%Z →
  ∃ w', act w e = Ok w' ∧ inv w' ∧ (next_id_ (w_node w') ≤ next_id_ (w_node w) + 1)%Z.
Proof.
  destruct w as [n S D]. intros I Ha Hn. cbn [w_node] in *.
  destruct e; unfold allowed in Ha; unfold act; cbn [w_node connecting disconnecting] in *.
  - rewrite andb_true_iff, !bool_decide_eq_true in Ha. destruct Ha as [Hp Hc].
    destruct (connect_inv n S D url pa ca I Hp Hc Hn) as (n' & st & -> & I' & Hn' & _). by eexists.
  - apply andb_prop in Ha as [Hin Hr]. apply bool_decide_eq_true in Hin.
    destruct (inv_connecting _ I ca Hin) as (pid & e & c & _ & _ & Hc & _). simpl in Hc. rewrite Hc in Hr.
    destruct (connect_reply_inv n S D ca c web I Hin Hc) as (n' & rc & hdl & -> & I' & Hn').
    { intros reply E. by rewrite E in Hr. }
    eexists. split; [done|]. split; [done|]. simpl. lia.
  - destruct (peers n !! pa) as [p|] eqn:Hp; [|done]. apply andb_prop in Ha as [Hs HD].
    apply bool_decide_eq_true in HD.
    destruct (disconnect_inv n S D pa p I Hp Hs HD) as (n' & found & -> & I' & Hn').
    eexists. split; [done|]. split; [done|]. simpl. lia.
  - apply bool_decide_eq_true in Ha as [pa Hpa]. rewrite Hpa.
    destruct (disconnect_reply_inv n S D pa ca wh_rc I Hpa) as (n' & rc & -> & I' & Hn').
    eexists. split; [done|]. split; [done|]. simpl. lia.
  - rewrite !andb_true_iff, !bool_decide_eq_true in Ha. destruct Ha as [[Hp Hc] Hk].
    destruct (connect_cb_inv n S D args pa ca I Hp Hc Hn Hk) as (n' & res & -> & I' & Hn'). by eexists.
  - destruct (args !! lit "hostname") as [h|] eqn:Hh; [|done]. destruct (args !! lit "port") as [p|] eqn:Hp; [|done].
    destruct (disconnect_cb_inv n S D args h p I Hh Hp Ha) as (n' & res & -> & I' & Hn').
    eexists. split; [done|]. split; [done|]. simpl. lia.
  - apply bool_decide_eq_true in Ha as ->. destruct (stop_inv n D I) as (m & -> & I' & _).
    eexists. split; [done|]. split; [done|]. simpl. lia.
Qed.

Lemma run_inv es w :
  inv w → disciplined w es = true → (next_id_ (w_node w) + Z.of_nat (length es) < 2 ^ 32)%Z →
  ∃ w', run w es = Ok w' ∧ inv w'.
Proof.
  revert w. induction es as [|e es IH]; intros w I Hd Hn; [by exists w|].
  cbn [disciplined length] in Hd, Hn. apply andb_prop in Hd as [Ha Hd].
  destruct (act_inv w e I Ha) as (w1 & E & I1 & Hn1); [lia|]. rewrite E in Hd.
  destruct (IH w1 I1 Hd) as (w' & Hr & I'); [lia|]. exists w'. split; [|done].
  unfold run in *. cbn [foldl mbind outcome_bind]. by rewrite E.
Qed.

(** A node whose transport was just started. *)
Definition new_node (u : Url.nnti_url) (rank fingerprint : Z) : node :=
  mkNode Connections.empty_map ∅ ∅ 0 u rank fingerprint.

Lemma new_node_inv u rank fp : inv (mkWorld (new_node u rank fp) ∅ ∅).
Proof.
  split; simpl; try done. apply Connections.empty_wf.
Qed.

(** C8: however [connect], [disconnect], the requests of other nodes and [stop] come in turn, with every
    wait for a page a place where others go ahead: a connection or peer that was freed is never
    touched and no assertion of the table fails, and at the end every connection in the table is a
    live object filed under its own id and process, with a live peer for that process. *)
Theorem connections_safe u rank fp es :
  (Z.of_nat (length es) < 2 ^ 32)%Z → disciplined (mkWorld (new_node u rank fp) ∅ ∅) es = true →
  ∃ w, run (mkWorld (new_node u rank fp) ∅ ∅) es = Ok w ∧
    ∀ pid e, Connections.get_pid (conn_map_ (w_node w)) pid = Some e →
      ∃ c pa p, conns (w_node w) !! Connections.at_ e = Some c ∧
        peer_pid_ c = pid ∧ id_ c = Connections.cid e ∧
        Connections.get_id (conn_map_ (w_node w)) (id_ c) = Some e ∧
        peer_ c = Some pa ∧ peers (w_node w) !! pa = Some p ∧ p_pid p = pid.
Proof.
  intros Hl Hd. destruct (run_inv es _ (new_node_inv u rank fp) Hd) as (w & Hr & I); [simpl; lia|].
  exists w. split; [done|]. intros pid e He.
  destruct (inv_entry _ I pid e He) as (c & pa & p & [H1 H2 H3 H4 H5 H6 H7]).
  destruct (Connections.wf_pid _ (inv_map _ I) pid e He) as [_ Hid].
  assert (id_ c = Connections.cid e) as Hcid by (by rewrite <-H2).
  exists c, pa, p. split_and!; try done. unfold Connections.get_id. by rewrite Hcid.
Qed.

(** The constructor that takes a reply as text reads through a pointer it has not set. *)
Lemma string_constructor_undefined n params pa ca : new_connection_of_string n params pa ca = Throw Undefined.
Proof.
  unfold new_connection_of_string, peer_params, peer_params_of_map.
  erewrite (deref_live _ ca); [|apply lookup_insert_eq]. cbn [mbind outcome_bind].
  unfold params_url. destruct (port _); done.
Qed.

End safety.

(** * What the nodes write for each other *)

Definition node_args (n : node) : list (str * str) :=
  [(lit "hostname", Url.hostname_ (url_ n)); (lit "addr", show_dec (Url.addr_ (url_ n)));
   (lit "port", Url.port_ (url_ n)); (lit "fingerprint", show_dec (node_fingerprint_ n));
   (lit "rank", to_string (nnti_comm_rank_ n))].

Lemma path_is_query n service :
  build_whookie_path n service = query_path (lit "/nnti/mpi/" ++ service) (node_args n).
Proof.
  unfold build_whookie_path, query_path, node_args, query_item. cbn [mbind list_bind fst snd].
  rewrite <-!app_assoc. simpl. by rewrite app_nil_r.
Qed.

Lemma results_are_lines n : connect_results n = node_args n ≫= λ kv, line kv.1 kv.2.
Proof. unfold connect_results, node_args. cbn [mbind list_bind fst snd]. by rewrite app_nil_r. Qed.

(** Keys and values that fit a line. *)
Definition line_fits (kv : str * str) : Prop :=
  Forall (λ c, c ≠ LF ∧ c ≠ "="%char) kv.1 ∧ Forall (λ c, c ≠ LF) kv.2.

Lemma param_map_lines args :
  Forall line_fits args → param_map (args ≫= λ kv, line kv.1 kv.2) = args_map args.
Proof.
  unfold param_map, args_map. generalize (∅ : gmap str str). intros m H. revert m.
  induction H as [|[k v] l [Hk Hv] _ IH]; intros m; [done|].
  change (((k, v) :: l) ≫= λ kv, line kv.1 kv.2) with (line k v ++ (l ≫= λ kv, line kv.1 kv.2)).
  unfold line at 1. rewrite <-app_assoc, <-app_comm_cons, <-app_assoc. cbn [app].
  replace (k ++ "="%char :: v ++ LF :: (l ≫= λ kv, line kv.1 kv.2))
    with ((k ++ "="%char :: v) ++ LF :: (l ≫= λ kv, line kv.1 kv.2)) by (by rewrite <-app_assoc).
  rewrite getlines_cons.
  - cbn [fold_left fst snd]. rewrite <-IH. f_equal. unfold add_param, split_string.
    rewrite break_at_app; [done| |done]. eapply Forall_impl; [exact Hk|]. intros c [_ Hc].
    by apply bool_decide_eq_false.
  - apply Forall_app. split; [eapply Forall_impl; [exact Hk|naive_solver]|]. by constructor.
Qed.

(** The characters of host names and of numbers. *)
Definition host_char (c : ascii) : bool := isalnum c || (c =c? "."%char) || (c =c? "-"%char).

(** Characters that pass through a path and a line as they are, and those among them that an
    argument may have. *)
Definition path_char (c : ascii) : bool :=
  negb (Parser.is_ctl c) && negb (c =c? SP) && negb (c =c? "%"%char) && negb (c =c? "+"%char) &&
  negb (c =c? LF).
Definition plain_char (c : ascii) : bool := path_char c && negb (c =c? "&"%char).

Definition host_plain (c : ascii) : bool := implb (host_char c) (plain_char c).

Lemma host_plain_all c : host_plain c = true.
Proof. by_chars c host_plain. Qed.

Definition plain (s : str) : Prop := Forall (λ c, plain_char c = true) s.

Lemma host_is_plain s : Forall (λ c, host_char c = true) s → plain s.
Proof.
  intros H. eapply Forall_impl; [exact H|]. intros c Hc. pose proof (host_plain_all c) as Hp.
  unfold host_plain in Hp. by rewrite Hc in Hp.
Qed.

Lemma digits_host z : (0 ≤ z)%Z → Forall (λ c, host_char c = true ∧ c ≠ "."%char) (show_dec z).
Proof.
  intros Hz. eapply Forall_impl; [by apply (show_base_digits 10)|].
  intros c Hc. simpl in Hc. split; [|intros ->; by vm_compute in Hc].
  unfold host_char. unfold is_digit_of in Hc.
  assert (implb (isdigit c) (isalnum c) = true) as Hi by (unfold isalnum; by destruct (isdigit c)).
  pose proof (forall_char_spec (λ c, implb (is_digit_of 10 c) (host_char c)) c) as Hall.
  unfold host_char, is_digit_of in Hall. rewrite Hc in Hall. apply Hall. vm_compute. reflexivity.
Qed.

(** Two dots in a row. *)
Lemma dotdot_cons x s :
  has_dotdot (x :: s) = ((x =c? "."%char) && bool_decide (head s = Some "."%char)) || has_dotdot s.
Proof.
  destruct s as [|y s]; simpl; [by rewrite andb_false_r|]. f_equal. f_equal. apply bool_decide_ext. naive_solver.
Qed.

Lemma dotdot_sep a c b :
  c ≠ "."%char → has_dotdot (a ++ c :: b) = has_dotdot a || has_dotdot b.
Proof.
  intros Hc. induction a as [|x a IH]; cbn [app].
  - rewrite dotdot_cons. by rewrite bool_decide_eq_false_2.
  - rewrite !dotdot_cons, IH. rewrite orb_assoc. f_equal. f_equal. f_equal.
    destruct a; [|done]. cbn [app head]. rewrite !bool_decide_eq_false_2 by congruence. done.
Qed.

Lemma dotdot_none s : Forall (λ c, c ≠ "."%char) s → has_dotdot s = false.
Proof.
  induction 1 as [|x s Hx Hs IH]; [done|]. rewrite dotdot_cons, IH. by rewrite bool_decide_eq_false_2.
Qed.

Lemma dotdot_query tag args :
  has_dotdot tag = false → Forall (λ kv, has_dotdot kv.1 = false ∧ has_dotdot kv.2 = false) args →
  has_dotdot (query_path tag args) = false.
Proof.
  intros Ht H. unfold query_path. revert tag Ht. induction H as [|[k v] l [Hk Hv] _ IH]; intros tag Ht.
  - simpl. by rewrite app_nil_r.
  - change (((k, v) :: l) ≫= λ kv, "&"%char :: query_item kv)
      with ("&"%char :: query_item (k, v) ++ (l ≫= λ kv, "&"%char :: query_item kv)).
    rewrite dotdot_sep, Ht by done. cbn [orb]. apply IH. unfold query_item.
    rewrite dotdot_sep by done. simpl in *. by rewrite Hk, Hv.
Qed.

Lemma url_decode_plain s : Forall (λ c, path_char c = true) s → url_decode s = Some s.
Proof.
  induction 1 as [|c s Hc Hs IH]; [done|]. unfold path_char in Hc.
  rewrite !andb_true_iff, !negb_true_iff in Hc. destruct Hc as [[[[_ _] Hp] Hplus] _].
  cbn [url_decode]. by rewrite Hp, Hplus, IH.
Qed.

(** A node whose web server has a host name or address and a 16-bit port. *)
Record node_ok (resolver : str → option Z) (lexical_cast : Z → str → option Z) (unset : Z)
    (n : node) (h : str) (p : Z) : Prop := {
  ok_url : url_ n = Url.nnti_url_host resolver lexical_cast unset h (show_dec p);
  ok_host : Forall (λ c, host_char c = true) h;
  ok_dots : has_dotdot h = false;
  ok_port : in_width 16 p;
  ok_addr : in_width 32 (Url.addr_ (url_ n));
  ok_fingerprint : in_width 32 (node_fingerprint_ n);
  ok_rank : (0 ≤ nnti_comm_rank_ n < 2 ^ 31)%Z
}.

Section handshake.
Context (gethostbyname : str → option Z) (lexical_cast : Z → str → option Z)
        (lexical_cast_int32 : str → option Z) (unset : Z).
(** [lexical_cast] reads the decimal numbers of its type. *)
Hypothesis casts : ∀ bits z, in_width bits z → lexical_cast bits (show_dec z) = Some z.
Hypothesis casts_int : ∀ z, (0 ≤ z < 2 ^ 31)%Z → lexical_cast_int32 (show_dec z) = Some z.
Local Abbreviation connect := (connect gethostbyname lexical_cast unset).
Local Abbreviation connect_cb := (connect_cb gethostbyname lexical_cast lexical_cast_int32 unset).
Local Abbreviation connect_reply := (connect_reply gethostbyname lexical_cast lexical_cast_int32 unset).
Local Abbreviation params_url := (params_url gethostbyname lexical_cast unset).
Local Abbreviation connection_params := (connection_params lexical_cast lexical_cast_int32).
Local Abbreviation node_ok := (node_ok gethostbyname lexical_cast unset).
Local Abbreviation nnti_url_string := (Url.nnti_url_string gethostbyname lexical_cast unset).

Lemma rank_text n h p : node_ok n h p → to_string (nnti_comm_rank_ n) = show_dec (nnti_comm_rank_ n).
Proof. intros H. unfold to_string. destruct (ok_rank _ _ _ _ _ _ H). by replace (_ <? 0)%Z with false by lia. Qed.

(** The values a node writes. *)
Lemma node_values n h p kv :
  node_ok n h p → kv ∈ node_args n →
  Forall (λ c, host_char c = true) kv.2 ∧ has_dotdot kv.2 = false.
Proof.
  intros H Hin. unfold node_args in Hin. rewrite (rank_text n h p H) in Hin.
  pose proof H as [Hu Hh Hd [Hp _] [Ha _] [Hf _] [Hr _]]. rewrite Hu in Hin. simpl in Hin.
  rewrite Hu in Ha. simpl in Ha.
  assert (∀ z, (0 ≤ z)%Z → Forall (λ c, host_char c = true) (show_dec z) ∧ has_dotdot (show_dec z) = false) as Hz.
  { intros z Hz. pose proof (digits_host z Hz) as Hall. split; [eapply Forall_impl; [exact Hall|naive_solver]|].
    apply dotdot_none. eapply Forall_impl; [exact Hall|naive_solver]. }
  repeat (apply elem_of_cons in Hin as [->|Hin]); [by split|by apply Hz..|].
  by apply not_elem_of_nil in Hin.
Qed.

Definition key_ok (k : str) : bool :=
  forallb (λ c, plain_char c && negb (c =c? "="%char)) k && negb (has_dotdot k).

Lemma node_keys n kv : kv ∈ node_args n → key_ok kv.1 = true.
Proof.
  unfold node_args. intros Hin.
  repeat (apply elem_of_cons in Hin as [->|Hin]); [by vm_compute..|]. by apply not_elem_of_nil in Hin.
Qed.

Lemma key_ok_chars k : key_ok k = true →
  Forall (λ c, plain_char c = true ∧ c ≠ "="%char) k ∧ has_dotdot k = false.
Proof.
  unfold key_ok. rewrite andb_true_iff, negb_true_iff, forallb_forall. intros [Hk Hd]. split; [|done].
  apply Forall_forall. intros c Hc. specialize (Hk c). rewrite andb_true_iff, negb_true_iff in Hk.
  destruct Hk as [H1 H2]; [by apply list_elem_of_In|]. split; [done|]. by apply bool_decide_eq_false in H2.
Qed.

Lemma plain_path c : plain_char c = true → path_char c = true.
Proof. unfold plain_char. rewrite andb_true_iff. tauto. Qed.

Lemma plain_not c : plain_char c = true → c ≠ LF ∧ c ≠ "&"%char.
Proof.
  unfold plain_char, path_char. rewrite !andb_true_iff, !negb_true_iff, !bool_decide_eq_false. naive_solver.
Qed.

Lemma node_args_fit n h p : node_ok n h p →
  Forall line_fits (node_args n) ∧ Forall arg_ok (node_args n) ∧
  Forall (λ kv, has_dotdot kv.1 = false ∧ has_dotdot kv.2 = false) (node_args n) ∧
  Forall (λ kv, plain (query_item kv)) (node_args n).
Proof.
  intros H. rewrite !Forall_forall. split_and!; intros kv Hin;
    destruct (node_values n h p kv H Hin) as [Hv Hd]; destruct (key_ok_chars _ (node_keys n kv Hin)) as [Hk Hdk];
    pose proof (host_is_plain _ Hv) as Hpv.
  - split; [eapply Forall_impl; [exact Hk|]|eapply Forall_impl; [exact Hpv|]]; simpl;
      [intros c [Hc ?]|intros c Hc]; by destruct (plain_not c Hc).
  - split; [eapply Forall_impl; [exact Hk|]|eapply Forall_impl; [exact Hpv|]]; simpl;
      [intros c [Hc ?]|intros c Hc]; by destruct (plain_not c Hc).
  - done.
  - unfold query_item, plain. apply Forall_app. split; [eapply Forall_impl; [exact Hk|naive_solver]|].
    by constructor.
Qed.

Lemma connect_path n h p : node_ok n h p →
  uri_chars (build_whookie_connect_path n) ∧
  url_decode (build_whookie_connect_path n) = Some (query_path (lit "/nnti/mpi/connect") (node_args n)) ∧
  has_dotdot (query_path (lit "/nnti/mpi/connect") (node_args n)) = false.
Proof.
  intros H. destruct (node_args_fit n h p H) as (_ & _ & Hd & Hq).
  assert (Forall (λ c, path_char c = true) (build_whookie_connect_path n)) as Hp.
  { unfold build_whookie_connect_path. rewrite path_is_query. unfold query_path. apply Forall_app. split.
    - by apply (bool_decide_unpack (Forall (λ c, path_char c = true) (lit "/nnti/mpi/" ++ lit "connect"))).
    - apply Forall_bind. eapply Forall_impl; [exact Hq|]. intros kv Hkv. constructor; [done|].
      eapply Forall_impl; [exact Hkv|apply plain_path]. }
  split_and!.
  - eapply Forall_impl; [exact Hp|]. intros c Hc. unfold path_char in Hc.
    rewrite !andb_true_iff, !negb_true_iff, !bool_decide_eq_false in Hc. tauto.
  - rewrite url_decode_plain by done. unfold build_whookie_connect_path. by rewrite path_is_query.
  - by apply dotdot_query.
Qed.

(** What the other side makes of the text. *)
Lemma node_params n h p : node_ok n h p →
  has_keys (args_map (node_args n)) peer_keys = true ∧
  args_map (node_args n) !! lit "hostname" = Some h ∧
  args_map (node_args n) !! lit "port" = Some (show_dec p) ∧
  params_url (connection_params (args_map (node_args n))) = Ok (url_ n) ∧
  rank (connection_params (args_map (node_args n))) = Some (nnti_comm_rank_ n) ∧
  fingerprint (connection_params (args_map (node_args n))) = show_dec (node_fingerprint_ n) ∧
  param_map (connect_results n) = args_map (node_args n).
Proof.
  intros H. pose proof H as [Hu Hh Hd Hp Ha Hf Hr]. destruct (node_args_fit n h p H) as (Hl & _).
  set (m := args_map (node_args n)).
  assert (m !! lit "hostname" = Some (Url.hostname_ (url_ n))) as E1 by done.
  assert (m !! lit "addr" = Some (show_dec (Url.addr_ (url_ n)))) as E2 by done.
  assert (m !! lit "port" = Some (Url.port_ (url_ n))) as E3 by done.
  assert (m !! lit "fingerprint" = Some (show_dec (node_fingerprint_ n))) as E4 by done.
  assert (m !! lit "rank" = Some (to_string (nnti_comm_rank_ n))) as E5 by done.
  unfold connection_params. rewrite E1, E2, E3, E4, E5.
  split_and!.
  - unfold has_keys, peer_keys. cbn [forallb]. by rewrite E1, E2, E3, E4, E5.
  - by rewrite Hu.
  - by rewrite Hu.
  - unfold params_url. cbn [port was_set mbind outcome_bind hostname]. unfold Url.nnti_url_port, Url.str2uint32.
    rewrite Hu at 1 2. cbn [Url.port_ Url.hostname_ Url.nnti_url_host]. rewrite casts.
    + cbn [default id]. rewrite (wrap_id 16) by done. by rewrite Hu.
    + destruct Hp. split; lia.
  - cbn [rank fmap option_fmap option_map]. rewrite (rank_text n h p H). unfold str2int32. by rewrite casts_int.
  - done.
  - rewrite results_are_lines. by apply param_map_lines.
Qed.

(** A node has a connection to a process, with a peer of that rank. *)
Definition connected (n : node) (pid pa r : Z) : Prop :=
  ∃ e c p, Connections.get_pid (conn_map_ n) pid = Some e ∧ conns n !! Connections.at_ e = Some c ∧
    peer_ c = Some pa ∧ peers n !! pa = Some p ∧ p_pid p = pid ∧ p_rank p = r.

Lemma register_keeps (cbs : hooks) name f (k : str) (g : handler) :
  cbs !! k = Some g → (registerHook cbs name f).2 !! k = Some g.
Proof.
  intros H. unfold registerHook. destruct (cbs !! name) eqn:E; [done|]. simpl.
  rewrite lookup_insert_ne; [done|]. congruence.
Qed.

Lemma register_first (f g h k : handler) (cbs : hooks) :
  cbs !! lit "/nnti/mpi/connect" = None →
  register_whookie_cb f g h k cbs !! lit "/nnti/mpi/connect" = Some f.
Proof.
  intros H. unfold register_whookie_cb. do 3 apply register_keeps. unfold registerHook. rewrite H. simpl.
  apply lookup_insert_eq.
Qed.

(** The page of another node that has no connection yet. *)
Lemma connect_cb_new n S D n' h p pa ca :
  node_ok n' h p → inv (mkWorld n S D) → Connections.get_pid (conn_map_ n) (me_pid n') = None →
  peers n !! pa = None → conns n !! ca = None → (next_id_ n + 1 < 2 ^ 32)%Z →
  ∃ n1, connect_cb n (args_map (node_args n')) pa ca = Ok (n1, connect_results n1) ∧
    url_ n1 = url_ n ∧ nnti_comm_rank_ n1 = nnti_comm_rank_ n ∧ node_fingerprint_ n1 = node_fingerprint_ n ∧
    connected n1 (me_pid n') pa (nnti_comm_rank_ n') ∧
    ∃ c, conns n1 !! ca = Some c ∧ fingerprint_ c = show_dec (node_fingerprint_ n').
Proof.
  intros H I Hno Hpa Hca Hn. destruct (node_params n' h p H) as (Hk & Hh & Hp & Hu & Hr & Hf & _).
  assert (at_key (args_map (node_args n')) (lit "hostname") = Ok h) as Hh' by (unfold at_key; by rewrite Hh).
  assert (at_key (args_map (node_args n')) (lit "port") = Ok (show_dec p)) as Hp' by (unfold at_key; by rewrite Hp).
  unfold connect_cb. rewrite Hh', Hp'. cbn [mbind outcome_bind].
  destruct (has_keys_at _ (lit "fingerprint") Hk) as (f & -> & _); [by apply (bool_decide_unpack _)|].
  cbn [mbind outcome_bind]. rewrite <-(ok_url _ _ _ _ _ _ H). fold (me_pid n').
  unfold get_conn. rewrite Hno. cbn [mbind outcome_bind].
  destruct (fresh_inv gethostbyname lexical_cast lexical_cast_int32 unset n S D _ pa ca I Hpa Hca Hn Hk)
    as (n1 & E & _ & _ & Hnew).
  destruct (Hnew _ _ Hu Hr Hno) as (H1 & H2 & H3). rewrite E. cbn [mbind outcome_bind].
  exists n1. split; [done|].
  assert (url_ n1 = url_ n ∧ nnti_comm_rank_ n1 = nnti_comm_rank_ n ∧ node_fingerprint_ n1 = node_fingerprint_ n)
    as (-> & -> & ->).
  { unfold new_connection_of_map, map_insert in E. by unbind; subst. }
  split_and!; try done.
  - exists (Connections.mkConn ca (next_id_ n) (me_pid n')). by repeat eexists.
  - eexists. by split.
Qed.

(** C9: two nodes that connect through the web server end with connections to each other: the path that
    the one asks for, cut into any pieces on its way, is answered with the page of the other,
    which has then a connection to the caller with the caller's rank and fingerprint; and the
    reply gives the caller a peer with the rank of the other. *)
Theorem handshake A B SA DA SB DB hA pA hB pB url pa ca pb cb cbs page1 page2 page3 server chunks :
  node_ok A hA pA → node_ok B hB pB → inv (mkWorld A SA DA) → inv (mkWorld B SB DB) →
  Url.pid_ (nnti_url_string url) = me_pid B →
  Connections.get_pid (conn_map_ A) (me_pid B) = None → Connections.get_pid (conn_map_ B) (me_pid A) = None →
  peers A !! pa = None → conns A !! ca = None → peers B !! pb = None → conns B !! cb = None →
  (next_id_ A + 1 < 2 ^ 32)%Z → (next_id_ B + 1 < 2 ^ 32)%Z →
  value_chars server → cbs !! lit "/nnti/mpi/connect" = None →
  concat chunks = request_text server (build_whookie_connect_path A) →
  ∃ A1 A2 B1 reply args,
    connect A url pa ca = Ok (A1, Waiting ca) ∧
    retrieveData <$> (to_buffers <$>
      serve (register_whookie_cb (λ args, page (connect_cb B args pb cb)) page1 page2 page3 cbs) chunks)
    = Some (0%Z, Some reply) ∧
    connect_cb B args pb cb = Ok (B1, reply) ∧
    connect_reply A1 ca (λ _, (0%Z, reply)) = Ok (A2, NNTI_OK, Some pa) ∧
    connected A2 (me_pid B) pa (nnti_comm_rank_ B) ∧
    connected B1 (me_pid A) pb (nnti_comm_rank_ A) ∧
    ∃ c, conns B1 !! cb = Some c ∧ fingerprint_ c = show_dec (node_fingerprint_ A).
Proof.
  intros HA HB IA IB Hurl HnoA HnoB HpaA HcaA HpbB HcbB HnA HnB Hserver Hcbs Hchunks.
  destruct (connect_inv gethostbyname lexical_cast unset A SA DA url pa ca IA HpaA HcaA HnA)
    as (A1 & st & EA & _ & _ & Hnew). rewrite Hurl in Hnew. destruct (Hnew HnoA) as (-> & T1 & T2 & T3).
  destruct (connect_cb_new B SB DB A hA pA pb cb HA IB HnoB HpbB HcbB HnB)
    as (B1 & EB & U1 & U2 & U3 & HconB & HfB).
  assert (node_ok B1 hB pB) as HB1 by (destruct HB; split; rewrite ?U1, ?U2, ?U3; done).
  destruct (node_params B1 hB pB HB1) as (Hk & _ & _ & Hu & Hr & _ & Hpm).
  set (ps := connection_params (args_map (node_args B1))) in *.
  exists A1. eexists _, B1, (connect_results B1), (args_map (node_args A)). split; [done|]. split_and!; try done.
  - destruct (connect_path A hA pA HA) as (Huri & Hdec & Hdd). destruct (node_args_fit A hA pA HA) as (_ & Hargs & _).
    edestruct (handle_query (register_whookie_cb (λ args, page (connect_cb B args pb cb)) page1 page2 page3 cbs)
      (lit "GET") (build_whookie_connect_path A) 1 0 (req_headers (get_request server (build_whookie_connect_path A)))
      (lit "/nnti/mpi/connect") (node_args A) (λ args, page (connect_cb B args pb cb)))
      as (h1 & h2 & Hok & Hrep); try done.
    + by apply (bool_decide_unpack (Forall (λ c, c ≠ "&"%char) (lit "/nnti/mpi/connect"))).
    + by apply register_first.
    + rewrite (web_answer _ server _ h1 [h2] _ chunks Huri Hserver Hrep Hok Hchunks). by rewrite EB.
  - unfold connect_reply.
    change (attempt (λ _, (0%Z, connect_results B1)) 4 0) with (Some (connect_results B1)). unfold peer_params, peer_params_of_map.
    rewrite (deref_live _ _ _ T2), Hpm. cbn [mbind outcome_bind]. fold ps. rewrite Hu. cbn [mbind outcome_bind peer_ was_set].
    rewrite (deref_live _ _ _ T3), Hr. cbn [mbind outcome_bind was_set].
    erewrite (deref_live _ ca); [|apply lookup_insert_eq]. cbn [mbind outcome_bind was_set peer_]. reflexivity.
  - exists (Connections.mkConn ca (next_id_ A) (me_pid B)). eexists _, _. split_and!; [done|apply lookup_insert_eq|done|apply lookup_insert_eq|done|].
    simpl. done.
Qed.

End handshake.

(** A name that does not fit is cut and has no end. *)
Lemma get_url_cut n maxlen :
  maxlen ≤ length (c_str (Url.url_ (url_ n))) → nul ∉ get_url n maxlen.
Proof.
  intros Hl. unfold get_url. rewrite take_app_le by done. intros Hin.
  assert (∀ s, nul ∉ c_str s) as Hno.
  { intros s. induction s as [|c s IH]; simpl; [set_solver|]. case_bool_decide; set_solver. }
  apply (Hno (Url.url_ (url_ n))). rewrite <-(take_drop maxlen (c_str _)).
  apply elem_of_app. by left.
Qed.

(** * Two nodes *)

Definition cast_int (s : str) : option Z := cast_decimal 31 s.

(** A resolver that knows another address of the second node by a name. *)
Definition demo_resolve (s : str) : option Z :=
  if s =s? lit "node2" then Some 0x0a010002%Z else resolve_dotted s.

Definition demo_url (h : str) : Url.nnti_url := Url.nnti_url_host demo_resolve cast_decimal 0 h (lit "1990").
Definition node1 : node := new_node (demo_url (lit "10.0.0.1")) 1 111.
Definition node2 : node := new_node (demo_url (lit "10.0.0.2")) 2 222.
(** The second node after it was started again. *)
Definition node2' : node := new_node (demo_url (lit "10.0.0.2")) 5 333.

Definition demo_run (es : list event) : outcome world :=
  run demo_resolve cast_decimal cast_int 0 (mkWorld node1 ∅ ∅) es.
Definition demo_ok (es : list event) : bool :=
  disciplined demo_resolve cast_decimal cast_int 0 (mkWorld node1 ∅ ∅) es.

Definition reply_of (n : node) : nat → Z * str := λ _, (0%Z, connect_results n).
Definition no_reply : nat → Z * str := λ _, ((-3)%Z, []).
Definition url2 : str := lit "http://10.0.0.2:1990/".

(** The peer of a process and its rank. *)
Definition peer_of (w : world) (n : node) : option (Z * Z) :=
  e ← Connections.get_pid (conn_map_ (w_node w)) (me_pid n);
  c ← conns (w_node w) !! Connections.at_ e;
  pa ← peer_ c;
  p ← peers (w_node w) !! pa;
  Some (pa, p_rank p).

Definition ranks (r : outcome world) (n : node) : outcome (option (Z * Z)) :=
  w ← r; Ok (peer_of w n).

Lemma connections_safe_witness :
  ∃ w, demo_run [EConnect url2 10 20; EConnectCb (args_map (node_args node2)) 11 21;
                 EReply 20 (reply_of node2); EDisconnect 10; EConnect url2 12 22; EDisconnected 20 0;
                 EReply 22 no_reply] = Ok w ∧
    ∀ pid e, Connections.get_pid (conn_map_ (w_node w)) pid = Some e →
      ∃ c, conns (w_node w) !! Connections.at_ e = Some c.
Proof.
  destruct (connections_safe demo_resolve cast_decimal cast_int 0 (demo_url (lit "10.0.0.1")) 1 111
    [EConnect url2 10 20; EConnectCb (args_map (node_args node2)) 11 21;
     EReply 20 (reply_of node2); EDisconnect 10; EConnect url2 12 22; EDisconnected 20 0;
     EReply 22 no_reply]) as (w & Hr & Hw); [by vm_compute|by vm_compute|].
  exists w. split; [exact Hr|]. intros pid e He. destruct (Hw pid e He) as (c & _ & _ & Hc & _). by exists c.
Defined.

Lemma cast_int_ok z : (0 ≤ z < 2 ^ 31)%Z → cast_int (show_dec z) = Some z.
Proof. intros H. by apply cast_decimal_ok. Qed.

Lemma handshake_witness :
  ∃ A2 B1, connected A2 (me_pid node2) 10 2 ∧ connected B1 (me_pid node1) 11 1.
Proof.
  assert (∀ h rank fp, h = lit "10.0.0.1" ∨ h = lit "10.0.0.2" → (0 ≤ rank < 2 ^ 31)%Z → in_width 32 fp →
            node_ok demo_resolve cast_decimal 0 (new_node (demo_url h) rank fp) h 1990) as Hok.
  { intros h rank fp Hh Hr Hf. split; [done| | |done| |done|done]; destruct Hh as [->| ->];
      try (by apply (bool_decide_unpack _)); by vm_compute. }
  destruct (handshake demo_resolve cast_decimal cast_int 0 cast_decimal_ok cast_int_ok node1 node2 ∅ ∅ ∅ ∅
    (lit "10.0.0.1") 1990 (lit "10.0.0.2") 1990 url2 10 20 11 21 ∅ (λ _, []) (λ _, []) (λ _, []) (lit "h")
    [request_text (lit "h") (build_whookie_connect_path node1)])
    as (A1 & A2 & B1 & reply & args & _ & _ & _ & _ & HA & HB & _);
    try done; try (apply Hok; [by auto|lia|done]); try apply new_node_inv; try (by vm_compute).
  - by repeat constructor.
  - exists A2, B1. by split.
Defined.

(** A connection that timed out stays in the table, and the next [connect] is given its peer, which
    has no rank. *)
Example timed_out_reused :
  ranks (demo_run [EConnect url2 10 20; EReply 20 no_reply]) node2 = Ok (Some (10, -1)%Z) ∧
  (w ← demo_run [EConnect url2 10 20; EReply 20 no_reply];
   '(_, st) ← connect demo_resolve cast_decimal 0 (w_node w) url2 11 21; Ok st) = Ok (Reused 10).
Proof. split; vm_compute; reflexivity. Qed.

(** A node that was reached by a name of another of its addresses answers with its own: the
    connection is filed under the one and gone from the table under the other, and the process it
    was filed under still has it when it was freed. *)
Example other_address :
  let url := lit "http://node2:1990/" in
  demo_ok [EConnect url 10 20; EReply 20 (reply_of node2)] = false ∧
  demo_run [EConnect url 10 20; EReply 20 (reply_of node2); EDisconnect 10; EDisconnected 20 0;
            EConnect url 11 21] = Throw Undefined.
Proof. split; vm_compute; reflexivity. Qed.

(** The other node disconnects while the reply is under way. *)
Example disconnected_while_connecting :
  demo_run [EConnect url2 10 20; EDisconnectCb (args_map (node_args node2)); EReply 20 (reply_of node2)]
  = Throw Undefined.
Proof. vm_compute. reflexivity. Qed.

(** Two [connect]s share a handle, and the first [disconnect] ends it; the peer that the second one made
    is on the heap for good. *)
Example shared_handle :
  demo_run [EConnect url2 10 20; EReply 20 (reply_of node2); EConnect url2 11 21; EDisconnect 10;
            EDisconnected 20 0; EDisconnect 10] = Throw Undefined ∧
  (w ← demo_run [EConnect url2 10 20; EReply 20 (reply_of node2); EConnect url2 11 21; EDisconnect 10;
                 EDisconnected 20 0];
   Ok ((map_to_list (peers (w_node w))).*1)) = Ok [11%Z].
Proof. split; vm_compute; reflexivity. Qed.

(** A node that comes back with a new fingerprint and rank gets a new connection where it had
    asked for the old one, and keeps the old rank where it had been asked. *)
Example restart_unnoticed :
  ranks (demo_run [EConnectCb (args_map (node_args node2)) 10 20;
                   EConnectCb (args_map (node_args node2')) 11 21]) node2 = Ok (Some (11, 5)%Z) ∧
  ranks (demo_run [EConnect url2 10 20; EReply 20 (reply_of node2);
                   EConnectCb (args_map (node_args node2')) 11 21]) node2 = Ok (Some (10, 2)%Z).
Proof. split; vm_compute; reflexivity. Qed.

(** A node that connects to itself finds the connection it is making. *)
Example self_connect :
  ranks (demo_run [EConnect (lit "http://10.0.0.1:1990/") 10 20; EConnectCb (args_map (node_args node1)) 11 21;
                   EReply 20 (reply_of node1)]) node1 = Ok (Some (10, 1)%Z).
Proof. vm_compute. reflexivity. Qed.

(** The page without its arguments throws. *)
Example page_without_arguments :
  demo_run [EConnectCb ∅ 10 20] = Throw OutOfRange ∧ demo_run [EDisconnectCb ∅] = Throw OutOfRange.
Proof. split; vm_compute; reflexivity. Qed.
