(* ===== verification/Allocators.v ===== *)
(** Lunasa's allocators and core (src/src/lunasa): [AllocatorBase], [AllocatorMalloc] and
    [AllocatorUnconfigured], the split core, the singleton that [lunasa::Init] and
    [lunasa::Finish] drive, and the registration of memory with the network.

    Allocators, cores and blocks of memory live at addresses; an address that is free may be used
    again.  Touching an allocator, a core or a block that is gone is [Undefined].  The functions
    that pin memory are arguments of the registration: a pin function maps base address, length
    and the old value of the handle to the new value (0 is null).  [log] lists the pins and
    unpins.  The library is built without tcmalloc.  An exception or an exit ends the run. *)
From S2P Require Import Prelude StringHelpers Configuration DataObject.

(** * Allocators *)

Definition pin_fn := nat → Z → Z → Z.
Definition unpin_fn := Z → Z.

Definition noopPin : pin_fn := λ _ _ pinned, pinned.
Definition noopUnpin : unpin_fn := λ pinned, pinned.
Definition fakePin : pin_fn := λ _ _ _, 1%Z.
Definition fakeUnpin : unpin_fn := λ _, 0%Z.

Inductive event :=
| Pinned (base : nat) (length handle : Z)
| Unpinned (handle : Z)
| CleanedUp (buffer : Z).

Inductive allocator_type := malloc | unconfigured.
#[global] Instance allocator_type_eq_dec : EqDecision allocator_type.
Proof. solve_decision. Defined.

Record allocator := mkAllocator {
  AllocatorType : allocator_type;
  mRefCount : Z;
  allocator_has_been_shutdown : bool;
  mTotalAllocated : Z;
  mTotalUsed : Z;
  mPinFunc : option pin_fn;
  mUnpinFunc : option unpin_fn;
  mEagerPinning : bool;
  allocations : gset nat
}.

(** A block: the allocation, its handle and offset in registered memory, the handles of its user
    data segments, and the allocator it came from. *)
Record block := mkBlock {
  allocation : Allocation;
  net_buffer_handle : Z;
  block_net_offset : Z;
  segment_handles : list Z;
  owner : nat
}.

Record world := mkWorld {
  allocators : gmap nat allocator;
  mem : gmap nat block;
  log : list event
}.

Definition get_allocator (a : nat) (w : world) : outcome allocator :=
  match allocators w !! a with Some A => Ok A | None => Throw Undefined end.
Definition get_block (l : nat) (w : world) : outcome block :=
  match mem w !! l with Some b => Ok b | None => Throw Undefined end.
Definition set_allocator (a : nat) (A : allocator) (w : world) : world :=
  mkWorld (<[a := A]> (allocators w)) (mem w) (log w).
Definition set_block (l : nat) (b : block) (w : world) : world :=
  mkWorld (allocators w) (<[l := b]> (mem w)) (log w).
Definition add_event (e : event) (w : world) : world :=
  mkWorld (allocators w) (mem w) (log w ++ [e]).

(** [AllocatorBase::AllocatorBase] *)
Definition AllocatorBase (t : allocator_type) (eagerPinning : bool) : allocator :=
  mkAllocator t 1 false 0 0 (Some fakePin) (Some fakeUnpin) eagerPinning ∅.

Definition createAllocator (allocator_name : str) (eagerPinning : bool) : outcome allocator :=
  if allocator_name =s? lit "malloc" then Ok (AllocatorBase malloc eagerPinning)
  else if allocator_name =s? lit "unconfigured" then Ok (AllocatorBase unconfigured false)
  else Throw RuntimeError.

Definition set_refs (A : allocator) (n : Z) (shutdown : bool) : allocator :=
  mkAllocator (AllocatorType A) n shutdown (mTotalAllocated A) (mTotalUsed A) (mPinFunc A)
    (mUnpinFunc A) (mEagerPinning A) (allocations A).
Definition set_pins (A : allocator) (pin : option pin_fn) (unpin : option unpin_fn) : allocator :=
  mkAllocator (AllocatorType A) (mRefCount A) (allocator_has_been_shutdown A) (mTotalAllocated A)
    (mTotalUsed A) pin unpin (mEagerPinning A) (allocations A).
Definition set_books (A : allocator) (total used : Z) (ls : gset nat) : allocator :=
  mkAllocator (AllocatorType A) (mRefCount A) (allocator_has_been_shutdown A) total used
    (mPinFunc A) (mUnpinFunc A) (mEagerPinning A) ls.

(** [mUnpinFunc(handle)]; calling an empty [std::function] throws. *)
Definition call_unpin (A : allocator) (handle : Z) (w : world) : outcome world :=
  match mUnpinFunc A with Some _ => Ok (add_event (Unpinned handle) w) | None => Throw RuntimeError end.

(** The loop of [~AllocatorMalloc] over the allocations that are left. *)
Fixpoint free_all (A : allocator) (ls : list nat) (w : world) : outcome world :=
  match ls with
  | [] => Ok w
  | l :: ls' =>
      b ← get_block l w;
      w ← (if (net_buffer_handle b =? 0)%Z then Ok w else call_unpin A (net_buffer_handle b) w);
      free_all A ls' (mkWorld (allocators w) (delete l (mem w)) (log w))
  end.

Definition delete_allocator (a : nat) (w : world) : outcome world :=
  A ← get_allocator a w;
  w ← free_all A (elements (allocations A)) w;
  Ok (mkWorld (delete a (allocators w)) (mem w) (log w)).

Definition HasActiveAllocations (A : allocator) : bool := negb (bool_decide (allocations A = ∅)).

Definition IncrRef_allocator (a : nat) (w : world) : outcome world :=
  A ← get_allocator a w;
  Ok (set_allocator a (set_refs A (mRefCount A + 1) (allocator_has_been_shutdown A)) w).

Definition DecrRef_allocator (a : nat) (w : world) : outcome world :=
  A ← get_allocator a w;
  let num_left := (mRefCount A - 1)%Z in
  let w := set_allocator a (set_refs A num_left (allocator_has_been_shutdown A)) w in
  if (num_left =? 0)%Z then
    if negb (HasActiveAllocations A) then delete_allocator a w
    else Ok (set_allocator a (set_refs A num_left true) w)
  else Ok w.

Definition RegisterPinUnpin_allocator (a : nat) (pin : option pin_fn) (unpin : option unpin_fn)
    (w : world) : outcome world :=
  A ← get_allocator a w;
  Ok (set_allocator a (set_pins A pin unpin) w).

(** [RegisterMemory]: the new value of [pinned]. *)
Definition RegisterMemory (a base_addr : nat) (length pinned : Z) (w : world)
    : outcome (Z * world) :=
  A ← get_allocator a w;
  match mPinFunc A with
  | Some pin => let h := pin base_addr length pinned in Ok (h, add_event (Pinned base_addr length h) w)
  | None => Ok (0%Z, w)
  end.

(** [AllocatorMalloc::Allocate] at the address [l] that [malloc] returns.  A size that wraps gives
    a block too small for its header. *)
Definition Allocate_from (a l : nat) (user_capacity : Z) (w : world)
    : outcome (option nat * world) :=
  A ← get_allocator a w;
  match AllocatorType A with
  | unconfigured => Throw RuntimeError
  | malloc =>
      if allocator_has_been_shutdown A then Ok (None, w)
      else
        let alloc := Allocate user_capacity in
        let bytes := allocated_bytes alloc in
        if (bytes <? sizeof_Allocation)%Z then Throw Undefined
        else
          '(handle, w) ←
            (if mEagerPinning A then
               match mPinFunc A with
               | Some pin => let h := pin l bytes 0%Z in Ok (h, add_event (Pinned l bytes h) w)
               | None => Throw RuntimeError
               end
             else Ok (0%Z, w));
          Ok (Some l,
              set_block l (mkBlock alloc handle 0 [] a)
                (set_allocator a
                   (set_books A (u64 (mTotalAllocated A + bytes)) (u64 (mTotalUsed A + bytes))
                      ({[l]} ∪ allocations A)) w))
  end.

(** [AllocatorMalloc::Free] *)
Definition Free_to (a l : nat) (w : world) : outcome world :=
  A ← get_allocator a w;
  match AllocatorType A with
  | unconfigured => Throw RuntimeError
  | malloc =>
      b ← get_block l w;
      if decide (l ∈ allocations A) then
        w ← (if (net_buffer_handle b =? 0)%Z then Ok w else call_unpin A (net_buffer_handle b) w);
        let bytes := allocated_bytes (allocation b) in
        let A := set_books A (u64 (mTotalAllocated A - bytes))
                   (u64 (mTotalUsed A - (bytes - sizeof_Allocation))) (allocations A ∖ {[l]}) in
        let w := set_allocator a A (mkWorld (allocators w) (delete l (mem w)) (log w)) in
        if bool_decide (allocations A = ∅) && allocator_has_been_shutdown A
        then delete_allocator a w else Ok w
      else Throw AssertFailed
  end.

(** * Objects: [Allocation::IncrRef] and [DecrRef] of the block behind a handle *)

Definition with_alloc (b : block) (al : Allocation) : block :=
  mkBlock al (net_buffer_handle b) (block_net_offset b) (segment_handles b) (owner b).

Definition ldo_IncrRef (l : nat) (w : world) : outcome world :=
  b ← get_block l w;
  Ok (set_block l (with_alloc b (set_ref (allocation b) (s32 (ref_count (allocation b) + 1)))) w).

(** The user's memory is handed to its cleanup function ([cleanup]: there is one), then the block
    goes back to its allocator. *)
Definition ldo_DecrRef (cleanup : bool) (l : nat) (w : world) : outcome world :=
  b ← get_block l w;
  let al := allocation b in
  _ ← F_ASSERT (0 <? ref_count al)%Z;
  let num_left := s32 (ref_count al - 1) in
  let w := set_block l (with_alloc b (set_ref al num_left)) w in
  if (num_left =? 0)%Z then
    let w := if cleanup
             then mkWorld (allocators w) (mem w)
                    (log w ++ ((λ s, CleanedUp (buffer_ptr s)) <$> user_data_segments al))
             else w in
    Free_to (owner b) l w
  else Ok w.

(** * The split core *)

Record core := mkCore {
  configured : bool;
  lazy_allocator : nat;
  eager_allocator : nat
}.

(** The core at address [c] of the hooks that capture one; the type registry's hook captures the
    singleton, which is always there. *)
Record process := mkProcess {
  pworld : world;
  cores : gmap nat core;
  core_ptr : option nat;
  pin_functions : option (pin_fn * unpin_fn);
  used_tcmalloc_before : bool;
  hooks : gmap str (option nat)
}.

Definition with_world (p : process) (w : world) : process :=
  mkProcess w (cores p) (core_ptr p) (pin_functions p) (used_tcmalloc_before p) (hooks p).
Definition with_core (p : process) (c : nat) (k : core) : process :=
  mkProcess (pworld p) (<[c := k]> (cores p)) (core_ptr p) (pin_functions p)
    (used_tcmalloc_before p) (hooks p).
Definition with_ptr (p : process) (c : option nat) : process :=
  mkProcess (pworld p) (cores p) c (pin_functions p) (used_tcmalloc_before p) (hooks p).
Definition with_hooks (p : process) (h : gmap str (option nat)) : process :=
  mkProcess (pworld p) (cores p) (core_ptr p) (pin_functions p) (used_tcmalloc_before p) h.

Definition get_core (c : nat) (p : process) : outcome core :=
  match cores p !! c with Some k => Ok k | None => Throw Undefined end.

(** The constructor: one unconfigured allocator, at [u], counted twice. *)
Definition new_LunasaCoreSplit (c u : nat) (p : process) : outcome process :=
  A ← createAllocator (lit "unconfigured") false;
  w ← IncrRef_allocator u (set_allocator u A (pworld p));
  Ok (with_core (with_world p w) c (mkCore false u u)).

Definition delete_LunasaCoreSplit (c : nat) (p : process) : outcome process :=
  k ← get_core c p;
  w ← DecrRef_allocator (lazy_allocator k) (pworld p);
  w ← DecrRef_allocator (eager_allocator k) w;
  Ok (mkProcess w (delete c (cores p)) (core_ptr p) (pin_functions p) (used_tcmalloc_before p)
        (hooks p)).

Definition hook_status : str := lit "/lunasa".
Definition hook_eager : str := lit "/lunasa/eager_details".
Definition hook_lazy : str := lit "/lunasa/lazy_details".
Definition hook_types : str := lit "/lunasa/dataobject_type_registry".

(** [LunasaCoreSplit::init], with the addresses of the two new allocators. *)
Definition init_split (c la ea : nat) (lmm_name emm_name : str) (p : process) : outcome process :=
  L ← createAllocator lmm_name false;
  E ← createAllocator emm_name true;
  k ← get_core c p;
  let w := set_allocator ea E (set_allocator la L (pworld p)) in
  w ← DecrRef_allocator (lazy_allocator k) w;
  w ← DecrRef_allocator (eager_allocator k) w;
  let p := with_core (with_world p w) c (mkCore (configured k) la ea) in
  Ok (with_hooks p (<[hook_lazy := Some c]> (<[hook_eager := Some c]>
        (<[hook_status := Some c]> (hooks p))))).

(** [LunasaCoreBase::init] *)
Definition init_core (c la ea : nat) (config : Configuration) (p : process) : outcome process :=
  k ← get_core c p;
  _ ← F_ASSERT (negb (configured k));
  let lmm_name := (GetLowercaseString config (lit "lunasa.lazy_memory_manager") (lit "malloc")).2 in
  let emm_name := (GetLowercaseString config (lit "lunasa.eager_memory_manager") (lit "malloc")).2 in
  p ← init_split c la ea lmm_name emm_name p;
  k ← get_core c p;
  Ok (with_core p c (mkCore true (lazy_allocator k) (eager_allocator k))).

(** [LunasaCoreSplit::finish]; the singleton does not call it. *)
Definition finish_core (p : process) : process :=
  with_hooks p (delete hook_lazy (delete hook_eager (delete hook_status (hooks p)))).

Definition RegisterPinUnpin_core (c : nat) (pin : option pin_fn) (unpin : option unpin_fn)
    (p : process) : outcome process :=
  k ← get_core c p;
  w ← RegisterPinUnpin_allocator (eager_allocator k) pin unpin (pworld p);
  w ← RegisterPinUnpin_allocator (lazy_allocator k) pin unpin w;
  Ok (with_world p w).

(** Through [LCORE]; the unconfigured core ends the process. *)
Definition Allocate_lunasa (eager : bool) (l : nat) (user_capacity : Z) (p : process)
    : outcome (option nat * process) :=
  match core_ptr p with
  | None => Throw Exit
  | Some c =>
      k ← get_core c p;
      '(r, w) ← Allocate_from (if eager then eager_allocator k else lazy_allocator k) l user_capacity
                  (pworld p);
      Ok (r, with_world p w)
  end.

Definition TotalAllocated (p : process) : outcome Z :=
  match core_ptr p with
  | None => Throw Exit
  | Some c =>
      k ← get_core c p;
      L ← get_allocator (lazy_allocator k) (pworld p);
      E ← get_allocator (eager_allocator k) (pworld p);
      match AllocatorType L, AllocatorType E with
      | malloc, malloc => Ok (u64 (mTotalAllocated L + mTotalAllocated E))
      | _, _ => Throw RuntimeError
      end
  end.

(** * The singleton *)

Definition IsUnconfigured (p : process) : bool := negb (bool_decide (is_Some (core_ptr p))).

(** [Init], with the addresses of the core, of its first allocator and of the two new ones. *)
Definition Init (c u la ea : nat) (config : Configuration) (p : process) : outcome process :=
  if negb (IsUnconfigured p) then Throw RuntimeError
  else
    let lmm_name := (GetLowercaseString config (lit "lunasa.lazy_memory_manager") (lit "malloc")).2 in
    let emm_name := (GetLowercaseString config (lit "lunasa.eager_memory_manager") (lit "tcmalloc")).2 in
    let lunasa_type := (GetLowercaseString config (lit "lunasa.type") (lit "split")).2 in
    let requested_tcmalloc := (lmm_name =s? lit "tcmalloc") || (emm_name =s? lit "tcmalloc") in
    if requested_tcmalloc && used_tcmalloc_before p then Throw RuntimeError
    else
      let p := mkProcess (pworld p) (cores p) (core_ptr p) (pin_functions p)
                 (requested_tcmalloc || used_tcmalloc_before p) (hooks p) in
      if lunasa_type =s? lit "split" then
        p ← new_LunasaCoreSplit c u p;
        p ← init_core c la ea config (with_ptr p (Some c));
        p ← match pin_functions p with
            | Some (pin, unpin) => RegisterPinUnpin_core c (Some pin) (Some unpin) p
            | None => Ok p
            end;
        Ok (with_hooks p (<[hook_types := None]> (hooks p)))
      else Throw RuntimeError.

Definition Start (p : process) : outcome process :=
  if IsUnconfigured p then Throw RuntimeError else Ok p.

Definition Finish (p : process) : outcome process :=
  match core_ptr p with
  | None => Ok p
  | Some c =>
      let p := with_hooks p (delete hook_types (hooks p)) in
      p ← delete_LunasaCoreSplit c p;
      Ok (with_ptr p None)
  end.

(** [SingletonImpl::RegisterPinUnpin] *)
Definition RegisterPinUnpin_singleton (pin : pin_fn) (unpin : unpin_fn) (p : process)
    : outcome process :=
  let p := mkProcess (pworld p) (cores p) (core_ptr p) (Some (pin, unpin))
             (used_tcmalloc_before p) (hooks p) in
  match core_ptr p with
  | None => Ok p
  | Some c => RegisterPinUnpin_core c (Some pin) (Some unpin) p
  end.

(** [lunasa::RegisterPinUnpin], which the networks call, goes to the core. *)
Definition RegisterPinUnpin (pin : pin_fn) (unpin : unpin_fn) (p : process) : outcome process :=
  match core_ptr p with
  | None => Throw Exit
  | Some c => RegisterPinUnpin_core c (Some pin) (Some unpin) p
  end.

(** A request for a page of Lunasa: the hook uses the core it captured.  [None]: no such page. *)
Definition lunasa_page (name : str) (p : process) : outcome (option (option core)) :=
  match hooks p !! name with
  | None => Ok None
  | Some None => Ok (Some None)
  | Some (Some c) => k ← get_core c p; Ok (Some (Some k))
  end.

(** * Objects *)

Definition on_block (l : nat) (f : Allocation → Allocation) (p : process) : outcome process :=
  b ← get_block l (pworld p);
  Ok (with_world p (set_block l (with_alloc b (f (allocation b))) (pworld p))).

(** The allocating constructor of [DataObject]; writing the header of a null allocation is
    undefined. *)
Definition ldo_new (eager : bool) (l : nat) (total_user_capacity meta_capacity data_capacity tag : Z)
    (p : process) : outcome process :=
  if (total_user_capacity <? meta_capacity + data_capacity)%Z then Throw InvalidArgument
  else
    let pad := ldo_padding meta_capacity data_capacity in
    '(r, p) ← Allocate_lunasa eager l (u32 (total_user_capacity + pad)) p;
    match r with
    | None => Throw Undefined
    | Some l => on_block l (λ al, setHeader al 1 meta_capacity data_capacity pad tag) p
    end.

(** The constructor from user memory at [mem]: headers only, and one segment, which is registered
    at once. *)
Definition ldo_new_user (l user_mem : nat) (metaCapacity dataCapacity : Z) (p : process)
    : outcome process :=
  '(r, p) ← Allocate_lunasa true l 0 p;
  match r with
  | None => Throw Undefined
  | Some l =>
      b ← get_block l (pworld p);
      '(h, w) ← RegisterMemory (owner b) user_mem (u32 (metaCapacity + dataCapacity)) 0 (pworld p);
      let al := AddUserDataSegment (setHeader (allocation b) 1 0 0 0 0) (Z.of_nat user_mem)
                  metaCapacity dataCapacity in
      Ok (with_world p (set_block l (mkBlock al (net_buffer_handle b) (block_net_offset b)
                                       (segment_handles b ++ [h]) (owner b)) w))
  end.

(** * RDMA handles: descriptors (handle, offset, size) *)

Record rdma_segment_desc := mkDesc { d_handle : Z; d_offset : Z; d_size : Z }.

(** The part the four queries share: memory that is not registered yet is registered now. *)
Definition ensure_pinned (l : nat) (w : world) : outcome (block * world) :=
  b ← get_block l w;
  if (net_buffer_handle b =? 0)%Z then
    A ← get_allocator (owner b) w;
    _ ← F_ASSERT (negb (mEagerPinning A));
    '(h, w) ← RegisterMemory (owner b) l (allocated_bytes (allocation b)) 0 w;
    let b := mkBlock (allocation b) h (block_net_offset b) (segment_handles b) (owner b) in
    Ok (b, set_block l b w)
  else Ok (b, w).

(** The descriptor of the one user segment there may be, for the whole object and its header. *)
Definition user_segment_desc (b : block) : outcome (list rdma_segment_desc) :=
  match user_data_segments (allocation b), segment_handles b with
  | [], _ => Ok []
  | [s], h :: _ => Ok [mkDesc h 0 (seg_size s)]
  | _, _ => Throw AssertFailed
  end.

Definition GetBaseRdmaHandles (impl : option nat) (w : world)
    : outcome (list rdma_segment_desc * world) :=
  match impl with
  | None => Ok ([], w)
  | Some l =>
      '(b, w) ← ensure_pinned l w;
      us ← user_segment_desc b;
      Ok (mkDesc (net_buffer_handle b) (block_net_offset b) (allocated_bytes (allocation b)) :: us, w)
  end.

Definition GetHeaderRdmaHandles (impl : option nat) (w : world)
    : outcome (list rdma_segment_desc * world) :=
  match impl with
  | None => Ok ([], w)
  | Some l =>
      '(b, w) ← ensure_pinned l w;
      us ← user_segment_desc b;
      Ok (mkDesc (net_buffer_handle b) (u32 (block_net_offset b + offsetof_header))
            (u32 (allocated_bytes (allocation b) - offsetof_header)) :: us, w)
  end.

Definition GetMetaRdmaHandles (impl : option nat) (w : world)
    : outcome (list rdma_segment_desc * world) :=
  match impl with
  | None => Ok ([], w)
  | Some l =>
      '(b, w) ← ensure_pinned l w;
      let al := allocation b in
      if (allocated_bytes al =? sizeof_Allocation)%Z then
        match user_data_segments al, segment_handles b with
        | [s], h :: _ =>
            Ok ([mkDesc (net_buffer_handle b) (block_net_offset b) (allocated_bytes al);
                 mkDesc h (net_buffer_offset s) (seg_size s)], w)
        | [], _ => Throw Undefined
        | _, _ => Throw AssertFailed
        end
      else if (sizeof_Allocation <? allocated_bytes al)%Z then
        _ ← F_ASSERT (offsetof_user + meta_bytes al <=? allocated_bytes al)%Z;
        Ok ([mkDesc (net_buffer_handle b) (u32 (block_net_offset b + offsetof_user))
               (u32 (allocated_bytes al - offsetof_user))], w)
      else Throw AssertFailed
  end.

Definition GetDataRdmaHandles (impl : option nat) (w : world)
    : outcome (list rdma_segment_desc * world) :=
  match impl with
  | None => Ok ([], w)
  | Some l =>
      '(b, w) ← ensure_pinned l w;
      let al := allocation b in
      let desc := mkDesc (net_buffer_handle b)
                    (u32 (block_net_offset b + offsetof_user + meta_bytes al)) (data_bytes al) in
      if (allocated_bytes al =? sizeof_Allocation)%Z then
        match user_data_segments al with
        | s :: _ => _ ← F_ASSERT (seg_size s =? u32 (meta_bytes al + data_bytes al))%Z; Ok ([desc], w)
        | [] => Throw Undefined
        end
      else if (sizeof_Allocation <? allocated_bytes al)%Z then
        _ ← F_ASSERT (allocated_bytes al =? offsetof_user + meta_bytes al + data_bytes al + padding al)%Z;
        Ok ([desc], w)
      else Throw AssertFailed
  end.

(** The variants for one handle expect exactly one descriptor. *)
Definition one_handle (r : outcome (list rdma_segment_desc * world)) : outcome (Z * Z * world) :=
  '(segments, w) ← r;
  match segments with
  | [d] => Ok (d_handle d, d_offset d, w)
  | _ => Throw AssertFailed
  end.

Definition GetBaseRdmaHandle (impl : option nat) (w : world) := one_handle (GetBaseRdmaHandles impl w).
Definition GetLocalHeaderRdmaHandles := GetBaseRdmaHandles.
Definition GetLocalHeaderRdmaHandle := GetBaseRdmaHandle.
Definition GetHeaderRdmaHandle (impl : option nat) (w : world) := one_handle (GetHeaderRdmaHandles impl w).
Definition GetMetaRdmaHandle (impl : option nat) (w : world) := one_handle (GetMetaRdmaHandles impl w).
Definition GetDataRdmaHandle (impl : option nat) (w : world) := one_handle (GetDataRdmaHandles impl w).

Definition isPinned (impl : option nat) (w : world) : outcome bool :=
  match impl with
  | None => Ok false
  | Some l => b ← get_block l w; Ok (negb (net_buffer_handle b =? 0)%Z)
  end.

(** * The books of the allocators

    [refs a] is the number of references the cores hold on the allocator at [a]. *)

Definition own_bytes (a : nat) (b : block) : Z :=
  if decide (owner b = a) then allocated_bytes (allocation b) else 0%Z.

Definition bytes_of (a : nat) (m : gmap nat block) : Z :=
  map_fold (λ _ b n, own_bytes a b + n)%Z 0%Z m.

Lemma bytes_of_insert a m l b :
  m !! l = None → bytes_of a (<[l := b]> m) = (own_bytes a b + bytes_of a m)%Z.
Proof. intros Hl. unfold bytes_of. rewrite map_fold_insert_L; [done|lia|done]. Qed.

Lemma bytes_of_delete a m l b :
  m !! l = Some b → bytes_of a m = (own_bytes a b + bytes_of a (delete l m))%Z.
Proof. intros Hl. unfold bytes_of. by rewrite (map_fold_delete_L _ _ l b m) by (lia || done). Qed.

Lemma bytes_of_update a m l b b' :
  m !! l = Some b → own_bytes a b' = own_bytes a b → bytes_of a (<[l := b']> m) = bytes_of a m.
Proof.
  intros Hl He. rewrite (bytes_of_delete a m l b Hl), <-He, <-insert_delete_eq.
  by rewrite bytes_of_insert by apply lookup_delete_eq.
Qed.

Lemma bytes_of_none a m : (∀ l b, m !! l = Some b → owner b ≠ a) → bytes_of a m = 0%Z.
Proof.
  induction m as [|l b m Hl IH] using map_ind; [done|]. intros Hm.
  rewrite bytes_of_insert by done. rewrite IH.
  - unfold own_bytes. rewrite decide_False; [lia|]. apply (Hm l). apply lookup_insert_eq.
  - intros l' b' H'. apply (Hm l'). rewrite lookup_insert_ne; [done|]. intros ->. congruence.
Qed.

Lemma u64_shift x y z : u64 (u64 x + y + z) = u64 (x + y + z).
Proof.
  unfold wrap. rewrite <-Z.add_assoc, Z.add_mod_idemp_l by done. f_equal. lia.
Qed.

Section books.
Context (refs : nat → Z).

Record allocator_ok (w : world) (a : nat) (A : allocator) : Prop := {
  ao_refs : mRefCount A = refs a;
  ao_shut : allocator_has_been_shutdown A = (refs a =? 0)%Z;
  ao_kept : refs a = 0%Z → allocations A ≠ ∅;
  ao_list : ∀ l, l ∈ allocations A ↔ ∃ b, mem w !! l = Some b ∧ owner b = a;
  ao_total : mTotalAllocated A = u64 (bytes_of a (mem w));
  ao_pin : is_Some (mPinFunc A);
  ao_unpin : is_Some (mUnpinFunc A)
}.

Record books_ok (w : world) : Prop := {
  bo_nonneg : ∀ a, (0 ≤ refs a)%Z;
  bo_alive : ∀ a, refs a ≠ 0%Z → is_Some (allocators w !! a);
  bo_each : ∀ a A, allocators w !! a = Some A → allocator_ok w a A;
  bo_mem : ∀ l b, mem w !! l = Some b →
    (∃ A, allocators w !! owner b = Some A ∧ AllocatorType A = malloc) ∧
    (sizeof_Allocation ≤ allocated_bytes (allocation b) < 2 ^ 32)%Z
}.
End books.

(** One reference more or less. *)
Definition bump (refs : nat → Z) (a : nat) (n : Z) : nat → Z :=
  λ x, if decide (x = a) then (refs a + n)%Z else refs x.

Lemma bump_eq refs a n : bump refs a n a = (refs a + n)%Z.
Proof. unfold bump. by rewrite decide_True. Qed.
Lemma bump_ne refs a n x : x ≠ a → bump refs a n x = refs x.
Proof. intros. unfold bump. by rewrite decide_False. Qed.

Lemma books_owner_mem refs w a A l b :
  books_ok refs w → allocators w !! a = Some A → mem w !! l = Some b → owner b = a →
  l ∈ allocations A.
Proof. intros Hb Ha Hl Ho. apply (ao_list _ _ _ _ (bo_each _ _ Hb a A Ha)). eauto. Qed.

(** An address without an allocator has no references and owns nothing. *)
Lemma books_fresh refs w a :
  books_ok refs w → allocators w !! a = None →
  refs a = 0%Z ∧ ∀ l b, mem w !! l = Some b → owner b ≠ a.
Proof.
  intros Hb Ha. split.
  - destruct (decide (refs a = 0%Z)) as [|Hn]; [done|]. apply (bo_alive _ _ Hb) in Hn as [A HA]. congruence.
  - intros l b Hl <-. destruct (bo_mem _ _ Hb l b Hl) as [(A & HA & _) _]. congruence.
Qed.

(** ** A new allocator *)
Lemma new_allocator_ok refs w a t e :
  books_ok refs w → allocators w !! a = None →
  books_ok (bump refs a 1) (set_allocator a (AllocatorBase t e) w).
Proof.
  intros Hb Ha. destruct (books_fresh _ _ _ Hb Ha) as [Hr Hm]. constructor.
  - intros x. unfold bump. pose proof (bo_nonneg _ _ Hb x). case_decide; lia.
  - intros x Hx. simpl. destruct (decide (x = a)) as [->|Hne]; [rewrite lookup_insert_eq; eauto|].
    rewrite lookup_insert_ne by done. rewrite bump_ne in Hx by done. by apply (bo_alive _ _ Hb).
  - intros x A. simpl. destruct (decide (x = a)) as [->|Hne].
    + rewrite lookup_insert_eq. intros [= <-]. constructor; simpl; rewrite ?bump_eq, ?Hr; try done.
      * intros l. split; [set_solver|]. intros (b & Hl & Ho). by destruct (Hm l b).
      * by rewrite bytes_of_none.
    + rewrite lookup_insert_ne by done. intros HA. destruct (bo_each _ _ Hb x A HA).
      constructor; rewrite ?bump_ne by done; done.
  - intros l b Hl. simpl in *. destruct (bo_mem _ _ Hb l b Hl) as [(A & HA & Ht) Hs]. split; [|done].
    exists A. split; [|done]. rewrite lookup_insert_ne; [done|]. intros ->. by destruct (Hm l b).
Qed.

(** ** Changes of one allocator that leave its list, its totals and the memory alone *)
Lemma update_allocator_ok refs n w a A A' :
  books_ok refs w → allocators w !! a = Some A → (0 ≤ refs a + n)%Z →
  AllocatorType A' = AllocatorType A → allocations A' = allocations A →
  mTotalAllocated A' = mTotalAllocated A → is_Some (mPinFunc A') → is_Some (mUnpinFunc A') →
  mRefCount A' = (refs a + n)%Z → allocator_has_been_shutdown A' = (refs a + n =? 0)%Z →
  ((refs a + n = 0)%Z → allocations A ≠ ∅) →
  books_ok (bump refs a n) (set_allocator a A' w).
Proof.
  intros Hb HA Hn Ht Hl Htot Hp Hu Hr Hs Hk. constructor.
  - intros x. unfold bump. pose proof (bo_nonneg _ _ Hb x). case_decide; lia.
  - intros x Hx. simpl. destruct (decide (x = a)) as [->|Hne]; [rewrite lookup_insert_eq; eauto|].
    rewrite lookup_insert_ne by done. rewrite bump_ne in Hx by done. by apply (bo_alive _ _ Hb).
  - intros x B. simpl. destruct (decide (x = a)) as [->|Hne].
    + rewrite lookup_insert_eq. intros [= <-]. destruct (bo_each _ _ Hb a A HA).
      constructor; simpl; rewrite ?bump_eq, ?Hl, ?Htot; done.
    + rewrite lookup_insert_ne by done. intros HB. destruct (bo_each _ _ Hb x B HB).
      constructor; rewrite ?bump_ne by done; done.
  - intros l b Hb'. simpl in *. destruct (bo_mem _ _ Hb l b Hb') as [(B & HB & Hty) Hsz]. split; [|done].
    destruct (decide (owner b = a)) as [Ho|Hne].
    + rewrite Ho in *. exists A'. rewrite lookup_insert_eq. split; [done|]. congruence.
    + exists B. by rewrite lookup_insert_ne.
Qed.

Lemma books_ext refs refs' w : (∀ a, refs a = refs' a) → books_ok refs w → books_ok refs' w.
Proof.
  intros He [H1 H2 H3 H4]. constructor; [intros; by rewrite <-He| |  |done].
  - intros a. rewrite <-He. apply H2.
  - intros a A HA. destruct (H3 a A HA). constructor; rewrite <-?He; done.
Qed.

Lemma IncrRef_allocator_ok refs w a :
  books_ok refs w → refs a ≠ 0%Z →
  ∃ w', IncrRef_allocator a w = Ok w' ∧ books_ok (bump refs a 1) w' ∧ mem w' = mem w ∧
        (∀ x, x ≠ a → allocators w' !! x = allocators w !! x).
Proof.
  intros Hb Hr. destruct (bo_alive _ _ Hb a Hr) as [A HA]. destruct (bo_each _ _ Hb a A HA).
  pose proof (bo_nonneg _ _ Hb a). unfold IncrRef_allocator, get_allocator. rewrite HA. simpl.
  eexists. split; [done|]. split_and!; [|done|intros; by apply lookup_insert_ne].
  apply (update_allocator_ok refs 1 w a A); simpl; try done; try lia.
  rewrite ao_shut0. apply Z.eqb_neq in Hr. rewrite Hr. symmetry. apply Z.eqb_neq. lia.
Qed.

Lemma set_allocator_twice a A B w : set_allocator a A (set_allocator a B w) = set_allocator a A w.
Proof. unfold set_allocator. simpl. by rewrite insert_insert_eq. Qed.

Lemma books_log refs w w' :
  books_ok refs w → allocators w' = allocators w → mem w' = mem w → books_ok refs w'.
Proof.
  intros [H1 H2 H3 H4] Ha Hm. constructor; rewrite ?Ha, ?Hm; try done.
  intros a A HA. destruct (H3 a A HA). constructor; rewrite ?Hm; done.
Qed.

(** ** Removing an allocator that owns nothing *)
Lemma remove_allocator_ok refs n w a :
  books_ok refs w → (refs a + n = 0)%Z → (∀ l b, mem w !! l = Some b → owner b ≠ a) →
  books_ok (bump refs a n) (mkWorld (delete a (allocators w)) (mem w) (log w)).
Proof.
  intros Hb Hn Hm. constructor.
  - intros x. unfold bump. pose proof (bo_nonneg _ _ Hb x). case_decide; lia.
  - intros x. simpl. destruct (decide (x = a)) as [->|Hne]; [by rewrite bump_eq|].
    rewrite bump_ne, lookup_delete_ne by done. apply (bo_alive _ _ Hb).
  - intros x A. simpl. intros [Hne HA]%lookup_delete_Some. destruct (bo_each _ _ Hb x A HA).
    constructor; rewrite ?bump_ne by done; done.
  - intros l b Hl. simpl in *. destruct (bo_mem _ _ Hb l b Hl) as [(B & HB & Ht) Hs].
    split; [|done]. exists B. rewrite lookup_delete_ne; [done|]. intros ->. by eapply Hm.
Qed.

Lemma delete_allocator_empty a A w :
  allocators w !! a = Some A → allocations A = ∅ →
  delete_allocator a w = Ok (mkWorld (delete a (allocators w)) (mem w) (log w)).
Proof.
  intros HA He. unfold delete_allocator, get_allocator. rewrite HA. simpl. rewrite He, elements_empty.
  done.
Qed.

(** A reference that is dropped: the memory stays, and the allocator goes when nobody needs it. *)
Lemma DecrRef_allocator_ok refs w a :
  books_ok refs w → refs a ≠ 0%Z →
  ∃ w', DecrRef_allocator a w = Ok w' ∧ books_ok (bump refs a (-1)) w' ∧ mem w' = mem w ∧ log w' = log w ∧
        (∀ x, x ≠ a → allocators w' !! x = allocators w !! x).
Proof.
  intros Hb Hr. destruct (bo_alive _ _ Hb a Hr) as [A HA]. pose proof (bo_each _ _ Hb a A HA) as [].
  pose proof (bo_nonneg _ _ Hb a). unfold DecrRef_allocator, get_allocator. rewrite HA. cbn [mbind outcome_bind].
  rewrite ao_refs0. destruct (Z.eqb_spec (refs a - 1) 0) as [Hz|Hz].
  - unfold HasActiveAllocations. case_bool_decide as He; cbn [negb].
    + rewrite (delete_allocator_empty a (set_refs A (refs a - 1) (allocator_has_been_shutdown A))); [|simpl; by rewrite lookup_insert_eq|done].
      eexists. split; [done|]. simpl. rewrite delete_insert_eq. split_and!; try done.
      * apply remove_allocator_ok; [done|lia|]. intros l b Hl Ho.
        pose proof (books_owner_mem _ _ _ _ _ _ Hb HA Hl Ho). set_solver.
      * intros x Hx. by apply lookup_delete_ne.
    + rewrite set_allocator_twice. eexists. split; [done|]. split_and!; try done.
      * apply (update_allocator_ok refs (-1) w a A); simpl; rewrite ?ao_shut0; try done; try lia.
      * intros x Hx. by apply lookup_insert_ne.
  - eexists. split; [done|]. split_and!; try done; [|intros x Hx; by apply lookup_insert_ne].
    apply (update_allocator_ok refs (-1) w a A); simpl; rewrite ?ao_shut0; try done; try lia.
Qed.

Lemma RegisterPinUnpin_allocator_ok refs w a pin unpin :
  books_ok refs w → refs a ≠ 0%Z →
  ∃ w', RegisterPinUnpin_allocator a (Some pin) (Some unpin) w = Ok w' ∧ books_ok refs w' ∧ mem w' = mem w.
Proof.
  intros Hb Hr. destruct (bo_alive _ _ Hb a Hr) as [A HA]. pose proof (bo_each _ _ Hb a A HA) as [].
  pose proof (bo_nonneg _ _ Hb a).
  unfold RegisterPinUnpin_allocator, get_allocator. rewrite HA. simpl. eexists. split; [done|].
  split; [|done]. apply (books_ext (bump refs a 0)).
  { intros x. unfold bump. case_decide; [subst; lia|done]. }
  apply (update_allocator_ok refs 0 w a A); simpl; try done; try lia; rewrite ?Z.add_0_r; done.
Qed.

(** ** Memory *)
Lemma Allocate_from_ok refs w a A l cap :
  books_ok refs w → refs a ≠ 0%Z → allocators w !! a = Some A → AllocatorType A = malloc →
  mem w !! l = None → (0 ≤ cap)%Z → (cap + sizeof_Allocation < 2 ^ 32)%Z →
  ∃ w' h, Allocate_from a l cap w = Ok (Some l, w') ∧ books_ok refs w' ∧
    mem w' = <[l := mkBlock (Allocate cap) h 0 [] a]> (mem w) ∧
    (∀ x, is_Some (allocators w' !! x) ↔ is_Some (allocators w !! x)) ∧
    (∀ x B, allocators w' !! x = Some B → ∃ B', allocators w !! x = Some B' ∧ AllocatorType B = AllocatorType B').
Proof.
  intros Hb Hr HA Ht Hl Hc Hs. pose proof (bo_each _ _ Hb a A HA) as [].
  pose proof (bo_nonneg _ _ Hb a). unfold sizeof_Allocation in Hs.
  assert (allocated_bytes (Allocate cap) = cap + 56)%Z as Hbytes.
  { simpl. unfold sizeof_Allocation. by unwrap. }
  unfold Allocate_from, get_allocator. rewrite HA. cbn [mbind outcome_bind]. rewrite Ht, ao_shut0.
  apply Z.eqb_neq in Hr as Hr'. rewrite Hr', Hbytes. unfold sizeof_Allocation.
  replace (cap + 56 <? 56)%Z with false by lia. destruct ao_pin0 as [pin Hpin]. rewrite Hpin.
  set (h := if mEagerPinning A then pin l (cap + 56)%Z 0%Z else 0%Z).
  set (A' := set_books A _ _ _). set (bl := mkBlock (Allocate cap) h 0 [] a).
  set (w' := mkWorld (<[a := A']> (allocators w)) (<[l := bl]> (mem w))
    (log w ++ if mEagerPinning A then [Pinned l (cap + 56) h] else [])).
  exists w', h. split.
  { unfold w', bl, h. destruct (mEagerPinning A); cbn [mbind outcome_bind].
    - unfold set_block, set_allocator, add_event. simpl. done.
    - unfold set_block, set_allocator. simpl. by rewrite app_nil_r. }
  assert (∀ x, own_bytes x bl = if decide (x = a) then cap + 56 else 0)%Z as Hown.
  { intros x. unfold own_bytes, bl. cbn [owner allocation]. rewrite Hbytes. repeat case_decide; congruence. }
  split_and!; [| done | |].
  - constructor.
    + apply (bo_nonneg _ _ Hb).
    + intros x Hx. simpl. destruct (decide (x = a)) as [->|Hne]; [rewrite lookup_insert_eq; eauto|].
      rewrite lookup_insert_ne by done. by apply (bo_alive _ _ Hb).
    + intros x B. simpl. destruct (decide (x = a)) as [->|Hne].
      * rewrite lookup_insert_eq. intros [= <-]. constructor; simpl; try done.
        -- intros l'. rewrite elem_of_union, elem_of_singleton, ao_list0.
           destruct (decide (l' = l)) as [->|Hl'].
           ++ rewrite lookup_insert_eq. naive_solver.
           ++ rewrite lookup_insert_ne by done. naive_solver.
        -- rewrite ao_total0, bytes_of_insert, Hown, decide_True by done.
           rewrite (Z.add_comm (cap + 56)), <-(Z.add_0_r (u64 _ + _)), u64_shift. f_equal. lia.
      * rewrite lookup_insert_ne by done. intros HB. pose proof (bo_each _ _ Hb x B HB) as [].
        constructor; simpl; try done.
        -- intros l'. rewrite ao_list1. destruct (decide (l' = l)) as [->|Hl'].
           ++ rewrite lookup_insert_eq, Hl. unfold bl. naive_solver.
           ++ by rewrite lookup_insert_ne.
        -- rewrite bytes_of_insert, Hown, decide_False by done. by rewrite ao_total1.
    + intros l' b' Hb'. cbn [mem allocators w'] in *. assert (∃ B, <[a := A']> (allocators w) !! owner b' = Some B ∧ AllocatorType B = malloc) as HX.
      { destruct (decide (owner b' = a)) as [->|Hne]; [exists A'; by rewrite lookup_insert_eq|].
        rewrite lookup_insert_ne by done. apply lookup_insert_Some in Hb' as [[<- <-]|[_ Hb']]; [done|].
        destruct (bo_mem _ _ Hb l' b' Hb') as [(B & HB & HtB) _]. eauto. }
      split; [exact HX|]. apply lookup_insert_Some in Hb' as [[<- <-]|[_ Hb']].
      * unfold bl. cbn [allocation]. rewrite Hbytes. unfold sizeof_Allocation. lia.
      * by apply (bo_mem _ _ Hb l' b').
  - intros x. simpl. rewrite lookup_insert_is_Some. destruct (decide (x = a)) as [->|]; [rewrite HA; naive_solver|]. naive_solver.
  - intros x B. simpl. intros [[<- <-]|[_ HB]]%lookup_insert_Some; [|eauto]. exists A. done.
Qed.

Lemma set_block_ok refs w l b b' :
  books_ok refs w → mem w !! l = Some b → owner b' = owner b →
  allocated_bytes (allocation b') = allocated_bytes (allocation b) → books_ok refs (set_block l b' w).
Proof.
  intros Hb Hl Ho Hs. destruct Hb as [H1 H2 H3 H4]. constructor; simpl; try done.
  - intros a A HA. destruct (H3 a A HA). constructor; simpl; try done.
    + intros l'. rewrite ao_list0. destruct (decide (l' = l)) as [->|Hne].
      * rewrite lookup_insert_eq, Hl. naive_solver congruence.
      * by rewrite lookup_insert_ne.
    + rewrite (bytes_of_update a _ l b); [done|done|]. unfold own_bytes. by rewrite Ho, Hs.
  - intros l' x [[<- <-]|[_ Hx]]%lookup_insert_Some; [|by apply (H4 l')]. rewrite Ho, Hs. by apply (H4 l).
Qed.

(** Taking one block out of the list of an allocator that goes on. *)
Lemma remove_block_ok refs w l b A A' lg :
  books_ok refs w → mem w !! l = Some b → allocators w !! owner b = Some A →
  AllocatorType A' = AllocatorType A → mRefCount A' = mRefCount A →
  allocator_has_been_shutdown A' = allocator_has_been_shutdown A →
  mPinFunc A' = mPinFunc A → mUnpinFunc A' = mUnpinFunc A →
  mTotalAllocated A' = u64 (mTotalAllocated A - allocated_bytes (allocation b)) →
  allocations A' = allocations A ∖ {[l]} → (refs (owner b) = 0%Z → allocations A' ≠ ∅) →
  books_ok refs (mkWorld (<[owner b := A']> (allocators w)) (delete l (mem w)) lg).
Proof.
  intros Hb Hl HA Ht Hr Hs Hp Hu Htot Hls Hk. constructor; simpl.
  - apply (bo_nonneg _ _ Hb).
  - intros x Hx. destruct (decide (x = owner b)) as [->|Hne]; [rewrite lookup_insert_eq; eauto|].
    rewrite lookup_insert_ne by done. by apply (bo_alive _ _ Hb).
  - intros x B [[<- <-]|[Hne HB]]%lookup_insert_Some.
    + pose proof (bo_each _ _ Hb _ A HA) as []. constructor; simpl; rewrite ?Hr, ?Hs, ?Hp, ?Hu; try done.
      * intros l'. rewrite Hls, elem_of_difference, not_elem_of_singleton, ao_list0.
        setoid_rewrite lookup_delete_Some. naive_solver.
      * rewrite Htot, ao_total0, (bytes_of_delete _ _ l b Hl). unfold own_bytes at 1.
        rewrite decide_True by done. unfold wrap. rewrite Zminus_mod_idemp_l. f_equal. lia.
    + pose proof (bo_each _ _ Hb x B HB) as []. constructor; simpl; try done.
      * intros l'. rewrite ao_list0. setoid_rewrite lookup_delete_Some. naive_solver.
      * rewrite ao_total0, (bytes_of_delete _ _ l b Hl). unfold own_bytes at 1. by rewrite decide_False.
  - intros l' x [_ Hx]%lookup_delete_Some. destruct (bo_mem _ _ Hb l' x Hx) as [(B & HB & HtB) Hsz].
    split; [|done]. destruct (decide (owner x = owner b)) as [He|He].
    + exists A'. rewrite He in *. rewrite lookup_insert_eq. split; congruence.
    + exists B. by rewrite lookup_insert_ne.
Qed.

(** Taking out the last block of an allocator that was shut down: both go. *)
Lemma remove_last_ok refs w l b A lg :
  books_ok refs w → mem w !! l = Some b → allocators w !! owner b = Some A → refs (owner b) = 0%Z →
  allocations A ∖ {[l]} = ∅ →
  books_ok refs (mkWorld (delete (owner b) (allocators w)) (delete l (mem w)) lg).
Proof.
  intros Hb Hl HA Hr He. constructor; simpl.
  - apply (bo_nonneg _ _ Hb).
  - intros x Hx. rewrite lookup_delete_ne by congruence. by apply (bo_alive _ _ Hb).
  - intros x B [Hne HB]%lookup_delete_Some. pose proof (bo_each _ _ Hb x B HB) as [].
    constructor; simpl; try done.
    + intros l'. rewrite ao_list0. setoid_rewrite lookup_delete_Some. naive_solver.
    + rewrite ao_total0, (bytes_of_delete _ _ l b Hl). unfold own_bytes at 1. by rewrite decide_False.
  - intros l' x [Hne Hx]%lookup_delete_Some. destruct (bo_mem _ _ Hb l' x Hx) as [(B & HB & HtB) Hsz].
    split; [|done]. exists B. rewrite lookup_delete_ne; [done|]. intros Ho.
    pose proof (books_owner_mem _ _ _ _ _ _ Hb HA Hx (eq_sym Ho)). set_solver.
Qed.

Lemma Free_to_ok refs w l b :
  books_ok refs w → mem w !! l = Some b →
  ∃ w', Free_to (owner b) l w = Ok w' ∧ books_ok refs w' ∧ mem w' = delete l (mem w) ∧
    log w' = log w ++ (if (net_buffer_handle b =? 0)%Z then [] else [Unpinned (net_buffer_handle b)]).
Proof.
  intros Hb Hl. destruct (bo_mem _ _ Hb l b Hl) as [(A & HA & Ht) Hs].
  pose proof (bo_each _ _ Hb _ A HA) as Hok. pose proof (ao_unpin _ _ _ _ Hok) as [un Hun].
  unfold Free_to, get_allocator, get_block. rewrite HA. cbn [mbind outcome_bind]. rewrite Ht, Hl.
  cbn [mbind outcome_bind]. rewrite decide_True by (by eapply books_owner_mem).
  set (lg := log w ++ (if (net_buffer_handle b =? 0)%Z then [] else [Unpinned (net_buffer_handle b)])).
  assert ((if (net_buffer_handle b =? 0)%Z then Ok w else call_unpin A (net_buffer_handle b) w)
          = Ok (mkWorld (allocators w) (mem w) lg)) as ->.
  { unfold lg, call_unpin. rewrite Hun. case_match; [|done]. rewrite app_nil_r. by destruct w. }
  cbn [mbind outcome_bind]. unfold set_allocator. cbn [allocators mem log].
  set (A' := set_books A _ _ _). case_bool_decide as He; simpl andb.
  - change (allocator_has_been_shutdown A') with (allocator_has_been_shutdown A).
    pose proof (ao_shut _ _ _ _ Hok) as Hsh'. destruct (allocator_has_been_shutdown A) eqn:Hsh.
    + rewrite (delete_allocator_empty _ A') by (simpl; rewrite ?lookup_insert_eq; done).
      simpl. rewrite delete_insert_eq. eexists. split; [done|]. split_and!; [|done..].
      apply remove_last_ok with A; try done. symmetry in Hsh'. by apply Z.eqb_eq in Hsh'.
    + eexists. split; [done|]. split_and!; [|done..]. apply remove_block_ok with A; try done.
      intros Hr. by rewrite Hr in Hsh'.
  - eexists. split; [done|]. split_and!; [|done..]. by apply remove_block_ok with A.
Qed.

(** * The life of a process *)

(** The allocators the current core refers to. *)
Definition slots (p : process) : list nat :=
  match core_ptr p with
  | None => []
  | Some c => from_option (λ k, [lazy_allocator k; eager_allocator k]) [] (cores p !! c)
  end.

Definition count (a : nat) (l : list nat) : Z := Z.of_nat (length (filter (eq a) l)).
Definition refs_of (p : process) (a : nat) : Z := count a (slots p).

Record process_ok (p : process) : Prop := {
  po_books : books_ok (refs_of p) (pworld p);
  po_core : match core_ptr p with
            | None => cores p = ∅
            | Some c => ∃ la ea, cores p = {[c := mkCore true la ea]} ∧ la ≠ ea
            end;
  po_refs : ∀ l b, mem (pworld p) !! l = Some b → (0 < ref_count (allocation b) ≤ INT_MAX)%Z
}.

(** An operation either succeeds or ends with one of the errors the program reports: it never
    touches what is gone, and no assertion fails. *)
Definition safely {A} (P : A → Prop) (r : outcome A) : Prop :=
  match r with Ok x => P x | Throw e => e = RuntimeError ∨ e = Exit ∨ e = InvalidArgument end.

Lemma safely_bind {A B} (P : A → Prop) (Q : B → Prop) r (f : A → outcome B) :
  safely P r → (∀ x, P x → safely Q (f x)) → safely Q (r ≫= f).
Proof. destruct r; simpl; auto. Qed.

Lemma safely_impl {A} (P Q : A → Prop) r : safely P r → (∀ x, P x → Q x) → safely Q r.
Proof. destruct r; simpl; auto. Qed.

Lemma createAllocator_safely name e :
  safely (λ A, ∃ t e', A = AllocatorBase t e') (createAllocator name e).
Proof. unfold createAllocator. repeat case_match; simpl; eauto. Qed.

Definition empty_process : process := mkProcess (mkWorld ∅ ∅ []) ∅ None None false ∅.

Lemma empty_process_ok : process_ok empty_process.
Proof.
  constructor; simpl; [|done|by intros l b; rewrite lookup_empty].
  constructor; simpl.
  - done.
  - done.
  - intros a A. by rewrite lookup_empty.
  - intros l b. by rewrite lookup_empty.
Qed.

Lemma count_cons a x l : count a (x :: l) = ((if decide (a = x) then 1 else 0) + count a l)%Z.
Proof. unfold count. rewrite filter_cons. case_decide; simpl; lia. Qed.

Lemma count_nil a : count a [] = 0%Z.
Proof. done. Qed.

(** The slots of a process with a core. *)
Lemma refs_of_core p c la ea :
  core_ptr p = Some c → cores p = {[c := mkCore true la ea]} →
  ∀ a, refs_of p a = count a [la; ea].
Proof. intros Hc Hk a. unfold refs_of, slots. by rewrite Hc, Hk, lookup_singleton_eq. Qed.

Lemma refs_of_none p : core_ptr p = None → ∀ a, refs_of p a = 0%Z.
Proof. intros Hc a. unfold refs_of, slots. by rewrite Hc. Qed.

(** [Finish] always works, and leaves the memory that objects still use. *)
Lemma lunasa_Finish_ok p :
  process_ok p →
  ∃ p', Finish p = Ok p' ∧ process_ok p' ∧ core_ptr p' = None ∧ mem (pworld p') = mem (pworld p).
Proof.
  intros [Hb Hc Hr]. unfold Finish. destruct (core_ptr p) as [c|] eqn:Hcp.
  2:{ exists p. split_and!; [done| |done|done]. constructor; [done|by rewrite Hcp|done]. }
  destruct Hc as (la & ea & Hk & Hne). pose proof (refs_of_core p c la ea Hcp Hk) as Hrefs.
  apply (books_ext _ (λ a, count a [la; ea])) in Hb; [|done].
  unfold delete_LunasaCoreSplit, get_core. cbn [cores with_hooks].
  rewrite Hk, lookup_singleton_eq. cbn [mbind outcome_bind lazy_allocator eager_allocator pworld with_hooks].
  destruct (DecrRef_allocator_ok _ _ la Hb) as (w1 & -> & Hb1 & Hm1 & _ & _).
  { rewrite count_cons, decide_True by done. unfold count. lia. }
  cbn [mbind outcome_bind].
  destruct (DecrRef_allocator_ok _ _ ea Hb1) as (w2 & -> & Hb2 & Hm2 & _ & _).
  { rewrite bump_ne by done. rewrite !count_cons, (decide_True _ _ (eq_refl ea)), count_nil. case_decide; lia. }
  cbn [mbind outcome_bind]. eexists. split; [done|]. simpl. split_and!; [|done|congruence].
  constructor; simpl.
  - eapply books_ext; [|exact Hb2]. intros a. unfold refs_of. simpl. unfold bump.
    rewrite !count_cons, !count_nil. repeat case_decide; subst; try done; lia.
  - apply delete_singleton_eq.
  - intros l b Hl. apply (Hr l). congruence.
Qed.

(** Dropping a handle of a live object always works, whatever became of Lunasa. *)
Lemma ldo_DecrRef_ok p cleanup l b :
  process_ok p → mem (pworld p) !! l = Some b →
  ∃ w', ldo_DecrRef cleanup l (pworld p) = Ok w' ∧ process_ok (with_world p w') ∧
    mem w' = if (ref_count (allocation b) =? 1)%Z then delete l (mem (pworld p))
             else <[l := with_alloc b (set_ref (allocation b) (ref_count (allocation b) - 1))]> (mem (pworld p)).
Proof.
  intros [Hb Hc Hr] Hl. pose proof (Hr l b Hl) as Hpos.
  unfold ldo_DecrRef, get_block. rewrite Hl. cbn [mbind outcome_bind].
  replace (0 <? ref_count (allocation b))%Z with true by lia. cbn [F_ASSERT mbind outcome_bind].
  rewrite s32_id by lia. set (b' := with_alloc b _). set (w1 := set_block l b' (pworld p)).
  assert (books_ok (refs_of p) w1) as Hb1 by (by apply set_block_ok with b).
  destruct (Z.eqb_spec (ref_count (allocation b) - 1) 0) as [Hz|Hz].
  - replace (ref_count (allocation b) =? 1)%Z with true by lia.
    set (w2 := if cleanup then _ else w1).
    assert (allocators w2 = allocators w1 ∧ mem w2 = mem w1) as [Ha2 Hm2] by (unfold w2; by destruct cleanup).
    destruct (Free_to_ok (refs_of p) w2 l b') as (w3 & Hf & Hb3 & Hm3 & _);
      [by apply books_log with w1|rewrite Hm2; apply lookup_insert_eq|].
    change (owner b') with (owner b) in Hf. rewrite Hf. exists w3. split; [done|].
    assert (mem w3 = delete l (mem (pworld p))) as Hm by (rewrite Hm3, Hm2; apply delete_insert_eq).
    split; [|done]. constructor; simpl; [done|done|]. rewrite Hm.
    intros l' x [_ Hx]%lookup_delete_Some. by apply (Hr l').
  - replace (ref_count (allocation b) =? 1)%Z with false by lia. exists w1. split; [done|].
    split; [|done]. constructor; simpl; [done|done|].
    intros l' x [[<- <-]|[_ Hx]]%lookup_insert_Some; [simpl; lia|by apply (Hr l')].
Qed.

Lemma ldo_IncrRef_ok p l b :
  process_ok p → mem (pworld p) !! l = Some b → (ref_count (allocation b) < INT_MAX)%Z →
  ∃ w', ldo_IncrRef l (pworld p) = Ok w' ∧ process_ok (with_world p w').
Proof.
  intros [Hb Hc Hr] Hl Hmax. unfold ldo_IncrRef, get_block. rewrite Hl. cbn [mbind outcome_bind].
  pose proof (Hr l b Hl). rewrite s32_id by lia.
  eexists. split; [done|]. constructor; simpl; [by apply set_block_ok with b|done|].
  intros l' x [[<- <-]|[_ Hx]]%lookup_insert_Some; [simpl; lia|by apply (Hr l')].
Qed.

Lemma process_world p w :
  process_ok p → books_ok (refs_of p) w → mem w = mem (pworld p) → process_ok (with_world p w).
Proof. intros [Hb Hc Hr] Hw Hm. constructor; simpl; [done|done|]. by rewrite Hm. Qed.

Lemma RegisterPinUnpin_core_ok p c pin unpin :
  process_ok p → core_ptr p = Some c →
  ∃ p', RegisterPinUnpin_core c (Some pin) (Some unpin) p = Ok p' ∧ process_ok p' ∧
        mem (pworld p') = mem (pworld p) ∧ core_ptr p' = core_ptr p.
Proof.
  intros Hp Hc. pose proof (po_core _ Hp) as Hk. rewrite Hc in Hk. destruct Hk as (la & ea & Hk & Hne).
  pose proof (refs_of_core p c la ea Hc Hk) as Hrefs.
  unfold RegisterPinUnpin_core, get_core. rewrite Hk, lookup_singleton_eq.
  cbn [mbind outcome_bind lazy_allocator eager_allocator].
  destruct (RegisterPinUnpin_allocator_ok (refs_of p) (pworld p) ea pin unpin) as (w1 & -> & Hb1 & Hm1);
    [by apply po_books| |].
  { rewrite Hrefs, !count_cons, (decide_True _ _ (eq_refl ea)), count_nil. case_decide; lia. }
  cbn [mbind outcome_bind].
  destruct (RegisterPinUnpin_allocator_ok (refs_of p) w1 la pin unpin) as (w2 & -> & Hb2 & Hm2); [done| |].
  { rewrite Hrefs, count_cons, (decide_True _ _ (eq_refl la)). unfold count. lia. }
  cbn [mbind outcome_bind]. eexists. split; [done|]. split_and!; [|simpl; congruence|done].
  apply process_world; [done|done|congruence].
Qed.

Lemma on_block_ok p l b f :
  process_ok p → mem (pworld p) !! l = Some b →
  allocated_bytes (f (allocation b)) = allocated_bytes (allocation b) →
  (0 < ref_count (f (allocation b)) ≤ INT_MAX)%Z →
  ∃ p', on_block l f p = Ok p' ∧ process_ok p' ∧ core_ptr p' = core_ptr p.
Proof.
  intros [Hb Hc Hr] Hl Hf Hp. unfold on_block, get_block. rewrite Hl. cbn [mbind outcome_bind].
  eexists. split; [done|]. split; [|done]. constructor; simpl; [by apply set_block_ok with b|done|].
  intros l' x [[<- <-]|[_ Hx]]%lookup_insert_Some; [done|by apply (Hr l')].
Qed.

(** The block a successful allocation adds has no references yet. *)
Lemma Allocate_lunasa_safely p eager l cap :
  process_ok p → mem (pworld p) !! l = None → (0 ≤ cap)%Z → (cap + sizeof_Allocation < 2 ^ 32)%Z →
  safely (λ rp, ∃ h a, rp.1 = Some l ∧ books_ok (refs_of p) (pworld rp.2) ∧
            rp.2 = with_world p (pworld rp.2) ∧
            mem (pworld rp.2) = <[l := mkBlock (Allocate cap) h 0 [] a]> (mem (pworld p)))
    (Allocate_lunasa eager l cap p).
Proof.
  intros Hp Hl Hc Hs. pose proof (po_core _ Hp) as Hk. unfold Allocate_lunasa.
  destruct (core_ptr p) as [c|] eqn:Hcp; [|simpl; auto]. destruct Hk as (la & ea & Hk & Hne).
  pose proof (refs_of_core p c la ea Hcp Hk) as Hrefs. unfold get_core. rewrite Hk, lookup_singleton_eq.
  cbn [mbind outcome_bind lazy_allocator eager_allocator]. set (a := if eager then ea else la).
  assert (refs_of p a ≠ 0%Z) as Ha.
  { rewrite Hrefs, !count_cons, count_nil. unfold a. destruct eager; repeat case_decide; try done; lia. }
  destruct (bo_alive _ _ (po_books _ Hp) a Ha) as [A HA]. destruct (AllocatorType A) eqn:Ht.
  - destruct (Allocate_from_ok _ _ a A l cap (po_books _ Hp) Ha HA Ht Hl Hc Hs)
      as (w' & h & -> & Hb' & Hm & _). simpl. exists h, a. done.
  - unfold Allocate_from, get_allocator. rewrite HA. simpl. rewrite Ht. simpl. auto.
Qed.

Lemma insert_block_ok p w l b :
  process_ok p → books_ok (refs_of p) w → mem w = <[l := b]> (mem (pworld p)) →
  (0 < ref_count (allocation b) ≤ INT_MAX)%Z → process_ok (with_world p w).
Proof.
  intros [Hb Hc Hr] Hw Hm Hp. constructor; simpl; [done|done|]. rewrite Hm.
  intros l' x [[<- <-]|[_ Hx]]%lookup_insert_Some; [done|by apply (Hr l')].
Qed.

Lemma ldo_new_safely p eager l total meta data tag :
  process_ok p → mem (pworld p) !! l = None → (0 ≤ total)%Z → (total + 60 < 2 ^ 32)%Z →
  safely process_ok (ldo_new eager l total meta data tag p).
Proof.
  intros Hp Hl H0 Hs. unfold ldo_new. case_match; [simpl; auto|].
  pose proof (ldo_padding_range meta data) as Hpad.
  rewrite wrap_id by (unfold in_width; lia).
  eapply safely_bind; [apply Allocate_lunasa_safely; try done; unfold sizeof_Allocation; lia|].
  intros [r p1] (h & a & Hr & Hb & Hp1 & Hm). cbn [fst snd] in *. subst r.
  unfold on_block, get_block. rewrite Hm, lookup_insert_eq. simpl. rewrite Hp1.
  change (with_world (with_world p ?w) ?w') with (with_world p w').
  apply (insert_block_ok p _ l (mkBlock (setHeader (Allocate (total + ldo_padding meta data)) 1 meta data
    (ldo_padding meta data) tag) h 0 [] a)); [done| |simpl; by rewrite Hm, insert_insert_eq|simpl; unfold INT_MAX; lia].
  apply set_block_ok with (mkBlock (Allocate (total + ldo_padding meta data)) h 0 [] a); try done.
  simpl. rewrite Hm. apply lookup_insert_eq.
Qed.

Lemma RegisterMemory_ok refs w a base len h A :
  books_ok refs w → allocators w !! a = Some A →
  ∃ h' w', RegisterMemory a base len h w = Ok (h', w') ∧ books_ok refs w' ∧ mem w' = mem w ∧
           allocators w' = allocators w.
Proof.
  intros Hb HA. unfold RegisterMemory, get_allocator. rewrite HA. simpl.
  destruct (mPinFunc A) as [pin|]; [|by exists 0%Z, w].
  eexists _, _. split; [done|]. split; [|done]. by apply books_log with w.
Qed.

Lemma ldo_new_user_safely p l user_mem meta data :
  process_ok p → mem (pworld p) !! l = None →
  safely process_ok (ldo_new_user l user_mem meta data p).
Proof.
  intros Hp Hl. unfold ldo_new_user.
  eapply safely_bind; [apply Allocate_lunasa_safely; try done; unfold sizeof_Allocation; lia|].
  intros [r p1] (h & a & Hr & Hb & Hp1 & Hm). cbn [fst snd] in *. subst r.
  unfold get_block. rewrite Hm, lookup_insert_eq. cbn [mbind outcome_bind owner].
  assert (mem (pworld p1) !! l = Some (mkBlock (Allocate 0) h 0 [] a)) as Hl1
    by (rewrite Hm; apply lookup_insert_eq).
  destruct (bo_mem _ _ Hb l _ Hl1) as [(A & HA & _) _]. cbn [owner] in HA.
  destruct (RegisterMemory_ok _ _ a user_mem (u32 (meta + data)) 0 A Hb HA)
    as (h' & w' & -> & Hb' & Hm' & _). cbn [mbind outcome_bind safely]. rewrite Hp1.
  change (with_world (with_world p ?w) ?w') with (with_world p w').
  eapply (insert_block_ok p _ l); [done| |simpl; by rewrite Hm', Hm, insert_insert_eq|simpl; unfold INT_MAX; lia].
  eapply set_block_ok; [done|by rewrite Hm'|done|done].
Qed.

(** Registration on demand keeps the books; it is also the only change the four queries make. *)
Lemma ensure_pinned_ok p l b' w' :
  process_ok p → ensure_pinned l (pworld p) = Ok (b', w') →
  process_ok (with_world p w') ∧ mem w' !! l = Some b'.
Proof.
  intros Hp He. unfold ensure_pinned, get_block in He.
  destruct (mem (pworld p) !! l) as [b|] eqn:Hl; [|done]. cbn [mbind outcome_bind] in He.
  destruct (Z.eqb_spec (net_buffer_handle b) 0) as [Hz|Hz].
  2:{ injection He as <- <-. by destruct p. }
  destruct (bo_mem _ _ (po_books _ Hp) l b Hl) as [(A & HA & _) _].
  unfold get_allocator in He. rewrite HA in He. cbn [mbind outcome_bind] in He.
  destruct (F_ASSERT _); [|done]. cbn [mbind outcome_bind] in He.
  destruct (RegisterMemory_ok _ _ (owner b) l (allocated_bytes (allocation b)) 0 A (po_books _ Hp) HA)
    as (h & w1 & Hreg & Hb1 & Hm1 & _). rewrite Hreg in He. cbn [mbind outcome_bind] in He.
  injection He as <- <-. split; [|apply lookup_insert_eq].
  eapply (insert_block_ok p _ l); [done| |simpl; by rewrite Hm1|].
  - eapply set_block_ok; [done|by rewrite Hm1|done|done].
  - exact (po_refs _ Hp l b Hl).
Qed.

Definition fresh_ids (c u la ea : nat) (p : process) : Prop :=
  cores p !! c = None ∧ NoDup [u; la; ea] ∧
  Forall (λ a, allocators (pworld p) !! a = None) [u; la; ea].

(** The allocators through the constructor and [init] of the core. *)
Lemma swap_allocators_ok refs w u la ea t1 e1 t2 e2 :
  books_ok refs w → (∀ a, refs a = 0%Z) → NoDup [u; la; ea] →
  Forall (λ a, allocators w !! a = None) [u; la; ea] →
  ∃ w1 w2 w3, IncrRef_allocator u (set_allocator u (AllocatorBase unconfigured false) w) = Ok w1 ∧
    DecrRef_allocator u (set_allocator ea (AllocatorBase t2 e2) (set_allocator la (AllocatorBase t1 e1) w1))
      = Ok w2 ∧
    DecrRef_allocator u w2 = Ok w3 ∧ books_ok (λ a, count a [la; ea]) w3 ∧ mem w3 = mem w.
Proof.
  intros Hb H0 Hnd Hfr. apply NoDup_cons in Hnd as [Hu Hnd]. apply NoDup_cons in Hnd as [Hl _].
  rewrite !Forall_cons in Hfr. destruct Hfr as (Fu & Fl & Fe & _).
  assert (u ≠ la ∧ u ≠ ea ∧ la ≠ ea) as (N1 & N2 & N3) by set_solver.
  pose proof (new_allocator_ok refs w u unconfigured false Hb Fu) as Hb0.
  destruct (IncrRef_allocator_ok _ _ u Hb0) as (w1 & E1 & Hb1 & Hm1 & Hf1);
    [rewrite bump_eq, H0; lia|].
  assert (allocators w1 !! la = None ∧ allocators w1 !! ea = None) as [Fl1 Fe1].
  { rewrite !Hf1 by done. simpl. by rewrite !lookup_insert_ne. }
  pose proof (new_allocator_ok _ w1 la t1 e1 Hb1 Fl1) as Hb2.
  pose proof (new_allocator_ok _ (set_allocator la (AllocatorBase t1 e1) w1) ea t2 e2 Hb2) as Hb3.
  specialize (Hb3 ltac:(simpl; by rewrite lookup_insert_ne)).
  destruct (DecrRef_allocator_ok _ _ u Hb3) as (w2 & E2 & Hb4 & Hm2 & _ & _);
    [rewrite !bump_ne, !bump_eq, H0 by done; lia|].
  destruct (DecrRef_allocator_ok _ _ u Hb4) as (w3 & E3 & Hb5 & Hm3 & _ & _);
    [rewrite bump_eq, !bump_ne, !bump_eq, H0 by done; lia|].
  exists w1, w2, w3. split_and!; [done|done|done| |by rewrite Hm3, Hm2; simpl; rewrite Hm1].
  eapply books_ext; [|exact Hb5]. intros a. unfold bump. rewrite !count_cons, count_nil.
  repeat case_decide; subst; rewrite ?H0; try done; lia.
Qed.

(** The core after [init], before the pin functions are handed over. *)
Lemma init_core_safely p c u la ea config :
  process_ok p → core_ptr p = None → fresh_ids c u la ea p →
  safely (λ p', process_ok p' ∧ mem (pworld p') = mem (pworld p) ∧ core_ptr p' = Some c)
    (p1 ← new_LunasaCoreSplit c u p; init_core c la ea config (with_ptr p1 (Some c))).
Proof.
  intros [Hb Hc Hr] Hcp (Fc & Hnd & Hfr). rewrite Hcp in Hc.
  pose proof (refs_of_none p Hcp) as H0.
  pose proof (λ t1 e1 t2 e2, swap_allocators_ok _ _ u la ea t1 e1 t2 e2 Hb H0 Hnd Hfr) as Hswap.
  destruct (Hswap malloc false malloc false) as (w1 & _ & _ & E1 & _).
  unfold new_LunasaCoreSplit. change (createAllocator (lit "unconfigured") false)
    with (Ok (AllocatorBase unconfigured false)). cbn [mbind outcome_bind]. rewrite E1.
  unfold init_core, get_core. generalize (GetLowercaseString config (lit "lunasa.lazy_memory_manager") (lit "malloc")).2 as lmm.
  generalize (GetLowercaseString config (lit "lunasa.eager_memory_manager") (lit "malloc")).2 as emm.
  intros emm lmm. simpl. rewrite lookup_insert_eq. simpl. unfold init_split.
  eapply safely_bind; [eapply safely_bind; [apply createAllocator_safely|]|].
  { intros L (t1 & e1 & ->). eapply safely_bind; [apply createAllocator_safely|].
    intros E (t2 & e2 & ->). destruct (Hswap t1 e1 t2 e2) as (w1' & w2 & w3 & E1' & E2 & E3 & Hb3 & Hm3).
    assert (w1' = w1) as -> by congruence. unfold get_core. simpl. rewrite lookup_insert_eq.
    cbn [mbind outcome_bind lazy_allocator eager_allocator]. rewrite E2. cbn [mbind outcome_bind].
    rewrite E3. cbn [mbind outcome_bind safely].
    instantiate (1 := λ p', cores p' = {[c := mkCore false la ea]} ∧ core_ptr p' = Some c ∧
      books_ok (λ a, count a [la; ea]) (pworld p') ∧ mem (pworld p') = mem (pworld p)).
    simpl. by rewrite insert_insert_eq, Hc, insert_empty. }
  intros p' (Hk & Hp' & Hb' & Hm). unfold get_core. rewrite Hk, lookup_singleton_eq. simpl.
  split_and!; [|done|done]. constructor; simpl; rewrite ?Hp'; [|eexists _, _; split|by rewrite Hm].
  - eapply books_ext; [|exact Hb']. intros a. unfold refs_of, slots. simpl. by rewrite Hp', lookup_insert_eq.
  - by rewrite Hk, insert_singleton_eq.
  - apply NoDup_cons in Hnd as [_ Hnd]. apply NoDup_cons in Hnd as [Hl _]. set_solver.
Qed.

Lemma with_hooks_ok p h : process_ok p → process_ok (with_hooks p h).
Proof. by intros [Hb Hc Hr]. Qed.

Lemma Init_safely p c u la ea config :
  process_ok p → fresh_ids c u la ea p →
  safely (λ p', process_ok p' ∧ mem (pworld p') = mem (pworld p) ∧ core_ptr p' = Some c)
    (Init c u la ea config p).
Proof.
  intros Hp Hfr. unfold Init, IsUnconfigured. case_bool_decide as Hc; [simpl; auto|].
  cbn [negb]. case_match; [simpl; auto|]. case_match; [|simpl; auto].
  assert (core_ptr p = None) as Hcp by (by apply eq_None_not_Some).
  set (p1 := mkProcess _ _ _ _ _ _).
  assert (process_ok p1) as Hp1 by (by destruct Hp).
  pose proof (init_core_safely p1 c u la ea config Hp1 Hcp Hfr) as Hi.
  destruct (new_LunasaCoreSplit c u p1) as [p2|e]; [|done]. cbn [mbind outcome_bind] in *.
  eapply safely_bind; [exact Hi|]. intros p3 (Hp3 & Hm3 & Hc3).
  destruct (pin_functions p3) as [[pin unpin]|].
  - destruct (RegisterPinUnpin_core_ok p3 c pin unpin Hp3 Hc3) as (p4 & -> & Hp4 & Hm4 & Hc4).
    cbn [mbind outcome_bind safely]. split_and!; [by apply with_hooks_ok|etrans; [exact Hm4|exact Hm3]|simpl; congruence].
  - cbn [mbind outcome_bind safely]. split_and!; [by apply with_hooks_ok|done|done].
Qed.

(** The operations of a process, with legal arguments: fresh addresses where something is made,
    live objects where one is shared or dropped. *)
Inductive lunasa_op :=
| OpInit (c u la ea : nat) (config : Configuration)
| OpStart
| OpFinish
| OpRegister (pin : pin_fn) (unpin : unpin_fn)
| OpRegisterCore (pin : pin_fn) (unpin : unpin_fn)
| OpNew (eager : bool) (l : nat) (total meta data tag : Z)
| OpNewUser (l user_mem : nat) (meta data : Z)
| OpShare (l : nat)
| OpDrop (cleanup : bool) (l : nat).

Definition legal (o : lunasa_op) (p : process) : Prop :=
  match o with
  | OpInit c u la ea _ => fresh_ids c u la ea p
  | OpNew _ l total _ _ _ => mem (pworld p) !! l = None ∧ (0 ≤ total)%Z ∧ (total + 60 < 2 ^ 32)%Z
  | OpNewUser l _ _ _ => mem (pworld p) !! l = None
  | OpShare l => ∃ b, mem (pworld p) !! l = Some b ∧ (ref_count (allocation b) < INT_MAX)%Z
  | OpDrop _ l => is_Some (mem (pworld p) !! l)
  | _ => True
  end.

Definition run_op (o : lunasa_op) (p : process) : outcome process :=
  match o with
  | OpInit c u la ea config => Init c u la ea config p
  | OpStart => Start p
  | OpFinish => Finish p
  | OpRegister pin unpin => RegisterPinUnpin_singleton pin unpin p
  | OpRegisterCore pin unpin => RegisterPinUnpin pin unpin p
  | OpNew eager l total meta data tag => ldo_new eager l total meta data tag p
  | OpNewUser l user_mem meta data => ldo_new_user l user_mem meta data p
  | OpShare l => w ← ldo_IncrRef l (pworld p); Ok (with_world p w)
  | OpDrop cleanup l => w ← ldo_DecrRef cleanup l (pworld p); Ok (with_world p w)
  end.

Lemma run_op_safely o p : process_ok p → legal o p → safely process_ok (run_op o p).
Proof.
  intros Hp Hl. destruct o; simpl in *.
  - eapply safely_impl; [by apply Init_safely|]. naive_solver.
  - unfold Start. case_match; simpl; auto.
  - destruct (lunasa_Finish_ok p Hp) as (p' & -> & Hp' & _). done.
  - unfold RegisterPinUnpin_singleton. simpl. set (p1 := mkProcess _ _ _ _ _ _).
    assert (process_ok p1) as Hp1 by (by destruct Hp). destruct (core_ptr p) as [c|] eqn:Hc; [|done].
    destruct (RegisterPinUnpin_core_ok p1 c pin unpin Hp1 eq_refl) as (p' & -> & Hp' & _). done.
  - unfold RegisterPinUnpin. destruct (core_ptr p) as [c|] eqn:Hc; [|simpl; auto].
    destruct (RegisterPinUnpin_core_ok p c pin unpin Hp Hc) as (p' & -> & Hp' & _). done.
  - destruct Hl as (Hl & H0 & Hs). by apply ldo_new_safely.
  - by apply ldo_new_user_safely.
  - destruct Hl as (b & Hl & Hmax). destruct (ldo_IncrRef_ok p l b Hp Hl Hmax) as (w' & -> & Hw). done.
  - destruct Hl as [b Hl]. destruct (ldo_DecrRef_ok p cleanup l b Hp Hl) as (w' & -> & Hw & _). done.
Qed.

Inductive lunasa_reach : process → Prop :=
| reach_empty : lunasa_reach empty_process
| reach_op o p p' : lunasa_reach p → legal o p → run_op o p = Ok p' → lunasa_reach p'.

Lemma reach_process_ok p : lunasa_reach p → process_ok p.
Proof.
  induction 1 as [|o p p' _ IH Hl Ho]; [apply empty_process_ok|].
  pose proof (run_op_safely o p IH Hl) as Hs. by rewrite Ho in Hs.
Qed.

(** C35: however a process starts and stops Lunasa, registers pin functions and makes, shares and
    drops objects (whose capacity and the 60 bytes of padding and bookkeeping are below 4 GB, and
    with at most 2^31 - 1 handles of each), no operation touches memory or an allocator that is gone and no assertion
    fails; the handle of an object can be dropped at any time, also after Lunasa was finished;
    and once Lunasa is finished and all objects are dropped no allocator is left. *)
Theorem lunasa_memory_safe p :
  lunasa_reach p →
  (∀ o, legal o p → safely lunasa_reach (run_op o p)) ∧
  (∀ cleanup l, is_Some (mem (pworld p) !! l) → ∃ p', run_op (OpDrop cleanup l) p = Ok p') ∧
  (∃ p', Finish p = Ok p' ∧ mem (pworld p') = mem (pworld p)) ∧
  (core_ptr p = None → mem (pworld p) = ∅ → allocators (pworld p) = ∅).
Proof.
  intros Hr. pose proof (reach_process_ok p Hr) as Hp. split_and!.
  - intros o Hl. pose proof (run_op_safely o p Hp Hl) as Hs.
    destruct (run_op o p) as [p'|e] eqn:Ho; [|exact Hs]. simpl. by eapply reach_op.
  - intros cleanup l [b Hl]. destruct (ldo_DecrRef_ok p cleanup l b Hp Hl) as (w' & Hd & _).
    simpl. rewrite Hd. eauto.
  - destruct (lunasa_Finish_ok p Hp) as (p' & Hf & _ & _ & Hm). eauto.
  - intros Hc Hm. apply map_empty. intros a. destruct (allocators (pworld p) !! a) as [A|] eqn:HA; [|done].
    pose proof (bo_each _ _ (po_books _ Hp) a A HA) as [_ _ Hk Hlist _ _ _].
    rewrite (refs_of_none p Hc) in Hk. destruct (Hk eq_refl). apply elem_of_equiv_empty_L.
    intros l (b & Hl & _)%Hlist. by rewrite Hm, lookup_empty in Hl.
Qed.

(** the total that Lunasa reports as allocated is the number of bytes of the live objects of
    its allocators, at 64 bits. *)
Theorem total_allocated_exact p c k L E :
  lunasa_reach p → core_ptr p = Some c → cores p !! c = Some k →
  allocators (pworld p) !! lazy_allocator k = Some L → AllocatorType L = malloc →
  allocators (pworld p) !! eager_allocator k = Some E → AllocatorType E = malloc →
  TotalAllocated p
  = Ok (u64 (bytes_of (lazy_allocator k) (mem (pworld p)) + bytes_of (eager_allocator k) (mem (pworld p)))).
Proof.
  intros Hr Hc Hk HL HtL HE HtE. pose proof (reach_process_ok p Hr) as Hp.
  unfold TotalAllocated, get_core, get_allocator. rewrite Hc, Hk. simpl. rewrite HL. simpl. rewrite HE. simpl.
  rewrite HtL, HtE, (ao_total _ _ _ _ (bo_each _ _ (po_books _ Hp) _ _ HL)),
    (ao_total _ _ _ _ (bo_each _ _ (po_books _ Hp) _ _ HE)).
  f_equal. unfold wrap. by rewrite <-Zplus_mod.
Qed.

(** the header handle of an object covers its header and user section and nothing else, and
    leaves the object registered; an object that is registered keeps its handle. *)
Theorem header_handle_spec p l b A :
  lunasa_reach p → mem (pworld p) !! l = Some b → user_data_segments (allocation b) = [] →
  block_net_offset b = 0%Z → allocators (pworld p) !! owner b = Some A →
  net_buffer_handle b ≠ 0%Z ∨ mEagerPinning A = false →
  ∃ h w', GetHeaderRdmaHandles (Some l) (pworld p)
          = Ok ([mkDesc h offsetof_header (allocated_bytes (allocation b) - offsetof_header)], w') ∧
    GetHeaderRdmaHandle (Some l) (pworld p) = Ok (h, offsetof_header, w') ∧
    (net_buffer_handle b ≠ 0%Z → h = net_buffer_handle b) ∧
    isPinned (Some l) w' = Ok (negb (h =? 0)%Z) ∧ process_ok (with_world p w').
Proof.
  intros Hr Hl Hu Ho HA Hpin. pose proof (reach_process_ok p Hr) as Hp.
  destruct (bo_mem _ _ (po_books _ Hp) l b Hl) as [_ Hsz]. unfold sizeof_Allocation in Hsz.
  assert (∃ h w', ensure_pinned l (pworld p)
            = Ok (mkBlock (allocation b) h (block_net_offset b) (segment_handles b) (owner b), w') ∧
            (net_buffer_handle b ≠ 0%Z → h = net_buffer_handle b)) as (h & w' & He & Hh).
  { unfold ensure_pinned, get_block, get_allocator. rewrite Hl. cbn [mbind outcome_bind].
    destruct (Z.eqb_spec (net_buffer_handle b) 0) as [Hz|Hz].
    - destruct Hpin as [|Hlazy]; [done|]. rewrite HA. cbn [mbind outcome_bind]. rewrite Hlazy.
      cbn [negb F_ASSERT mbind outcome_bind].
      destruct (RegisterMemory_ok _ _ (owner b) l (allocated_bytes (allocation b)) 0 A (po_books _ Hp) HA)
        as (h & w1 & -> & _). cbn [mbind outcome_bind]. by eexists _, _.
    - exists (net_buffer_handle b), (pworld p). split; [by destruct b|done]. }
  destruct (ensure_pinned_ok p l _ w' Hp He) as [Hp' Hl'].
  assert (GetHeaderRdmaHandles (Some l) (pworld p)
          = Ok ([mkDesc h offsetof_header (allocated_bytes (allocation b) - offsetof_header)], w')) as HG.
  { unfold GetHeaderRdmaHandles. rewrite He. cbn [mbind outcome_bind]. unfold user_segment_desc.
    cbn [allocation]. rewrite Hu. cbn [mbind outcome_bind net_buffer_handle block_net_offset allocation].
    rewrite Ho. unfold offsetof_header. by unwrap. }
  exists h, w'. split_and!; [done| |done| |done].
  - unfold GetHeaderRdmaHandle. by rewrite HG.
  - unfold isPinned, get_block. by rewrite Hl'.
Qed.

(** * What does not work *)

(** the data handle of an object made from user memory is never one of that memory: with a
    meta section the assertion on the sizes fails, and without one the descriptor names the
    object's own block, from its end on. *)
Theorem user_data_handle l b w user_mem meta data :
  mem w !! l = Some b → net_buffer_handle b ≠ 0%Z → block_net_offset b = 0%Z →
  allocation b = user_allocation user_mem meta data →
  (0 ≤ meta < 2 ^ 16)%Z → (0 ≤ data)%Z → (meta + data < 2 ^ 32)%Z →
  GetDataRdmaHandles (Some l) w
  = if (meta =? 0)%Z
    then Ok ([mkDesc (net_buffer_handle b) (allocated_bytes (allocation b)) data], w)
    else Throw AssertFailed.
Proof.
  intros Hl Hh Ho Ha Hm Hd Hs. unfold GetDataRdmaHandles, ensure_pinned, get_block. rewrite Hl.
  cbn [mbind outcome_bind]. apply Z.eqb_neq in Hh as Hh'. rewrite Hh'. cbn [mbind outcome_bind].
  rewrite Ha, Ho. assert (user_allocation user_mem meta data
    = mkAllocation 1 sizeof_Allocation 0 [mkSegment user_mem meta data] 0 meta data) as ->.
  { unfold user_allocation, AddUserDataSegment, Allocate, sizeof_Allocation. simpl. f_equal; by unwrap. }
  cbn [allocated_bytes user_data_segments meta_bytes data_bytes seg_size].
  rewrite Z.eqb_refl. unfold offsetof_user, sizeof_Allocation. unwrap.
  destruct (Z.eqb_spec meta 0) as [->|Hne].
  - rewrite Z.eqb_refl. simpl. done.
  - by replace (data =? meta + data)%Z with false by lia.
Qed.

Definition default_config : Configuration := mkConfig (lit "default") ∅.
Definition malloc_config : Configuration :=
  mkConfig (lit "default") {[lit "lunasa.eager_memory_manager" := lit "malloc"]}.

Definition run_all (os : list lunasa_op) : outcome process :=
  fold_left (λ r o, p ← r; run_op o p) os (Ok empty_process).

(** Without a setting the singleton takes the eager manager to be tcmalloc, also where the core
    uses malloc, and refuses to start a second time. *)
Example default_restart_refused :
  match run_all [OpInit 1 2 3 4 default_config; OpFinish] with
  | Ok p => Init 1 2 3 4 default_config p
  | Throw e => Throw Exit
  end = Throw RuntimeError.
Proof. vm_compute. done. Qed.

(** The pages of the core stay registered when it is deleted. *)
Example page_after_finish :
  match run_all [OpInit 1 2 3 4 malloc_config; OpFinish] with
  | Ok p => lunasa_page hook_status p
  | Throw e => Throw Exit
  end = Throw Undefined.
Proof. vm_compute. done. Qed.

(** The registration of user memory is never undone. *)
Example user_memory_stays_pinned :
  match run_all [OpInit 1 2 3 4 malloc_config; OpNewUser 7 9 0 100; OpDrop true 7] with
  | Ok p => log (pworld p)
  | Throw e => []
  end = [Pinned 7 56 1; Pinned 9 100 1; CleanedUp 9; Unpinned 1].
Proof. vm_compute. done. Qed.

(** * Concrete processes *)

Lemma reach_run os p :
  (∀ k o p', os !! k = Some o → run_all (take k os) = Ok p' → legal o p') →
  run_all os = Ok p → lunasa_reach p.
Proof.
  revert p. induction os as [|o os IH] using rev_ind; intros p Hl Hr.
  - injection Hr as <-. constructor.
  - unfold run_all in Hr. rewrite fold_left_app in Hr. cbn [fold_left] in Hr.
    apply bind_Ok in Hr as (p0 & H0 & Ho). apply (reach_op o p0); [apply IH| |done].
    + intros k o' p' Hk Ht. apply (Hl k o' p'); [by apply lookup_app_l_Some|].
      rewrite take_app_le; [done|]. apply lookup_lt_Some in Hk. lia.
    + exact H0.
    + apply (Hl (length os) o p0); [by rewrite lookup_app_r, Nat.sub_diag by lia|].
      by rewrite take_app_length.
Qed.

(** Lunasa is started, an object is made and Lunasa finished; the object is still there. *)
Definition sample_ops : list lunasa_op :=
  [OpInit 1 2 3 4 malloc_config; OpNew true 7 100 20 30 5; OpFinish].

Lemma sample_reach p : run_all sample_ops = Ok p → lunasa_reach p.
Proof.
  intros Hp. apply (reach_run sample_ops); [|exact Hp]. clear. intros k o p Hk Ht.
  destruct k as [|[|[|k]]]; [..|done]; vm_compute in Hk, Ht; injection Hk as <-; injection Ht as <-.
  - split_and!; [done| |repeat constructor]. apply (bool_decide_unpack _). by vm_compute.
  - split_and!; [done|lia|lia].
  - done.
Qed.

Lemma lunasa_memory_safe_witness :
  ∃ p, run_all sample_ops = Ok p ∧ core_ptr p = None ∧
       size (allocators (pworld p)) = 1 ∧ ∃ p', run_op (OpDrop false 7) p = Ok p'.
Proof.
  destruct (run_all sample_ops) as [p|] eqn:Hp; [|vm_compute in Hp; discriminate Hp].
  destruct (lunasa_memory_safe p (sample_reach p Hp)) as (_ & Hd & _). exists p. split; [done|].
  vm_compute in Hp. injection Hp as <-. split_and!; [done|by vm_compute|].
  apply Hd. vm_compute. eauto.
Defined.

Lemma total_allocated_witness :
  ∃ p, run_all (take 2 sample_ops) = Ok p ∧ TotalAllocated p = Ok 158%Z.
Proof.
  destruct (run_all (take 2 sample_ops)) as [p|] eqn:Hp; [|vm_compute in Hp; discriminate Hp].
  assert (lunasa_reach p) as Hr.
  { apply (reach_run (take 2 sample_ops)); [|exact Hp]. clear. intros k o p Hk Ht.
    destruct k as [|[|k]]; [..|done]; vm_compute in Hk, Ht; injection Hk as <-; injection Ht as <-.
    - split_and!; [done| |repeat constructor]. apply (bool_decide_unpack _). by vm_compute.
    - split_and!; [done|lia|lia]. }
  exists p. split; [done|]. vm_compute in Hp. injection Hp as Hp.
  assert (core_ptr p = Some 1 ∧ cores p !! 1 = Some (mkCore true 3 4)) as [H1 H2] by (by rewrite <-Hp).
  destruct (allocators (pworld p) !! 3) as [L|] eqn:HL; [|by rewrite <-Hp in HL].
  destruct (allocators (pworld p) !! 4) as [E|] eqn:HE; [|by rewrite <-Hp in HE].
  etrans; [apply (total_allocated_exact p 1 (mkCore true 3 4) L E); try done|].
  - rewrite <-Hp in HL. vm_compute in HL. by injection HL as <-.
  - rewrite <-Hp in HE. vm_compute in HE. by injection HE as <-.
  - rewrite <-Hp. vm_compute. done.
Defined.

Lemma header_handle_witness :
  ∃ p h w', run_all sample_ops = Ok p ∧
    GetHeaderRdmaHandle (Some 7) (pworld p) = Ok (h, offsetof_header, w') ∧ h = 1%Z.
Proof.
  destruct (run_all sample_ops) as [p|] eqn:Hp; [|vm_compute in Hp; discriminate Hp].
  pose proof (sample_reach p Hp) as Hr. vm_compute in Hp. injection Hp as Hp.
  destruct (mem (pworld p) !! 7) as [b|] eqn:Hl; [|by rewrite <-Hp in Hl].
  destruct (allocators (pworld p) !! 4) as [A|] eqn:HA; [|by rewrite <-Hp in HA].
  assert (b = mkBlock (mkAllocation 1 158 2 [] 5 20 30) 1 0 [] 4) as ->
    by (rewrite <-Hp in Hl; vm_compute in Hl; by injection Hl as <-).
  destruct (header_handle_spec p 7 _ A Hr Hl) as (h & w' & _ & Hh & Hk & _); try done; [by left|].
  exists p, h, w'. split; [by rewrite <-Hp; vm_compute|]. split; [exact Hh|]. by apply Hk.
Defined.

Lemma user_data_handle_witness :
  GetDataRdmaHandles (Some 7) (mkWorld ∅ {[7 := mkBlock (user_allocation 9 0 100) 1 0 [1%Z] 4]} [])
  = Ok ([mkDesc 1 56 100], mkWorld ∅ {[7 := mkBlock (user_allocation 9 0 100) 1 0 [1%Z] 4]} []).
Proof.
  etrans; [apply (user_data_handle 7 (mkBlock (user_allocation 9 0 100) 1 0 [1%Z] 4) _ 9 0 100)|];
    try done; vm_compute; done.
Defined.
