(* ===== verification/NetNnti.v ===== *)
(** The network module of OpBox over NNTI (src/src/opbox/net/nnti/NetNnti.cpp, src/src/opbox/net/net.cpp).

    Windows into remote buffers; the work requests made for messages, gets, puts and atomic
    operations on data objects; what their callbacks do with the handles of the objects; messages
    that arrive; the table of peers with connecting and disconnecting; the translation of the
    configuration and the attributes.  The requests go to the transport of NntiMpi. *)
From S2P Require Import Prelude Allocators StringHelpers Identifiers Configuration DataObject LdoBytes.
From S2P Require Import NntiBuffers NntiMpi.
Import EventQueue.

(** * Windows into remote buffers

    [packed] is the handle of the buffer in the form in which it travels; here it is the handle
    itself, its address and length. *)

Record NntiBufferRemote := mkNbr { nbr_offset : Z; nbr_length : Z; packed : Z * Z }.

(** [makeRemoteBuffer]; the fields have 32 bits. *)
Definition makeRemoteBuffer (hdl : Z * Z) (remote_offset remote_length : Z) : NntiBufferRemote :=
  mkNbr (u32 remote_offset) (u32 remote_length) hdl.

Definition GetOffset (b : NntiBufferRemote) : Z := nbr_offset b.
Definition GetLength (b : NntiBufferRemote) : Z := nbr_length b.

Definition IncreaseOffset (addend : Z) (b : NntiBufferRemote) : Z * NntiBufferRemote :=
  if (addend <? nbr_length b)%Z
  then (0%Z, mkNbr (u32 (nbr_offset b + addend)) (u32 (nbr_length b - addend)) (packed b))
  else ((-1)%Z, b).

Definition DecreaseLength (subtrahend : Z) (b : NntiBufferRemote) : Z * NntiBufferRemote :=
  if (subtrahend <? nbr_length b)%Z
  then (0%Z, mkNbr (nbr_offset b) (u32 (nbr_length b - subtrahend)) (packed b))
  else ((-1)%Z, b).

Definition TrimToLength (length : Z) (b : NntiBufferRemote) : Z * NntiBufferRemote :=
  if (length <? nbr_length b)%Z
  then (0%Z, mkNbr (nbr_offset b) length (packed b))
  else ((-1)%Z, b).

(** * Objects in registered memory

    [r_buffer] is the handle of the registered buffer an object lies in and [r_base] the place of
    its first byte there.  The handles are those of Allocators for an object without user memory
    ([handles_agree]): the section they are for has to be in the allocation, and the one of the
    data section is only given for an allocation without room to spare. *)

Record pinned := mkPinned { r_buffer : Z; r_base : Z; r_alloc : Allocation }.

Definition BaseHandle (o : pinned) : Z * Z := (r_buffer o, r_base o).
Definition HeaderHandle (o : pinned) : Z * Z := (r_buffer o, u32 (r_base o + offsetof_header)).

Definition section_handle (fits : bool) (o : pinned) (offset : Z) : outcome (Z * Z) :=
  if (allocated_bytes (r_alloc o) =? sizeof_Allocation)%Z then Throw Undefined
  else if (sizeof_Allocation <? allocated_bytes (r_alloc o))%Z then
    _ ← F_ASSERT fits; Ok (r_buffer o, u32 (r_base o + offset))
  else Throw AssertFailed.

Definition MetaHandle (o : pinned) : outcome (Z * Z) :=
  let a := r_alloc o in
  section_handle (offsetof_user + meta_bytes a <=? allocated_bytes a)%Z o offsetof_user.

Definition DataHandle (o : pinned) : outcome (Z * Z) :=
  let a := r_alloc o in
  section_handle (allocated_bytes a =? offsetof_user + meta_bytes a + data_bytes a + padding a)%Z
    o (offsetof_user + meta_bytes a).

(** Header, meta data, data and padding. *)
Definition whole_size (a : Allocation) : Z :=
  u32 (GetHeaderSize + meta_bytes a + data_bytes a + padding a).

(** [GetRdmaPtr] with its three sets of arguments; [length_of] is the length of a registered buffer. *)
Definition GetRdmaPtr_adjust (length_of : Z → Z) (o : pinned) (remote_offset_adjust remote_length : Z)
    : NntiBufferRemote :=
  let '(h, offset) := BaseHandle o in
  makeRemoteBuffer (h, length_of h) (u32 (offset + remote_offset_adjust)) remote_length.

Definition GetRdmaPtr_length (length_of : Z → Z) (o : pinned) (remote_length : Z) : NntiBufferRemote :=
  GetRdmaPtr_adjust length_of o offsetof_header remote_length.

Definition GetRdmaPtr (length_of : Z → Z) (o : pinned) : NntiBufferRemote :=
  GetRdmaPtr_adjust length_of o offsetof_header (whole_size (r_alloc o)).

(** * Work requests *)

Record nnti_attrs := mkAttrs { mtu : Z; max_eager_size : Z }.

(** [SendMsg]: the request and whether it is zero-copy. *)
Definition send_request (attrs : nnti_attrs) (use_zero_copy : bool) (peer : Z) (msg : pinned)
    : outcome (work_request * bool) :=
  let a := r_alloc msg in
  if use_zero_copy && (u32 (meta_bytes a + data_bytes a) <=? mtu attrs)%Z then
    '(h, off) ← MetaHandle msg;
    Ok (mkWr NNTI_OP_SEND peer h off None 0 (u32 (meta_bytes a + data_bytes a + padding a)) 0 0, true)
  else
    '(h, off) ← DataHandle msg;
    Ok (mkWr NNTI_OP_SEND peer h off None 0 (u32 (data_bytes a + padding a)) 0 0, false).

(** The check of a get: offsets and length are multiples of four, or the process ends. *)
Definition aligned4 (wr : work_request) : bool :=
  (local_offset wr mod 4 =? 0)%Z && (remote_offset wr mod 4 =? 0)%Z && (wr_length wr mod 4 =? 0)%Z.

Definition checked (wr : work_request) : outcome work_request :=
  if aligned4 wr then Ok wr else Throw Exit.

(** [Get] of an entire object. *)
Definition Get (peer : Z) (nbr : NntiBufferRemote) (local_ldo : pinned) : outcome work_request :=
  let '(h, off) := HeaderHandle local_ldo in
  checked (mkWr NNTI_OP_GET peer h off (Some (packed nbr)) (nbr_offset nbr)
    (Z.min (whole_size (r_alloc local_ldo)) (nbr_length nbr)) 0 0).

(** [Get] of a subset: the padding is added to the length. *)
Definition Get_part (peer : Z) (nbr : NntiBufferRemote) (remote_offset : Z) (local_ldo : pinned)
    (local_offset length : Z) : outcome work_request :=
  let '(h, off) := HeaderHandle local_ldo in
  checked (mkWr NNTI_OP_GET peer h (u64 (off + local_offset)) (Some (packed nbr))
    (u64 (nbr_offset nbr + remote_offset)) (u64 (length + padding (r_alloc local_ldo))) 0 0).

(** [Put] of an entire object and of a subset. *)
Definition Put (peer : Z) (local_ldo : pinned) (nbr : NntiBufferRemote) : work_request :=
  let '(h, off) := HeaderHandle local_ldo in
  mkWr NNTI_OP_PUT peer h off (Some (packed nbr)) (nbr_offset nbr)
    (Z.min (whole_size (r_alloc local_ldo)) (nbr_length nbr)) 0 0.

Definition Put_part (peer : Z) (local_ldo : pinned) (local_offset : Z) (nbr : NntiBufferRemote)
    (remote_offset length : Z) : work_request :=
  let '(h, off) := HeaderHandle local_ldo in
  mkWr NNTI_OP_PUT peer h (u64 (off + local_offset)) (Some (packed nbr))
    (u64 (nbr_offset nbr + remote_offset)) length 0 0.

(** [Atomic] with none, one and two operands; the operation that is asked for is not looked at. *)
Inductive AtomicOp := FetchAdd | CompareSwap.

Definition Atomic (peer : Z) (op : AtomicOp) (local_ldo : pinned) (local_offset : Z)
    (nbr : NntiBufferRemote) (remote_offset length : Z) (operands : list Z)
    : outcome (option work_request) :=
  let request op o1 o2 :=
    '(h, off) ← DataHandle local_ldo;
    Ok (Some (mkWr op peer h (u64 (off + local_offset)) (Some (packed nbr)) (u64 (nbr_offset nbr + remote_offset))
                8 o1 o2)) in
  match operands with
  | [] => Ok None
  | [operand] => request NNTI_OP_ATOMIC_FADD operand 0%Z
  | operand1 :: operand2 :: _ => request NNTI_OP_ATOMIC_CSWAP operand1 operand2
  end.

(** * Callbacks *)

(** The update an op is called with. *)
Inductive update := send_success | put_success | get_success | atomic_success.

Definition event_to_update_type (t : NNTI_event_type_t) : outcome update :=
  match t with
  | NNTI_EVENT_SEND => Ok send_success
  | NNTI_EVENT_PUT => Ok put_success
  | NNTI_EVENT_GET => Ok get_success
  | NNTI_EVENT_ATOMIC => Ok atomic_success
  | _ => Throw Exit
  end.

(** The handle [new DataObject(ldo)] that goes with a request: [ctx] is the variable of that
    handle and [ldo] the one of the caller. *)
Definition take_handle (ctx ldo : var) (s : lunasa_state) : outcome lunasa_state := ctor_copy ctx ldo s.

(** [user_invoking_callback]: the update handed to the user, and the objects afterwards. *)
Definition user_invoking_callback (e : NNTI_event_t) (ctx : var) (s : lunasa_state)
    : outcome (update * lunasa_state) :=
  u ← event_to_update_type (ev_type e);
  if bool_decide (ev_op e = NNTI_OP_SEND) then s' ← dtor ctx s; Ok (u, s') else Ok (u, s).

(** [default_callback]: [None] is a null context. *)
Definition default_callback (ctx : option var) (s : lunasa_state) : outcome lunasa_state :=
  match ctx with Some v => dtor v s | None => Ok s end.

(** * The configuration of the transport *)

(** The most verbose severity that is switched on. *)
Fixpoint first_severity (c : Configuration) (keys : list str) : option str :=
  match keys with
  | [] => None
  | key :: keys =>
      match GetBool c (lit "net.log." ++ key) (lit "false") with
      | (0%Z, Some true) => Some key
      | _ => first_severity c keys
      end
  end.

Definition severities : list str := [lit "debug"; lit "info"; lit "warn"; lit "error"; lit "fatal"].

Definition set_severity (c : Configuration) : Configuration :=
  match first_severity c severities with
  | Some key => Set_ c (lit "nnti.logger.severity") key
  | None => c
  end.

Definition set_logfile (c : Configuration) : Configuration :=
  match GetString c (lit "net.log.filename") [] with
  | (0%Z, logfile) => Set_ c (lit "nnti.logger.filename") logfile
  | _ => c
  end.

(** The names of libfabric, as NNTI has them. *)
Definition nnti_name (transport_name : str) : str :=
  if transport_name =s? lit "gni" then lit "ugni"
  else if transport_name =s? lit "verbs" then lit "ibverbs"
  else if transport_name =s? lit "sockets" then lit "mpi"
  else transport_name.

Definition set_transport (c : Configuration) : Configuration :=
  match GetString c (lit "net.transport.name") [] with
  | (0%Z, transport_name) => Set_ c (lit "nnti.transport.name") (nnti_name transport_name)
  | _ => c
  end.

(** [k.find("net.nnti.", 0)] is 0 for a key with this prefix. *)
Definition copy_setting (c : Configuration) (kv : str * str) : Configuration :=
  if take 9 kv.1 =s? lit "net.nnti." then Set_ c (lit "nnti." ++ drop 9 kv.1) kv.2 else c.

Definition translateConfig (c : Configuration) : Configuration :=
  let c := set_transport (set_logfile (set_severity c)) in
  fold_left copy_setting (GetAllSettings c) c.

(** * The attributes *)

(** [s.find(pat, pos)] as a [size_t]. *)
Definition npos : Z := 2 ^ 64 - 1.

Fixpoint find_sub (pat s : str) : option nat :=
  if mismatch_at_end pat s then Some 0
  else match s with [] => None | _ :: s => S <$> find_sub pat s end.

Definition find (s pat : str) (pos : Z) : Z :=
  if (zlen s <? pos)%Z then npos
  else match find_sub pat (drop (Z.to_nat pos) s) with Some i => (pos + Z.of_nat i)%Z | None => npos end.

Definition substr (s : str) (pos n : Z) : outcome str :=
  if (zlen s <? pos)%Z then Throw OutOfRange else Ok (take (Z.to_nat n) (drop (Z.to_nat pos) s)).

Definition strcpy (room : Z) (s : str) : outcome str :=
  let s := c_str s in if (zlen s <? room)%Z then Ok s else Throw Undefined.

Record Attrs := mkNetAttrs { net_mtu : Z; net_max_eager_size : Z; bind_hostname : str; listen_port : str }.

(** [url] is what [get_url] of the transport wrote. *)
Definition GetAttrs (a : nnti_attrs) (url : str) : outcome Attrs :=
  let first := u32 (find url (lit "://") 0) in
  let first := u32 (first + 3) in
  let second := u32 (find url (lit ":") first) in
  let second := u32 (second + 1) in
  let third := u32 (find url (lit "/") second) in
  hostname ← substr url first (u32 (u32 (second - 1) - first));
  port ← substr url second (u32 (third - second));
  hostname ← strcpy 128 hostname;
  port ← strcpy 6 port;
  Ok (mkNetAttrs (mtu a) (max_eager_size a) hostname port).

(** * Registered memory

    [RegisterMemory] lets others read, write and change the memory at [base_addr]; the callback of
    the buffer takes every event.  [UnregisterMemory] ends that. *)

Definition rdma_flags : Z := Z.lor (Z.lor (Z.lor (Z.lor 1 4) 2) 8) 64.

Definition RegisterMemory (base_addr next_id : Z) (memory : str) (t : transport) : outcome transport :=
  register_memory t next_id rdma_flags base_addr memory None (λ _, NNTI_OK).

Definition UnregisterMemory (base_addr : Z) (t : transport) : outcome transport := unregister_memory t base_addr.

(** * Messages that arrive *)

(** The receive buffers and the attributes; [started_]. *)
Record net := mkNet { started_ : bool; attrs : nnti_attrs; recv_buffers_ : list pinned }.

(** The call of the receive callback: the sender, and the place of the message. *)
Record received := mkReceived { from_peer : Z; msg_buffer : Z; msg_offset : Z }.

Section messages.
(** A new object of the given meta and data sizes in registered memory. *)
Context (new_object : Z → Z → transport → outcome (pinned * transport)).

Definition NewMessage (a : nnti_attrs) (size : Z) (t : transport) : outcome (pinned * transport) :=
  new_object (u16 (u32 (mtu a - max_eager_size a))) (u32 size) t.

(** [setupRecvQueue]: ten buffers. *)
Fixpoint post_recv_buffers (n : nat) (size : Z) (a : nnti_attrs) (bufs : list pinned) (t : transport)
    : outcome (list pinned * transport) :=
  match n with
  | O => Ok (bufs, t)
  | S n => '(b, t) ← NewMessage a size t; post_recv_buffers n size a (bufs ++ [b]) t
  end.

Definition setupRecvQueue (a : nnti_attrs) (url : str) (t : transport) : outcome (list pinned * transport) :=
  attrs ← GetAttrs a url;
  post_recv_buffers 10 (net_max_eager_size attrs) a [] t.

(** The result of [unexpected_callback]: the code, the call of the receive callback, and what the
    module and the transport are afterwards. *)
Record cb_result := mkCb { cb_rc : NNTI_result_t; cb_call : option received; cb_net : net; cb_transport : transport }.

(** [next_unexpected] into an object; anything but success ends the process. *)
Definition take_message (t : transport) (o : pinned) (incoming : str) : outcome (received * transport) :=
  '(h, off) ← DataHandle o;
  '(t, rc, e) ← next_unexpected t h off incoming;
  match rc, e with
  | NNTI_OK, Some e => Ok (mkReceived (ev_peer e) h off, t)
  | _, _ => Throw Exit
  end.

(** [None]: the callback waits for a receive buffer. *)
Definition unexpected_callback (n : net) (t : transport) (e : NNTI_event_t) (incoming : str)
    : option (outcome cb_result) :=
  if negb (started_ n) then Some (Ok (mkCb NNTI_EIO None n t))
  else if (ev_length e <=? max_eager_size (attrs n))%Z then
    match recv_buffers_ n with
    | [] => None
    | nrb :: bufs =>
        Some ('(r, t) ← take_message t nrb incoming;
              Ok (mkCb NNTI_OK (Some r) (mkNet (started_ n) (attrs n) (bufs ++ [nrb])) t))
    end
  else
    Some (
      '(long_msg, t) ← new_object (u16 (u32 (mtu (attrs n) - max_eager_size (attrs n)))) (u32 (ev_length e)) t;
      '(r, t) ← take_message t long_msg incoming;
      Ok (mkCb NNTI_OK (Some r) n t)).

(** [Start]: [running] whether the web server runs, [rc] what the transport's own start returned,
    [k1] to [k4] the handles of the event queues, and [cb] the callback above, as the queue of
    unexpected messages has it. *)
Definition Start (running : bool) (rc : NNTI_result_t) (a : nnti_attrs) (url : str)
    (cb : NNTI_event_t → NNTI_result_t) (k1 k2 k3 k4 : Z) (t : transport) : outcome (net * transport) :=
  _ ← F_ASSERT running;
  _ ← (if bool_decide (rc = NNTI_OK) then Ok () else Throw RuntimeError);
  let t := eq_create t k1 128 true cb in
  let t := eq_create t k2 128 false default_eq_callback in
  let t := eq_create t k3 128 false default_eq_callback in
  let t := eq_create t k4 128 false default_eq_callback in
  '(bufs, t) ← setupRecvQueue a url t;
  Ok (mkNet true a bufs, t).
End messages.

(** * Windows stay inside *)

Inductive adjust := Inc (addend : Z) | Dec (subtrahend : Z) | Trim (length : Z).

Definition adjust_nbr (b : NntiBufferRemote) (x : adjust) : NntiBufferRemote :=
  match x with
  | Inc a => (IncreaseOffset a b).2
  | Dec s => (DecreaseLength s b).2
  | Trim l => (TrimToLength l b).2
  end.

Definition adjust_arg (x : adjust) : Z := match x with Inc z | Dec z | Trim z => z end.

Record nbr_ok (b : NntiBufferRemote) : Prop := {
  nbr_off : (0 ≤ nbr_offset b)%Z;
  nbr_len : (0 ≤ nbr_length b)%Z;
  nbr_end : (nbr_offset b + nbr_length b < 2 ^ 32)%Z
}.

(** [b'] shows a part of what [b] shows. *)
Definition inside (b' b : NntiBufferRemote) : Prop :=
  packed b' = packed b ∧ (nbr_offset b ≤ nbr_offset b')%Z ∧
  (nbr_offset b' + nbr_length b' ≤ nbr_offset b + nbr_length b)%Z.

#[global] Instance inside_preorder : PreOrder inside.
Proof.
  split; [by intros b|]. intros b1 b2 b3 (H1 & H2 & H3) (G1 & G2 & G3).
  split_and!; [congruence|lia|lia].
Qed.

Lemma adjust_inside b x :
  nbr_ok b → (0 ≤ adjust_arg x)%Z → nbr_ok (adjust_nbr b x) ∧ inside (adjust_nbr b x) b.
Proof.
  intros [H1 H2 H3] Hx. destruct x as [z|z|z]; cbn [adjust_nbr adjust_arg] in *;
    unfold IncreaseOffset, DecreaseLength, TrimToLength; destruct (Z.ltb_spec z (nbr_length b)); cbn [snd];
    try (split; [by constructor|done]).
  - rewrite !wrap_id by (unfold in_width; lia). split; [constructor|split_and!]; cbn; lia || done.
  - rewrite wrap_id by (unfold in_width; lia). split; [constructor|split_and!]; cbn; lia || done.
  - split; [constructor|split_and!]; cbn; lia || done.
Qed.

(** However the window of a remote buffer is adjusted, it stays a part of the window it was, on
    the same buffer. *)
Theorem window_stays_inside b xs :
  nbr_ok b → Forall (λ x, 0 ≤ adjust_arg x)%Z xs →
  nbr_ok (fold_left adjust_nbr xs b) ∧ inside (fold_left adjust_nbr xs b) b.
Proof.
  revert b. induction xs as [|x xs IH]; intros b Hb Hxs; [done|]. cbn [fold_left].
  apply Forall_cons in Hxs as [Hx Hxs]. destruct (adjust_inside b x Hb Hx) as [Hb' Hi].
  destruct (IH _ Hb' Hxs) as [H1 H2]. split; [done|]. by etrans.
Qed.

(** Each adjustment does what it is asked for, or reports that it did not. *)
Lemma adjust_codes b z :
  nbr_ok b → (0 ≤ z)%Z →
  ((IncreaseOffset z b).1 = 0%Z ↔ (z < nbr_length b)%Z) ∧
  ((IncreaseOffset z b).1 = 0%Z →
     GetOffset (IncreaseOffset z b).2 = (GetOffset b + z)%Z ∧
     GetOffset (IncreaseOffset z b).2 + GetLength (IncreaseOffset z b).2 = GetOffset b + GetLength b)%Z ∧
  ((TrimToLength z b).1 = 0%Z → GetLength (TrimToLength z b).2 = z).
Proof.
  intros [H1 H2 H3] Hz. unfold IncreaseOffset, TrimToLength, GetOffset, GetLength.
  destruct (Z.ltb_spec z (nbr_length b)); cbn [fst snd nbr_offset nbr_length].
  - rewrite !wrap_id by (unfold in_width; lia). split_and!; [done|intros _; split; lia|done].
  - split_and!; [split; [done|lia]|done..].
Qed.

(** * Gets of entire objects *)

(** The padding of a new object makes what is transferred a multiple of four bytes. *)
Lemma whole_size_aligned a :
  padding a = ldo_padding (meta_bytes a) (data_bytes a) →
  (0 ≤ meta_bytes a)%Z → (0 ≤ data_bytes a)%Z → (8 + meta_bytes a + data_bytes a + 4 < 2 ^ 32)%Z →
  whole_size a = (8 + meta_bytes a + data_bytes a + padding a)%Z ∧ (whole_size a mod 4 = 0)%Z.
Proof.
  intros Hp Hm Hd Hs. pose proof (ldo_padding_range (meta_bytes a) (data_bytes a)) as Hb.
  unfold whole_size, GetHeaderSize, offsetof_user, offsetof_header.
  rewrite wrap_id by (unfold in_width; lia). split; [lia|].
  rewrite Hp. unfold ldo_padding, LDO_ALIGNMENT. change (4 - 1)%Z with (Z.ones 2).
  rewrite Z.land_ones by lia. change (2 ^ 2)%Z with 4%Z.
  rewrite wrap_id by (unfold in_width; lia).
  pose proof (Z.div_mod (meta_bytes a + data_bytes a) 4 ltac:(lia)) as Hdm.
  replace (56 - 48 + meta_bytes a + data_bytes a + (4 - (meta_bytes a + data_bytes a) mod 4))%Z
    with ((3 + (meta_bytes a + data_bytes a) / 4) * 4)%Z by lia.
  by apply Z.mod_mul.
Qed.

(** An object that lies in registered memory, with room for its padding. *)
Record object_at (t : transport) (o : ldo_obj) (p : pinned) (b : target) : Prop := {
  at_alloc : r_alloc p = alloc o;
  at_ok : ldo_ok o;
  at_padding : padding (alloc o) = ldo_padding (meta_bytes (alloc o)) (data_bytes (alloc o));
  at_size : (8 + meta_bytes (alloc o) + data_bytes (alloc o) + 4 < 2 ^ 32)%Z;
  at_room : (meta_bytes (alloc o) + data_bytes (alloc o) + padding (alloc o) ≤ zlen (user o))%Z;
  at_base : (0 ≤ r_base p)%Z ∧ (r_base p mod 4 = 0)%Z;
  at_buffer : buffer_map t !! r_buffer p = Some b;
  at_wire : mem_read (mem (tbuf b)) (r_base p + offsetof_header) (zlen (wire o)) = Ok (wire o);
  at_length : payload_size_ (tbuf b) = zlen (mem (tbuf b)) ∧ (zlen (mem (tbuf b)) < 2 ^ 32)%Z
}.

Lemma mem_read_bounds m off len bs :
  mem_read m off len = Ok bs → (0 ≤ off)%Z ∧ (0 ≤ len)%Z ∧ (off + len ≤ zlen m)%Z.
Proof. unfold mem_read. destruct (in_bounds m off len) eqn:E; [|done]. intros _. by apply in_bounds_spec. Qed.

Lemma mem_read_prefix m off len bs n :
  mem_read m off len = Ok bs → (0 ≤ n ≤ len)%Z → mem_read m off n = Ok (take (Z.to_nat n) bs).
Proof.
  intros Hr Hn. pose proof (mem_read_bounds _ _ _ _ Hr) as (H1 & H2 & H3).
  unfold mem_read in *. destruct (in_bounds m off len); [|done]. injection Hr as <-.
  rewrite (proj2 (in_bounds_spec _ _ _)) by lia. rewrite take_take. repeat f_equal. lia.
Qed.

Lemma zlen_wire o : zlen (wire o) = (8 + zlen (user o))%Z.
Proof. unfold wire. rewrite zlen_app. unfold zlen at 1. by rewrite length_header. Qed.

Lemma object_at_bounds t o p b :
  object_at t o p b →
  (0 ≤ whole_size (alloc o) ≤ zlen (wire o))%Z ∧ (whole_size (alloc o) mod 4 = 0)%Z ∧
  (whole_size (alloc o) = 8 + meta_bytes (alloc o) + data_bytes (alloc o) + padding (alloc o))%Z ∧
  (r_base p + 48 + whole_size (alloc o) ≤ zlen (mem (tbuf b)))%Z ∧ HeaderHandle p = (r_buffer p, r_base p + 48)%Z.
Proof.
  intros [Ha Hok Hp Hs Hr [Hb0 Hb] Hbuf Hw [Hl1 Hl2]]. pose proof Hok as [_ _ Hm Hd _ _ _].
  destruct (whole_size_aligned (alloc o) Hp) as [Hz Hz4]; [lia..|].
  pose proof (mem_read_bounds _ _ _ _ Hw) as (_ & _ & Hin). unfold offsetof_header in Hin.
  pose proof (zlen_wire o) as Hzw. pose proof (ldo_padding_range (meta_bytes (alloc o)) (data_bytes (alloc o))).
  split_and!; [lia|lia|done|lia|lia|]. unfold HeaderHandle, offsetof_header. by rewrite wrap_id by (unfold in_width; lia).
Qed.

Lemma aligned_request wr :
  (local_offset wr mod 4 = 0)%Z → (remote_offset wr mod 4 = 0)%Z → (wr_length wr mod 4 = 0)%Z →
  checked wr = Ok wr.
Proof. intros H1 H2 H3. unfold checked, aligned4. by rewrite H1, H2, H3. Qed.

Lemma mod4_add48 z : (z mod 4 = 0)%Z → ((z + 48) mod 4 = 0)%Z.
Proof. intros H. rewrite Z.add_mod, H by lia. done. Qed.

(** C11: A get of an entire object from another node, into an object that is large enough, both of
    them never resized (the padding is that of the sizes) and at a 4-byte boundary of their
    buffers: the request is made (no check ends the process), the transport accepts it, and what comes back is the
    object with its header, up to its padding. *)
Theorem get_fetches_object s t o p b q oq bq peer :
  object_at t o p b → object_at s oq q bq →
  (whole_size (alloc o) ≤ whole_size (alloc oq))%Z →
  conn_map t !! me s = Some peer → 0 < posted t →
  ∃ wr c t', Get (me t) (GetRdmaPtr (λ _, mpi_length (tbuf b)) p) q = Ok wr ∧
    rdma s wr = Ok (NNTI_OK, Some (c, [])) ∧ receive t c [] = Some (Ok t') ∧
    replies t' = replies t ++ [Get_data peer (r_buffer q) (take (Z.to_nat (whole_size (alloc o))) (wire o))] ∧
    local_offset wr = (r_base q + offsetof_header)%Z ∧ posted t' = posted t.
Proof.
  intros Ho Hq Hle Hconn Hpost.
  destruct (object_at_bounds _ _ _ _ Ho) as (Hw & Hw4 & Hwe & Hin & _).
  destruct (object_at_bounds _ _ _ _ Hq) as (Hv & Hv4 & Hve & Hinq & Hh).
  destruct Ho as [Ha Hok Hp Hs Hr [Hb0 Hb] Hbuf Hwire [Hl1 Hl2]].
  destruct Hq as [Ga Gok Gp Gs Gr [Gb0 Gb] Gbuf Gwire [Gl1 Gl2]].
  pose proof (zlen_nonneg (mem (tbuf b))). pose proof (zlen_nonneg (mem (tbuf bq))).
  unfold offsetof_header in Hwire, Gwire. unfold Get. rewrite Hh. unfold GetRdmaPtr, GetRdmaPtr_adjust, BaseHandle, makeRemoteBuffer, offsetof_header.
  rewrite Ha, Ga. cbn [nbr_offset nbr_length packed].
  rewrite (wrap_id 32 (r_base p + 48)) by (unfold in_width; lia).
  rewrite !(wrap_id 32) by (unfold in_width; lia).
  rewrite Z.min_r by lia. rewrite aligned_request; cbn [local_offset remote_offset wr_length];
    [|by apply mod4_add48..|done].
  set (wr := mkWr _ _ _ _ _ _ _ _ _).
  assert (check_bounds wr (mpi_length (tbuf bq)) = NNTI_OK) as Hcheck.
  { subst wr. unfold check_bounds, mpi_length. cbn [local_offset wr_length remote_hdl remote_offset].
    rewrite Gl1, Hl1, !wrap_id by (unfold in_width; lia).
    rewrite !(proj2 (Z.ltb_ge _ _)) by lia. done. }
  assert (∃ bs, pack s wr = Ok (mkCmd NNTI_OP_GET (me s) (r_buffer q) (r_base q + 48) (r_base p + 48)
            (whole_size (alloc o)) (r_buffer p) bs)) as [bs Hpack].
  { unfold pack. subst wr. cbn [wr_op local_hdl local_offset remote_offset wr_length remote_hdl]. rewrite Gbuf.
    destruct (eager _); [|by eexists].
    rewrite (mem_read_prefix _ _ _ _ (whole_size (alloc o)) Gwire) by lia. by eexists. }
  destruct (posted t) as [|n] eqn:Ep; [lia|]. eexists wr, _, _. split; [done|]. split.
  { unfold rdma. rewrite Hpack. subst wr. cbn [mbind outcome_bind local_hdl remote_hdl wr_op] in *. rewrite Gbuf.
    rewrite bool_decide_eq_true_2 by done. done. }
  split.
  { unfold receive. rewrite Ep. unfold dispatch.
    cbn [with_posted conn_map initiator set_operands]. rewrite Hconn. cbn [cmd_op set_operands].
    unfold complete_get_command. cbn [target_base_addr target_offset payload_length set_operands with_posted buffer_map].
    rewrite Hbuf. rewrite (mem_read_prefix _ _ _ _ (whole_size (alloc o)) Hwire) by lia.
    cbn [mbind outcome_bind]. reflexivity. }
  cbn [repost with_reply with_posted replies posted initiator_hdl set_operands]. done.
Qed.

(** * Messages arrive *)

(** Reading in a part that was read. *)
Lemma mem_read_slice m off len bs a n :
  mem_read m off len = Ok bs → (0 ≤ a)%Z → (0 ≤ n)%Z → (a + n ≤ len)%Z →
  mem_read m (off + a) n = mem_read bs a n.
Proof.
  intros Hr Ha Hn Hl. pose proof (mem_read_bounds _ _ _ _ Hr) as (H1 & H2 & H3).
  pose proof (mem_read_zlen _ _ _ _ Hr) as Hz.
  unfold mem_read in *. destruct (in_bounds m off len); [|done]. injection Hr as <-.
  rewrite !(proj2 (in_bounds_spec _ _ _)) by lia. f_equal.
  rewrite skipn_firstn_comm, take_take, drop_drop. f_equal; [lia|]. f_equal. lia.
Qed.

(** The data section of an object in registered memory, with the padding that is sent with it. *)
Lemma data_in_memory t o p b n :
  object_at t o p b → (0 ≤ n ≤ data_bytes (alloc o) + padding (alloc o))%Z →
  (meta_bytes (alloc o) + data_bytes (alloc o) + padding (alloc o) = zlen (user o))%Z →
  DataHandle p = Ok (r_buffer p, r_base p + 56 + meta_bytes (alloc o))%Z ∧
  ∃ bs, mem_read (mem (tbuf b)) (r_base p + 56 + meta_bytes (alloc o)) n = Ok bs ∧
        mem_read (user o) (meta_bytes (alloc o)) n = Ok bs.
Proof.
  intros Ho Hn Hfull. destruct (object_at_bounds _ _ _ _ Ho) as (Hw & _ & Hwe & Hin & _).
  destruct Ho as [Ha Hok Hp Hs Hr [Hb0 Hb] Hbuf Hwire [Hl1 Hl2]]. pose proof Hok as [_ _ Hm Hd _ Hlen _].
  pose proof (ldo_padding_range (meta_bytes (alloc o)) (data_bytes (alloc o))). pose proof (zlen_wire o).
  split.
  { unfold DataHandle, section_handle, offsetof_user, sizeof_Allocation in *. rewrite Ha.
    rewrite (proj2 (Z.eqb_neq _ _)), (proj2 (Z.ltb_lt _ _)), (proj2 (Z.eqb_eq _ _)) by lia.
    cbn [F_ASSERT mbind outcome_bind]. rewrite wrap_id by (unfold in_width; lia). do 2 f_equal. lia. }
  assert (mem_read (user o) (meta_bytes (alloc o)) n = mem_read (wire o) (8 + meta_bytes (alloc o)) n) as Hu.
  { symmetry. apply (mem_read_slice (wire o) 8 (zlen (user o)) (user o)); [|lia..].
    apply (read_middle' _ (header_bytes (alloc o)) (user o) []); [unfold wire; by rewrite app_nil_r| |done].
    unfold zlen. by rewrite length_header. }
  rewrite Hu. unfold offsetof_header in Hwire.
  replace (r_base p + 56 + meta_bytes (alloc o))%Z with (r_base p + 48 + (8 + meta_bytes (alloc o)))%Z by lia.
  rewrite (mem_read_slice _ _ _ _ (8 + meta_bytes (alloc o)) n Hwire) by lia.
  unfold mem_read. rewrite (proj2 (in_bounds_spec _ _ _)) by lia. by eexists.
Qed.

(** A receive buffer: an object in a registered buffer that is not a queue, with room behind [off]. *)
Record receives (t : transport) (nrb : pinned) (br : target) (off len : Z) : Prop := {
  rb_handle : DataHandle nrb = Ok (r_buffer nrb, off);
  rb_buffer : buffer_map t !! r_buffer nrb = Some br;
  rb_plain : queuing (tbuf br) = false;
  rb_off : (0 ≤ off)%Z;
  rb_room : (off + len ≤ payload_size_ (tbuf br))%Z;
  rb_size : payload_size_ (tbuf br) = zlen (mem (tbuf br)) ∧ (zlen (mem (tbuf br)) < 2 ^ 64)%Z
}.

(** The message that waits is taken into the receive buffer. *)
Lemma take_message_short t nrb br off bs c peer :
  receives t nrb br off (zlen bs) → unexpected_msgs_ t = [c] → eager c = true →
  payload_length c = zlen bs → eager_payload c = bs → conn_map t !! initiator c = Some peer →
  ∃ t' br', take_message t nrb [] = Ok (mkReceived peer (r_buffer nrb) off, t') ∧
    buffer_map t' !! r_buffer nrb = Some br' ∧ mem_read (mem (tbuf br')) off (zlen bs) = Ok bs ∧
    unexpected_msgs_ t' = [] ∧ posted t' = S (posted t).
Proof.
  intros [Hh Hb Hq Ho Hr [Hs1 Hs2]] Hm He Hl Hp Hc.
  destruct (mem_write_Ok (mem (tbuf br)) off bs) as [m' Hw]; [lia..|].
  unfold take_message. rewrite Hh. cbn [mbind outcome_bind]. unfold next_unexpected. rewrite Hm, Hb, Hc, He, Hl, Hp.
  rewrite take_ge by (unfold zlen; lia). unfold copy_in. rewrite Hq.
  pose proof (zlen_nonneg bs). rewrite wrap_id by (unfold in_width; lia).
  rewrite (proj2 (Z.leb_le _ _)) by lia. rewrite Hw. cbn [mbind outcome_bind ev_peer].
  eexists _, _. split; [done|]. cbn [repost with_posted with_unexpected with_buffer buffer_map unexpected_msgs_ posted].
  rewrite lookup_insert_eq. split_and!; [done| |done|done].
  cbn [with_buf tbuf with_mem mem]. by apply (mem_write_same _ _ _ _ Hw).
Qed.

(** A message for which no buffer was named waits for the application, whose callback is told. *)
Lemma receive_unexpected t c k qu peer m :
  posted t = S m → cmd_op c = NNTI_OP_SEND → unexpected c = true → conn_map t !! initiator c = Some peer →
  unexpected_queue_ t = Some k → queues t !! k = Some qu → (∀ e, cb_ qu e = NNTI_OK) →
  receive t c [] = Some (Ok (with_unexpected (with_posted t m) (unexpected_msgs_ t ++ [c]))).
Proof.
  intros Ep Hop Hu Hconn Huq Hqu Hcb. unfold receive. rewrite Ep. unfold dispatch. cbn [with_posted conn_map].
  rewrite Hconn, Hop. unfold complete_send_command. rewrite Hu. cbn [with_posted unexpected_queue_].
  rewrite Huq. unfold offer_queue. cbn [with_unexpected with_posted queues unexpected_msgs_]. rewrite Hqu.
  unfold invoke_cb. by rewrite bool_decide_eq_true_2 by apply Hcb.
Qed.

(** C10: A message, the data of an object that was never resized (its sections and padding fill its
    allocation) and at most 1815 bytes with its padding, that is sent without zero copy to a started
    node that knows the sender, has a free receive buffer that is large enough and no other message
    waiting, is handed to the receive callback of that node, with the peer it came
    from and the data of the object at the place it is told; the receive buffer goes to the end of
    the line and the command buffer back to the transport. *)
Theorem message_arrives new_object s t o p b k qu n nrb bufs br off d peer dest :
  object_at s o p b → data_section o = Ok d → (0 < data_bytes (alloc o))%Z →
  (meta_bytes (alloc o) + data_bytes (alloc o) + padding (alloc o) = zlen (user o))%Z →
  (data_bytes (alloc o) + padding (alloc o) ≤ 1815)%Z → max_eager_size (attrs n) = 1815%Z →
  unexpected_queue_ t = Some k → queues t !! k = Some qu → (∀ e, cb_ qu e = NNTI_OK) →
  unexpected_msgs_ t = [] → conn_map t !! me s = Some peer → 0 < posted t →
  started_ n = true → recv_buffers_ n = nrb :: bufs →
  receives t nrb br off (data_bytes (alloc o) + padding (alloc o)) →
  ∃ wr c t1 e res br', send_request (attrs n) false dest p = Ok (wr, false) ∧
    send s wr = Ok (NNTI_OK, Some (c, [])) ∧
    receive t c [] = Some (Ok t1) ∧ e = create_event c peer 0 ∧
    unexpected_callback new_object n t1 e [] = Some (Ok res) ∧
    cb_rc res = NNTI_OK ∧ cb_call res = Some (mkReceived peer (r_buffer nrb) off) ∧
    buffer_map (cb_transport res) !! r_buffer nrb = Some br' ∧
    mem_read (mem (tbuf br')) off (data_bytes (alloc o)) = Ok d ∧
    recv_buffers_ (cb_net res) = bufs ++ [nrb] ∧ posted (cb_transport res) = posted t.
Proof.
  intros Ho Hd Hd0 Hfull Hlen Hmax Huq Hqu Hcb Hum Hconn Hpost Hst Hrb Hrec.
  set (len := (data_bytes (alloc o) + padding (alloc o))%Z) in *.
  pose proof Ho as [Ha Hok Hp Hs Hr _ Hbuf _ [Hl1 Hl2]].
  pose proof (ldo_padding_range (meta_bytes (alloc o)) (data_bytes (alloc o))) as Hpad.
  destruct (data_in_memory s o p b len Ho) as (Hh & bs & Hread & Huser); [lia|done|].
  pose proof (mem_read_zlen _ _ _ _ Hread) as Hz. pose proof (mem_read_bounds _ _ _ _ Hread) as (B1 & B2 & B3).
  unfold send_request. cbn [andb]. rewrite Hh, Ha. cbn [mbind outcome_bind].
  rewrite (wrap_id 32 (data_bytes (alloc o) + padding (alloc o))) by (unfold in_width; lia). fold len.
  set (wr := mkWr _ _ _ _ _ _ _ _ _).
  assert (check_bounds wr (mpi_length (tbuf b)) = NNTI_OK) as Hchk.
  { subst wr. unfold check_bounds, mpi_length. cbn [local_offset wr_length remote_hdl].
      rewrite Hl1, !wrap_id by (unfold in_width; lia). by rewrite (proj2 (Z.ltb_ge _ _)) by lia. }
  pose proof (send_eager s wr b bs Hbuf eq_refl Hread Hlen Hchk) as Hsend.
  destruct (posted t) as [|m] eqn:Ep; [lia|].
  set (c := mkCmd _ _ _ _ _ _ _ _) in Hsend.
  set (t1 := with_unexpected (with_posted t m) [c]).
  assert (receive t c [] = Some (Ok t1)) as Hreceive.
  { rewrite (receive_unexpected t c k qu peer m) by done. by rewrite Hum. }
  destruct (take_message_short t1 nrb br off bs c peer) as (t2 & br' & Ht & Hb2 & Hr2 & Hu2 & Hp2).
  { destruct Hrec as [R1 R2 R3 R4 R5 R6]. constructor; try done. lia. }
  { done. }
  { unfold eager. cbn [payload_length c wr]. change (u64 (cmd_msg_size - header_length)) with 1815%Z.
    by apply Z.leb_le. }
  { done. }
  { done. }
  { done. }
  eexists wr, c, t1, _, _, br'. split; [done|]. split; [done|]. split; [done|]. split; [done|]. split.
  { unfold unexpected_callback. rewrite Hst. unfold create_event. change (unexpected c) with true.
    cbn [negb ev_length payload_length c wr wr_length]. rewrite Hmax, (proj2 (Z.leb_le _ _)) by lia.
    rewrite Hrb, Ht. done. }
  cbn [cb_rc cb_call cb_transport cb_net recv_buffers_]. split_and!; [done..| |done|].
  - rewrite (mem_read_prefix _ _ _ _ (data_bytes (alloc o)) Hr2) by lia.
    unfold data_section in Hd. rewrite (mem_read_prefix _ _ _ _ (data_bytes (alloc o)) Huser) in Hd by lia. done.
  - rewrite Hp2. done.
Qed.

(** * The handles that go with requests *)

Lemma dtor_shared s v l a :
  objs s !! v = Some (Some l) → heap s !! l = Some a → (1 < ref_count a ≤ INT_MAX)%Z →
  dtor v s = Ok (mkState (<[l := set_ref a (ref_count a - 1)]> (heap s)) (delete v (objs s))).
Proof.
  intros Hv Hl Ha. unfold dtor, impl_of. rewrite Hv. cbn [mbind outcome_bind decr_opt]. unfold DecrRef. rewrite Hl.
  rewrite (proj2 (Z.ltb_lt _ _)) by lia. cbn [F_ASSERT mbind outcome_bind].
  by rewrite s32_id, (proj2 (Z.eqb_neq _ _)) by lia.
Qed.

Lemma dtor_last s v l a :
  objs s !! v = Some (Some l) → heap s !! l = Some a → ref_count a = 1%Z →
  dtor v s = Ok (mkState (delete l (heap s)) (delete v (objs s))).
Proof.
  intros Hv Hl Ha. unfold dtor, impl_of. rewrite Hv. cbn [mbind outcome_bind decr_opt]. unfold DecrRef.
  by rewrite Hl, Ha.
Qed.

Lemma set_ref_back a n m : ref_count a = n → set_ref (set_ref a m) n = a.
Proof. intros <-. by destruct a. Qed.

(** The handle of a message is given back when the message was sent.  The handle of a get, a put
    or an atomic operation with a callback is not: when the caller drops its own, the memory of
    the object stays. *)
Theorem rdma_handle_leaks s v l a ctx e :
  objs s !! v = Some (Some l) → heap s !! l = Some a → ref_count a = 1%Z → objs s !! ctx = None →
  ev_type e ∈ [NNTI_EVENT_SEND; NNTI_EVENT_PUT; NNTI_EVENT_GET; NNTI_EVENT_ATOMIC] →
  ∃ s1 u s2 s3, take_handle ctx v s = Ok s1 ∧ user_invoking_callback e ctx s1 = Ok (u, s2) ∧
    dtor v s2 = Ok s3 ∧ objs s3 !! v = None ∧
    (ev_op e = NNTI_OP_SEND → heap s3 !! l = None ∧ objs s3 = delete v (objs s)) ∧
    (ev_op e ≠ NNTI_OP_SEND → heap s3 !! l = Some a ∧ objs s3 !! ctx = Some (Some l)).
Proof.
  intros Hv Hl Ha Hctx He. assert (ctx ≠ v) as Hne by congruence.
  assert (∃ u, event_to_update_type (ev_type e) = Ok u) as [u Hu].
  { repeat (apply elem_of_cons in He as [->|He]; [by eexists|]). by apply elem_of_nil in He. }
  set (s1 := mkState (<[l := set_ref a 2]> (heap s)) (<[ctx := Some l]> (objs s))).
  assert (take_handle ctx v s = Ok s1) as H1.
  { unfold take_handle, ctor_copy, impl_of. rewrite Hv. cbn [mbind outcome_bind incr_opt]. unfold IncrRef.
    by rewrite Hl, Ha. }
  assert (Hd : ∀ x, objs s1 !! x = Some (Some l) →
    dtor x s1 = Ok (mkState (<[l := a]> (heap s1)) (delete x (objs s1)))).
  { intros x Hx. rewrite (dtor_shared s1 x l (set_ref a 2)); [|done|apply lookup_insert_eq|done].
    cbn [ref_count set_ref]. change (2 - 1)%Z with 1%Z. by rewrite set_ref_back. }
  exists s1, u. unfold user_invoking_callback. rewrite Hu. cbn [mbind outcome_bind].
  destruct (decide (ev_op e = NNTI_OP_SEND)) as [Hop|Hop].
  - rewrite bool_decide_eq_true_2, (Hd ctx) by (done || apply lookup_insert_eq). eexists _, _.
    split; [done|]. split; [done|]. cbn [heap objs s1]. split.
    { apply (dtor_last _ v l a); cbn [objs heap]; [|apply lookup_insert_eq|done].
      by rewrite lookup_delete_ne, lookup_insert_ne. }
    cbn [heap objs]. split_and!; [apply lookup_delete_eq|intros _|done]. split; [apply lookup_delete_eq|].
    by rewrite delete_insert_id.
  - rewrite bool_decide_eq_false_2 by done. eexists _, _. split; [done|]. split; [done|].
    rewrite (Hd v) by (cbn [objs s1]; by rewrite lookup_insert_ne). split; [done|]. cbn [heap objs s1].
    split_and!; [apply lookup_delete_eq|done|intros _].
    by rewrite lookup_insert_eq, lookup_delete_ne, lookup_insert_eq.
Qed.

(** * Peers

    [peer_bimap] as its two sides, and the [peer_t] objects in memory, each with the handle of the
    transport. *)

Abbreviation ptr := nat.

Record peers := mkPeers { left_ : gmap Z ptr; right_ : gmap ptr Z; peer_objects : gmap ptr Z }.

Definition no_peers : peers := mkPeers ∅ ∅ ∅.

Definition bimap_insert (n : Z) (p : ptr) (s : peers) : peers :=
  match left_ s !! n, right_ s !! p with
  | None, None => mkPeers (<[n := p]> (left_ s)) (<[p := n]> (right_ s)) (peer_objects s)
  | _, _ => s
  end.

Definition bimap_erase (p : ptr) (s : peers) : peers :=
  match right_ s !! p with
  | Some n => mkPeers (delete n (left_ s)) (delete p (right_ s)) (peer_objects s)
  | None => s
  end.

(** A node id that is not found is the unspecified one; a peer, a null pointer. *)
Definition ConvertPeerToNodeID (p : ptr) (s : peers) : NodeID.t := NodeID.mk (default 0%Z (right_ s !! p)).
Definition ConvertNodeIDToPeer (n : NodeID.t) (s : peers) : option ptr := left_ s !! NodeID.nid n.

Section transport_calls.
(** [t_->connect] and [t_->disconnect]: the code, and the handle of the peer where there is one. *)
Context (connect : str → NNTI_result_t * option Z) (disconnect : Z → NNTI_result_t).
(** What an [NNTI_peer_t] holds that nothing was written to. *)
Context (unset : Z).

Definition connect_url (n : NodeID.t) : str :=
  lit "http://" ++ NodeID.GetIP n ++ lit ":" ++ NodeID.GetPort n ++ lit "/".

(** [Connect]; [l] is where the new [peer_t] is put. *)
Definition Connect (l : ptr) (n : NodeID.t) (s : peers) : NNTI_result_t * ptr * peers :=
  match ConvertNodeIDToPeer n s with
  | Some p => (NNTI_OK, p, s)
  | None =>
      let '(rc, p) := connect (c_str (connect_url n)) in
      let s := mkPeers (left_ s) (right_ s) (<[l := default unset p]> (peer_objects s)) in
      (rc, l, bimap_insert (NodeID.nid n) l s)
  end.

Definition Disconnect (p : ptr) (s : peers) : outcome (NNTI_result_t * peers) :=
  let s := bimap_erase p s in
  match peer_objects s !! p with
  | None => Throw Undefined
  | Some h => Ok (disconnect h, mkPeers (left_ s) (right_ s) (delete p (peer_objects s)))
  end.

(** [None]: the code -1 for a node that is not connected. *)
Definition Disconnect_node (n : NodeID.t) (s : peers) : outcome (option NNTI_result_t * peers) :=
  match ConvertNodeIDToPeer n s with
  | None => Ok (None, s)
  | Some p => '(rc, s) ← Disconnect p s; Ok (Some rc, s)
  end.

(** The order of the left side of the map. *)
Definition node_le (x y : Z * ptr) : Prop := (x.1 ≤ y.1)%Z.
#[global] Instance node_le_dec : RelDecision node_le.
Proof. intros x y. unfold node_le. apply _. Defined.

(** The loop of [Finish]: the peer of the smallest node id is disconnected until there is none. *)
Definition first_peer (s : peers) : option ptr :=
  snd <$> head (merge_sort node_le (map_to_list (left_ s))).

Fixpoint disconnect_all (fuel : nat) (s : peers) : option (outcome peers) :=
  match first_peer s with
  | None => Some (Ok s)
  | Some p =>
      match fuel with
      | O => None
      | S fuel =>
          match Disconnect p s with
          | Ok (_, s) => disconnect_all fuel s
          | Throw e => Some (Throw e)
          end
      end
  end.

(** [Finish]: the receive queue is emptied. *)
Definition Finish (initialized : bool) (n : net) (s : peers) : outcome (net * peers) :=
  _ ← F_ASSERT initialized;
  _ ← F_ASSERT (started_ n);
  s ← fuelled (disconnect_all (size (left_ s)) s);
  Ok (mkNet false (attrs n) [], s).

(** ** The table *)

Record peers_ok (s : peers) : Prop := {
  po_sides n p : left_ s !! n = Some p ↔ right_ s !! p = Some n;
  po_object n p : left_ s !! n = Some p → is_Some (peer_objects s !! p)
}.

Lemma no_peers_ok : peers_ok no_peers.
Proof. constructor; intros *; cbn; rewrite ?lookup_empty; done. Qed.

Lemma Connect_ok l n s :
  peers_ok s → peer_objects s !! l = None →
  peers_ok (Connect l n s).2 ∧ left_ (Connect l n s).2 !! NodeID.nid n = Some (Connect l n s).1.2.
Proof.
  intros [Hs Ho] Hl. unfold Connect, ConvertNodeIDToPeer.
  destruct (left_ s !! NodeID.nid n) as [p|] eqn:Hn; [by split|].
  destruct (connect _) as [rc h]. cbn [fst snd]. unfold bimap_insert. cbn [left_ right_ peer_objects]. rewrite Hn.
  assert (right_ s !! l = None) as Hr.
  { destruct (right_ s !! l) as [m|] eqn:Hm; [|done]. apply Hs, Ho in Hm. destruct Hm; congruence. }
  rewrite Hr. cbn [left_ right_ peer_objects]. split; [|apply lookup_insert_eq]. constructor; cbn.
  - intros m p. destruct (decide (m = NodeID.nid n)) as [->|Hm].
    + rewrite lookup_insert_eq. split; [intros [= ->]; apply lookup_insert_eq|].
      destruct (decide (p = l)) as [->|Hp]; [done|]. rewrite lookup_insert_ne by done.
      intros Hx%Hs. congruence.
    + rewrite lookup_insert_ne by done. destruct (decide (p = l)) as [->|Hp].
      * rewrite lookup_insert_eq. split; [|congruence]. intros Hx%Hs. congruence.
      * by rewrite lookup_insert_ne.
  - intros m p. destruct (decide (m = NodeID.nid n)) as [->|Hm].
    + rewrite lookup_insert_eq. intros [= <-]. rewrite lookup_insert_eq. by eexists.
    + rewrite lookup_insert_ne by done. intros Hx%Ho. destruct (decide (p = l)) as [->|Hp].
      * rewrite lookup_insert_eq. by eexists.
      * by rewrite lookup_insert_ne.
Qed.

Lemma Disconnect_ok p n s :
  peers_ok s → left_ s !! n = Some p →
  ∃ rc, Disconnect p s = Ok (rc, mkPeers (delete n (left_ s)) (delete p (right_ s)) (delete p (peer_objects s))) ∧
    peers_ok (mkPeers (delete n (left_ s)) (delete p (right_ s)) (delete p (peer_objects s))).
Proof.
  intros [Hs Ho] Hn. pose proof (Ho _ _ Hn) as [h Hh]. pose proof (proj1 (Hs _ _) Hn) as Hr.
  unfold Disconnect, bimap_erase. rewrite Hr. cbn [peer_objects left_ right_]. rewrite Hh. eexists.
  split; [done|]. constructor; cbn.
  - intros m q. rewrite !lookup_delete_Some, Hs. split; intros [Hne Hx]; (split; [|done]); intros <-.
    + apply Hne. congruence.
    + apply Hne. apply Hs in Hx. congruence.
  - intros m q [Hne Hx]%lookup_delete_Some. rewrite lookup_delete_ne; [by apply (Ho m)|]. intros <-.
    apply Hne. apply Hs in Hx. congruence.
Qed.

Lemma first_peer_known s : peers_ok s →
  match first_peer s with
  | Some p => ∃ n, left_ s !! n = Some p
  | None => left_ s = ∅
  end.
Proof.
  intros _. unfold first_peer.
  pose proof (merge_sort_Permutation node_le (map_to_list (left_ s))) as Hp.
  destruct (merge_sort _ _) as [|[n p] l]; cbn.
  - apply Permutation_nil_l in Hp. by apply map_to_list_empty_iff.
  - exists n. apply elem_of_map_to_list. rewrite <-Hp. by left.
Qed.

(** Finishing disconnects every peer: the loop ends, and no peer is left in the table. *)
Lemma disconnect_all_ends s fuel :
  peers_ok s → size (left_ s) ≤ fuel →
  ∃ s', disconnect_all fuel s = Some (Ok s') ∧ left_ s' = ∅ ∧ peers_ok s'.
Proof.
  revert s. induction fuel as [|fuel IH]; intros s Hs Hf; pose proof (first_peer_known s Hs) as Hp; cbn [disconnect_all];
    destruct (first_peer s) as [p|]; try (by eexists).
  - destruct Hp as [n Hn]. assert (size (left_ s) = 0) as Hz%map_size_empty_inv by lia.
    by rewrite Hz, lookup_empty in Hn.
  - destruct Hp as [n Hn]. destruct (Disconnect_ok p n s Hs Hn) as (rc & -> & Hs'). apply IH; [done|]. cbn.
    rewrite map_size_delete, Hn. lia.
Qed.

Theorem Finish_disconnects n s :
  peers_ok s → started_ n = true →
  ∃ n' s', Finish true n s = Ok (n', s') ∧ left_ s' = ∅ ∧ right_ s' = ∅ ∧ started_ n' = false ∧ recv_buffers_ n' = [].
Proof.
  intros Hs Hn. destruct (disconnect_all_ends s (size (left_ s)) Hs) as (s' & He & Hl & Hs'); [done|].
  unfold Finish. rewrite Hn, He. cbn [F_ASSERT mbind outcome_bind fuelled]. eexists _, s'. split_and!; [done..| |done|done].
  apply map_empty. intros p. destruct (right_ s' !! p) as [m|] eqn:Hm; [|done].
  apply (po_sides _ Hs') in Hm. by rewrite Hl, lookup_empty in Hm.
Qed.

(** A node that is connected keeps its peer. *)
Lemma Connect_again l l' n s :
  peers_ok s → peer_objects s !! l = None →
  Connect l' n (Connect l n s).2 = (NNTI_OK, (Connect l n s).1.2, (Connect l n s).2).
Proof.
  intros Hs Hl. destruct (Connect_ok l n s Hs Hl) as [_ Hc].
  unfold Connect at 1, ConvertNodeIDToPeer. by rewrite Hc.
Qed.

(** A connection that failed is in the table as well: the next attempt succeeds without trying,
    with a peer nothing was written to. *)
Theorem failed_connect_sticks l l' n s rc :
  peers_ok s → peer_objects s !! l = None → left_ s !! NodeID.nid n = None →
  connect (c_str (connect_url n)) = (rc, None) →
  (Connect l n s).1 = (rc, l) ∧
  (Connect l' n (Connect l n s).2).1 = (NNTI_OK, l) ∧
  peer_objects (Connect l' n (Connect l n s).2).2 !! l = Some unset.
Proof.
  intros Hs Hl Hn Hc. rewrite (Connect_again l l' n s Hs Hl).
  assert ((Connect l n s).1 = (rc, l) ∧ peer_objects (Connect l n s).2 !! l = Some unset) as [H1 H2].
  { unfold Connect, ConvertNodeIDToPeer. rewrite Hn, Hc. cbn [fst snd default]. split; [done|].
    unfold bimap_insert. cbn [left_ right_]. rewrite Hn. destruct (right_ s !! l); cbn; apply lookup_insert_eq. }
  rewrite H1. cbn [fst snd]. done.
Qed.
End transport_calls.

(** * What is found in the attributes *)

Lemma mismatch_head_False p c s : mismatch_at_end (c :: p) s = true → head s = Some c.
Proof. destruct s as [|x s]; [done|]. cbn [mismatch_at_end]. intros [->%bool_decide_eq_true _]%andb_true_iff. done. Qed.

Lemma find_sub_skip pat c s t :
  c ∉ s → mismatch_at_end (c :: pat) (c :: t) = true → find_sub (c :: pat) (s ++ c :: t) = Some (length s).
Proof.
  intros Hc Ht. induction s as [|x s IH].
  - cbn [app]. unfold find_sub. rewrite Ht. done.
  - apply not_elem_of_cons in Hc as [Hx Hc]. cbn [app find_sub].
    destruct (mismatch_at_end (c :: pat) (x :: s ++ c :: t)) eqn:E.
    + apply mismatch_head_False in E. injection E as E. congruence.
    + by rewrite IH.
Qed.

Lemma find_after a pat c s t :
  c ∉ s → mismatch_at_end (c :: pat) (c :: t) = true →
  find (a ++ s ++ c :: t) (c :: pat) (zlen a) = (zlen a + zlen s)%Z.
Proof.
  intros Hc Ht. unfold find. rewrite zlen_app. rewrite (proj2 (Z.ltb_ge _ _)).
  - unfold zlen. rewrite Nat2Z.id, drop_app_length. by rewrite find_sub_skip.
  - pose proof (zlen_nonneg (s ++ c :: t)). lia.
Qed.

Lemma substr_middle a s t : substr (a ++ s ++ t) (zlen a) (zlen s) = Ok s.
Proof.
  unfold substr. rewrite zlen_app, (proj2 (Z.ltb_ge _ _)).
  - unfold zlen. by rewrite !Nat2Z.id, drop_app_length, take_app_length.
  - pose proof (zlen_nonneg (s ++ t)). lia.
Qed.

(** From a URL "protocol://host:port/..." the host and the port come out, where they fit. *)
Theorem GetAttrs_url a proto host port rest :
  ":"%char ∉ proto → ":"%char ∉ host → "/"%char ∉ port → nul ∉ host → nul ∉ port →
  (zlen host < 128)%Z → (zlen port < 6)%Z → (zlen proto < 128)%Z →
  GetAttrs a (proto ++ lit "://" ++ host ++ lit ":" ++ port ++ lit "/" ++ rest) =
    Ok (mkNetAttrs (mtu a) (max_eager_size a) host port).
Proof.
  intros Hp Hh Hq Hn1 Hn2 Hl1 Hl2 Hl3. set (url := proto ++ _).
  pose proof (zlen_nonneg proto). pose proof (zlen_nonneg host). pose proof (zlen_nonneg port).
  assert (zlen (proto ++ lit "://") = zlen proto + 3)%Z as E1 by (rewrite zlen_app; done).
  assert (zlen ((proto ++ lit "://") ++ host ++ lit ":") = zlen proto + zlen host + 4)%Z as E2.
  { rewrite !zlen_app. change (zlen (lit "://")) with 3%Z. change (zlen (lit ":")) with 1%Z. lia. }
  assert (find url (lit "://") 0 = zlen proto) as F1.
  { by apply (find_after [] (lit "//") ":"%char proto (lit "//" ++ host ++ lit ":" ++ port ++ lit "/" ++ rest)). }
  assert (find url (lit ":") (zlen proto + 3) = zlen proto + 3 + zlen host)%Z as F2.
  { rewrite <-E1. subst url. rewrite (app_assoc proto).
    by apply (find_after (proto ++ lit "://") [] ":"%char host (port ++ lit "/" ++ rest)). }
  assert (url = ((proto ++ lit "://") ++ host ++ lit ":") ++ port ++ lit "/" ++ rest) as Hurl.
  { subst url. by rewrite <-!app_assoc. }
  assert (find url (lit "/") (zlen proto + zlen host + 4) = zlen proto + zlen host + 4 + zlen port)%Z as F3.
  { rewrite <-E2, Hurl. by apply (find_after _ [] "/"%char port rest). }
  assert (substr url (zlen proto + 3) (zlen host) = Ok host) as S1.
  { rewrite <-E1. subst url. rewrite (app_assoc proto). apply substr_middle. }
  assert (substr url (zlen proto + zlen host + 4) (zlen port) = Ok port) as S2.
  { rewrite <-E2, Hurl. apply substr_middle. }
  unfold GetAttrs. rewrite F1, (wrap_id 32 (zlen proto)) by (unfold in_width; lia).
  rewrite (wrap_id 32 (zlen proto + 3)) by (unfold in_width; lia).
  rewrite F2, (wrap_id 32 (zlen proto + 3 + zlen host)) by (unfold in_width; lia).
  replace (zlen proto + 3 + zlen host + 1)%Z with (zlen proto + zlen host + 4)%Z by lia.
  rewrite (wrap_id 32 (zlen proto + zlen host + 4)) by (unfold in_width; lia).
  rewrite F3, (wrap_id 32 (zlen proto + zlen host + 4 + zlen port)) by (unfold in_width; lia).
  rewrite (wrap_id 32 (zlen proto + zlen host + 4 - 1)) by (unfold in_width; lia).
  replace (zlen proto + zlen host + 4 - 1 - (zlen proto + 3))%Z with (zlen host) by lia.
  replace (zlen proto + zlen host + 4 + zlen port - (zlen proto + zlen host + 4))%Z with (zlen port) by lia.
  rewrite !wrap_id by (unfold in_width; lia). rewrite S1. cbn [mbind outcome_bind]. rewrite S2.
  cbn [mbind outcome_bind]. unfold strcpy.
  rewrite !c_str_id by (apply Forall_forall; intros x Hx ->; contradiction).
  rewrite !(proj2 (Z.ltb_lt _ _)) by lia. done.
Qed.

(** * What is in the configuration *)

(** Keys as the map has them: in lower case, without the suffixes of lists. *)
Definition settled (c : Configuration) : Prop :=
  map_Forall (λ k _, ToLowercase k = k ∧ plain k = true) (config_map c).

Definition nnti_key (k : str) : Prop := lit "nnti." `prefix_of` k.

Lemma plain_suffix a b s : 2 ≤ length s → 0 < length a → 0 < length b → plain (a ++ s) = plain (b ++ s).
Proof.
  intros Hs Ha Hb. unfold plain, StringEndsWith. rewrite !length_app.
  rewrite !(bool_decide_eq_true_2 (2 < _)) by lia.
  change (length (lit "[]")) with 2. change (length (lit "<>")) with 2. rewrite !decide_False by lia.
  replace (drop (length a + length s - 2) (a ++ s)) with (drop (length s - 2) s).
  2:{ rewrite drop_app_ge by lia. f_equal. lia. }
  replace (drop (length b + length s - 2) (b ++ s)) with (drop (length s - 2) s); [done|].
  rewrite drop_app_ge by lia. f_equal. lia.
Qed.

Lemma plain_copied r : plain (lit "net.nnti." ++ r) = true → plain (lit "nnti." ++ r) = true.
Proof.
  intros Hp. change (lit "nnti." ++ r) with (lit "nnt" ++ lit "i." ++ r).
  rewrite (plain_suffix (lit "nnt") (lit "net.nnt") (lit "i." ++ r)); [done|rewrite length_app; cbn; lia|cbn; lia..].
Qed.

Lemma lower_copied r : ToLowercase (lit "net.nnti." ++ r) = lit "net.nnti." ++ r → ToLowercase (lit "nnti." ++ r) = lit "nnti." ++ r.
Proof.
  rewrite !lower_app. change (ToLowercase (lit "net.nnti.")) with (lit "net.nnti.").
  change (ToLowercase (lit "nnti.")) with (lit "nnti."). by intros ->%app_inv_head.
Qed.

Lemma Set_map c name val :
  ToLowercase name = name → plain name = true → config_map (Set_ c name val) = <[name := val]> (config_map c).
Proof. intros Hl Hp. rewrite Set_plain by (by rewrite Hl). cbn [config_map]. by rewrite Hl. Qed.

(** The steps before the copying only set keys of NNTI. *)
Lemma set_nnti_key c name val k :
  ToLowercase name = name → plain name = true → nnti_key name →
  ¬ nnti_key k → config_map (Set_ c name val) !! k = config_map c !! k.
Proof. intros Hl Hp Hn Hk. rewrite Set_map by done. rewrite lookup_insert_ne; [done|]. by intros <-. Qed.

Lemma before_copy c k : ¬ nnti_key k →
  config_map (set_transport (set_logfile (set_severity c))) !! k = config_map c !! k.
Proof.
  intros Hk. unfold set_transport. set (c2 := set_logfile _).
  assert (config_map c2 !! k = config_map c !! k) as H2.
  { subst c2. unfold set_logfile. set (c1 := set_severity c).
    assert (config_map c1 !! k = config_map c !! k) as H1.
    { subst c1. unfold set_severity. destruct (first_severity c severities); [|done].
      apply set_nnti_key; [done|done|by eexists|done]. }
    destruct (GetString c1 _ _) as [[] ?]; try done.
    by rewrite set_nnti_key by (done || by eexists). }
  destruct (GetString c2 _ _) as [[] ?]; try done. by rewrite set_nnti_key by (done || by eexists).
Qed.

Lemma net_prefix k : take 9 k = lit "net.nnti." → k = lit "net.nnti." ++ drop 9 k.
Proof. intros <-. by rewrite take_drop. Qed.

(** What copying a list of settings does to one key of NNTI, and to others. *)
Lemma copy_all l c k :
  Forall (λ kv, ToLowercase kv.1 = kv.1 ∧ plain kv.1 = true) l →
  (¬ nnti_key k → config_map (fold_left copy_setting l c) !! k = config_map c !! k) ∧
  (∀ r v, k = lit "nnti." ++ r → NoDup l.*1 → (lit "net.nnti." ++ r, v) ∈ l →
     config_map (fold_left copy_setting l c) !! k = Some v) ∧
  (∀ r, k = lit "nnti." ++ r → lit "net.nnti." ++ r ∉ l.*1 →
     config_map (fold_left copy_setting l c) !! k = config_map c !! k).
Proof.
  revert c. induction l as [|[k' v'] l IH]; intros c Hl.
  { split_and!; [done| |done]. intros r v _ _ Hv%elem_of_nil. done. }
  apply Forall_cons in Hl as [[Hl1 Hl2] Hl]. cbn [fst] in Hl1, Hl2. cbn [fold_left].
  destruct (IH (copy_setting c (k', v')) Hl) as (I1 & I2 & I3).
  assert (Hstep : ∀ r', k' = lit "net.nnti." ++ r' →
    config_map (copy_setting c (k', v')) = <[lit "nnti." ++ r' := v']> (config_map c)).
  { intros r' ->. unfold copy_setting. cbn [fst snd]. rewrite bool_decide_eq_true_2 by done.
    apply Set_map; [by apply lower_copied|by apply plain_copied]. }
  assert (Hkeep : take 9 k' ≠ lit "net.nnti." → copy_setting c (k', v') = c).
  { intros Hne. unfold copy_setting. cbn [fst snd]. by rewrite bool_decide_eq_false_2. }
  split_and!.
  - intros Hk. rewrite I1 by done. destruct (decide (take 9 k' = lit "net.nnti.")) as [E|E].
    + rewrite (Hstep _ (net_prefix _ E)), lookup_insert_ne; [done|]. intros <-. apply Hk. by eexists.
    + by rewrite Hkeep.
  - intros r v -> Hnd. cbn [fmap list_fmap fst] in Hnd. apply NoDup_cons in Hnd as [Hn Hnd].
    intros [[= <- <-]|Hin]%elem_of_cons; [|by apply (I2 r)].
    rewrite (I3 r); [|done|done]. rewrite (Hstep r) by done. apply lookup_insert_eq.
  - intros r -> Hn. cbn [fmap list_fmap fst] in Hn. apply not_elem_of_cons in Hn as [Hne Hn].
    rewrite (I3 r) by done. destruct (decide (take 9 k' = lit "net.nnti.")) as [E|E].
    + pose proof (net_prefix _ E) as E'. rewrite (Hstep _ E'), lookup_insert_ne; [done|].
      intros Hx%app_inv_head. apply Hne. by rewrite E', Hx.
    + by rewrite Hkeep.
Qed.

Definition transport_of (c : Configuration) : option str :=
  match GetString c (lit "net.transport.name") [] with
  | (0%Z, transport_name) => Some (nnti_name transport_name)
  | _ => None
  end.

(** The settings that are copied: those of the configuration as the steps before left it. *)
Lemma copied_settings c k v :
  settled c → ¬ nnti_key k →
  let c1 := set_transport (set_logfile (set_severity c)) in
  (k, v) ∈ entries (config_map c1) ↔ config_map c !! k = Some v.
Proof. intros Hc Hk c1. rewrite elem_of_entries. unfold c1. by rewrite before_copy. Qed.

Lemma settled_set c name val :
  settled c → ToLowercase name = name → plain name = true → settled (Set_ c name val).
Proof.
  intros Hc Hl Hp. unfold settled. rewrite Set_map by done. by apply map_Forall_insert_2.
Qed.

Lemma settled_before_copy c : settled c → settled (set_transport (set_logfile (set_severity c))).
Proof.
  intros Hc. unfold set_transport. set (c2 := set_logfile _). assert (settled c2) as H2.
  { subst c2. unfold set_logfile. set (c1 := set_severity c). assert (settled c1).
    { subst c1. unfold set_severity. destruct (first_severity c severities); [|done]. by apply settled_set. }
    destruct (GetString c1 _ _) as [[] ?]; try done. by apply settled_set. }
  destruct (GetString c2 _ _) as [[] ?]; try done. by apply settled_set.
Qed.

Lemma net_key_not_nnti r : ¬ nnti_key (lit "net.nnti." ++ r).
Proof. intros [s Hs]. discriminate. Qed.

(** The name of the transport is not touched by what was set before it is read. *)
Lemma role_key_apart (x : str) :
  x ++ lit ".net.transport.name" ≠ lit "nnti.logger.severity" ∧
  x ++ lit ".net.transport.name" ≠ lit "nnti.logger.filename".
Proof.
  split; intros E; pose proof (f_equal length E) as Hl; rewrite length_app in Hl; cbn in Hl;
    (destruct x as [|c [|? ?]]; cbn in Hl; [lia| |lia]); discriminate.
Qed.

Definition name_keys (c : Configuration) : list str := search_list c (lit "net.transport.name").

Lemma name_keys_apart c k :
  k ∈ name_keys c → k ≠ lit "nnti.logger.severity" ∧ k ≠ lit "nnti.logger.filename".
Proof.
  unfold name_keys, search_list. intros Hk. repeat apply elem_of_cons in Hk as [->|Hk]; [| |done|by apply elem_of_nil in Hk].
  - apply role_key_apart.
  - done.
Qed.

Lemma first_match_ext (m m' : gmap str str) l : (∀ k, k ∈ l → m !! k = m' !! k) → first_match m l = first_match m' l.
Proof.
  induction l as [|k l IH]; intros Hl; [done|]. cbn [first_match].
  rewrite (Hl k) by (by left). destruct (m' !! k); [done|]. apply IH. intros k' Hk'. apply Hl. by right.
Qed.

Lemma name_set c key val :
  key = lit "nnti.logger.severity" ∨ key = lit "nnti.logger.filename" →
  GetString (Set_ c key val) (lit "net.transport.name") [] = GetString c (lit "net.transport.name") [].
Proof.
  intros Hk. unfold GetString, findBestMatch.
  assert (node_role (Set_ c key val) = node_role c ∧ config_map (Set_ c key val) = <[key := val]> (config_map c)) as [Hr Hm].
  { destruct Hk as [-> | ->]; split; done || by rewrite Set_map. }
  unfold search_list. rewrite Hr, Hm.
  change (ToLowercase (lit "net.transport.name")) with (lit "net.transport.name").
  rewrite (first_match_ext _ (config_map c)); [done|]. intros k [H1 H2]%(name_keys_apart c).
  rewrite lookup_insert_ne; [done|]. intros <-. by destruct Hk.
Qed.

Lemma name_before_copy c :
  GetString (set_logfile (set_severity c)) (lit "net.transport.name") [] = GetString c (lit "net.transport.name") [].
Proof.
  unfold set_logfile. set (c1 := set_severity c).
  assert (GetString c1 (lit "net.transport.name") [] = GetString c (lit "net.transport.name") []) as <-.
  { subst c1. unfold set_severity. destruct (first_severity c severities); [|done]. apply name_set. by left. }
  destruct (GetString c1 (lit "net.log.filename") []) as [[] logfile]; [|done..]. apply name_set. by right.
Qed.

(** The transport is configured from the settings of the network module: what is set for NNTI
    under "net." is what NNTI finds, the transport has the name it is known by unless there is a
    setting for NNTI itself, and all other settings are as they were. *)
Theorem translateConfig_spec c :
  settled c →
  (∀ r v, config_map c !! (lit "net.nnti." ++ r) = Some v →
     config_map (translateConfig c) !! (lit "nnti." ++ r) = Some v) ∧
  (∀ name, transport_of c = Some name → config_map c !! lit "net.nnti.transport.name" = None →
     config_map (translateConfig c) !! lit "nnti.transport.name" = Some name) ∧
  (∀ k, ¬ nnti_key k → config_map (translateConfig c) !! k = config_map c !! k).
Proof.
  intros Hc. unfold translateConfig. set (c1 := set_transport _).
  assert (settled c1) as Hc1 by (by apply settled_before_copy).
  assert (Forall (λ kv, ToLowercase kv.1 = kv.1 ∧ plain kv.1 = true) (entries (config_map c1))) as Hall.
  { apply Forall_forall. intros [k v] Hkv%elem_of_entries. by apply (Hc1 k v). }
  change (GetAllSettings c1) with ((lit "node_role", GetRole c1) :: entries (config_map c1)). cbn [fold_left].
  change (copy_setting c1 (lit "node_role", GetRole c1)) with c1.
  split_and!.
  - intros r v Hv. apply (copy_all _ c1 _ Hall) with r; [done|apply NoDup_entries_fst|].
    apply copied_settings; [done|apply net_key_not_nnti|done].
  - intros name Hname Hnone.
    rewrite (proj2 (proj2 (copy_all _ c1 (lit "nnti.transport.name") Hall)) (lit "transport.name")); [|done|].
    + unfold transport_of in Hname. subst c1. unfold set_transport. rewrite name_before_copy.
      destruct (GetString c (lit "net.transport.name") []) as [[] tn]; try done. injection Hname as <-.
      rewrite Set_map by done. apply lookup_insert_eq.
    + intros ([k v] & Hk & Hin)%list_elem_of_fmap. cbn in Hk. subst k.
      apply (copied_settings c (lit "net.nnti.transport.name")) in Hin;
        [congruence|done|exact (net_key_not_nnti (lit "transport.name"))].
  - intros k Hk. rewrite (proj1 (copy_all _ c1 k Hall)) by done. by apply before_copy.
Qed.

(** * Starting, and objects in registered memory *)

Section start.
Context (new_object : Z → Z → transport → outcome (pinned * transport)).
(** Making an object leaves the queues of the transport alone. *)
Context (made : ∀ m d t, ∃ p t', new_object m d t = Ok (p, t') ∧ queues t' = queues t ∧
  unexpected_queue_ t' = unexpected_queue_ t).

Lemma post_recv_buffers_ok n size a bufs t :
  ∃ new t', post_recv_buffers new_object n size a bufs t = Ok (bufs ++ new, t') ∧ length new = n ∧
    queues t' = queues t ∧ unexpected_queue_ t' = unexpected_queue_ t.
Proof using made.
  revert bufs t. induction n as [|n IH]; intros bufs t; cbn [post_recv_buffers].
  { exists [], t. by rewrite app_nil_r. }
  unfold NewMessage. destruct (made (u16 (u32 (mtu a - max_eager_size a))) (u32 size) t) as (p & t1 & -> & Q1 & U1).
  cbn [mbind outcome_bind]. destruct (IH (bufs ++ [p]) t1) as (new & t2 & -> & Hl & Q2 & U2).
  exists (p :: new), t2. rewrite <-app_assoc. split_and!; [done|by rewrite <-Hl|congruence|congruence].
Qed.

(** A module that is started has ten receive buffers, and its callback is asked about messages
    nobody waits for. *)
Lemma Start_ready a url at_ cb k1 k2 k3 k4 t :
  GetAttrs a url = Ok at_ → k1 ∉ [k2; k3; k4] →
  ∃ n t', Start new_object true NNTI_OK a url cb k1 k2 k3 k4 t = Ok (n, t') ∧
    started_ n = true ∧ length (recv_buffers_ n) = 10 ∧
    unexpected_queue_ t' = Some k1 ∧ queues t' !! k1 = Some (new_queue 128 cb).
Proof using made.
  intros Ha Hk. unfold Start, setupRecvQueue. rewrite bool_decide_eq_true_2, Ha by done.
  cbn [F_ASSERT mbind outcome_bind]. set (t4 := eq_create _ k4 _ _ _).
  destruct (post_recv_buffers_ok 10 (net_max_eager_size at_) a [] t4) as (new & t' & -> & Hl & Q & U).
  eexists _, t'. split; [done|]. cbn [started_ recv_buffers_ app]. split_and!; [done|done|by rewrite U|].
  rewrite Q. subst t4. cbn [eq_create queues].
  apply not_elem_of_cons in Hk as [H2 [H3 [H4 _]%not_elem_of_cons]%not_elem_of_cons].
  rewrite !lookup_insert_ne by done. apply lookup_insert_eq.
Qed.
End start.

(** An object in memory that is registered: [pre] is in front of it and [local] are its local
    fields. *)
Lemma registered_object t t' addr id o pre local post :
  RegisterMemory addr id (pre ++ local ++ wire o ++ post) t = Ok t' → ldo_ok o →
  zlen local = offsetof_header → (zlen pre mod 4 = 0)%Z →
  padding (alloc o) = ldo_padding (meta_bytes (alloc o)) (data_bytes (alloc o)) →
  (meta_bytes (alloc o) + data_bytes (alloc o) + padding (alloc o) ≤ zlen (user o))%Z →
  (8 + meta_bytes (alloc o) + data_bytes (alloc o) + 4 < 2 ^ 32)%Z →
  (zlen (pre ++ local ++ wire o ++ post) < 2 ^ 32)%Z →
  ∃ b, object_at t' o (mkPinned addr (zlen pre) (alloc o)) b ∧ queuing (tbuf b) = false.
Proof.
  intros Hr Hok Hl Hp Hpad Hroom Hs Hlen. unfold RegisterMemory, register_memory in Hr.
  apply bind_Ok in Hr as (? & _ & Hr). apply bind_Ok in Hr as (? & _ & Hr). injection Hr as <-.
  eexists. split; [constructor|]; cbn [r_alloc r_buffer r_base with_buffer buffer_map]; try done.
  - split; [apply zlen_nonneg|done].
  - apply lookup_insert_eq.
  - rewrite <-Hl, <-zlen_app. apply (read_middle' _ (pre ++ local) (wire o) post); [|done|done].
    cbn [tbuf mem new_buffer fst]. by rewrite <-app_assoc.
  - split; [reflexivity|exact Hlen].
  - reflexivity.
Qed.

(** * Two nodes *)

(** A message of five bytes, as it is made: the padding is part of the memory. *)
Definition message_ldo : outcome ldo_obj := new_ldo (lit "mmdata!") 7 2 5 7.

Definition plain_ldo (o : outcome ldo_obj) : ldo_obj :=
  match o with Ok o => o | Throw _ => mkLdo (mkAllocation 0 0 0 [] 0 0 0) [] end.

Definition msg : ldo_obj := Eval vm_compute in plain_ldo message_ldo.
Definition local_fields : str := Eval vm_compute in replicate 48 "L"%char.

Definition net_node (id base : Z) (peers : gmap Z Z) : transport :=
  mkTransport id {[base := mkTarget (new_buffer 1 rdma_flags base (local_fields ++ wire msg)).1 None (λ _, NNTI_OK)]}
    {[1%Z := new_queue 128 (λ _, NNTI_OK)]} (Some 1%Z) [] 1 peers [].

Definition node_a : transport := net_node 7 4096 ∅.
Definition node_b : transport := net_node 8 8192 {[7%Z := 70%Z]}.
Definition msg_at (base : Z) : pinned := mkPinned base 0 (alloc msg).
Definition msg_target (base : Z) : target :=
  mkTarget (new_buffer 1 rdma_flags base (local_fields ++ wire msg)).1 None (λ _, NNTI_OK).

Lemma msg_ok : ldo_ok msg.
Proof. constructor; vm_compute; done || (split; congruence || done). Qed.

Lemma msg_registered id base ps : object_at (net_node id base ps) msg (msg_at base) (msg_target base).
Proof.
  constructor; try exact msg_ok; try (vm_compute; done || (split; congruence || done)).
  - unfold net_node. cbn [buffer_map msg_at r_buffer]. apply lookup_singleton_eq.
Qed.

Lemma get_fetches_witness :
  ∃ wr c t', Get 8 (GetRdmaPtr (λ _, mpi_length (tbuf (msg_target 8192))) (msg_at 8192)) (msg_at 4096) = Ok wr ∧
    rdma node_a wr = Ok (NNTI_OK, Some (c, [])) ∧ receive node_b c [] = Some (Ok t') ∧
    replies t' = [Get_data 70 4096 (take 16 (wire msg))].
Proof.
  destruct (get_fetches_object node_a node_b msg (msg_at 8192) (msg_target 8192) (msg_at 4096) msg (msg_target 4096) 70)
    as (wr & c & t' & H1 & H2 & H3 & H4 & _);
    [apply msg_registered|apply msg_registered|done|vm_compute; reflexivity|apply Nat.lt_0_1|].
  exists wr, c, t'. exact (conj H1 (conj H2 (conj H3 H4))).
Defined.

Lemma window_witness :
  let b := makeRemoteBuffer (4096, 100)%Z 48 20 in
  nbr_ok (fold_left adjust_nbr [Inc 8; Dec 30; Trim 5] b) ∧ inside (fold_left adjust_nbr [Inc 8; Dec 30; Trim 5] b) b.
Proof.
  apply window_stays_inside; [constructor; vm_compute; done|]. repeat constructor; vm_compute; done.
Defined.

Lemma message_arrives_witness :
  let n := mkNet true (mkAttrs 2048 1815) [msg_at 8192] in
  ∃ wr c t1 e res br', send_request (attrs n) false 8 (msg_at 4096) = Ok (wr, false) ∧
    send node_a wr = Ok (NNTI_OK, Some (c, [])) ∧
    receive node_b c [] = Some (Ok t1) ∧ e = create_event c 70 0 ∧
    unexpected_callback (λ _ _ _, Throw Halt) n t1 e [] = Some (Ok res) ∧
    cb_call res = Some (mkReceived 70 8192 58) ∧ buffer_map (cb_transport res) !! 8192%Z = Some br' ∧
    mem_read (mem (tbuf br')) 58 5 = Ok (lit "data!").
Proof.
  intros n.
  destruct (message_arrives (λ _ _ _, Throw Halt) node_a node_b msg (msg_at 4096) (msg_target 4096) 1
    (new_queue 128 (λ _, NNTI_OK)) n (msg_at 8192) [] (msg_target 8192) 58 (lit "data!") 70 8)
    as (wr & c & t1 & e & res & br' & H0 & H1 & H2 & H3 & H4 & _ & H5 & H6 & H7 & _);
    [apply msg_registered|vm_compute; reflexivity|done|done|vm_compute; congruence|done|done|
     vm_compute; reflexivity|done|done|vm_compute; reflexivity|apply Nat.lt_0_1|done|done| |].
  - constructor; vm_compute; done || (split; congruence || done).
  - exists wr, c, t1, e, res, br'. exact (conj H0 (conj H1 (conj H2 (conj H3 (conj H4 (conj H5 (conj H6 H7))))))).
Defined.

(** A get with a callback: the object outlives the last handle of the application. *)
Definition one_object : lunasa_state := mkState {[1 := mkAllocation 1 67 1 [] 7 2 5]} {[0 := Some 1]}.
Definition get_event : NNTI_event_t := create_op_event (mkWr NNTI_OP_GET 8 4096 48 (Some (8192, 116)%Z) 48 16 0 0) 0 NNTI_EVENT_NOOP.

Lemma handle_leaks_witness :
  ∃ s1 u s2 s3, take_handle 9 0 one_object = Ok s1 ∧ user_invoking_callback get_event 9 s1 = Ok (u, s2) ∧
    dtor 0 s2 = Ok s3 ∧ heap s3 !! 1 = Some (mkAllocation 1 67 1 [] 7 2 5).
Proof.
  destruct (rdma_handle_leaks one_object 0 1 (mkAllocation 1 67 1 [] 7 2 5) 9 get_event)
    as (s1 & u & s2 & s3 & H1 & H2 & H3 & _ & _ & H4);
    [done|done|done|done|by right; right; left|].
  exists s1, u, s2, s3. destruct H4 as [H4 _]; [done|]. exact (conj H1 (conj H2 (conj H3 H4))).
Defined.

Definition node_addr : NodeID.t := NodeID.mk 281474976718225.

Lemma failed_connect_witness :
  let connect := λ _, (NNTI_ETIMEDOUT, None) in
  (Connect connect 99 5 node_addr no_peers).1 = (NNTI_ETIMEDOUT, 5) ∧
  (Connect connect 99 6 node_addr (Connect connect 99 5 node_addr no_peers).2).1 = (NNTI_OK, 5) ∧
  peer_objects (Connect connect 99 6 node_addr (Connect connect 99 5 node_addr no_peers).2).2 !! 5 = Some 99%Z.
Proof. intros connect. apply failed_connect_sticks; [exact no_peers_ok|done..]. Defined.

Lemma Finish_witness :
  let s := mkPeers {[3%Z := 0; 4%Z := 1]} {[0 := 3%Z; 1 := 4%Z]} {[0 := 30%Z; 1 := 40%Z]} in
  ∃ n' s', Finish (λ _, NNTI_OK) true (mkNet true (mkAttrs 2048 1815) [msg_at 8192]) s = Ok (n', s') ∧
    left_ s' = ∅ ∧ right_ s' = ∅ ∧ started_ n' = false ∧ recv_buffers_ n' = [].
Proof.
  intros s. apply Finish_disconnects; [|done]. constructor; intros n p; cbn.
  - rewrite !lookup_insert_Some, !lookup_singleton_Some. naive_solver.
  - rewrite lookup_insert_Some, lookup_singleton_Some. intros [[<- <-]|(_ & <- & <-)]; by eexists.
Defined.

Definition net_config : Configuration :=
  mkConfig (lit "server") (list_to_map [(lit "net.transport.name", lit "verbs"); (lit "net.log.info", lit "true");
    (lit "net.nnti.logger.severity", lit "fatal"); (lit "net.nnti.freelist.size", lit "64")]).

Lemma translateConfig_witness :
  let c := translateConfig net_config in
  config_map c !! lit "nnti.freelist.size" = Some (lit "64") ∧
  config_map c !! lit "nnti.transport.name" = Some (lit "ibverbs") ∧
  config_map c !! lit "net.transport.name" = Some (lit "verbs").
Proof.
  intros c. assert (settled net_config) as Hs.
  { apply map_Forall_to_list. vm_compute. repeat constructor. }
  destruct (translateConfig_spec net_config Hs) as (H1 & H2 & H3). split_and!.
  - by apply (H1 (lit "freelist.size")).
  - by apply H2.
  - unfold c. rewrite H3; [done|]. intros [s Es]. discriminate.
Defined.

Lemma GetAttrs_witness :
  GetAttrs (mkAttrs 2048 1815) (lit "http://10.0.0.7:1990/nnti") = Ok (mkNetAttrs 2048 1815 (lit "10.0.0.7") (lit "1990")).
Proof.
  apply (GetAttrs_url (mkAttrs 2048 1815) (lit "http") (lit "10.0.0.7") (lit "1990") (lit "nnti"));
    try done; by apply (bool_decide_unpack _).
Defined.

(** The padding is set when an object is made: after its sizes were changed, a get of the entire
    object ends the process. *)
Example get_after_resize_aborts :
  let a := mkAllocation 1 67 1 [] 7 2 5 in
  ModifyUserSizes (Some a) 2 4 = (0%Z, Some (mkAllocation 1 67 1 [] 7 2 4)) ∧
  Get 8 (makeRemoteBuffer (8192, 116)%Z 48 60) (mkPinned 4096 0 (mkAllocation 1 67 1 [] 7 2 4)) = Throw Exit.
Proof. split; reflexivity. Qed.

(** A get of a part asks for the padding of the local object as well: four bytes end the process
    with one object, and are eight with another. *)
Example get_part_adds_padding :
  Get_part 8 (makeRemoteBuffer (8192, 116)%Z 48 60) 0 (msg_at 4096) 0 4 = Throw Exit ∧
  wr_length <$> Get_part 8 (makeRemoteBuffer (8192, 116)%Z 48 60) 0 (mkPinned 4096 0 (mkAllocation 1 72 4 [] 7 4 8)) 0 4
    = Ok 8%Z.
Proof. split; reflexivity. Qed.

(** With one operand it is an addition and with two a comparison, whatever was asked for; with
    none nothing is sent and nobody is told. *)
Example atomic_by_operands op :
  option_map wr_op <$> Atomic 8 op (msg_at 4096) 0 (makeRemoteBuffer (8192, 116)%Z 48 60) 0 8 [1%Z]
    = Ok (Some NNTI_OP_ATOMIC_FADD) ∧
  option_map wr_op <$> Atomic 8 op (msg_at 4096) 0 (makeRemoteBuffer (8192, 116)%Z 48 60) 0 8 [1; 2]%Z
    = Ok (Some NNTI_OP_ATOMIC_CSWAP) ∧
  Atomic 8 op (msg_at 4096) 0 (makeRemoteBuffer (8192, 116)%Z 48 60) 0 8 [] = Ok None.
Proof. done. Qed.

(** A message whose sizes were changed after it was made cannot be sent: the handle of its data
    section asserts that there is no room to spare. *)
Example send_after_resize_halts attrs peer :
  send_request attrs false peer (mkPinned 4096 0 (mkAllocation 1 67 1 [] 7 2 4)) = Throw AssertFailed.
Proof. done. Qed.

Example trim_to_nothing : TrimToLength 0 (makeRemoteBuffer (8192, 116)%Z 48 60) = (0%Z, mkNbr 48 0 (8192, 116)%Z).
Proof. reflexivity. Qed.

(** * The handles *)

Definition pinned_of (b : block) : pinned := mkPinned (net_buffer_handle b) (block_net_offset b) (allocation b).

Definition handle_in (w : world) (h : outcome (Z * Z)) : outcome (Z * Z * world) := (λ h, (h.1, h.2, w)) <$> h.

(** For an object in memory that is registered and without user memory, the handles above are
    those of the object. *)
Theorem handles_agree w l b :
  Allocators.mem w !! l = Some b → net_buffer_handle b ≠ 0%Z → user_data_segments (allocation b) = [] →
  GetBaseRdmaHandle (Some l) w = handle_in w (Ok (BaseHandle (pinned_of b))) ∧
  GetHeaderRdmaHandle (Some l) w = handle_in w (Ok (HeaderHandle (pinned_of b))) ∧
  GetMetaRdmaHandle (Some l) w = handle_in w (MetaHandle (pinned_of b)) ∧
  GetDataRdmaHandle (Some l) w = handle_in w (DataHandle (pinned_of b)).
Proof.
  intros Hl Hh Hu.
  assert (ensure_pinned l w = Ok (b, w)) as Hp.
  { unfold ensure_pinned, get_block. rewrite Hl. cbn [mbind outcome_bind]. by rewrite (proj2 (Z.eqb_neq _ _)). }
  unfold GetBaseRdmaHandle, GetHeaderRdmaHandle, GetMetaRdmaHandle, GetDataRdmaHandle, GetBaseRdmaHandles,
    GetHeaderRdmaHandles, GetMetaRdmaHandles, GetDataRdmaHandles, MetaHandle, DataHandle, section_handle,
    user_segment_desc, pinned_of.
  rewrite Hp. cbn [mbind outcome_bind r_alloc r_buffer r_base]. rewrite Hu.
  rewrite (Z.add_assoc (block_net_offset b) offsetof_user).
  split_and!; [done|done|..].
  all: destruct (allocated_bytes (allocation b) =? sizeof_Allocation)%Z; [done|].
  all: destruct (sizeof_Allocation <? allocated_bytes (allocation b))%Z; [|done].
  - by destruct (offsetof_user + meta_bytes _ <=? _)%Z.
  - by destruct (allocated_bytes _ =? offsetof_user + _ + _ + _)%Z.
Qed.

Lemma handles_agree_witness :
  let w := mkWorld ∅ {[7 := mkBlock (mkAllocation 1 64 1 [] 7 2 5) 9 40 [] 4]} [] in
  GetDataRdmaHandle (Some 7) w = handle_in w (DataHandle (mkPinned 9 40 (mkAllocation 1 64 1 [] 7 2 5))).
Proof. intros w. apply (handles_agree w 7 (mkBlock (mkAllocation 1 64 1 [] 7 2 5) 9 40 [] 4)); done. Defined.
