(* ===== verification/KelpieTypes.v ===== *)
(** Kelpie's shared types (src/src/kelpie/common/Types.hh, Types.cpp,
    ObjectCapacities.cpp): availability, object information, the behaviour flags of a
    pool, and the result list of a listing. *)
From S2P Require Import Prelude StringHelpers Key.

(** * Availability and object information *)

Inductive Availability :=
| Unavailable | Requested | MixedConditions
| InLocalMemory | InRemoteMemory | InNVM | InDisk.

#[global] Instance Availability_eq_dec : EqDecision Availability.
Proof. solve_decision. Defined.

Definition availability_to_string (a : Availability) : str :=
  match a with
  | Unavailable => lit "Unavailable"
  | Requested => lit "Requested"
  | InLocalMemory => lit "InLocalMemory"
  | InRemoteMemory => lit "InRemoteMemory"
  | InNVM => lit "InNVM"
  | InDisk => lit "InDisk"
  | MixedConditions => lit "Unknown?"
  end.

Record object_info_t := mkInfo {
  row_user_bytes : Z;
  col_user_bytes : Z;
  row_num_columns : Z;      (** [uint16_t] *)
  col_dependencies : Z;     (** [uint16_t] *)
  col_availability : Availability
}.

#[global] Instance object_info_eq_dec : EqDecision object_info_t.
Proof. solve_decision. Defined.

Definition Wipe : object_info_t := mkInfo 0 0 0 0 Unavailable.

Definition ChangeAvailabilityFromLocalToRemote (i : object_info_t) : object_info_t :=
  mkInfo (row_user_bytes i) (col_user_bytes i) (row_num_columns i) (col_dependencies i)
    (if bool_decide (col_availability i = InLocalMemory) then InRemoteMemory
     else col_availability i).

Definition info_str (i : object_info_t) : str :=
  lit "RowBytes: " ++ show_dec (row_user_bytes i)
  ++ lit " NumCols: " ++ show_dec (row_num_columns i)
  ++ lit " ColBytes: " ++ show_dec (col_user_bytes i)
  ++ lit " ColDepenencies: " ++ show_dec (col_dependencies i)
  ++ lit " Availability: " ++ availability_to_string (col_availability i).

(** * Pool behaviour flags *)

Module PoolBehavior.
Definition WriteToLocal : Z := 0x01.
Definition WriteToRemote : Z := 0x02.
Definition WriteToIOM : Z := 0x04.
Definition ReadToLocal : Z := 0x08.
Definition ReadToRemote : Z := 0x10.
Definition EnableOverwrites : Z := 0x80.

Definition WriteAround : Z := WriteToIOM.
Definition WriteToMemory : Z := Z.lor WriteToLocal WriteToRemote.
Definition WriteToAll : Z := Z.lor (Z.lor WriteToLocal WriteToRemote) WriteToIOM.
Definition ReadToNone : Z := 0.
Definition NoAction : Z := 0.

Definition DefaultBaseClass : Z := Z.lor (Z.lor WriteToMemory ReadToLocal) ReadToRemote.
Definition DefaultLocal : Z := Z.lor WriteToLocal ReadToLocal.
Definition DefaultRemote : Z := Z.lor WriteToRemote ReadToLocal.
Definition DefaultIOM : Z := Z.lor WriteToIOM ReadToNone.
Definition DefaultLocalIOM : Z := Z.lor (Z.lor WriteToIOM WriteToLocal) ReadToLocal.
Definition DefaultRemoteIOM : Z := Z.lor (Z.lor WriteToIOM WriteToRemote) ReadToRemote.
Definition DefaultCachingIOM : Z := Z.lor (Z.lor WriteToAll ReadToLocal) ReadToRemote.

(** [f & flag], as a condition. *)
Definition has (f flag : Z) : bool := negb (Z.land f flag =? 0)%Z.

Definition ChangeRemoteToLocal (f : Z) : Z :=
  let f := Z.ldiff f (Z.lor WriteToLocal ReadToLocal) in
  let f := if has f WriteToRemote then Z.lor f WriteToLocal else f in
  let f := if has f ReadToRemote then Z.lor f ReadToLocal else f in
  Z.ldiff f (Z.lor WriteToRemote ReadToRemote).

(** The flag a token of a behaviour string stands for. *)
Definition token_flag (s : str) : option Z :=
  if s =s? lit "writetolocal" then Some WriteToLocal
  else if s =s? lit "writetoremote" then Some WriteToRemote
  else if s =s? lit "writetoiom" then Some WriteToIOM
  else if s =s? lit "readtolocal" then Some ReadToLocal
  else if s =s? lit "readtoremote" then Some ReadToRemote
  else if s =s? lit "enableoverwrites" then Some EnableOverwrites
  else if s =s? lit "writearound" then Some WriteAround
  else if s =s? lit "writememory" then Some WriteToMemory
  else if s =s? lit "writeall" then Some WriteToAll
  else if s =s? lit "readtonone" then Some ReadToNone
  else if s =s? lit "defaultlocal" then Some DefaultLocal
  else if s =s? lit "defaultremote" then Some DefaultRemote
  else if s =s? lit "defaultiom" then Some DefaultIOM
  else if s =s? lit "defaultlocaliom" then Some DefaultLocalIOM
  else if s =s? lit "defaultremoteiom" then Some DefaultRemoteIOM
  else if s =s? lit "defaultcachingiom" then Some DefaultCachingIOM
  else None.

Fixpoint parse_tokens (syms : list str) (f : Z) : outcome Z :=
  match syms with
  | [] => Ok f
  | s :: syms' =>
      match token_flag s with
      | Some flag => parse_tokens syms' (Z.lor f flag)
      | None => Throw RuntimeError
      end
  end.

Definition ParseString (parse_line : str) : outcome Z :=
  parse_tokens (Split (ToLowercase parse_line) "_"%char true) 0.

Definition flag_names : list (Z * str) :=
  [ (WriteToLocal, lit "WriteToLocal"); (WriteToRemote, lit "WriteToRemote");
    (WriteToIOM, lit "WriteToIOM"); (ReadToLocal, lit "ReadToLocal");
    (ReadToRemote, lit "ReadToRemote"); (EnableOverwrites, lit "EnableOverwrites") ].

Definition names_of (f : Z) : list str := (filter (λ p, has f p.1 = true) flag_names).*2.

Definition GetString (f : Z) : str := Join (names_of f) " "%char.

(** All the bits that mean something. *)
Definition known : Z := 0x9F.

(** A value of a [pool_behavior_t], checked by running through the 256 of them. *)
Lemma forall_u8 (P : Z → bool) f :
  in_width 8 f → forallb P (seqZ 0 256) = true → P f = true.
Proof.
  intros [H0 H1] Hall. rewrite forallb_forall in Hall. apply Hall.
  apply list_elem_of_In, elem_of_seqZ. lia.
Qed.

(** On the remote side, the local flags are what the remote flags asked for, the remote
    flags are gone, and nothing else changes. *)
Theorem ChangeRemoteToLocal_spec f :
  in_width 8 f →
  let g := ChangeRemoteToLocal f in
  has g WriteToLocal = has f WriteToRemote ∧ has g ReadToLocal = has f ReadToRemote ∧
  has g WriteToRemote = false ∧ has g ReadToRemote = false ∧
  has g WriteToIOM = has f WriteToIOM ∧ has g EnableOverwrites = has f EnableOverwrites ∧
  in_width 8 g.
Proof.
  intros Hf. simpl.
  set (P f := let g := ChangeRemoteToLocal f in
    eqb (has g WriteToLocal) (has f WriteToRemote) && eqb (has g ReadToLocal) (has f ReadToRemote)
    && negb (has g WriteToRemote) && negb (has g ReadToRemote)
    && eqb (has g WriteToIOM) (has f WriteToIOM)
    && eqb (has g EnableOverwrites) (has f EnableOverwrites)
    && (0 <=? g)%Z && (g <? 256)%Z).
  assert (HP : P f = true) by (apply forall_u8; [done|vm_compute; reflexivity]).
  unfold P in HP. simpl in HP. rewrite !andb_true_iff, !eqb_true_iff, !negb_true_iff in HP.
  destruct HP as [[[[[[[? ?] ?] ?] ?] ?] ?] ?]. unfold in_width.
  split_and!; (done || lia).
Qed.

(** Printing the flags and parsing the printed names (with the separator the parser
    reads) restores the meaningful bits. *)
Theorem ParseString_names f :
  in_width 8 f → ParseString (Join (names_of f) "_"%char) = Ok (Z.land f known).
Proof.
  intros Hf.
  pose (P := λ f, bool_decide (ParseString (Join (names_of f) "_"%char) = Ok (Z.land f known))).
  assert (HP : P f = true) by (apply forall_u8; [done|vm_compute; reflexivity]).
  by apply bool_decide_eq_true in HP.
Qed.
End PoolBehavior.

(** * Object capacities *)

(** Two vectors kept in step by the callers. *)
Record ObjectCapacities := mkOC { oc_keys : list Key; oc_capacities : list Z }.

Definition oc_empty : ObjectCapacities := mkOC [] [].
Definition oc_Size (o : ObjectCapacities) : nat := length (oc_keys o).

Definition oc_Append (o : ObjectCapacities) (k : Key) (c : Z) : ObjectCapacities :=
  mkOC (oc_keys o ++ [k]) (oc_capacities o ++ [c]).

Definition oc_AppendAll (o other : ObjectCapacities) : ObjectCapacities :=
  mkOC (oc_keys o ++ oc_keys other) (oc_capacities o ++ oc_capacities other).

(** [Merge]: the keys of [other] that are not there yet, one at a time. *)
Fixpoint oc_merge_go (o : ObjectCapacities) (ks : list Key) (cs : list Z) : outcome ObjectCapacities :=
  match ks with
  | [] => Ok o
  | k :: ks' =>
      if decide (k ∈ oc_keys o) then oc_merge_go o ks' (tail cs)
      else
        match cs with
        | c :: cs' => oc_merge_go (oc_Append o k c) ks' cs'
        | [] => Throw Undefined
        end
  end.

Definition oc_Merge (o other : ObjectCapacities) : outcome ObjectCapacities :=
  oc_merge_go o (oc_keys other) (oc_capacities other).

Fixpoint oc_find (i : Z) (ks : list Key) (key : Key) : Z :=
  match ks with
  | [] => -1
  | k :: ks' => if decide (k = key) then i else oc_find (i + 1) ks' key
  end.

Definition oc_FindIndex (o : ObjectCapacities) (key : Key) : Z := oc_find 0 (oc_keys o) key.

Definition oc_wf (o : ObjectCapacities) : Prop := length (oc_keys o) = length (oc_capacities o).

Lemma oc_merge_go_spec ks cs o :
  oc_wf o → length ks = length cs →
  ∃ o', oc_merge_go o ks cs = Ok o' ∧ oc_wf o' ∧
    oc_keys o `prefix_of` oc_keys o' ∧ oc_capacities o `prefix_of` oc_capacities o' ∧
    (NoDup (oc_keys o) → NoDup (oc_keys o')) ∧
    (∀ k, k ∈ oc_keys o' ↔ k ∈ oc_keys o ∨ k ∈ ks).
Proof.
  revert cs o; induction ks as [|k ks IH]; intros [|c cs] o Hwf Hlen; simplify_eq/=.
  { exists o. split_and!; try done. set_solver. }
  case_decide as Hk.
  - destruct (IH cs o Hwf Hlen) as (o' & -> & ? & ? & ? & ? & Hks). exists o'.
    split_and!; try done. intros k'. rewrite Hks. set_solver.
  - destruct (IH cs (oc_Append o k c)) as (o' & -> & ? & Hp1 & Hp2 & Hnd & Hks); [|done|].
    { unfold oc_wf in *. simpl. rewrite !length_app. simpl. lia. }
    exists o'. simpl in *. split_and!; try done.
    + etrans; [|done]. by apply prefix_app_r.
    + etrans; [|done]. by apply prefix_app_r.
    + intros Hn. apply Hnd. apply NoDup_app. split_and!; [done| |apply NoDup_singleton].
      set_solver.
    + intros k'. rewrite Hks. set_solver.
Qed.

(** Merging two lists keeps the entries of the first one in place, adds exactly the
    missing keys of the second, and creates no duplicate. *)
Theorem oc_Merge_spec o other :
  oc_wf o → oc_wf other →
  ∃ o', oc_Merge o other = Ok o' ∧ oc_wf o' ∧
    oc_keys o `prefix_of` oc_keys o' ∧ oc_capacities o `prefix_of` oc_capacities o' ∧
    (NoDup (oc_keys o) → NoDup (oc_keys o')) ∧
    (∀ k, k ∈ oc_keys o' ↔ k ∈ oc_keys o ∨ k ∈ oc_keys other).
Proof. intros Hwf Hwf'. by apply oc_merge_go_spec. Qed.

(** * Witnesses *)

Lemma ChangeRemoteToLocal_spec_witness :
  let f := PoolBehavior.DefaultRemote in
  let g := PoolBehavior.ChangeRemoteToLocal f in
  PoolBehavior.has g PoolBehavior.WriteToLocal = PoolBehavior.has f PoolBehavior.WriteToRemote ∧
  PoolBehavior.has g PoolBehavior.ReadToLocal = PoolBehavior.has f PoolBehavior.ReadToRemote ∧
  PoolBehavior.has g PoolBehavior.WriteToRemote = false ∧
  PoolBehavior.has g PoolBehavior.ReadToRemote = false ∧
  PoolBehavior.has g PoolBehavior.WriteToIOM = PoolBehavior.has f PoolBehavior.WriteToIOM ∧
  PoolBehavior.has g PoolBehavior.EnableOverwrites = PoolBehavior.has f PoolBehavior.EnableOverwrites ∧
  in_width 8 g.
Proof.
  apply (PoolBehavior.ChangeRemoteToLocal_spec PoolBehavior.DefaultRemote).
  split; [discriminate|reflexivity].
Defined.

Lemma ParseString_names_witness :
  PoolBehavior.ParseString (Join (PoolBehavior.names_of PoolBehavior.DefaultRemote) "_"%char)
  = Ok PoolBehavior.DefaultRemote.
Proof.
  apply (PoolBehavior.ParseString_names PoolBehavior.DefaultRemote).
  split; [discriminate|reflexivity].
Defined.

Lemma oc_Merge_spec_witness :
  let k1 := row_key (lit "a") in let k2 := row_key (lit "b") in
  ∃ o', oc_Merge (mkOC [k1] [1]%Z) (mkOC [k1; k2] [5; 6]%Z) = Ok o' ∧ oc_wf o' ∧
    [k1] `prefix_of` oc_keys o' ∧ [1]%Z `prefix_of` oc_capacities o' ∧
    (NoDup [k1] → NoDup (oc_keys o')) ∧
    (∀ k, k ∈ oc_keys o' ↔ k ∈ [k1] ∨ k ∈ [k1; k2]).
Proof.
  apply (oc_Merge_spec (mkOC [row_key (lit "a")] [1]%Z)
    (mkOC [row_key (lit "a"); row_key (lit "b")] [5; 6]%Z)); reflexivity.
Defined.
