(* ===== verification/LocalKVRow.v ===== *)
(** The cells and rows of the local key/value store
    (src/src/kelpie/localkv/LocalKVCell.cpp, LocalKVRow.cpp).

    A row owns a map from column names to cells, and a separate cell for the column with no
    name.  The store sees a data object through [LdoOps]; time is the reading of [time(NULL)]
    an operation makes, passed as [now].  What an operation makes others do (callbacks,
    op triggers) is its list of events, in order. *)
From S2P Require Import Prelude StringHelpers Key KelpieTypes.

(** * What the store needs of a data object *)

Class LdoOps (D : Type) := {
  ldo_null : D;                 (** a default-constructed object *)
  ldo_user_size : D → Z;        (** [GetUserSize], a [uint32_t] *)
  ldo_data : D → str            (** the bytes behind [GetDataPtr], [GetDataSize] of them *)
}.

(** The content of a data object: type, meta section, data section; [None] is the null
    object. *)
Record ldo_content := mkLdo { ldo_type : Z; ldo_meta_section : str; ldo_data_section : str }.

#[global] Instance ldo_content_eq_dec : EqDecision ldo_content.
Proof. solve_decision. Defined.

#[global] Instance content_ops : LdoOps (option ldo_content) := {
  ldo_null := None;
  ldo_user_size d :=
    from_option (λ c, u32 (Z.of_nat (length (ldo_meta_section c) + length (ldo_data_section c))))
      0%Z d;
  ldo_data d := from_option ldo_data_section [] d
}.

Module LambdaFlags.
Definition CREATE_IF_MISSING : Z := 0x01.
Definition TRIGGER_DEPENDENCIES : Z := 0x02.
Definition DONT_CREATE_OR_TRIGGER : Z := 0x0.
End LambdaFlags.

Abbreviation mailbox_t := Z.
Abbreviation callback_id := nat.

(** What the store asks of the rest of the node. *)
Inductive event (D : Type) :=
| EvCallback (cb : callback_id) (key : Key) (d : D) (info : object_info_t)
| EvBackburner (cb : callback_id) (key : Key) (d : D) (info : object_info_t)
| EvTrigger (mb : mailbox_t) (args : option (D * object_info_t)).
Arguments EvCallback {D} _ _ _ _.
Arguments EvBackburner {D} _ _ _ _.
Arguments EvTrigger {D} _ _.

(** Iterating a [std::set<mailbox_t>]. *)
Definition mailboxes (s : gset mailbox_t) : list mailbox_t := merge_sort Z.le (elements s).

Lemma elem_of_mailboxes s mb : mb ∈ mailboxes s ↔ mb ∈ s.
Proof. unfold mailboxes. by rewrite merge_sort_Permutation, elem_of_elements. Qed.

Lemma length_mailboxes s : length (mailboxes s) = size s.
Proof. unfold mailboxes. by rewrite merge_sort_Permutation. Qed.

Lemma mailboxes_small s : size s ≤ 1 → mailboxes s = elements s.
Proof.
  unfold mailboxes, size, set_size. simpl. by destruct (elements s) as [|x [|]]; simpl; [| |lia].
Qed.

Lemma NoDup_mailboxes s : NoDup (mailboxes s).
Proof. unfold mailboxes. rewrite merge_sort_Permutation. apply NoDup_elements. Qed.

Section localkv_row.
Context {D : Type} `{LdoOps D}.

(** * Cells *)

Record LocalKVCell := mkCell {
  availability : Availability;
  hold_until : Z;
  drop_requested : bool;
  time_posted : Z;
  time_accessed : Z;
  time_offloaded : Z;
  ldo : D;
  waiting_ops_list : gset mailbox_t;
  callback_list : list callback_id
}.

Definition getTime (now : Z) : Z := u32 now.

Definition new_cell (now : Z) : LocalKVCell :=
  mkCell Unavailable 0 false (getTime now) (getTime now) 0 ldo_null ∅ [].

Definition getUserSize (c : LocalKVCell) : Z := ldo_user_size (ldo c).
Definition getNumDependencies (c : LocalKVCell) : nat :=
  size (waiting_ops_list c) + length (callback_list c).

Definition set_availability (c : LocalKVCell) (a : Availability) : LocalKVCell :=
  mkCell a (hold_until c) (drop_requested c) (time_posted c) (time_accessed c)
    (time_offloaded c) (ldo c) (waiting_ops_list c) (callback_list c).
Definition set_drop_requested (c : LocalKVCell) : LocalKVCell :=
  mkCell (availability c) (hold_until c) true (time_posted c) (time_accessed c)
    (time_offloaded c) (ldo c) (waiting_ops_list c) (callback_list c).
Definition set_accessed (now : Z) (c : LocalKVCell) : LocalKVCell :=
  mkCell (availability c) (hold_until c) (drop_requested c) (time_posted c) (getTime now)
    (time_offloaded c) (ldo c) (waiting_ops_list c) (callback_list c).
(** Storing an object: availability, object, and the time it was posted. *)
Definition fill (now : Z) (d : D) (c : LocalKVCell) : LocalKVCell :=
  mkCell InLocalMemory (hold_until c) (drop_requested c) (getTime now) (time_accessed c)
    (time_offloaded c) d (waiting_ops_list c) (callback_list c).

Definition cell_isDroppable (now : Z) (c : LocalKVCell) : bool :=
  if bool_decide (0 < getNumDependencies c) then false
  else if bool_decide (availability c ≠ InLocalMemory) then false
  else if (getTime now <? hold_until c)%Z then false
  else true.

(** [LocalKVCell::getInfo] writes the column half of [info]; the count of dependencies is
    cut to 16 bits. *)
Definition cell_getInfo (c : LocalKVCell) (info : object_info_t) : object_info_t :=
  mkInfo (row_user_bytes info) (getUserSize c) (row_num_columns info)
    (u16 (Z.of_nat (getNumDependencies c))) (availability c).

Definition appendWaitingList (mb : mailbox_t) (c : LocalKVCell) : LocalKVCell :=
  mkCell (availability c) (hold_until c) (drop_requested c) (time_posted c) (time_accessed c)
    (time_offloaded c) (ldo c) ({[mb]} ∪ waiting_ops_list c) (callback_list c).
Definition appendCallbackList (cb : callback_id) (c : LocalKVCell) : LocalKVCell :=
  mkCell (availability c) (hold_until c) (drop_requested c) (time_posted c) (time_accessed c)
    (time_offloaded c) (ldo c) (waiting_ops_list c) (callback_list c ++ [cb]).
Definition clear_dependencies (c : LocalKVCell) : LocalKVCell :=
  mkCell (availability c) (hold_until c) (drop_requested c) (time_posted c) (time_accessed c)
    (time_offloaded c) (ldo c) ∅ [].

(** * Rows *)

Record LocalKVRow := mkRow {
  rowname : str;
  col_single : option LocalKVCell;
  cols : gmap str LocalKVCell
}.

Definition new_row (name : str) : LocalKVRow := mkRow name None ∅.

Definition getNumCols (r : LocalKVRow) : nat :=
  size (cols r) + (if col_single r then 1 else 0).

Definition getCol (name : str) (r : LocalKVRow) : option LocalKVCell :=
  match name with [] => col_single r | _ => cols r !! name end.

(** [col_single = c] or [cols[name] = c]. *)
Definition setCol (name : str) (c : LocalKVCell) (r : LocalKVRow) : LocalKVRow :=
  match name with
  | [] => mkRow (rowname r) (Some c) (cols r)
  | _ => mkRow (rowname r) (col_single r) (<[name := c]> (cols r))
  end.
(** [delete cell] with [col_single = nullptr] or [cols.erase(name)]. *)
Definition eraseCol (name : str) (r : LocalKVRow) : LocalKVRow :=
  match name with
  | [] => mkRow (rowname r) None (cols r)
  | _ => mkRow (rowname r) (col_single r) (delete name (cols r))
  end.

(** The first column; on a row with no column the iterator is the end of the map. *)
Definition getFirstColumnName (r : LocalKVRow) : outcome str :=
  match col_single r, entries (cols r) with
  | Some _, _ => Ok []
  | None, (name, _) :: _ => Ok name
  | None, [] => Throw Undefined
  end.
Definition getFirstColumnUserSize (r : LocalKVRow) : outcome Z :=
  match col_single r, entries (cols r) with
  | Some c, _ => Ok (getUserSize c)
  | None, (_, c) :: _ => Ok (getUserSize c)
  | None, [] => Throw Undefined
  end.

Definition getOrCreateCol (now : Z) (key : Key) (r : LocalKVRow)
    : LocalKVCell * bool * LocalKVRow :=
  match getCol (K2 key) r with
  | Some c => (c, true, r)
  | None => let c := new_cell now in (c, false, setCol (K2 key) c r)
  end.

(** The loop of a wildcard search: the columns from the prefix on that start with it and
    hold data. *)
Definition active_columns (prefix : str) (r : LocalKVRow) : list (str * LocalKVCell) :=
  filter (λ nc, getUserSize nc.2 ≠ 0%Z ∧ StringBeginsWith nc.1 prefix = true)
    (lower_bound prefix (entries (cols r))).

(** [getActiveColumnNamesCapacities]: the matches (name, capacity), and the count it
    returns, which leaves the no-name column of a wildcard search out. *)
Definition getActiveColumnNamesCapacities (search_string : str) (r : LocalKVRow)
    : list (str * Z) * nat :=
  if negb (StringEndsWith search_string star) then
    match getCol search_string r with
    | None => ([], 0)
    | Some c => ([(search_string, getUserSize c)], 1)
    end
  else
    let prefix := chop search_string in
    let noname :=
      match prefix, col_single r with [], Some c => [([], getUserSize c)] | _, _ => [] end in
    let found := active_columns prefix r in
    (noname ++ ((λ nc, (nc.1, getUserSize nc.2)) <$> found), length found).

(** The loop of a wildcard drop: the names it erases, and the cells it only marks. *)
Definition prefix_columns (prefix : str) (r : LocalKVRow) : list (str * LocalKVCell) :=
  filter (λ nc, StringBeginsWith nc.1 prefix = true) (lower_bound prefix (entries (cols r))).

Definition drop_one (now : Z) (nc : str * LocalKVCell) (m : gmap str LocalKVCell)
    : gmap str LocalKVCell :=
  if cell_isDroppable now nc.2 then delete nc.1 m
  else <[nc.1 := set_drop_requested nc.2]> m.

Definition dropColumns (now : Z) (search_string : str) (r : LocalKVRow) : LocalKVRow * nat :=
  if negb (StringEndsWith search_string star) then
    match getCol search_string r with
    | None => (r, 0)
    | Some c =>
        ( if cell_isDroppable now c then eraseCol search_string r
          else setCol search_string (set_drop_requested c) r, 1 )
    end
  else
    let prefix := chop search_string in
    let hit_single := bool_decide (prefix = []) && bool_decide (is_Some (col_single r)) in
    let found := prefix_columns prefix r in
    ( mkRow (rowname r) (if hit_single then None else col_single r)
        (foldr (drop_one now) (cols r) found),
      (if hit_single then 1 else 0) + length found ).

Definition row_isDroppable (now : Z) (r : LocalKVRow) : bool :=
  match col_single r with
  | Some c => cell_isDroppable now c
  | None => true
  end && forallb (λ nc, cell_isDroppable now nc.2) (entries (cols r)).

Definition isEmpty (r : LocalKVRow) : bool :=
  bool_decide (col_single r = None) && bool_decide (cols r = ∅).

(** [LocalKVRow::drop]: the bytes dropped so far, whether the row can go. *)
Definition row_drop (now : Z) (key : Key) (dropped_bytes : Z) (r : LocalKVRow)
    : rc_t * Z * bool * LocalKVRow :=
  let '(bytes, r') :=
    match getCol (K2 key) r with
    | Some c => (u64 (dropped_bytes + getUserSize c), eraseCol (K2 key) r)
    | None => (dropped_bytes, r)
    end in
  (KELPIE_OK, bytes, row_isDroppable now r', r').

Definition getAvailability (r : LocalKVRow) : Availability :=
  let a :=
    match col_single r, entries (cols r) with
    | Some c, _ => Some (availability c)
    | None, (_, c) :: _ => Some (availability c)
    | None, [] => None
    end in
  match a with
  | None => Unavailable
  | Some a =>
      if forallb (λ nc, bool_decide (availability nc.2 = a)) (entries (cols r)) then a
      else MixedConditions
  end.

Definition sum_sizes (l : list (str * LocalKVCell)) : Z :=
  foldl (λ acc nc, u64 (acc + getUserSize nc.2)) 0%Z l.

(** [LocalKVRow::getInfo] writes the row half of [info]. *)
Definition row_getInfo (key : Key) (r : LocalKVRow) (info : object_info_t) : object_info_t :=
  let prefix_match := if IsColWildcard key then chop (K2 key) else [] in
  match prefix_match with
  | [] =>
      mkInfo
        (foldl (λ acc nc, u64 (acc + getUserSize nc.2))
           (from_option getUserSize 0%Z (col_single r)) (entries (cols r)))
        (col_user_bytes info) (u16 (Z.of_nat (getNumCols r)))
        (col_dependencies info) (col_availability info)
  | _ =>
      let hits := filter (λ nc, StringBeginsWith nc.1 prefix_match = true) (entries (cols r)) in
      mkInfo (sum_sizes hits) (col_user_bytes info) (u16 (Z.of_nat (length hits)))
        (col_dependencies info) (col_availability info)
  end.

(** * Waking what waits on a cell *)

(** The ops are triggered while the list of backburner work is being built; the work is
    handed over after.  The argument of the triggers is moved out of its variable by the
    first of them. *)
Definition trigger_all (mbs : list mailbox_t) (args : D * object_info_t) : list (event D) :=
  match mbs with
  | [] => []
  | mb :: rest => EvTrigger mb (Some args) :: ((λ mb, EvTrigger mb None) <$> rest)
  end.

Definition dispatchCallbacksAndNotifications (r : LocalKVRow) (key : Key) (c : LocalKVCell)
    : LocalKVCell * list (event D) :=
  if bool_decide (callback_list c = []) && bool_decide (waiting_ops_list c = ∅) then (c, [])
  else
    let info := cell_getInfo c (row_getInfo key r Wipe) in
    ( clear_dependencies c,
      trigger_all (mailboxes (waiting_ops_list c)) (ldo c, info)
      ++ ((λ cb, EvBackburner cb key (ldo c) info) <$> callback_list c) ).

(** * An operation on one column

    [func] sees the row and the cell, and returns the code, the cell as it leaves it, what it
    makes happen and what it hands to the caller. *)
Definition fn_column_op_t (R : Type) : Type :=
  LocalKVRow → LocalKVCell → bool → rc_t * LocalKVCell * list (event D) * R.

Definition row_doColOp {R} (now : Z) (key : Key) (flags : Z) (info : option object_info_t)
    (func : fn_column_op_t R) (r : LocalKVRow)
    : rc_t * LocalKVRow * option object_info_t * list (event D) * option R :=
  let run c existed r :=
    let '(rc, c1, evs, out) := func r c existed in
    let r1 := setCol (K2 key) c1 r in
    let '(c2, evs2) :=
      if PoolBehavior.has flags LambdaFlags.TRIGGER_DEPENDENCIES
      then dispatchCallbacksAndNotifications r1 key c1 else (c1, []) in
    (rc, setCol (K2 key) (set_accessed now c2) r1, cell_getInfo c2 <$> info, evs ++ evs2,
      Some out) in
  if PoolBehavior.has flags LambdaFlags.CREATE_IF_MISSING then
    let '(c, existed, r') := getOrCreateCol now key r in run c existed r'
  else
    match getCol (K2 key) r with
    | None => (KELPIE_ENOENT, r, (λ _, Wipe) <$> info, [], None)
    | Some c => run c true r
    end.

Implicit Types (now : Z) (name : str) (c : LocalKVCell) (r : LocalKVRow).

(** * Columns of a row *)

Lemma getCol_setCol name c r : getCol name (setCol name c r) = Some c.
Proof. destruct name; simpl; [done|]. by rewrite lookup_insert_eq. Qed.

Lemma getCol_setCol_ne name name' c r :
  name' ≠ name → getCol name' (setCol name c r) = getCol name' r.
Proof.
  intros Hne. destruct name, name'; simpl; try done.
  by rewrite lookup_insert_ne by congruence.
Qed.

Lemma getCol_eraseCol name r : getCol name (eraseCol name r) = None.
Proof. destruct name; simpl; [done|]. by rewrite lookup_delete_eq. Qed.

Lemma getCol_eraseCol_ne name name' r :
  name' ≠ name → getCol name' (eraseCol name r) = getCol name' r.
Proof.
  intros Hne. destruct name, name'; simpl; try done.
  by rewrite lookup_delete_ne by congruence.
Qed.

Lemma rowname_setCol name c r : rowname (setCol name c r) = rowname r.
Proof. by destruct name. Qed.
Lemma rowname_eraseCol name r : rowname (eraseCol name r) = rowname r.
Proof. by destruct name. Qed.

Lemma setCol_setCol name c c' r : setCol name c (setCol name c' r) = setCol name c r.
Proof. destruct name; simpl; [done|]. by rewrite insert_insert_eq. Qed.

Lemma setCol_id name c r : getCol name r = Some c → setCol name c r = r.
Proof. destruct r, name; simpl; intros Hc; [by simplify_eq|]. by rewrite insert_id. Qed.

(** The column map never holds the empty name: that column is [col_single]. *)
Definition row_wf (r : LocalKVRow) : Prop := cols r !! [] = None.

Lemma row_wf_setCol name c r : row_wf r → row_wf (setCol name c r).
Proof. unfold row_wf. destruct name; simpl; [done|]. by rewrite lookup_insert_ne. Qed.
Lemma row_wf_eraseCol name r : row_wf r → row_wf (eraseCol name r).
Proof. unfold row_wf. destruct name; simpl; [done|]. by rewrite lookup_delete_ne. Qed.

#[local] Hint Resolve row_wf_setCol row_wf_eraseCol rowname_setCol rowname_eraseCol : faodel.

Lemma isEmpty_true r : isEmpty r = true ↔ col_single r = None ∧ cols r = ∅.
Proof. unfold isEmpty. by rewrite andb_true_iff, !bool_decide_eq_true. Qed.

Lemma isEmpty_getCol r : row_wf r → isEmpty r = true ↔ ∀ name, getCol name r = None.
Proof.
  intros Hwf. rewrite isEmpty_true. split.
  - intros [? Hc] [|a name]; simpl; [done|]. by rewrite Hc.
  - intros Hn. split; [apply (Hn [])|]. apply map_empty. intros [|a k]; [done|].
    apply (Hn (a :: k)).
Qed.

Lemma setCol_not_isEmpty name c r : isEmpty (setCol name c r) = false.
Proof.
  apply not_true_iff_false. rewrite isEmpty_true. destruct name; simpl; [by intros []|].
  intros [_ Hc]. by apply insert_non_empty in Hc.
Qed.

(** * The column operation, once and for all *)

Lemma has_flags_create :
  PoolBehavior.has LambdaFlags.CREATE_IF_MISSING LambdaFlags.CREATE_IF_MISSING = true ∧
  PoolBehavior.has LambdaFlags.CREATE_IF_MISSING LambdaFlags.TRIGGER_DEPENDENCIES = false ∧
  PoolBehavior.has LambdaFlags.DONT_CREATE_OR_TRIGGER LambdaFlags.CREATE_IF_MISSING = false ∧
  PoolBehavior.has LambdaFlags.DONT_CREATE_OR_TRIGGER LambdaFlags.TRIGGER_DEPENDENCIES = false.
Proof. done. Qed.

(** The cell an operation that may create it works on. *)
Definition cell_or_new (now : Z) (name : str) (r : LocalKVRow) : LocalKVCell :=
  default (new_cell now) (getCol name r).

(** What a column operation leaves in the row: only the named column changes, its waiting
    lists are untouched or handed out by the dispatch, and its access time is [now]. *)
Lemma row_doColOp_spec {R} now key flags info (func : fn_column_op_t R) r :
  let c := cell_or_new now (K2 key) r in
  let existed := bool_decide (is_Some (getCol (K2 key) r)) in
  let r0 := if existed then r else setCol (K2 key) c r in
  let '(rc, c1, evs, out) := func r0 c existed in
  let '(c2, evs2) :=
    if PoolBehavior.has flags LambdaFlags.TRIGGER_DEPENDENCIES
    then dispatchCallbacksAndNotifications (setCol (K2 key) c1 r) key c1 else (c1, []) in
  existed = true ∨ PoolBehavior.has flags LambdaFlags.CREATE_IF_MISSING = true →
  row_doColOp now key flags info func r =
    (rc, setCol (K2 key) (set_accessed now c2) r, cell_getInfo c2 <$> info, evs ++ evs2,
      Some out).
Proof.
  simpl. unfold cell_or_new, row_doColOp, getOrCreateCol.
  destruct (getCol (K2 key) r) as [c|] eqn:Hc; simpl.
  - destruct (func r c true) as [[[rc c1] evs] out] eqn:Hf.
    destruct (if PoolBehavior.has flags _ then _ else _) as [c2 evs2] eqn:Hd.
    intros _. destruct (PoolBehavior.has flags LambdaFlags.CREATE_IF_MISSING);
      by rewrite ?Hd, setCol_setCol.
  - destruct (func (setCol (K2 key) (new_cell now) r) (new_cell now) false)
      as [[[rc c1] evs] out] eqn:Hf.
    destruct (if PoolBehavior.has flags LambdaFlags.TRIGGER_DEPENDENCIES then _ else _)
      as [c2 evs2] eqn:Hd.
    intros [?| ->]; [done|]. by rewrite setCol_setCol, Hd, !setCol_setCol.
Qed.

Lemma row_doColOp_missing {R} now key flags info (func : fn_column_op_t R) r :
  getCol (K2 key) r = None → PoolBehavior.has flags LambdaFlags.CREATE_IF_MISSING = false →
  row_doColOp now key flags info func r = (KELPIE_ENOENT, r, (λ _, Wipe) <$> info, [], None).
Proof. intros Hc Hf. unfold row_doColOp. by rewrite Hf, Hc. Qed.

(** * Waking up *)

Definition triggered (evs : list (event D)) : list mailbox_t :=
  omap (λ e, match e with EvTrigger mb _ => Some mb | _ => None end) evs.
(** The triggers with the object each hands over, if any. *)
Definition offered (evs : list (event D)) : list (mailbox_t * option D) :=
  omap (λ e, match e with EvTrigger mb args => Some (mb, fst <$> args) | _ => None end) evs.
Definition called (evs : list (event D)) : list (callback_id * Key * D) :=
  omap (λ e, match e with EvBackburner cb k d _ => Some (cb, k, d) | _ => None end) evs.

Lemma triggered_app e1 e2 : triggered (e1 ++ e2) = triggered e1 ++ triggered e2.
Proof. apply omap_app. Qed.
Lemma called_app e1 e2 : called (e1 ++ e2) = called e1 ++ called e2.
Proof. apply omap_app. Qed.

Lemma triggered_trigger_all mbs args : triggered (trigger_all mbs args) = mbs.
Proof.
  destruct mbs as [|mb mbs]; [done|]. simpl. f_equal.
  induction mbs as [|mb' mbs IH]; [done|]. simpl. by f_equal.
Qed.
Lemma called_trigger_all mbs args : called (trigger_all mbs args) = [].
Proof.
  destruct mbs as [|mb mbs]; [done|]. simpl. by induction mbs as [|mb' mbs IH].
Qed.
Lemma offered_trigger_all mbs args :
  length mbs ≤ 1 → offered (trigger_all mbs args) = (λ mb, (mb, Some args.1)) <$> mbs.
Proof. destruct mbs as [|mb [|]]; simpl; [done|done|lia]. Qed.
Lemma offered_backburner cbs key d info :
  offered ((λ cb, EvBackburner cb key d info) <$> cbs) = [].
Proof. by induction cbs. Qed.
Lemma triggered_backburner cbs key d info :
  triggered ((λ cb, EvBackburner cb key d info) <$> cbs) = [].
Proof. by induction cbs. Qed.
Lemma called_backburner cbs key d info :
  called ((λ cb, EvBackburner cb key d info) <$> cbs) = (λ cb, (cb, key, d)) <$> cbs.
Proof. induction cbs as [|cb cbs IH]; [done|]. simpl. by f_equal. Qed.

(** Dispatching triggers every op that waits on the cell exactly once, in mailbox order, and
    queues every callback exactly once, in the order they were left, with the object the cell
    holds; after it nothing waits and the rest of the cell is unchanged.  An op that waits alone
    is handed the object. *)
Lemma dispatch_once r key c :
  let '(c', evs) := dispatchCallbacksAndNotifications r key c in
  c' = clear_dependencies c ∧
  triggered evs = mailboxes (waiting_ops_list c) ∧
  called evs = (λ cb, (cb, key, ldo c)) <$> callback_list c ∧
  (size (waiting_ops_list c) ≤ 1 →
   offered evs = (λ mb, (mb, Some (ldo c))) <$> mailboxes (waiting_ops_list c)).
Proof.
  unfold dispatchCallbacksAndNotifications.
  destruct (bool_decide (callback_list c = []) && _) eqn:E.
  { apply andb_true_iff in E as [Hc%bool_decide_eq_true Hw%bool_decide_eq_true].
    destruct c; simpl in *. by subst. }
  rewrite triggered_app, called_app, triggered_trigger_all, called_trigger_all,
    triggered_backburner, called_backburner, app_nil_r.
  split_and!; [done..|]. intros Hsz. unfold offered. rewrite omap_app. fold offered.
  rewrite <-length_mailboxes in Hsz.
  by rewrite offered_trigger_all, offered_backburner, app_nil_r.
Qed.

(** Only the op with the lowest mailbox is handed the object: every other waiting op is
    triggered with an empty argument. *)
Theorem dispatch_args_moved r key c mb mb0 :
  mb ∈ waiting_ops_list c → mb0 ∈ waiting_ops_list c → (mb0 < mb)%Z →
  let evs := (dispatchCallbacksAndNotifications r key c).2 in
  EvTrigger mb None ∈ evs ∧ ∀ args, EvTrigger mb (Some args) ∉ evs.
Proof.
  intros Hmb Hmb0 Hlt. unfold dispatchCallbacksAndNotifications.
  rewrite (bool_decide_false (waiting_ops_list c = ∅)) by (intros He; set_solver).
  rewrite andb_false_r. cbn [snd].
  pose proof (elem_of_mailboxes (waiting_ops_list c) mb) as Hin. rewrite <-Hin in Hmb.
  rewrite <-elem_of_mailboxes in Hmb0.
  assert (Hs : StronglySorted Z.le (mailboxes (waiting_ops_list c)))
    by (apply StronglySorted_merge_sort; apply _).
  destruct (mailboxes _) as [|m0 rest]; [set_solver|].
  assert (Hne : mb ≠ m0).
  { intros ->. apply StronglySorted_inv in Hs as [_ Hall]. rewrite Forall_forall in Hall.
    apply elem_of_cons in Hmb0 as [->|Hmb0]; [lia|]. specialize (Hall _ Hmb0). lia. }
  apply elem_of_cons in Hmb as [?|Hmb]; [done|]. split.
  - apply elem_of_app; left. simpl. right. apply list_elem_of_fmap. by exists mb.
  - intros args [Ht|Hb]%elem_of_app.
    + simpl in Ht. apply elem_of_cons in Ht as [?|Ht]; [by simplify_eq|].
      by apply list_elem_of_fmap in Ht as (? & ? & _).
    + by apply list_elem_of_fmap in Hb as (? & ? & _).
Qed.

(** * Searching a row *)

Lemma elem_of_active_columns prefix r name c :
  (name, c) ∈ active_columns prefix r ↔
  cols r !! name = Some c ∧ prefix `prefix_of` name ∧ getUserSize c ≠ 0%Z.
Proof.
  unfold active_columns. rewrite list_elem_of_filter. simpl. rewrite StringBeginsWith_spec.
  pose proof (elem_of_lower_bound_prefix prefix (cols r) name c). naive_solver.
Qed.

Lemma NoDup_filter_lower_bound {V} (m : gmap str V) prefix (P : str * V → Prop)
    `{!∀ x, Decision (P x)} :
  NoDup (filter P (lower_bound prefix (entries m))).*1.
Proof.
  apply (sublist_NoDup _ (entries m).*1); [apply NoDup_entries_fst|].
  apply fmap_sublist. etrans; [apply sublist_filter|apply lower_bound_sublist].
Qed.

(** A search returns the columns its text selects, each once, with the size of its object; a
    wildcard leaves out the named columns that hold no data. *)
Lemma getActive_spec s r :
  row_wf r →
  NoDup (getActiveColumnNamesCapacities s r).1.*1 ∧
  ∀ name cap, (name, cap) ∈ (getActiveColumnNamesCapacities s r).1 ↔
    ∃ c, getCol name r = Some c ∧ cap = getUserSize c ∧ selects s name ∧
      (StringEndsWith s star = true → name ≠ [] → cap ≠ 0%Z).
Proof.
  intros Hwf. unfold getActiveColumnNamesCapacities.
  destruct (StringEndsWith s star) eqn:E; simpl.
  - pose proof E as [p ->]%StringEndsWith_star. rewrite chop_star.
    set (nn := match p with [] => _ | _ => _ end).
    assert (Hnn : ∀ name cap, (name, cap) ∈ nn ↔
        p = [] ∧ name = [] ∧ ∃ c, col_single r = Some c ∧ cap = getUserSize c).
    { intros name cap. subst nn. destruct p; [|set_solver].
      destruct (col_single r) as [c|]; [|set_solver].
      rewrite list_elem_of_singleton. naive_solver. }
    assert (Hndn : NoDup nn.*1).
    { subst nn. destruct p; [|constructor]. destruct (col_single r); simpl; [|constructor].
      apply NoDup_singleton. }
    split.
    + rewrite fmap_app, <-list_fmap_compose.
      change (NoDup (nn.*1 ++ (active_columns p r).*1)).
      apply NoDup_app. split_and!; [done| |apply NoDup_filter_lower_bound].
      intros n ([n' cap] & -> & (-> & -> & _)%Hnn)%list_elem_of_fmap.
      intros ([n' c] & Hn' & Hin)%list_elem_of_fmap. simpl in *. subst n'.
      apply elem_of_active_columns in Hin as [Hc _]. unfold row_wf in Hwf. congruence.
    + intros name cap. rewrite elem_of_app, Hnn, list_elem_of_fmap. setoid_rewrite selects_star.
      split.
      * intros [(-> & -> & c & Hc & ->)|([n c] & [=-> ->] & (? & ? & ?)%elem_of_active_columns)].
        { exists c. split_and!; try done. }
        exists c. destruct n; [by unfold row_wf in Hwf; congruence|]. done.
      * intros (c & Hc & -> & Hp & Hsz). destruct name as [|a name].
        { left. apply prefix_nil_inv in Hp as ->. eauto. }
        right. exists (a :: name, c). split; [done|]. apply elem_of_active_columns.
        split_and!; [done|done|]. by apply Hsz.
  - destruct (getCol s r) as [c|] eqn:Hc; simpl.
    + split; [apply NoDup_singleton|]. intros name cap. rewrite list_elem_of_singleton.
      split; [|intros (c' & ? & -> & ->%selects_exact & _); [by simplify_eq|done]].
      intros [= -> ->]. exists c. split_and!; try done. by apply selects_exact.
    + split; [constructor|]. intros name cap. split; [by intros ?%elem_of_nil|].
      intros (c & ? & _ & ->%selects_exact & _); [congruence|done].
Qed.

(** * Dropping columns *)

(** What a drop leaves of a selected cell. *)
Definition dropped (now : Z) (c : LocalKVCell) : option LocalKVCell :=
  if cell_isDroppable now c then None else Some (set_drop_requested c).

Lemma lookup_drop_others now (l : list (str * LocalKVCell)) (m : gmap str LocalKVCell) name :
  name ∉ l.*1 → foldr (drop_one now) m l !! name = m !! name.
Proof.
  induction l as [|[n c] l IH]; [done|]. simpl. intros [Hne Hn]%not_elem_of_cons.
  unfold drop_one at 1. simpl. destruct (cell_isDroppable now c).
  - rewrite lookup_delete_ne by done. by apply IH.
  - rewrite lookup_insert_ne by done. by apply IH.
Qed.

Lemma lookup_drop_found now (l : list (str * LocalKVCell)) (m : gmap str LocalKVCell) name c :
  NoDup l.*1 → (name, c) ∈ l → foldr (drop_one now) m l !! name = dropped now c.
Proof.
  induction l as [|[n c'] l IH]; intros Hnd; [by intros ?%elem_of_nil|].
  apply NoDup_cons in Hnd as [Hn Hnd]. simpl. intros [[= <- <-]|Hin]%elem_of_cons.
  - unfold drop_one at 1, dropped. simpl. destruct (cell_isDroppable now c);
      [by rewrite lookup_delete_eq|by rewrite lookup_insert_eq].
  - assert (name ≠ n) by (intros ->; apply Hn, list_elem_of_fmap; by exists (n, c)).
    unfold drop_one at 1. simpl. destruct (cell_isDroppable now c');
      [rewrite lookup_delete_ne by done|rewrite lookup_insert_ne by done]; by apply IH.
Qed.

Lemma elem_of_prefix_columns prefix r name c :
  (name, c) ∈ prefix_columns prefix r ↔ cols r !! name = Some c ∧ prefix `prefix_of` name.
Proof.
  unfold prefix_columns. rewrite list_elem_of_filter. simpl. rewrite StringBeginsWith_spec.
  pose proof (elem_of_lower_bound_prefix prefix (cols r) name c). naive_solver.
Qed.

Lemma lookup_drop_prefix now prefix r name :
  foldr (drop_one now) (cols r) (prefix_columns prefix r) !! name =
    c ← cols r !! name;
    if decide (prefix `prefix_of` name) then dropped now c else Some c.
Proof.
  assert (Hnd : NoDup (prefix_columns prefix r).*1) by apply NoDup_filter_lower_bound.
  destruct (cols r !! name) as [c|] eqn:Hc; simpl; [case_decide as Hp|].
  - apply lookup_drop_found; [done|]. by apply elem_of_prefix_columns.
  - rewrite lookup_drop_others; [done|]. intros ([n c'] & -> & Hin)%list_elem_of_fmap.
    by apply elem_of_prefix_columns in Hin as [_ ?].
  - rewrite lookup_drop_others; [done|]. intros ([n c'] & -> & Hin)%list_elem_of_fmap.
    apply elem_of_prefix_columns in Hin as [? _]. simpl in *. congruence.
Qed.

Lemma getCol_dropColumns now s r name c :
  row_wf r → getCol name r = Some c →
  getCol name (dropColumns now s r).1 =
    if decide (selects s name) then
      if StringEndsWith s star && (name =s? []) then None else dropped now c
    else Some c.
Proof.
  intros Hwf Hc. unfold dropColumns. destruct (StringEndsWith s star) eqn:E; simpl.
  - pose proof E as [p ->]%StringEndsWith_star. rewrite chop_star.
    erewrite (decide_ext _ (p `prefix_of` name)) by apply selects_star.
    destruct name as [|a name]; simpl in *.
    + rewrite Hc. case_decide as Hp.
      * by apply prefix_nil_inv in Hp as ->.
      * destruct p; [by destruct Hp|]. done.
    + rewrite lookup_drop_prefix, Hc. done.
  - erewrite (decide_ext _ (name = s)) by (by apply selects_exact).
    destruct (decide (name = s)) as [->|Hne].
    + rewrite Hc. simpl. unfold dropped. destruct (cell_isDroppable now c);
        [apply getCol_eraseCol|apply getCol_setCol].
    + destruct (getCol s r) as [c'|] eqn:Hs; simpl; [|done].
      destruct (cell_isDroppable now c'); simpl;
        [by rewrite getCol_eraseCol_ne|by rewrite getCol_setCol_ne].
Qed.

Lemma dropColumns_none now s r name :
  row_wf r → getCol name r = None → getCol name (dropColumns now s r).1 = None.
Proof.
  intros Hwf Hc. unfold dropColumns. destruct (StringEndsWith s star) eqn:E; simpl.
  - destruct name as [|a name]; simpl in *.
    + by destruct (bool_decide _ && _).
    + by rewrite lookup_drop_prefix, Hc.
  - destruct (getCol s r) as [c'|] eqn:Hs; simpl; [|done].
    assert (name ≠ s) by congruence. destruct (cell_isDroppable now c');
      [by rewrite getCol_eraseCol_ne|by rewrite getCol_setCol_ne].
Qed.

Lemma dropColumns_wf now s r :
  row_wf r → row_wf (dropColumns now s r).1 ∧ rowname (dropColumns now s r).1 = rowname r.
Proof.
  intros Hwf. unfold dropColumns. destruct (negb _).
  - destruct (getCol s r) as [c|]; [|done]. simpl. destruct (cell_isDroppable now c);
      split; auto with faodel.
  - split; [|done]. unfold row_wf in *. simpl. by rewrite lookup_drop_prefix, Hwf.
Qed.

End localkv_row.

#[export] Hint Resolve row_wf_setCol row_wf_eraseCol rowname_setCol rowname_eraseCol : faodel.
#[export] Hint Rewrite @getCol_setCol @getCol_eraseCol @rowname_setCol @rowname_eraseCol
  @triggered_app @called_app @triggered_trigger_all @called_trigger_all : faodel.
Arguments LocalKVCell : clear implicits.
Arguments LocalKVRow : clear implicits.
Arguments fn_column_op_t : clear implicits.

(** * Witness: two ops wait, the second is woken without the object *)
Lemma dispatch_args_moved_witness :
  let c := appendWaitingList 2 (appendWaitingList 1 (new_cell (D := option ldo_content) 0)) in
  let evs := (dispatchCallbacksAndNotifications (new_row (lit "r")) (row_key (lit "r")) c).2 in
  EvTrigger 2 None ∈ evs ∧ ∀ args, EvTrigger 2 (Some args) ∉ evs.
Proof.
  apply (dispatch_args_moved (new_row (lit "r")) (row_key (lit "r"))
    (appendWaitingList 2 (appendWaitingList 1 (new_cell 0))) 2 1).
  - cbn [waiting_ops_list appendWaitingList]. set_solver.
  - cbn [waiting_ops_list appendWaitingList]. set_solver.
  - reflexivity.
Defined.
