(* ===== verification/LocalKV.v ===== *)
(** The local key/value store of a node (src/src/kelpie/localkv/LocalKV.cpp): its rows, the
    column and row operations every request goes through, and the requests themselves.

    A request runs under the table lock and the row lock, so a request is one step of the
    store.  The rows are the store's state; a request returns its code, the rows it leaves,
    what it hands to the caller and the events it causes.  The I/O module is the interface
    [IomBase] of src/src/kelpie/ioms/IomBase.hh. *)
From S2P Require Import Prelude StringHelpers Identifiers Key KelpieTypes LocalKVRow.

(** * The interface of an I/O module

    [iom_ReadObject] returns the code and the object it leaves in the caller's [ldo]. *)
Class IomBase (I D : Type) := {
  iom_WriteObject : I → Bucket.t → Key → D → rc_t * I;
  iom_ReadObject : I → Bucket.t → Key → rc_t * D;
  iom_ListObjects : I → Bucket.t → Key → ObjectCapacities;
  iom_GetInfo : I → Bucket.t → Key → rc_t * object_info_t
}.

Section localkv.
Context {D : Type} `{LdoOps D} {I : Type} `{IomBase I D}.

Abbreviation table := (gmap str (LocalKVRow D)).
Abbreviation event := (event D).

(** What a request leaves: the code, the rows, the caller's [info] structure, the events, and
    what the column function wrote through the caller's pointers. *)
Record reply (R : Type) := mkReply {
  rep_rc : rc_t;
  rep_rows : table;
  rep_info : option object_info_t;
  rep_events : list event;
  rep_out : option R
}.
Arguments mkReply {R} _ _ _ _ _.
Arguments rep_rc {R} _. Arguments rep_rows {R} _. Arguments rep_info {R} _.
Arguments rep_events {R} _. Arguments rep_out {R} _.

Definition makeRowname (bucket : Bucket.t) (key : Key) : str := Bucket.GetHex bucket ++ K1 key.

Definition getRow (full_row_name : str) (rows : table) : option (LocalKVRow D) :=
  rows !! full_row_name.

Definition doColOp {R} (now : Z) (bucket : Bucket.t) (key : Key) (flags : Z)
    (info : option object_info_t) (func : fn_column_op_t D R) (rows : table) : reply R :=
  let fullrowname := makeRowname bucket key in
  let on_row row :=
    let '(rc, row', info', evs, out) := row_doColOp now key flags info func row in
    mkReply rc (<[fullrowname := row']> rows) (row_getInfo key row' <$> info') evs out in
  match getRow fullrowname rows with
  | Some row => on_row row
  | None =>
      if negb (PoolBehavior.has flags LambdaFlags.CREATE_IF_MISSING)
      then mkReply KELPIE_ENOENT rows ((λ _, Wipe) <$> info) [] None
      else on_row (new_row (K1 key))
  end.

(** A row operation: [func] sees the row and whether it was there, and returns the code and
    the row as it leaves it. *)
Definition fn_row_op_t (R : Type) : Type := LocalKVRow D → bool → rc_t * LocalKVRow D * R.

Definition doRowOp {R} (bucket : Bucket.t) (key : Key) (flags : Z)
    (info : option object_info_t) (func : fn_row_op_t R) (rows : table) : reply R :=
  let fullrowname := makeRowname bucket key in
  let on_row row existed :=
    let '(rc, row', out) := func row existed in
    mkReply rc (<[fullrowname := row']> rows) (row_getInfo key row' <$> info) [] (Some out) in
  match getRow fullrowname rows with
  | Some row => on_row row true
  | None =>
      if negb (PoolBehavior.has flags LambdaFlags.CREATE_IF_MISSING)
      then mkReply KELPIE_ENOENT rows ((λ _, Wipe) <$> info) [] None
      else on_row (new_row (K1 key)) false
  end.

(** * Requests *)

Definition put_func (now : Z) (new_ldo : D) (behavior_flags : Z) : fn_column_op_t D () :=
  λ row col existed,
    if bool_decide (availability col = InLocalMemory)
       && negb (PoolBehavior.has behavior_flags PoolBehavior.EnableOverwrites)
    then (KELPIE_EEXIST, col, [], ())
    else (KELPIE_OK, fill now new_ldo col, [], ()).

Definition put_lambda_flags (behavior_flags : Z) : Z :=
  if PoolBehavior.has behavior_flags PoolBehavior.WriteToLocal
  then Z.lor LambdaFlags.TRIGGER_DEPENDENCIES LambdaFlags.CREATE_IF_MISSING
  else LambdaFlags.TRIGGER_DEPENDENCIES.

(** The write to storage that ends a put. *)
Definition put_iom (bucket : Bucket.t) (key : Key) (new_ldo : D) (behavior_flags : Z)
    (iom : option I) (rc : rc_t) : rc_t * option I :=
  if PoolBehavior.has behavior_flags PoolBehavior.WriteToIOM then
    match iom with
    | Some i =>
        let '(rc2, i') := iom_WriteObject i bucket key new_ldo in
        ((if (rc =? KELPIE_OK)%Z then rc2 else rc), Some i')
    | None => (KELPIE_EIO, None)
    end
  else (rc, iom).

Definition put (now : Z) (bucket : Bucket.t) (key : Key) (new_ldo : D) (behavior_flags : Z)
    (iom : option I) (info : option object_info_t) (rows : table)
    : outcome (reply () * option I) :=
  _ ← F_ASSERT (key_valid key);
  let rep := doColOp now bucket key (put_lambda_flags behavior_flags) info
               (put_func now new_ldo behavior_flags) rows in
  let '(rc, iom') := put_iom bucket key new_ldo behavior_flags iom (rep_rc rep) in
  Ok (mkReply rc (rep_rows rep) (rep_info rep) (rep_events rep) (rep_out rep), iom').

(** [get]: the outer option of the reply is whether the column was there, the inner one
    whether [*ext_ldo] was written. *)
Definition get_func : fn_column_op_t D (option D) :=
  λ row col existed,
    if bool_decide (availability col = InLocalMemory)
    then (KELPIE_OK, col, [], Some (ldo col))
    else (KELPIE_ENOENT, col, [], None).

Definition get (now : Z) (bucket : Bucket.t) (key : Key) (info : option object_info_t)
    (rows : table) : outcome (reply (option D)) :=
  _ ← F_ASSERT (key_valid key);
  Ok (doColOp now bucket key LambdaFlags.DONT_CREATE_OR_TRIGGER info get_func rows).

(** The objects of a row that [getAvailable] collects. *)
Definition available_in (key : Key) (row : LocalKVRow D) (ldos : gmap Key D) : gmap Key D :=
  foldl (λ m nc,
    match getCol nc.1 row with
    | Some cell =>
        if bool_decide (availability cell = InLocalMemory)
        then <[mkKey (K1 key) nc.1 := ldo cell]> m else m
    | None => m
    end) ldos (getActiveColumnNamesCapacities (K2 key) row).1.

Definition getAvailable (now : Z) (bucket : Bucket.t) (key : Key) (ldos : gmap Key D)
    (rows : table) : outcome (rc_t * table * gmap Key D) :=
  _ ← F_ASSERT (key_valid key);
  _ ← F_ASSERT (negb (IsRowWildcard key));
  if negb (IsColWildcard key) then
    rep ← get now bucket key None rows;
    Ok (rep_rc rep, rep_rows rep,
      if (rep_rc rep =? KELPIE_OK)%Z
      then <[key := default ldo_null (mjoin (rep_out rep))]> ldos else ldos)
  else
    let rep := doRowOp bucket key LambdaFlags.DONT_CREATE_OR_TRIGGER None
      (λ row _, let ldos' := available_in key row ldos in
         ((if bool_decide (ldos' = ∅) then KELPIE_ENOENT else KELPIE_OK), row, ldos')) rows in
    Ok (rep_rc rep, rep_rows rep, default ldos (rep_out rep)).

(** [getForOp]: the I/O modules of the node are found by hash. *)
Definition getForOp_func (now : Z) (bucket : Bucket.t) (key : Key) (mailbox_if_missing : mailbox_t)
    (behavior_flags iom_hash : Z) (FindIOM : Z → option I) : fn_column_op_t D (option D) :=
  λ row col existed,
    if bool_decide (availability col = InLocalMemory)
    then (KELPIE_OK, col, [], Some (ldo col))
    else
      let miss rc ext := (rc, appendWaitingList mailbox_if_missing col, [], ext) in
      if (iom_hash =? 0)%Z then miss KELPIE_ENOENT None
      else
        match FindIOM iom_hash with
        | None => miss KELPIE_EIO None
        | Some iom =>
            let '(rc, ext_ldo) := iom_ReadObject iom bucket key in
            if (rc =? KELPIE_OK)%Z then
              ( KELPIE_OK,
                (if PoolBehavior.has behavior_flags PoolBehavior.ReadToRemote
                 then fill now ext_ldo col else set_availability col InDisk),
                [], Some ext_ldo )
            else miss rc (Some ext_ldo)
        end.

Definition getForOp (now : Z) (bucket : Bucket.t) (key : Key) (mailbox_if_missing : mailbox_t)
    (behavior_flags iom_hash : Z) (FindIOM : Z → option I) (info : option object_info_t)
    (rows : table) : outcome (reply (option D)) :=
  _ ← F_ASSERT (key_valid key);
  Ok (doColOp now bucket key LambdaFlags.CREATE_IF_MISSING info
        (getForOp_func now bucket key mailbox_if_missing behavior_flags iom_hash FindIOM) rows).

(** [getData]: the bytes copied to the caller's memory. *)
Definition getData (now : Z) (bucket : Bucket.t) (key : Key) (max_size : nat)
    (info : option object_info_t) (rows : table) : outcome (reply (option D) * str) :=
  _ ← F_ASSERT (key_valid key);
  rep ← get now bucket key info rows;
  let data := ldo_data (default ldo_null (mjoin (rep_out rep))) in
  Ok (rep,
    if (rep_rc rep =? KELPIE_OK)%Z
    then take (if decide (max_size < length data) then max_size else length data) data
    else []).

Definition wantLocal_func (key : Key) (caller_will_fetch_if_missing : bool)
    (callback : option callback_id) : fn_column_op_t D () :=
  λ row col existed,
    if bool_decide (availability col = InLocalMemory) then
      ( KELPIE_OK, col,
        match callback with
        | Some cb => [EvCallback cb key (ldo col) (cell_getInfo col (row_getInfo key row Wipe))]
        | None => []
        end, () )
    else
      let col1 := match callback with Some cb => appendCallbackList cb col | None => col end in
      let already_requested := bool_decide (availability col1 = Requested) in
      if caller_will_fetch_if_missing && negb already_requested
      then (KELPIE_ENOENT, set_availability col1 Requested, [], ())
      else (if already_requested then KELPIE_WAITING else KELPIE_ENOENT, col1, [], ()).

Definition wantLocal (now : Z) (bucket : Bucket.t) (key : Key)
    (caller_will_fetch_if_missing : bool) (callback : option callback_id) (rows : table)
    : outcome (reply ()) :=
  _ ← F_ASSERT (key_valid key);
  Ok (doColOp now bucket key LambdaFlags.CREATE_IF_MISSING None
        (wantLocal_func key caller_will_fetch_if_missing callback) rows).

(** The rows a row wildcard visits: a scan of the table from the prefix on. *)
Definition matching_rows (bucket : Bucket.t) (key_prefix : Key) (rows : table)
    : list (LocalKVRow D) :=
  let prefix := chop (makeRowname bucket (row_key (K1 key_prefix))) in
  (filter (λ nr, StringBeginsWith nr.1 prefix = true) (lower_bound prefix (entries rows))).*2.

(** One row of a drop: the rows, the number of columns hit, and the rows left empty. *)
Definition drop_row (now : Z) (bucket : Bucket.t) (k2 : str) (st : table * nat * list str)
    (name : str) : table * nat * list str :=
  let '(rows, found, recheck) := st in
  let rep := doRowOp bucket (row_key name) 0 None
    (λ row _, let '(row', n) := dropColumns now k2 row in
       ((if isEmpty row' then KELPIE_RECHECK else KELPIE_OK), row', n)) rows in
  ( rep_rows rep, found + default 0 (rep_out rep),
    if (rep_rc rep =? KELPIE_RECHECK)%Z then recheck ++ [name] else recheck ).

(** The cleanup of a drop. *)
Definition drop_cleanup (bucket : Bucket.t) (rows : table) (name : str) : table :=
  let fullrowname := makeRowname bucket (row_key name) in
  match getRow fullrowname rows with
  | Some row => if isEmpty row then delete fullrowname rows else rows
  | None => rows
  end.

Definition lkv_drop (now : Z) (bucket : Bucket.t) (key_prefix : Key) (rows : table)
    : outcome (rc_t * table) :=
  _ ← F_ASSERT (key_valid key_prefix);
  let check_rows :=
    if negb (IsRowWildcard key_prefix) then [K1 key_prefix]
    else rowname <$> matching_rows bucket key_prefix rows in
  let '(rows', found_items, recheck_rows) :=
    foldl (drop_row now bucket (K2 key_prefix)) (rows, 0, []) check_rows in
  Ok ( (if decide (found_items = 0) then KELPIE_ENOENT else KELPIE_OK),
       foldl (drop_cleanup bucket) rows' recheck_rows ).

(** Appending the matches of one row to a listing. *)
Definition list_row (k2 : str) (k1 : str) (row : LocalKVRow D) (oc : ObjectCapacities)
    : ObjectCapacities * nat :=
  let found := (getActiveColumnNamesCapacities k2 row).1 in
  ( mkOC (oc_keys oc ++ (mkKey k1 <$> found.*1)) (oc_capacities oc ++ found.*2), length found ).

Definition list_rows (k2 : str) (l : list (LocalKVRow D)) (oc : ObjectCapacities)
    : ObjectCapacities * nat :=
  foldl (λ st row, let '(oc', n) := list_row k2 (rowname row) row st.1 in (oc', st.2 + n))
    (oc, 0) l.

Definition lkv_list (bucket : Bucket.t) (key_prefix : Key) (iom : option I)
    (object_capacities : ObjectCapacities) (rows : table) : outcome (rc_t * ObjectCapacities) :=
  _ ← F_ASSERT (key_valid key_prefix);
  let has_iom := bool_decide (is_Some iom) in
  let '(oc, found, needs_an_iom_check) :=
    if negb (IsRowWildcard key_prefix) then
      let rep := doRowOp bucket key_prefix 0 None
        (λ row _, (KELPIE_OK, row,
           list_row (K2 key_prefix) (K1 key_prefix) row object_capacities)) rows in
      let '(oc, n) := default (object_capacities, 0) (rep_out rep) in
      (oc, n, has_iom && (IsColWildcard key_prefix || bool_decide (n = 1)))
    else
      let '(oc, n) := list_rows (K2 key_prefix) (matching_rows bucket key_prefix rows)
                        object_capacities in
      (oc, n, has_iom) in
  '(oc, extra) ←
    match iom with
    | Some i =>
        if needs_an_iom_check then
          let oc2 := iom_ListObjects i bucket key_prefix in
          oc' ← oc_Merge oc oc2; Ok (oc', oc_Size oc2)
        else Ok (oc, 0)
    | None => Ok (oc, 0)
    end;
  Ok ((if decide (found + extra = 0) then KELPIE_ENOENT else KELPIE_OK), oc).

(** [doCompute] hands the available objects to the registered function; its own code is the
    one of [getAvailable]. *)
Definition doCompute (compute : str → str → Bucket.t → Key → gmap Key D → rc_t * D)
    (now : Z) (function_name args : str) (bucket : Bucket.t) (key : Key) (rows : table)
    : outcome (rc_t * table * D) :=
  '(rc, rows', ldos) ← getAvailable now bucket key ∅ rows;
  Ok (rc, rows', (compute function_name args bucket key ldos).2).

Definition getInfo_func : fn_column_op_t D () :=
  λ row col existed,
    if bool_decide (getAvailability row = Requested) then (KELPIE_WAITING, col, [], ())
    else ((if existed then KELPIE_OK else KELPIE_ENOENT), col, [], ()).

Definition getInfo (now : Z) (bucket : Bucket.t) (key : Key) (info : option object_info_t)
    (rows : table) : reply () :=
  let rep := doColOp now bucket key LambdaFlags.DONT_CREATE_OR_TRIGGER info getInfo_func rows in
  match (rep_rc rep =? KELPIE_WAITING)%Z, rep_info rep with
  | false, Some i =>
      mkReply (if (row_num_columns i =? 0)%Z then KELPIE_ENOENT else KELPIE_OK)
        (rep_rows rep) (rep_info rep) (rep_events rep) (rep_out rep)
  | _, _ => rep
  end.

Definition wipeAll (rows : table) : table := ∅.

(** * The cell of a key *)

Definition find_cell (bucket : Bucket.t) (key : Key) (rows : table) : option (LocalKVCell D) :=
  row ← rows !! makeRowname bucket key; getCol (K2 key) row.

(** Two names for one place in the table. *)
Definition same_cell (b1 : Bucket.t) (k1 : Key) (b2 : Bucket.t) (k2 : Key) : Prop :=
  makeRowname b1 k1 = makeRowname b2 k2 ∧ K2 k1 = K2 k2.

Definition row_or_new (bucket : Bucket.t) (key : Key) (rows : table) : LocalKVRow D :=
  default (new_row (K1 key)) (rows !! makeRowname bucket key).

Lemma getCol_row_or_new b k rows : getCol (K2 k) (row_or_new b k rows) = find_cell b k rows.
Proof.
  unfold row_or_new, find_cell. destruct (rows !! _); simpl; [done|]. by destruct (K2 k).
Qed.

Definition set_cell (bucket : Bucket.t) (key : Key) (c : LocalKVCell D) (rows : table) : table :=
  <[makeRowname bucket key := setCol (K2 key) c (row_or_new bucket key rows)]> rows.

Lemma find_set_cell b k c rows : find_cell b k (set_cell b k c rows) = Some c.
Proof.
  unfold find_cell, set_cell. rewrite lookup_insert_eq. simpl. apply getCol_setCol.
Qed.

Lemma find_set_cell_ne b k b' k' c rows :
  ¬ same_cell b' k' b k → find_cell b' k' (set_cell b k c rows) = find_cell b' k' rows.
Proof.
  intros Hne. unfold find_cell, set_cell, row_or_new.
  destruct (decide (makeRowname b' k' = makeRowname b k)) as [He|He].
  - rewrite He, lookup_insert_eq. simpl.
    rewrite getCol_setCol_ne by (intros ?; by apply Hne).
    destruct (rows !! makeRowname b k); simpl; [done|]. by destruct (K2 k').
  - by rewrite lookup_insert_ne.
Qed.

(** The column operation on the table: the cell (or a new one) goes through [func] and, if
    the flags say so, the dispatch; nothing else changes. *)
Lemma doColOp_spec {R} now b k flags info (func : fn_column_op_t D R) rows :
  let c := default (new_cell now) (find_cell b k rows) in
  let existed := bool_decide (is_Some (find_cell b k rows)) in
  let row := row_or_new b k rows in
  let '(rc, c1, evs, out) := func (if existed then row else setCol (K2 k) c row) c existed in
  let '(c2, evs2) :=
    if PoolBehavior.has flags LambdaFlags.TRIGGER_DEPENDENCIES
    then dispatchCallbacksAndNotifications (setCol (K2 k) c1 row) k c1 else (c1, []) in
  existed = true ∨ PoolBehavior.has flags LambdaFlags.CREATE_IF_MISSING = true →
  let rep := doColOp now b k flags info func rows in
  rep_rc rep = rc ∧ rep_rows rep = set_cell b k (set_accessed now c2) rows ∧
  rep_events rep = evs ++ evs2 ∧ rep_out rep = Some out ∧
  rep_info rep = row_getInfo k (setCol (K2 k) (set_accessed now c2) row) ∘ cell_getInfo c2 <$> info.
Proof.
  pose proof (row_doColOp_spec now k flags info func (row_or_new b k rows)) as Hs.
  unfold cell_or_new in Hs. rewrite getCol_row_or_new in Hs. cbv zeta in *.
  destruct (func _ _ _) as [[[rc c1] evs] out].
  destruct (if PoolBehavior.has flags LambdaFlags.TRIGGER_DEPENDENCIES then _ else _)
    as [c2 evs2].
  intros Hex. specialize (Hs Hex).
  assert (Hd : doColOp now b k flags info func rows =
    mkReply rc (set_cell b k (set_accessed now c2) rows)
      (row_getInfo k (setCol (K2 k) (set_accessed now c2) (row_or_new b k rows))
         <$> (cell_getInfo c2 <$> info)) (evs ++ evs2) (Some out)).
  { unfold doColOp, getRow, set_cell. unfold row_or_new, find_cell in *.
    destruct (rows !! makeRowname b k) as [row|]; simpl in *; [by rewrite Hs|].
    destruct Hex as [Hex|Hex]; [done|]. by rewrite Hex, Hs. }
  rewrite Hd. split_and!; try done. simpl. by rewrite <-option_fmap_compose.
Qed.

Lemma doColOp_missing {R} now b k flags info (func : fn_column_op_t D R) rows :
  find_cell b k rows = None → PoolBehavior.has flags LambdaFlags.CREATE_IF_MISSING = false →
  let rep := doColOp now b k flags info func rows in
  rep_rc rep = KELPIE_ENOENT ∧ (∀ b' k', find_cell b' k' (rep_rows rep) = find_cell b' k' rows) ∧
  rep_rows rep = rows ∧ rep_events rep = [] ∧ rep_out rep = None.
Proof.
  unfold find_cell, doColOp, getRow. intros Hc Hf.
  destruct (rows !! makeRowname b k) as [row|] eqn:Hr; simpl in *.
  - rewrite row_doColOp_missing by done. simpl. rewrite insert_id by done. done.
  - by rewrite Hf.
Qed.

(** * The requests, cell by cell *)

(** What each column function does to a cell: the code, the cell, the objects it hands out. *)
Definition put_cell (now : Z) (d : D) (flags : Z) (c : LocalKVCell D) : rc_t * LocalKVCell D :=
  if bool_decide (availability c = InLocalMemory)
     && negb (PoolBehavior.has flags PoolBehavior.EnableOverwrites)
  then (KELPIE_EEXIST, c) else (KELPIE_OK, fill now d c).

Lemma put_func_cell now d flags row c existed :
  put_func now d flags row c existed =
    ((put_cell now d flags c).1, (put_cell now d flags c).2, [], ()).
Proof. unfold put_func, put_cell. by destruct (bool_decide _ && _). Qed.

Lemma put_cell_deps now d flags c :
  let c' := (put_cell now d flags c).2 in
  waiting_ops_list c' = waiting_ops_list c ∧ callback_list c' = callback_list c ∧
  availability c' = InLocalMemory.
Proof.
  unfold put_cell. destruct (bool_decide _ && _) eqn:E; [|done].
  by apply andb_true_iff in E as [?%bool_decide_eq_true _].
Qed.

Lemma put_flags flags :
  PoolBehavior.has (put_lambda_flags flags) LambdaFlags.TRIGGER_DEPENDENCIES = true ∧
  PoolBehavior.has (put_lambda_flags flags) LambdaFlags.CREATE_IF_MISSING =
    PoolBehavior.has flags PoolBehavior.WriteToLocal.
Proof. unfold put_lambda_flags. by destruct (PoolBehavior.has flags _). Qed.

(** A put on a cell that is there, or that it may create. *)
Lemma put_spec now b k d flags iom info rows :
  key_valid k = true →
  is_Some (find_cell b k rows) ∨ PoolBehavior.has flags PoolBehavior.WriteToLocal = true →
  let c := default (new_cell now) (find_cell b k rows) in
  let '(rc, c') := put_cell now d flags c in
  ∃ rep iom', put now b k d flags iom info rows = Ok (rep, iom') ∧
    (rep_rc rep, iom') = put_iom b k d flags iom rc ∧
    rep_rows rep = set_cell b k (set_accessed now (clear_dependencies c')) rows ∧
    triggered (rep_events rep) = mailboxes (waiting_ops_list c) ∧
    called (rep_events rep) = (λ cb, (cb, k, ldo c')) <$> callback_list c ∧
    (size (waiting_ops_list c) ≤ 1 →
     offered (rep_events rep) = (λ mb, (mb, Some (ldo c'))) <$> mailboxes (waiting_ops_list c)).
Proof.
  intros Hk Hex. destruct (put_flags flags) as [Ht Hc].
  pose proof (doColOp_spec now b k (put_lambda_flags flags) info (put_func now d flags) rows) as Hs.
  cbv zeta in *. rewrite put_func_cell, Ht, Hc in Hs.
  set (c := default (new_cell now) (find_cell b k rows)) in *.
  pose proof (put_cell_deps now d flags c) as (Hw & Hcb & _).
  destruct (put_cell now d flags c) as [rc c']. cbn [fst snd] in *.
  pose proof (dispatch_once (setCol (K2 k) c' (row_or_new b k rows)) k c') as Hd.
  destruct (dispatchCallbacksAndNotifications _ k c') as [c2 evs].
  destruct Hd as (-> & Htr & Hca & Hof). rewrite Hw in Htr, Hof. rewrite Hcb in Hca.
  rewrite bool_decide_eq_true in Hs. destruct (Hs Hex) as (Hrc & Hrows & Hev & _ & _).
  unfold put. rewrite Hk. simpl. rewrite Hrc.
  destruct (put_iom b k d flags iom rc) as [rc2 iom']. eexists _, _. split; [done|].
  simpl. by rewrite Hrows, Hev.
Qed.

(** A get reads the cell, and changes nothing but the time of its last access. *)
Lemma get_spec now b k info rows :
  key_valid k = true →
  ∃ rep, get now b k info rows = Ok rep ∧
    rep_rc rep = match find_cell b k rows with
                 | Some c => if bool_decide (availability c = InLocalMemory)
                             then KELPIE_OK else KELPIE_ENOENT
                 | None => KELPIE_ENOENT
                 end ∧
    mjoin (rep_out rep) = (c ← find_cell b k rows;
                           if bool_decide (availability c = InLocalMemory)
                           then Some (ldo c) else None) ∧
    rep_events rep = [] ∧
    rep_rows rep = match find_cell b k rows with
                   | Some c => set_cell b k (set_accessed now c) rows
                   | None => rows
                   end.
Proof.
  intros Hk. unfold get. rewrite Hk. simpl. eexists. split; [done|].
  destruct (find_cell b k rows) as [c|] eqn:Hc.
  - pose proof (doColOp_spec now b k LambdaFlags.DONT_CREATE_OR_TRIGGER info get_func rows) as Hs.
    rewrite Hc in Hs. simpl in Hs. unfold get_func at 1 in Hs. simpl.
    destruct (bool_decide (availability c = InLocalMemory)); simpl in Hs;
      destruct Hs as (-> & -> & -> & -> & _); auto.
  - by destruct (doColOp_missing now b k LambdaFlags.DONT_CREATE_OR_TRIGGER info get_func rows)
      as (-> & _ & -> & -> & ->).
Qed.

(** C2: Publishing an object makes it available: a put that may write locally, on a key that holds
    no object in memory (or with overwriting enabled), is followed by a get that returns that
    object. *)
Theorem put_then_get now now' b k d flags iom info info' rows :
  key_valid k = true →
  PoolBehavior.has flags PoolBehavior.WriteToLocal = true →
  (∀ c, find_cell b k rows = Some c → availability c = InLocalMemory →
     PoolBehavior.has flags PoolBehavior.EnableOverwrites = true) →
  ∃ rep iom' rep', put now b k d flags iom info rows = Ok (rep, iom') ∧
    rep_rc rep = (put_iom b k d flags iom KELPIE_OK).1 ∧
    get now' b k info' (rep_rows rep) = Ok rep' ∧
    rep_rc rep' = KELPIE_OK ∧ rep_out rep' = Some (Some d).
Proof.
  intros Hk Hw Hnew. pose proof (put_spec now b k d flags iom info rows Hk (or_intror Hw)) as Hp.
  cbv zeta in Hp. set (c := default (new_cell now) (find_cell b k rows)) in *.
  assert (Hput : put_cell now d flags c = (KELPIE_OK, fill now d c)).
  { unfold put_cell. destruct (bool_decide (availability c = InLocalMemory)) eqn:E; [|done].
    apply bool_decide_eq_true in E. subst c.
    destruct (find_cell b k rows) as [c|]; [|done]. by rewrite (Hnew c). }
  rewrite Hput in Hp. destruct Hp as (rep & iom' & Hput' & Hrc & Hrows & _).
  destruct (get_spec now' b k info' (rep_rows rep) Hk) as (rep' & Hg & Hrc' & Hout & _).
  rewrite Hrows, find_set_cell in Hrc', Hout.
  exists rep, iom', rep'. split_and!; try done; [by rewrite <-Hrc|].
  simpl in Hout. by destruct (rep_out rep') as [o|]; simplify_eq/=.
Qed.

(** A put on an object already in memory, without overwriting, reports [KELPIE_EEXIST] (when
    no I/O module is involved) and keeps the object. *)
Theorem put_existing_refused now now' b k d flags iom info info' rows c :
  key_valid k = true →
  find_cell b k rows = Some c → availability c = InLocalMemory →
  PoolBehavior.has flags PoolBehavior.EnableOverwrites = false →
  PoolBehavior.has flags PoolBehavior.WriteToIOM = false →
  ∃ rep iom' rep', put now b k d flags iom info rows = Ok (rep, iom') ∧
    rep_rc rep = KELPIE_EEXIST ∧ get now' b k info' (rep_rows rep) = Ok rep' ∧
    rep_out rep' = Some (Some (ldo c)).
Proof.
  intros Hk Hc Ha Ho Hi.
  pose proof (put_spec now b k d flags iom info rows Hk) as Hp.
  rewrite Hc in Hp. cbv zeta in Hp. simpl in Hp. unfold put_cell in Hp.
  rewrite bool_decide_true, Ho in Hp by done. simpl in Hp.
  destruct Hp as (rep & iom' & Hput & Hrc & Hrows & _); [left; eauto|].
  destruct (get_spec now' b k info' (rep_rows rep) Hk) as (rep' & Hg & _ & Hout & _).
  rewrite Hrows, find_set_cell in Hout. simpl in Hout. rewrite Ha in Hout. simpl in Hout.
  exists rep, iom', rep'. unfold put_iom in Hrc. rewrite Hi in Hrc. simplify_eq.
  split_and!; try done. by destruct (rep_out rep') as [o|]; simplify_eq/=.
Qed.

(** C3: Whoever waits on a key is woken by the put that fills it, when at most one op waits there:
    every callback left there is queued exactly once with the new object, and the op, if there is
    one, is triggered exactly once and handed the new object; afterwards nobody waits on the key.
    (Of several waiting ops only the first is handed the object, and the trigger of the second halts
    the node: [dispatch_args_moved], [second_waiter_halts].) *)
Theorem put_wakes_waiters now b k d flags iom info rows c :
  key_valid k = true →
  find_cell b k rows = Some c → availability c ≠ InLocalMemory →
  size (waiting_ops_list c) ≤ 1 →
  ∃ rep iom' c', put now b k d flags iom info rows = Ok (rep, iom') ∧
    offered (rep_events rep) = (λ mb, (mb, Some d)) <$> elements (waiting_ops_list c) ∧
    called (rep_events rep) = (λ cb, (cb, k, d)) <$> callback_list c ∧
    find_cell b k (rep_rows rep) = Some c' ∧ ldo c' = d ∧ getNumDependencies c' = 0.
Proof.
  intros Hk Hc Ha Hsz. pose proof (put_spec now b k d flags iom info rows Hk) as Hp.
  rewrite Hc in Hp. cbv zeta in Hp. simpl in Hp. unfold put_cell in Hp.
  rewrite bool_decide_false in Hp by done. simpl in Hp.
  destruct Hp as (rep & iom' & Hput & _ & Hrows & Ht & Hca & Hof); [left; eauto|].
  exists rep, iom', (set_accessed now (clear_dependencies (fill now d c))).
  split_and!; try done.
  - rewrite Hof by done. by rewrite mailboxes_small.
  - rewrite Hrows. apply find_set_cell.
Qed.

(** * Requests as steps of the store *)

Inductive request :=
| RPut (now : Z) (b : Bucket.t) (k : Key) (d : D) (flags : Z) (iom : option I)
| RGet (now : Z) (b : Bucket.t) (k : Key)
| RGetForOp (now : Z) (b : Bucket.t) (k : Key) (mb : mailbox_t) (flags iom_hash : Z)
    (FindIOM : Z → option I)
| RWant (now : Z) (b : Bucket.t) (k : Key) (fetch : bool) (cb : option callback_id)
| RInfo (now : Z) (b : Bucket.t) (k : Key)
| RDrop (now : Z) (b : Bucket.t) (k : Key)
| RWipe.

Definition run (rq : request) (rows : table) : outcome (rc_t * table * list event) :=
  match rq with
  | RPut now b k d flags iom =>
      '(rep, _) ← put now b k d flags iom None rows;
      Ok (rep_rc rep, rep_rows rep, rep_events rep)
  | RGet now b k =>
      rep ← get now b k None rows; Ok (rep_rc rep, rep_rows rep, rep_events rep)
  | RGetForOp now b k mb flags h f =>
      rep ← getForOp now b k mb flags h f None rows;
      Ok (rep_rc rep, rep_rows rep, rep_events rep)
  | RWant now b k fetch cb =>
      rep ← wantLocal now b k fetch cb rows; Ok (rep_rc rep, rep_rows rep, rep_events rep)
  | RInfo now b k =>
      let rep := getInfo now b k None rows in Ok (rep_rc rep, rep_rows rep, rep_events rep)
  | RDrop now b k => '(rc, rows') ← lkv_drop now b k rows; Ok (rc, rows', [])
  | RWipe => Ok (KELPIE_OK, wipeAll rows, [])
  end.

(** The place a column request works on. *)
Definition target (rq : request) : option (Bucket.t * Key) :=
  match rq with
  | RPut _ b k _ _ _ | RGet _ b k | RGetForOp _ b k _ _ _ _ | RWant _ b k _ _ | RInfo _ b k =>
      Some (b, k)
  | RDrop _ _ _ | RWipe => None
  end.

(** Every column request leaves the table as it is, or writes one cell. *)
Lemma doColOp_rows {R} now b k flags info (func : fn_column_op_t D R) rows :
  (rep_rows (doColOp now b k flags info func rows) = rows) ∨
  (∃ c, rep_rows (doColOp now b k flags info func rows) = set_cell b k c rows).
Proof.
  pose proof (doColOp_spec now b k flags info func rows) as Hs.
  pose proof (doColOp_missing now b k flags info func rows) as Hm. cbv zeta in *.
  destruct (func _ _ _) as [[[rc c1] evs] out].
  destruct (if PoolBehavior.has flags LambdaFlags.TRIGGER_DEPENDENCIES then _ else _) as [c2 evs2].
  destruct (find_cell b k rows) as [c|] eqn:Hc.
  { right. destruct Hs as (_ & -> & _); [by left|eauto]. }
  destruct (PoolBehavior.has flags LambdaFlags.CREATE_IF_MISSING) eqn:Hf.
  - right. destruct Hs as (_ & -> & _); [by right|eauto].
  - left. by destruct Hm as (_ & _ & -> & _).
Qed.

Lemma run_col_rows rq b k rows rc rows' evs :
  target rq = Some (b, k) → run rq rows = Ok (rc, rows', evs) →
  rows' = rows ∨ ∃ c, rows' = set_cell b k c rows.
Proof.
  intros Ht Hr. destruct rq; simplify_eq/=.
  - unfold put in Hr. unbind. destruct (put_iom _ _ _ _ _ _). simplify_eq/=. apply doColOp_rows.
  - unfold get in Hr. unbind. subst. apply doColOp_rows.
  - unfold getForOp in Hr. unbind. subst. apply doColOp_rows.
  - unfold wantLocal in Hr. unbind. subst. apply doColOp_rows.
  - unfold getInfo. repeat case_match; apply doColOp_rows.
Qed.

(** A request on one key leaves the objects of every other key alone: every other cell of the
    table is the one it was. *)
Theorem request_frame rq b k b' k' rows rc rows' evs :
  target rq = Some (b, k) → run rq rows = Ok (rc, rows', evs) →
  ¬ same_cell b' k' b k → find_cell b' k' rows' = find_cell b' k' rows.
Proof.
  intros Ht Hr Hne. destruct (run_col_rows _ _ _ _ _ _ _ Ht Hr) as [->|[c ->]]; [done|].
  by apply find_set_cell_ne.
Qed.

(** * Reachable stores *)

Inductive reachable : table → Prop :=
| reachable_init : reachable ∅
| reachable_step rq rows rc rows' evs :
    reachable rows → run rq rows = Ok (rc, rows', evs) → reachable rows'.

(** Rows keep the no-name column out of their map, are never empty, and sit under a bucket
    followed by their own name. *)
Definition row_ok (full : str) (row : LocalKVRow D) : Prop :=
  row_wf row ∧ isEmpty row = false ∧ ∃ b, full = makeRowname b (row_key (rowname row)).

Definition table_ok (rows : table) : Prop := map_Forall row_ok rows.

Lemma row_or_new_ok b k rows :
  table_ok rows →
  row_wf (row_or_new b k rows) ∧
  ∃ b', makeRowname b k = makeRowname b' (row_key (rowname (row_or_new b k rows))).
Proof.
  intros Hok. unfold row_or_new. destruct (rows !! makeRowname b k) as [row|] eqn:Hr; simpl.
  - by destruct (Hok _ _ Hr) as (? & _ & ?).
  - split; [done|]. by exists b.
Qed.

Lemma set_cell_ok b k c rows : table_ok rows → table_ok (set_cell b k c rows).
Proof.
  intros Hok. destruct (row_or_new_ok b k rows Hok) as [Hwf [b' Hb]].
  apply map_Forall_insert_2; [|done]. split_and!.
  - auto with faodel.
  - apply setCol_not_isEmpty.
  - exists b'. by autorewrite with faodel.
Qed.

(** The rows in the middle of a drop: those not yet checked again may be empty. *)
Definition table_mid (b : Bucket.t) (recheck : list str) (rows : table) : Prop :=
  map_Forall (λ full row, row_wf row ∧
    (isEmpty row = false ∨ ∃ name, name ∈ recheck ∧ full = makeRowname b (row_key name)) ∧
    ∃ b', full = makeRowname b' (row_key (rowname row))) rows.

Lemma drop_row_mid now b k2 rows found recheck name :
  table_mid b recheck rows →
  let '(rows', _, recheck') := drop_row now b k2 (rows, found, recheck) name in
  table_mid b recheck' rows'.
Proof.
  intros Hm. unfold drop_row, doRowOp, getRow.
  set (full := makeRowname b (row_key name)).
  destruct (rows !! full) as [row|] eqn:Hr; simpl; [|done].
  destruct (Hm _ _ Hr) as (Hwf & Hre & b' & Hb). simpl in *.
  destruct (dropColumns_wf now k2 row Hwf) as [Hwf' Hn].
  destruct (dropColumns now k2 row) as [row' n]. simpl in *.
  apply map_Forall_insert_2.
  - split_and!; [done| |by exists b'; rewrite Hn]. destruct (isEmpty row') eqn:E; simpl; [|by left].
    right. exists name. split; [|done]. set_solver.
  - intros f r Hf. destruct (Hm _ _ Hf) as (? & [?|(n' & ? & ?)] & ?); split_and!; auto.
    right. exists n'. split; [|done]. destruct (isEmpty row'); simpl; set_solver.
Qed.

Lemma drop_rows_mid now b k2 names rows found recheck :
  table_mid b recheck rows →
  let '(rows', _, recheck') := foldl (drop_row now b k2) (rows, found, recheck) names in
  table_mid b recheck' rows'.
Proof.
  revert rows found recheck. induction names as [|name names IH]; intros rows found recheck Hm;
    [done|]. cbn [foldl]. pose proof (drop_row_mid now b k2 rows found recheck name Hm) as Hs.
  destruct (drop_row _ _ _ _ _) as [[rows' found'] recheck']. exact (IH _ found' _ Hs).
Qed.

Lemma drop_cleanup_mid b recheck rows :
  table_mid b recheck rows → table_ok (foldl (drop_cleanup b) rows recheck).
Proof.
  revert rows. induction recheck as [|name recheck IH]; intros rows Hm; simpl.
  { intros f r Hf. destruct (Hm _ _ Hf) as (? & [?|(n & Hn & _)] & ?); [done|].
    by apply elem_of_nil in Hn. }
  apply IH. unfold drop_cleanup, getRow. set (full := makeRowname b (row_key name)).
  assert (Hshrink : ∀ f r, rows !! f = Some r → (f = full → isEmpty r = false) →
    row_wf r ∧ (isEmpty r = false ∨ ∃ n, n ∈ recheck ∧ f = makeRowname b (row_key n)) ∧
    ∃ b', f = makeRowname b' (row_key (rowname r))).
  { intros f r Hf Hne. destruct (Hm _ _ Hf) as (? & [?|(n & Hn & ->)] & ?); split_and!; auto.
    apply elem_of_cons in Hn as [->|Hn]; [by left; apply Hne|right; eauto]. }
  destruct (rows !! full) as [row|] eqn:Hr; [destruct (isEmpty row) eqn:E|].
  - intros f r [Hne Hf]%lookup_delete_Some. apply Hshrink; [done|]. by intros ->.
  - intros f r Hf. apply Hshrink; [done|]. intros ->. by simplify_eq.
  - intros f r Hf. apply Hshrink; [done|]. intros ->. by simplify_eq.
Qed.

Lemma lkv_drop_ok now b k rows rc rows' :
  table_ok rows → lkv_drop now b k rows = Ok (rc, rows') → table_ok rows'.
Proof.
  intros Hok Hd. unfold lkv_drop in Hd. unbind.
  match goal with H : context [foldl (drop_row now b (K2 k)) _ ?names] |- _ =>
    pose proof (drop_rows_mid now b (K2 k) names rows 0 []) as Hm;
    destruct (foldl (drop_row now b (K2 k)) (rows, 0, []) names) as [[rows1 n] recheck] end.
  simplify_eq/=. apply drop_cleanup_mid, Hm.
  intros f r Hf. destruct (Hok _ _ Hf) as (? & ? & ?). auto.
Qed.

Lemma reachable_table_ok rows : reachable rows → table_ok rows.
Proof.
  induction 1 as [|rq rows rc rows' evs _ IH Hr]; [done|].
  destruct (target rq) as [[b k]|] eqn:Ht.
  - destruct (run_col_rows _ _ _ _ _ _ _ Ht Hr) as [->|[c ->]]; [done|by apply set_cell_ok].
  - destruct rq; simplify_eq/=; [|done]. unbind. destruct x as [rc' rows''].
    simplify_eq/=. by eapply lkv_drop_ok.
Qed.

(** * Nobody waits for what is already there *)

Definition settled (c : LocalKVCell D) : Prop :=
  availability c = InLocalMemory → getNumDependencies c = 0.

Definition all_settled (rows : table) : Prop :=
  ∀ full row name c, rows !! full = Some row → getCol name row = Some c → settled c.

Lemma set_cell_settled b k c rows : all_settled rows → settled c → all_settled (set_cell b k c rows).
Proof.
  intros Hall Hc full row name c' Hr Hn. unfold set_cell in Hr.
  apply lookup_insert_Some in Hr as [[<- <-]|[_ Hr]]; [|by eapply Hall].
  destruct (decide (name = K2 k)) as [->|Hne].
  - autorewrite with faodel in Hn. by simplify_eq.
  - rewrite getCol_setCol_ne in Hn by done. unfold row_or_new in Hn.
    destruct (rows !! makeRowname b k) as [row|] eqn:Hr; simpl in Hn; [by eapply Hall|].
    by destruct name.
Qed.

Lemma doColOp_settled {R} now b k flags info (func : fn_column_op_t D R) rows :
  PoolBehavior.has flags LambdaFlags.TRIGGER_DEPENDENCIES = true ∨
  (∀ row c existed, settled c → settled (func row c existed).1.1.2) →
  all_settled rows → all_settled (rep_rows (doColOp now b k flags info func rows)).
Proof.
  intros Hf Hall. pose proof (doColOp_spec now b k flags info func rows) as Hs.
  pose proof (doColOp_missing now b k flags info func rows) as Hm. cbv zeta in *.
  set (c := default (new_cell now) (find_cell b k rows)) in *.
  assert (Hc : settled c).
  { subst c. unfold find_cell. destruct (rows !! makeRowname b k) as [row|] eqn:Hr; simpl; [|done].
    destruct (getCol (K2 k) row) eqn:Hn; simpl; [by eapply Hall|done]. }
  set (row := if bool_decide _ then _ else _) in Hs.
  set (existed := bool_decide (is_Some (find_cell b k rows))) in *.
  assert (Hc1 : PoolBehavior.has flags LambdaFlags.TRIGGER_DEPENDENCIES = true ∨
    settled (func row c existed).1.1.2) by (destruct Hf; auto).
  clearbody row. destruct (func row c existed) as [[[rc c1] evs] out]. simpl in Hc1.
  pose proof (dispatch_once (setCol (K2 k) c1 (row_or_new b k rows)) k c1) as Hd.
  destruct (dispatchCallbacksAndNotifications _ k c1) as [c2 evs2]. destruct Hd as [-> _].
  assert (Hex : existed = false ∧ PoolBehavior.has flags LambdaFlags.CREATE_IF_MISSING = false ∨
    (existed = true ∨ PoolBehavior.has flags LambdaFlags.CREATE_IF_MISSING = true)).
  { destruct existed, (PoolBehavior.has flags LambdaFlags.CREATE_IF_MISSING); auto. }
  destruct Hex as [[He Hcr]|Hex].
  - apply bool_decide_eq_false, eq_None_not_Some in He. by destruct Hm as (_ & _ & -> & _).
  - destruct (PoolBehavior.has flags LambdaFlags.TRIGGER_DEPENDENCIES);
      destruct (Hs Hex) as (_ & -> & _); apply set_cell_settled; try done.
    by destruct Hc1.
Qed.

(** A request that may load an object from storage and keep it. *)
Definition caching (rq : request) : bool :=
  match rq with
  | RGetForOp _ _ _ _ flags iom_hash _ =>
      PoolBehavior.has flags PoolBehavior.ReadToRemote && negb (iom_hash =? 0)%Z
  | _ => false
  end.

(** A drop leaves cells as they were, or marks them. *)
Definition shrinks (rows rows' : table) : Prop :=
  ∀ full row' name c', rows' !! full = Some row' → getCol name row' = Some c' →
    ∃ row c, rows !! full = Some row ∧ getCol name row = Some c ∧
      (c' = c ∨ c' = set_drop_requested c).

Lemma shrinks_trans rows1 rows2 rows3 :
  shrinks rows1 rows2 → shrinks rows2 rows3 → shrinks rows1 rows3.
Proof.
  intros H12 H23 full row3 name c3 Hr3 Hc3.
  destruct (H23 _ _ _ _ Hr3 Hc3) as (row2 & c2 & Hr2 & Hc2 & H2).
  destruct (H12 _ _ _ _ Hr2 Hc2) as (row1 & c1 & Hr1 & Hc1 & H1).
  exists row1, c1. split_and!; [done..|]. destruct H1 as [->| ->], H2 as [->| ->]; auto.
Qed.

Lemma drop_row_shrinks now b k2 rows found recheck name :
  map_Forall (λ _ row, row_wf row) rows →
  let '(rows', _, _) := drop_row now b k2 (rows, found, recheck) name in
  shrinks rows rows' ∧ map_Forall (λ _ row, row_wf row) rows'.
Proof.
  intros Hwf. unfold drop_row, doRowOp, getRow.
  destruct (rows !! makeRowname b (row_key name)) as [row|] eqn:Hr; simpl.
  2:{ split; [|done]. intros full row' n c' Hr' Hc'. exists row', c'. auto. }
  pose proof (Hwf _ _ Hr) as Hw. simpl in Hw.
  pose proof (λ n c, getCol_dropColumns now k2 row n c Hw) as Hspec.
  pose proof (λ n, dropColumns_none now k2 row n Hw) as Hnone.
  destruct (dropColumns_wf now k2 row Hw) as [Hwf' _].
  destruct (dropColumns now k2 row) as [row' k']. simpl in *.
  split; [|by apply map_Forall_insert_2].
  intros full r n c' Hl Hc'. apply lookup_insert_Some in Hl as [[<- <-]|[_ Hl]]; [|eauto 10].
  exists row. destruct (getCol n row) as [c|] eqn:Hc; [|by rewrite Hnone in Hc'].
  exists c. split_and!; [done..|]. rewrite (Hspec n c) in Hc' by done. unfold dropped in Hc'.
  repeat case_match; simplify_eq; auto.
Qed.

Lemma drop_rows_shrinks now b k2 names rows found recheck :
  map_Forall (λ _ row, row_wf row) rows →
  let '(rows', _, _) := foldl (drop_row now b k2) (rows, found, recheck) names in
  shrinks rows rows'.
Proof.
  revert rows found recheck. induction names as [|name names IH]; intros rows found recheck Hw.
  { intros full r n c Hr Hc. simpl in Hr. eauto 10. }
  cbn [foldl]. pose proof (drop_row_shrinks now b k2 rows found recheck name Hw) as Hs.
  destruct (drop_row _ _ _ _ _) as [[rows1 found1] recheck1]. destruct Hs as [Hs Hw1].
  specialize (IH rows1 found1 recheck1 Hw1). destruct (foldl _ _ _) as [[rows2 ?] ?].
  by eapply shrinks_trans.
Qed.

Lemma drop_cleanup_lookup b names rows full row :
  foldl (drop_cleanup b) rows names !! full = Some row → rows !! full = Some row.
Proof.
  revert rows. induction names as [|name names IH]; intros rows; [done|]. cbn [foldl].
  intros Hl%IH. unfold drop_cleanup, getRow in Hl.
  repeat case_match; [|done..]. by apply lookup_delete_Some in Hl as [_ ?].
Qed.

Lemma lkv_drop_shrinks now b k rows rc rows' :
  table_ok rows → lkv_drop now b k rows = Ok (rc, rows') → shrinks rows rows'.
Proof.
  intros Hok Hd. unfold lkv_drop in Hd. unbind.
  assert (Hw : map_Forall (λ _ row, row_wf row) rows) by (intros f r Hf; apply (Hok _ _ Hf)).
  match goal with H : context [foldl (drop_row now b (K2 k)) _ ?names] |- _ =>
    pose proof (drop_rows_shrinks now b (K2 k) names rows 0 [] Hw) as Hm;
    destruct (foldl (drop_row now b (K2 k)) (rows, 0, []) names) as [[rows1 n] recheck] end.
  simplify_eq/=. intros full row name c Hr Hc. apply drop_cleanup_lookup in Hr. eauto.
Qed.

Lemma getForOp_settled now b k mb flags h f row c existed :
  PoolBehavior.has flags PoolBehavior.ReadToRemote && negb (h =? 0)%Z = false →
  settled c → settled (getForOp_func now b k mb flags h f row c existed).1.1.2.
Proof.
  unfold getForOp_func. intros Hca Hc. case_bool_decide as Ha; [done|].
  destruct (h =? 0)%Z; [by intros ?|]. rewrite andb_true_r in Hca.
  destruct (f h) as [i|]; [|by intros ?]. destruct (iom_ReadObject i b k) as [rc' d].
  rewrite Hca. destruct (rc' =? KELPIE_OK)%Z; by intros ?.
Qed.

Lemma wantLocal_settled k fetch cb row c existed :
  settled c → settled (wantLocal_func k fetch cb row c existed).1.1.2.
Proof.
  unfold wantLocal_func. intros Hc. case_bool_decide as Ha; [done|].
  destruct cb as [cb|]; cbv zeta; destruct (fetch && _); by intros ?.
Qed.

Lemma run_settled rq rows rc rows' evs :
  caching rq = false → table_ok rows → run rq rows = Ok (rc, rows', evs) →
  all_settled rows → all_settled rows'.
Proof.
  intros Hca Hok Hr Hall. destruct rq; simplify_eq/=.
  - unfold put in Hr. unbind. destruct (put_iom _ _ _ _ _ _). simplify_eq/=.
    apply doColOp_settled; [left; apply put_flags|done].
  - unfold get in Hr. unbind. subst. apply doColOp_settled; [right|done].
    intros row c existed Hc. unfold get_func. by case_bool_decide.
  - unfold getForOp in Hr. unbind. subst. apply doColOp_settled; [right|done].
    intros row c existed. by apply getForOp_settled.
  - unfold wantLocal in Hr. unbind. subst. apply doColOp_settled; [right|done].
    intros row c existed. apply wantLocal_settled.
  - assert (Hi : all_settled (rep_rows (doColOp now b k LambdaFlags.DONT_CREATE_OR_TRIGGER None
        getInfo_func rows))).
    { apply doColOp_settled; [right|done]. intros row c existed Hc. unfold getInfo_func.
      by case_bool_decide. }
    unfold getInfo. by repeat case_match.
  - unbind. destruct x as [rc' rows'']. simplify_eq/=.
    intros full row name c Hl Hc. destruct (lkv_drop_shrinks _ _ _ _ _ _ Hok H1 _ _ _ _ Hl Hc)
      as (row0 & c0 & Hl0 & Hc0 & [->| ->]); exact (Hall _ _ _ _ Hl0 Hc0).
  - done.
Qed.

(** Runs in which no request keeps what it loaded from storage. *)
Inductive reachable_nocache : table → Prop :=
| nocache_init : reachable_nocache ∅
| nocache_step rq rows rc rows' evs :
    reachable_nocache rows → caching rq = false → run rq rows = Ok (rc, rows', evs) →
    reachable_nocache rows'.

Lemma nocache_reachable rows : reachable_nocache rows → reachable rows.
Proof. induction 1; econstructor; eauto. Qed.

(** C4: A lost wake-up is impossible in those runs: no op and no callback ever waits on an object
    that is in memory. *)
Theorem no_lost_wakeup rows : reachable_nocache rows → all_settled rows.
Proof.
  induction 1 as [|rq rows rc rows' evs Hre IH Hca Hr]; [by intros full row name c ?|].
  eapply run_settled; eauto. by apply reachable_table_ok, nocache_reachable.
Qed.

(** Loading from storage and keeping the object loses the wake-up: the object arrives in the
    cell, whoever waited on it still waits, and nothing is triggered. *)
Theorem getForOp_strands now b k mb flags iom_hash FindIOM i d info rows c :
  key_valid k = true →
  find_cell b k rows = Some c → availability c ≠ InLocalMemory →
  iom_hash ≠ 0%Z → FindIOM iom_hash = Some i → iom_ReadObject i b k = (KELPIE_OK, d) →
  PoolBehavior.has flags PoolBehavior.ReadToRemote = true →
  ∃ rep c', getForOp now b k mb flags iom_hash FindIOM info rows = Ok rep ∧
    rep_rc rep = KELPIE_OK ∧ rep_events rep = [] ∧
    find_cell b k (rep_rows rep) = Some c' ∧ availability c' = InLocalMemory ∧ ldo c' = d ∧
    waiting_ops_list c' = waiting_ops_list c ∧ callback_list c' = callback_list c.
Proof.
  intros Hk Hc Ha Hh Hf Hrd Hfl. unfold getForOp. rewrite Hk. simpl.
  pose proof (doColOp_spec now b k LambdaFlags.CREATE_IF_MISSING info
    (getForOp_func now b k mb flags iom_hash FindIOM) rows) as Hs.
  rewrite Hc in Hs. cbv zeta in Hs. simpl in Hs. unfold getForOp_func at 1 in Hs.
  rewrite bool_decide_false in Hs by done. apply Z.eqb_neq in Hh. rewrite Hh, Hf, Hrd, Hfl in Hs.
  simpl in Hs. destruct Hs as (Hrc & Hrows & Hev & _); [by left|].
  eexists _, (set_accessed now (fill now d c)). split; [done|].
  split_and!; try done. rewrite Hrows. apply find_set_cell.
Qed.

(** C24: Every row of a reachable store sits under a bucket followed by its own name and holds at
    least one column: a drop leaves no empty row behind. *)
Theorem reachable_no_empty_rows rows full row :
  reachable rows → rows !! full = Some row →
  ∃ b name c, full = makeRowname b (row_key (rowname row)) ∧ getCol name row = Some c.
Proof.
  intros Hre Hr. destruct (reachable_table_ok _ Hre _ _ Hr) as (Hwf & He & b & Hb).
  destruct (col_single row) as [c|] eqn:Hs.
  { exists b, [], c. auto. }
  destruct (decide (cols row = ∅)) as [Hc|Hc].
  { assert (isEmpty row = true) by (by apply isEmpty_true). congruence. }
  apply map_choose in Hc as (name & c & Hc). exists b, name, c. split; [done|].
  destruct name; [by rewrite Hwf in Hc|done].
Qed.

(** * Dropping *)

Lemma dropColumns_count now s (row : LocalKVRow D) :
  row_wf row →
  (dropColumns now s row).2 ≠ 0 ↔ ∃ name c, getCol name row = Some c ∧ selects s name.
Proof.
  intros Hwf. unfold dropColumns. destruct (StringEndsWith s star) eqn:E; simpl.
  - pose proof E as [p ->]%StringEndsWith_star. rewrite chop_star.
    setoid_rewrite selects_star. split.
    + intros Hn. destruct (bool_decide (p = []) && _) eqn:Eb.
      { apply andb_true_iff in Eb as [->%bool_decide_eq_true [c Hc]%bool_decide_eq_true].
        exists [], c. done. }
      simpl in Hn. destruct (prefix_columns p row) as [|[name c] l] eqn:Hl; [done|].
      assert (Hin : (name, c) ∈ prefix_columns p row) by (rewrite Hl; left).
      apply elem_of_prefix_columns in Hin as [Hc Hp]. exists name, c. split; [|done].
      destruct name; [by rewrite Hwf in Hc|done].
    + intros (name & c & Hc & Hp). destruct name as [|a name].
      { apply prefix_nil_inv in Hp as ->. simpl in Hc. by rewrite Hc. }
      assert (Hin : (a :: name, c) ∈ prefix_columns p row) by (by apply elem_of_prefix_columns).
      destruct (prefix_columns p row); [by apply elem_of_nil in Hin|]. simpl. lia.
  - destruct (getCol s row) as [c|] eqn:Hc; simpl; split; try done.
    + intros _. exists s, c. split; [done|]. by apply selects_exact.
    + intros (name & c & Hn & ->%selects_exact); [congruence|done].
Qed.

(** A drop on an exact row, in one piece. *)
Lemma drop_exact_eq now b k rows :
  key_valid k = true → IsRowWildcard k = false →
  lkv_drop now b k rows = Ok
    match rows !! makeRowname b k with
    | None => (KELPIE_ENOENT, rows)
    | Some row =>
        let '(row', n) := dropColumns now (K2 k) row in
        ((if decide (n = 0) then KELPIE_ENOENT else KELPIE_OK),
         if isEmpty row' then delete (makeRowname b k) rows
         else <[makeRowname b k := row']> rows)
    end.
Proof.
  intros Hk Hw. unfold lkv_drop. rewrite Hk, Hw. simpl. unfold doRowOp, getRow.
  change (makeRowname b (row_key (K1 k))) with (makeRowname b k).
  destruct (rows !! makeRowname b k) as [row|]; [|done].
  destruct (dropColumns now (K2 k) row) as [row' n]. simpl.
  destruct (isEmpty row') eqn:E; simpl; [|done].
  unfold drop_cleanup, getRow.
  change (makeRowname b (row_key (K1 k))) with (makeRowname b k).
  by rewrite lookup_insert_eq, E, delete_insert_eq.
Qed.

(** C23: Dropping with an exact row name: the selected columns of that row go, except that a named
    column somebody waits on (or that is not in memory) is only marked; no other row and no
    other column changes; the code says whether anything was selected. *)
Theorem drop_exact_row now b k rows :
  key_valid k = true → IsRowWildcard k = false → table_ok rows →
  ∃ rc rows', lkv_drop now b k rows = Ok (rc, rows') ∧
    (∀ name c, find_cell b (mkKey (K1 k) name) rows = Some c →
       find_cell b (mkKey (K1 k) name) rows' =
         if decide (selects (K2 k) name) then
           if IsColWildcard k && (name =s? []) then None else dropped now c
         else Some c) ∧
    (∀ full, full ≠ makeRowname b k → rows' !! full = rows !! full) ∧
    (rc = KELPIE_OK ∨ rc = KELPIE_ENOENT) ∧
    (rc = KELPIE_OK ↔
       ∃ name c, find_cell b (mkKey (K1 k) name) rows = Some c ∧ selects (K2 k) name).
Proof.
  intros Hk Hw Hok. rewrite drop_exact_eq by done.
  assert (Hfc : ∀ name rs, find_cell b (mkKey (K1 k) name) rs =
    row ← rs !! makeRowname b k; getCol name row) by done.
  destruct (rows !! makeRowname b k) as [row|] eqn:Hr.
  2:{ eexists _, _. split; [done|]. setoid_rewrite Hfc. setoid_rewrite Hr. simpl.
      split_and!; [done|done|by right|]. split; [done|]. by intros (? & ? & ? & _). }
  destruct (Hok _ _ Hr) as (Hwf & _ & _).
  pose proof (dropColumns_count now (K2 k) row Hwf) as Hcount.
  pose proof (λ n c, getCol_dropColumns now (K2 k) row n c Hwf) as Hget.
  destruct (dropColumns_wf now (K2 k) row Hwf) as [Hwf' _].
  destruct (dropColumns now (K2 k) row) as [row' n]. simpl in *.
  eexists _, _. split; [done|]. setoid_rewrite Hfc. rewrite Hr. simpl. split_and!.
  - intros name c Hc. unfold IsColWildcard. rewrite <-(Hget name c Hc).
    destruct (isEmpty row') eqn:E.
    + rewrite lookup_delete_eq. simpl. symmetry. by apply isEmpty_getCol.
    + by rewrite lookup_insert_eq.
  - intros full Hne. destruct (isEmpty row');
      [by rewrite lookup_delete_ne|by rewrite lookup_insert_ne].
  - case_decide; auto.
  - rewrite <-Hcount. by case_decide.
Qed.

(** * Listing *)

(** The keys one row contributes. *)
Definition row_lists (k2 k1 : str) (row : LocalKVRow D) (key : Key) : Prop :=
  K1 key = k1 ∧ ∃ c, getCol (K2 key) row = Some c ∧ selects k2 (K2 key) ∧
    (StringEndsWith k2 star = true → K2 key ≠ [] → getUserSize c ≠ 0%Z).

Lemma elem_of_list_row k2 k1 row oc key :
  row_wf row →
  key ∈ oc_keys (list_row k2 k1 row oc).1 ↔ key ∈ oc_keys oc ∨ row_lists k2 k1 row key.
Proof.
  intros Hwf. destruct (getActive_spec k2 row Hwf) as [_ Hspec]. unfold list_row. simpl.
  rewrite elem_of_app, list_elem_of_fmap. apply or_iff_compat_l. split.
  - intros (n & -> & ([n' cap] & -> & Hin)%list_elem_of_fmap). simpl.
    apply Hspec in Hin as (c & Hc & -> & Hs & Hne). split; [done|]. by exists c.
  - intros (<- & c & Hc & Hs & Hne). exists (K2 key). split; [by destruct key|].
    apply list_elem_of_fmap. exists (K2 key, getUserSize c). split; [done|]. apply Hspec. eauto.
Qed.

Lemma list_row_wf k2 k1 row oc : oc_wf oc → oc_wf (list_row k2 k1 row oc).1.
Proof. unfold oc_wf, list_row. simpl. rewrite !length_app, !length_fmap. lia. Qed.

Lemma list_rows_go k2 l st :
  foldl (λ st row, let '(oc', n) := list_row k2 (rowname row) row st.1 in (oc', st.2 + n)) st l
  = ((list_rows k2 l st.1).1, st.2 + (list_rows k2 l st.1).2).
Proof.
  unfold list_rows. revert st. induction l as [|row l IH]; intros [oc n]; simpl.
  { f_equal; lia. }
  rewrite IH. simpl. rewrite (IH (_, length _)). simpl. f_equal. lia.
Qed.

Lemma list_rows_cons k2 row l oc :
  list_rows k2 (row :: l) oc =
    let '(oc1, n) := list_row k2 (rowname row) row oc in
    ((list_rows k2 l oc1).1, n + (list_rows k2 l oc1).2).
Proof. unfold list_rows at 1. cbn [foldl]. by rewrite list_rows_go. Qed.

Lemma elem_of_list_rows k2 l oc key :
  Forall row_wf l →
  key ∈ oc_keys (list_rows k2 l oc).1 ↔
    key ∈ oc_keys oc ∨ ∃ row, row ∈ l ∧ row_lists k2 (rowname row) row key.
Proof.
  intros Hall. revert oc. induction Hall as [|row l Hwf _ IH]; intros oc.
  { simpl. split; [auto|]. intros [?|(row & ?%elem_of_nil & _)]; done. }
  rewrite list_rows_cons. destruct (list_row k2 (rowname row) row oc) as [oc1 n] eqn:E. simpl.
  assert (oc1 = (list_row k2 (rowname row) row oc).1) as -> by (by rewrite E).
  rewrite IH, elem_of_list_row by done. setoid_rewrite elem_of_cons. naive_solver.
Qed.

Lemma list_rows_wf k2 l oc : oc_wf oc → oc_wf (list_rows k2 l oc).1.
Proof.
  revert oc. induction l as [|row l IH]; intros oc Hoc; [done|]. rewrite list_rows_cons.
  pose proof (list_row_wf k2 (rowname row) row oc Hoc). destruct (list_row _ _ _ _). by apply IH.
Qed.

Lemma elem_of_matching_rows b k rows row :
  row ∈ matching_rows b k rows ↔
    ∃ full, rows !! full = Some row ∧ chop (makeRowname b (row_key (K1 k))) `prefix_of` full.
Proof.
  unfold matching_rows. rewrite list_elem_of_fmap. split.
  - intros ([full row'] & -> & Hin). apply list_elem_of_filter in Hin as [Hp Hin].
    simpl in *. apply StringBeginsWith_spec in Hp. exists full.
    by apply elem_of_lower_bound_prefix.
  - intros (full & Hr & Hp). exists (full, row). split; [done|]. apply list_elem_of_filter. simpl.
    rewrite StringBeginsWith_spec. split; [done|]. by apply elem_of_lower_bound_prefix.
Qed.

(** What a listing in memory stands for: the rows of the table it looks at and the name it
    gives them. *)
Definition list_looks_at (b : Bucket.t) (k : Key) (full : str) (row : LocalKVRow D) : option str :=
  if IsRowWildcard k then
    if decide (chop (makeRowname b (row_key (K1 k))) `prefix_of` full)
    then Some (rowname row) else None
  else if decide (full = makeRowname b k) then Some (K1 k) else None.

(** A listing with no I/O module adds to the result exactly the keys of the rows it looks at
    whose column is selected (named columns of a wildcard only when they hold data), and keeps
    the keys and the capacities in step. *)
Theorem list_spec b k oc rows :
  key_valid k = true → table_ok rows → oc_wf oc →
  ∃ rc oc', lkv_list b k None oc rows = Ok (rc, oc') ∧ oc_wf oc' ∧
    ∀ key, key ∈ oc_keys oc' ↔ key ∈ oc_keys oc ∨
      ∃ full row name, rows !! full = Some row ∧ list_looks_at b k full row = Some name ∧
        row_lists (K2 k) name row key.
Proof.
  intros Hk Hok Hoc. unfold lkv_list, list_looks_at. rewrite Hk. simpl.
  destruct (IsRowWildcard k) eqn:E; simpl.
  - pose proof (list_rows_wf (K2 k) (matching_rows b k rows) oc Hoc) as Hwf.
    assert (Hall : Forall row_wf (matching_rows b k rows)).
    { apply Forall_forall. intros row (full & Hr & _)%elem_of_matching_rows.
      by destruct (Hok _ _ Hr). }
    pose proof (λ key, elem_of_list_rows (K2 k) _ oc key Hall) as Hin.
    destruct (list_rows _ _ _) as [oc' n]. simpl in *. eexists _, oc'. split_and!; [done..|].
    intros key. rewrite Hin. setoid_rewrite elem_of_matching_rows. apply or_iff_compat_l. split.
    + intros (row & (full & Hr & Hp) & Hl). exists full, row, (rowname row).
      by rewrite decide_True.
    + intros (full & row & name & Hr & Hd & Hl). case_decide; simplify_eq. eauto.
  - unfold doRowOp, getRow. destruct (rows !! makeRowname b k) as [row|] eqn:Hr; simpl.
    + eexists _, _. split; [done|]. split; [by apply (list_row_wf (K2 k) (K1 k) row)|].
      intros key. destruct (Hok _ _ Hr) as (Hwf & _).
      rewrite (elem_of_list_row (K2 k) (K1 k) row oc key Hwf). apply or_iff_compat_l. split.
      * intros Hl. exists (makeRowname b k), row, (K1 k). by rewrite decide_True.
      * intros (full & row' & name & Hr' & Hd & Hl). case_decide; simplify_eq. done.
    + eexists _, _. split_and!; [done..|]. intros key. split; [auto|]. intros [?|Hx]; [done|].
      destruct Hx as (full & row' & name & Hr' & Hd & _). case_decide; simplify_eq.
Qed.


End localkv.
Arguments reply : clear implicits.

(** * Isolation of buckets *)

(** Buckets whose names have the same length never share a row. *)
Theorem bucket_isolation b b' k k' :
  Bucket.wf b → Bucket.wf b' →
  length (Bucket.GetHex b) = length (Bucket.GetHex b') →
  makeRowname b k = makeRowname b' k' → b = b' ∧ K1 k = K1 k'.
Proof.
  intros [Hb _] [Hb' _] Hlen Heq. apply app_inj_1 in Heq as [Hx Hk]; [|done]. split; [|done].
  unfold Bucket.GetHex in Hx. apply (inj (lit "0x" ++.)) in Hx.
  apply show_base_inj in Hx; [|lia..]. destruct b, b'. simpl in Hx. by subst.
Qed.

(** * A store in use

    The store with the content of data objects, and a storage module that keeps what it is
    given. *)
Abbreviation content := (option ldo_content).
Abbreviation storage := (gmap (Z * Key) content).

#[global] Instance storage_iom : IomBase storage content := {
  iom_WriteObject i b k d := (KELPIE_OK, <[(Bucket.bid b, k) := d]> i);
  iom_ReadObject i b k :=
    match i !! (Bucket.bid b, k) with Some d => (KELPIE_OK, d) | None => (KELPIE_ENOENT, None) end;
  iom_ListObjects i b k := oc_empty;
  iom_GetInfo i b k :=
    match i !! (Bucket.bid b, k) with
    | Some d => (KELPIE_OK, mkInfo 0 (ldo_user_size d) 0 0 InDisk)
    | None => (KELPIE_ENOENT, Wipe)
    end
}.

Definition b0 : Bucket.t := Bucket.mk 0x1.
Definition b1 : Bucket.t := Bucket.mk 0x12.
Definition obj (s : str) : content := Some (mkLdo 0 [] s).

(** Run requests in order and keep the last code, the table and the events. *)
Fixpoint run_all (rqs : list (request (D := content) (I := storage)))
    (st : rc_t * gmap str (LocalKVRow content) * list (event content))
    : outcome (rc_t * gmap str (LocalKVRow content) * list (event content)) :=
  match rqs with
  | [] => Ok st
  | rq :: rqs' =>
      let '(_, rows, evs) := st in
      '(rc, rows', evs') ← run rq rows; run_all rqs' (rc, rows', evs ++ evs')
  end.

Definition start : rc_t * gmap str (LocalKVRow content) * list (event content) :=
  (KELPIE_OK, ∅, []).

(** Buckets whose names differ in length can share a row: an object put in bucket 0x1 under
    the row "2a" is what bucket 0x12 holds under the row "a". *)
Theorem bucket_collision :
  ('(_, rows, _) ← run_all [RPut 0 b0 (mkKey (lit "2a") []) (obj (lit "secret"))
                              PoolBehavior.WriteToLocal None] start;
   rep ← get 1 b1 (mkKey (lit "a") []) None rows;
   Ok (rep_rc _ rep, rep_out _ rep)) = Ok (KELPIE_OK, Some (Some (obj (lit "secret")))).
Proof. vm_compute. reflexivity. Qed.

(** Listing all of bucket 0x1 shows the keys of bucket 0x12. *)
Theorem list_leaks_buckets :
  ('(_, rows, _) ← run_all [RPut 0 b1 (mkKey (lit "a") (lit "c")) (obj (lit "secret"))
                              PoolBehavior.WriteToLocal None] start;
   '(_, oc) ← lkv_list b0 (mkKey star star) (None : option storage) oc_empty rows;
   Ok (oc_keys oc)) = Ok [mkKey (lit "a") (lit "c")].
Proof. vm_compute. reflexivity. Qed.

(** A drop that is put off because somebody waits is reported as done and then forgotten: once
    the object arrives and the waiter is served, the object stays. *)
Theorem deferred_drop_forgotten :
  ('(rc1, rows1, evs1) ←
     run_all [RWant 0 b0 (mkKey (lit "a") (lit "c")) false (Some 7);
              RDrop 1 b0 (mkKey (lit "a") (lit "c"))] start;
   '(_, rows2, evs2) ←
     run_all [RPut 2 b0 (mkKey (lit "a") (lit "c")) (obj (lit "x"))
                PoolBehavior.WriteToLocal None] (KELPIE_OK, rows1, []);
   rep ← get 3 b0 (mkKey (lit "a") (lit "c")) None rows2;
   Ok (rc1, called evs2, rep_out _ rep)) =
  Ok (KELPIE_OK, [(7, mkKey (lit "a") (lit "c"), obj (lit "x"))], Some (Some (obj (lit "x")))).
Proof. vm_compute. reflexivity. Qed.

(** With an exact key that was found in memory the I/O module is asked all the same, and with
    an exact key that was not found it is not. *)
Theorem list_iom_check_inverted (i : storage) k oc rows :
  key_valid k = true → IsRowWildcard k = false → IsColWildcard k = false →
  find_cell b0 k rows = None →
  lkv_list b0 k (Some i) oc rows = lkv_list b0 k (None : option storage) oc rows.
Proof.
  intros Hk Hr Hc Hf. unfold lkv_list. rewrite Hk, Hr, Hc. simpl.
  unfold doRowOp, getRow. unfold find_cell in Hf.
  destruct (rows !! makeRowname b0 k) as [row|]; simpl in *; [|done].
  unfold getActiveColumnNamesCapacities. unfold IsColWildcard in Hc. by rewrite Hc, Hf.
Qed.

(** * Witnesses

    A column somebody waits on, and the store that holds it. *)
Definition k_ac : Key := mkKey (lit "a") (lit "c").
Definition waiting_cell : LocalKVCell content :=
  set_accessed 0 (set_availability (appendCallbackList 7 (new_cell 0)) Requested).
Definition waiting_rows : gmap str (LocalKVRow content) := set_cell b0 k_ac waiting_cell ∅.
Definition full_rows : gmap str (LocalKVRow content) :=
  set_cell b0 k_ac (fill 0 (obj (lit "x")) (new_cell 0)) ∅.

Lemma want_run :
  run (RWant 0 b0 k_ac true (Some 7)) ∅ =
    Ok (KELPIE_ENOENT, waiting_rows, []) :> outcome (_ * gmap str (LocalKVRow content) * _).
Proof. reflexivity. Qed.

Lemma put_then_get_witness :
  ∃ rep iom' rep', put 0 b0 k_ac (obj (lit "x")) PoolBehavior.WriteToLocal (None : option storage)
      None waiting_rows = Ok (rep, iom') ∧ rep_rc _ rep = KELPIE_OK ∧
    get 1 b0 k_ac None (rep_rows _ rep) = Ok rep' ∧ rep_rc _ rep' = KELPIE_OK ∧
    rep_out _ rep' = Some (Some (obj (lit "x"))).
Proof.
  apply (put_then_get 0 1 b0 k_ac (obj (lit "x")) PoolBehavior.WriteToLocal None None None
    waiting_rows); [reflexivity|reflexivity|].
  intros c Hc Ha. unfold waiting_rows in Hc. rewrite find_set_cell in Hc. simplify_eq.
Defined.

Lemma put_existing_refused_witness :
  ∃ rep iom' rep', put 0 b0 k_ac (obj (lit "y")) PoolBehavior.WriteToLocal (None : option storage)
      None full_rows = Ok (rep, iom') ∧ rep_rc _ rep = KELPIE_EEXIST ∧
    get 1 b0 k_ac None (rep_rows _ rep) = Ok rep' ∧
    rep_out _ rep' = Some (Some (obj (lit "x"))).
Proof.
  apply (put_existing_refused 0 1 b0 k_ac (obj (lit "y")) PoolBehavior.WriteToLocal None None None
    full_rows (fill 0 (obj (lit "x")) (new_cell 0))); reflexivity.
Defined.

Lemma put_wakes_waiters_witness :
  ∃ rep iom' c', put 0 b0 k_ac (obj (lit "x")) 0 (None : option storage) None
      (set_cell b0 k_ac (appendWaitingList 3 waiting_cell) ∅) = Ok (rep, iom') ∧
    offered (rep_events _ rep) = [(3%Z, Some (obj (lit "x")))] ∧
    called (rep_events _ rep) = [(7, k_ac, obj (lit "x"))] ∧
    find_cell b0 k_ac (rep_rows _ rep) = Some c' ∧ ldo c' = obj (lit "x") ∧
    getNumDependencies c' = 0.
Proof.
  apply (put_wakes_waiters 0 b0 k_ac (obj (lit "x")) 0 None None
    (set_cell b0 k_ac (appendWaitingList 3 waiting_cell) ∅) (appendWaitingList 3 waiting_cell));
    [reflexivity|apply find_set_cell|done|vm_compute; lia].
Defined.

Lemma request_frame_witness :
  find_cell b1 k_ac waiting_rows = find_cell b1 k_ac (∅ : gmap str (LocalKVRow content)).
Proof.
  apply (request_frame (RWant 0 b0 k_ac true (Some 7)) b0 k_ac b1 k_ac ∅ _ _ _ eq_refl want_run).
  intros [H _]. vm_compute in H. discriminate.
Defined.

Lemma drop_exact_row_witness :
  ∃ rc rows', lkv_drop 1 b0 k_ac waiting_rows = Ok (rc, rows') ∧
    find_cell b0 k_ac rows' = dropped 1 waiting_cell.
Proof.
  destruct (drop_exact_row 1 b0 k_ac waiting_rows) as (rc & rows' & Hd & Hc & _);
    [reflexivity|reflexivity|apply set_cell_ok, map_Forall_empty|].
  exists rc, rows'. split; [exact Hd|].
  etrans; [apply (Hc (lit "c") waiting_cell (find_set_cell _ _ _ _))|].
  rewrite decide_True; [reflexivity|]. by apply selects_exact.
Defined.

Lemma list_spec_witness :
  ∃ rc oc', lkv_list b0 (mkKey star star) (None : option storage) oc_empty full_rows
    = Ok (rc, oc') ∧ k_ac ∈ oc_keys oc'.
Proof.
  destruct (list_spec b0 (mkKey star star) oc_empty full_rows) as (rc & oc' & Hl & _ & Hk);
    [reflexivity|apply set_cell_ok, map_Forall_empty|reflexivity|].
  exists rc, oc'. split; [exact Hl|]. apply Hk. right.
  exists (makeRowname b0 k_ac), (setCol (lit "c") (fill 0 (obj (lit "x")) (new_cell 0))
    (new_row (lit "a"))), (lit "a"). split; [apply lookup_insert_eq|].
  split; [vm_compute; reflexivity|]. split; [done|].
  exists (fill 0 (obj (lit "x")) (new_cell 0)). split; [reflexivity|].
  split; [apply (selects_star []), prefix_nil|]. intros _ _. vm_compute. discriminate.
Defined.

Lemma no_lost_wakeup_witness : all_settled waiting_rows.
Proof.
  apply (no_lost_wakeup (I := storage)).
  exact (nocache_step (RWant 0 b0 k_ac true (Some 7)) ∅ _ _ _ nocache_init eq_refl want_run).
Defined.

Lemma reachable_no_empty_rows_witness :
  ∃ b name c, makeRowname b0 k_ac = makeRowname b (row_key (lit "a")) ∧
    getCol name (setCol (lit "c") waiting_cell (new_row (lit "a"))) = Some c.
Proof.
  apply (reachable_no_empty_rows (I := storage) waiting_rows (makeRowname b0 k_ac)
    (setCol (lit "c") waiting_cell (new_row (lit "a")))); [|apply lookup_insert_eq].
  exact (reachable_step (RWant 0 b0 k_ac true (Some 7)) ∅ _ _ _ reachable_init want_run).
Defined.

Lemma bucket_isolation_witness :
  Bucket.mk 0x12 = Bucket.mk 0x12 ∧ lit "a" = lit "a".
Proof.
  apply (bucket_isolation (Bucket.mk 0x12) (Bucket.mk 0x12) (mkKey (lit "a") (lit "c"))
    (mkKey (lit "a") (lit "d"))); [split; simpl; lia|split; simpl; lia|reflexivity|reflexivity].
Defined.

Lemma getForOp_strands_witness :
  ∃ rep c', getForOp 1 b0 k_ac 3 PoolBehavior.ReadToRemote 9
      (λ _, Some ({[ (1%Z, k_ac) := obj (lit "x") ]} : storage)) None waiting_rows = Ok rep ∧
    rep_rc _ rep = KELPIE_OK ∧ rep_events _ rep = [] ∧
    find_cell b0 k_ac (rep_rows _ rep) = Some c' ∧ availability c' = InLocalMemory ∧
    ldo c' = obj (lit "x") ∧ waiting_ops_list c' = ∅ ∧ callback_list c' = [7].
Proof.
  apply (getForOp_strands 1 b0 k_ac 3 PoolBehavior.ReadToRemote 9 (λ _, Some _)
    {[ (1%Z, k_ac) := obj (lit "x") ]} (obj (lit "x")) None waiting_rows waiting_cell);
    (reflexivity || done).
Defined.
