(* ===== verification/Bootstrap.v ===== *)
(** Bootstrap (src/src/faodel-common/BootstrapImplementation.cpp): the registration of
    components, the ordering of their dependencies, and the life cycle Init, Start, Finish.

    The mutex that protects the state is part of it, since it is not recursive: a call that
    returns without releasing it blocks the next one.  What the registered functions do is
    recorded as a list of actions; whether one of them throws is a field of the component. *)
From S2P Require Import Prelude.

(** * Components and dependencies *)

Record bstrap_t := mkBstrap {
  bs_name : str;
  bs_requires : list str;
  bs_optional : list str;
  init_throws : bool;      (** [init_function] throws a [runtime_error] *)
  start_throws : bool;
  has_component_ptr : bool
}.

Abbreviation lut := (gmap str (gset str)).

Definition deps_of (m : lut) (x : str) : gset str := default ∅ (m !! x).

(** Steps 1 and 2: every component with what it requires and the optional components that are
    there; [None] when something required is missing. *)
Fixpoint expand_go (all_mandatory : gset str) (l : list bstrap_t) (dep_lut : lut) : option lut :=
  match l with
  | [] => Some dep_lut
  | bs :: l' =>
      if forallb (λ p, bool_decide (p ∈ all_mandatory)) (bs_requires bs) then
        let deps := list_to_set (bs_requires bs)
          ∪ list_to_set (filter (λ p, p ∈ all_mandatory) (bs_optional bs)) in
        expand_go all_mandatory l' (<[bs_name bs := deps]> dep_lut)
      else None
  end.

Definition names (l : list bstrap_t) : list str := bs_name <$> l.

Definition expandDependencies (l : list bstrap_t) : option lut :=
  expand_go (list_to_set (names l)) l ∅.

(** Step 3: one item takes over the dependencies of its parents; the flag says whether it
    learned anything. *)
Definition add_dep (st : bool * gset str) (d : str) : bool * gset str :=
  if decide (d ∈ st.2) then st else (true, {[d]} ∪ st.2).

Definition add_parent (m : lut) (st : bool * gset str) (parent : str) : bool * gset str :=
  foldl add_dep st (elements (deps_of m parent)).

Definition work_item (st : bool * lut) (x : str) : bool * lut :=
  let '(keep_going, m) := st in
  let '(keep_going', updated) :=
    foldl (add_parent m) (keep_going, deps_of m x) (elements (deps_of m x)) in
  (keep_going', <[x := updated]> m).

Definition pass (m : lut) : bool * lut := foldl work_item (false, m) (entries m).*1.

(** The [while] loop, with fuel. *)
Fixpoint close (fuel : nat) (m : lut) : option lut :=
  match fuel with
  | 0 => None
  | S fuel' => let '(keep_going, m') := pass m in if keep_going then close fuel' m' else Some m'
  end.

(** Step 4: before the first component that depends on it, else at the end. *)
Fixpoint insert_sorted (m : lut) (bs : bstrap_t) (sbs : list bstrap_t) : list bstrap_t :=
  match sbs with
  | [] => [bs]
  | b :: sbs' =>
      if decide (bs_name bs ∈ deps_of m (bs_name b)) then bs :: sbs
      else b :: insert_sorted m bs sbs'
  end.

Definition sort_with (m : lut) (l : list bstrap_t) : list bstrap_t :=
  foldl (λ sbs bs, insert_sorted m bs sbs) [] l.

(** Enough passes: each one but the last adds a dependency. *)
Definition loop_fuel (l : list bstrap_t) : nat := S (length l * length l).

Definition sortDependencies (l : list bstrap_t) : option (list bstrap_t) :=
  m ← expandDependencies l;
  m' ← close (loop_fuel l) m;
  Some (sort_with m' l).

(** * One pass of the loop *)

Lemma foldl_add_dep go s l :
  let '(go', s') := foldl add_dep (go, s) l in
  s' = s ∪ list_to_set l ∧ (go' = true ↔ go = true ∨ s' ≠ s).
Proof.
  revert go s. induction l as [|d l IH]; intros go s; simpl.
  { split; [set_solver|]. naive_solver. }
  unfold add_dep at 2. simpl. case_decide as Hd.
  - specialize (IH go s). destruct (foldl add_dep (go, s) l) as [go' s'].
    destruct IH as [-> Hgo]. split; [set_solver|done].
  - specialize (IH true ({[d]} ∪ s)). destruct (foldl add_dep _ l) as [go' s'].
    destruct IH as [-> Hgo]. split; [set_solver|]. split; [|intros _; apply Hgo; by left].
    intros _. right. set_solver.
Qed.

Lemma foldl_add_parent m go s ps :
  let '(go', s') := foldl (add_parent m) (go, s) ps in
  (∀ d, d ∈ s' ↔ d ∈ s ∨ ∃ p, p ∈ ps ∧ d ∈ deps_of m p) ∧ (go' = true ↔ go = true ∨ s' ≠ s).
Proof.
  revert go s. induction ps as [|p ps IH]; intros go s; simpl.
  { split; [set_solver|]. naive_solver. }
  unfold add_parent at 2. pose proof (foldl_add_dep go s (elements (deps_of m p))) as Hp.
  destruct (foldl add_dep (go, s) _) as [go1 s1]. destruct Hp as [-> Hgo1].
  rewrite list_to_set_elements_L in Hgo1.
  specialize (IH go1 (s ∪ list_to_set (elements (deps_of m p)))).
  rewrite list_to_set_elements_L in IH |- *.
  destruct (foldl (add_parent m) _ ps) as [go2 s2]. destruct IH as [Hs2 Hgo2]. split.
  - intros d. rewrite Hs2. set_solver.
  - rewrite Hgo2, Hgo1. split.
    + intros [[?|Hne]|Hne]; [by left|right..]; set_solver.
    + intros [?|Hne]; [auto|]. destruct (decide (s ∪ deps_of m p = s)) as [He|]; [|auto].
      right. by rewrite He.
Qed.

Lemma deps_of_insert m x y s : deps_of (<[x := s]> m) y = if decide (x = y) then s else deps_of m y.
Proof.
  unfold deps_of. case_decide as Hd; [subst|]; [by rewrite lookup_insert_eq|by rewrite lookup_insert_ne].
Qed.

(** What an item knows after its turn. *)
Definition grown (m : lut) (x d : str) : Prop :=
  d ∈ deps_of m x ∨ ∃ p, p ∈ deps_of m x ∧ d ∈ deps_of m p.

Lemma work_item_spec go m x :
  let '(go', m') := work_item (go, m) x in
  (∀ d, d ∈ deps_of m' x ↔ grown m x d) ∧
  (∀ y, y ≠ x → deps_of m' y = deps_of m y) ∧
  (go' = true ↔ go = true ∨ deps_of m' x ≠ deps_of m x) ∧
  (x ∈ dom m → dom m' = dom m).
Proof.
  unfold work_item. pose proof (foldl_add_parent m go (deps_of m x) (elements (deps_of m x))) as Hp.
  destruct (foldl _ _ _) as [go' s']. destruct Hp as [Hs Hgo]. split_and!.
  - intros d. rewrite deps_of_insert, decide_True by done. rewrite Hs. unfold grown.
    by setoid_rewrite elem_of_elements.
  - intros y Hy. by rewrite deps_of_insert, decide_False.
  - by rewrite deps_of_insert, decide_True.
  - intros Hx. rewrite dom_insert_L. set_solver.
Qed.

Lemma foldl_work_item go m xs :
  (∀ x, x ∈ xs → x ∈ dom m) →
  let '(go', m') := foldl work_item (go, m) xs in
  dom m' = dom m ∧ (∀ y, deps_of m y ⊆ deps_of m' y) ∧
  (go' = false → go = false ∧ (∀ y, deps_of m' y = deps_of m y) ∧
     ∀ x d, x ∈ xs → grown m x d → d ∈ deps_of m x) ∧
  (go' = true → go = true ∨ ∃ x, x ∈ xs ∧ deps_of m x ⊂ deps_of m' x).
Proof.
  revert go m. induction xs as [|x xs IH]; intros go m Hdom; cbn [foldl].
  { split_and!; try done; [|auto]. intros ->. split_and!; try done. by intros ?? ?%elem_of_nil. }
  pose proof (work_item_spec go m x) as Hw. destruct (work_item (go, m) x) as [go1 m1].
  destruct Hw as (Hx & Hy & Hgo1 & Hd1). specialize (Hd1 (Hdom x ltac:(left))).
  assert (Hsub : ∀ y, deps_of m y ⊆ deps_of m1 y).
  { intros y. destruct (decide (y = x)) as [->|]; [|by rewrite Hy].
    intros d Hd. apply Hx. by left. }
  specialize (IH go1 m1). destruct (foldl work_item (go1, m1) xs) as [go2 m2].
  destruct IH as (Hd2 & Hsub2 & Hf & Ht); [intros z Hz; rewrite Hd1; apply Hdom; by right|].
  split_and!; [congruence|intros y; etrans; [apply Hsub|apply Hsub2]| |].
  - intros Hg. destruct (Hf Hg) as (Hg1 & Heq & Hcl).
    assert (Hg0 : go = false ∧ deps_of m1 x = deps_of m x).
    { destruct (decide (deps_of m1 x = deps_of m x)) as [He|Hne].
      - split; [|done]. destruct go; [|done]. rewrite <-Hg1. symmetry. apply Hgo1. by left.
      - assert (go1 = true) by (apply Hgo1; by right). congruence. }
    destruct Hg0 as [Hg0 Hex].
    assert (Hall : ∀ y, deps_of m1 y = deps_of m y).
    { intros y. destruct (decide (y = x)) as [->|]; auto. }
    split_and!; [done|intros y; by rewrite Heq|].
    intros z d [->|Hz]%elem_of_cons Hgr.
    + rewrite <-Hex. by apply Hx.
    + rewrite <-Hall. apply Hcl; [done|]. unfold grown. setoid_rewrite Hall. done.
  - intros Hg. destruct (Ht Hg) as [Hg1|(z & Hz & Hlt)].
    + apply Hgo1 in Hg1 as [?|Hne]; [by left|]. right. exists x. split; [left|].
      split; [etrans; [apply Hsub|apply Hsub2]|]. intros Hsup. apply Hne, set_eq. intros d. split; [|apply Hsub].
      intros Hd. apply Hsup. by apply Hsub2.
    + right. exists z. split; [by right|]. destruct Hlt as [Hl1 Hl2].
      split; [etrans; [apply Hsub|done]|]. intros Hsup. apply Hl2. etrans; [done|apply Hsub].
Qed.

(** What is learned follows from what was known. *)
Lemma foldl_work_item_sound (T : str → str → Prop) go m xs :
  Transitive T → (∀ y d, d ∈ deps_of m y → T y d) →
  ∀ y d, d ∈ deps_of (foldl work_item (go, m) xs).2 y → T y d.
Proof.
  intros Htr. revert go m. induction xs as [|x xs IH]; intros go m Hm; cbn [foldl]; [done|].
  pose proof (work_item_spec go m x) as Hw. destruct (work_item (go, m) x) as [go1 m1].
  destruct Hw as (Hx & Hy & _). apply IH. intros y d. destruct (decide (y = x)) as [->|Hne].
  - intros [?|(p & ? & ?)]%Hx; [auto|]. etrans; eauto.
  - rewrite Hy by done. apply Hm.
Qed.

(** * The loop ends *)

Fixpoint weight (ks : list str) (m : lut) : nat :=
  match ks with [] => 0 | k :: ks' => size (deps_of m k) + weight ks' m end.

Lemma weight_mono ks m m' : (∀ y, deps_of m y ⊆ deps_of m' y) → weight ks m ≤ weight ks m'.
Proof.
  intros Hsub. induction ks as [|k ks IH]; cbn [weight]; [done|].
  pose proof (subseteq_size _ _ (Hsub k)). lia.
Qed.

Lemma weight_strict ks m m' x :
  (∀ y, deps_of m y ⊆ deps_of m' y) → x ∈ ks → deps_of m x ⊂ deps_of m' x →
  weight ks m < weight ks m'.
Proof.
  intros Hsub Hx Hlt. induction ks as [|k ks IH]; [by apply elem_of_nil in Hx|].
  cbn [weight]. apply elem_of_cons in Hx as [<-|Hx].
  - pose proof (subset_size _ _ Hlt). pose proof (weight_mono ks m m' Hsub). lia.
  - pose proof (subseteq_size _ _ (Hsub k)). specialize (IH Hx). lia.
Qed.

(** The names the items may depend on. *)
Definition closed_world (U : gset str) (m : lut) : Prop := dom m = U ∧ ∀ x, deps_of m x ⊆ U.

Lemma weight_bound U m : closed_world U m → weight (elements U) m ≤ size U * size U.
Proof.
  intros [_ Hsub]. change (size U) with (length (elements U)) at 1.
  induction (elements U) as [|k ks IH]; cbn [weight length]; [lia|].
  pose proof (subseteq_size _ _ (Hsub k)). lia.
Qed.

Lemma elem_of_keys {V} (m : gmap str V) x : x ∈ (entries m).*1 ↔ x ∈ dom m.
Proof.
  rewrite list_elem_of_fmap, elem_of_dom. split.
  - intros ([k v] & -> & Hin). exists v. by apply elem_of_entries.
  - intros [v Hv]. exists (x, v). split; [done|]. by apply elem_of_entries.
Qed.

Lemma pass_spec U m :
  closed_world U m →
  let '(go, m') := pass m in
  closed_world U m' ∧ (∀ y, deps_of m y ⊆ deps_of m' y) ∧
  (go = false → (∀ y, deps_of m' y = deps_of m y) ∧ ∀ x d, grown m x d → d ∈ deps_of m x) ∧
  (go = true → weight (elements U) m < weight (elements U) m').
Proof.
  intros [Hdom HU]. unfold pass.
  pose proof (foldl_work_item false m (entries m).*1) as Hf.
  pose proof (foldl_work_item_sound (λ _ d, d ∈ U) false m (entries m).*1) as Hs.
  destruct (foldl work_item (false, m) _) as [go m'].
  destruct Hf as (Hd & Hsub & Hff & Ht); [by intros x; rewrite elem_of_keys|].
  split_and!.
  - split; [congruence|]. intros x d Hd'. apply (Hs ltac:(by intros ?????)) in Hd'; [done|]. intros y e. apply HU.
  - done.
  - intros Hg. destruct (Hff Hg) as (_ & Heq & Hcl). split; [done|]. intros x d Hgr.
    destruct (decide (x ∈ dom m)) as [Hx|Hx].
    + apply Hcl; [by apply elem_of_keys|done].
    + assert (deps_of m x = ∅) as He by (unfold deps_of; by apply not_elem_of_dom in Hx as ->).
      unfold grown in Hgr. rewrite He in Hgr. set_solver.
  - intros Hg. destruct (Ht Hg) as [?|(x & Hx & Hlt)]; [done|].
    eapply weight_strict; eauto. rewrite elem_of_elements, <-Hdom. by apply elem_of_keys.
Qed.

(** With enough fuel the loop ends in the transitive closure of the dependencies. *)
Lemma close_spec fuel U m :
  closed_world U m → size U * size U < fuel + weight (elements U) m →
  ∃ m', close fuel m = Some m' ∧ closed_world U m' ∧
    ∀ x d, d ∈ deps_of m' x ↔ tc (λ x d, d ∈ deps_of m x) x d.
Proof.
  revert m. induction fuel as [|fuel IH]; intros m HU Hfuel.
  { pose proof (weight_bound U m HU). lia. }
  simpl. pose proof (pass_spec U m HU) as Hp.
  pose proof (λ T H, foldl_work_item_sound T false m (entries m).*1 H) as Hs. fold (pass m) in Hs.
  destruct (pass m) as [go m1]. destruct Hp as (HU1 & Hsub & Hf & Ht). simpl in Hs.
  destruct go.
  - destruct (IH m1 HU1) as (m' & -> & HU' & Htc); [specialize (Ht eq_refl); lia|].
    exists m'. split_and!; try done. intros x d. rewrite Htc. split.
    + intros H1. induction H1 as [x d Hd|x y d Hy _ IH1].
      * eapply (Hs (tc (λ x d, d ∈ deps_of m x))); [apply _|by intros; apply tc_once|done].
      * etrans; [|done]. eapply (Hs (tc (λ x d, d ∈ deps_of m x))); [apply _|by intros; apply tc_once|done].
    + apply (tc_congruence id). intros a c Hac. by apply Hsub.
  - destruct (Hf eq_refl) as [Heq Hcl]. exists m1. split_and!; try done. intros x d.
    rewrite Heq. split; [by intros; apply tc_once|].
    induction 1 as [x d Hd|x y d Hy _ IHt]; [done|]. apply Hcl. right. eauto.
Qed.

(** * The dependencies of the registered components *)

Definition depends (l : list bstrap_t) (x d : str) : Prop :=
  ∃ bs, bs ∈ l ∧ bs_name bs = x ∧
    (d ∈ bs_requires bs ∨ d ∈ bs_optional bs ∧ d ∈ names l).

(** Everything a component requires is registered. *)
Definition requires_met (l : list bstrap_t) : Prop :=
  ∀ bs p, bs ∈ l → p ∈ bs_requires bs → p ∈ names l.

Lemma expand_go_spec U l m :
  NoDup (names l) → (∀ x, x ∈ names l → x ∉ dom m) →
  (∀ bs p, bs ∈ l → p ∈ bs_requires bs → p ∈ U) →
  ∃ m', expand_go U l m = Some m' ∧ dom m' = dom m ∪ list_to_set (names l) ∧
    ∀ x d, d ∈ deps_of m' x ↔ d ∈ deps_of m x ∨
      ∃ bs, bs ∈ l ∧ bs_name bs = x ∧ (d ∈ bs_requires bs ∨ d ∈ bs_optional bs ∧ d ∈ U).
Proof.
  revert m. induction l as [|bs l IH]; intros m Hnd Hfresh Hreq; simpl.
  { exists m. split_and!; [done|set_solver|]. intros x d. split; [by left|].
    intros [?|(bs & ?%elem_of_nil & _)]; done. }
  simpl in Hnd. apply NoDup_cons in Hnd as [Hn Hnd].
  assert (forallb (λ p, bool_decide (p ∈ U)) (bs_requires bs) = true) as ->.
  { apply forallb_forall. intros p Hp%list_elem_of_In. apply bool_decide_eq_true.
    apply (Hreq bs); [left|done]. }
  set (deps := list_to_set (bs_requires bs) ∪ _ : gset str).
  destruct (IH (<[bs_name bs := deps]> m) Hnd) as (m' & -> & Hdom & Hdeps).
  { intros x Hx. rewrite dom_insert. apply not_elem_of_union. split.
    - apply not_elem_of_singleton. by intros ->.
    - apply Hfresh. by right. }
  { intros b p Hb. apply Hreq. by right. }
  exists m'. split_and!; [done|rewrite Hdom, dom_insert_L; set_solver|].
  intros x d. rewrite Hdeps, deps_of_insert. setoid_rewrite elem_of_cons.
  assert (Hd0 : deps_of m (bs_name bs) = ∅).
  { unfold deps_of. rewrite (proj1 (not_elem_of_dom m (bs_name bs))); [done|]. apply Hfresh. left. }
  assert (Hin : d ∈ deps ↔ d ∈ bs_requires bs ∨ d ∈ bs_optional bs ∧ d ∈ U).
  { subst deps. rewrite elem_of_union, !elem_of_list_to_set, list_elem_of_filter. naive_solver. }
  case_decide as Hx; [subst x; rewrite Hin, Hd0|]; set_solver.
Qed.

Lemma expand_go_missing U l m bs p :
  bs ∈ l → p ∈ bs_requires bs → p ∉ U → expand_go U l m = None.
Proof.
  revert m. induction l as [|b l IH]; intros m; [by intros ?%elem_of_nil|].
  simpl. intros [->|Hin]%elem_of_cons Hp HU.
  - destruct (forallb _ _) eqn:E; [|done]. rewrite forallb_forall in E.
    specialize (E p (proj1 (list_elem_of_In _ _) Hp)). by apply bool_decide_eq_true in E.
  - destruct (forallb _ _); [|done]. by apply IH.
Qed.

Lemma expandDependencies_spec l :
  NoDup (names l) → requires_met l →
  ∃ m, expandDependencies l = Some m ∧ closed_world (list_to_set (names l)) m ∧
    ∀ x d, d ∈ deps_of m x ↔ depends l x d.
Proof.
  intros Hnd Hreq. destruct (expand_go_spec (list_to_set (names l)) l ∅ Hnd) as (m & Hm & Hdom & Hd).
  { intros x _. rewrite dom_empty. apply not_elem_of_empty. }
  { intros bs p Hb Hp. apply elem_of_list_to_set. by eapply Hreq. }
  assert (Hdep : ∀ x d, d ∈ deps_of m x ↔ depends l x d).
  { intros x d. rewrite Hd. unfold deps_of at 1. rewrite lookup_empty. unfold depends. simpl.
    setoid_rewrite elem_of_list_to_set. split; [intros [?%elem_of_empty|?]; done|by right]. }
  exists m. split_and!; [done| |done]. split; [by rewrite Hdom, dom_empty_L, (left_id_L ∅ (∪))|].
  intros x d (bs & Hbs & _ & [Hp|[_ Hp]])%Hdep; apply elem_of_list_to_set; eauto.
Qed.

(** * Sorting *)

(** [b] may come after [a]: [a] does not depend on it. *)
Definition may_follow (m : lut) (a b : bstrap_t) : Prop := bs_name b ∉ deps_of m (bs_name a).

Lemma insert_sorted_perm m bs l : insert_sorted m bs l ≡ₚ bs :: l.
Proof.
  induction l as [|b l IH]; simpl; [done|]. case_decide; [done|]. rewrite IH. constructor.
Qed.

Lemma insert_sorted_sorted m bs l :
  (∀ x d e, d ∈ deps_of m x → e ∈ deps_of m d → e ∈ deps_of m x) →
  (∀ x, x ∉ deps_of m x) →
  StronglySorted (may_follow m) l → StronglySorted (may_follow m) (insert_sorted m bs l).
Proof.
  intros Htr Hirr. induction 1 as [|b l Hs IH Hall]; simpl.
  { constructor; constructor. }
  case_decide as Hd.
  - constructor; [by constructor|]. apply Forall_forall. intros c Hc Hdep.
    assert (Hcb : bs_name c ∈ deps_of m (bs_name b)) by eauto.
    apply elem_of_cons in Hc as [->|Hc]; [by eapply Hirr|].
    rewrite Forall_forall in Hall. by apply (Hall c Hc).
  - constructor; [done|]. rewrite insert_sorted_perm. by constructor.
Qed.

Lemma sort_with_perm m l : sort_with m l ≡ₚ l.
Proof.
  unfold sort_with. enough (Hg : ∀ acc, foldl (λ sbs bs, insert_sorted m bs sbs) acc l ≡ₚ acc ++ l)
    by apply Hg.
  induction l as [|b l IH]; intros acc; simpl; [by rewrite app_nil_r|].
  rewrite IH, insert_sorted_perm. simpl. apply Permutation_middle.
Qed.

Lemma sort_with_sorted m l :
  (∀ x d e, d ∈ deps_of m x → e ∈ deps_of m d → e ∈ deps_of m x) → (∀ x, x ∉ deps_of m x) →
  StronglySorted (may_follow m) (sort_with m l).
Proof.
  intros Htr Hirr. unfold sort_with.
  enough (Hg : ∀ acc, StronglySorted (may_follow m) acc →
    StronglySorted (may_follow m) (foldl (λ sbs bs, insert_sorted m bs sbs) acc l))
    by (apply Hg; constructor).
  induction l as [|b l IH]; intros acc Hacc; simpl; [done|]. by apply IH, insert_sorted_sorted.
Qed.

Lemma StronglySorted_lookup_lt {A} (R : A → A → Prop) (l : list A) i j a b :
  StronglySorted R l → l !! i = Some a → l !! j = Some b → i < j → R a b.
Proof.
  intros Hs. revert i j. induction Hs as [|x l _ IH Hall]; intros i j Ha Hb Hlt; [done|].
  destruct j as [|j]; [lia|]. simpl in Hb. destruct i as [|i]; simplify_eq/=.
  - rewrite Forall_forall in Hall. apply Hall. by eapply list_elem_of_lookup_2.
  - apply (IH i j); auto with lia.
Qed.

(** Sorting ends: the loop reaches its fixed point within its fuel, and the result is a
    rearrangement of the components, ordered by the transitive dependencies. *)
Lemma sortDependencies_total l :
  NoDup (names l) → requires_met l →
  ∃ m, sortDependencies l = Some (sort_with m l) ∧
    ∀ x d, d ∈ deps_of m x ↔ tc (depends l) x d.
Proof.
  intros Hnd Hreq. destruct (expandDependencies_spec l Hnd Hreq) as (m & Hm & HU & Hd).
  destruct (close_spec (loop_fuel l) _ m HU) as (m' & Hc & _ & Htc).
  { unfold loop_fuel. rewrite size_list_to_set by done. unfold names. rewrite length_fmap. lia. }
  exists m'. unfold sortDependencies. rewrite Hm. cbn [mbind option_bind]. rewrite Hc. split; [done|].
  intros x d. rewrite Htc. split; apply (tc_congruence id); intros a c; by rewrite <-Hd.
Qed.

(** C14: Start-up order: when every required component is registered and no component depends on
    itself through others, sorting succeeds, keeps exactly the registered components, and puts
    every component after everything it depends on, directly or not. *)
Theorem sortDependencies_spec l :
  NoDup (names l) → requires_met l → (∀ x, ¬ tc (depends l) x x) →
  ∃ l', sortDependencies l = Some l' ∧ l' ≡ₚ l ∧
    ∀ i j a b, l' !! i = Some a → l' !! j = Some b →
      tc (depends l) (bs_name b) (bs_name a) → i < j.
Proof.
  intros Hnd Hreq Hac. destruct (sortDependencies_total l Hnd Hreq) as (m & -> & Htc).
  exists (sort_with m l). split; [done|]. split; [apply sort_with_perm|].
  intros i j a b Ha Hb Hdep.
  assert (Hs : StronglySorted (may_follow m) (sort_with m l)).
  { apply sort_with_sorted.
    - intros x d e. rewrite !Htc. intros. by etrans.
    - intros x. rewrite Htc. apply Hac. }
  destruct (decide (i < j)) as [|Hge]; [done|]. exfalso.
  destruct (decide (i = j)) as [->|Hne].
  - simplify_eq. by eapply Hac.
  - assert (Hmf : may_follow m b a) by (apply (StronglySorted_lookup_lt _ (sort_with m l) j i); auto with lia).
    apply Hmf. by apply Htc.
Qed.

(** A missing requirement is the only reason for sorting to fail. *)
Theorem sortDependencies_fails l :
  NoDup (names l) →
  sortDependencies l = None ↔ ∃ bs p, bs ∈ l ∧ p ∈ bs_requires bs ∧ p ∉ names l.
Proof.
  intros Hnd. split.
  - intros Hf. destruct (decide (Forall (λ bs, Forall (λ p, p ∈ names l) (bs_requires bs)) l))
      as [Hall|Hn].
    + destruct (sortDependencies_total l Hnd) as (m & Hm & _); [|congruence].
      intros bs p Hb Hp. rewrite Forall_forall in Hall. specialize (Hall bs Hb).
      rewrite Forall_forall in Hall. auto.
    + apply not_Forall_Exists, Exists_exists in Hn as (bs & Hb & Hn); [|apply _].
      apply not_Forall_Exists, Exists_exists in Hn as (p & Hp & Hn); [|apply _]. eauto.
  - intros (bs & p & Hb & Hp & Hn). unfold sortDependencies, expandDependencies.
    by rewrite (expand_go_missing _ l ∅ bs p) by (try done; by rewrite elem_of_list_to_set).
Qed.

(** * Life cycle *)

Inductive State := UNINITIALIZED | INITIALIZED | STARTED.

#[global] Instance State_eq_dec : EqDecision State.
Proof. solve_decision. Defined.

(** What [Init] reads from the configuration. *)
Record bs_settings := mkSettings { exit_on_errors : bool; cfg_halt_on_shutdown : bool }.

Record Bootstrap := mkBootstrap {
  bstraps : list bstrap_t;
  num_init_callers : Z;       (** an [int] *)
  state : State;
  locked : bool;              (** somebody holds [state_mutex] *)
  halt_on_shutdown : bool
}.

Definition bootstrap_ctor : Bootstrap := mkBootstrap [] 0 UNINITIALIZED false false.

Inductive action := AInit (name : str) | AStart (name : str) | AFini (name : str).

(** How a call ends: it returns, throws a [runtime_error], exits the process, halts in
    [F_HALT], blocks on the mutex for ever, or overflows the [int] that counts the users, which is
    undefined. *)
Inductive result (A : Type) := Returned (a : A) | Raised | Exited | Halted | Deadlock | Overflowed.
Arguments Returned {A} _. Arguments Raised {A}. Arguments Exited {A}.
Arguments Halted {A}. Arguments Deadlock {A}. Arguments Overflowed {A}.

Definition step (A : Type) : Type := result A * Bootstrap * list action.

Definition set_locked (l : bool) (b : Bootstrap) : Bootstrap :=
  mkBootstrap (bstraps b) (num_init_callers b) (state b) l (halt_on_shutdown b).
Definition set_bstraps (l : list bstrap_t) (b : Bootstrap) : Bootstrap :=
  mkBootstrap l (num_init_callers b) (state b) (locked b) (halt_on_shutdown b).
Definition set_callers (n : Z) (b : Bootstrap) : Bootstrap :=
  mkBootstrap (bstraps b) n (state b) (locked b) (halt_on_shutdown b).
Definition set_state (s : State) (b : Bootstrap) : Bootstrap :=
  mkBootstrap (bstraps b) (num_init_callers b) s (locked b) (halt_on_shutdown b).
Definition set_halt (h : bool) (b : Bootstrap) : Bootstrap :=
  mkBootstrap (bstraps b) (num_init_callers b) (state b) (locked b) h.

(** [state_mutex->Lock()] and then the body. *)
Definition with_lock {A} (body : Bootstrap → step A) (b : Bootstrap) : step A :=
  if locked b then (Deadlock, b, []) else body (set_locked true b).
Definition unlock : Bootstrap → Bootstrap := set_locked false.

Definition HasComponent (name : str) (b : Bootstrap) : bool :=
  existsb (λ bs, bs_name bs =s? name) (bstraps b).

(** The first entry with the name of [bs] is overwritten. *)
Fixpoint replace_component (bs : bstrap_t) (l : list bstrap_t) : list bstrap_t :=
  match l with
  | [] => []
  | b :: l' => if bs_name b =s? bs_name bs then bs :: l' else b :: replace_component bs l'
  end.

(** Registering by functions: an overwrite returns with the mutex held. *)
Definition RegisterComponent (bs : bstrap_t) (allow_overwrites : bool) : Bootstrap → step () :=
  with_lock (λ b,
    if bool_decide (state b ≠ UNINITIALIZED) then
      (if HasComponent (bs_name bs) b then Returned () else Raised, unlock b, [])
    else if HasComponent (bs_name bs) b then
      if negb allow_overwrites then (Raised, unlock b, [])
      else (Returned (), set_bstraps (replace_component bs (bstraps b)) b, [])
    else (Returned (), unlock (set_bstraps (bstraps b ++ [bs]) b), [])).

(** Registering an object that implements the interface. *)
Definition RegisterComponent_ptr (bs : bstrap_t) (allow_overwrites : bool) : Bootstrap → step () :=
  with_lock (λ b,
    if bool_decide (state b ≠ UNINITIALIZED) then
      (if HasComponent (bs_name bs) b then Returned () else Raised, unlock b, [])
    else if HasComponent (bs_name bs) b then
      if negb allow_overwrites then (Raised, unlock b, [])
      else (Returned (), unlock (set_bstraps (replace_component bs (bstraps b)) b), [])
    else (Returned (), unlock (set_bstraps (bstraps b ++ [bs]) b), [])).

(** Call a function of each component in turn, until one throws. *)
Fixpoint run_each (throws : bstrap_t → bool) (act : str → action) (l : list bstrap_t)
    : bool * list action :=
  match l with
  | [] => (true, [])
  | bs :: l' =>
      if throws bs then (false, [act (bs_name bs)])
      else let '(ok, acts) := run_each throws act l' in (ok, act (bs_name bs) :: acts)
  end.

Definition Init (cfg : bs_settings) : Bootstrap → step bool :=
  with_lock (λ b,
    let current_count := num_init_callers b in
    if (current_count =? INT_MAX)%Z then (Overflowed, b, []) else
    let b := set_callers (current_count + 1) b in
    if negb (current_count =? 0)%Z then (Returned false, unlock b, [])
    else
      let b := set_halt (cfg_halt_on_shutdown cfg) b in
      match sortDependencies (bstraps b) with
      | None => (Raised, unlock b, [])
      | Some sorted =>
          let b := set_bstraps sorted b in
          let '(ok, acts) := run_each init_throws AInit sorted in
          if ok then (Returned true, unlock (set_state INITIALIZED b), acts)
          else (if exit_on_errors cfg then Exited else Raised, unlock b, acts)
      end).

Definition Start : Bootstrap → step () :=
  with_lock (λ b,
    if bool_decide (state b = STARTED) then (Returned (), unlock b, [])
    else if bool_decide (state b ≠ INITIALIZED) then (Raised, unlock b, [])
    else
      let '(ok, acts) := run_each start_throws AStart (bstraps b) in
      if ok then (Returned (), unlock (set_state STARTED b), acts) else (Raised, b, acts)).

(** [Start(config)]: [Init], and [Start] if we were the first. *)
Definition Start_config (cfg : bs_settings) (b : Bootstrap) : step () :=
  match Init cfg b with
  | (Returned true, b1, acts) =>
      let '(r, b2, acts') := Start b1 in (r, b2, acts ++ acts')
  | (Returned false, b1, acts) => (Returned (), b1, acts)
  | (Raised, b1, acts) => (Raised, b1, acts)
  | (Exited, b1, acts) => (Exited, b1, acts)
  | (Halted, b1, acts) => (Halted, b1, acts)
  | (Deadlock, b1, acts) => (Deadlock, b1, acts)
  | (Overflowed, b1, acts) => (Overflowed, b1, acts)
  end.

(** [finish_], with the mutex held by the caller. *)
Definition finish_ (clear_list_of_bootstrap_users : bool) (b : Bootstrap) : step () :=
  if bool_decide (state b = UNINITIALIZED) then (Raised, unlock b, [])
  else
    let b := set_callers (num_init_callers b - 1) b in
    if (0 <? num_init_callers b)%Z then (Returned (), b, [])
    else if halt_on_shutdown b then (Halted, b, [])
    else
      let '(b, acts) :=
        if bool_decide (state b = STARTED) then
          let l := reverse (bstraps b) in (set_bstraps l b, (λ bs, AFini (bs_name bs)) <$> l)
        else (b, []) in
      let b := set_state UNINITIALIZED b in
      (Returned (), if clear_list_of_bootstrap_users then set_bstraps [] b else b, acts).

Definition Finish (clear_list_of_bootstrap_users : bool) : Bootstrap → step () :=
  with_lock (λ b,
    let '(r, b', acts) := finish_ clear_list_of_bootstrap_users b in
    (r, match r with Returned _ => unlock b' | _ => b' end, acts)).

(** The destructor: shuts down whatever the number of users. *)
Definition bootstrap_dtor : Bootstrap → step () :=
  with_lock (λ b,
    let b := set_callers 1 b in
    if bool_decide (state b = STARTED) then finish_ true b else (Returned (), b, [])).

Definition GetState (b : Bootstrap) : str :=
  match state b with
  | UNINITIALIZED => lit "uninitialized"
  | INITIALIZED => lit "initialized"
  | STARTED => lit "started"
  end.

Definition GetNumberOfUsers : Bootstrap → step Z :=
  with_lock (λ b, (Returned (num_init_callers b), unlock b, [])).

Definition GetComponentPointer (name : str) (b : Bootstrap) : option bool :=
  has_component_ptr <$> head (filter (λ bs, bs_name bs = name) (bstraps b)).

(** [CheckDependencies] and [GetStartupOrder] sort the list in place; the message of the
    first lists the names in order. *)
Definition CheckDependencies (b : Bootstrap) : bool * list str * Bootstrap :=
  match sortDependencies (bstraps b) with
  | Some l => (true, names l, set_bstraps l b)
  | None => (false, [], b)
  end.

Definition GetStartupOrder (b : Bootstrap) : result (list str) * Bootstrap :=
  match sortDependencies (bstraps b) with
  | Some l => (Returned (names l), set_bstraps l b)
  | None => (Raised, b)
  end.

(** * Sequences of calls *)

Inductive call :=
| CRegister (bs : bstrap_t) (allow_overwrites : bool)
| CRegisterPtr (bs : bstrap_t) (allow_overwrites : bool)
| CInit (cfg : bs_settings)
| CStart
| CStartConfig (cfg : bs_settings)
| CFinish (clear_list : bool)
| CUsers.

(** The state and the actions a call leaves, and whether the caller gets control back. *)
Definition outcome_of {A} (s : step A) : bool * Bootstrap * list action :=
  let '(r, b, acts) := s in
  (match r with Returned _ | Raised => true | _ => false end, b, acts).

Definition do_call (c : call) (b : Bootstrap) : bool * Bootstrap * list action :=
  match c with
  | CRegister bs o => outcome_of (RegisterComponent bs o b)
  | CRegisterPtr bs o => outcome_of (RegisterComponent_ptr bs o b)
  | CInit cfg => outcome_of (Init cfg b)
  | CStart => outcome_of (Start b)
  | CStartConfig cfg => outcome_of (Start_config cfg b)
  | CFinish clear => outcome_of (Finish clear b)
  | CUsers => outcome_of (GetNumberOfUsers b)
  end.

(** Make the calls in order, as long as each gives control back. *)
Fixpoint do_calls (cs : list call) (b : Bootstrap) : bool * Bootstrap * list action :=
  match cs with
  | [] => (true, b, [])
  | c :: cs' =>
      let '(back, b1, acts) := do_call c b in
      if back then let '(back', b2, acts') := do_calls cs' b1 in (back', b2, acts ++ acts')
      else (false, b1, acts)
  end.

Lemma do_calls_app cs1 cs2 b :
  do_calls (cs1 ++ cs2) b =
    let '(back, b1, acts) := do_calls cs1 b in
    if back then let '(back', b2, acts') := do_calls cs2 b1 in (back', b2, acts ++ acts')
    else (false, b1, acts).
Proof.
  revert b. induction cs1 as [|c cs1 IH]; intros b; simpl.
  { by destruct (do_calls cs2 b) as [[? ?] ?]. }
  destruct (do_call c b) as [[back b1] acts]. destruct back; [|done]. rewrite IH.
  destruct (do_calls cs1 b1) as [[back' b2] acts']. destruct back'; [|done].
  destruct (do_calls cs2 b2) as [[back'' b3] acts'']. by rewrite (assoc_L (++)).
Qed.

Lemma run_each_ok throws act l :
  Forall (λ bs, throws bs = false) l → run_each throws act l = (true, act <$> names l).
Proof.
  induction 1 as [|bs l Hbs _ IH]; [done|]. simpl. by rewrite Hbs, IH.
Qed.

(** Compute the fields of a state that was built by setters. *)
Ltac fields := unfold unlock, set_locked, set_bstraps, set_callers, set_state, set_halt in *;
  cbn [bstraps num_init_callers state locked halt_on_shutdown negb outcome_of] in *.

(** [n] more users of a started bootstrap only count up, and [n] finishes count down. *)
Lemma more_users cfg n l k h :
  (0 < k)%Z → (k + Z.of_nat n ≤ INT_MAX)%Z →
  do_calls (replicate n (CInit cfg)) (mkBootstrap l k STARTED false h) =
    (true, mkBootstrap l (k + Z.of_nat n) STARTED false h, []).
Proof.
  revert k. induction n as [|n IH]; intros k Hk Hmax; cbn [replicate do_calls]; [by rewrite Z.add_0_r|].
  cbn [do_call]. unfold Init, with_lock. fields. rewrite (proj2 (Z.eqb_neq k INT_MAX)) by lia.
  rewrite (proj2 (Z.eqb_neq k 0)) by lia. fields.
  rewrite IH by lia. simpl. do 3 f_equal. lia.
Qed.

Lemma fewer_users clear n l k h :
  (0 < k)%Z →
  do_calls (replicate n (CFinish clear)) (mkBootstrap l (k + Z.of_nat n) STARTED false h) =
    (true, mkBootstrap l k STARTED false h, []).
Proof.
  intros Hk. induction n as [|n IH]; cbn [replicate do_calls]; [by rewrite Z.add_0_r|].
  cbn [do_call]. unfold Finish, with_lock, finish_. fields.
  rewrite bool_decide_false by done. rewrite (proj2 (Z.ltb_lt _ _)) by lia. fields.
  replace (k + Z.of_nat (S n) - 1)%Z with (k + Z.of_nat n)%Z by lia. by rewrite IH.
Qed.

(** C25: A whole life: with components that sort and do not throw in their init and start functions,
    with halting on shutdown off in the first configuration, and with fewer than 2^31 - 1 further
    users, an [Init], a [Start], the further users that come and go, and the last [Finish] run every init function in
    start-up order, then every start function in that order, and at the very end every finish
    function in reverse order; the bootstrap is then as before the first [Init]. *)
Theorem full_cycle cfg cfg' n l l' :
  sortDependencies l = Some l' →
  Forall (λ bs, init_throws bs = false) l' → Forall (λ bs, start_throws bs = false) l' →
  cfg_halt_on_shutdown cfg = false → (Z.of_nat n < INT_MAX)%Z →
  do_calls ([CInit cfg; CStart] ++ replicate n (CInit cfg') ++ replicate n (CFinish false)
            ++ [CFinish false]) (mkBootstrap l 0 UNINITIALIZED false false) =
    (true, mkBootstrap (reverse l') 0 UNINITIALIZED false false,
     (AInit <$> names l') ++ (AStart <$> names l') ++ (AFini <$> names (reverse l'))).
Proof.
  intros Hs Hi Hst Hh Hn. rewrite do_calls_app.
  assert (do_calls [CInit cfg; CStart] (mkBootstrap l 0 UNINITIALIZED false false) =
    (true, mkBootstrap l' 1 STARTED false false, (AInit <$> names l') ++ (AStart <$> names l')))
    as ->.
  { cbn [do_calls do_call]. unfold Init, Start, with_lock. fields. change (0 =? 0)%Z with true.
    change (0 =? INT_MAX)%Z with false. fields. rewrite Hs, run_each_ok by done. fields. rewrite bool_decide_false by done.
    rewrite bool_decide_false by naive_solver. rewrite run_each_ok by done. fields.
    by rewrite Hh, app_nil_r. }
  rewrite do_calls_app, more_users by lia.
  rewrite do_calls_app, fewer_users by lia. cbn [do_calls do_call].
  unfold Finish, with_lock, finish_. fields. rewrite bool_decide_false by done.
  change (0 <? 1 - 1)%Z with false. cbn iota beta. rewrite bool_decide_true by done. fields.
  unfold names. rewrite !app_nil_r, <-!list_fmap_compose, <-(assoc_L (++)). done.
Qed.

(** * Invariants of the counter and the mutex *)

(** Users are counted while the bootstrap is up. *)
Definition counted (b : Bootstrap) : Prop :=
  (0 ≤ num_init_callers b)%Z ∧ (state b ≠ UNINITIALIZED → 0 < num_init_callers b)%Z.

Definition boot_ok (b : Bootstrap) : Prop := NoDup (names (bstraps b)) ∧ counted b.

Lemma HasComponent_spec name b : HasComponent name b = true ↔ name ∈ names (bstraps b).
Proof.
  unfold HasComponent, names. rewrite existsb_exists, list_elem_of_fmap.
  setoid_rewrite bool_decide_eq_true. setoid_rewrite <-list_elem_of_In. naive_solver.
Qed.

Lemma names_replace bs l : names (replace_component bs l) = names l.
Proof.
  induction l as [|b l IH]; simpl; [done|]. case_bool_decide as Hb; simpl; by rewrite ?IH, ?Hb.
Qed.

Lemma sortDependencies_perm l l' : sortDependencies l = Some l' → l' ≡ₚ l.
Proof.
  unfold sortDependencies. intros Hs.
  apply bind_Some in Hs as (m & _ & Hs). apply bind_Some in Hs as (m' & _ & Hs).
  simplify_eq. apply sort_with_perm.
Qed.

Lemma NoDup_names_perm l l' : l' ≡ₚ l → NoDup (names l) → NoDup (names l').
Proof. intros Hp. unfold names. by rewrite Hp. Qed.

Lemma register_ok bs l h n :
  boot_ok (mkBootstrap l n UNINITIALIZED true h) → HasComponent (bs_name bs) (mkBootstrap l n UNINITIALIZED true h) = false →
  NoDup (names (l ++ [bs])).
Proof.
  intros [Hnd _] Hh. apply not_true_iff_false in Hh. rewrite HasComponent_spec in Hh. simpl in *.
  unfold names in *. rewrite fmap_app. apply NoDup_app. split_and!; [done| |apply NoDup_singleton].
  intros x Hx. simpl. rewrite list_elem_of_singleton. by intros ->.
Qed.

Lemma do_register_ok bs o b :
  boot_ok b → boot_ok (do_call (CRegister bs o) b).1.2 ∧ boot_ok (do_call (CRegisterPtr bs o) b).1.2.
Proof.
  intros Hb. destruct b as [l n s lk h]. cbn [do_call].
  unfold RegisterComponent, RegisterComponent_ptr, with_lock. destruct lk; fields; [done|].
  case_bool_decide as Hs; [by repeat case_match|].
  subst s.
  destruct (HasComponent _ _) eqn:Hh; [destruct o|]; fields; try done.
  - unfold boot_ok, counted in *. cbn. rewrite !names_replace. done.
  - destruct Hb as [Hnd Hc]. pose proof (register_ok bs l h n (conj Hnd Hc) Hh). done.
Qed.

Lemma Init_ok cfg b : boot_ok b → boot_ok (Init cfg b).1.2.
Proof.
  intros [Hnd Hc]. destruct b as [l n s lk h]. unfold Init, with_lock, counted in *. fields.
  destruct lk; [done|]. fields. destruct (n =? INT_MAX)%Z; [done|].
  destruct (negb (n =? 0)%Z) eqn:Hn.
  { split; [done|]. unfold counted. cbn. lia. }
  apply negb_false_iff, Z.eqb_eq in Hn as ->.
  assert (s = UNINITIALIZED) as -> by (destruct s; try done; destruct Hc as [_ Hc]; specialize (Hc ltac:(done)); lia).
  destruct (sortDependencies l) as [l'|] eqn:Hs; [|by split].
  pose proof (NoDup_names_perm l l' (sortDependencies_perm l l' Hs) Hnd).
  destruct (run_each init_throws AInit l') as [[] ?]; by split.
Qed.

Lemma Start_ok b : boot_ok b → boot_ok (Start b).1.2.
Proof.
  intros [Hnd Hc]. destruct b as [l n s lk h]. unfold Start, with_lock, counted in *. fields.
  destruct lk; [done|]. fields. destruct s; try done; fields.
  simpl. destruct (run_each start_throws AStart l) as [[] ?]; split; try done.
  split; [apply Hc|]. intros _. by apply Hc.
Qed.

Lemma Finish_ok clear b :
  boot_ok b → (Finish clear b).1.1 ≠ Halted → boot_ok (Finish clear b).1.2.
Proof.
  intros [Hnd Hc]. destruct b as [l n s lk h]. unfold Finish, finish_, with_lock, counted in *.
  fields. destruct lk; [done|]. fields.
  destruct s; [done| |]; (destruct Hc as [H0 H1]; specialize (H1 ltac:(done)));
    rewrite bool_decide_false by done; cbn iota beta.
  all: destruct (0 <? n - 1)%Z eqn:Hn; [intros _; cbn [fst snd]; split; [done|]; unfold counted; fields; lia|].
  all: apply Z.ltb_ge in Hn; destruct h; [done|]; intros _.
  - rewrite bool_decide_false by done. cbn [fst snd]. fields. unfold boot_ok, counted.
    destruct clear; fields; (split; [done || constructor|split; [lia|done]]).
  - rewrite bool_decide_true by done. cbn [fst snd]. fields. unfold boot_ok, counted.
    destruct clear; fields; (split; [try constructor|split; [lia|done]]).
    eapply NoDup_names_perm; [apply reverse_Permutation|done].
Qed.

(** In every state a program can get to, component names are distinct (so sorting applies), no
    more users have finished than have started, and the services are up only while somebody
    uses them. *)
Theorem bootstrap_invariant cs b acts :
  do_calls cs bootstrap_ctor = (true, b, acts) → boot_ok b.
Proof.
  assert (Hstep : ∀ c b, boot_ok b → (do_call c b).1.1 = true → boot_ok (do_call c b).1.2).
  { clear. intros c b Hb Hback. destruct c; try by apply do_register_ok.
    - cbn [do_call] in *. pose proof (Init_ok cfg b Hb). by destruct (Init cfg b) as [[? ?] ?].
    - cbn [do_call] in *. pose proof (Start_ok b Hb). by destruct (Start b) as [[? ?] ?].
    - cbn [do_call] in *. unfold Start_config in *. pose proof (Init_ok cfg b Hb) as Hi.
      destruct (Init cfg b) as [[r b1] ?]. simpl in Hi. pose proof (Start_ok b1 Hi) as Hs.
      destruct r as [[]| | | | |]; try done. by destruct (Start b1) as [[? ?] ?].
    - cbn [do_call] in *. pose proof (Finish_ok clear_list b Hb) as Hf.
      destruct (Finish clear_list b) as [[r ?] ?]. apply Hf. by destruct r.
    - cbn [do_call] in *. unfold GetNumberOfUsers, with_lock. by destruct (locked b). }
  assert (Hb0 : boot_ok bootstrap_ctor) by (split; [constructor|done]).
  revert acts Hb0. generalize bootstrap_ctor. induction cs as [|c cs IH]; intros b0 acts Hb0 Hd.
  { by simplify_eq/=. }
  cbn [do_calls] in Hd. pose proof (Hstep c b0 Hb0) as Hc.
  destruct (do_call c b0) as [[back b1] acts1]. destruct back; [|done].
  destruct (do_calls cs b1) as [[back2 b2] acts2] eqn:E. simplify_eq.
  apply (IH b1 acts2); [by apply Hc|done].
Qed.

(** An [Init] that fails leaves its user counted: from then on no [Init] does anything, no
    [Start] succeeds and no [Finish] brings the count down, whatever the calls. *)
Definition stuck (b : Bootstrap) : Prop :=
  state b = UNINITIALIZED ∧ (0 < num_init_callers b)%Z.

Definition is_lifecycle (c : call) : Prop :=
  match c with CRegister _ _ | CRegisterPtr _ _ => False | _ => True end.

Lemma stuck_step c b :
  stuck b →
  let '(_, b', acts) := do_call c b in stuck b' ∧ acts = [].
Proof.
  intros [Hst Hn]. destruct b as [l n s lk h]. simpl in *. subst s. unfold stuck.
  assert (Hne : negb (n =? 0)%Z = true) by (apply negb_true_iff, Z.eqb_neq; lia).
  destruct c; cbn [do_call];
    unfold RegisterComponent, RegisterComponent_ptr, Start_config, Init, Start, Finish,
      finish_, GetNumberOfUsers, with_lock; destruct lk; fields; rewrite ?Hne; fields.
  all: repeat case_match; fields; simplify_eq; fields; try done.
  all: split_and!; try done; lia.
Qed.

(** After an [Init] whose dependencies cannot be sorted, no sequence of calls runs any hook or
    leaves the UNINITIALIZED state: the failure cannot be repaired. *)
Theorem failed_init_sticks cfg l cs :
  sortDependencies l = None →
  let '(_, b, acts) :=
    do_calls (CInit cfg :: cs) (mkBootstrap l 0 UNINITIALIZED false false) in
  state b = UNINITIALIZED ∧ acts = [].
Proof.
  intros Hs. cbn [do_calls do_call]. unfold Init, with_lock. fields. change (0 =? 0)%Z with true.
  change (0 =? INT_MAX)%Z with false. fields. rewrite Hs. fields.
  match goal with |- context [do_calls cs ?b] =>
    assert (Hb : stuck b) by done; generalize dependent b end.
  induction cs as [|c cs IH]; intros b Hb; simpl; [by destruct Hb|].
  pose proof (stuck_step c b Hb) as Hc. destruct (do_call c b) as [[back b1] acts].
  destruct Hc as [Hb1 ->]. destruct back; [|by destruct Hb1].
  specialize (IH b1 Hb1). by destruct (do_calls cs b1) as [[? ?] ?].
Qed.

(** Overwriting a registered component by functions keeps the mutex: the next call of any kind
    blocks for ever. *)
Theorem overwrite_blocks bs b c :
  locked b = false → state b = UNINITIALIZED → HasComponent (bs_name bs) b = true →
  let '(back, b', _) := do_call (CRegister bs true) b in
  back = true ∧ (do_call c b').1.1 = false.
Proof.
  intros Hl Hst Hh. destruct b as [l n s lk h]. simpl in *. subst.
  unfold RegisterComponent, with_lock. cbn. unfold HasComponent in Hh. simpl in Hh.
  unfold HasComponent. cbn. rewrite Hh. cbn. split; [done|]. by destruct c.
Qed.

(** * Witnesses: a component that requires another one, registered first *)

Definition comp_b : bstrap_t := mkBstrap (lit "b") [] [] false false false.
Definition comp_a : bstrap_t := mkBstrap (lit "a") [lit "b"] [lit "c"] false false false.

Lemma depends_ab x d : depends [comp_a; comp_b] x d → x = lit "a" ∧ d = lit "b".
Proof.
  intros (bs & Hbs & <- & Hd). apply elem_of_cons in Hbs as [->|Hbs].
  - split; [done|]. destruct Hd as [Hd|[Hd Hn]]; apply list_elem_of_singleton in Hd; [done|].
    subst d. apply elem_of_cons in Hn as [?|Hn]; [done|]. by apply list_elem_of_singleton in Hn.
  - apply list_elem_of_singleton in Hbs as ->. destruct Hd as [Hd|[Hd _]]; by apply elem_of_nil in Hd.
Qed.

Lemma tc_depends_ab x d : tc (depends [comp_a; comp_b]) x d → x = lit "a" ∧ d = lit "b".
Proof.
  induction 1 as [x d Hd|x y d Hd _ IH]; [by apply depends_ab|].
  apply depends_ab in Hd as [-> ->]. by destruct IH.
Qed.

Lemma names_ab_distinct : NoDup (names [comp_a; comp_b]).
Proof. apply (bool_decide_unpack _). vm_compute. exact I. Qed.

Lemma sortDependencies_spec_witness :
  ∃ l', sortDependencies [comp_a; comp_b] = Some l' ∧ l' ≡ₚ [comp_a; comp_b] ∧
    ∀ i j a b, l' !! i = Some a → l' !! j = Some b →
      tc (depends [comp_a; comp_b]) (bs_name b) (bs_name a) → i < j.
Proof.
  apply (sortDependencies_spec [comp_a; comp_b]).
  - exact names_ab_distinct.
  - intros bs p Hbs Hp. assert (Hd : depends [comp_a; comp_b] (bs_name bs) p).
    { exists bs. split; [exact Hbs|]. split; [reflexivity|left; exact Hp]. }
    apply depends_ab in Hd as [_ ->]. right. left.
  - intros x Hx. apply tc_depends_ab in Hx as [-> Hx]. discriminate.
Defined.

Lemma sortDependencies_fails_witness : sortDependencies [comp_a] = None.
Proof.
  apply (sortDependencies_fails [comp_a]); [apply NoDup_singleton|].
  exists comp_a, (lit "b"). split; [left|]. split; [left|].
  intros Hb. apply list_elem_of_singleton in Hb. discriminate.
Defined.

Lemma full_cycle_witness :
  do_calls ([CInit (mkSettings true false); CStart] ++ replicate 2 (CInit (mkSettings true false))
            ++ replicate 2 (CFinish false) ++ [CFinish false])
    (mkBootstrap [comp_a; comp_b] 0 UNINITIALIZED false false) =
  (true, mkBootstrap [comp_a; comp_b] 0 UNINITIALIZED false false,
   [AInit (lit "b"); AInit (lit "a"); AStart (lit "b"); AStart (lit "a");
    AFini (lit "a"); AFini (lit "b")]).
Proof.
  apply (full_cycle (mkSettings true false) (mkSettings true false) 2 [comp_a; comp_b]
    [comp_b; comp_a]); [vm_compute; reflexivity|repeat constructor|repeat constructor|reflexivity|reflexivity].
Defined.

Lemma bootstrap_invariant_witness :
  boot_ok (mkBootstrap [comp_a] 0 UNINITIALIZED false false).
Proof. apply (bootstrap_invariant [CRegister comp_a false] _ []). reflexivity. Defined.

Lemma failed_init_sticks_witness :
  let '(_, b, acts) := do_calls [CInit (mkSettings true false); CFinish true; CStart]
    (mkBootstrap [comp_a] 0 UNINITIALIZED false false) in
  state b = UNINITIALIZED ∧ acts = [].
Proof.
  apply (failed_init_sticks (mkSettings true false) [comp_a] [CFinish true; CStart]).
  vm_compute. reflexivity.
Defined.

Lemma overwrite_blocks_witness :
  let '(back, b', _) :=
    do_call (CRegister comp_a true) (mkBootstrap [comp_a] 0 UNINITIALIZED false false) in
  back = true ∧ (do_call CUsers b').1.1 = false.
Proof.
  apply (overwrite_blocks comp_a (mkBootstrap [comp_a] 0 UNINITIALIZED false false) CUsers);
    reflexivity.
Defined.
