(* ===== verification/DirectoryInfo.v ===== *)
(** Directory entries (src/src/faodel-common/DirectoryInfo.cpp, DirectoryInfo.hh): a resource
    with its description and the list of its members. *)
From S2P Require Import Prelude StringHelpers Identifiers ResourceURL.

Record DirectoryInfo := mkDir {
  di_url : ResourceURL;
  info : str;
  min_members : Z;          (** [uint32_t] *)
  members : list NameAndNode
}.

#[global] Instance DirectoryInfo_eq_dec : EqDecision DirectoryInfo.
Proof. solve_decision. Defined.

Definition di_empty : DirectoryInfo := mkDir url_default [] 0 [].

(** The members listed in the options ["ag0"], ["ag1"], ... of a URL; each option is removed
    once it is read. *)
Fixpoint extract_members (n : nat) (i : Z) (u : ResourceURL)
    : outcome (list NameAndNode * ResourceURL) :=
  match n with
  | 0 => Ok ([], u)
  | S n' =>
      let nm := lit "ag" ++ show_dec i in
      let s_node := GetOption u nm [] in
      if negb (s_node =s? []) then
        node ← NodeID.of_hex s_node;
        '(ms, u') ← extract_members n' (i + 1) (RemoveOption u nm).1;
        Ok (mkNameAndNode nm node :: ms, u')
      else extract_members n' (i + 1) u
  end.

(** The value of ["min_members"]; [min_members] stays 0 when it does not parse.  [erange] is
    [errno] at the call. *)
Definition read_min_members (erange : bool) (s : str) : outcome Z :=
  if negb (s =s? []) then
    '(rc, v) ← StringToUInt32 erange s;
    Ok (if (rc =? 0)%Z then default 0%Z v else 0%Z)
  else Ok 0%Z.

Definition of_resource_url (erange : bool) (new_url : ResourceURL) : outcome DirectoryInfo :=
  let inf := ExpandPunycode (GetOption new_url (lit "info") []) in
  let u := (RemoveOption new_url (lit "info")).1 in
  let s_min_members := GetOption u (lit "min_members") [] in
  let u := (RemoveOption u (lit "min_members")).1 in
  mm ← read_min_members erange s_min_members;
  let s := GetOption u (lit "num") [] in
  if negb (s =s? []) then
    let u := (RemoveOption u (lit "num")).1 in
    '(rc, v) ← StringToInt64 s;
    if (rc =? 0)%Z then
      '(ms, u') ← extract_members (Z.to_nat (default 0%Z v)) 0 u;
      Ok (mkDir u' inf mm ms)
    else Ok (mkDir u inf mm [])
  else Ok (mkDir u inf mm []).

Definition di_Valid (d : DirectoryInfo) : bool := Valid (di_url d).
Definition MeetsMinimumSize (d : DirectoryInfo) : bool :=
  (min_members d <=? Z.of_nat (length (members d)))%Z.
Definition di_IsEmpty (d : DirectoryInfo) : bool :=
  IsEmpty (di_url d) && (info d =s? []) && (min_members d =? 0)%Z
  && bool_decide (length (members d) = 0).

Definition set_members (d : DirectoryInfo) (ms : list NameAndNode) : DirectoryInfo :=
  mkDir (di_url d) (info d) (min_members d) ms.

Fixpoint find_first {A} (p : A → bool) (l : list A) : option A :=
  match l with [] => None | x :: l' => if p x then Some x else find_first p l' end.
Fixpoint erase_first {A} (p : A → bool) (l : list A) : option (list A) :=
  match l with
  | [] => None
  | x :: l' => if p x then Some l' else (x ::.) <$> erase_first p l'
  end.

Definition named (n : str) (m : NameAndNode) : bool := nn_name m =s? n.
Definition at_node (n : nodeid_t) (m : NameAndNode) : bool := bool_decide (nn_node m = n).

Definition GetChildReferenceNode (d : DirectoryInfo) (child_name : str) : bool * nodeid_t :=
  match find_first (named child_name) (members d) with
  | Some m => (true, nn_node m)
  | None => (false, NodeID.NODE_UNSPECIFIED)
  end.

Definition GetChildNameByReferenceNode (d : DirectoryInfo) (n : nodeid_t) : bool * str :=
  match find_first (at_node n) (members d) with
  | Some m => (true, nn_name m)
  | None => (false, [])
  end.

Definition ag_name (i : Z) : str := lit "ag" ++ show_hex i.

(** The guesses for a name, from [i] on; [None] when the fuel runs out. *)
Fixpoint generate_name (fuel : nat) (i : Z) (ms : list NameAndNode) : option str :=
  match fuel with
  | 0 => None
  | S fuel' =>
      let new_name := ag_name i in
      if existsb (named new_name) ms then generate_name fuel' (i + 1) ms else Some new_name
  end.

(** The names taken are one fewer than the guesses. *)
Definition name_fuel (ms : list NameAndNode) : nat := S (length ms).

Definition di_Join (d : DirectoryInfo) (node : nodeid_t) (reference_name : str)
    : option (bool * DirectoryInfo) :=
  if negb (reference_name =s? []) then
    if existsb (named reference_name) (members d) then Some (false, d)
    else Some (true, set_members d (members d ++ [mkNameAndNode reference_name node]))
  else
    new_name ← generate_name (name_fuel (members d)) (Z.of_nat (length (members d))) (members d);
    Some (true, set_members d (members d ++ [mkNameAndNode new_name node])).

Definition LeaveByNode (d : DirectoryInfo) (node : nodeid_t) : bool * DirectoryInfo :=
  if bool_decide (node = NodeID.NODE_UNSPECIFIED) then (false, d)
  else match erase_first (at_node node) (members d) with
       | Some ms => (true, set_members d ms)
       | None => (false, d)
       end.

Definition LeaveByName (d : DirectoryInfo) (nm : str) : bool * DirectoryInfo :=
  if nm =s? [] then (false, d)
  else match erase_first (named nm) (members d) with
       | Some ms => (true, set_members d ms)
       | None => (false, d)
       end.

Definition di_Leave (d : DirectoryInfo) (child_url : ResourceURL) : bool * DirectoryInfo :=
  let '(found, d') := LeaveByName d (name child_url) in
  if found then (true, d') else LeaveByNode d' (reference_node child_url).

Definition ContainsNode (d : DirectoryInfo) (node : nodeid_t) : bool :=
  existsb (at_node node) (members d).

(** * Members have distinct names *)

Definition member_names (d : DirectoryInfo) : list str := nn_name <$> members d.

Lemma existsb_named n ms : existsb (named n) ms = true ↔ n ∈ nn_name <$> ms.
Proof.
  rewrite existsb_exists, list_elem_of_fmap. unfold named. setoid_rewrite bool_decide_eq_true.
  setoid_rewrite <-list_elem_of_In. naive_solver.
Qed.

Lemma ag_name_inj i j : (0 ≤ i)%Z → (0 ≤ j)%Z → ag_name i = ag_name j → i = j.
Proof.
  intros Hi Hj Heq. apply (inj (lit "ag" ++.)) in Heq. by apply show_base_inj in Heq; [|lia..].
Qed.

(** The guesses of [generate_name] cannot all be taken. *)
Lemma generate_name_none fuel i ms :
  (0 ≤ i)%Z → generate_name fuel i ms = None →
  (ag_name <$> seqZ i (Z.of_nat fuel)) ⊆ (nn_name <$> ms).
Proof.
  revert i. induction fuel as [|fuel IH]; intros i Hi Hg; [by intros ??%elem_of_nil|].
  cbn [generate_name] in Hg. destruct (existsb _ _) eqn:E; [|done].
  apply IH in Hg; [|lia]. apply existsb_named in E.
  rewrite seqZ_cons by lia. replace (Z.pred (Z.of_nat (S fuel))) with (Z.of_nat fuel) by lia.
  rewrite <-Z.add_1_r. intros x Hx. cbn in Hx. apply elem_of_cons in Hx as [->|Hx]; [done|by apply Hg].
Qed.

Lemma generate_name_fresh fuel i ms n :
  generate_name fuel i ms = Some n → n ∉ nn_name <$> ms ∧ n ≠ [].
Proof.
  revert i. induction fuel as [|fuel IH]; intros i; cbn [generate_name]; [done|].
  destruct (existsb _ _) eqn:E; [apply IH|]. intros [= <-]. split; [|done].
  apply not_true_iff_false in E. by rewrite existsb_named in E.
Qed.

Lemma generate_name_total ms i :
  (0 ≤ i)%Z → ∃ n, generate_name (name_fuel ms) i ms = Some n.
Proof.
  intros Hi. destruct (generate_name (name_fuel ms) i ms) as [n|] eqn:E; [eauto|].
  apply generate_name_none in E; [|done]. exfalso.
  assert (Hnd : NoDup (ag_name <$> seqZ i (Z.of_nat (name_fuel ms)))).
  { apply NoDup_fmap_2_strong; [|apply NoDup_seqZ]. intros x y Hx%elem_of_seqZ Hy%elem_of_seqZ.
    apply ag_name_inj; lia. }
  pose proof (submseteq_length _ _ (NoDup_submseteq _ _ Hnd E)) as Hlen.
  rewrite !length_fmap, length_seqZ in Hlen. unfold name_fuel in Hlen. lia.
Qed.

(** Joining always comes to an end: it adds one member at the back under a name that was free
    (the given one, or a generated one when none is given), and refuses exactly a given name
    that is taken; distinct names stay distinct. *)
Lemma di_Join_spec d node reference_name :
  ∃ ok d', di_Join d node reference_name = Some (ok, d') ∧
    (ok = false ↔ reference_name ≠ [] ∧ reference_name ∈ member_names d) ∧
    (ok = false → d' = d) ∧
    (ok = true → ∃ n, n ∉ member_names d ∧ n ≠ [] ∧ (reference_name ≠ [] → n = reference_name) ∧
       d' = set_members d (members d ++ [mkNameAndNode n node])) ∧
    (NoDup (member_names d) → NoDup (member_names d')).
Proof.
  assert (Hnd : ∀ n, n ∉ member_names d → NoDup (member_names d) →
    NoDup (member_names (set_members d (members d ++ [mkNameAndNode n node])))).
  { intros n Hn Hd. unfold member_names in *. cbn. rewrite fmap_app. apply NoDup_app.
    split_and!; [done| |apply NoDup_singleton]. intros x Hx. cbn. rewrite list_elem_of_singleton.
    by intros ->. }
  unfold di_Join. destruct (decide (reference_name = [])) as [->|Hne].
  - destruct (generate_name_total (members d) (Z.of_nat (length (members d)))) as [n Hn]; [lia|].
    cbn [negb bool_decide]. rewrite bool_decide_true by done. cbn [negb]. rewrite Hn.
    apply generate_name_fresh in Hn as [Hfr Hne]. cbn. eexists _, _. split; [done|].
    split_and!; [by split; [|intros []]|done| |auto]. intros _. by exists n.
  - rewrite bool_decide_false by done. cbn [negb].
    destruct (existsb (named reference_name) (members d)) eqn:E.
    + apply existsb_named in E. eexists _, _. split; [done|]. by split_and!.
    + apply not_true_iff_false in E. rewrite existsb_named in E.
      eexists _, _. split; [done|]. split_and!; [by split; [|intros []]|done| |auto].
      intros _. by exists reference_name.
Qed.

Lemma erase_first_spec {A} (p : A → bool) l :
  match erase_first p l with
  | Some l' => ∃ a x b, l = a ++ x :: b ∧ l' = a ++ b ∧ p x = true ∧ Forall (λ y, p y = false) a
  | None => Forall (λ y, p y = false) l
  end.
Proof.
  induction l as [|x l IH]; simpl; [constructor|]. destruct (p x) eqn:Hx.
  - exists [], x, l. by split_and!; try constructor.
  - destruct (erase_first p l) as [l'|]; simpl.
    + destruct IH as (a & y & b & -> & -> & Hy & Ha). exists (x :: a), y, b.
      split_and!; try done. by constructor.
    + by constructor.
Qed.

(** Joining under a name and leaving by that name are inverse, when the name was free. *)
Theorem Leave_after_Join d node n d' :
  n ≠ [] → n ∉ member_names d → di_Join d node n = Some (true, d') →
  GetChildReferenceNode d' n = (true, node) ∧ LeaveByName d' n = (true, d).
Proof.
  intros Hne Hn Hj. unfold di_Join in Hj. rewrite bool_decide_false in Hj by done. cbn [negb] in Hj.
  destruct (existsb _ _); simplify_eq.
  assert (Hall : ∀ m, m ∈ members d → named n m = false).
  { intros m Hm. apply bool_decide_false. intros <-. apply Hn. by apply list_elem_of_fmap_2. }
  assert (Hnn : named n (mkNameAndNode n node) = true) by (by apply bool_decide_true).
  destruct d as [u i mm ms]. unfold GetChildReferenceNode, LeaveByName, set_members in *. cbn in *.
  rewrite bool_decide_false by done. clear Hn. split.
  - induction ms as [|m ms IH]; cbn; [by rewrite Hnn|]. rewrite (Hall m) by left.
    apply IH. intros m' Hm'. apply Hall. by right.
  - assert (erase_first (named n) (ms ++ [mkNameAndNode n node]) = Some ms) as ->; [|done].
    induction ms as [|m ms IH]; cbn; [by rewrite Hnn|]. rewrite (Hall m) by left.
    rewrite IH; [done|]. intros m' Hm'. apply Hall. by right.
Qed.

Lemma Leave_after_Join_witness :
  let d' := mkDir url_default [] 0 [mkNameAndNode (lit "x") NodeID.NODE_LOCALHOST] in
  GetChildReferenceNode d' (lit "x") = (true, NodeID.NODE_LOCALHOST) ∧
  LeaveByName d' (lit "x") = (true, di_empty).
Proof.
  apply (Leave_after_Join di_empty NodeID.NODE_LOCALHOST (lit "x"));
    [discriminate|apply not_elem_of_nil|reflexivity].
Defined.
