(* ===== verification/DirectoryCache.v ===== *)
(** The directory caches of DirMan (src/src/dirman/common/DirectoryCache.cpp,
    DirectoryOwnerCache.cpp): the entries a node knows, by bucket and path, and the nodes that
    own them.

    An operation runs under the cache's mutex, so it is one step; an assertion that fails
    ([_lookup] on an invalid URL, a name that does not parse) is a thrown outcome. *)
From S2P Require Import Prelude StringHelpers Identifiers ResourceURL DirectoryInfo.

Abbreviation cache := (gmap str DirectoryInfo).

(** * Lookup *)

(** [_lookup]: the entry of a valid URL. *)
Definition _lookup (c : cache) (u : ResourceURL) : outcome (option DirectoryInfo) :=
  _ ← F_ASSERT (Valid u);
  Ok (c !! GetBucketPathName u).

(** [_lookupRootDir] writes the root's location into the caller's structure and appends the
    root-level entries of the bucket to the members that are there. *)
Definition root_members (c : cache) (b : bucket_t) : list NameAndNode :=
  (λ kd, mkNameAndNode (name (di_url kd.2)) (reference_node (di_url kd.2))) <$>
  filter (λ kd, IsRootLevel (di_url kd.2) = true ∧ bucket (di_url kd.2) = b) (entries c).

Definition _lookupRootDir (c : cache) (b : bucket_t) (resource_info : option DirectoryInfo)
    : outcome (bool * DirectoryInfo) :=
  match resource_info with
  | None => Throw AssertFailed
  | Some d =>
      let u := di_url d in
      let hits := root_members c b in
      Ok ( negb (bool_decide (hits = [])),
           mkDir (mkURL (resource_type u) (reference_node u) b (lit "/") [] (options u))
             (info d) (min_members d) (members d ++ hits) )
  end.

(** [Lookup]: found or not, what is in the caller's structure, and the reference node it
    wrote. *)
Definition Lookup (c : cache) (search_url : ResourceURL) (resource_info : option DirectoryInfo)
    : outcome (bool * option DirectoryInfo * option nodeid_t) :=
  if IsRoot search_url then
    '(found, d) ← _lookupRootDir c (bucket search_url) resource_info;
    Ok (found, Some (if (found : bool) then d else di_empty), None)
  else
    r ← _lookup c search_url;
    Ok ( bool_decide (is_Some r),
         (λ _, default di_empty r) <$> resource_info,
         Some (from_option (λ d, reference_node (di_url d)) NodeID.NODE_UNSPECIFIED r) ).

(** The vector version. *)
Fixpoint Lookup_all (c : cache) (urls : list ResourceURL) : outcome (bool * list DirectoryInfo) :=
  match urls with
  | [] => Ok (true, [])
  | u :: urls' =>
      '(found, d) ←
        (if IsRoot u then
           '(f, d) ← _lookupRootDir c (bucket u) (Some di_empty);
           Ok (f, if (f : bool) then d else di_empty)
         else r ← _lookup c u; Ok (bool_decide (is_Some r), default di_empty r));
      '(all_found, ds) ← Lookup_all c urls';
      Ok (found && all_found, d :: ds)
  end.

(** * Writing entries *)

Definition _write (c : cache) (d : DirectoryInfo) (overwrite_existing : bool)
    : outcome (bool * cache) :=
  r ← _lookup c (di_url d);
  match r with
  | Some _ =>
      if negb overwrite_existing then Ok (false, c)
      else Ok (true, <[GetBucketPathName (di_url d) := d]> c)
  | None => Ok (true, <[GetBucketPathName (di_url d) := d]> c)
  end.

Definition write (c : cache) (d : DirectoryInfo) (overwrite_existing : bool)
    : outcome (bool * cache) :=
  if negb (Valid (di_url d)) then Ok (false, c) else _write c d overwrite_existing.

(** The vector version: how many were written. *)
Fixpoint write_all_go (c : cache) (ds : list DirectoryInfo) (overwrite_existing : bool)
    (count : nat) : outcome (nat * cache) :=
  match ds with
  | [] => Ok (count, c)
  | d :: ds' =>
      if Valid (di_url d) then
        '(ok, c') ← _write c d overwrite_existing;
        write_all_go c' ds' overwrite_existing (if (ok : bool) then S count else count)
      else write_all_go c ds' overwrite_existing count
  end.

Definition write_all (c : cache) (ds : list DirectoryInfo) (overwrite_existing : bool)
    : outcome (bool * nat * cache) :=
  '(count, c') ← write_all_go c ds overwrite_existing 0;
  Ok (bool_decide (length ds = count), count, c').

Definition Create (c : cache) (d : DirectoryInfo) : outcome (bool * cache) := write c d false.
Definition Update (c : cache) (d : DirectoryInfo) : outcome (bool * cache) := write c d true.

(** The loop of [CreateAndLinkParents]; [None] when the fuel runs out.  A new parent is built
    from its URL, and the child joins it whether it is new or not. *)
Fixpoint link_parents (fuel : nat) (c : cache) (child_url : ResourceURL)
    : option (outcome cache) :=
  match fuel with
  | 0 => None
  | S fuel' =>
      if IsRootLevel child_url then Some (Ok c)
      else
        match GetParent child_url with
        | Throw e => Some (Throw e)
        | Ok parent_url =>
            match
              (r ← _lookup c parent_url;
               match r with
               | Some d => Ok (true, d)
               | None => d ← of_resource_url false parent_url; Ok (false, d)
               end)
            with
            | Throw e => Some (Throw e)
            | Ok (found_existing_parent, pdir) =>
                match di_Join pdir (reference_node child_url) (name child_url) with
                | None => None
                | Some (_, pdir') =>
                    let c' := <[GetBucketPathName parent_url := pdir']> c in
                    if (found_existing_parent : bool) then Some (Ok c')
                    else link_parents fuel' c' parent_url
                end
            end
        end
  end.

Definition link_fuel (u : ResourceURL) : nat := 2 + length (SplitPath (path u)).

Definition CreateAndLinkParents (c : cache) (d : DirectoryInfo)
    : option (outcome (bool * cache)) :=
  if negb (Valid (di_url d)) then Some (Ok (false, c))
  else
    match _write c d false with
    | Ok (true, c') =>
        match link_parents (link_fuel (di_url d)) c' (di_url d) with
        | Some (Ok c'') => Some (Ok (true, c''))
        | Some (Throw e) => Some (Throw e)
        | None => None
        end
    | Ok (false, c') => Some (Ok (false, c'))
    | Throw e => Some (Throw e)
    end.

(** * Removing a subtree *)

(** The URLs of the members of an entry, parsed from the key of the entry and their name. *)
Fixpoint member_urls (key : str) (ms : list NameAndNode) : outcome (list ResourceURL) :=
  match ms with
  | [] => Ok []
  | m :: ms' =>
      if nn_name m =s? [] then member_urls key ms'
      else
        u ← of_url (key ++ lit "/" ++ nn_name m);
        us ← member_urls key ms';
        Ok (u :: us)
  end.

(** [_removeSingleDir]: the URLs to remove next are pushed on the back of the list. *)
Definition _removeSingleDir (c : cache) (u : ResourceURL) (stack : list ResourceURL)
    : outcome (cache * list ResourceURL) :=
  let key := GetBucketPathName u in
  match c !! key with
  | None => Ok (c, stack)
  | Some r =>
      us ← member_urls key (members r);
      Ok (delete key c, stack ++ us)
  end.

(** The removal loop takes from the back. *)
Fixpoint remove_loop (fuel : nat) (c : cache) (stack : list ResourceURL)
    : option (outcome cache) :=
  match last stack with
  | None => Some (Ok c)
  | Some u =>
      match fuel with
      | 0 => None
      | S fuel' =>
          match _removeSingleDir c u (take (length stack - 1) stack) with
          | Ok (c', stack') => remove_loop fuel' c' stack'
          | Throw e => Some (Throw e)
          end
      end
  end.

Definition total_members (c : cache) : nat :=
  sum_list ((λ kd, length (members kd.2)) <$> map_to_list c).

Definition remove_fuel (c : cache) : nat := S (total_members c).

(** [Remove]: [found] is overwritten by the lookup of the parent. *)
Definition Remove (c : cache) (dir_url : ResourceURL) : option (outcome (bool * cache)) :=
  match _lookup c dir_url with
  | Throw e => Some (Throw e)
  | Ok None => Some (Ok (false, c))
  | Ok (Some _) =>
      let unlinked : outcome (bool * cache) :=
        if negb (path dir_url =s? lit "/") then
          parent_url ← GetParent dir_url;
          rp ← _lookup c parent_url;
          match rp with
          | Some d => Ok (true, <[GetBucketPathName parent_url := (LeaveByName d (name dir_url)).2]> c)
          | None => Ok (false, c)
          end
        else Ok (true, c) in
      match unlinked with
      | Throw e => Some (Throw e)
      | Ok (found, c') =>
          match remove_loop (remove_fuel c') c' [dir_url] with
          | Some (Ok c'') => Some (Ok (found, c''))
          | Some (Throw e) => Some (Throw e)
          | None => None
          end
      end
  end.

(** * Members coming and going *)

Definition auto_generate_option_label : str := lit "ag".

(** [Join]: the updated entry (or an empty one) for the caller. *)
Definition cache_Join (c : cache) (child_url : ResourceURL)
    : outcome (option (bool * DirectoryInfo * cache)) :=
  let needs_autogen := GetOption child_url auto_generate_option_label [] =s? lit "1" in
  parent ← (if needs_autogen then Ok child_url else GetParent child_url);
  if negb needs_autogen && IsRootLevel child_url then Ok (Some (false, di_empty, c))
  else
    r ← _lookup c parent;
    match r with
    | None => Ok (Some (false, di_empty, c))
    | Some d =>
        let nm := if needs_autogen then [] else name child_url in
        match di_Join d (reference_node child_url) nm with
        | None => Ok None
        | Some (found, d') =>
            Ok (Some (found, (if (found : bool) then d' else di_empty),
                      <[GetBucketPathName parent := d']> c))
        end
    end.

Definition cache_Leave (c : cache) (child_url : ResourceURL)
    : outcome (bool * DirectoryInfo * cache) :=
  parent ← GetParent child_url;
  if path child_url =s? lit "/" then Ok (false, di_empty, c)
  else
    r ← _lookup c parent;
    match r with
    | None => Ok (false, di_empty, c)
    | Some d =>
        let '(removed, d') := di_Leave d child_url in
        Ok (removed, d', <[GetBucketPathName parent := d']> c)
    end.

Definition GetAllURLs (c : cache) : list ResourceURL := (λ kd, di_url kd.2) <$> entries c.
Definition GetAllNames (c : cache) : list str := (entries c).*1.

(** * Owners *)

Module OwnerCache.
Abbreviation owners := (gmap str nodeid_t).

Definition _Register (o : owners) (u : ResourceURL) : owners :=
  <[GetBucketPathName u := reference_node u]> o.

Definition Register (o : owners) (u : ResourceURL) : bool * owners :=
  if negb (Valid u) then (false, o) else (true, _Register o u).

(** The vector version takes all or nothing, and wants every owner to be specified. *)
Definition Register_all (o : owners) (us : list ResourceURL) : bool * owners :=
  if existsb (λ u, negb (Valid u) || bool_decide (reference_node u = NodeID.NODE_UNSPECIFIED)) us
  then (false, o) else (true, foldl _Register o us).

Definition _Lookup (o : owners) (u : ResourceURL) : outcome (bool * nodeid_t) :=
  _ ← F_ASSERT (Valid u);
  Ok match o !! GetBucketPathName u with
     | Some n => (true, n)
     | None => (false, NodeID.NODE_UNSPECIFIED)
     end.

Fixpoint Lookup_all (o : owners) (us : list ResourceURL) : outcome (bool * list nodeid_t) :=
  match us with
  | [] => Ok (true, [])
  | u :: us' =>
      '(found, n) ← _Lookup o u;
      '(all_found, ns) ← Lookup_all o us';
      Ok (found && all_found, n :: ns)
  end.
End OwnerCache.

(** * Creating and finding *)

Lemma _lookup_valid c u : Valid u = true → _lookup c u = Ok (c !! GetBucketPathName u).
Proof. intros Hv. unfold _lookup. by rewrite Hv. Qed.

(** Creating an entry that is not known yet makes it the one [Lookup] returns, with its
    reference node, and changes no other; creating a known one is refused and changes
    nothing; updating always takes. *)
Theorem Create_spec c d ri :
  Valid (di_url d) = true → IsRoot (di_url d) = false →
  let key := GetBucketPathName (di_url d) in
  let found := Ok (true, Some d, Some (reference_node (di_url d))) in
  (c !! key = None →
     Create c d = Ok (true, <[key := d]> c) ∧ Lookup (<[key := d]> c) (di_url d) (Some ri) = found) ∧
  (is_Some (c !! key) → Create c d = Ok (false, c)) ∧
  Update c d = Ok (true, <[key := d]> c).
Proof.
  intros Hv Hr. unfold Create, Update, write, _write, Lookup. rewrite Hv, Hr. simpl.
  rewrite !_lookup_valid by done. cbn [mbind outcome_bind].
  destruct (c !! GetBucketPathName (di_url d)) as [d0|]; split_and!; try done;
    try (by intros []); intros _; cbn; rewrite ?lookup_insert_eq; done.
Qed.

(** * Parents *)

Lemma SplitPath_components s : Forall component (SplitPath s).
Proof.
  apply Forall_forall. intros x Hx. unfold SplitPath in Hx. unfold component, no_sep.
  apply elem_of_Split in Hx. naive_solver.
Qed.

Definition depth (u : ResourceURL) : nat := length (SplitPath (path u)).

Lemma valid_below_root u : Valid u = true → IsRootLevel u = false → path u ≠ [] ∧ name u ≠ [].
Proof.
  unfold Valid, IsRoot, IsRootLevel. intros Hv Hr. rewrite Hr in Hv. simpl in Hv.
  rewrite orb_false_r, andb_true_iff, !negb_true_iff, !bool_decide_eq_false in Hv. done.
Qed.

Lemma valid_of_names u : path u ≠ [] → name u ≠ [] → Valid u = true.
Proof.
  intros Hp Hn. unfold Valid. rewrite (bool_decide_false (path u = [])), (bool_decide_false (name u = []))
    by done. done.
Qed.

(** Below the root level every valid URL has a valid parent, without options, that is at the
    root level or less deep. *)
Lemma GetParent_spec u :
  Valid u = true → IsRootLevel u = false →
  ∃ p, GetParent u = Ok p ∧ Valid p = true ∧ options p = [] ∧
    (IsRootLevel p = true ∨ depth p < depth u).
Proof.
  intros Hv Hr. destruct (valid_below_root u Hv Hr) as [Hp Hn].
  unfold GetParent, GetLineageReference, depth. cbn [Z.leb Z.compare].
  pose proof (SplitPath_components (path u)) as Hc.
  destruct (SplitPath (path u)) as [|x l _] eqn:Hs using rev_ind.
  { eexists. split; [done|]. split_and!; [by apply valid_of_names|done|by left]. }
  apply Forall_app in Hc as [Hl [Hx _]%Forall_singleton].
  rewrite length_app. cbn [length]. destruct l as [|y l].
  { eexists. split; [done|]. split_and!; [by apply valid_of_names|done|by left]. }
  rewrite (proj2 (Z.leb_gt _ _)) by (cbn [length]; lia).
  pose proof (JoinPath_init (y :: l) x) as Hj. rewrite length_app in Hj. cbn [length] in *.
  rewrite Hj. cbn [mbind outcome_bind].
  replace (Z.to_nat (Z.of_nat (S (length l) + 1) - 1)) with (length (y :: l)) by (cbn; lia).
  rewrite lookup_app_r, Nat.sub_diag by done. cbn [lookup list_lookup].
  assert (Hpo : path_of (y :: l) ≠ []) by done.
  eexists. split; [done|]. unfold url_make. rewrite bool_decide_false by done.
  split_and!; [by apply valid_of_names|done|].
  right. cbn [path]. rewrite SplitPath_path_of by done. cbn [length]. lia.
Qed.

(** A URL without options makes an entry without description or members. *)
Lemma of_resource_url_plain e u : options u = [] → of_resource_url e u = Ok (mkDir u [] 0 []).
Proof.
  intros Ho. unfold of_resource_url. destruct u as [ty n b p nm o]. cbn in Ho. subst o. done.
Qed.

Lemma di_Join_total d node n :
  n ≠ [] → ∃ ok d', di_Join d node n = Some (ok, d') ∧ di_url d' = di_url d ∧
    member_names d ⊆ member_names d' ∧ n ∈ member_names d'.
Proof.
  intros Hn. destruct (di_Join_spec d node n) as (ok & d' & Hj & Hf & Hsame & Hnew & _).
  exists ok, d'. split; [done|]. destruct ok.
  - destruct (Hnew eq_refl) as (n' & _ & _ & Hn' & ->). rewrite Hn' by done.
    unfold member_names. cbn. rewrite fmap_app. set_solver.
  - rewrite (Hsame eq_refl). by destruct (proj1 Hf eq_refl).
Qed.

(** The entry is reachable from the root: its parent is known and lists it. *)
Definition link_ok (c : cache) (u : ResourceURL) : Prop :=
  IsRootLevel u = false →
  ∃ p pd, GetParent u = Ok p ∧ c !! GetBucketPathName p = Some pd ∧ name u ∈ member_names pd.

Definition entry_ok (key : str) (d : DirectoryInfo) : Prop :=
  key = GetBucketPathName (di_url d) ∧ Valid (di_url d) = true.

(** Every entry is filed under its own URL and linked, up to the URLs in [pending]. *)
Definition linked_but (pending : list ResourceURL) (c : cache) : Prop :=
  ∀ key d, c !! key = Some d →
    entry_ok key d ∧ (link_ok c (di_url d) ∨ di_url d ∈ pending).

Definition linked (c : cache) : Prop := linked_but [] c.

(** Entries only gain members. *)
Definition cache_le (c c' : cache) : Prop :=
  ∀ key d, c !! key = Some d → ∃ d', c' !! key = Some d' ∧ di_url d' = di_url d ∧
    member_names d ⊆ member_names d'.

#[global] Instance cache_le_preorder : PreOrder cache_le.
Proof.
  split.
  - intros c key d Hd. by exists d.
  - intros c1 c2 c3 H12 H23 key d Hd. destruct (H12 _ _ Hd) as (d2 & Hd2 & Hu2 & Hm2).
    destruct (H23 _ _ Hd2) as (d3 & Hd3 & Hu3 & Hm3). exists d3. split; [done|].
    split; [congruence|]. by etrans.
Qed.

Lemma link_ok_mono c c' u : cache_le c c' → link_ok c u → link_ok c' u.
Proof.
  intros Hle Hl Hr. destruct (Hl Hr) as (p & pd & Hp & Hpd & Hn).
  destruct (Hle _ _ Hpd) as (pd' & ? & _ & Hm). exists p, pd'. set_solver.
Qed.

Lemma cache_le_insert c key d :
  (∀ d0, c !! key = Some d0 → di_url d = di_url d0 ∧ member_names d0 ⊆ member_names d) →
  cache_le c (<[key := d]> c).
Proof.
  intros Hk k d0 Hd0. destruct (decide (k = key)) as [->|Hne].
  - exists d. rewrite lookup_insert_eq. split; [done|]. by apply Hk.
  - exists d0. by rewrite lookup_insert_ne.
Qed.

(** The loop ends within its fuel without throwing, entries only gain members, and if only
    [u] was not linked then everything is. *)
Lemma link_parents_spec fuel c u :
  Valid u = true → (IsRootLevel u = true ∧ 0 < fuel ∨ S (depth u) < fuel) →
  ∃ c', link_parents fuel c u = Some (Ok c') ∧ cache_le c c' ∧ (linked_but [u] c → linked c').
Proof.
  revert c u. induction fuel as [|fuel IH]; intros c u Hv Hfuel; [lia|]. cbn [link_parents].
  destruct (IsRootLevel u) eqn:Hr.
  { exists c. split; [done|]. split; [done|]. intros Hl key d Hd.
    destruct (Hl _ _ Hd) as [He [?|Hu]]; [auto|].
    apply list_elem_of_singleton in Hu. split; [done|]. left. rewrite Hu. intros ?. congruence. }
  destruct (GetParent_spec u Hv Hr) as (p & Hp & Hvp & Hop & Hdp). rewrite Hp.
  rewrite _lookup_valid by done. cbn [mbind outcome_bind].
  destruct (valid_below_root u Hv Hr) as [_ Hn].
  set (known := c !! GetBucketPathName p).
  destruct (di_Join_total (default (mkDir p [] 0 []) known) (reference_node u) (name u) Hn)
    as (ok & pd' & Hj & Hu & Hm & Hin).
  assert (Hle : cache_le c (<[GetBucketPathName p := pd']> c)).
  { apply cache_le_insert. intros d0 Hd0. subst known. rewrite Hd0 in Hu, Hm. done. }
  assert (Hchild : link_ok (<[GetBucketPathName p := pd']> c) u).
  { intros _. exists p, pd'. by rewrite lookup_insert_eq. }
  assert (Hrest : ∀ pending, linked_but [u] c →
    (entry_ok (GetBucketPathName p) pd' ∧
      (link_ok (<[GetBucketPathName p := pd']> c) (di_url pd') ∨ di_url pd' ∈ pending)) →
    linked_but pending (<[GetBucketPathName p := pd']> c)).
  { intros pending Hl Hpd key d [[<- <-]|[Hne Hd]]%lookup_insert_Some; [done|].
    destruct (Hl _ _ Hd) as [He [Hlk|Hpend]]; split; auto; left.
    - by eapply link_ok_mono.
    - apply list_elem_of_singleton in Hpend. by rewrite Hpend. }
  destruct known as [d0|] eqn:Hk; subst known; cbn [default from_option id] in *.
  - rewrite Hj. eexists. split; [done|]. split; [done|]. intros Hl. apply Hrest; [done|].
    destruct (Hl _ _ Hk) as [[Hkey Hval] Hlk]. rewrite Hu. split; [by split; rewrite Hu|]. left.
    destruct Hlk as [Hlk|Hpend]; [by eapply link_ok_mono|].
    apply list_elem_of_singleton in Hpend. by rewrite Hpend.
  - rewrite of_resource_url_plain by done. cbn [mbind outcome_bind]. rewrite Hj.
    destruct (IH (<[GetBucketPathName p := pd']> c) p) as (c' & Hc' & Hle' & Hl'); [done| |].
    { destruct Hdp; destruct Hfuel as [[??]|?];
        [congruence|left; split; [done|lia]|congruence|right; lia]. }
    exists c'. split; [done|]. split; [by etrans|]. intros Hl. apply Hl', Hrest; [done|].
    cbn in Hu. rewrite Hu. split; [by split; rewrite Hu|]. right. left.
Qed.

(** Creating with parents, whatever the cache: the call ends without throwing, and the entry
    is known afterwards. *)
Lemma CreateAndLinkParents_total c d :
  Valid (di_url d) = true →
  let key := GetBucketPathName (di_url d) in
  ∃ ok c', CreateAndLinkParents c d = Some (Ok (ok, c')) ∧ cache_le c c' ∧
    (ok = true ↔ c !! key = None) ∧ (ok = false → c' = c) ∧
    (ok = true → cache_le (<[key := d]> c) c' ∧
       (linked_but [di_url d] (<[key := d]> c) → linked c')).
Proof.
  intros Hv key. unfold CreateAndLinkParents. rewrite Hv. cbn [negb]. unfold _write.
  rewrite _lookup_valid by done. cbn [mbind outcome_bind]. fold key.
  destruct (c !! key) as [d0|] eqn:Hk; cbn [negb].
  { exists false, c. by split_and!. }
  assert (Hle : cache_le c (<[key := d]> c)) by (apply cache_le_insert; intros; congruence).
  destruct (link_parents_spec (link_fuel (di_url d)) (<[key := d]> c) (di_url d))
    as (c' & -> & Hle' & Hl'); [done|right; unfold link_fuel, depth; lia|].
  exists true, c'. split_and!; try done. by etrans.
Qed.

(** C16: Creating an entry with its parents: the call always comes to an end without throwing; on
    success the entry is known, every entry that was known still is, with at least the members
    it had, and again every entry can be reached from the root: each one below the root level
    is listed by a known parent. *)
Theorem CreateAndLinkParents_spec c d :
  linked c → Valid (di_url d) = true →
  ∃ ok c', CreateAndLinkParents c d = Some (Ok (ok, c')) ∧ linked c' ∧ cache_le c c' ∧
    (ok = true ↔ c !! GetBucketPathName (di_url d) = None) ∧
    ∃ d', c' !! GetBucketPathName (di_url d) = Some d' ∧
      (ok = true → di_url d' = di_url d ∧ member_names d ⊆ member_names d').
Proof.
  intros Hl Hv. set (key := GetBucketPathName (di_url d)).
  destruct (CreateAndLinkParents_total c d Hv) as (ok & c' & Hc & Hle & Hok & Hsame & Hnew).
  fold key in Hok, Hnew. exists ok, c'. split; [done|]. destruct ok.
  - destruct (Hnew eq_refl) as [Hle' Hlk]. split_and!; try done.
    + apply Hlk. intros k d1 [[<- <-]|[_ Hd1]]%lookup_insert_Some.
      * split; [done|]. right. by left.
      * destruct (Hl _ _ Hd1) as [He [Hlk1|?%elem_of_nil]]; [|done]. split; [done|]. left.
        eapply link_ok_mono; [|done]. apply cache_le_insert. intros d0 Hd0.
        pose proof (proj1 Hok eq_refl). congruence.
    + destruct (Hle' key d) as (d' & ? & ? & ?); [apply lookup_insert_eq|]. by exists d'.
  - rewrite (Hsame eq_refl). split_and!; try done. destruct (c !! key) as [d0|] eqn:E.
    + by exists d0.
    + by specialize (proj2 Hok eq_refl).
Qed.

(** * Removing *)

Lemma member_urls_length key ms us : member_urls key ms = Ok us → length us ≤ length ms.
Proof.
  revert us. induction ms as [|m ms IH]; intros us Hu; cbn [member_urls] in Hu; [by simplify_eq|].
  destruct (nn_name m =s? []); [specialize (IH _ Hu); cbn [length]; lia|]. unbind.
  match goal with H : member_urls key ms = Ok ?l |- _ => specialize (IH _ H) end. subst. cbn [length]. lia.
Qed.

Lemma total_members_delete c key d :
  c !! key = Some d → total_members c = length (members d) + total_members (delete key c).
Proof.
  intros Hd. unfold total_members.
  assert (Hp : map_to_list c ≡ₚ (key, d) :: map_to_list (delete key c)).
  { rewrite <-map_to_list_insert by apply lookup_delete_eq. by rewrite insert_delete_id. }
  by rewrite Hp.
Qed.

Lemma _removeSingleDir_measure c u stack c' stack' :
  _removeSingleDir c u stack = Ok (c', stack') →
  length stack' + total_members c' ≤ length stack + total_members c.
Proof.
  unfold _removeSingleDir. destruct (c !! GetBucketPathName u) as [d|] eqn:Hd; intros Hr.
  - unbind. subst. rewrite (total_members_delete c _ d Hd), length_app.
    match goal with H : member_urls _ _ = Ok _ |- _ => apply member_urls_length in H end. lia.
  - by simplify_eq.
Qed.

Lemma last_take {A} (l : list A) x : last l = Some x → l = take (length l - 1) l ++ [x].
Proof.
  intros [l' ->]%last_Some. rewrite length_app. cbn.
  replace (length l' + 1 - 1) with (length l') by lia. by rewrite take_app_length.
Qed.

(** The keys of the members that an entry lists, and of what is below a key. *)
Definition child (c : cache) (key k : str) : Prop :=
  ∃ d m, c !! key = Some d ∧ m ∈ members d ∧ nn_name m ≠ [] ∧ k = key ++ lit "/" ++ nn_name m.

Definition below (c : cache) : str → str → Prop := rtc (child c).

(** The names of members are such that their URLs can be read, and are filed under the names. *)
Definition names_parse (c : cache) : Prop :=
  ∀ key d m, c !! key = Some d → m ∈ members d → nn_name m ≠ [] →
    ∃ v, of_url (key ++ lit "/" ++ nn_name m) = Ok v ∧ GetBucketPathName v = key ++ lit "/" ++ nn_name m.

Lemma below_prefix c key k : below c key k → key `prefix_of` k.
Proof.
  induction 1 as [|k1 k2 k3 (d & m & _ & _ & _ & ->) _ IH]; [done|]. etrans; [|exact IH]. by apply prefix_app_r.
Qed.

Lemma child_mono c c' key k : c ⊆ c' → child c key k → child c' key k.
Proof. intros Hsub (d & m & Hd & ?). exists d, m. split; [by eapply lookup_weaken|done]. Qed.

Lemma below_mono c c' key k : c ⊆ c' → below c key k → below c' key k.
Proof. intros Hsub. apply rtc_subrel. intros k1 k2. by apply child_mono. Qed.

(** What is below a key is so without the entry [K], or is [K], or below a member of it. *)
Lemma below_delete c K key k :
  below c key k →
  below (delete K c) key k ∨ k = K ∨ ∃ k', child c K k' ∧ below (delete K c) k' k.
Proof.
  induction 1 as [k|k1 k2 k3 Hch _ IH]; [left; constructor|].
  destruct IH as [Hb|[->|Hk]]; [|by right; left|by right; right].
  destruct (decide (k1 = K)) as [->|Hne]; [right; right; by exists k2|].
  left. eapply rtc_l; [|exact Hb]. destruct Hch as (d & m & Hd & Hm). exists d, m.
  by rewrite lookup_delete_ne.
Qed.

Lemma member_urls_keys key ms :
  (∀ m, m ∈ ms → nn_name m ≠ [] →
     ∃ v, of_url (key ++ lit "/" ++ nn_name m) = Ok v ∧ GetBucketPathName v = key ++ lit "/" ++ nn_name m) →
  ∃ us, member_urls key ms = Ok us ∧
    ∀ k, k ∈ GetBucketPathName <$> us ↔ ∃ m, m ∈ ms ∧ nn_name m ≠ [] ∧ k = key ++ lit "/" ++ nn_name m.
Proof.
  induction ms as [|m ms IH]; intros Hp; cbn [member_urls].
  { exists []. split; [done|]. intros k. split; [by intros ?%elem_of_nil|]. by intros (m & ?%elem_of_nil & _). }
  destruct IH as (us & -> & Hus); [intros m' Hm'; apply Hp; by right|].
  case_bool_decide as Hn.
  - exists us. split; [done|]. intros k. rewrite Hus. split.
    + intros (m' & ? & ?). exists m'. split; [by right|done].
    + intros (m' & [->|?]%elem_of_cons & ? & ?); [done|by exists m'].
  - destruct (Hp m) as (v & -> & Hv); [by left|done|]. cbn [mbind outcome_bind]. eexists. split; [done|].
    intros k. rewrite fmap_cons, elem_of_cons, Hus, Hv. split.
    + intros [->|(m' & ? & ?)]; [exists m; split; [by left|done]|exists m'; split; [by right|done]].
    + intros (m' & [->|?]%elem_of_cons & ? & ?); [by left|right; by exists m'].
Qed.

(** What the loop leaves: it ends, and takes out what is below the keys it was given. *)
Lemma remove_loop_spec fuel c stack :
  length stack + total_members c ≤ fuel → names_parse c →
  ∃ c', remove_loop fuel c stack = Some (Ok c') ∧ c' ⊆ c ∧
    (∀ u k, u ∈ stack → below c (GetBucketPathName u) k → c' !! k = None) ∧
    (∀ k, (∀ u, u ∈ stack → ¬ below c (GetBucketPathName u) k) → c' !! k = c !! k).
Proof.
  revert c stack. induction fuel as [|fuel IH]; intros c stack Hf Hp.
  { destruct stack; [|cbn in Hf; lia]. exists c. split_and!; [done..| |done]. by intros u k ?%elem_of_nil. }
  cbn [remove_loop]. destruct (last stack) as [u|] eqn:Hlast.
  2:{ apply last_None in Hlast as ->. exists c. split_and!; [done..| |done]. by intros u k ?%elem_of_nil. }
  pose proof (last_take _ _ Hlast) as Hst. set (rest := take (length stack - 1) stack) in *.
  assert (Hlen : length stack = S (length rest)) by (rewrite Hst, length_app; cbn [length]; lia).
  assert (Hin : ∀ v, v ∈ stack ↔ v ∈ rest ∨ v = u).
  { intros v. rewrite Hst at 1. by rewrite elem_of_app, list_elem_of_singleton. }
  clear Hst Hlast. set (K := GetBucketPathName u). unfold _removeSingleDir. fold K.
  destruct (c !! K) as [d|] eqn:Hd.
  - destruct (member_urls_keys K (members d)) as (us & Hus & Hkeys); [intros m; by apply Hp|].
    rewrite Hus. cbn [mbind outcome_bind].
    assert (Hsub : delete K c ⊆ c) by apply delete_subseteq.
    assert (Hchild : ∀ k, k ∈ GetBucketPathName <$> us ↔ child c K k).
    { intros k. rewrite Hkeys. unfold child. rewrite Hd. naive_solver. }
    destruct (IH (delete K c) (rest ++ us)) as (c' & -> & Hsub' & Hgone & Hkept).
    { pose proof (member_urls_length _ _ _ Hus). pose proof (total_members_delete c K d Hd).
      rewrite length_app. lia. }
    { intros key d' m Hd'. apply Hp. by eapply lookup_weaken. }
    exists c'. split_and!; [done|by etrans| |].
    + intros v k Hv Hb.
      assert (c' !! k = None ∨ k = K ∨ ∃ k', child c K k' ∧ below (delete K c) k' k) as Hcases.
      { apply Hin in Hv as [Hv| ->]; [|right; fold K in Hb; inversion Hb as [|? k2 ? Hch Hb2]; subst; [by left|]].
        - destruct (below_delete c K _ _ Hb) as [Hb1|[->|?]]; [left|by right; left|by right; right].
          eapply Hgone; [|exact Hb1]. apply elem_of_app. by left.
        - destruct (below_delete c K _ _ Hb2) as [Hb1|[->|?]]; [right; by exists k2|by left|by right]. }
      destruct Hcases as [?|[->|(k' & Hch & Hb')]]; [done| |].
      * destruct (c' !! K) eqn:E; [|done]. eapply lookup_weaken in E; [|exact Hsub'].
        by rewrite lookup_delete_eq in E.
      * apply Hchild, list_elem_of_fmap in Hch as (w & -> & Hw). eapply Hgone; [|exact Hb'].
        apply elem_of_app. by right.
    + intros k Hnot. rewrite Hkept.
      * apply lookup_delete_ne. intros <-. apply (Hnot u); [apply Hin; by right|constructor].
      * intros v [Hv|Hv]%elem_of_app Hb; apply (below_mono _ c) in Hb; try done.
        -- apply (Hnot v); [apply Hin; by left|done].
        -- apply (Hnot u); [apply Hin; by right|]. eapply rtc_l; [|exact Hb].
           apply Hchild. by apply list_elem_of_fmap_2.
  - destruct (IH c rest) as (c' & -> & Hsub' & Hgone & Hkept); [lia|done|]. exists c'. split_and!; [done..| |].
    + intros v k [Hv| ->]%Hin Hb; [by eapply Hgone|]. fold K in Hb.
      inversion Hb as [|? k2 ? (d & m & Hd' & _)]; subst; [|congruence].
      destruct (c' !! K) eqn:E; [|done]. eapply lookup_weaken in E; [|exact Hsub']. congruence.
    + intros k Hnot. apply Hkept. intros v Hv. apply Hnot, Hin. by left.
Qed.

(** Leaving by name, when names are distinct. *)
Lemma LeaveByName_members d nm :
  NoDup (member_names d) → nm ≠ [] →
  (LeaveByName d nm).2 = set_members d (filter (λ m, nn_name m ≠ nm) (members d)).
Proof.
  intros Hnd Hn. unfold LeaveByName. rewrite bool_decide_false by done.
  assert (Hnone : ∀ ms : list NameAndNode, nm ∉ nn_name <$> ms → filter (λ m, nn_name m ≠ nm) ms = ms).
  { induction ms as [|m ms IH]; [done|]. rewrite fmap_cons, not_elem_of_cons. intros [? ?].
    rewrite filter_cons_True by done. by rewrite IH. }
  assert (He : match erase_first (named nm) (members d) with
               | Some ms => ms
               | None => members d
               end = filter (λ m, nn_name m ≠ nm) (members d)).
  { unfold member_names in Hnd. induction (members d) as [|m ms IH]; [done|].
    rewrite fmap_cons, NoDup_cons in Hnd. destruct Hnd as [Hm Hnd]. cbn [erase_first].
    unfold named at 1. case_bool_decide as Heq.
    - subst nm. rewrite filter_cons_False by naive_solver. by rewrite Hnone.
    - rewrite filter_cons_True by done. rewrite <-IH by done. by destruct (erase_first _ ms). }
  rewrite <-He. destruct (erase_first _ _); [done|]. by destruct d.
Qed.

(** The cache with [u] taken out of the list of its parent, and what the caller is told. *)
Definition unlinked (c : cache) (u : ResourceURL) (found : bool) (c1 : cache) : Prop :=
  if bool_decide (path u = lit "/") then found = true ∧ c1 = c
  else ∃ p, GetParent u = Ok p ∧
    match c !! GetBucketPathName p with
    | Some pd => found = true ∧
        c1 = <[GetBucketPathName p := set_members pd (filter (λ m, nn_name m ≠ name u) (members pd))]> c
    | None => found = false ∧ c1 = c
    end.

(** C36: Removing an entry comes to an end and does exactly this: an entry that is not known changes
    nothing; otherwise the parent, if it is known and the entry is not at the root, no longer lists
    it, the entry and everything below it are gone, and every other entry is as it was.  The members
    of an entry have distinct names, from which their URLs can be made. *)
Theorem Remove_spec c u :
  Valid u = true → names_parse c → (∀ key d, c !! key = Some d → NoDup (member_names d)) →
  ∃ found c', Remove c u = Some (Ok (found, c')) ∧
    match c !! GetBucketPathName u with
    | None => found = false ∧ c' = c
    | Some _ => ∃ c1, unlinked c u found c1 ∧
        (∀ key, below c1 (GetBucketPathName u) key → c' !! key = None) ∧
        (∀ key, ¬ below c1 (GetBucketPathName u) key → c' !! key = c1 !! key)
    end.
Proof.
  intros Hv Hp Hnd. unfold Remove. rewrite _lookup_valid by done.
  destruct (c !! GetBucketPathName u) as [d0|] eqn:Hd; [|by exists false, c].
  assert (Hloop : ∀ found c1, unlinked c u found c1 → names_parse c1 →
    ∃ found' c', match remove_loop (remove_fuel c1) c1 [u] with
         | Some (Ok c'') => Some (Ok (found : bool, c''))
         | Some (Throw e) => Some (Throw e)
         | None => None
         end = Some (Ok (found', c')) ∧ ∃ c1, unlinked c u found' c1 ∧
        (∀ key, below c1 (GetBucketPathName u) key → c' !! key = None) ∧
        (∀ key, ¬ below c1 (GetBucketPathName u) key → c' !! key = c1 !! key)).
  { intros found c1 Hun Hp1. destruct (remove_loop_spec (remove_fuel c1) c1 [u]) as (c' & -> & _ & Hg & Hk);
      [unfold remove_fuel; cbn [length]; lia|done|].
    exists found, c'. split; [done|]. exists c1. split_and!; [done| |].
    - intros key. apply Hg. by left.
    - intros key Hnb. apply Hk. by intros v ->%list_elem_of_singleton. }
  case_bool_decide as Hr; cbn [negb]; [apply Hloop; [unfold unlinked; by rewrite bool_decide_true|done]|].
  assert (IsRootLevel u = false) as Hroot by by apply bool_decide_false.
  destruct (GetParent_spec u Hv Hroot) as (p & Hgp & Hvp & _). rewrite Hgp. cbn [mbind outcome_bind].
  rewrite _lookup_valid by done. cbn [mbind outcome_bind].
  destruct (c !! GetBucketPathName p) as [pd|] eqn:Hpd; apply Hloop; try done.
  - unfold unlinked. rewrite bool_decide_false by done. exists p. split; [done|]. rewrite Hpd.
    rewrite LeaveByName_members by (by eapply Hnd || apply (valid_below_root u Hv Hroot)). done.
  - rewrite LeaveByName_members by (by eapply Hnd || apply (valid_below_root u Hv Hroot)).
    intros key d m [[<- <-]|[_ Hk]]%lookup_insert_Some; [|by apply Hp].
    cbn [members set_members]. intros [_ Hm]%list_elem_of_filter. by apply (Hp _ pd).
  - unfold unlinked. rewrite bool_decide_false by done. exists p. split; [done|]. by rewrite Hpd.
Qed.

(** An entry whose parent is not known is removed, and the caller is told it was not found. *)
Theorem Remove_reports_not_found c u p d :
  Valid u = true → IsRootLevel u = false → GetParent u = Ok p →
  c !! GetBucketPathName u = Some d → members d = [] → c !! GetBucketPathName p = None →
  Remove c u = Some (Ok (false, delete (GetBucketPathName u) c)).
Proof.
  intros Hv Hr Hp Hd Hm Hpn. destruct (GetParent_spec u Hv Hr) as (p' & Hp' & Hvp & _). rewrite Hp in Hp'. simplify_eq.
  unfold Remove. rewrite _lookup_valid, Hd by done. unfold IsRootLevel in Hr. rewrite Hr. cbn [negb].
  rewrite Hp. cbn [mbind outcome_bind]. rewrite _lookup_valid, Hpn by done. cbn [mbind outcome_bind].
  unfold remove_fuel. cbn [remove_loop last]. unfold _removeSingleDir. rewrite Hd, Hm. cbn.
  by destruct (total_members c).
Qed.

(** * Witnesses: the entry [/a/b] in an empty cache *)

Definition url_ab : ResourceURL :=
  mkURL (lit "dht") NodeID.NODE_LOCALHOST (Bucket.mk 7) (lit "/a") (lit "b") [].
Definition dir_ab : DirectoryInfo := mkDir url_ab (lit "info") 0 [].
Definition cache_ab : cache := {[ GetBucketPathName url_ab := dir_ab ]}.

Lemma Create_spec_witness :
  let key := GetBucketPathName url_ab in
  let found := Ok (true, Some dir_ab, Some NodeID.NODE_LOCALHOST) in
  ((∅ : cache) !! key = None →
     Create ∅ dir_ab = Ok (true, <[key := dir_ab]> ∅) ∧
     Lookup (<[key := dir_ab]> ∅) url_ab (Some di_empty) = found) ∧
  (is_Some ((∅ : cache) !! key) → Create ∅ dir_ab = Ok (false, ∅)) ∧
  Update ∅ dir_ab = Ok (true, <[key := dir_ab]> ∅).
Proof. apply (Create_spec ∅ dir_ab di_empty); reflexivity. Defined.

Lemma CreateAndLinkParents_spec_witness :
  ∃ ok c', CreateAndLinkParents ∅ dir_ab = Some (Ok (ok, c')) ∧ linked c' ∧ cache_le ∅ c' ∧
    (ok = true ↔ (∅ : cache) !! GetBucketPathName url_ab = None) ∧
    ∃ d', c' !! GetBucketPathName url_ab = Some d' ∧
      (ok = true → di_url d' = url_ab ∧ [] ⊆ member_names d').
Proof.
  apply (CreateAndLinkParents_spec ∅ dir_ab); [|reflexivity].
  intros key d Hd. discriminate.
Defined.

Lemma Remove_reports_not_found_witness :
  Remove cache_ab url_ab = Some (Ok (false, delete (GetBucketPathName url_ab) cache_ab)).
Proof.
  apply (Remove_reports_not_found cache_ab url_ab
    (mkURL (lit "ref") NodeID.NODE_LOCALHOST (Bucket.mk 7) (lit "/") (lit "a") []) dir_ab);
    reflexivity.
Defined.

(** The entries [/a], [/a/b], [/a/b/c] and [/a/d]; removing [/a/b] leaves the first and the last. *)
Definition url_at (p n : str) : ResourceURL :=
  mkURL (lit "ref") NodeID.NODE_LOCALHOST (Bucket.mk 7) p n [].
Definition dir_at (p n : str) (names : list str) : DirectoryInfo :=
  mkDir (url_at p n) [] 0 ((λ x, mkNameAndNode x NodeID.NODE_LOCALHOST) <$> names).
Definition filed (d : DirectoryInfo) : str * DirectoryInfo := (GetBucketPathName (di_url d), d).
Definition small_tree : list (str * DirectoryInfo) :=
  filed <$> [dir_at (lit "/") (lit "a") [lit "b"; lit "d"]; dir_at (lit "/a") (lit "b") [lit "c"];
             dir_at (lit "/a/b") (lit "c") []; dir_at (lit "/a") (lit "d") []].

Lemma small_tree_entry (Q : str → DirectoryInfo → Prop) :
  Forall (λ kd, Q kd.1 kd.2) small_tree →
  ∀ key d, (list_to_map small_tree : cache) !! key = Some d → Q key d.
Proof.
  intros Hall key d Hd. apply elem_of_list_to_map_2 in Hd. rewrite Forall_forall in Hall. by apply (Hall (key, d)).
Qed.

Lemma Remove_spec_witness :
  let c : cache := list_to_map small_tree in
  ∃ c', Remove c (url_at (lit "/a") (lit "b")) = Some (Ok (true, c')) ∧
    c' !! GetBucketPathName (url_at (lit "/a") (lit "b")) = None ∧
    c' !! GetBucketPathName (url_at (lit "/a/b") (lit "c")) = None ∧
    c' !! GetBucketPathName (url_at (lit "/") (lit "a")) = Some (dir_at (lit "/") (lit "a") [lit "d"]) ∧
    c' !! GetBucketPathName (url_at (lit "/a") (lit "d")) = Some (dir_at (lit "/a") (lit "d") []).
Proof.
  intros c.
  destruct (Remove_spec c (url_at (lit "/a") (lit "b"))) as (found & c' & Hr & Hspec).
  - reflexivity.
  - refine (λ key d m Hd, small_tree_entry (λ key d, ∀ m, m ∈ members d → nn_name m ≠ [] →
      ∃ v, of_url (key ++ lit "/" ++ nn_name m) = Ok v ∧
        GetBucketPathName v = key ++ lit "/" ++ nn_name m) _ key d Hd m).
    clear key d m Hd. unfold small_tree. cbn [fmap list_fmap]. rewrite !Forall_cons, Forall_nil. split_and!; try exact Logic.I; intros m Hm _; cbn in Hm;
      repeat (apply elem_of_cons in Hm as [->|Hm]; [eexists; split; vm_compute; reflexivity|]);
      by apply elem_of_nil in Hm.
  - apply (small_tree_entry (λ _ d, NoDup (member_names d))).
    apply (bool_decide_unpack _). vm_compute. exact Logic.I.
  - change (c !! GetBucketPathName (url_at (lit "/a") (lit "b"))) with
      (Some (dir_at (lit "/a") (lit "b") [lit "c"])) in Hspec. cbv beta iota in Hspec.
    destruct Hspec as (c1 & Hun & Hgone & Hkept).
    unfold unlinked in Hun. rewrite bool_decide_false in Hun by done. destruct Hun as (p & Hp & Hun).
    change (Ok (url_at (lit "/") (lit "a")) = Ok p) in Hp. injection Hp as <-.
    change (c !! GetBucketPathName (url_at (lit "/") (lit "a"))) with
      (Some (dir_at (lit "/") (lit "a") [lit "b"; lit "d"])) in Hun. destruct Hun as [-> ->].
    exists c'. split_and!; [exact Hr| | | |].
    + apply Hgone. constructor.
    + apply Hgone. eapply rtc_l; [|constructor]. exists (dir_at (lit "/a") (lit "b") [lit "c"]).
      eexists. split_and!; [vm_compute; reflexivity|left|done|vm_compute; reflexivity].
    + rewrite Hkept; [apply lookup_insert_eq|]. intros Hb%below_prefix.
      by apply (bool_decide_unpack (¬ _ `prefix_of` _)) in Hb.
    + rewrite Hkept; [vm_compute; reflexivity|]. intros Hb%below_prefix.
      by apply (bool_decide_unpack (¬ _ `prefix_of` _)) in Hb.
Defined.
