(* ===== verification/DirManCore.v ===== *)
(** The directory managers (src/src/dirman/core/DirManCoreBase.cpp, DirManCoreStatic.cpp,
    DirManCoreCentralized.cpp, and the target side of src/src/dirman/ops): a node that answers
    from its own tables, and a root node that answers for everybody else.

    A request of a client to the root is synchronous (the client blocks on the future of its
    op), so it is one step of both nodes: what the root does with the message, and what the
    client does with the reply.  The archive library that packs URLs and entries into the
    messages is taken to give back what was put in.  [None] for the root means that no
    connection can be made. *)
From S2P Require Import Prelude StringHelpers Identifiers ResourceURL DirectoryInfo DirectoryCache.

Record DirManCore := mkCore {
  my_node : nodeid_t;
  root_id : nodeid_t;
  am_root : bool;
  default_bucket : bucket_t;
  dc_mine : cache;
  dc_others : cache
}.

Definition with_mine (s : DirManCore) (c : cache) : DirManCore :=
  mkCore (my_node s) (root_id s) (am_root s) (default_bucket s) c (dc_others s).
Definition with_others (s : DirManCore) (c : cache) : DirManCore :=
  mkCore (my_node s) (root_id s) (am_root s) (default_bucket s) (dc_mine s) c.

Definition with_bucket (u : ResourceURL) (b : bucket_t) : ResourceURL :=
  mkURL (resource_type u) (reference_node u) b (path u) (name u) (options u).
Definition with_node (u : ResourceURL) (n : nodeid_t) : ResourceURL :=
  mkURL (resource_type u) n (bucket u) (path u) (name u) (options u).
Definition with_url (d : DirectoryInfo) (u : ResourceURL) : DirectoryInfo :=
  mkDir u (info d) (min_members d) (members d).

Definition localizeURL (s : DirManCore) (url : ResourceURL) (change_node : bool) : ResourceURL :=
  let u := if bool_decide (bucket url = Bucket.UNSPECIFIED)
           then with_bucket url (default_bucket s) else url in
  if change_node && bool_decide (reference_node u = NodeID.NODE_UNSPECIFIED)
  then with_node u (my_node s) else u.

(** * The base class *)

(** [lookupLocal]: what this node hosts, then what it has cached. *)
Definition lookupLocal (s : DirManCore) (url : ResourceURL) (ri : option DirectoryInfo)
    : outcome (bool * option DirectoryInfo) :=
  '(found, d, _) ← Lookup (dc_mine s) url ri;
  if (found : bool) then Ok (true, d)
  else
    '(found, d, _) ← Lookup (dc_others s) url d;
    Ok (found, d).

(** [HostNewDir(url)]: the checks made before the derived class takes over. *)
Definition host_url (s : DirManCore) (strict_checking : bool) (url : ResourceURL)
    : outcome ResourceURL :=
  if bool_decide (bucket url = Bucket.UNSPECIFIED) then
    _ ← F_ASSERT (negb strict_checking);
    Ok (with_node (with_bucket url (default_bucket s)) (my_node s))
  else Ok (with_node url (my_node s)).

(** [JoinDirWithoutName] asks for a generated name through an option. *)
Definition autogen_url (url : ResourceURL) : ResourceURL :=
  SetOption url auto_generate_option_label (lit "1").

Definition GetCachedNames (s : DirManCore) : list str :=
  GetAllNames (dc_others s) ++ GetAllNames (dc_mine s).

(** * The static manager *)

Module Static.
Definition Locate (s : DirManCore) (url : ResourceURL) : bool * nodeid_t := (true, my_node s).

Definition GetDirectoryInfo (s : DirManCore) (url : ResourceURL) (ri : option DirectoryInfo)
    : outcome (bool * option DirectoryInfo) :=
  lookupLocal s (localizeURL s url false) ri.

Definition HostNewDir (s : DirManCore) (d : DirectoryInfo) : outcome (bool * DirManCore) :=
  let d' := with_url d (localizeURL s (di_url d) true) in
  '(ok, c) ← fuelled (CreateAndLinkParents (dc_mine s) d');
  Ok (ok, with_mine s c).

Definition JoinDirWithName (s : DirManCore) (url : ResourceURL) (nm : str)
    : outcome (bool * DirectoryInfo * DirManCore) :=
  let url_mod := localizeURL s url true in
  url_mod ← (if negb (nm =s? []) then PushDir url_mod nm else Ok url_mod);
  r ← cache_Join (dc_mine s) url_mod;
  '(found, d, c) ← fuelled (Ok <$> r);
  Ok (found, d, with_mine s c).

Definition LeaveDir (s : DirManCore) (url : ResourceURL)
    : outcome (bool * DirectoryInfo * DirManCore) :=
  '(removed, d, c) ← cache_Leave (dc_mine s) (localizeURL s url false);
  Ok (removed, d, with_mine s c).

Definition DropDir (s : DirManCore) (url : ResourceURL) : outcome (bool * DirManCore) :=
  '(found, c) ← fuelled (Remove (dc_mine s) (localizeURL s url false));
  Ok (found, with_mine s c).
End Static.

(** * The centralized manager *)

Module Centralized.
Definition Locate (s : DirManCore) (url : ResourceURL) : bool * nodeid_t := (true, root_id s).

(** On the root. *)

Definition root_GetDirectoryInfo (s : DirManCore) (url : ResourceURL)
    (dir_info : option DirectoryInfo) : outcome (bool * option DirectoryInfo) :=
  let ri := (λ d, with_url d (with_node (di_url d) (root_id s))) <$> dir_info in
  '(found, d, _) ← Lookup (dc_mine s) (localizeURL s url false) ri;
  Ok (found, d).

(** The entry both sides host: bucket filled in, reference node the root. *)
Definition hosted (s : DirManCore) (d : DirectoryInfo) : DirectoryInfo :=
  with_url d (with_node (localizeURL s (di_url d) true) (root_id s)).

Definition root_HostNewDir (s : DirManCore) (d : DirectoryInfo) : outcome (bool * DirManCore) :=
  '(ok, c) ← fuelled (CreateAndLinkParents (dc_mine s) (hosted s d));
  Ok (ok, with_mine s c).

Definition join_url (s : DirManCore) (url : ResourceURL) (nm : str) : outcome ResourceURL :=
  let url_mod := localizeURL s url true in
  if negb (nm =s? []) then PushDir url_mod nm else Ok url_mod.

Definition root_JoinDirWithName (s : DirManCore) (url : ResourceURL) (nm : str)
    : outcome (bool * DirectoryInfo * DirManCore) :=
  url_mod ← join_url s url nm;
  r ← cache_Join (dc_mine s) url_mod;
  '(found, d, c) ← fuelled (Ok <$> r);
  Ok (found, d, with_mine s c).

Definition root_LeaveDir (s : DirManCore) (url : ResourceURL)
    : outcome (bool * DirectoryInfo * DirManCore) :=
  '(removed, d, c) ← cache_Leave (dc_mine s) (localizeURL s url false);
  Ok (removed, d, with_mine s c).

Definition root_DropDir (s : DirManCore) (url : ResourceURL) : outcome (bool * DirManCore) :=
  '(found, c) ← fuelled (Remove (dc_mine s) (localizeURL s url false));
  Ok (found, with_mine s c).

(** The messages, and what the root's op does with one: it always replies with an entry. *)
Inductive request :=
| HostNewDirReq (d : DirectoryInfo)
| GetInfo (url : ResourceURL)
| JoinDir (url : ResourceURL)
| LeaveDirReq (url : ResourceURL)
| DropDirReq (url : ResourceURL).

Definition UpdateTarget (s : DirManCore) (req : request) : outcome (DirectoryInfo * DirManCore) :=
  match req with
  | HostNewDirReq d =>
      '(_, s') ← root_HostNewDir s d;
      '(_, r) ← root_GetDirectoryInfo s' (di_url d) (Some di_empty);
      Ok (default di_empty r, s')
  | GetInfo url =>
      '(_, r) ← root_GetDirectoryInfo s url (Some di_empty);
      Ok (default di_empty r, s)
  | JoinDir url => '(_, d, s') ← root_JoinDirWithName s url []; Ok (d, s')
  | LeaveDirReq url => '(_, d, s') ← root_LeaveDir s url; Ok (d, s')
  | DropDirReq url => '(_, s') ← root_DropDir s url; Ok (di_empty, s')
  end.

(** On a client.  Each takes the client and the root it talks to, and returns both. *)

(** The client's own cache, when it may be used. *)
Definition cached (s : DirManCore) (url_mod : ResourceURL) (check_local : bool)
    (dir_info : option DirectoryInfo) : outcome (bool * option DirectoryInfo) :=
  if check_local then '(found, d, _) ← Lookup (dc_others s) url_mod dir_info; Ok (found, d)
  else Ok (false, dir_info).

(** The request to the root; an entry that comes back is cached. *)
Definition ask_root (s : DirManCore) (root : option DirManCore) (url_mod : ResourceURL)
    (d : option DirectoryInfo)
    : outcome (bool * option DirectoryInfo * DirManCore * option DirManCore) :=
  match root return outcome (bool * option DirectoryInfo * DirManCore * option DirManCore) with
  | None => Ok (false, d, s, None)
  | Some r =>
      '(di2, r') ← UpdateTarget r (GetInfo url_mod);
      if di_IsEmpty di2 then Ok (false, d, s, Some r')
      else
        '(_, c) ← fuelled (CreateAndLinkParents (dc_others s) di2);
        Ok (true, (λ _, di2) <$> d, with_others s c, Some r')
  end.

Definition GetDirectoryInfo (s : DirManCore) (root : option DirManCore) (url : ResourceURL)
    (check_local check_remote : bool) (dir_info : option DirectoryInfo)
    : outcome (bool * option DirectoryInfo * DirManCore * option DirManCore) :=
  let url_mod := localizeURL s url false in
  hd ← cached s url_mod check_local dir_info;
  let d : option DirectoryInfo := hd.2 in
  if (hd.1 : bool) then Ok (true, d, s, root)
  else if negb check_remote then Ok (false, d, s, root)
  else ask_root s root url_mod d.

Definition HostNewDir (s : DirManCore) (root : option DirManCore) (d : DirectoryInfo)
    : outcome (bool * DirManCore * option DirManCore) :=
  match root with
  | None => Throw AssertFailed
  | Some r =>
      '(di2, r') ← UpdateTarget r (HostNewDirReq (hosted s d));
      '(ok, c) ← fuelled (CreateAndLinkParents (dc_others s) di2);
      Ok (ok, with_others s c, Some r')
  end.

Definition JoinDirWithName (s : DirManCore) (root : option DirManCore) (url : ResourceURL)
    (nm : str) : outcome (bool * DirectoryInfo * DirManCore * option DirManCore) :=
  url_mod ← join_url s url nm;
  match root with
  | None => Throw RuntimeError
  | Some r =>
      '(di2, r') ← UpdateTarget r (JoinDir url_mod);
      '(ok, c) ← Update (dc_others s) di2;
      Ok (ok, di2, with_others s c, Some r')
  end.

Definition LeaveDir (s : DirManCore) (root : option DirManCore) (url : ResourceURL)
    : outcome (bool * DirManCore * option DirManCore) :=
  let url_mod := localizeURL s url false in
  match root with
  | None => Throw RuntimeError
  | Some r =>
      '(di2, r') ← UpdateTarget r (LeaveDirReq url_mod);
      '(ok, c) ← Update (dc_others s) di2;
      Ok (ok, with_others s c, Some r')
  end.

Definition DropDir (s : DirManCore) (root : option DirManCore) (url : ResourceURL)
    : outcome (bool * DirManCore * option DirManCore) :=
  let url_mod := localizeURL s url false in
  match root with
  | None => Throw RuntimeError
  | Some r =>
      '(_, r') ← UpdateTarget r (DropDirReq url_mod);
      '(found, c) ← fuelled (Remove (dc_others s) url_mod);
      Ok (found, with_others s c, Some r')
  end.
End Centralized.

Import Centralized.

(** * Finding what was hosted *)

Definition key (u : ResourceURL) : str := GetBucketPathName u.

Lemma key_with_node u n : key (with_node u n) = key u.
Proof. done. Qed.

Lemma localize_specified s u change :
  bucket u ≠ Bucket.UNSPECIFIED →
  key (localizeURL s u change) = key u ∧ path (localizeURL s u change) = path u ∧
  name (localizeURL s u change) = name u ∧ bucket (localizeURL s u change) = bucket u.
Proof.
  intros Hb. unfold localizeURL. rewrite (bool_decide_false (bucket u = Bucket.UNSPECIFIED)) by done.
  by destruct (change && _).
Qed.

(** A URL of an entry that others can find: valid, below the root of the name space, in a
    given bucket. *)
Definition findable (u : ResourceURL) : Prop :=
  Valid u = true ∧ IsRoot u = false ∧ bucket u ≠ Bucket.UNSPECIFIED.

Lemma findable_key u v :
  findable u → path v = path u → name v = name u → bucket v = bucket u → findable v ∧ key v = key u.
Proof.
  intros (Hv & Hr & Hb) Hp Hn Hbk. unfold findable, key, Valid, IsRoot, GetBucketPathName, GetURL in *.
  rewrite Hp, Hn, Hbk. done.
Qed.

Lemma findable_localize s u change :
  findable u → findable (localizeURL s u change) ∧ key (localizeURL s u change) = key u.
Proof.
  intros Hf. destruct (localize_specified s u change) as (_ & ? & ? & ?); [apply Hf|].
  by apply findable_key.
Qed.

Lemma findable_hosted s d : findable (di_url d) →
  findable (di_url (hosted s d)) ∧ key (di_url (hosted s d)) = key (di_url d).
Proof.
  intros Hf. destruct (localize_specified s (di_url d) true) as (_ & ? & ? & ?); [apply Hf|].
  by apply findable_key.
Qed.

Lemma Lookup_known c u ri d :
  findable u → c !! key u = Some d →
  Lookup c u (Some ri) = Ok (true, Some d, Some (reference_node (di_url d))).
Proof.
  intros (Hv & Hr & _) Hd. unfold Lookup. rewrite Hr, _lookup_valid by done.
  unfold key in Hd. rewrite Hd. done.
Qed.

Lemma Lookup_unknown c u ri :
  findable u → c !! key u = None →
  Lookup c u (Some ri) = Ok (false, Some di_empty, Some NodeID.NODE_UNSPECIFIED).
Proof.
  intros (Hv & Hr & _) Hd. unfold Lookup. rewrite Hr, _lookup_valid by done.
  unfold key in Hd. rewrite Hd. done.
Qed.

Lemma findable_not_empty d : findable (di_url d) → di_IsEmpty d = false.
Proof.
  intros (_ & _ & Hb). unfold di_IsEmpty, IsEmpty.
  rewrite (bool_decide_false (bucket (di_url d) = Bucket.UNSPECIFIED)) by done.
  by rewrite andb_false_r.
Qed.

(** The root after an entry was hosted there: the entry is known, under the root's name, with
    at least its members. *)
Lemma root_HostNewDir_known r d :
  findable (di_url d) →
  ∃ ok r', root_HostNewDir r d = Ok (ok, r') ∧ root_id r' = root_id r ∧
    cache_le (dc_mine r) (dc_mine r') ∧
    (ok = true ↔ dc_mine r !! key (di_url d) = None) ∧
    (ok = false → r' = r) ∧
    (ok = true → ∃ di, dc_mine r' !! key (di_url d) = Some di ∧
       di_url di = di_url (hosted r d) ∧ member_names d ⊆ member_names di).
Proof.
  intros Hf. destruct (findable_hosted r d Hf) as [Hfh Hkh].
  destruct (CreateAndLinkParents_total (dc_mine r) (hosted r d)) as (ok & c' & Hc & Hle & Hok & Hs & Hn);
    [apply Hfh|]. fold (key (di_url (hosted r d))) in Hok, Hn. rewrite Hkh in Hok, Hn.
  unfold root_HostNewDir. rewrite Hc. cbn [fuelled mbind outcome_bind].
  eexists _, _. split; [done|]. split_and!; try done.
  - intros Hko. rewrite (Hs Hko). by destruct r.
  - intros Hko. destruct (Hn Hko) as [Hle' _].
    destruct (Hle' (key (di_url d)) (hosted r d)) as (di & Hdi & Hu & Hm); [apply lookup_insert_eq|].
    by exists di.
Qed.

(** C26: What one client hosts, another one finds: after a client has hosted an entry the root did
    not know, a client that has not cached it asks for it and gets an entry with that location,
    the root as its reference node, and at least its members. *)
Theorem host_then_find a b r d ri :
  findable (di_url d) → dc_mine r !! key (di_url d) = None →
  dc_others b !! key (di_url d) = None →
  ∃ ok a' r' di b', HostNewDir a (Some r) d = Ok (ok, a', Some r') ∧
    GetDirectoryInfo b (Some r') (di_url d) true true (Some ri) = Ok (true, Some di, b', Some r') ∧
    key (di_url di) = key (di_url d) ∧ reference_node (di_url di) = root_id r ∧
    member_names d ⊆ member_names di ∧
    is_Some (dc_others b' !! key (di_url d)).
Proof.
  intros Hf Hunk Hb. destruct (findable_hosted a d Hf) as [Hfa Hka].
  destruct (root_HostNewDir_known r (hosted a d) Hfa) as (ok & r' & Hh & Hid & _ & Hok & _ & Hnew).
  rewrite Hka in Hok, Hnew. destruct (Hnew (proj2 Hok Hunk)) as (di & Hdi & Hdu & Hdm).
  destruct (findable_hosted r (hosted a d) Hfa) as [Hfr Hkr]. rewrite <-Hdu, Hka in Hkr.
  rewrite <-Hdu in Hfr.
  assert (Hget : ∀ s u, findable u → key u = key (di_url d) → s = r' →
    root_GetDirectoryInfo s u (Some di_empty) = Ok (true, Some di)).
  { intros s u Hu Hku ->. unfold root_GetDirectoryInfo. cbn [fmap option_fmap option_map].
    destruct (findable_localize r' u false Hu) as [Hlu Hlk].
    rewrite (Lookup_known _ _ _ di) by (try done; by rewrite Hlk, Hku). done. }
  destruct (CreateAndLinkParents_total (dc_others a) di) as (ok1 & c1 & Hc1 & _); [apply Hfr|].
  destruct (CreateAndLinkParents_total (dc_others b) di) as (ok2 & c2 & Hc2 & _ & Hok2 & _ & Hn2);
    [apply Hfr|].
  fold (key (di_url di)) in Hok2, Hn2. rewrite Hkr in Hok2, Hn2.
  destruct (Hn2 (proj2 Hok2 Hb)) as [Hle2 _].
  destruct (findable_localize b (di_url d) false Hf) as [Hfb Hkb].
  exists ok1, (with_others a c1), r', di, (with_others b c2). split_and!.
  - unfold HostNewDir, UpdateTarget. rewrite Hh. cbn [mbind outcome_bind].
    rewrite (Hget r' (di_url (hosted a d))) by done. cbn [mbind outcome_bind default from_option id].
    by rewrite Hc1.
  - unfold GetDirectoryInfo, cached, ask_root, UpdateTarget. rewrite Lookup_unknown by (try done; by rewrite Hkb).
    cbn [mbind outcome_bind negb fst snd]. rewrite (Hget r') by done.
    cbn [mbind outcome_bind default from_option id]. rewrite findable_not_empty by done.
    by rewrite Hc2.
  - done.
  - by rewrite Hdu.
  - done.
  - cbn [dc_others with_others]. destruct (Hle2 (key (di_url d)) di) as (d' & -> & _);
      [apply lookup_insert_eq|eauto].
Qed.

(** A client that hosts an entry the root has already, and that it has not cached itself, is
    told that the entry is new, while the root's table does not change. *)
Theorem host_existing_reported_new a r d d0 :
  findable (di_url d) → findable (di_url d0) → key (di_url d0) = key (di_url d) →
  dc_mine r !! key (di_url d) = Some d0 → dc_others a !! key (di_url d) = None →
  ∃ a', HostNewDir a (Some r) d = Ok (true, a', Some r).
Proof.
  intros Hf Hf0 Hk0 Hr Ha. destruct (findable_hosted a d Hf) as [Hfa Hka].
  destruct (root_HostNewDir_known r (hosted a d) Hfa) as (ok & r' & Hh & _ & _ & Hok & Hsame & _).
  rewrite Hka in Hok. destruct ok; [by rewrite (proj1 Hok eq_refl) in Hr|].
  rewrite (Hsame eq_refl) in Hh.
  destruct (CreateAndLinkParents_total (dc_others a) d0) as (ok1 & c1 & Hc1 & _ & Hok1 & _);
    [apply Hf0|]. fold (key (di_url d0)) in Hok1. rewrite Hk0 in Hok1.
  rewrite (proj2 Hok1 Ha) in Hc1.
  exists (with_others a c1). unfold HostNewDir, UpdateTarget. rewrite Hh. cbn [mbind outcome_bind].
  unfold root_GetDirectoryInfo. cbn [fmap option_fmap option_map].
  destruct (findable_localize r (di_url (hosted a d)) false Hfa) as [Hlu Hlk].
  rewrite (Lookup_known _ _ _ d0) by (try done; by rewrite Hlk, Hka).
  cbn [mbind outcome_bind default from_option id]. by rewrite Hc1.
Qed.

(** * Witnesses *)

Definition root_node : nodeid_t := NodeID.mk 0x10.
Definition root_core (c : cache) : DirManCore := mkCore root_node root_node true (Bucket.mk 7) c ∅.
Definition client_core : DirManCore := mkCore (NodeID.mk 0x11) root_node false (Bucket.mk 7) ∅ ∅.

Lemma findable_ab : findable url_ab.
Proof. split; [reflexivity|]. split; [reflexivity|discriminate]. Qed.

Lemma host_then_find_witness :
  ∃ ok a' r' di b', HostNewDir client_core (Some (root_core ∅)) dir_ab = Ok (ok, a', Some r') ∧
    GetDirectoryInfo client_core (Some r') url_ab true true (Some di_empty)
      = Ok (true, Some di, b', Some r') ∧
    key (di_url di) = key url_ab ∧ reference_node (di_url di) = root_node ∧
    [] ⊆ member_names di ∧ is_Some (dc_others b' !! key url_ab).
Proof.
  apply (host_then_find client_core client_core (root_core ∅) dir_ab di_empty);
    [exact findable_ab|reflexivity|reflexivity].
Defined.

Lemma host_existing_reported_new_witness :
  ∃ a', HostNewDir client_core (Some (root_core cache_ab)) dir_ab
    = Ok (true, a', Some (root_core cache_ab)).
Proof.
  apply (host_existing_reported_new client_core (root_core cache_ab) dir_ab dir_ab);
    [exact findable_ab|exact findable_ab|reflexivity|reflexivity|reflexivity].
Defined.
