(* ===== verification/DirManConfig.v ===== *)
(** How directory managers come up (src/src/dirman/core/DirManCoreBase.cpp, the constructors of
    DirManCoreStatic.cpp and DirManCoreCentralized.cpp, and Singleton.cpp): the resources a
    configuration defines, the search for the root node and the file in which a root leaves its
    id, and the life cycle of the service.

    The environment, the shell's expansion of paths and the files are parameters, as in
    Configuration. *)
From S2P Require Import Prelude StringHelpers Identifiers Configuration ResourceURL DirectoryInfo DirectoryCache DirManCore.

(** * Resources in the configuration *)

(** One turn of the walk through the list, which goes from its end to its start: the first URL of
    a path is kept. *)
Definition consider (bucket0 : bucket_t) (text : str) (urls : gmap str ResourceURL)
    : outcome (gmap str ResourceURL) :=
  url ← of_url text;
  if IsReference url then Ok urls
  else
    let url := if bool_decide (bucket url = Bucket.UNSPECIFIED) then with_bucket url bucket0 else url in
    let path_name := GetPathName url in
    Ok match urls !! path_name with
       | None => <[path_name := url]> urls
       | Some _ => urls
       end.

Fixpoint consider_all (bucket0 : bucket_t) (texts : list str) (urls : gmap str ResourceURL)
    : outcome (gmap str ResourceURL) :=
  match texts with
  | [] => Ok urls
  | text :: texts => urls ← consider bucket0 text urls; consider_all bucket0 texts urls
  end.

Definition ok_types : list str := [lit "local"; lit "trace"; lit "null"].

(** An entry without members is only of use for a resource that needs none. *)
Fixpoint add_predefined (erange : bool) (urls : list (str * ResourceURL)) (c : cache) : outcome cache :=
  match urls with
  | [] => Ok c
  | (_, url) :: urls =>
      di ← of_resource_url erange url;
      let not_local := negb (bool_decide (Type_ (di_url di) ∈ ok_types)) in
      if not_local && bool_decide (length (members di) = 0) then Throw RuntimeError
      else '(_, c) ← Create c di; add_predefined erange urls c
  end.

Definition predefined (erange : bool) (bucket0 : bucket_t) (resources : list str) : outcome cache :=
  urls ← consider_all bucket0 (reverse resources) ∅;
  add_predefined erange (entries urls) ∅.

(** * The base class *)

Record base := mkBase { base_bucket : bucket_t; strict_checking : bool; base_others : cache }.

(** [GetDefaultSecurityBucket] on a bucket; it is left alone when the name is empty. *)
Definition default_security_bucket (c : Configuration) : outcome bucket_t :=
  let '(rc, nm) := GetDefaultSecurityBucket c in
  if (rc =? 0)%Z then Bucket.of_string nm else Ok Bucket.UNSPECIFIED.

Definition DirManCoreBase (erange : bool) (c : Configuration) : outcome base :=
  let strict := default false (GetBool c (lit "dirman.strict") (lit "true")).2 in
  bucket0 ← default_security_bucket c;
  others ← predefined erange bucket0 (GetStringVector c (lit "dirman.resources"));
  Ok (mkBase bucket0 strict others).

(** ** Calls with a URL

    [define] and [host] are the calls with an entry, which each manager has its own of. *)

Definition DefineNewDir_url {S} (define : DirectoryInfo → S → outcome (bool * S)) (erange : bool)
    (url : ResourceURL) (s : S) : outcome (bool * S) :=
  if negb (Valid url) then Ok (false, s)
  else di ← of_resource_url erange url; define di s.

Definition HostNewDir_url (host : DirectoryInfo → DirManCore → outcome (bool * DirManCore))
    (strict erange : bool) (url : ResourceURL) (s : DirManCore) : outcome (bool * DirManCore) :=
  tmp_url ← host_url s strict url;
  di ← of_resource_url erange tmp_url;
  host di s.

(** ** Without a manager of its own

    The bodies of the base class, which both managers replace: [discoverParent] finds the node of
    a parent and [joinRemote] joins a parent there. *)

Section base_calls.
Context (discoverParent : ResourceURL → bool * nodeid_t) (joinRemote : nodeid_t → ResourceURL → bool).

Definition base_HostNewDir (d : DirectoryInfo) (s : DirManCore) (doc : OwnerCache.owners)
    : outcome (bool * DirManCore * OwnerCache.owners) :=
  let url := di_url d in
  if negb (Valid url) || negb (bool_decide (reference_node url = my_node s)) then Ok (false, s, doc)
  else
    '(new_resource, c) ← Create (dc_mine s) d;
    let s := with_mine s c in
    if negb new_resource then Ok (false, s, doc)
    else
      let doc := (OwnerCache.Register doc url).2 in
      if IsRootLevel url then Ok (true, s, doc)
      else
        let '(ok, parent_node) := discoverParent url in
        _ ← F_ASSERT ok;
        if bool_decide (parent_node = my_node s) || bool_decide (parent_node = NodeID.NODE_LOCALHOST) then
          r ← cache_Join (dc_mine s) url;
          '(found, _, c) ← fuelled (Ok <$> r);
          Ok (found, with_mine s c, doc)
        else
          _ ← F_ASSERT (joinRemote parent_node url);
          Ok (true, s, doc).

(** A reference node that is not given is not handled, and the process ends. *)
Definition base_DefineNewDir (d : DirectoryInfo) (s : DirManCore) (doc : OwnerCache.owners)
    : outcome (bool * DirManCore * OwnerCache.owners) :=
  if negb (Valid (di_url d)) then Ok (false, s, doc)
  else if bool_decide (reference_node (di_url d) = my_node s) then base_HostNewDir d s doc
  else Throw Exit.

Definition cacheForeignDir (d : DirectoryInfo) (s : DirManCore) (doc : OwnerCache.owners)
    : outcome (bool * DirManCore * OwnerCache.owners) :=
  let url := di_url d in
  if negb (Valid url) || bool_decide (reference_node url = NodeID.NODE_LOCALHOST)
     || bool_decide (reference_node url = my_node s)
  then Ok (false, s, doc)
  else
    let doc := (OwnerCache.Register doc url).2 in
    '(_, c) ← Create (dc_others s) d;
    Ok (true, with_others s c, doc).

(** The entries of a list that are known here, and whether all are. *)
Fixpoint lookupLocal_all (s : DirManCore) (urls : list ResourceURL) : outcome (bool * list DirectoryInfo) :=
  match urls with
  | [] => Ok (true, [])
  | url :: urls =>
      '(ok, ri) ← lookupLocal s url (Some di_empty);
      '(all_found, ds) ← lookupLocal_all s urls;
      Ok (if (ok : bool) then (all_found, default di_empty ri :: ds) else (false, ds))
  end.
End base_calls.

(** * The search for the root node *)

Section files.
Context (getenv : str → option str) (wordexp : str → Z → option (list str)).
(** What is in a file that can be opened. *)
Context (read_file : str → option str).

Definition newline : ascii := "010"%char.
Definition first_line (text : str) : str := (break_at (λ c, c =c? newline) text).1.

Definition root_from_env : outcome str :=
  match default [] (getenv (lit "FAODEL_DIRMAN_ROOT_NODE")) with
  | [] => Throw RuntimeError
  | root_node_hex => Ok root_node_hex
  end.

Definition root_from_file (c : Configuration) : outcome str :=
  '(rc, fname) ← GetFilename getenv wordexp c (lit "dirman.root_node") (lit "FAODEL_DIRMAN_ROOT_NODE_FILE") [];
  if (rc =? 0)%Z then
    match read_file (c_str (default [] fname)) with
    | None => Throw RuntimeError
    | Some text => Ok (first_line text)
    end
  else root_from_env.

Definition parseConfigForRootNode (c : Configuration) : outcome nodeid_t :=
  let '(rc, root_node_hex) := GetString c (lit "dirman.root_node") [] in
  root_node_hex ← (if (rc =? ENOENT)%Z then root_from_file c else Ok root_node_hex);
  node ← NodeID.of_hex root_node_hex;
  if negb (NodeID.Valid node) then Throw RuntimeError else Ok node.

(** * The managers *)

Definition root_file (n : nodeid_t) : str :=
  NodeID.GetHex n ++ [newline] ++ NodeID.GetHttpLink n [] ++ [newline].

(** Writing the file: [None] when it cannot be opened. *)
Context (write_file : str → bool).

Definition write_root (fname : option str) (n : nodeid_t) : outcome (list (str * str)) :=
  match default [] fname with
  | [] => Ok []
  | f => if write_file (c_str f) then Ok [(c_str f, root_file n)] else Throw RuntimeError
  end.

(** What a manager does with an entry the base class made. *)
Definition transplant (s : DirManCore) (d : DirectoryInfo) : outcome DirManCore :=
  if am_root s then
    '(_, s) ← Centralized.root_HostNewDir s d;
    '(_, c) ← fuelled (Remove (dc_others s) (di_url d));
    Ok (with_others s c)
  else
    '(_, c) ← fuelled (Remove (dc_others s) (di_url d));
    let u := with_node (localizeURL s (di_url d) true) (root_id s) in
    '(_, c) ← Update c (with_url d u);
    Ok (with_others s c).

Definition relocate (s : DirManCore) (d : DirectoryInfo) : outcome DirManCore :=
  '(_, c) ← fuelled (Remove (dc_others s) (di_url d));
  '(_, c) ← Update c (with_url d (localizeURL s (di_url d) true));
  Ok (with_others s c).

Fixpoint for_all_dirs (f : DirManCore → DirectoryInfo → outcome DirManCore) (s : DirManCore)
    (dirs : list DirectoryInfo) : outcome DirManCore :=
  match dirs with
  | [] => Ok s
  | d :: dirs => s ← f s d; for_all_dirs f s dirs
  end.

Definition DirManCoreStatic (erange : bool) (c : Configuration) : outcome DirManCore :=
  b ← DirManCoreBase erange c;
  let s := mkCore NodeID.NODE_UNSPECIFIED NodeID.NODE_UNSPECIFIED false (base_bucket b) ∅ (base_others b) in
  '(_, dirs) ← Lookup_all (dc_others s) (GetAllURLs (dc_others s));
  for_all_dirs relocate s dirs.

(** The id of the root, and whether this node is it. *)
Definition find_root (c : Configuration) (my_node : nodeid_t) : outcome (nodeid_t * bool) :=
  if default false (GetBool c (lit "dirman.host_root") (lit "false")).2 then Ok (my_node, true)
  else
    root ← parseConfigForRootNode c;
    Ok (root, bool_decide (root = my_node)).

(** The manager, and the files it wrote. *)
Definition DirManCoreCentralized (erange : bool) (c : Configuration) (my_node : nodeid_t)
    : outcome (DirManCore * list (str * str)) :=
  b ← DirManCoreBase erange c;
  '(_, write_root_filename) ← GetFilename getenv wordexp c (lit "dirman.write_root") [] [];
  '(root, am_root) ← find_root c my_node;
  written ← (if (am_root : bool) then write_root write_root_filename my_node else Ok []);
  let s := mkCore my_node root am_root (base_bucket b) ∅ (base_others b) in
  '(_, dirs) ← Lookup_all (dc_others s) (GetAllURLs (dc_others s));
  s ← for_all_dirs transplant s dirs;
  Ok (s, written).

(** * The service *)

Inductive manager := Static_ (s : DirManCore) | Centralized_ (s : DirManCore).

(** [None]: the core is the unconfigured one. *)
Record singleton := mkSingleton { core : option manager; dirman_service_none : bool }.
Definition unconfigured : singleton := mkSingleton None false.

Definition Init (erange : bool) (c : Configuration) (my_node : nodeid_t) (s : singleton) : outcome singleton :=
  match core s with
  | Some _ => Throw Exit
  | None =>
      let dirman_type := (GetLowercaseString c (lit "dirman.type") (lit "centralized")).2 in
      if dirman_type =s? lit "none" then Ok (mkSingleton (core s) true)
      else if dirman_type =s? lit "static" then
        m ← DirManCoreStatic erange c; Ok (mkSingleton (Some (Static_ m)) (dirman_service_none s))
      else if dirman_type =s? lit "centralized" then
        '(m, _) ← DirManCoreCentralized erange c my_node;
        Ok (mkSingleton (Some (Centralized_ m)) (dirman_service_none s))
      else Throw Exit
  end.

Definition Start (s : singleton) : outcome singleton :=
  if dirman_service_none s then Ok s
  else match core s with None => Throw Exit | Some _ => Ok s end.

Definition Finish (s : singleton) : singleton :=
  if dirman_service_none s then mkSingleton (core s) false
  else match core s with None => s | Some _ => mkSingleton None (dirman_service_none s) end.
End files.

(** * The last URL of a path is the one that counts *)

Definition keep (bucket0 : bucket_t) (u : ResourceURL) : ResourceURL :=
  if bool_decide (bucket u = Bucket.UNSPECIFIED) then with_bucket u bucket0 else u.

Definition candidates (p : str) (us : list ResourceURL) : list ResourceURL :=
  filter (λ u, IsReference u = false ∧ GetPathName u = p) us.

Lemma keep_path bucket0 u : GetPathName (keep bucket0 u) = GetPathName u.
Proof. unfold keep. by case_bool_decide. Qed.

Lemma consider_all_spec bucket0 texts us urls0 :
  Forall2 (λ text u, of_url text = Ok u) texts us →
  ∃ urls, consider_all bucket0 texts urls0 = Ok urls ∧
    ∀ p, urls !! p = match urls0 !! p with
                     | Some u => Some u
                     | None => keep bucket0 <$> head (candidates p us)
                     end.
Proof.
  intros Hus. revert urls0. induction Hus as [|text u texts us Hu _ IH]; intros urls0; cbn [consider_all].
  { exists urls0. split; [done|]. intros p. by destruct (urls0 !! p). }
  unfold consider. rewrite Hu. cbn [mbind outcome_bind]. fold (keep bucket0 u).
  destruct (IsReference u) eqn:Hr; cbn [mbind outcome_bind].
  { destruct (IH urls0) as (urls & -> & Hp). exists urls. split; [done|]. intros p. rewrite Hp.
    unfold candidates. by rewrite (filter_cons_False _ u us) by (intros [? _]; congruence). }
  rewrite keep_path. destruct (IH (match urls0 !! GetPathName u with
    | None => <[GetPathName u := keep bucket0 u]> urls0 | Some _ => urls0 end)) as (urls & Hc & Hp).
  exists urls. split; [done|]. intros p. rewrite Hp. clear Hp Hc.
  destruct (decide (GetPathName u = p)) as [<-|Hne].
  - unfold candidates at 2. rewrite filter_cons_True by done. cbn [head].
    destruct (urls0 !! GetPathName u) as [u0|] eqn:E; [by rewrite E|]. by rewrite lookup_insert_eq.
  - unfold candidates at 2. rewrite filter_cons_False by (by intros [_ ?]). fold (candidates p us).
    destruct (urls0 !! GetPathName u) as [u0|] eqn:E; [done|]. by rewrite lookup_insert_ne.
Qed.

Lemma head_reverse {A} (l : list A) : head (reverse l) = last l.
Proof. by rewrite <-(reverse_involutive l) at 2; rewrite last_reverse. Qed.

Lemma candidates_reverse p us : candidates p (reverse us) = reverse (candidates p us).
Proof.
  unfold candidates. induction us as [|u us IH]; [done|]. rewrite reverse_cons, filter_app, IH.
  rewrite (filter_cons _ u us). case_decide as H.
  - by rewrite reverse_cons, filter_cons_True by done.
  - by rewrite filter_cons_False, app_nil_r by done.
Qed.

(** Of the resources in the list that are not references, the last one of each path is taken, in
    the bucket of the node when it has none. *)
Theorem last_resource_wins bucket0 texts us :
  Forall2 (λ text u, of_url text = Ok u) texts us →
  ∃ urls, consider_all bucket0 (reverse texts) ∅ = Ok urls ∧
    ∀ p, urls !! p = keep bucket0 <$> last (candidates p us).
Proof.
  intros Hus. destruct (consider_all_spec bucket0 (reverse texts) (reverse us) ∅) as (urls & Hc & Hp).
  { by apply Forall2_reverse. }
  exists urls. split; [done|]. intros p. by rewrite Hp, lookup_empty, candidates_reverse, head_reverse.
Qed.

(** * A root serves the resources of its configuration *)

Lemma LeaveByName_leaf d nm : members d = [] → (LeaveByName d nm).2 = d.
Proof. intros Hm. unfold LeaveByName. rewrite Hm. by case_bool_decide. Qed.

(** Among entries without members, removing one removes just this one. *)
Lemma Remove_leaf c u :
  Valid u = true → map_Forall (λ _ d, members d = []) c →
  ∃ found, Remove c u = Some (Ok (found, delete (GetBucketPathName u) c)).
Proof.
  intros Hv Hc. unfold Remove. rewrite _lookup_valid by done. destruct (c !! GetBucketPathName u) as [d|] eqn:Hd.
  2:{ exists false. by rewrite delete_id. }
  assert (Hloop : remove_loop (remove_fuel c) c [u] = Some (Ok (delete (GetBucketPathName u) c))).
  { unfold remove_fuel. cbn [remove_loop last]. unfold _removeSingleDir. rewrite Hd, (Hc _ _ Hd). cbn.
    by destruct (total_members c). }
  destruct (path u =s? lit "/") eqn:Hp; cbn [negb]; [rewrite Hloop; by eexists|].
  destruct (GetParent_spec u Hv Hp) as (p & -> & Hvp & _). cbn [mbind outcome_bind].
  rewrite _lookup_valid by done. cbn [mbind outcome_bind].
  destruct (c !! GetBucketPathName p) as [pd|] eqn:Hpd; [|rewrite Hloop; by eexists].
  rewrite LeaveByName_leaf, insert_id, Hloop by (done || by apply (Hc _ _ Hpd)). by eexists.
Qed.

(** Entries under their own keys, valid ones only. *)
Definition own_keys (c : cache) : Prop :=
  map_Forall (λ k d, k = GetBucketPathName (di_url d) ∧ Valid (di_url d) = true) c.

Lemma add_predefined_own erange urls c c' :
  own_keys c → add_predefined erange urls c = Ok c' → own_keys c'.
Proof.
  revert c. induction urls as [|[p url] urls IH]; intros c Hc; cbn [add_predefined]; [by intros [= <-]|].
  intros (di & _ & H)%bind_Ok. destruct (_ && _); [done|]. apply bind_Ok in H as ([ok c1] & Hcr & H).
  apply (IH c1); [|done]. unfold Create, write in Hcr. destruct (Valid (di_url di)) eqn:Hv; cbn [negb] in Hcr.
  2:{ by injection Hcr as _ <-. }
  unfold _write in Hcr. rewrite _lookup_valid in Hcr by done. cbn [mbind outcome_bind negb] in Hcr.
  destruct (c !! GetBucketPathName (di_url di)); injection Hcr as _ <-; [done|].
  by apply map_Forall_insert_2.
Qed.

Lemma base_own_keys erange c b : DirManCoreBase erange c = Ok b → own_keys (base_others b).
Proof.
  unfold DirManCoreBase. intros (bucket0 & _ & H)%bind_Ok. apply bind_Ok in H as (others & Ho & H).
  injection H as <-. cbn [base_others]. unfold predefined in Ho. apply bind_Ok in Ho as (urls & _ & Ho).
  apply (add_predefined_own _ _ _ _ (map_Forall_empty _) Ho).
Qed.

Lemma Lookup_all_entries c l :
  (∀ k d, (k, d) ∈ l → c !! k = Some d ∧ k = GetBucketPathName (di_url d) ∧ findable (di_url d)) →
  Lookup_all c ((λ kd, di_url kd.2) <$> l) = Ok (true, l.*2).
Proof.
  induction l as [|[k d] l IH]; intros Hl; [done|]. cbn [fmap list_fmap Lookup_all snd].
  destruct (Hl k d) as (Hk & -> & Hv & Hr & _); [by left|]. rewrite Hr, _lookup_valid by done.
  cbn [mbind outcome_bind]. rewrite Hk. cbn [default]. fold (fmap (M := list) (λ kd : str * DirectoryInfo, di_url kd.2) l).
  rewrite IH by (intros k' d' Hin; apply Hl; by right). done.
Qed.

(** One turn of the loop of the constructor on a root, for an entry without members. *)
Lemma transplant_one s d :
  am_root s = true → findable (di_url d) → map_Forall (λ _ d, members d = []) (dc_others s) →
  ∃ c', transplant s d = Ok (with_others (with_mine s c') (delete (key (di_url d)) (dc_others s))) ∧
    cache_le (dc_mine s) c' ∧ is_Some (c' !! key (di_url d)).
Proof.
  intros Hr Hd Hm. unfold transplant. rewrite Hr. unfold Centralized.root_HostNewDir.
  destruct (findable_hosted s d Hd) as [Hfh Hkh].
  destruct (CreateAndLinkParents_total (dc_mine s) (Centralized.hosted s d)) as (ok & c' & Hc & Hle & Hok & Hs & Hn);
    [apply Hfh|]. fold (key (di_url (Centralized.hosted s d))) in Hok, Hn. rewrite Hkh in Hok, Hn.
  rewrite Hc. cbn [fuelled mbind outcome_bind with_mine dc_others].
  destruct (Remove_leaf (dc_others s) (di_url d)) as [found Hrem]; [apply Hd|done|].
  rewrite Hrem. cbn [fuelled mbind outcome_bind]. exists c'. split_and!; [done|done|]. destruct ok.
  - destruct (proj1 (Hn eq_refl) (key (di_url d)) (Centralized.hosted s d)) as (d' & Hd' & _);
      [apply lookup_insert_eq|by exists d'].
  - rewrite (Hs eq_refl). destruct (dc_mine s !! key (di_url d)); [by eexists|]. by pose proof (proj2 Hok eq_refl).
Qed.

Lemma transplant_all s dirs :
  am_root s = true → Forall (λ d, findable (di_url d)) dirs → map_Forall (λ _ d, members d = []) (dc_others s) →
  ∃ s', for_all_dirs transplant s dirs = Ok s' ∧ am_root s' = true ∧ root_id s' = root_id s ∧
    cache_le (dc_mine s) (dc_mine s') ∧ (∀ d, d ∈ dirs → is_Some (dc_mine s' !! key (di_url d))) ∧
    (∀ k, dc_others s' !! k = if decide (k ∈ key ∘ di_url <$> dirs) then None else dc_others s !! k).
Proof.
  intros Hr Hd. revert s Hr. induction Hd as [|d dirs Hd _ IH]; intros s Hr Hm; cbn [for_all_dirs].
  { exists s. split_and!; [done..|by intros d Hx%elem_of_nil|]. intros k. by rewrite decide_False by (by intros ?%elem_of_nil). }
  destruct (transplant_one s d Hr Hd Hm) as (c' & -> & Hle & Hknown). cbn [mbind outcome_bind].
  set (s1 := with_others _ _).
  destruct (IH s1) as (s' & -> & H1 & H2 & H5 & H6 & H7); [done|by apply map_Forall_delete|].
  exists s'. split_and!; [done..|by etrans| |].
  - intros d0 [->|Hin]%elem_of_cons; [|by apply H6]. destruct Hknown as [d1 Hd1].
    destruct (H5 _ _ Hd1) as (d2 & Hd2 & _). by exists d2.
  - intros k. rewrite H7. subst s1. cbn [with_others dc_others fmap list_fmap].
    destruct (decide (k ∈ key ∘ di_url <$> dirs)) as [Hin|Hin].
    + by rewrite decide_True by (by right).
    + destruct (decide (k = key (di_url d))) as [->|Hne].
      * rewrite decide_True by (by left). apply lookup_delete_eq.
      * rewrite decide_False by (intros [?|?]%elem_of_cons; done). by rewrite lookup_delete_ne.
Qed.

Section served.
Context (getenv : str → option str) (wordexp : str → Z → option (list str)).
Context (read_file : str → option str) (write_file : str → bool).

(** A node that is the root comes up with the resources of its configuration that have no members
    (those of the types that need none): they are its own, and every request for one finds it. *)
Theorem root_serves_predefined erange c n b rc :
  DirManCoreBase erange c = Ok b →
  GetFilename getenv wordexp c (lit "dirman.write_root") [] [] = Ok (rc, None) →
  find_root getenv wordexp read_file c n = Ok (n, true) →
  map_Forall (λ _ d, findable (di_url d) ∧ members d = []) (base_others b) →
  ∃ s, DirManCoreCentralized getenv wordexp read_file write_file erange c n = Ok (s, []) ∧
    am_root s = true ∧ root_id s = n ∧ dc_others s = ∅ ∧
    ∀ k d ri, base_others b !! k = Some d →
      ∃ d', Centralized.root_GetDirectoryInfo s (di_url d) (Some ri) = Ok (true, Some d').
Proof.
  intros Hb Hf Hroot Hall. unfold DirManCoreCentralized. rewrite Hb. cbn [mbind outcome_bind]. rewrite Hf.
  cbn [mbind outcome_bind]. rewrite Hroot. cbn [mbind outcome_bind write_root default dc_others].
  pose proof (base_own_keys _ _ _ Hb) as Hown. unfold GetAllURLs.
  rewrite (Lookup_all_entries (base_others b) (entries (base_others b))).
  2:{ intros k d Hkd%elem_of_entries. split; [done|]. split; [by apply (Hown k d)|by apply (Hall k d)]. }
  cbn [mbind outcome_bind]. set (s0 := mkCore _ _ _ _ _ _).
  destruct (transplant_all s0 (entries (base_others b)).*2) as (s & -> & H1 & H2 & H5 & H6 & H7).
  { done. }
  { apply Forall_forall. intros d ([k d'] & -> & Hkd%elem_of_entries)%list_elem_of_fmap. by apply (Hall k d'). }
  { intros k d Hd. by apply (Hall k d). }
  cbn [mbind outcome_bind]. exists s.
  assert (Hin : ∀ k d, base_others b !! k = Some d → d ∈ (entries (base_others b)).*2).
  { intros k d Hd. apply list_elem_of_fmap. exists (k, d). split; [done|]. by apply elem_of_entries. }
  split_and!; [done..| |].
  - apply map_empty. intros k. rewrite H7. case_decide as Hk; [done|].
    cbn [dc_others s0]. destruct (base_others b !! k) as [d|] eqn:Hd; [|done]. exfalso. apply Hk.
    rewrite (proj1 (Hown k d Hd)). apply (list_elem_of_fmap_2 (key ∘ di_url) _ d). by apply (Hin k).
  - intros k d ri Hd. destruct (Hall k d Hd) as [Hfd _]. destruct (H6 d (Hin k d Hd)) as [d' Hd'].
    destruct (findable_localize s (di_url d) false Hfd) as [Hl1 Hl2].
    exists d'. unfold Centralized.root_GetDirectoryInfo. cbn [fmap option_fmap option_map].
    rewrite (Lookup_known _ _ _ d') by (done || by rewrite Hl2). done.
Qed.

(** * Finding the root *)

Lemma first_line_app a b : newline ∉ a → first_line (a ++ [newline] ++ b) = a.
Proof.
  intros Ha. unfold first_line. induction a as [|x a IH]; [done|].
  apply not_elem_of_cons in Ha as [Hx Ha]. cbn [app break_at].
  rewrite bool_decide_eq_false_2 by congruence. specialize (IH Ha). cbn [app] in IH.
  destruct (break_at _ (a ++ newline :: b)) as [u v]. cbn in *. by rewrite IH.
Qed.

Lemma hex_no_newline n : NodeID.wf n → newline ∉ NodeID.GetHex n.
Proof.
  intros [Hn _] Hin. unfold NodeID.GetHex in Hin. apply elem_of_app in Hin as [Hin|Hin].
  { by apply (bool_decide_unpack (newline ∉ lit ("0x"))) in Hin. }
  pose proof (show_hex_chars (NodeID.nid n) Hn) as Hc. rewrite Forall_forall in Hc.
  specialize (Hc _ Hin). discriminate.
Qed.

(** A node whose configuration leads to the file in which a root left its id ([root_file], which
    [write_root] writes) finds this root, and
    takes itself for the root exactly when it is. *)
Theorem client_finds_root c f n me rc d :
  NodeID.wf n → NodeID.Valid n = true →
  GetString c (lit "dirman.root_node") [] = (ENOENT, d) →
  GetFilename getenv wordexp c (lit "dirman.root_node") (lit "FAODEL_DIRMAN_ROOT_NODE_FILE") [] = Ok (0%Z, Some f) →
  read_file (c_str f) = Some (root_file n) →
  GetBool c (lit "dirman.host_root") (lit "false") = (rc, Some false) →
  find_root getenv wordexp read_file c me = Ok (n, bool_decide (n = me)).
Proof.
  intros Hwf Hv Hs Hf Hr Hb. unfold find_root. rewrite Hb. cbn [snd default].
  unfold parseConfigForRootNode. rewrite Hs. cbn [Z.eqb]. change (ENOENT =? ENOENT)%Z with true. cbn iota.
  unfold root_from_file. rewrite Hf. cbn [mbind outcome_bind]. change (0 =? 0)%Z with true. cbn iota.
  change (default [] (Some f)) with f.
  rewrite Hr. unfold root_file. rewrite first_line_app by (by apply hex_no_newline).
  cbn [mbind outcome_bind]. rewrite NodeID_hex_ok by done. cbn [mbind outcome_bind]. rewrite Hv. done.
Qed.

(** * The service comes and goes *)

(** What was initialised can be started, and finishing it gives the service as it was, so that it
    can be initialised again; a second initialisation before that ends the process, unless the
    service is off. *)
Theorem service_cycle erange c n s :
  Init getenv wordexp read_file write_file erange c n unconfigured = Ok s →
  Start s = Ok s ∧ Finish s = unconfigured ∧
  (dirman_service_none s = false →
     Init getenv wordexp read_file write_file erange c n s = Throw Exit).
Proof.
  unfold Init at 1. cbn [core unconfigured dirman_service_none].
  case_bool_decide; [intros [= <-]; done|]. case_bool_decide.
  - intros (m & _ & Hs)%bind_Ok. injection Hs as <-. done.
  - case_bool_decide; [|done]. intros ([m w] & _ & Hs)%bind_Ok. injection Hs as <-. done.
Qed.
End served.

(** * Witnesses *)

(** A root with two resources, one of them defined twice. *)
Definition root_config : Configuration :=
  mkConfig (lit "default") (list_to_map [(lit "dirman.host_root", lit "true");
    (lit "dirman.resources.0", lit "local:[0x7]/a/b"); (lit "dirman.resources.1", lit "null:/c");
    (lit "dirman.resources.2", lit "trace:/a/b")]).

Definition no_env (_ : str) : option str := None.
Definition no_words (_ : str) (_ : Z) : option (list str) := None.

Definition root_base : base :=
  Eval vm_compute in
    match DirManCoreBase false root_config with Ok b => b | Throw _ => mkBase Bucket.UNSPECIFIED false ∅ end.

Lemma last_resource_witness :
  ∃ urls, consider_all (Bucket.mk 9) (reverse [lit "local:[0x7]/a/b"; lit "null:/c"; lit "trace:/a/b"]) ∅ = Ok urls ∧
    resource_type <$> urls !! lit "/a/b" = Some (lit "trace") ∧ bucket <$> urls !! lit "/a/b" = Some (Bucket.mk 9).
Proof.
  destruct (last_resource_wins (Bucket.mk 9) [lit "local:[0x7]/a/b"; lit "null:/c"; lit "trace:/a/b"]
    [mkURL (lit "local") (NodeID.mk 0) (Bucket.mk 7) (lit "/a") (lit "b") [];
     mkURL (lit "null") (NodeID.mk 0) (Bucket.mk 0) (lit "/") (lit "c") [];
     mkURL (lit "trace") (NodeID.mk 0) (Bucket.mk 0) (lit "/a") (lit "b") []]) as (urls & Hc & Hp).
  { repeat constructor. }
  exists urls. split; [exact Hc|]. rewrite Hp. vm_compute. done.
Defined.

Lemma root_serves_witness :
  ∃ s, DirManCoreCentralized no_env no_words no_env (λ _, true) false root_config (NodeID.mk 77) = Ok (s, []) ∧
    am_root s = true ∧ root_id s = NodeID.mk 77 ∧ dc_others s = ∅.
Proof.
  destruct (root_serves_predefined no_env no_words no_env (λ _, true) false root_config (NodeID.mk 77) root_base ENOENT)
    as (s & H1 & H2 & H3 & H4 & _).
  - vm_compute. reflexivity.
  - vm_compute. reflexivity.
  - vm_compute. reflexivity.
  - apply map_Forall_to_list. vm_compute. repeat constructor; discriminate.
  - exists s. exact (conj H1 (conj H2 (conj H3 H4))).
Defined.

Definition client_config : Configuration :=
  mkConfig (lit "default") {[ lit "dirman.root_node.file" := lit "/tmp/root" ]}.
Definition same_word (s : str) (_ : Z) : option (list str) := Some [s].
Definition shared_file (f : str) : option str :=
  if f =s? lit "/tmp/root" then Some (root_file (NodeID.mk 8533921)) else None.

Lemma client_finds_root_witness :
  find_root no_env same_word shared_file client_config (NodeID.mk 5) = Ok (NodeID.mk 8533921, false).
Proof.
  apply (client_finds_root no_env same_word shared_file client_config (lit "/tmp/root") (NodeID.mk 8533921)
    (NodeID.mk 5) ENOENT []); try (vm_compute; reflexivity). split; vm_compute; congruence.
Defined.

Lemma service_cycle_witness :
  ∃ s, Init no_env no_words no_env (λ _, true) false root_config (NodeID.mk 77) unconfigured = Ok s ∧
    Start s = Ok s ∧ Finish s = unconfigured.
Proof.
  destruct (Init no_env no_words no_env (λ _, true) false root_config (NodeID.mk 77) unconfigured) as [s|e] eqn:E.
  - exists s. destruct (service_cycle _ _ _ _ _ _ _ _ E) as (H1 & H2 & _). exact (conj eq_refl (conj H1 H2)).
  - exfalso. vm_compute in E. discriminate.
Defined.

(** Resources of one path in two buckets are taken for the same one: the first is dropped. *)
Example bucket_not_in_key :
  match consider_all (Bucket.mk 9) (reverse [lit "local:[0x7]/a/b"; lit "local:[0x8]/a/b"]) ∅ with
  | Ok urls => bucket <$> (entries urls).*2
  | Throw _ => []
  end = [Bucket.mk 8].
Proof. vm_compute. reflexivity. Qed.

(** The static manager does not know its own node: entries made from the configuration have no
    reference node, and neither has what it locates. *)
Example static_has_no_node :
  match DirManCoreStatic false root_config with
  | Ok s => (my_node s, (λ d, reference_node (di_url d)) <$> (entries (dc_others s)).*2)
  | Throw _ => (NodeID.mk 1, [])
  end = (NodeID.NODE_UNSPECIFIED, [NodeID.NODE_UNSPECIFIED; NodeID.NODE_UNSPECIFIED]).
Proof. vm_compute. reflexivity. Qed.
