(* ===== verification/MpiSync.v ===== *)
(** Starting the nodes of an MPI job together (src/src/faodel-services/MPISyncStart.cpp): the ranks
    agree on the root of the directory service and on the members of the resources that the
    configuration gives as ranks.

    What a rank does is a program that makes collective calls; a job is the list of the programs of
    its ranks, which go on together when all of them have reached the same call ([run]).  The
    collective calls of MPI are the class [Collectives].  The theorems lead up to
    [job_agrees_on_root] and [job_resources]: started this way, every node of the job finds the same
    root in its configuration (DirManConfig), and the resources name the nodes of their ranks. *)
From S2P Require Import Prelude StringHelpers Identifiers Configuration ResourceURL DirectoryInfo DirectoryCache DirManCore DirManConfig.

(** * Programs with collective calls *)

Inductive prog (A : Type) :=
| Ret (a : A)
| MPI_Barrier (k : prog A)
| MPI_Bcast (v : nodeid_t) (root : Z) (k : nodeid_t → prog A)
| MPI_Allgather (v : nodeid_t) (k : list nodeid_t → prog A).
Arguments Ret {A} a.
Arguments MPI_Barrier {A} k.
Arguments MPI_Bcast {A} v root k.
Arguments MPI_Allgather {A} v k.

Definition mpi (A : Type) : Type := prog (outcome A).

Fixpoint prog_bind {A B} (f : A → mpi B) (p : mpi A) : mpi B :=
  match p with
  | Ret (Ok a) => f a
  | Ret (Throw e) => Ret (Throw e)
  | MPI_Barrier k => MPI_Barrier (prog_bind f k)
  | MPI_Bcast v root k => MPI_Bcast v root (λ w, prog_bind f (k w))
  | MPI_Allgather v k => MPI_Allgather v (λ ws, prog_bind f (k ws))
  end.

#[global] Instance mpi_ret : MRet mpi := λ A a, Ret (Ok a).
#[global] Instance mpi_bind : MBind mpi := @prog_bind.

Definition lift {A} (o : outcome A) : mpi A := Ret o.
Definition barrier : mpi () := MPI_Barrier (Ret (Ok ())).
Definition bcast_id (v : nodeid_t) (root : Z) : mpi nodeid_t := MPI_Bcast v root (λ w, Ret (Ok w)).
Definition allgather_ids (v : nodeid_t) : mpi (list nodeid_t) := MPI_Allgather v (λ ws, Ret (Ok ws)).

(** * One rank *)

(** The order in which a [set<int>] is gone through. *)
Definition ascending (ids : gset Z) : list Z := merge_sort Z.le (elements ids).

(** Whether there is something to do, the rank of the root as it is written, and the resources. *)
Definition settings (c : Configuration) : bool * str * list str :=
  let enable := default false (GetBool c (lit "mpisyncstart.enable") (lit "false")).2 in
  let '(rc, dirman_root_mpi_string) := GetString c (lit "dirman.root_node_mpi") (lit "-1") in
  let dirman_resources_mpi := GetStringVector c (lit "dirman.resources_mpi") in
  (enable || negb (rc =? ENOENT)%Z || negb (bool_decide (dirman_resources_mpi = [])),
   dirman_root_mpi_string, dirman_resources_mpi).

(** The options that name the members; an id below zero reads in front of the array. *)
Fixpoint member_options (nodes : list nodeid_t) (i : Z) (ids : list Z) : outcome str :=
  match ids with
  | [] => Ok []
  | id :: ids =>
      match (if (id <? 0)%Z then None else nodes !! Z.to_nat id) with
      | None => Throw Undefined
      | Some node =>
          s ← member_options nodes (i + 1) ids;
          Ok (lit "&ag" ++ show_dec i ++ lit "=" ++ NodeID.GetHex node ++ s)
      end
  end.

Section rank.
Context (mpi_support initialized : bool) (mpi_size mpi_rank : Z) (my_id : nodeid_t).

(** The resource of a line ["url ranks"] with the nodes of the ranks as its members. *)
Definition resource_text (nodes : list nodeid_t) (line : str) : outcome str :=
  match Split line " "%char true with
  | url :: ((_ :: _) as tokens) =>
      ids ← ExtractIDs (Join tokens " "%char) mpi_size;
      match ascending ids with
      | [] => Throw RuntimeError
      | l =>
          s ← member_options nodes 0 l;
          Ok (url ++ lit "&num=" ++ show_dec (Z.of_nat (length l)) ++ s)
      end
  | _ => Throw RuntimeError
  end.

Fixpoint add_resources (nodes : list nodeid_t) (lines : list str) (c : Configuration)
    : outcome Configuration :=
  match lines with
  | [] => Ok c
  | line :: lines =>
      text ← resource_text nodes line;
      add_resources nodes lines (Append_pair c (lit "dirman.resources[]") text)
  end.

(** The rank of the root, -1 for none; the root is told that it is. *)
Definition root_rank (dirman_root_mpi_string : str) (c : Configuration) : outcome (Z * Configuration) :=
  if dirman_root_mpi_string =s? lit "-1" then Ok ((-1)%Z, c)
  else
    ids ← ExtractIDs dirman_root_mpi_string mpi_size;
    match ascending ids with
    | [dirman_root_mpi] =>
        if (dirman_root_mpi =? mpi_rank)%Z then
          c ← Append c (lit "dirman.host_root true"); Ok (dirman_root_mpi, c)
        else Ok (dirman_root_mpi, c)
    | _ => Throw AssertFailed
    end.

(** [needs_patch] and the configuration. *)
Definition InitAndModifyConfiguration (c : Configuration) : mpi (bool * Configuration) :=
  let '(needs_patch, dirman_root_mpi_string, dirman_resources_mpi) := settings c in
  if negb needs_patch then mret (false, c)
  else if negb mpi_support then lift (Throw InvalidArgument)
  else if negb initialized then lift (Throw RuntimeError)
  else
    let c := Append_pair c (lit "observed_mpi_info") (to_string mpi_rank ++ lit "/" ++ to_string mpi_size) in
    '(dirman_root_mpi, c) ← lift (root_rank dirman_root_mpi_string c);
    _ ← (if (dirman_root_mpi =? -1)%Z && bool_decide (dirman_resources_mpi = []) then barrier else mret ());
    c ← (if negb (dirman_root_mpi =? -1)%Z then
           _ ← lift (F_ASSERT (dirman_root_mpi <? mpi_size)%Z);
           root_node ← bcast_id my_id dirman_root_mpi;
           mret (Append_pair c (lit "dirman.root_node") (NodeID.GetHex root_node))
         else mret c);
    c ← (if negb (bool_decide (dirman_resources_mpi = [])) then
           nodes ← allgather_ids my_id;
           if (mpi_rank =? dirman_root_mpi)%Z then lift (add_resources nodes dirman_resources_mpi c)
           else mret c
         else mret c);
    mret (true, c).

Definition Start (needs_patch : bool) : mpi () :=
  if mpi_support && needs_patch then barrier else mret ().
End rank.

(** * The job *)

(** What the ranks get back from a call that all of them make, from what each of them gives. *)
Class Collectives := {
  bcast : Z → list nodeid_t → list nodeid_t;
  allgather : list nodeid_t → list (list nodeid_t)
}.

(** Everybody gets the value of the root; everybody gets the values of all, by rank. *)
Class CollectiveLaws `{Collectives} := {
  bcast_root root vs v :
    (0 ≤ root)%Z → vs !! Z.to_nat root = Some v → bcast root vs = replicate (length vs) v;
  allgather_all vs : allgather vs = replicate (length vs) vs
}.

Definition ret_of {A} (p : prog A) : option A := match p with Ret a => Some a | _ => None end.
Definition barrier_of {A} (p : prog A) : option (prog A) :=
  match p with MPI_Barrier k => Some k | _ => None end.
Definition bcast_of {A} (p : prog A) : option (nodeid_t * Z * (nodeid_t → prog A)) :=
  match p with MPI_Bcast v root k => Some (v, root, k) | _ => None end.
Definition allgather_of {A} (p : prog A) : option (nodeid_t * (list nodeid_t → prog A)) :=
  match p with MPI_Allgather v k => Some (v, k) | _ => None end.

(** The ranks together.  [None]: they have not all reached the same call, or more calls are made
    than there is fuel. *)
Fixpoint run `{Collectives} {A} (fuel : nat) (ps : list (prog A)) : option (list A) :=
  match mapM ret_of ps, fuel with
  | Some outs, _ => Some outs
  | None, 0 => None
  | None, S fuel =>
      match mapM barrier_of ps, mapM bcast_of ps, mapM allgather_of ps with
      | Some ks, _, _ => run fuel ks
      | _, Some (((_, root, _) :: _) as calls), _ =>
          if forallb (λ c, (c.1.2 =? root)%Z) calls
          then run fuel (zip_with (λ c w, c.2 w) calls (bcast root ((λ c, c.1.1) <$> calls)))
          else None
      | _, _, Some calls => run fuel (zip_with (λ c ws, c.2 ws) calls (allgather calls.*1))
      | _, _, _ => None
      end
  end.

(** The job starts: every rank with its id and its configuration. *)
Definition job (mpi_support initialized : bool) (ranks : list (nodeid_t * Configuration))
    : list (mpi (bool * Configuration)) :=
  imap (λ i r, InitAndModifyConfiguration mpi_support initialized (Z.of_nat (length ranks)) (Z.of_nat i) r.1 r.2)
    ranks.

(** * Calls that all ranks make *)

Lemma mapM_imap {X A B} (f : A → option B) (g : nat → X → A) (h : nat → X → B) l :
  (∀ i x, f (g i x) = Some (h i x)) → mapM f (imap g l) = Some (imap h l).
Proof.
  revert g h. induction l as [|x l IH]; intros g h Hf; [done|]. rewrite !imap_cons. cbn [mapM].
  rewrite Hf. cbn [mbind option_bind]. rewrite (IH (g ∘ S) (h ∘ S)) by (intros; apply Hf). done.
Qed.

Lemma mapM_imap_None {X A B} (f : A → option B) (g : nat → X → A) l :
  l ≠ [] → (∀ i x, f (g i x) = None) → mapM f (imap g l) = None.
Proof. intros Hl Hf. destruct l; [done|]. rewrite imap_cons. cbn [mapM]. by rewrite Hf. Qed.

Section calls.
Context `{CL : CollectiveLaws} {A X : Type}.

Lemma run_done fuel (g : nat → X → A) l : run fuel (imap (λ i x, Ret (g i x)) l) = Some (imap g l).
Proof. destruct fuel; cbn [run]; rewrite (mapM_imap ret_of _ g) by done; done. Qed.

Lemma run_barrier fuel (k : nat → X → prog A) l :
  l ≠ [] → run (S fuel) (imap (λ i x, MPI_Barrier (k i x)) l) = run fuel (imap k l).
Proof.
  intros Hl. cbn [run]. rewrite mapM_imap_None by done. rewrite (mapM_imap barrier_of _ k) by done. done.
Qed.

Lemma run_bcast fuel (v : nat → X → nodeid_t) root (k : nat → X → nodeid_t → prog A) l w :
  (0 ≤ root)%Z → imap v l !! Z.to_nat root = Some w →
  run (S fuel) (imap (λ i x, MPI_Bcast (v i x) root (k i x)) l) = run fuel (imap (λ i x, k i x w) l).
Proof.
  intros Hr Hw. assert (l ≠ []) as Hl by (by destruct l). cbn [run]. rewrite !mapM_imap_None by done.
  rewrite (mapM_imap bcast_of _ (λ i x, (v i x, root, k i x))) by done.
  set (calls := imap _ l).
  assert (match calls with [] => None | c :: _ => Some c.1.2 end = Some root) as Hc by (by destruct l).
  destruct calls as [|[[v0 r0] k0] calls0] eqn:Ec; [done|]. injection Hc as ->. rewrite <-Ec. subst calls.
  rewrite (proj2 (forallb_forall _ _)).
  2:{ intros c Hin%list_elem_of_In. apply elem_of_lookup_imap in Hin as (i & x & -> & _). cbn. apply Z.eqb_refl. }
  rewrite (bcast_root root _ w) by (done || by rewrite fmap_imap).
  f_equal. rewrite length_fmap, zip_with_replicate_r_eq by done. by rewrite fmap_imap.
Qed.

Lemma run_allgather fuel (v : nat → X → nodeid_t) (k : nat → X → list nodeid_t → prog A) l :
  l ≠ [] →
  run (S fuel) (imap (λ i x, MPI_Allgather (v i x) (k i x)) l) = run fuel (imap (λ i x, k i x (imap v l)) l).
Proof.
  intros Hl. cbn [run]. rewrite !mapM_imap_None by done.
  rewrite (mapM_imap allgather_of _ (λ i x, (v i x, k i x))) by done.
  f_equal. rewrite allgather_all, length_fmap, zip_with_replicate_r_eq by done. by rewrite !fmap_imap.
Qed.
End calls.

(** * What the ranks end up with *)

Lemma Append_host_root c : Append c (lit "dirman.host_root true") = Ok (Set_ c (lit "dirman.host_root") (lit "true")).
Proof.
  unfold Append, addConfigToMap.
  assert (getlines (lit "dirman.host_root true") "010"%char = [lit "dirman.host_root true"]) as ->
    by (vm_compute; reflexivity).
  cbn [add_lines]. unfold add_line.
  assert (tokenizeLine (lit "dirman.host_root true") = Ok [lit "dirman.host_root"; lit "true"]) as ->
    by (vm_compute; reflexivity).
  done.
Qed.

Lemma add_resources_all n nodes lines texts c :
  Forall2 (λ line text, resource_text n nodes line = Ok text) lines texts →
  add_resources n nodes lines c = Ok (append_vector c (lit "dirman.resources") texts).
Proof.
  intros Hl. revert c. induction Hl as [|line text lines texts Ht _ IH]; intros c; [done|].
  cbn [add_resources]. rewrite Ht. cbn [mbind outcome_bind]. apply IH.
Qed.

Section job.
Context (ranks : list (nodeid_t * Configuration)).
Let n := Z.of_nat (length ranks).

(** The configurations of the ranks agree on the rank [r] of the root and on the resources. *)
Record agreed (s : str) (r : nat) (resources : list str) : Prop := {
  root_given : s ≠ lit "-1";
  root_is : ExtractIDs s n = Ok {[Z.of_nat r]};
  root_in : r < length ranks;
  all_agree : Forall (λ x, GetString x.2 (lit "dirman.root_node_mpi") (lit "-1") = (0%Z, s) ∧
                          GetStringVector x.2 (lit "dirman.resources_mpi") = resources) ranks
}.

(** The configuration of a rank after it has looked at the rank of the root, after it was told the
    id of the root, and at the end. *)
Definition rank_info (i : nat) (c : Configuration) : Configuration :=
  Set_ c (lit "observed_mpi_info") (to_string (Z.of_nat i) ++ lit "/" ++ to_string n).
Definition rank_told (r i : nat) (c : Configuration) : Configuration :=
  if decide (i = r) then Set_ (rank_info i c) (lit "dirman.host_root") (lit "true") else rank_info i c.
Definition rank_root (r : nat) (root_id : nodeid_t) (i : nat) (c : Configuration) : Configuration :=
  Set_ (rank_told r i c) (lit "dirman.root_node") (NodeID.GetHex root_id).
Definition rank_config (r : nat) (root_id : nodeid_t) (texts : list str) (i : nat) (c : Configuration)
    : Configuration :=
  if decide (i = r) then append_vector (rank_root r root_id i c) (lit "dirman.resources") texts
  else rank_root r root_id i c.

Lemma ascending_singleton z : ascending {[z]} = [z].
Proof. unfold ascending. by rewrite elements_singleton. Qed.

Lemma root_rank_agreed s r i c :
  s ≠ lit "-1" → ExtractIDs s n = Ok {[Z.of_nat r]} →
  root_rank n (Z.of_nat i) s (rank_info i c) = Ok (Z.of_nat r, rank_told r i c).
Proof.
  intros Hs Hr. unfold root_rank. rewrite bool_decide_eq_false_2, Hr by done. cbn [mbind outcome_bind].
  rewrite ascending_singleton. unfold rank_told. destruct (Z.eqb_spec (Z.of_nat r) (Z.of_nat i)) as [E|E].
  - apply Nat2Z.inj in E as ->. by rewrite decide_True, Append_host_root by done.
  - by rewrite decide_False by congruence.
Qed.

(** What a rank does once it knows the root, and the calls it makes. *)
Definition rank_rest (r : nat) (resources : list str) (i : nat) (x : nodeid_t * Configuration) (w : nodeid_t)
    : mpi (bool * Configuration) :=
  if decide (resources = []) then Ret (Ok (true, rank_root r w i x.2))
  else MPI_Allgather x.1 (λ nodes,
    if decide (i = r) then prog_bind (λ c, Ret (Ok (true, c))) (Ret (add_resources n nodes resources (rank_root r w i x.2)))
    else Ret (Ok (true, rank_root r w i x.2))).

Lemma rank_calls s r resources i x :
  agreed s r resources → ranks !! i = Some x →
  InitAndModifyConfiguration true true n (Z.of_nat i) x.1 x.2 =
  MPI_Bcast x.1 (Z.of_nat r) (rank_rest r resources i x).
Proof.
  intros [Hs Hr Hin Hall] Hx. rewrite Forall_lookup in Hall. destruct (Hall i x Hx) as [Hg Hv].
  unfold InitAndModifyConfiguration, settings. rewrite Hg, Hv. change (0 =? ENOENT)%Z with false.
  cbn [negb]. rewrite orb_true_r. cbn [orb negb].
  change (Append_pair x.2 _ _) with (rank_info i x.2).
  rewrite (root_rank_agreed s r) by done. unfold mbind, mpi_bind. cbn [prog_bind lift].
  assert ((Z.of_nat r =? -1)%Z = false ∧ (Z.of_nat r <? n)%Z = true) as [E1 E2] by (split; lia).
  rewrite E1, E2. cbn [andb negb prog_bind mret mpi_ret F_ASSERT lift bcast_id].
  unfold rank_rest. destruct (decide (resources = [])) as [->|Hne]; [done|].
  rewrite (bool_decide_eq_false_2 (resources = [])) by done. cbn [negb].
  destruct (Z.eqb_spec (Z.of_nat i) (Z.of_nat r)), (decide (i = r)); [done|lia|lia|done].
Qed.

Context `{CL : CollectiveLaws}.

(** The job comes to its end, and the configuration of each rank is [rank_config]. *)
Lemma job_runs s r resources texts root_id :
  agreed s r resources → ranks.*1 !! r = Some root_id →
  Forall2 (λ line text, resource_text n ranks.*1 line = Ok text) resources texts →
  run 2 (job true true ranks) = Some (imap (λ i x, Ok (true, rank_config r root_id texts i x.2)) ranks).
Proof.
  intros Hag Hroot Htexts. assert (ranks ≠ []) as Hne.
  { intros E. destruct Hag as [_ _ Hin _]. rewrite E in Hin. cbn in Hin. lia. }
  unfold job. fold n. rewrite (imap_ext _ (λ i x, MPI_Bcast x.1 (Z.of_nat r) (rank_rest r resources i x)))
    by (intros; by apply (rank_calls s r resources)).
  assert (imap (λ (_ : nat) (x : nodeid_t * Configuration), x.1) ranks = ranks.*1) as Hids.
  { clear. generalize ranks. intros l. induction l as [|x l IH]; [done|]. rewrite imap_cons. cbn. by f_equal. }
  rewrite (run_bcast 1 (λ _ x, x.1) _ _ _ root_id) by (lia || rewrite Nat2Z.id, Hids; done).
  unfold rank_rest. destruct (decide (resources = [])) as [->|Hr].
  - inversion Htexts; subst. rewrite run_done. f_equal. apply imap_ext. intros i x _.
    unfold rank_config. by destruct (decide (i = r)).
  - rewrite run_allgather by done. rewrite Hids. erewrite imap_ext; [apply run_done|]. intros i x _.
    unfold rank_config. destruct (decide (i = r)); [|done].
    by rewrite (add_resources_all _ _ _ texts).
Qed.
End job.

(** * Reading other settings *)

Lemma first_match_insert_ne m k v names : k ∉ names → first_match (<[k := v]> m) names = first_match m names.
Proof.
  induction names as [|nm names IH]; intros Hk; [done|]. apply not_elem_of_cons in Hk as [Hn Hk].
  cbn [first_match]. by rewrite lookup_insert_ne, IH by done.
Qed.

(** All names that are looked up for a setting end as its own does. *)
Lemma search_list_last c m k : m ≠ [] → k ∈ search_list c m → last k = last m.
Proof.
  intros Hm Hk. assert (∀ a : str, last (a ++ m) = last m) as Ha.
  { intros a. rewrite last_app. destruct (last m) eqn:E; [done|]. by apply last_None in E. }
  unfold search_list in Hk. rewrite !elem_of_cons in Hk. destruct Hk as [->|[->|[->|[]%elem_of_nil]]].
  - by rewrite app_assoc.
  - apply Ha.
  - done.
Qed.

Lemma GetString_insert c k v m d :
  m ≠ [] → last k ≠ last (ToLowercase m) →
  GetString (mkConfig (node_role c) (<[k := v]> (config_map c))) m d = GetString c m d.
Proof.
  intros Hm Hl. unfold GetString, findBestMatch. cbn [config_map]. rewrite first_match_insert_ne; [done|].
  intros Hk. apply Hl. apply (search_list_last (mkConfig (node_role c) ∅)); [by destruct m|done].
Qed.

Lemma Set_names c nm v :
  plain (ToLowercase nm) = true → (nm =s? lit "node_role") = false →
  Set_ c nm v = mkConfig (node_role c) (<[ToLowercase nm := v]> (config_map c)).
Proof. intros Hp Hr. by rewrite Set_plain, Hr. Qed.

Lemma GetString_found c nm v d :
  plain (ToLowercase nm) = true → (nm =s? lit "node_role") = false → Contains c nm = false →
  GetString (Set_ c nm v) nm d = (0%Z, v).
Proof.
  intros Hp Hr Hc. rewrite GetString_Set by done. rewrite Set_names by done. cbn [node_role].
  unfold Contains, GetString, findBestMatch, search_list in Hc. cbn [first_match] in Hc.
  destruct (config_map c !! (node_role c ++ _)); [done|].
  by destruct (config_map c !! (lit "default." ++ _)).
Qed.

Lemma Contains_GetString c nm d : Contains c nm = false → GetString c nm d = (ENOENT, d).
Proof. unfold Contains, GetString, findBestMatch. by destruct (first_match _ _). Qed.

Lemma last_index nm k : (0 ≤ k)%Z → ∃ ch, last (nm ++ lit "." ++ to_string k) = Some ch ∧ isdigit ch = true.
Proof.
  intros Hk. unfold to_string. replace (k <? 0)%Z with false by lia.
  destruct (last_show_dec k Hk) as (ch & Hch & Hd). exists ch. split; [|done].
  rewrite app_assoc, last_app. by rewrite Hch.
Qed.

(** Values appended to a vector are not seen under a name that does not end in a digit. *)
Lemma GetString_append_vector c nm vals m d :
  nm ≠ [] → m ≠ [] → (∀ ch, last (ToLowercase m) = Some ch → isdigit ch = false) →
  GetString (append_vector c nm vals) m d = GetString c m d.
Proof.
  intros Hn Hm Hd. revert c. induction vals as [|v vals IH]; intros c; [done|].
  change (append_vector c nm (v :: vals)) with (append_vector (Set_ c (nm ++ lit "[]") v) nm vals).
  rewrite IH, Set_vector by done. apply GetString_insert; [done|].
  destruct (last_index (ToLowercase nm) (Z.of_nat (length (GetStringVector c nm)))) as (ch & -> & Hch); [lia|].
  intros E. specialize (Hd ch (eq_sym E)). congruence.
Qed.

(** * The job agrees on its root *)

Section agreement.
Context `{CL : CollectiveLaws} (ranks : list (nodeid_t * Configuration)).
Context (getenv : str → option str) (wordexp : str → Z → option (list str)) (read_file : str → option str).

(** Nothing is said about the root except its rank. *)
Definition root_open (c : Configuration) : Prop :=
  Contains c (lit "dirman.host_root") = false ∧ Contains c (lit "dirman.root_node") = false.

Lemma GetString_Set_ne c nm v m d :
  plain (ToLowercase nm) = true → (nm =s? lit "node_role") = false → m ≠ [] →
  last (ToLowercase nm) ≠ last (ToLowercase m) → GetString (Set_ c nm v) m d = GetString c m d.
Proof. intros Hp Hr Hm Hl. rewrite Set_names by done. by apply GetString_insert. Qed.

Lemma Contains_Set_ne c nm v m :
  plain (ToLowercase nm) = true → (nm =s? lit "node_role") = false → m ≠ [] →
  last (ToLowercase nm) ≠ last (ToLowercase m) → Contains (Set_ c nm v) m = Contains c m.
Proof. intros. unfold Contains. by rewrite GetString_Set_ne. Qed.

Lemma rank_config_GetString r root_id texts i c m d :
  m ≠ [] → (∀ ch, last (ToLowercase m) = Some ch → isdigit ch = false) →
  GetString (rank_config ranks r root_id texts i c) m d = GetString (rank_root ranks r root_id i c) m d.
Proof. intros Hm Hd. unfold rank_config. destruct (decide (i = r)); [by apply GetString_append_vector|done]. Qed.

Lemma rank_host_root r root_id texts i c d :
  root_open c →
  GetString (rank_config ranks r root_id texts i c) (lit "dirman.host_root") d =
  if decide (i = r) then (0%Z, lit "true") else (ENOENT, d).
Proof.
  intros [Hh _]. rewrite rank_config_GetString by (done || by intros ch [= <-]). unfold rank_root.
  rewrite GetString_Set_ne by done. unfold rank_told.
  assert (Contains (rank_info ranks i c) (lit "dirman.host_root") = false) as Hc
    by (unfold rank_info; by rewrite Contains_Set_ne).
  destruct (decide (i = r)); [by apply GetString_found|by apply Contains_GetString].
Qed.

Lemma rank_root_node r root_id texts i c d :
  root_open c →
  GetString (rank_config ranks r root_id texts i c) (lit "dirman.root_node") d = (0%Z, NodeID.GetHex root_id).
Proof.
  intros [_ Hn]. rewrite rank_config_GetString by (done || by intros ch [= <-]). apply GetString_found; [done|done|].
  unfold rank_told, rank_info. destruct (decide (i = r)); by rewrite !Contains_Set_ne.
Qed.

Lemma rank_find_root r root_id texts i id c :
  root_open c → NodeID.wf root_id → NodeID.Valid root_id = true → (i = r → id = root_id) →
  find_root getenv wordexp read_file (rank_config ranks r root_id texts i c) id =
    Ok (root_id, bool_decide (id = root_id)).
Proof.
  intros Ho Hwf Hv Hid. unfold find_root, GetBool. fold (GetString (rank_config ranks r root_id texts i c)).
  change findBestMatch with GetString. rewrite rank_host_root by done.
  destruct (decide (i = r)) as [Hi|Hi].
  - rewrite (Hid Hi), bool_decide_eq_true_2 by done. done.
  - change (StringToBoolean (lit "false")) with (0%Z, Some false). cbn [snd default].
    unfold parseConfigForRootNode. rewrite rank_root_node by done. cbn [mbind outcome_bind].
    change (0 =? ENOENT)%Z with false. cbn iota. cbn [mbind outcome_bind].
    rewrite NodeID_hex_ok by done. cbn [mbind outcome_bind]. rewrite Hv. cbn [negb mbind outcome_bind].
    do 2 f_equal. by apply bool_decide_ext.
Qed.

(** C27: The ranks of a job, with distinct ids, whose configurations agree on the rank of the root and
    on resources whose lines can be read, and say nothing else about the root, come to the end of
    their start together, and then each of them finds the same root, the node of that rank; that
    node, and no other, takes itself for it. *)
Theorem job_agrees_on_root s r resources texts root_id :
  agreed ranks s r resources → ranks.*1 !! r = Some root_id →
  NodeID.wf root_id → NodeID.Valid root_id = true → NoDup ranks.*1 →
  Forall (λ x, root_open x.2) ranks →
  Forall2 (λ line text, resource_text (Z.of_nat (length ranks)) ranks.*1 line = Ok text) resources texts →
  ∃ cs, run 2 (job true true ranks) = Some ((λ c, Ok (true, c)) <$> cs) ∧ length cs = length ranks ∧
    ∀ i id c, ranks.*1 !! i = Some id → cs !! i = Some c →
      find_root getenv wordexp read_file c id = Ok (root_id, bool_decide (i = r)).
Proof.
  intros Hag Hroot Hwf Hv Hnd Hopen Htexts.
  exists (imap (λ i x, rank_config ranks r root_id texts i x.2) ranks).
  rewrite (job_runs ranks s r resources texts root_id), fmap_imap by done.
  split; [done|]. split; [apply length_imap|]. intros i id c Hid Hc.
  rewrite list_lookup_imap in Hc. rewrite list_lookup_fmap in Hid.
  destruct (ranks !! i) as [x|] eqn:Hx; [|done]. cbn in Hid, Hc.
  assert (x.1 = id) as Hxid by congruence. assert (rank_config ranks r root_id texts i x.2 = c) as <- by congruence.
  rewrite Forall_lookup in Hopen. rewrite rank_find_root; [|by apply (Hopen i)|done|done|].
  - do 2 f_equal. apply bool_decide_ext. split; [|intros ->].
    + intros E. apply (NoDup_lookup ranks.*1 i r root_id); [done| |done].
      by rewrite list_lookup_fmap, Hx, <-E, <-Hxid.
    + rewrite list_lookup_fmap, Hx in Hroot. cbn in Hroot. congruence.
  - intros ->. rewrite list_lookup_fmap, Hx in Hroot. cbn in Hroot. congruence.
Qed.
End agreement.

(** * Resources given by ranks *)

Lemma break_at_more {A} (p : A → bool) l l' a x r :
  break_at p l = (a, Some (x, r)) → break_at p (l ++ l') = (a, Some (x, r ++ l')) ∧ l = a ++ x :: r.
Proof.
  intros E. pose proof (break_at_spec p l) as Hs. rewrite E in Hs. destruct Hs as (-> & Hx & Ha).
  split; [|done]. rewrite <-app_assoc. by apply break_at_app.
Qed.

(** A URL without options, and options behind it. *)
Lemma parse_options f' f st t p p' o :
  "&"%char ∉ t → parse_loop f' st t p = Some (Ok p') → f' ≤ f →
  parse_loop f st (t ++ "&"%char :: o) p =
    Some (Ok (mkParts (tmp_type p') (tmp_bucket p') (tmp_nodeid p') (tmp_path_and_name p') o)).
Proof.
  revert f st t p. induction f' as [|f' IH]; intros f st t p Ht Hp Hf; [done|].
  destruct f as [|f]; [lia|]. destruct t as [|c t]; [by injection Hp as <-|].
  assert (Hmore : ∀ q u a x b, u `suffix_of` c :: t → break_at q u = (a, Some (x, b)) →
    break_at q (u ++ "&"%char :: o) = (a, Some (x, b ++ "&"%char :: o)) ∧ "&"%char ∉ b).
  { intros q u a x b [w Hu] E. apply (break_at_more _ _ ("&"%char :: o)) in E as [E ->]. split; [done|].
    rewrite Hu in Ht. set_solver. }
  assert (t `suffix_of` c :: t) as Hs by (by exists [c]).
  apply not_elem_of_cons in Ht as [Hne Ht]. cbn [app parse_loop] in Hp |- *.
  destruct (c =c? "["%char).
  { destruct (break_at is_delim t) as [b [[d after]|]] eqn:E; [|done].
    destruct (Hmore _ _ _ _ _ Hs E) as [-> ?]. destruct (d =c? "]"%char); [|done]. apply IH; [done|done|lia]. }
  destruct (c =c? "<"%char).
  { destruct (break_at _ t) as [b [[d after]|]] eqn:E; [|done].
    destruct (Hmore _ _ _ _ _ Hs E) as [-> ?]. apply IH; [done|done|lia]. }
  destruct (c =c? "/"%char).
  { rewrite break_at_none in Hp by (apply Forall_forall; intros x Hx; apply bool_decide_eq_false_2; congruence).
    rewrite break_at_app by (done || apply Forall_forall; intros x Hx; apply bool_decide_eq_false_2; congruence).
    apply (IH f false []) in Hp; [done|by apply not_elem_of_nil|lia]. }
  rewrite (bool_decide_eq_false_2 (c = "&"%char)) in Hp |- * by congruence. destruct (negb st); [done|].
  destruct (c =c? ":"%char); [apply IH; [done|done|lia]|].
  destruct (break_at is_delim (c :: t)) as [b [[d after]|]] eqn:E; [|done].
  destruct (Hmore _ _ _ _ _ (reflexivity _) E) as [E' ?]. cbn [app] in E'. rewrite E'.
  destruct (d =c? ":"%char); [|done]. apply IH; [done|done|lia].
Qed.

Lemma of_url_options t u o :
  "&"%char ∉ t → of_url t = Ok u → of_url (t ++ "&"%char :: o) = Ok (with_options u o).
Proof.
  intros Ht Hu. unfold of_url, ParseURL in *.
  destruct (parse_loop _ _ t _) as [[p'|]|] eqn:Hp; [|done|done].
  rewrite (parse_options _ _ _ _ _ _ o Ht Hp) by (rewrite length_app; lia).
  cbn [tmp_type tmp_bucket tmp_nodeid tmp_path_and_name tmp_options].
  destruct (split_path_name _ _) as [[q nm]|]; [|done]. cbn [mbind outcome_bind] in Hu |- *.
  apply bind_Ok in Hu as (bkt & -> & Hu). cbn [mbind outcome_bind]. apply bind_Ok in Hu as (node & -> & Hu).
  cbn [mbind outcome_bind]. by injection Hu as <-.
Qed.

(** The options that name the nodes of the ranks, and the members they become. *)
Definition ag_op (i : Z) (nd : nodeid_t) : str := (lit "ag" ++ show_dec i) ++ lit "=" ++ NodeID.GetHex nd.
Fixpoint ag_ops (i : Z) (nds : list nodeid_t) : list str :=
  match nds with [] => [] | nd :: nds => ag_op i nd :: ag_ops (i + 1) nds end.
Fixpoint ag_members (i : Z) (nds : list nodeid_t) : list NameAndNode :=
  match nds with [] => [] | nd :: nds => mkNameAndNode (lit "ag" ++ show_dec i) nd :: ag_members (i + 1) nds end.

Definition of_ranks (nodes : list nodeid_t) (ids : list Z) (nds : list nodeid_t) : Prop :=
  Forall2 (λ id nd, (0 ≤ id)%Z ∧ nodes !! Z.to_nat id = Some nd) ids nds.

Lemma member_options_ops nodes i ids s :
  member_options nodes i ids = Ok s →
  ∃ nds, of_ranks nodes ids nds ∧ s = ag_ops i nds ≫= λ op, "&"%char :: op.
Proof.
  revert i s. induction ids as [|id ids IH]; intros i s; cbn [member_options].
  { intros [= <-]. exists []. split; [constructor|done]. }
  destruct (Z.ltb_spec id 0) as [|Hid]; [done|]. destruct (nodes !! Z.to_nat id) as [nd|] eqn:Hn; [|done].
  intros (s' & Hs' & E)%bind_Ok. destruct (IH _ _ Hs') as (nds & Hnds & ->). injection E as <-.
  exists (nd :: nds). split; [by constructor|]. cbn [ag_ops mbind list_bind]. unfold ag_op. cbn. by rewrite <-!app_assoc.
Qed.

Lemma join_ops (op : str) ops : Join (op :: ops) "&"%char = op ++ (ops ≫= λ op, "&"%char :: op).
Proof.
  revert op. induction ops as [|op' ops IH]; intros op; [cbn; by rewrite !app_nil_r|].
  change (Join (op :: op' :: ops) "&"%char) with (op ++ "&"%char :: Join (op' :: ops) "&"%char). by rewrite IH.
Qed.

(** The characters options are made with. *)
Definition opt_sep (ch : ascii) : Prop := ch = "&"%char ∨ ch = "="%char.

Lemma GetHex_no_sep nd ch : NodeID.wf nd → opt_sep ch → no_sep ch (NodeID.GetHex nd).
Proof.
  intros [Hn _] Hch Hin. unfold NodeID.GetHex in Hin. apply elem_of_app in Hin as [Hin|Hin].
  - destruct Hch as [->| ->]; by apply (bool_decide_unpack (_ ∉ lit "0x")) in Hin.
  - pose proof (show_hex_chars (NodeID.nid nd) Hn) as Hc. rewrite Forall_forall in Hc. specialize (Hc _ Hin).
    destruct Hch as [->| ->]; discriminate.
Qed.

Lemma ag_name_no_sep i ch : (0 ≤ i)%Z → opt_sep ch → no_sep ch (lit "ag" ++ show_dec i).
Proof.
  intros Hi Hch Hin. apply elem_of_app in Hin as [Hin|Hin].
  - destruct Hch as [->| ->]; by apply (bool_decide_unpack (_ ∉ lit "ag")) in Hin.
  - destruct Hch as [->| ->]; by apply show_dec_no_sep in Hin.
Qed.

Lemma ag_op_ok i nd : (0 ≤ i)%Z → NodeID.wf nd → op_ok (ag_op i nd).
Proof.
  intros Hi Hn. split; [|done]. unfold ag_op, no_sep. rewrite !elem_of_app. assert (opt_sep "&"%char) as Hs by (by left).
  intros [Hin|[Hin|Hin]].
  - apply (ag_name_no_sep i "&"%char Hi Hs), elem_of_app. done.
  - by apply (bool_decide_unpack ("&"%char ∉ lit "=")) in Hin.
  - by apply (GetHex_no_sep nd "&"%char Hn Hs).
Qed.

Lemma ag_ops_ok i nds : (0 ≤ i)%Z → Forall NodeID.wf nds → Forall op_ok (ag_ops i nds).
Proof.
  intros Hi Hn. revert i Hi. induction Hn as [|nd nds Hnd _ IH]; intros i Hi; [constructor|].
  constructor; [by apply ag_op_ok|apply IH; lia].
Qed.

Lemma ag_ops_other nm i nds :
  no_sep "="%char nm → (0 ≤ i)%Z → (∀ j, (i ≤ j)%Z → nm ≠ lit "ag" ++ show_dec j) →
  Forall (λ op, op_matches (nm ++ lit "=") op = false) (ag_ops i nds).
Proof.
  intros Hs Hi Hne. revert i Hi Hne. induction nds as [|nd nds IH]; intros i Hi Hne; [constructor|].
  constructor; [|apply IH; [lia|intros j ?; apply Hne; lia]].
  unfold ag_op. rewrite app_assoc. apply op_matches_other; [|by apply ag_name_no_sep; [|right]|done].
  intros E. by apply (Hne i).
Qed.

(** Options, as a list: reading one and taking one out. *)
Lemma GetOption_ops u ops nm d :
  Forall op_ok ops → GetOption (with_options u (Join ops "&"%char)) nm d = default d (find_op (nm ++ lit "=") ops).
Proof. intros Ho. unfold GetOption. cbn [options with_options]. by rewrite Split_Join_ops. Qed.

Lemma RemoveOption_ops u ops nm :
  Forall op_ok ops →
  (RemoveOption (with_options u (Join ops "&"%char)) nm).1 =
    with_options u (Join (filter (λ op, op_matches (nm ++ lit "=") op = false) ops) "&"%char).
Proof.
  intros Ho. unfold RemoveOption. cbn [options with_options]. rewrite Split_Join_ops by done.
  rewrite <-(remove_ops_spec _ _ []). by destruct (remove_ops _ _ _).
Qed.

Lemma filter_all {B} (P : B → Prop) `{!∀ x, Decision (P x)} (l : list B) : Forall P l → filter P l = l.
Proof. induction 1 as [|x l Hx _ IH]; [done|]. by rewrite filter_cons_True, IH. Qed.

Lemma extract_ag i nds u :
  (0 ≤ i)%Z → Forall NodeID.wf nds →
  extract_members (length nds) i (with_options u (Join (ag_ops i nds) "&"%char)) =
    Ok (ag_members i nds, with_options u []).
Proof.
  intros Hi Hn. revert i Hi. induction Hn as [|nd nds Hnd Hn IH]; intros i Hi; [done|].
  assert (Forall op_ok (ag_ops i (nd :: nds))) as Hok by (apply ag_ops_ok; [done|by constructor]).
  cbn [length extract_members]. rewrite GetOption_ops, RemoveOption_ops by done. cbn [ag_ops find_op].
  assert (op_matches ((lit "ag" ++ show_dec i) ++ lit "=") (ag_op i nd) = true) as Hm.
  { apply op_matches_spec. exists (NodeID.GetHex nd). unfold ag_op. by rewrite <-!app_assoc. }
  rewrite Hm. rewrite filter_cons_False by congruence.
  rewrite filter_all.
  2:{ apply ag_ops_other; [by apply ag_name_no_sep; [|right]|lia|].
      intros j Hj E. apply app_inv_head in E. apply (show_base_inj 10) in E; lia. }
  assert (drop (length ((lit "ag" ++ show_dec i) ++ lit "=")) (ag_op i nd) = NodeID.GetHex nd) as ->
    by (unfold ag_op; by rewrite app_assoc, drop_app_length).
  cbn [default id].
  rewrite (bool_decide_eq_false_2 (NodeID.GetHex nd = [])) by done. cbn [negb]. rewrite NodeID_hex_ok by done.
  cbn [mbind outcome_bind]. rewrite IH by lia. done.
Qed.

(** The entry of a resource that was given by ranks: its members are the nodes of these ranks. *)
Lemma resource_members erange t u nds :
  "&"%char ∉ t → of_url t = Ok u → options u = [] → Forall NodeID.wf nds →
  (Z.of_nat (length nds) ≤ LONG_MAX)%Z →
  ∃ u', of_url (t ++ lit "&num=" ++ show_dec (Z.of_nat (length nds)) ++ (ag_ops 0 nds ≫= λ op, "&"%char :: op)) = Ok u' ∧
    of_resource_url erange u' = Ok (mkDir u [] 0 (ag_members 0 nds)).
Proof.
  intros Ht Hu Ho Hn Hlen. set (num := lit "num" ++ lit "=" ++ show_dec (Z.of_nat (length nds))).
  exists (with_options u (Join (num :: ag_ops 0 nds) "&"%char)). split.
  { rewrite join_ops. rewrite <-(of_url_options t u) by done. unfold num. by rewrite <-!app_assoc. }
  assert (op_ok num) as Hnum.
  { split; [|done]. unfold num, no_sep. rewrite !elem_of_app. intros [Hin|[Hin|Hin]].
    - by apply (bool_decide_unpack ("&"%char ∉ lit "num")) in Hin.
    - by apply (bool_decide_unpack ("&"%char ∉ lit "=")) in Hin.
    - by apply show_dec_no_sep in Hin; [|done|lia]. }
  assert (Forall op_ok (num :: ag_ops 0 nds)) as Hok by (constructor; [done|by apply ag_ops_ok]).
  assert (Hother : ∀ nm, nm ∈ [lit "info"; lit "min_members"] →
    Forall (λ op, op_matches (nm ++ lit "=") op = false) (num :: ag_ops 0 nds)).
  { intros nm Hnm. assert (no_sep "="%char nm ∧ nm ≠ lit "num" ∧ ∀ j, nm ≠ lit "ag" ++ show_dec j) as (H1 & H2 & H3).
    { rewrite !elem_of_cons, elem_of_nil in Hnm. destruct Hnm as [->|[->|[]]];
        (split; [intros Hin; by apply (bool_decide_unpack (_ ∉ _)) in Hin|]); done. }
    constructor; [|by apply ag_ops_other]. unfold num. rewrite app_assoc.
    apply op_matches_other; [congruence| |done]. intros Hin; by apply (bool_decide_unpack (_ ∉ _)) in Hin. }
  unfold of_resource_url. rewrite GetOption_ops, RemoveOption_ops by done.
  rewrite find_op_none, filter_all by (apply Hother; by left).
  rewrite GetOption_ops, RemoveOption_ops by done.
  rewrite find_op_none, filter_all by (apply Hother; by right; left).
  change (read_min_members erange (default [] None)) with (Ok 0%Z). cbn [mbind outcome_bind].
  rewrite GetOption_ops, RemoveOption_ops by done. cbn [find_op].
  assert (op_matches (lit "num" ++ lit "=") num = true) as Hm.
  { apply op_matches_spec. eexists. unfold num. by rewrite app_assoc. }
  rewrite Hm, filter_cons_False by congruence.
  assert (drop (length (lit "num" ++ lit "=")) num = show_dec (Z.of_nat (length nds))) as ->
    by (unfold num; by rewrite app_assoc, drop_app_length).
  cbn [default id]. rewrite (bool_decide_eq_false_2 (show_dec _ = [])) by apply show_base_nonempty. cbn [negb].
  rewrite <-(app_nil_r (show_dec _)), (StringToInt64_decimal _ [] 1) by (lia || by left).
  cbn [mbind outcome_bind]. change (0 =? 0)%Z with true. cbn iota. cbn [default id].
  rewrite Z.mul_1_l, Nat2Z.id, filter_all.
  2:{ apply ag_ops_other; [intros Hin; by apply (bool_decide_unpack (_ ∉ _)) in Hin|done|done]. }
  rewrite extract_ag by done. cbn [mbind outcome_bind]. by destruct u; cbn in Ho; subst.
Qed.

Lemma of_ranks_wf nodes ids nds : of_ranks nodes ids nds → Forall NodeID.wf nodes → Forall NodeID.wf nds.
Proof.
  intros Hr Hn. induction Hr as [|id nd ids nds [_ Hnd] _ IH]; constructor; [|done].
  by apply (Forall_lookup_1 _ _ _ _ Hn Hnd).
Qed.

Lemma of_ranks_length nodes ids nds : NoDup ids → of_ranks nodes ids nds → length nds ≤ length nodes.
Proof.
  intros Hnd Hr. assert (∀ id, id ∈ ids → id ∈ seqZ 0 (Z.of_nat (length nodes))) as Hin.
  { intros id Hid. apply list_elem_of_lookup in Hid as [k Hk].
    destruct (Forall2_lookup_l _ _ _ _ _ Hr Hk) as (nd & _ & Hpos & Hl). apply lookup_lt_Some in Hl.
    apply elem_of_seqZ. lia. }
  rewrite <-(Forall2_length _ _ _ Hr). apply NoDup_submseteq, submseteq_length in Hin; [|done].
  rewrite length_seqZ in Hin. lia.
Qed.

Lemma ascending_NoDup ids : NoDup (ascending ids).
Proof. unfold ascending. rewrite merge_sort_Permutation. apply NoDup_elements. Qed.

Lemma entry_of_Set_ne c nm v name k :
  plain (ToLowercase nm) = true → (nm =s? lit "node_role") = false →
  (∀ ch, last (ToLowercase nm) = Some ch → isdigit ch = false) → (0 ≤ k)%Z →
  entry_of (Set_ c nm v) name k = entry_of c name k.
Proof.
  intros Hp Hr Hl Hk. rewrite Set_names by done. unfold entry_of. cbn [config_map].
  rewrite first_match_insert_ne; [done|]. intros Hin.
  apply (search_list_last (mkConfig (node_role c) ∅)) in Hin; [|by destruct (ToLowercase name)].
  destruct (last_index (ToLowercase name) k Hk) as (ch & Hch & Hd). rewrite Hch in Hin.
  rewrite (Hl ch Hin) in Hd. done.
Qed.

Section resources.
Context `{CL : CollectiveLaws} (ranks : list (nodeid_t * Configuration)).
Let n := Z.of_nat (length ranks).

Lemma resource_text_members line text erange t tokens u :
  Forall NodeID.wf ranks.*1 → (n ≤ LONG_MAX)%Z → resource_text n ranks.*1 line = Ok text →
  Split line " "%char true = t :: tokens → "&"%char ∉ t → of_url t = Ok u → options u = [] →
  ∃ ids nds u', ExtractIDs (Join tokens " "%char) n = Ok ids ∧ of_ranks ranks.*1 (ascending ids) nds ∧
    of_url text = Ok u' ∧ of_resource_url erange u' = Ok (mkDir u [] 0 (ag_members 0 nds)).
Proof.
  intros Hwf Hn Htext Hsplit Ht Hu Ho. unfold resource_text in Htext. rewrite Hsplit in Htext.
  destruct tokens as [|tok tokens]; [done|]. apply bind_Ok in Htext as (ids & Hids & Htext).
  destruct (ascending ids) as [|id l] eqn:El; [done|]. rewrite <-El in Htext.
  apply bind_Ok in Htext as (s & Hs & Htext). injection Htext as <-.
  destruct (member_options_ops _ _ _ _ Hs) as (nds & Hnds & ->).
  pose proof (of_ranks_length _ _ _ (ascending_NoDup ids) Hnds) as Hlen. rewrite length_fmap in Hlen.
  destruct (resource_members erange t u nds) as (u' & Hu' & Hd); [done..|by eapply of_ranks_wf|unfold n in Hn; lia|].
  exists ids, nds, u'. rewrite (Forall2_length _ _ _ Hnds). done.
Qed.

(** At the end of the start, the resources in the configuration of the root are those that were
    given by ranks, and each of them becomes an entry whose members are the nodes of its ranks. *)
Theorem job_resources s r resources texts root_id c0 :
  agreed ranks s r resources → ranks !! r = Some (root_id, c0) →
  Forall NodeID.wf ranks.*1 → (n ≤ LONG_MAX)%Z →
  (∀ k, (0 ≤ k)%Z → entry_of c0 (lit "dirman.resources") k = None) →
  Forall2 (λ line text, resource_text n ranks.*1 line = Ok text) resources texts →
  ∃ outs c, run 2 (job true true ranks) = Some outs ∧ outs !! r = Some (Ok (true, c)) ∧
    GetStringVector c (lit "dirman.resources") = texts ∧
    Forall2 (λ line text, ∀ erange t tokens u,
      Split line " "%char true = t :: tokens → "&"%char ∉ t → of_url t = Ok u → options u = [] →
      ∃ ids nds u', ExtractIDs (Join tokens " "%char) n = Ok ids ∧ of_ranks ranks.*1 (ascending ids) nds ∧
        of_url text = Ok u' ∧ of_resource_url erange u' = Ok (mkDir u [] 0 (ag_members 0 nds)))
      resources texts.
Proof.
  intros Hag Hr Hwf Hn Hempty Htexts.
  eexists _, (rank_config ranks r root_id texts r c0). split_and!.
  - apply (job_runs ranks s r resources texts root_id); [done| |done]. by rewrite list_lookup_fmap, Hr.
  - by rewrite list_lookup_imap, Hr.
  - unfold rank_config. rewrite decide_True by done. apply vector_roundtrip; [done|]. intros k Hk.
    unfold rank_root, rank_told, rank_info. rewrite decide_True by done.
    by rewrite !entry_of_Set_ne by (done || by intros ch [= <-]); apply Hempty.
  - eapply Forall2_impl; [done|]. intros line text Htext erange t tokens u. by apply resource_text_members.
Qed.
End resources.

(** * Witnesses and limits *)

(** MPI, as it is documented. *)
#[global] Instance mpi_standard : Collectives := {
  bcast root vs := match vs !! Z.to_nat root with Some v => replicate (length vs) v | None => vs end;
  allgather vs := replicate (length vs) vs
}.
#[global] Instance mpi_standard_laws : CollectiveLaws.
Proof. split; [|done]. intros root vs v _ Hv. cbn. by rewrite Hv. Qed.

Definition demo_config : Configuration :=
  mkConfig (lit "default") (list_to_map [(lit "dirman.root_node_mpi", lit "last");
    (lit "dirman.resources_mpi.0", lit "dht:/d 0-1")]).
Definition demo_id (k : Z) : nodeid_t := NodeID.mk k.
Definition demo_job : list (nodeid_t * Configuration) :=
  (λ k, (demo_id k, demo_config)) <$> [4097; 4098; 4099]%Z.
Definition demo_text : str := lit "dht:/d&num=2&ag0=0x1001&ag1=0x1002".

Lemma demo_agreed : agreed demo_job (lit "last") 2 [lit "dht:/d 0-1"].
Proof.
  split; [done|vm_compute; reflexivity|cbn; lia|].
  unfold demo_job. cbn [fmap list_fmap]. rewrite !Forall_cons, Forall_nil. split_and!; (done || (vm_compute; reflexivity)).
Qed.

Lemma demo_texts :
  Forall2 (λ line text, resource_text (Z.of_nat (length demo_job)) demo_job.*1 line = Ok text)
    [lit "dht:/d 0-1"] [demo_text].
Proof. constructor; [vm_compute; reflexivity|constructor]. Qed.

Lemma job_agrees_witness :
  ∃ cs, run 2 (job true true demo_job) = Some ((λ c, Ok (true, c)) <$> cs) ∧ length cs = 3 ∧
    ∀ i id c, demo_job.*1 !! i = Some id → cs !! i = Some c →
      find_root no_env no_words (λ _, None) c id = Ok (demo_id 4099, bool_decide (i = 2)).
Proof.
  apply (job_agrees_on_root demo_job no_env no_words (λ _, None) (lit "last") 2 [lit "dht:/d 0-1"] [demo_text]);
    [exact demo_agreed|done|done|done| | |exact demo_texts].
  - apply (bool_decide_unpack _). vm_compute. exact I.
  - unfold demo_job. cbn [fmap list_fmap]. rewrite !Forall_cons, Forall_nil. split_and!; (done || (vm_compute; reflexivity)).
Defined.

Lemma job_resources_witness :
  ∃ outs c, run 2 (job true true demo_job) = Some outs ∧ outs !! 2 = Some (Ok (true, c)) ∧
    GetStringVector c (lit "dirman.resources") = [demo_text] ∧
    Forall2 (λ line text, ∀ erange t tokens u,
      Split line " "%char true = t :: tokens → "&"%char ∉ t → of_url t = Ok u → options u = [] →
      ∃ ids nds u', ExtractIDs (Join tokens " "%char) 3 = Ok ids ∧ of_ranks demo_job.*1 (ascending ids) nds ∧
        of_url text = Ok u' ∧ of_resource_url erange u' = Ok (mkDir u [] 0 (ag_members 0 nds)))
      [lit "dht:/d 0-1"] [demo_text].
Proof.
  apply (job_resources demo_job (lit "last") 2 [lit "dht:/d 0-1"] [demo_text] (demo_id 4099) demo_config);
    [exact demo_agreed|done| |done| |exact demo_texts].
  - unfold demo_job. cbn [fmap list_fmap]. by rewrite !Forall_cons, Forall_nil.
  - intros k Hk. unfold entry_of, search_list. cbn [first_match node_role demo_config config_map].
    assert (∀ a, (list_to_map [(lit "dirman.root_node_mpi", lit "last");
      (lit "dirman.resources_mpi.0", lit "dht:/d 0-1")] : gmap str str) !!
        (a ++ lit "dirman.resources" ++ lit "." ++ to_string k) = None) as Hn.
    { intros a. cbn [list_to_map foldr]. rewrite !lookup_insert_ne; [done| |].
      - intros E. cbn [fst] in E.
        assert (lit "dirman.resources_mpi" ++ lit "." ++ to_string 0 = (a ++ lit "dirman.resources") ++ lit "." ++ to_string k)
          as E' by (rewrite <-app_assoc; exact E).
        apply index_name_inj in E' as [E' _]; [|lia..]. apply (f_equal last) in E'. by rewrite last_app in E'.
      - intros E. apply (f_equal last) in E. cbn [fst] in E. rewrite app_assoc in E.
        destruct (last_index (a ++ lit "dirman.resources") k Hk) as (ch & Hch & Hd). rewrite Hch in E.
        injection E as <-. done. }
    rewrite (Hn (lit "default.") : _ !! (lit "default" ++ lit "." ++ ToLowercase (lit "dirman.resources") ++ _) = None).
    rewrite (Hn (lit "default.") : _ !! (lit "default." ++ ToLowercase (lit "dirman.resources") ++ _) = None).
    by rewrite (Hn [] : _ !! (ToLowercase (lit "dirman.resources") ++ _) = None).
Defined.

(** A job in which a rank does not ask for a start together never gets through it. *)
Example one_rank_missing :
  run 5 (job true true [(demo_id 1, demo_config); (demo_id 2, mkConfig (lit "default") ∅)]) = None.
Proof. vm_compute. reflexivity. Qed.

(** A range with a lower end that is not a number starts at -1: the node in front of the array. *)
Example resource_reads_before_array :
  resource_text 3 (demo_id <$> [1; 2; 3]%Z) (lit "dht:/d x-1") = Throw Undefined.
Proof. vm_compute. reflexivity. Qed.

(** Without the rank of a root the resources are dropped, and nothing says so but a warning. *)
Example resources_without_root :
  run 5 (job true true [(demo_id 1, mkConfig (lit "default") {[lit "dirman.resources_mpi.0" := lit "dht:/d 0"]})]) =
  Some [Ok (true, mkConfig (lit "default")
    (list_to_map [(lit "observed_mpi_info", lit "0/1"); (lit "dirman.resources_mpi.0", lit "dht:/d 0")]))].
Proof. vm_compute. reflexivity. Qed.
