(* ===== verification/BackBurner.v ===== *)
(** The background workers (src/src/faodel-services/BackBurner.cpp, BackBurner.hh): a worker
    thread that takes the tasks other threads queue, a bundle at a time, and the service that
    spreads tasks over its workers by tag.

    A worker runs beside the threads that call it.  The model gives the thread a place in its
    loop ([server_at]) and lets every piece of code between two accesses of shared data be a
    step, so that calls and the loop interleave freely.  Reads of [producer_num] outside the
    mutex are taken to be atomic.  A task is a value of a type [W]; running one appends it to
    [started]. *)
From S2P Require Import Prelude StringHelpers.

Section worker.
Context {W : Type}.
Implicit Types (w : W) (ws : list W).

(** The words a pipe holds before a write that must not block fails. *)
Context (pipe_capacity : nat).

(** [notifyNewWork] and [blockUntilWork] as set by [SetConfiguration]; for any other setting
    both stay empty functions, and calling one throws. *)
Inductive notification_method := polling | sleep_polling | pipe_.

Definition SetNotification (setting : str) : option notification_method :=
  if setting =s? lit "polling" then Some polling
  else if setting =s? lit "sleep_polling" then Some sleep_polling
  else if setting =s? lit "pipe" then Some pipe_
  else None.

(** Where the server thread is: at the test of [kill_worker], in [blockUntilWork], at the
    unlocked test of the counters, at the mutex, in the loop over the bundle, at the polling
    functions, or out of the loop. *)
Inductive place := AtTop | AtBlock | AtCheck | AtLock | AtDrain | AtPolls | Stopped.

#[global] Instance place_eq_dec : EqDecision place.
Proof. solve_decision. Defined.

(** [unnotified] counts the threads that have left the mutex of [AddWork] and not yet called
    [notifyNewWork]. *)
Record Worker := mkWorker {
  tasks_consumer : list W;
  tasks_producer : list W;
  producer_num : Z;
  consumer_num : Z;
  kill_worker : bool;
  registered_poll_functions : gmap str (option W);
  no_extra_poll_functions : bool;
  method : option notification_method;
  pipe_words : nat;
  unnotified : nat;
  server_at : place;
  started : list W;
  polled : list W }.

Implicit Types s : Worker.

Definition set_queues s consumer producer pnum cnum : Worker :=
  mkWorker consumer producer pnum cnum (kill_worker s) (registered_poll_functions s)
    (no_extra_poll_functions s) (method s) (pipe_words s) (unnotified s) (server_at s)
    (started s) (polled s).
Definition set_signals s words pending : Worker :=
  mkWorker (tasks_consumer s) (tasks_producer s) (producer_num s) (consumer_num s)
    (kill_worker s) (registered_poll_functions s) (no_extra_poll_functions s) (method s)
    words pending (server_at s) (started s) (polled s).
Definition set_at s pl : Worker :=
  mkWorker (tasks_consumer s) (tasks_producer s) (producer_num s) (consumer_num s)
    (kill_worker s) (registered_poll_functions s) (no_extra_poll_functions s) (method s)
    (pipe_words s) (unnotified s) pl (started s) (polled s).
Definition set_polls s polls : Worker :=
  mkWorker (tasks_consumer s) (tasks_producer s) (producer_num s) (consumer_num s)
    (kill_worker s) polls (no_extra_poll_functions s) (method s)
    (pipe_words s) (unnotified s) (server_at s) (started s) (polled s).
Definition set_kill s : Worker :=
  mkWorker (tasks_consumer s) (tasks_producer s) (producer_num s) (consumer_num s)
    true (registered_poll_functions s) (no_extra_poll_functions s) (method s)
    (pipe_words s) (unnotified s) (server_at s) (started s) (polled s).
Definition run_task s w : Worker :=
  mkWorker (tasks_consumer s) (tasks_producer s) (producer_num s) (consumer_num s)
    (kill_worker s) (registered_poll_functions s) (no_extra_poll_functions s) (method s)
    (pipe_words s) (unnotified s) (server_at s) (started s ++ [w]) (polled s).
Definition run_polls s : Worker :=
  mkWorker (tasks_consumer s) (tasks_producer s) (producer_num s) (consumer_num s)
    (kill_worker s) (registered_poll_functions s) (no_extra_poll_functions s) (method s)
    (pipe_words s) (unnotified s) (server_at s) (started s)
    (polled s ++ omap snd (entries (registered_poll_functions s))).

(** A worker whose thread has just been started with the given polling functions. *)
Definition new_worker (m : option notification_method) (polls : gmap str (option W)) : Worker :=
  mkWorker [] [] 0 0 false polls (bool_decide (polls = ∅)) m 0 0 AtTop [] [].

(** The part of [AddWork] under the mutex, for one task or a vector of them. *)
Definition enqueue ws s : Worker :=
  set_signals
    (set_queues s (tasks_consumer s) (tasks_producer s ++ ws)
       (u32 (producer_num s + Z.of_nat (length ws))) (consumer_num s))
    (pipe_words s) (S (unnotified s)).

(** The call of [notifyNewWork]: the pipe is written without blocking, and a short write fails
    an assertion. *)
Definition notifyNewWork s : outcome Worker :=
  match method s with
  | None => Throw RuntimeError
  | Some pipe_ =>
      _ ← F_ASSERT (pipe_words s <? pipe_capacity)%nat;
      Ok (set_signals s (S (pipe_words s)) (pred (unnotified s)))
  | Some _ => Ok (set_signals s (pipe_words s) (pred (unnotified s)))
  end.

Definition AddWork ws s : outcome Worker := notifyNewWork (enqueue ws s).

(** The destructor up to the join. *)
Definition kill s : Worker := set_signals (set_kill s) (pipe_words s) (S (unnotified s)).

Definition worker_RegisterPollingFunction (name : str) w s : option Worker :=
  match registered_poll_functions s !! name with
  | Some _ => None  (* exit(-1) *)
  | None => Some (set_polls s (<[name := Some w]> (registered_poll_functions s)))
  end.

Definition worker_DisablePollingFunction (name : str) s : Worker :=
  match registered_poll_functions s !! name with
  | Some _ => set_polls s (<[name := None]> (registered_poll_functions s))
  | None => s
  end.

(** One step of [server]; [None] when the thread is blocked or has ended. *)
Definition server_step s : option Worker :=
  match server_at s with
  | AtTop =>
      Some (set_at s (if kill_worker s then Stopped
                      else if no_extra_poll_functions s then AtBlock else AtCheck))
  | AtBlock =>
      match method s with
      | None => None
      | Some pipe_ =>
          match pipe_words s with
          | 0 => None
          | S words => Some (set_at (set_signals s words (unnotified s)) AtCheck)
          end
      | Some _ => Some (set_at s AtCheck)
      end
  | AtCheck =>
      Some (set_at s (if (producer_num s =? consumer_num s)%Z then AtPolls else AtLock))
  | AtLock =>
      match tasks_producer s with
      | [] =>
          Some (set_at (set_queues s (tasks_consumer s) (tasks_producer s) (producer_num s)
                          (producer_num s)) AtPolls)
      | _ =>
          Some (set_at (set_queues s (tasks_producer s) (tasks_consumer s) (producer_num s)
                          (producer_num s)) AtDrain)
      end
  | AtDrain =>
      match tasks_consumer s with
      | [] => Some (set_at s AtPolls)
      | w :: q => Some (run_task (set_queues s q (tasks_producer s) (producer_num s)
                                    (consumer_num s)) w)
      end
  | AtPolls => Some (set_at (run_polls s) AtTop)
  | Stopped => None
  end.

(** * Runs of a worker

    [added] is what the calls of [AddWork] have queued, in the order in which they got the
    mutex. *)
Inductive wstep : Worker → Worker → Prop :=
| step_notify s s' : 0 < unnotified s → notifyNewWork s = Ok s' → wstep s s'
| step_kill s : wstep s (kill s)
| step_disable name s : wstep s (worker_DisablePollingFunction name s)
| step_server s s' : server_step s = Some s' → wstep s s'.

Inductive reachable : list W → Worker → Prop :=
| reach_new m polls : reachable [] (new_worker m polls)
| reach_enqueue added ws s : reachable added s → reachable (added ++ ws) (enqueue ws s)
| reach_step added s s' : reachable added s → wstep s s' → reachable added s'.

(** Nothing is lost, repeated or reordered, and the bundle is empty outside its loop. *)
Definition in_order added s : Prop :=
  started s ++ tasks_consumer s ++ tasks_producer s = added ∧
  (server_at s ≠ AtDrain → tasks_consumer s = []).

(** The difference of the counters is the number of tasks not yet taken. *)
Definition counters s : Prop :=
  in_width 32 (consumer_num s) ∧
  producer_num s = u32 (consumer_num s + Z.of_nat (length (tasks_producer s))).

Lemma counters_enqueue ws s : counters s → counters (enqueue ws s).
Proof.
  intros [Hc Hp]. split; [done|]. simpl. rewrite Hp, length_app. unfold wrap.
  rewrite Zplus_mod_idemp_l. f_equal. lia.
Qed.

Lemma counters_taken p : in_width 32 p → p = u32 (p + Z.of_nat (length (@nil W))).
Proof. intros Hp. simpl. rewrite Z.add_0_r. by rewrite wrap_id. Qed.

Lemma counters_producer s : counters s → in_width 32 (producer_num s).
Proof. intros [_ ->]. by apply wrap_in_width. Qed.

Lemma counters_ne s :
  counters s → (Z.of_nat (length (tasks_producer s)) < 2 ^ 32)%Z →
  producer_num s = consumer_num s → tasks_producer s = [].
Proof.
  intros [[Hc0 Hc1] Hp] Hl Heq. rewrite Heq in Hp.
  destruct (tasks_producer s) as [|w q] eqn:E; [done|].
  set (n := Z.of_nat (length (w :: q))) in *. assert (0 < n)%Z by (subst n; simpl; lia).
  exfalso. unfold wrap in Hp.
  destruct (Z.lt_ge_cases (consumer_num s + n) (2 ^ 32)) as [Hlt|Hge].
  - rewrite Z.mod_small in Hp by lia. lia.
  - rewrite (Z.mod_eq _ (2 ^ 32)) in Hp by lia.
    assert (Hq : ((consumer_num s + n) / 2 ^ 32 = 1)%Z)
      by (symmetry; apply Z.div_unique with (consumer_num s + n - 2 ^ 32)%Z; lia).
    rewrite Hq in Hp. lia.
Qed.

(** A thread that waits on its pipe has been, or is about to be, woken if there is work. *)
Definition wakeable s : Prop :=
  tasks_producer s ≠ [] → method s = Some pipe_ →
  server_at s = AtCheck ∨ server_at s = AtLock ∨ 0 < pipe_words s + unnotified s.

Lemma in_order_server added s s' : in_order added s → server_step s = Some s' → in_order added s'.
Proof.
  intros [<- Hb]. unfold server_step, in_order.
  destruct (server_at s) eqn:Ha; intros Hs; repeat case_match; simplify_eq; simpl.
  all: try (split; [done|intros; apply Hb; congruence]).
  - rewrite Hb by congruence. split; [|done]. by rewrite app_nil_r.
  - match goal with H : tasks_consumer s = [] |- _ => by rewrite H end.
  - split; [by rewrite <-(assoc_L (++))|congruence].
Qed.

Lemma counters_server s s' :
  counters s → (server_at s ≠ AtDrain → tasks_consumer s = []) →
  server_step s = Some s' → counters s'.
Proof.
  intros Hc Hb. pose proof (counters_producer s Hc) as Hp. unfold server_step.
  destruct (server_at s) eqn:Ha; intros Hs; repeat case_match; simplify_eq; try done.
  all: split; [done|]; simpl.
  - by apply counters_taken.
  - rewrite Hb by congruence. by apply counters_taken.
Qed.

Lemma wakeable_server added s s' :
  in_order added s → counters s → (Z.of_nat (length added) < 2 ^ 32)%Z →
  wakeable s → server_step s = Some s' → wakeable s'.
Proof.
  intros [Ho Hb] Hc Hl Hw Hs Hne Hm. unfold server_step in Hs.
  assert (Hlen : (Z.of_nat (length (tasks_producer s)) < 2 ^ 32)%Z).
  { rewrite <-Ho, !length_app in Hl. lia. }
  destruct (server_at s) eqn:Ha; repeat case_match; simplify_eq; simpl in *; auto.
  all: try (destruct (Hw Hne Hm) as [?|[?|?]]; [congruence|congruence|by auto]).
  - exfalso. apply Hne, counters_ne; [done|done|]. by apply Z.eqb_eq.
  - rewrite Hb in Hne by congruence. done.
Qed.

Lemma reachable_inv added s :
  reachable added s →
  in_order added s ∧ counters s ∧ ((Z.of_nat (length added) < 2 ^ 32)%Z → wakeable s).
Proof.
  induction 1 as [m polls|added ws s _ (Ho & Hc & Hw)|added s s' _ (Ho & Hc & Hw) Hs];
    [| |destruct Hs as [s s' Hu Hn|s|name s|s s' Hs]].
  - split_and!; [by split|by split|by intros ??].
  - split_and!.
    + destruct Ho as [<- Hb]. split; [|done]. simpl. by rewrite <-!(assoc_L (++)).
    + by apply counters_enqueue.
    + intros _ _ _. right; right. simpl. lia.
  - unfold notifyNewWork in Hn. repeat case_match; unbind; subst; try done; split_and!; try done.
    all: intros Hl Hne Hm; simpl in *; try congruence.
    right; right. lia.
  - split_and!; [done|done|]. intros _ _ _. right; right. simpl. lia.
  - unfold worker_DisablePollingFunction. by case_match.
  - split_and!.
    + by eapply in_order_server.
    + eapply counters_server; [done|apply Ho|done].
    + intros Hl. eapply wakeable_server; eauto.
Qed.

(** Whatever the interleaving, the tasks that have run, the rest of the current bundle and the
    tasks still to be taken are together the tasks that were queued, in the order in which they
    were queued: none is lost, none runs twice, none overtakes another. *)
Lemma worker_queue_order added s :
  reachable added s → started s ++ tasks_consumer s ++ tasks_producer s = added.
Proof. intros Hr. by apply reachable_inv in Hr as ([? _] & _ & _). Qed.

(** * The server by itself *)

Definition server_run : Worker → Worker → Prop := rtc (λ s s', server_step s = Some s').

Lemma run_step s s' s'' : server_step s = Some s' → server_run s' s'' → server_run s s''.
Proof. intros. by eapply rtc_l. Qed.

(** What the server does not change. *)
Definition frame s s' : Prop :=
  kill_worker s' = kill_worker s ∧ no_extra_poll_functions s' = no_extra_poll_functions s ∧
  method s' = method s ∧ unnotified s' = unnotified s ∧ pipe_words s' = pipe_words s.

Lemma run_drain q s :
  server_at s = AtDrain → tasks_consumer s = q →
  ∃ s', server_run s s' ∧ server_at s' = AtTop ∧ started s' = started s ++ q ∧
    tasks_consumer s' = [] ∧ tasks_producer s' = tasks_producer s ∧ frame s s'.
Proof.
  revert s. induction q as [|w q IH]; intros s Ha Hq.
  - exists (set_at (run_polls (set_at s AtPolls)) AtTop). split.
    { eapply run_step; [unfold server_step; by rewrite Ha, Hq|].
      eapply run_step; [done|apply rtc_refl]. }
    simpl. by rewrite app_nil_r.
  - destruct (IH (run_task (set_queues s q (tasks_producer s) (producer_num s)
      (consumer_num s)) w)) as (s' & Hr & Ht & Hst & Hc & Hp & Hf); [done|done|].
    exists s'. split_and!; try done.
    + eapply run_step; [|done]. unfold server_step. by rewrite Ha, Hq.
    + rewrite Hst. simpl. by rewrite <-(assoc_L (++)).
Qed.

(** From the mutex, everything queued is run. *)
Lemma run_lock s :
  server_at s = AtLock → tasks_consumer s = [] →
  ∃ s', server_run s s' ∧ started s' = started s ++ tasks_producer s ∧ server_at s' = AtTop ∧
    tasks_consumer s' = [] ∧ tasks_producer s' = [].
Proof.
  intros Ha Hc. destruct (tasks_producer s) as [|w q] eqn:Hp.
  - eexists. split.
    { eapply run_step; [unfold server_step; by rewrite Ha, Hp|].
      eapply run_step; [done|apply rtc_refl]. }
    simpl. by rewrite app_nil_r.
  - destruct (run_drain (w :: q) (set_at (set_queues s (w :: q) (tasks_consumer s)
      (producer_num s) (producer_num s)) AtDrain)) as (s' & Hr & ? & ? & ? & Hp' & _); [done|done|].
    exists s'. split_and!; try done.
    + eapply run_step; [|done]. unfold server_step. by rewrite Ha, Hp.
    + by rewrite Hp'.
Qed.

Lemma run_check s :
  server_at s = AtCheck → tasks_consumer s = [] → counters s →
  (Z.of_nat (length (tasks_producer s)) < 2 ^ 32)%Z →
  ∃ s', server_run s s' ∧ started s' = started s ++ tasks_producer s.
Proof.
  intros Ha Hc Hn Hl. destruct (producer_num s =? consumer_num s)%Z eqn:E.
  - exists s. split; [apply rtc_refl|]. apply Z.eqb_eq in E.
    by rewrite (counters_ne s), app_nil_r.
  - destruct (run_lock (set_at s AtLock)) as (s' & Hr & ? & _); [done|done|].
    exists s'. split; [|done]. eapply run_step; [|done]. unfold server_step. by rewrite Ha, E.
Qed.

Lemma run_block s :
  server_at s = AtBlock → method s ≠ None → tasks_consumer s = [] →
  counters s → (Z.of_nat (length (tasks_producer s)) < 2 ^ 32)%Z →
  (tasks_producer s ≠ [] → method s = Some pipe_ → 0 < pipe_words s) →
  ∃ s', server_run s s' ∧ started s' = started s ++ tasks_producer s.
Proof.
  intros Ha Hm Hc Hn Hl Hw.
  destruct (decide (tasks_producer s = [])) as [Hp|Hp].
  { exists s. rewrite Hp, app_nil_r. split; [apply rtc_refl|done]. }
  assert (∃ words, server_step s = Some (set_at (set_signals s words (unnotified s)) AtCheck))
    as [words Hstep].
  { unfold server_step. rewrite Ha. destruct (method s) as [[| |]|] eqn:Em; [| | |done].
    - exists (pipe_words s). by destruct s.
    - exists (pipe_words s). by destruct s.
    - specialize (Hw Hp eq_refl). destruct (pipe_words s) as [|words]; [lia|by exists words]. }
  destruct (run_check (set_at (set_signals s words (unnotified s)) AtCheck)) as (s' & Hr & Hs);
    [done..|]. exists s'. split; [by eapply run_step|done].
Qed.

Lemma run_top s :
  server_at s = AtTop → kill_worker s = false → method s ≠ None → tasks_consumer s = [] →
  counters s → (Z.of_nat (length (tasks_producer s)) < 2 ^ 32)%Z →
  (tasks_producer s ≠ [] → method s = Some pipe_ → 0 < pipe_words s) →
  ∃ s', server_run s s' ∧ started s' = started s ++ tasks_producer s.
Proof.
  intros Ha Hk Hm Hc Hn Hl Hw. destruct (no_extra_poll_functions s) eqn:Hx.
  - destruct (run_block (set_at s AtBlock)) as (s' & Hr & Hs); [done..|]. exists s'.
    split; [|done]. eapply run_step; [|done]. unfold server_step. by rewrite Ha, Hk, Hx.
  - destruct (run_check (set_at s AtCheck)) as (s' & Hr & Hs); [done..|]. exists s'.
    split; [|done]. eapply run_step; [|done]. unfold server_step. by rewrite Ha, Hk, Hx.
Qed.

Lemma run_reachable added s s' : reachable added s → server_run s s' → reachable added s'.
Proof. intros Hr. induction 1; [done|]. apply IHrtc. by eapply reach_step, step_server. Qed.

(** The end of a turn of the loop. *)
Lemma run_to_top s :
  server_at s = AtDrain ∨ server_at s = AtPolls →
  ∃ s', server_run s s' ∧ server_at s' = AtTop ∧ frame s s'.
Proof.
  intros [Ha|Ha].
  - destruct (run_drain (tasks_consumer s) s) as (s' & ? & ? & _ & _ & _ & ?); eauto.
  - eexists. split; [eapply run_step; [unfold server_step; by rewrite Ha|apply rtc_refl]|done].
Qed.

Lemma run_from_turn added s :
  reachable added s → (Z.of_nat (length added) < 2 ^ 32)%Z →
  unnotified s = 0 → kill_worker s = false → method s ≠ None →
  server_at s ≠ AtDrain → server_at s ≠ AtPolls → server_at s ≠ Stopped →
  ∃ s', server_run s s' ∧ started s' = added.
Proof.
  intros Hr Hl Hu Hk Hm Hd Hpo Hst.
  destruct (reachable_inv _ _ Hr) as ([Ho Hb] & Hc & Hw). specialize (Hw Hl).
  specialize (Hb Hd). rewrite Hb in Ho. simpl in Ho. rewrite <-Ho.
  assert (Hlen : (Z.of_nat (length (tasks_producer s)) < 2 ^ 32)%Z).
  { rewrite <-Ho, length_app in Hl. lia. }
  assert (Hpipe : server_at s ≠ AtCheck → server_at s ≠ AtLock →
    tasks_producer s ≠ [] → method s = Some pipe_ → 0 < pipe_words s).
  { intros ?? Hne Hme. destruct (Hw Hne Hme) as [?|[?|?]]; [done|done|lia]. }
  destruct (server_at s) eqn:Ha; try done.
  - apply run_top; auto.
  - apply run_block; auto.
  - by apply run_check.
  - destruct (run_lock s) as (s' & ? & ? & _); eauto.
Qed.

(** C21: Queued work is done: with every notification delivered and no shutdown requested, the
    server thread, left to itself, runs all the work there is (for less than 2^32 tasks, the
    range of its counters), whichever way it waits and wherever in its loop it is. *)
Theorem worker_drains added s :
  reachable added s → (Z.of_nat (length added) < 2 ^ 32)%Z →
  unnotified s = 0 → kill_worker s = false → method s ≠ None → server_at s ≠ Stopped →
  ∃ s', server_run s s' ∧ started s' = added.
Proof.
  intros Hr Hl Hu Hk Hm Hst.
  destruct (decide (server_at s = AtDrain ∨ server_at s = AtPolls)) as [Ht|Ht].
  - destruct (run_to_top s Ht) as (s1 & Hr1 & Ha1 & Hf). unfold frame in Hf. destruct_and! Hf.
    destruct (run_from_turn added s1) as (s' & ? & ?); try congruence; [by eapply run_reachable|].
    exists s'. split; [by etrans|done].
  - apply run_from_turn; tauto.
Qed.

(** A worker that waits on its pipe fails an assertion in [AddWork] when the pipe is full, and
    a burst of as many calls as the pipe holds words fills it. *)
Lemma AddWork_pipe_full ws s :
  method s = Some pipe_ → pipe_words s = pipe_capacity → AddWork ws s = Throw AssertFailed.
Proof.
  intros Hm Hf. unfold AddWork, notifyNewWork. simpl. rewrite Hm, Hf.
  by rewrite (proj2 (Nat.ltb_ge _ _)).
Qed.

Fixpoint AddWork_burst n w s : outcome Worker :=
  match n with 0 => Ok s | S n => s' ← AddWork [w] s; AddWork_burst n w s' end.

Lemma burst_asserts w s :
  method s = Some pipe_ → pipe_words s ≤ pipe_capacity →
  AddWork_burst (S (pipe_capacity - pipe_words s)) w s = Throw AssertFailed.
Proof.
  intros Hm Hle. remember (pipe_capacity - pipe_words s) as n eqn:Hn. revert s Hm Hle Hn.
  induction n as [|n IH]; intros s Hm Hle Hn.
  - simpl. by rewrite AddWork_pipe_full by (done || lia).
  - assert (AddWork [w] s =
      Ok (set_signals (enqueue [w] s) (S (pipe_words s)) (unnotified s))) as Hadd.
    { unfold AddWork, notifyNewWork. simpl. rewrite Hm.
      by rewrite (proj2 (Nat.ltb_lt _ _)) by lia. }
    remember (S n) as m. simpl. rewrite Hadd. simpl. subst m. apply IH; simpl; [done|lia|lia].
Qed.

End worker.
Arguments Worker : clear implicits.

(** * The service *)

Section backburner.
Context {W : Type} (pipe_capacity : nat).
Implicit Types w : W.

(** [workers] is [None] while the pointer is not set, or dangles after [Finish].  The service is
    a global object, so its fields are zero before [Init]. *)
Record BackBurner := mkBackBurner {
  configured : bool;
  workers_launched : bool;
  worker_count : Z;
  workers : option (list (Worker W)) }.

Implicit Types b : BackBurner.

Definition new_backburner : BackBurner := mkBackBurner false false 0 None.

Definition Init (threads : Z) (notification : str) b : outcome BackBurner :=
  _ ← F_ASSERT (negb (configured b));
  Ok (mkBackBurner true false threads
        (Some (replicate (Z.to_nat threads) (new_worker (SetNotification notification) ∅)))).

Definition Start b : BackBurner := mkBackBurner (configured b) true (worker_count b) (workers b).

Definition Finish b : outcome BackBurner :=
  _ ← F_ASSERT (configured b);
  Ok (mkBackBurner false false (worker_count b) None).

(** [workers->at(i)] *)
Definition worker_at b (i : Z) : outcome (Worker W) :=
  match workers b with
  | None => Throw Undefined
  | Some l => match l !! Z.to_nat i with Some wk => Ok wk | None => Throw OutOfRange end
  end.

Definition set_worker b (i : Z) (wk : Worker W) : BackBurner :=
  mkBackBurner (configured b) (workers_launched b) (worker_count b)
    (<[Z.to_nat i := wk]> <$> workers b).

(** [tag % worker_count]; the remainder by zero is undefined. *)
Definition worker_of_tag b (tag : Z) : outcome Z :=
  if (worker_count b =? 0)%Z then Throw Undefined else Ok (tag mod worker_count b)%Z.

(** [AddWork] without and with a tag.  [add] is [Worker::AddWork], or the part of it under the
    mutex when the caller has not come to the notification yet. *)
Definition bb_AddWork (add : list W → Worker W → outcome (Worker W)) (works : list W) b
    : outcome BackBurner :=
  wk ← worker_at b 0;
  wk' ← add works wk;
  Ok (set_worker b 0 wk').

Definition bb_AddWork_tag (add : list W → Worker W → outcome (Worker W)) (tag : Z) (works : list W) b
    : outcome BackBurner :=
  i ← worker_of_tag b tag;
  wk ← worker_at b i;
  wk' ← add works wk;
  Ok (set_worker b i wk').

(** [None] is [exit(-1)]. *)
Definition RegisterPollingFunction (name : str) (group_id : Z) w b
    : outcome (option BackBurner) :=
  _ ← F_ASSERT (negb (configured b));
  i ← worker_of_tag b group_id;
  wk ← worker_at b i;
  Ok (set_worker b i <$> worker_RegisterPollingFunction name w wk).

Definition DisablePollingFunction (name : str) b : outcome BackBurner :=
  match workers b with
  | None => if (worker_count b =? 0)%Z then Ok b else Throw Undefined
  | Some l =>
      Ok (mkBackBurner (configured b) (workers_launched b) (worker_count b)
            (Some (worker_DisablePollingFunction name <$> l)))
  end.

Definition DisablePollingFunction_group (name : str) (group_id : Z) b : outcome BackBurner :=
  i ← worker_of_tag b group_id;
  wk ← worker_at b i;
  Ok (set_worker b i (worker_DisablePollingFunction name wk)).

(** The life of the service, as far as its own fields go. *)
Inductive bb_call :=
| CInit (threads : Z) (notification : str) | CStart | CFinish
| CAddWork (tag : option Z) (works : list W) | CRegister (name : str) (group_id : Z) (w : W)
| CDisable (name : str).

Definition bb_run (c : bb_call) b : outcome (option BackBurner) :=
  match c with
  | CInit threads notification => Some <$> Init threads notification b
  | CStart => Ok (Some (Start b))
  | CFinish => Some <$> Finish b
  | CAddWork (Some tag) works => Some <$> bb_AddWork_tag (AddWork pipe_capacity) tag works b
  | CAddWork None works => Some <$> bb_AddWork (AddWork pipe_capacity) works b
  | CRegister name group_id w => RegisterPollingFunction name group_id w b
  | CDisable name => Some <$> DisablePollingFunction name b
  end.

Inductive bb_alive : BackBurner → Prop :=
| alive_new : bb_alive new_backburner
| alive_call c b b' : bb_alive b → bb_run c b = Ok (Some b') → bb_alive b'.

(** There are workers exactly while the service is configured. *)
Definition bb_ok b : Prop := is_Some (workers b) ↔ configured b = true.

Lemma set_worker_ok b i wk : bb_ok b → bb_ok (set_worker b i wk).
Proof. unfold bb_ok. simpl. by rewrite fmap_is_Some. Qed.

Lemma alive_ok b : bb_alive b → bb_ok b.
Proof.
  induction 1 as [|c b b' _ IH Hc]; [by split; [intros []|]|].
  assert (Hset : ∀ i wk, bb_ok (set_worker b i wk)) by (intros; by apply set_worker_ok).
  destruct c as [| | |[tag|] works|name gid w|name]; simpl in Hc.
  - unfold Init in Hc. destruct (configured b); simplify_eq/=. done.
  - by simplify_eq.
  - unfold Finish in Hc. destruct (configured b); simplify_eq/=. by split; [intros []|].
  - unfold bb_AddWork_tag in Hc. destruct (_ ≫= _) eqn:E; simplify_eq/=. unbind. by subst.
  - unfold bb_AddWork in Hc. destruct (_ ≫= _) eqn:E; simplify_eq/=. unbind. by subst.
  - unfold RegisterPollingFunction in Hc. unbind. destruct (worker_RegisterPollingFunction _ _ _);
      simplify_eq/=. done.
  - unfold DisablePollingFunction in Hc. unfold bb_ok in *.
    destruct (workers b) as [l|] eqn:E; simpl in Hc.
    + simplify_eq/=. rewrite <-IH. by split; eauto.
    + case_match; simplify_eq/=. by rewrite E.
Qed.

(** No polling function can be registered: before [Init] there are no workers, and once there
    are, the call asserts. *)
Lemma RegisterPollingFunction_never name group_id w b r :
  bb_alive b → RegisterPollingFunction name group_id w b ≠ Ok r.
Proof.
  intros Hok%alive_ok Hr. unfold RegisterPollingFunction in Hr. unbind.
  unfold worker_at in *. destruct (workers b) as [l|] eqn:E; [|done].
  destruct Hok as [Hc _]. rewrite Hc in * by done. done.
Qed.

End backburner.
Arguments BackBurner : clear implicits.

(** * Several workers

    Tasks carry the tag they were queued with, if any, and [log] is everything queued, in order.
    Callers, servers and the callers that still have to notify interleave freely. *)
Section tags.
Context {W : Type} (pipe_capacity : nat).
Implicit Types (log : list (option Z * W)) (b : BackBurner (option Z * W)).

Definition enqueued (works : list (option Z * W)) (wk : Worker (option Z * W))
    : outcome (Worker (option Z * W)) :=
  Ok (enqueue works wk).

Inductive system : list (option Z * W) → BackBurner (option Z * W) → Prop :=
| sys_init threads notification b :
    Init threads notification new_backburner = Ok b → system [] b
| sys_start log b : system log b → system log (Start b)
| sys_tagged log b b' tag works :
    system log b → bb_AddWork_tag enqueued tag (pair (Some tag) <$> works) b = Ok b' →
    system (log ++ (pair (Some tag) <$> works)) b'
| sys_untagged log b b' works :
    system log b → bb_AddWork enqueued (pair None <$> works) b = Ok b' →
    system (log ++ (pair None <$> works)) b'
| sys_step log b i wk wk' :
    system log b → worker_at b i = Ok wk → wstep pipe_capacity wk wk' →
    system log (set_worker b i wk').

(** The worker that is to run the work of a tag, or without one. *)
Definition home (n : Z) (tag : option Z) : nat :=
  match tag with Some t => Z.to_nat (t mod n) | None => 0 end.

Definition homed b log : Prop :=
  ∀ l i wk, workers b = Some l → l !! i = Some wk →
    reachable pipe_capacity (filter (λ x, home (worker_count b) x.1 = i) log) wk.

Lemma filter_home_same n i tag (works : list W) :
  filter (λ x, home n x.1 = i) (pair tag <$> works) =
  if decide (home n tag = i) then pair tag <$> works else [].
Proof.
  induction works as [|w works IH]; [by case_decide|]. rewrite fmap_cons, filter_cons. simpl.
  rewrite IH. by case_decide.
Qed.

Lemma worker_at_Ok b i wk : worker_at b i = Ok wk → ∃ l, workers b = Some l ∧ l !! Z.to_nat i = Some wk.
Proof.
  unfold worker_at. destruct (workers b) as [l|]; [|done].
  destruct (l !! Z.to_nat i) eqn:E; [|done]. intros [= <-]. eauto.
Qed.

Lemma homed_set b i wk wk' log log' :
  homed b log → worker_at b i = Ok wk →
  reachable pipe_capacity (filter (λ x, home (worker_count b) x.1 = Z.to_nat i) log') wk' →
  (∀ j, j ≠ Z.to_nat i → filter (λ x, home (worker_count b) x.1 = j) log' =
     filter (λ x, home (worker_count b) x.1 = j) log) →
  homed (set_worker b i wk') log'.
Proof.
  intros Hh (l & Hl & Hi)%worker_at_Ok Hr Ho l' j wkj Hl' Hj. cbn [set_worker workers worker_count] in *.
  rewrite Hl in Hl'. injection Hl' as <-. destruct (decide (j = Z.to_nat i)) as [->|Hne].
  - rewrite list_lookup_insert_eq in Hj by (by eapply lookup_lt_Some). by injection Hj as <-.
  - rewrite list_lookup_insert_ne in Hj by done. rewrite Ho by done. by eapply Hh.
Qed.

(** Work that is queued reaches the worker that is to run it. *)
Lemma homed_enqueue b i wk tag works log :
  homed b log → worker_at b i = Ok wk → home (worker_count b) tag = Z.to_nat i →
  homed (set_worker b i (enqueue (pair tag <$> works) wk)) (log ++ (pair tag <$> works)).
Proof.
  intros Hh Hw Hi. eapply homed_set; [exact Hh|exact Hw|..].
  - rewrite filter_app, filter_home_same, decide_True by done. constructor.
    apply worker_at_Ok in Hw as (l & Hl & Hi'). by eapply Hh.
  - intros j Hj. rewrite filter_app, filter_home_same, decide_False by congruence. by rewrite app_nil_r.
Qed.

Lemma system_homed log b : system log b → homed b log.
Proof.
  induction 1 as [threads notification b Hb|log b _ IH|log b b' tag works _ IH Ha|log b b' works _ IH Ha
    |log b i wk wk' _ IH Hw Hs].
  - unfold Init in Hb. unbind. subst. intros l i wk [= <-] Hi. apply lookup_replicate in Hi as [-> _].
    constructor.
  - exact IH.
  - unfold bb_AddWork_tag, worker_of_tag, enqueued in Ha. case_match; unbind.
    subst. by apply homed_enqueue.
  - unfold bb_AddWork, enqueued in Ha. unbind. subst. by apply homed_enqueue.
  - eapply homed_set; [exact IH|exact Hw| |done]. econstructor; [|exact Hs].
    apply worker_at_Ok in Hw as (l & Hl & Hi). by eapply IH.
Qed.

(** C22: Work queued under one tag is serialised: it is all given to the worker whose number is the
    tag modulo the number of workers, which runs it in the order in which it was queued (what has
    run, what is in the current bundle and what is still queued there are together what was queued
    under the tag, in that order), and no other worker gets any of it, however the threads
    interleave. *)
Theorem same_tag_order log b i wk t :
  system log b → (0 ≤ i)%Z → worker_at b i = Ok wk →
  filter (λ x, x.1 = Some t) (started wk ++ tasks_consumer wk ++ tasks_producer wk) =
  if decide (Z.to_nat (t mod worker_count b) = Z.to_nat i) then filter (λ x, x.1 = Some t) log else [].
Proof.
  intros Hs Hpos (l & Hl & Hi)%worker_at_Ok.
  rewrite (worker_queue_order _ _ _ (system_homed _ _ Hs _ _ _ Hl Hi)), list_filter_filter.
  case_decide as Hd.
  - apply list_filter_iff. intros [tag w]. cbn [fst]. split; [tauto|]. intros ->. by split.
  - apply elem_of_nil_inv. by intros [tag w] [[-> ?] _]%list_elem_of_filter.
Qed.
End tags.

(** * Witnesses *)

(** A worker on its pipe that has been given two tasks and told so. *)
Lemma worker_drains_witness :
  let s0 := enqueue [5; 6] (new_worker (Some pipe_) ∅) in
  let s := set_signals s0 1 0 in
  reachable 4 [5; 6] s ∧ ∃ s', server_run s s' ∧ started s' = [5; 6].
Proof.
  assert (Hr : reachable 4 [5; 6]
    (set_signals (enqueue [5; 6] (new_worker (Some pipe_) ∅)) 1 0)).
  { apply reach_step with (s := enqueue [5; 6] (new_worker (Some pipe_) ∅)).
    - apply (reach_enqueue 4 [] [5; 6]). constructor.
    - apply step_notify; [simpl; lia|reflexivity]. }
  split; [exact Hr|]. by apply (worker_drains 4 [5; 6]).
Defined.

(** Two workers; both tasks of tag 4 go to the first, and the first of them has run. *)
Lemma same_tag_order_witness :
  ∃ b wk, system 4 [(Some 4%Z, 7); (Some 4%Z, 8)] b ∧ worker_at b 0 = Ok wk ∧
    started wk = [(Some 4%Z, 7)] ∧
    filter (λ x : option Z * nat, x.1 = Some 4%Z) (started wk ++ tasks_consumer wk ++ tasks_producer wk) =
      [(Some 4%Z, 7); (Some 4%Z, 8)].
Proof.
  pose (new := new_worker (W := option Z * nat) (Some polling) ∅).
  pose (wk0 := enqueue [(Some 4%Z, 7); (Some 4%Z, 8)] new).
  pose (step := λ wk : Worker (option Z * nat), default wk (server_step wk)).
  pose (at_ := λ wk, mkBackBurner true false 2 (Some [wk; new])).
  pose (wk := Nat.iter 5 step wk0).
  assert (H0 : system 4 [(Some 4%Z, 7); (Some 4%Z, 8)] (at_ wk0)).
  { apply (sys_tagged 4 [] (at_ new) (at_ wk0) 4 [7; 8]); [|reflexivity].
    by apply (sys_init 4 2 (lit "polling")). }
  assert (Hstep : ∀ wk1 wk2, system 4 [(Some 4%Z, 7); (Some 4%Z, 8)] (at_ wk1) →
    server_step wk1 = Some wk2 → system 4 [(Some 4%Z, 7); (Some 4%Z, 8)] (at_ wk2)).
  { intros wk1 wk2 Hsys Hst. apply (sys_step 4 _ (at_ wk1) 0 wk1 wk2 Hsys eq_refl). by apply step_server. }
  assert (Hs : system 4 [(Some 4%Z, 7); (Some 4%Z, 8)] (at_ wk)).
  { apply (Hstep (Nat.iter 4 step wk0)); [|vm_compute; reflexivity].
    apply (Hstep (Nat.iter 3 step wk0)); [|vm_compute; reflexivity].
    apply (Hstep (Nat.iter 2 step wk0)); [|vm_compute; reflexivity].
    apply (Hstep (Nat.iter 1 step wk0)); [|vm_compute; reflexivity].
    apply (Hstep wk0); [exact H0|vm_compute; reflexivity]. }
  exists (at_ wk), wk. split_and!; [exact Hs|reflexivity|vm_compute; reflexivity|].
  by apply (same_tag_order 4 _ (at_ wk) 0 wk 4 Hs).
Defined.
