(* ===== verification/Message.v ===== *)
(** Messages: the header every opbox message starts with (src/src/opbox/common/Message.cpp), the
    helpers that build string messages (MessageHelpers.cpp), and the three formats of kelpie's
    direct ops (src/src/kelpie/ops/direct/msg_direct.cpp).

    A message is a structure followed by [string_data] (or [body]), the bytes written behind it.
    The node a message is built on is the argument [me] ([net::GetMyID]). *)
From S2P Require Import Prelude StringHelpers Identifiers Key KelpieTypes.

Definition MAILBOX_UNSPECIFIED : Z := 0.

Record message_t := mkMessage {
  src : NodeID.t;
  dst : NodeID.t;
  src_mailbox : Z;
  dst_mailbox : Z;
  op_id : Z;
  user_flags : Z;
  body_len : Z }.

#[global] Instance message_eq_dec : EqDecision message_t.
Proof. solve_decision. Defined.

Definition set_flags (m : message_t) (f : Z) : message_t :=
  mkMessage (src m) (dst m) (src_mailbox m) (dst_mailbox m) (op_id m) f (body_len m).
Definition set_dst_mailbox (m : message_t) (mb : Z) : message_t :=
  mkMessage (src m) (dst m) (src_mailbox m) mb (op_id m) (user_flags m) (body_len m).
Definition set_body_len (m : message_t) (n : Z) : message_t :=
  mkMessage (src m) (dst m) (src_mailbox m) (dst_mailbox m) (op_id m) (user_flags m) n.

Definition IsExpected (m : message_t) (expected_op_id : Z) : bool := (op_id m =? expected_op_id)%Z.
Definition IsExpected_flags (m : message_t) (expected_op_id expected_flags : Z) : bool :=
  (op_id m =? expected_op_id)%Z && (user_flags m =? expected_flags)%Z.
Definition IsExpected_mask (m : message_t) (expected_op_id flag_mask expected_flags : Z) : bool :=
  (op_id m =? expected_op_id)%Z && (Z.land (user_flags m) flag_mask =? expected_flags)%Z.

Definition SetStandardRequest (me dst_node : NodeID.t) (mailbox id flags len : Z) : message_t :=
  mkMessage me dst_node mailbox MAILBOX_UNSPECIFIED id flags len.

Definition SetStandardReply (me : NodeID.t) (hdr : message_t) (flags len : Z) : message_t :=
  mkMessage me (src hdr) MAILBOX_UNSPECIFIED (src_mailbox hdr) (op_id hdr) flags len.

(** A reply goes back to the mailbox that asked, and nobody is expected to answer it. *)
Lemma reply_addressed me hdr flags len :
  let r := SetStandardReply me hdr flags len in
  dst r = src hdr ∧ dst_mailbox r = src_mailbox hdr ∧ op_id r = op_id hdr ∧
  src_mailbox r = MAILBOX_UNSPECIFIED.
Proof. done. Qed.

(** * String messages (MessageHelpers.cpp) *)

Definition sizeof_message_t : Z := 40.
Definition MESSAGE_MTU : Z := 2048.
Definition MESSAGE_BODY_MTU : Z := MESSAGE_MTU - sizeof_message_t.

Record string_message := mkStringMessage { sm_hdr : message_t; sm_body : str }.

Definition str_len (s : str) : Z := Z.of_nat (length s).

Definition AllocateStandardMessage (me dst_node : NodeID.t) (mailbox id flags : Z)
    : string_message :=
  mkStringMessage (SetStandardRequest me dst_node mailbox id flags 0) [].

Definition AllocateStringMessage (src_node dst_node : NodeID.t) (smb dmb id flags : Z) (s : str)
    : bool * string_message :=
  ( (MESSAGE_BODY_MTU <? str_len s)%Z,
    mkStringMessage (mkMessage src_node dst_node smb dmb id flags (u32 (str_len s))) s ).

Definition AllocateStringRequestMessage (me dst_node : NodeID.t) (mailbox id flags : Z) (s : str)
    : bool * string_message :=
  ( (MESSAGE_BODY_MTU <? str_len s)%Z,
    mkStringMessage (SetStandardRequest me dst_node mailbox id flags (u32 (str_len s))) s ).

Definition AllocateStringReplyMessage (me : NodeID.t) (request : message_t) (flags : Z) (s : str)
    : bool * string_message :=
  ( (MESSAGE_BODY_MTU <? str_len s)%Z,
    mkStringMessage (SetStandardReply me request flags (u32 (str_len s))) s ).

(** [std::string(body, body_len)]: reading past what was written is undefined. *)
Definition read_bytes (data : str) (n : Z) : outcome str :=
  if (n <=? str_len data)%Z then Ok (take (Z.to_nat n) data) else Throw Undefined.

Definition UnpackStringMessage (m : string_message) : outcome str :=
  read_bytes (sm_body m) (body_len (sm_hdr m)).

Lemma read_all s : read_bytes s (str_len s) = Ok s.
Proof.
  unfold read_bytes, str_len. rewrite (proj2 (Z.leb_le _ _)) by lia.
  by rewrite Nat2Z.id, take_ge by lia.
Qed.

Lemma read_app s t : read_bytes (s ++ t) (str_len s) = Ok s.
Proof.
  unfold read_bytes, str_len. rewrite length_app, (proj2 (Z.leb_le _ _)) by lia.
  by rewrite Nat2Z.id, take_app_length.
Qed.

Lemma str_len_u32 s : (str_len s < 2 ^ 32)%Z → u32 (str_len s) = str_len s.
Proof. intros. apply wrap_id. unfold in_width, str_len in *. lia. Qed.

(** A string that fits a message body of 4 GB comes out as it went in. *)
Lemma string_message_roundtrip me request flags s :
  (str_len s < 2 ^ 32)%Z →
  UnpackStringMessage (AllocateStringReplyMessage me request flags s).2 = Ok s.
Proof. intros Hs. unfold UnpackStringMessage. simpl. by rewrite str_len_u32, read_all. Qed.

(** * Flags of the direct ops *)

Module DirectFlags.
Definition CMD_MASK : Z := 0x00F0.
Definition CMD_COMPUTE : Z := 0x0080.
Definition CMD_PUBLISH : Z := 0x0090.
Definition CMD_GET_BOUNDED : Z := 0x00A0.
Definition CMD_GET_UNBOUNDED : Z := 0x00B0.
Definition CMD_GET_COLINFO : Z := 0x00C0.
Definition CMD_GET_ROWINFO : Z := 0x00D0.
Definition CMD_LIST : Z := 0x00E0.
Definition CMD_DROP : Z := 0x00F0.
Definition CMD_STATUS_ACK : Z := 0x0011.
Definition CMD_STATUS_NACK : Z := 0x0010.
Definition FLAG_IS_COMMAND : Z := 0x0080.
Definition FLAG_CAN_STALL : Z := 0x0002.
Definition FLAG_IS_SUCCESS : Z := 0x0001.

Definition GetCommand (m : message_t) : Z := Z.land (user_flags m) CMD_MASK.
Definition IsCommand (m : message_t) : bool :=
  (Z.land (user_flags m) FLAG_IS_COMMAND =? FLAG_IS_COMMAND)%Z.
Definition IsStatus (m : message_t) : bool := (Z.land (user_flags m) FLAG_IS_COMMAND =? 0)%Z.
Definition CanStall (m : message_t) : bool :=
  (Z.land (user_flags m) FLAG_CAN_STALL =? FLAG_CAN_STALL)%Z.
Definition SetCanStall (m : message_t) (can_stall : bool) : message_t :=
  set_flags m (u16 (Z.lor (Z.land (user_flags m) (Z.lnot FLAG_CAN_STALL))
                      (if can_stall then FLAG_CAN_STALL else 0))).
Definition SetSuccess (m : message_t) (is_success : bool) : message_t :=
  set_flags m (u16 (Z.lor (Z.land (user_flags m) (Z.lnot FLAG_IS_SUCCESS))
                      (if is_success then FLAG_IS_SUCCESS else 0))).
Definition Success (m : message_t) : bool :=
  (Z.land (user_flags m) FLAG_IS_SUCCESS =? FLAG_IS_SUCCESS)%Z.
Definition IsAck (m : message_t) : bool :=
  (Z.land (user_flags m) CMD_STATUS_ACK =? CMD_STATUS_ACK)%Z.
Definition IsNack (m : message_t) : bool :=
  (Z.land (user_flags m) CMD_STATUS_ACK =? CMD_STATUS_NACK)%Z.
End DirectFlags.

(** A flag that is one bit: what a masked comparison reads, and what clearing and setting it
    writes. *)
Lemma land_bit f i : (0 ≤ i)%Z → (Z.land f (2 ^ i) =? 2 ^ i)%Z = Z.testbit f i.
Proof.
  intros Hi. assert (Hp : (2 ^ i ≠ 0)%Z) by (apply Z.pow_nonzero; lia).
  destruct (Z.testbit f i) eqn:E.
  - apply Z.eqb_eq, Z.bits_inj'. intros j Hj. rewrite Z.land_spec, Z.pow2_bits_eqb by done.
    destruct (Z.eqb_spec i j) as [->|]; [by rewrite E|by rewrite andb_false_r].
  - apply Z.eqb_neq. intros Heq. assert (Z.testbit (2 ^ i) i = true) by (by apply Z.pow2_bits_true).
    rewrite <-Heq, Z.land_spec, E in H. done.
Qed.

Lemma testbit_u16 f j : (0 ≤ j < 16)%Z → Z.testbit (u16 f) j = Z.testbit f j.
Proof. intros. unfold wrap. rewrite Z.mod_pow2_bits_low; [done|lia]. Qed.

Lemma testbit_set_flag f i b j :
  (0 ≤ i < 16)%Z → (0 ≤ j < 16)%Z →
  Z.testbit (u16 (Z.lor (Z.land f (Z.lnot (2 ^ i))) (if b : bool then 2 ^ i else 0))) j =
  if decide (i = j) then b else Z.testbit f j.
Proof.
  intros Hi Hj. rewrite testbit_u16, Z.lor_spec, Z.land_spec, Z.lnot_spec by lia.
  rewrite Z.pow2_bits_eqb by lia. case_decide as Hij.
  - subst. rewrite Z.eqb_refl. simpl. rewrite andb_false_r. destruct b; simpl.
    + by rewrite Z.pow2_bits_true by lia.
    + by rewrite Z.testbit_0_l.
  - rewrite (proj2 (Z.eqb_neq _ _)) by done. simpl. rewrite andb_true_r. destruct b.
    + rewrite Z.pow2_bits_false by lia. by rewrite orb_false_r.
    + by rewrite Z.testbit_0_l, orb_false_r.
Qed.

(** The setters of the flags: each changes its own flag and none of the others. *)
Lemma SetSuccess_spec m b :
  DirectFlags.Success (DirectFlags.SetSuccess m b) = b ∧
  DirectFlags.CanStall (DirectFlags.SetSuccess m b) = DirectFlags.CanStall m ∧
  DirectFlags.IsCommand (DirectFlags.SetSuccess m b) = DirectFlags.IsCommand m.
Proof.
  unfold DirectFlags.Success, DirectFlags.CanStall, DirectFlags.IsCommand, DirectFlags.SetSuccess.
  cbn [user_flags set_flags].
  change DirectFlags.FLAG_IS_SUCCESS with (2 ^ 0)%Z. change DirectFlags.FLAG_CAN_STALL with (2 ^ 1)%Z.
  change DirectFlags.FLAG_IS_COMMAND with (2 ^ 7)%Z.
  rewrite !land_bit by lia. by rewrite !testbit_set_flag by lia.
Qed.

Lemma SetCanStall_spec m b :
  DirectFlags.CanStall (DirectFlags.SetCanStall m b) = b ∧
  DirectFlags.Success (DirectFlags.SetCanStall m b) = DirectFlags.Success m ∧
  DirectFlags.IsCommand (DirectFlags.SetCanStall m b) = DirectFlags.IsCommand m.
Proof.
  unfold DirectFlags.Success, DirectFlags.CanStall, DirectFlags.IsCommand, DirectFlags.SetCanStall.
  cbn [user_flags set_flags].
  change DirectFlags.FLAG_IS_SUCCESS with (2 ^ 0)%Z. change DirectFlags.FLAG_CAN_STALL with (2 ^ 1)%Z.
  change DirectFlags.FLAG_IS_COMMAND with (2 ^ 7)%Z.
  rewrite !land_bit by lia. by rewrite !testbit_set_flag by lia.
Qed.

(** * The formats of the direct ops *)

Definition sizeof_msg_direct_simple_t : Z := 64.

(** [meta_plus_data_size] of this format is never written nor read. *)
Record msg_direct_simple_t := mkSimple {
  ms_hdr : message_t;
  ms_k1_size : Z;
  ms_k2_size : Z;
  ms_bucket : Bucket.t;
  ms_iom_hash : Z;
  ms_behavior_flags : Z;
  ms_function_name_size : Z;
  ms_function_args_size : Z;
  ms_string_data : str }.

(** [memcpy] of the first [n] bytes of a string that has at least that many. *)
Definition put_bytes (s : str) (n : Z) : str := take (Z.to_nat n) s.

Definition key_size (key : Key) : Z := str_len (K1 key) + str_len (K2 key).
Definition k1_size (key : Key) : Z := u16 (str_len (K1 key)).
Definition k2_size (key : Key) : Z := u16 (str_len (K2 key)).

(** What the callers do with the result, whether the message exceeds the MTU, is nothing. *)
Definition AllocSimple (me : NodeID.t) (id command_and_flags : Z) (dst_node : NodeID.t)
    (smb dmb : Z) (bucket : Bucket.t) (key : Key) (iom_hash behavior_flags : Z)
    (function_name function_args : str) : msg_direct_simple_t :=
  let string_size := (key_size key + str_len function_name + str_len function_args)%Z in
  let name_size := Z.land (str_len function_name) 0xFF in
  let args_size := Z.land (str_len function_args) 0xFFFF in
  mkSimple
    (set_body_len (set_dst_mailbox (SetStandardRequest me dst_node smb id command_and_flags 0) dmb)
       (u32 (sizeof_msg_direct_simple_t - sizeof_message_t + string_size)))
    (k1_size key) (k2_size key) bucket iom_hash behavior_flags name_size args_size
    (put_bytes (K1 key) (k1_size key) ++ put_bytes (K2 key) (k2_size key)
     ++ put_bytes function_name name_size ++ put_bytes function_args args_size).

(** The key in front of the string data, and what follows it. *)
Definition extract_key (data : str) (n1 n2 : Z) : outcome (Key * str) :=
  s1 ← read_bytes data n1;
  let rest := drop (Z.to_nat n1) data in
  s2 ← read_bytes rest n2;
  let key := mkKey s1 s2 in
  if key_valid key then Ok (key, drop (Z.to_nat n2) rest) else Throw InvalidArgument.

Definition ExtractKeySimple (m : msg_direct_simple_t) : outcome Key :=
  '(key, _) ← extract_key (ms_string_data m) (ms_k1_size m) (ms_k2_size m); Ok key.

Definition ExtractComputeArgs (m : msg_direct_simple_t) : outcome (Key * str * str) :=
  '(key, rest) ← extract_key (ms_string_data m) (ms_k1_size m) (ms_k2_size m);
  name ← read_bytes rest (ms_function_name_size m);
  args ← read_bytes (drop (Z.to_nat (ms_function_name_size m)) rest) (ms_function_args_size m);
  Ok (key, name, args).

Section buffers.
(** A [NetBufferRemote] is the network's handle on a registered object. *)
Context {B D : Type} (no_buffer : B) (GetRdmaPtr : D → B) (user_size : D → Z).

Record msg_direct_buffer_t := mkBuffer {
  mb_hdr : message_t;
  mb_net_buffer_remote : B;
  mb_meta_plus_data_size : Z;
  mb_k1_size : Z;
  mb_k2_size : Z;
  mb_bucket : Bucket.t;
  mb_iom_hash : Z;
  mb_behavior_flags : Z;
  mb_string_data : str }.

Definition sizeof_msg_direct_buffer_t : Z := 136.

Definition SetLDO (m : msg_direct_buffer_t) (ldo_data : option D) : msg_direct_buffer_t :=
  let size := from_option user_size 0%Z ldo_data in
  mkBuffer (mb_hdr m)
    (match ldo_data with
     | Some d => if (size =? 0)%Z then no_buffer else GetRdmaPtr d
     | None => no_buffer
     end)
    size (mb_k1_size m) (mb_k2_size m) (mb_bucket m) (mb_iom_hash m) (mb_behavior_flags m)
    (mb_string_data m).

Definition AllocBuffer (me : NodeID.t) (id command_and_flags : Z) (dst_node : NodeID.t)
    (smb dmb : Z) (bucket : Bucket.t) (key : Key) (iom_hash behavior_flags : Z)
    (ldo_data : option D) : msg_direct_buffer_t :=
  SetLDO
    (mkBuffer
       (set_body_len (set_dst_mailbox (SetStandardRequest me dst_node smb id command_and_flags 0) dmb)
          (u32 (sizeof_msg_direct_buffer_t - sizeof_message_t + key_size key)))
       no_buffer 0 (k1_size key) (k2_size key) bucket iom_hash behavior_flags
       (put_bytes (K1 key) (k1_size key) ++ put_bytes (K2 key) (k2_size key)))
    ldo_data.

Definition ExtractKeyBuffer (m : msg_direct_buffer_t) : outcome Key :=
  '(key, _) ← extract_key (mb_string_data m) (mb_k1_size m) (mb_k2_size m); Ok key.
End buffers.
Arguments msg_direct_buffer_t : clear implicits.

Record msg_direct_status_t := mkStatus {
  mt_hdr : message_t;
  remote_rc : Z;
  object_info : object_info_t }.

Definition sizeof_msg_direct_status_t : Z := 72.

(** The fields are wiped: the code is [KELPIE_OK] and the information is empty until set. *)
Definition AllocStatus (me : NodeID.t) (incoming : message_t) (flags : Z) : msg_direct_status_t :=
  mkStatus (SetStandardReply me incoming flags (sizeof_msg_direct_status_t - sizeof_message_t)) 0 Wipe.
Definition AllocAck (me : NodeID.t) (incoming : message_t) : msg_direct_status_t :=
  AllocStatus me incoming DirectFlags.CMD_STATUS_ACK.
Definition AllocNack (me : NodeID.t) (incoming : message_t) : msg_direct_status_t :=
  AllocStatus me incoming DirectFlags.CMD_STATUS_NACK.

Lemma status_flags me hdr :
  DirectFlags.IsAck (mt_hdr (AllocAck me hdr)) = true ∧
  DirectFlags.Success (mt_hdr (AllocAck me hdr)) = true ∧
  DirectFlags.IsNack (mt_hdr (AllocNack me hdr)) = true ∧
  DirectFlags.Success (mt_hdr (AllocNack me hdr)) = false ∧
  DirectFlags.IsStatus (mt_hdr (AllocAck me hdr)) = true.
Proof. done. Qed.

(** ** Reading back what was written *)

Lemma length_put_bytes s n : (0 ≤ n ≤ str_len s)%Z → str_len (put_bytes s n) = n.
Proof. intros. unfold str_len, put_bytes in *. rewrite length_take. lia. Qed.

Lemma u16_le_len s : (0 ≤ u16 (str_len s) ≤ str_len s)%Z.
Proof. unfold wrap, str_len. split; [by apply Z.mod_pos_bound|]. apply Z.mod_le; lia. Qed.

Lemma land_le_len s n : (0 ≤ n)%Z → (0 ≤ Z.land (str_len s) (Z.ones n) ≤ str_len s)%Z.
Proof.
  intros Hn. rewrite Z.land_ones by done. unfold str_len.
  assert (0 < 2 ^ n)%Z by (by apply Z.pow_pos_nonneg). split; [by apply Z.mod_pos_bound|].
  apply Z.mod_le; lia.
Qed.

Lemma read_put s n rest : (0 ≤ n ≤ str_len s)%Z →
  read_bytes (put_bytes s n ++ rest) n = Ok (put_bytes s n) ∧
  drop (Z.to_nat n) (put_bytes s n ++ rest) = rest.
Proof.
  intros Hn. pose proof (length_put_bytes s n Hn) as Hl. split.
  - rewrite <-Hl at 2. apply read_app.
  - apply drop_app_length'. unfold str_len in Hl. lia.
Qed.

(** The key as it travels: both labels cut to the low 16 bits of their length. *)
Definition wire_key (key : Key) : Key :=
  mkKey (put_bytes (K1 key) (k1_size key)) (put_bytes (K2 key) (k2_size key)).

Lemma extract_put_key key rest :
  extract_key (put_bytes (K1 key) (k1_size key) ++ put_bytes (K2 key) (k2_size key) ++ rest)
    (k1_size key) (k2_size key) =
  if key_valid (wire_key key) then Ok (wire_key key, rest) else Throw InvalidArgument.
Proof.
  unfold extract_key, k1_size, k2_size.
  pose proof (read_put (K1 key) _ (put_bytes (K2 key) (u16 (str_len (K2 key))) ++ rest)
    (u16_le_len (K1 key))) as [-> ->]. simpl.
  pose proof (read_put (K2 key) _ rest (u16_le_len (K2 key))) as [-> ->]. done.
Qed.

Lemma put_bytes_all s n : n = str_len s → put_bytes s n = s.
Proof. intros ->. unfold put_bytes, str_len. rewrite Nat2Z.id. by apply take_ge. Qed.

Lemma wire_key_id key :
  (str_len (K1 key) < 2 ^ 16)%Z → (str_len (K2 key) < 2 ^ 16)%Z → wire_key key = key.
Proof.
  intros H1 H2. unfold wire_key, k1_size, k2_size. destruct key as [k1 k2]. simpl in *.
  rewrite !put_bytes_all; [done|..]; apply wrap_id; unfold in_width, str_len in *; lia.
Qed.

(** What a compute request carries: a request whose labels, function name and arguments fit
    their length fields (64 KB, 256 bytes and 64 KB) arrives as it was sent; in any case the
    receiver reads only bytes that were written. *)
Theorem direct_message_roundtrip me id cmd dst smb dmb b key iom flags name args :
  key_valid key = true →
  (str_len (K1 key) < 2 ^ 16)%Z → (str_len (K2 key) < 2 ^ 16)%Z →
  (str_len name < 2 ^ 8)%Z → (str_len args < 2 ^ 16)%Z →
  let m := AllocSimple me id cmd dst smb dmb b key iom flags name args in
  ExtractComputeArgs m = Ok (key, name, args) ∧ ExtractKeySimple m = Ok key.
Proof.
  intros Hv H1 H2 Hn Ha. cbv zeta. unfold ExtractComputeArgs, ExtractKeySimple, AllocSimple.
  cbn [ms_string_data ms_k1_size ms_k2_size ms_function_name_size ms_function_args_size].
  rewrite extract_put_key, wire_key_id, Hv by done. simpl. split; [|done].
  change 255%Z with (Z.ones 8). change 65535%Z with (Z.ones 16).
  pose proof (read_put name _ (put_bytes args (Z.land (str_len args) (Z.ones 16)))
    (land_le_len name 8 ltac:(done))) as [-> ->]. simpl.
  pose proof (read_put args _ [] (land_le_len args 16 ltac:(done))) as [Hr _].
  rewrite app_nil_r in Hr. rewrite Hr. simpl.
  rewrite !Z.land_ones by done.
  rewrite !put_bytes_all; [done|..]; apply Z.mod_small; unfold str_len in *; lia.
Qed.

(** A longer row label is cut without notice, and different keys arrive as one; one whose length
    is a multiple of 64 KB is rejected. *)
Lemma long_key_truncated me id cmd dst smb dmb b key iom flags name args :
  ExtractKeySimple (AllocSimple me id cmd dst smb dmb b key iom flags name args) =
  if key_valid (wire_key key) then Ok (wire_key key) else Throw InvalidArgument.
Proof.
  unfold ExtractKeySimple. simpl. rewrite extract_put_key. by destruct (key_valid _).
Qed.

Lemma ExtractKeyBuffer_Alloc {B D} (no_buffer : B) (GetRdmaPtr : D → B) user_size me id cmd dst
    smb dmb b key iom flags ldo :
  ExtractKeyBuffer (AllocBuffer no_buffer GetRdmaPtr user_size me id cmd dst smb dmb b key iom
    flags ldo) =
  if key_valid (wire_key key) then Ok (wire_key key) else Throw InvalidArgument.
Proof.
  unfold ExtractKeyBuffer. simpl.
  pose proof (extract_put_key key []) as He. rewrite app_nil_r in He. rewrite He.
  by destruct (key_valid _).
Qed.

Lemma direct_message_roundtrip_witness :
  ExtractComputeArgs (AllocSimple (NodeID.mk 1) 7 DirectFlags.CMD_COMPUTE (NodeID.mk 2) 3 0
      (Bucket.mk 5) (mkKey (lit "row") (lit "col")) 0 0 (lit "min") (lit "x=1")) =
    Ok (mkKey (lit "row") (lit "col"), lit "min", lit "x=1").
Proof.
  apply (direct_message_roundtrip (NodeID.mk 1) 7 DirectFlags.CMD_COMPUTE (NodeID.mk 2) 3 0
    (Bucket.mk 5) (mkKey (lit "row") (lit "col")) 0 0 (lit "min") (lit "x=1")); reflexivity.
Defined.
