(* ===== verification/OpBox.v ===== *)
(** OpBox (src/src/opbox): the types of updates, the registry of op constructors
    (common/OpRegistry.cpp), and the core that owns the active ops of a node and queues their
    updates on the background workers (core/OpBoxCoreThreaded.cpp, ops/Op.cpp). *)
From S2P Require Import Prelude StringHelpers Key KelpieTypes LocalKVRow.

(** * Types (common/Types.hh, Types.cpp) *)

Inductive UpdateType :=
| start | incoming_message | user_trigger
| send_success | get_success | put_success | atomic_success
| timeout
| send_error | get_error | put_error | atomic_error.

#[global] Instance UpdateType_eq_dec : EqDecision UpdateType.
Proof. solve_decision. Defined.

Definition update_code (t : UpdateType) : Z :=
  match t with
  | start => 1001 | incoming_message => 2001 | user_trigger => 3001
  | send_success => 4001 | get_success => 4002 | put_success => 4003 | atomic_success => 4004
  | timeout => 5001
  | send_error => 6001 | get_error => 6002 | put_error => 6003 | atomic_error => 6004
  end.

Inductive WaitingType := waiting_on_cq | wait_on_user | done_and_destroy | error_.

Definition update_str (t : UpdateType) : str :=
  match t with
  | start => lit "start" | incoming_message => lit "incoming_message"
  | user_trigger => lit "user_trigger" | send_success => lit "send_success"
  | get_success => lit "get_success" | put_success => lit "put_success"
  | atomic_success => lit "atomic_success" | timeout => lit "timeout"
  | send_error => lit "send_error" | get_error => lit "get_error"
  | put_error => lit "put_error" | atomic_error => lit "atomic_error"
  end.

Definition waiting_str (t : WaitingType) : str :=
  match t with
  | waiting_on_cq => lit "waiting_on_cq" | wait_on_user => lit "wait_on_user"
  | done_and_destroy => lit "done_and_destroy" | error_ => lit "unknown"
  end.

(** The compile-time hash of an op's name, from the last character to the first. *)
Fixpoint const_hash (input : str) : Z :=
  match input with
  | [] => 5381%Z
  | c :: rest => if c =c? nul then 5381%Z else u32 (schar c + 33 * const_hash rest)
  end.

Definition const_hash16 (input : str) : Z :=
  u16 (Z.lxor (Z.shiftr (const_hash input) 16) (Z.land (const_hash input) 65535)).

(** As the comment at its definition says, it is the run-time hash of the reversed name. *)
Lemma const_hash_reverse s : nul ∉ s → const_hash s = hash_dbj2 (reverse s).
Proof.
  intros Hs. unfold hash_dbj2. rewrite fold_dbj2_32.
  assert (c_str (reverse s) = reverse s) as ->.
  { rewrite <-(app_nil_r (reverse s)) at 1. rewrite c_str_app.
    2:{ apply Forall_forall. intros c Hc ->. by rewrite elem_of_reverse in Hc. }
    apply app_nil_r. }
  induction s as [|c s IH]; [done|]. apply not_elem_of_cons in Hs as [Hc Hs].
  rewrite reverse_cons, fold_left_app. cbn [const_hash fold_left].
  rewrite bool_decide_false by done. rewrite IH by done. unfold dbj2_step32. f_equal. lia.
Qed.

(** Which events the callbacks of ops/OpHelpers.hh pass on. *)
Definition ErrorOnly (t : UpdateType) : bool :=
  (update_code send_error <=? update_code t)%Z && (update_code t <=? update_code atomic_error)%Z.
Definition SuccessOnly (t : UpdateType) : bool := (update_code t <? update_code timeout)%Z.
Definition UnsuccessfulOnly (t : UpdateType) : bool := (update_code timeout <=? update_code t)%Z.
Definition TimeoutOnly (t : UpdateType) : bool := bool_decide (t = timeout).
Definition AllEvents (t : UpdateType) : bool := true.

(** Each event but a timeout goes to exactly one of the success and error callbacks, and a
    timeout goes to neither. *)
Lemma callbacks_partition t :
  SuccessOnly t = negb (UnsuccessfulOnly t) ∧
  UnsuccessfulOnly t = ErrorOnly t || TimeoutOnly t ∧
  ErrorOnly t && TimeoutOnly t = false.
Proof. by destruct t. Qed.

(** * The registry of ops *)

Module OpRegistry.
Section registry.
Context {F : Type}.
Implicit Types f : F.

Record OpRegistry := mkRegistry {
  finalized : bool;
  known_ops_pre : gmap Z F;
  known_ops_post : gmap Z F;
  op_names_pre : gmap Z str;
  op_names_post : gmap Z str }.
Implicit Types r : OpRegistry.

Definition new_registry : OpRegistry := mkRegistry false ∅ ∅ ∅ ∅.

Definition Start r : OpRegistry :=
  mkRegistry true (known_ops_pre r) (known_ops_post r) (op_names_pre r) (op_names_post r).

Definition Finish r : outcome OpRegistry :=
  _ ← F_ASSERT (finalized r); Ok (mkRegistry false ∅ ∅ ∅ ∅).

(** A duplicate ends the process. *)
Definition RegisterOp (op_id : Z) (op_name : str) f r : outcome OpRegistry :=
  match known_ops_pre r !! op_id with
  | Some _ => Throw Exit
  | None =>
      if negb (finalized r) then
        Ok (mkRegistry (finalized r) (<[op_id := f]> (known_ops_pre r)) (known_ops_post r)
              (<[op_id := op_name]> (op_names_pre r)) (op_names_post r))
      else
        match known_ops_post r !! op_id with
        | Some _ => Throw Exit
        | None =>
            Ok (mkRegistry (finalized r) (known_ops_pre r) (<[op_id := f]> (known_ops_post r))
                  (op_names_pre r) (<[op_id := op_name]> (op_names_post r)))
        end
  end.

Definition GetOpName (op_id : Z) r : str :=
  match op_names_pre r !! op_id with
  | Some name => name
  | None => default [] (op_names_post r !! op_id)
  end.

Definition DeregisterOp (op_id : Z) (ignore_lock_warning : bool) r : outcome OpRegistry :=
  match known_ops_pre r !! op_id with
  | Some _ =>
      if finalized r && negb ignore_lock_warning then Throw Exit
      else
        Ok (mkRegistry (finalized r) (delete op_id (known_ops_pre r)) (known_ops_post r)
              (delete op_id (op_names_pre r)) (op_names_post r))
  | None =>
      match known_ops_post r !! op_id with
      | Some _ =>
          Ok (mkRegistry (finalized r) (known_ops_pre r) (delete op_id (known_ops_post r))
                (op_names_pre r) (delete op_id (op_names_post r)))
      | None => Ok r
      end
  end.

(** The constructor [CreateOp] calls. *)
Definition CreateOp (op_id : Z) r : option F :=
  match known_ops_pre r !! op_id with
  | Some f => Some f
  | None => known_ops_post r !! op_id
  end.

(** ** What the registry promises *)

Inductive reg_call :=
| CStart | CFinish | CRegister (op_id : Z) (op_name : str) (f : F)
| CDeregister (op_id : Z) (ignore_lock_warning : bool).

Definition reg_run (c : reg_call) r : outcome OpRegistry :=
  match c with
  | CStart => Ok (Start r)
  | CFinish => Finish r
  | CRegister op_id op_name f => RegisterOp op_id op_name f r
  | CDeregister op_id ignore => DeregisterOp op_id ignore r
  end.

Inductive reachable : OpRegistry → Prop :=
| reach_new : reachable new_registry
| reach_call c r r' : reachable r → reg_run c r = Ok r' → reachable r'.

(** An op is known in at most one of the two lists, has a name exactly while it is known, and
    the second list is empty until the registry is started. *)
Definition reg_ok r : Prop :=
  known_ops_pre r ##ₘ known_ops_post r ∧
  (∀ op_id, is_Some (op_names_pre r !! op_id) ↔ is_Some (known_ops_pre r !! op_id)) ∧
  (∀ op_id, is_Some (op_names_post r !! op_id) ↔ is_Some (known_ops_post r !! op_id)) ∧
  (finalized r = false → known_ops_post r = ∅).

Lemma names_insert {V W} (m : gmap Z V) (m' : gmap Z W) k v w :
  (∀ j, is_Some (m !! j) ↔ is_Some (m' !! j)) →
  ∀ j, is_Some (<[k := v]> m !! j) ↔ is_Some (<[k := w]> m' !! j).
Proof. intros Hm j. rewrite !lookup_insert_is_Some. naive_solver. Qed.

Lemma names_delete {V W} (m : gmap Z V) (m' : gmap Z W) k :
  (∀ j, is_Some (m !! j) ↔ is_Some (m' !! j)) →
  ∀ j, is_Some (delete k m !! j) ↔ is_Some (delete k m' !! j).
Proof. intros Hm j. rewrite !lookup_delete_is_Some. naive_solver. Qed.

Lemma disjoint_insert_l {V} (m1 m2 : gmap Z V) k v :
  m1 ##ₘ m2 → m2 !! k = None → <[k := v]> m1 ##ₘ m2.
Proof. intros. by apply map_disjoint_insert_l. Qed.

Lemma disjoint_insert_r {V} (m1 m2 : gmap Z V) k v :
  m1 ##ₘ m2 → m1 !! k = None → m1 ##ₘ <[k := v]> m2.
Proof. intros. by apply map_disjoint_insert_r. Qed.

#[local] Hint Resolve names_insert names_delete disjoint_insert_l disjoint_insert_r : faodel.

Lemma reg_run_ok c r r' : reg_ok r → reg_run c r = Ok r' → reg_ok r'.
Proof.
  intros (Hd & Hpre & Hpost & Hfin) Hc. unfold reg_ok.
  destruct c as [| |op_id op_name f|op_id ig]; simpl in Hc.
  - by simplify_eq.
  - unfold Finish in Hc. unbind. subst. simpl. split; [apply map_disjoint_empty_l|].
    split_and!; [by intros ?; rewrite !lookup_empty, !is_Some_alt..|done].
  - unfold RegisterOp in Hc. destruct (finalized r) eqn:Ef; simpl in Hc;
      repeat case_match; simplify_eq/=; split_and!; auto with faodel; try congruence.
    apply disjoint_insert_l; [done|]. by rewrite Hfin.
  - unfold DeregisterOp in Hc. repeat case_match; simplify_eq/=; split_and!; auto with faodel.
    + by apply map_disjoint_delete_l.
    + by apply map_disjoint_delete_r.
    + intros Hf. by rewrite Hfin, delete_empty.
Qed.

Lemma registry_reachable_ok r : reachable r → reg_ok r.
Proof.
  induction 1 as [|c r r' _ IH Hc]; [|by eapply reg_run_ok].
  split; [apply map_disjoint_empty_l|].
  split_and!; [by intros ?; cbn; rewrite !lookup_empty, !is_Some_alt..|done].
Qed.

(** The abstract registry: one table of constructors with their names. *)
Definition view r : gmap Z F := known_ops_pre r ∪ known_ops_post r.
Definition view_names r : gmap Z str := op_names_pre r ∪ op_names_post r.

Lemma lookup_view {V} (m1 m2 : gmap Z V) k :
  (m1 ∪ m2) !! k = match m1 !! k with Some v => Some v | None => m2 !! k end.
Proof.
  destruct (m1 !! k) eqn:E; [by apply lookup_union_Some_l|]. by rewrite lookup_union_r.
Qed.

(** The id was registered before the registry was started. *)
Definition early (op_id : Z) r : bool := bool_decide (is_Some (known_ops_pre r !! op_id)).

End registry.
Arguments OpRegistry : clear implicits.
End OpRegistry.

(** * The core

    An op lives at an address; its owner is the core once it is launched.  What an op does in
    [Update] is user code: it maps the op's state and the arguments to the new state, the calls
    it makes on opbox meanwhile, and what it waits for.  [malloc] is the allocator: it returns an
    address that is not in use, and may return one that was freed before. *)
Section core.
Context {S A : Type}.
Abbreviation loc := positive.

Record OpArgs := mkArgs { args_type : UpdateType; args_data : A }.

(** The calls on opbox: launching an op just made (with its own mailbox or not), triggering a
    mailbox through a possibly null shared pointer, a message from the network, and a request to
    the network (a send, get, put or atomic) with a callback of ops/OpHelpers.hh, which holds the
    address of the op that makes it. *)
Inductive call :=
| LaunchNew (auto_create_mailbox : bool) (op_id : Z) (s : S)
| Trigger (mailbox : Z) (args : option OpArgs)
| Incoming (dst_mailbox op_id : Z) (data : A)
| Request.

Context (Update : S → OpArgs → S * list call * WaitingType).
Context (CreateOp : Z → option S).
Context (malloc : gset loc → loc).

Record Op := mkOp { op_mailbox : Z; op_id_of : Z; op_state : S }.

(** [issued] is the number of mailboxes given out: the counter [next_mailbox] starts at 1. *)
Record OpBoxCore := mkCore {
  initialized : bool;
  running : bool;
  shutdown_requested : bool;
  issued : Z;
  heap : gmap loc Op;
  active_ops : gmap Z loc;
  work : list (Z * loc * OpArgs) }.
Implicit Types st : OpBoxCore.

Definition new_core : OpBoxCore := mkCore false false false 0 ∅ ∅ [].

Definition set_issued st n : OpBoxCore :=
  mkCore (initialized st) (running st) (shutdown_requested st) n (heap st) (active_ops st) (work st).
Definition set_heap st h : OpBoxCore :=
  mkCore (initialized st) (running st) (shutdown_requested st) (issued st) h (active_ops st) (work st).
Definition set_active st ops : OpBoxCore :=
  mkCore (initialized st) (running st) (shutdown_requested st) (issued st) (heap st) ops (work st).
Definition set_work st w : OpBoxCore :=
  mkCore (initialized st) (running st) (shutdown_requested st) (issued st) (heap st) (active_ops st) w.

Definition init st : outcome OpBoxCore :=
  _ ← F_ASSERT (negb (initialized st));
  Ok (mkCore true (running st) (shutdown_requested st) (issued st) (heap st) (active_ops st)
        (work st)).

Definition start_core st : outcome OpBoxCore :=
  _ ← F_ASSERT (initialized st);
  Ok (mkCore (initialized st) true (shutdown_requested st) (issued st) (heap st) (active_ops st)
        (work st)).

(** The loop of [finish] erases the entry its iterator stands on, which is undefined as soon as
    there is one. *)
Definition finish st : outcome OpBoxCore :=
  _ ← F_ASSERT (initialized st && running st);
  if bool_decide (active_ops st = ∅)
  then Ok (mkCore false false true (issued st) (heap st) (active_ops st) (work st))
  else Throw Undefined.

(** [GetNextMailbox]: the counter wraps at 32 bits. *)
Definition GetNextMailbox st : Z * OpBoxCore :=
  (u32 (1 + issued st), set_issued st (issued st + 1)).

(** Reading through an op pointer. *)
Definition deref (l : loc) st : outcome Op :=
  match heap st !! l with Some op => Ok op | None => Throw Undefined end.

Definition GetAssignedMailbox (l : loc) st : outcome (Z * OpBoxCore) :=
  op ← deref l st;
  if (op_mailbox op =? 0)%Z then
    let '(mb, st') := GetNextMailbox st in
    Ok (mb, set_heap st' (<[l := mkOp mb (op_id_of op) (op_state op)]> (heap st')))
  else Ok (op_mailbox op, st).

(** The constructors of an op, at the origin and at the target. *)
Definition new_op (auto_create_mailbox : bool) (op_id : Z) (s : S) st : loc * OpBoxCore :=
  let '(mb, st') := if auto_create_mailbox then GetNextMailbox st else (0%Z, st) in
  let l := malloc (dom (heap st')) in
  (l, set_heap st' (<[l := mkOp mb op_id s]> (heap st'))).

Definition getActiveOp (mailbox : Z) st : option loc :=
  if (mailbox =? 0)%Z then None else active_ops st !! mailbox.

Definition addActiveOp (l : loc) st : outcome OpBoxCore :=
  '(mb, st') ← GetAssignedMailbox l st;
  _ ← F_ASSERT (negb (mb =? 0)%Z);
  Ok (set_active st' (<[mb := l]> (active_ops st'))).

Definition endActiveOp (mailbox : Z) st : outcome OpBoxCore :=
  _ ← F_ASSERT (negb (mailbox =? 0)%Z);
  match active_ops st !! mailbox with
  | Some l =>
      _ ← deref l st;
      Ok (set_heap (set_active st (delete mailbox (active_ops st))) (delete l (heap st)))
  | None => Ok st
  end.

(** [backburner::AddWork] of an update. *)
Definition AddWork (mailbox : Z) (l : loc) (args : OpArgs) st : OpBoxCore :=
  set_work st (work st ++ [(mailbox, l, args)]).

Section calls.
Context (no_data : A).

Definition LaunchOp (l : loc) st : outcome (Z * OpBoxCore) :=
  _ ← F_ASSERT (initialized st && running st);
  st1 ← addActiveOp l st;
  '(mb, st2) ← GetAssignedMailbox l st1;
  Ok (mb, AddWork mb l (mkArgs start no_data) st2).

(** [TriggerOp]: a null pointer halts in the sanity check; an op that is gone is reported. *)
Definition TriggerOp (mailbox : Z) (args : option OpArgs) st : outcome (Z * OpBoxCore) :=
  match args with
  | None => Throw Halt
  | Some a =>
      match getActiveOp mailbox st with
      | None => Ok ((-1)%Z, st)
      | Some l => Ok (0%Z, AddWork mailbox l a st)
      end
  end.

Definition HandleIncomingMessage (dst_mailbox op_id : Z) (data : A) st : outcome OpBoxCore :=
  '(mb, l, st1) ←
    (if (dst_mailbox =? 0)%Z then
       match CreateOp op_id with
       | None => Throw Halt
       | Some s =>
           let '(l, st1) := new_op false op_id s st in
           st2 ← addActiveOp l st1;
           '(mb, st3) ← GetAssignedMailbox l st2;
           Ok (mb, l, st3)
       end
     else
       match getActiveOp dst_mailbox st with
       | None => Throw Halt
       | Some l => Ok (dst_mailbox, l, st)
       end);
  '(_, st2) ← GetAssignedMailbox l st1;
  Ok (AddWork mb l (mkArgs incoming_message data) st2).

(** [UpdateOp]: what a network callback calls, with the address it was made with. *)
Definition UpdateOp (l : loc) (args : OpArgs) st : outcome OpBoxCore :=
  '(mb, st') ← GetAssignedMailbox l st;
  Ok (AddWork mb l args st').

Definition do_call (c : call) st : outcome OpBoxCore :=
  match c with
  | LaunchNew auto op_id s =>
      let '(l, st1) := new_op auto op_id s st in
      '(_, st2) ← LaunchOp l st1; Ok st2
  | Trigger mailbox args => '(_, st') ← TriggerOp mailbox args st; Ok st'
  | Incoming dst_mailbox op_id data => HandleIncomingMessage dst_mailbox op_id data st
  | Request => Ok st
  end.

Fixpoint do_calls (cs : list call) st : outcome OpBoxCore :=
  match cs with
  | [] => Ok st
  | c :: cs' => st' ← do_call c st; do_calls cs' st'
  end.

(** [doAction]: run on a background worker with what [AddWork] was given. *)
Definition doAction (item : Z * loc * OpArgs) st : outcome OpBoxCore :=
  let '(mailbox, l, args) := item in
  if negb (mailbox =? 0)%Z && negb (bool_decide (getActiveOp mailbox st = Some l)) then Ok st
  else
    op ← deref l st;
    let '(s', calls, rc) := Update (op_state op) args in
    st1 ← do_calls calls st;
    op1 ← deref l st1;
    let st2 := set_heap st1 (<[l := mkOp (op_mailbox op1) (op_id_of op1) s']> (heap st1)) in
    match rc with
    | done_and_destroy => if negb (mailbox =? 0)%Z then endActiveOp mailbox st2 else Ok st2
    | error_ => Throw Exit
    | _ => Ok st2
    end.

(** The number of active ops, all or of one kind. *)
Definition GetNumberOfActiveOps (op_id : Z) st : nat :=
  if (op_id =? 0)%Z then size (active_ops st)
  else length (filter (λ ml, op_id_of <$> heap st !! ml.2 = Some op_id)
                 (map_to_list (active_ops st))).

(** ** Runs of a node

    Work is taken from the queue of a worker in order; between different mailboxes any order is
    possible ([same_tag_order] in BackBurner).  The mailbox counter must not come round. *)
Definition max_mailboxes : Z := 2 ^ 32 - 1.

(** The number of calls an item of work is about to make. *)
Definition calls_of (item : Z * loc * OpArgs) st : Z :=
  let '(_, l, args) := item in
  match heap st !! l with
  | Some op => Z.of_nat (length (Update (op_state op) args).1.2)
  | None => 0
  end.

Definition next_item st (item : Z * loc * OpArgs) (rest : list (Z * loc * OpArgs)) : Prop :=
  ∃ w1 w2, work st = w1 ++ item :: w2 ∧ rest = w1 ++ w2 ∧ Forall (λ i, i.1.1 ≠ item.1.1) w1.

(** What a network callback passes on: anything but a start, a message and a trigger. *)
Definition completion (a : OpArgs) : bool :=
  (update_code send_success <=? update_code (args_type a))%Z.

Definition is_request (c : call) : bool := match c with Request => true | _ => false end.

(** A call does not pass a trigger off as a completion. *)
Definition call_plain (c : call) : bool :=
  match c with Trigger _ (Some a) => negb (completion a) | _ => true end.

Definition requests (cs : list call) : nat := length (List.filter is_request cs).

(** The callbacks an item of work is about to leave with the network: which op made them, and the
    address they hold. *)
Definition requests_of (item : Z * loc * OpArgs) st : list (Z * loc) :=
  let '(mb, l, args) := item in
  if bool_decide (getActiveOp mb st = Some l) then
    match heap st !! l with
    | Some op => replicate (requests (Update (op_state op) args).1.2) (mb, l)
    | None => []
    end
  else [].

(** A node and the callbacks its network holds.  The network calls any of them, at any time,
    whether its op is still there or not: it has the address and nothing else.  An event that the
    kind of callback does not pass on ([ErrorOnly] and the like) is lost. *)
Inductive reachable : OpBoxCore → list (Z * loc) → Prop :=
| reach_new : reachable new_core []
| reach_init st st' net : reachable st net → init st = Ok st' → reachable st' net
| reach_start st st' net : reachable st net → start_core st = Ok st' → reachable st' net
| reach_finish st st' net : reachable st net → finish st = Ok st' → reachable st' net
| reach_call c st st' net :
    reachable st net → call_plain c = true → (issued st + 1 < max_mailboxes)%Z →
    do_call c st = Ok st' → reachable st' net
| reach_network mb l args n1 n2 st st' :
    reachable st (n1 ++ (mb, l) :: n2) → completion args = true →
    UpdateOp l args st = Ok st' → reachable st' (n1 ++ n2)
| reach_lost cb n1 n2 st : reachable st (n1 ++ cb :: n2) → reachable st (n1 ++ n2)
| reach_work item rest st st' net :
    reachable st net → next_item st item rest →
    (issued st + calls_of item st < max_mailboxes)%Z →
    doAction item (set_work st rest) = Ok st' → reachable st' (net ++ requests_of item st).

(** What the core needs of the code of the ops: an op knows how many of its requests have not been
    answered, and ends with an update that leaves none. *)
Class Disciplined (outstanding : S → nat) : Prop := {
  counts_requests s a :
    outstanding s + requests (Update s a).1.2 ≤
    outstanding (Update s a).1.1 + (if completion a then 1 else 0);
  ends_answered s a : (Update s a).2 = done_and_destroy → outstanding (Update s a).1.1 = 0;
  triggers_plain s a : Forall (λ c, call_plain c = true) (Update s a).1.2 }.

(** The heap holds the active ops and nothing else, each under its own mailbox, and queued work
    names an op that is still there or whose mailbox is no longer in use. *)
Record core_ok st : Prop := {
  ok_issued : (0 ≤ issued st)%Z;
  ok_active mb l : active_ops st !! mb = Some l →
    ∃ op, heap st !! l = Some op ∧ op_mailbox op = mb;
  ok_heap l op : heap st !! l = Some op →
    (0 < op_mailbox op ≤ issued st)%Z ∧ active_ops st !! op_mailbox op = Some l;
  ok_work mb l a : (mb, l, a) ∈ work st →
    (0 < mb ≤ issued st)%Z ∧ ∀ l', active_ops st !! mb = Some l' → l' = l }.

Lemma core_ok_new : core_ok new_core.
Proof.
  split; simpl; [done|..].
  - by intros mb l ?%lookup_empty_Some.
  - by intros l op ?%lookup_empty_Some.
  - by intros mb l a ?%elem_of_nil.
Qed.

Lemma core_ok_sub st w : core_ok st → (∀ i, i ∈ w → i ∈ work st) → core_ok (set_work st w).
Proof. intros [H1 H2 H3 H4] Hw. split; try done. intros mb l a Hin. by apply (H4 mb l a), Hw. Qed.

Lemma AddWork_ok mb l args st :
  core_ok st → active_ops st !! mb = Some l → core_ok (AddWork mb l args st).
Proof.
  intros [H1 H2 H3 H4] Ha. split; try done. intros mb' l' a' Hin. simpl in *.
  apply elem_of_app in Hin as [Hin|Hin%list_elem_of_singleton]; [by apply (H4 _ _ a')|].
  simplify_eq. destruct (H2 _ _ Ha) as (op & Hop & <-). destruct (H3 _ _ Hop) as [? _].
  split; [done|]. intros l' Hl'. congruence.
Qed.

Lemma GetAssignedMailbox_active l op st :
  core_ok st → heap st !! l = Some op → GetAssignedMailbox l st = Ok (op_mailbox op, st).
Proof.
  intros Hok Hop. unfold GetAssignedMailbox, deref. rewrite Hop. simpl.
  destruct (ok_heap _ Hok _ _ Hop) as [? _]. by rewrite (proj2 (Z.eqb_neq _ _)) by lia.
Qed.

(** An op made and entered into the table. *)
Definition with_op l op st : OpBoxCore :=
  set_active (set_heap (set_issued st (issued st + 1)) (<[l := op]> (heap st)))
    (<[op_mailbox op := l]> (active_ops st)).

Lemma with_op_ok l op st :
  core_ok st → heap st !! l = None → op_mailbox op = (issued st + 1)%Z → core_ok (with_op l op st).
Proof.
  intros [H1 H2 H3 H4] Hl Hm.
  assert (Hfresh : active_ops st !! op_mailbox op = None).
  { destruct (active_ops st !! op_mailbox op) as [l'|] eqn:E; [|done].
    destruct (H2 _ _ E) as (op' & Hop' & Heq). destruct (H3 _ _ Hop') as [? _]. lia. }
  split; simpl.
  - lia.
  - intros mb l' [[<- <-]|[Hne Hl']]%lookup_insert_Some.
    + exists op. by rewrite lookup_insert_eq.
    + destruct (H2 _ _ Hl') as (op' & Hop' & ?). exists op'. split; [|done].
      rewrite lookup_insert_ne by congruence. done.
  - intros l' op' [[<- <-]|[Hne Hl']]%lookup_insert_Some.
    + rewrite lookup_insert_eq. split; [lia|done].
    + destruct (H3 _ _ Hl') as [? Hact]. split; [lia|]. rewrite lookup_insert_ne by congruence. done.
  - intros mb l' a Hin. destruct (H4 _ _ _ Hin) as [? Hu]. split; [lia|].
    intros l'' Hl''. rewrite lookup_insert_ne in Hl'' by lia. by apply Hu.
Qed.

Context (malloc_fresh : ∀ X, malloc X ∉ X).

Lemma issued_wrap st : core_ok st → (issued st + 1 < max_mailboxes)%Z →
  u32 (1 + issued st) = (issued st + 1)%Z.
Proof.
  intros Hok Hy. pose proof (ok_issued _ Hok). unfold max_mailboxes in Hy.
  rewrite wrap_id by (unfold in_width; lia). lia.
Qed.

(** Making an op and entering it, whenever it gets its mailbox. *)
Lemma new_op_active auto op_id s st :
  core_ok st → (issued st + 1 < max_mailboxes)%Z →
  ∃ l st1, new_op auto op_id s st = (l, st1) ∧ heap st !! l = None ∧
    addActiveOp l st1 = Ok (with_op l (mkOp (issued st + 1) op_id s) st) ∧
    initialized st1 = initialized st ∧ running st1 = running st.
Proof.
  intros Hok Hy. pose proof (issued_wrap st Hok Hy) as Hw. pose proof (ok_issued _ Hok) as H0.
  set (l := malloc (dom (heap st))).
  assert (Hl : heap st !! l = None) by (apply not_elem_of_dom, malloc_fresh).
  unfold new_op, GetNextMailbox. destruct auto; simpl.
  - exists l, (set_heap (set_issued st (issued st + 1)) (<[l := mkOp (u32 (1 + issued st)) op_id s]>
      (heap st))). split_and!; try done. unfold addActiveOp, GetAssignedMailbox, deref. simpl.
    rewrite lookup_insert_eq. simpl. rewrite Hw.
    by rewrite (proj2 (Z.eqb_neq _ _)) by lia; simpl; rewrite (proj2 (Z.eqb_neq _ _)) by lia.
  - exists l, (set_heap st (<[l := mkOp 0 op_id s]> (heap st))). split_and!; try done.
    unfold addActiveOp, GetAssignedMailbox, deref. simpl. rewrite lookup_insert_eq. simpl.
    rewrite Hw. rewrite (proj2 (Z.eqb_neq _ _)) by lia. simpl. unfold with_op. simpl.
    by rewrite insert_insert_eq.
Qed.

Lemma with_op_mailbox l op st :
  core_ok st → heap st !! l = None → op_mailbox op = (issued st + 1)%Z →
  GetAssignedMailbox l (with_op l op st) = Ok (op_mailbox op, with_op l op st).
Proof.
  intros. apply GetAssignedMailbox_active; [by apply with_op_ok|]. apply lookup_insert_eq.
Qed.

(** What a call leaves behind: a good state, at most one mailbox more, every op still there. *)
Record grows st st' n : Prop := {
  grows_ok : core_ok st';
  grows_issued : (issued st ≤ issued st' ≤ issued st + n)%Z;
  grows_heap : heap st ⊆ heap st';
  grows_active : active_ops st ⊆ active_ops st';
  grows_new mb l : active_ops st' !! mb = Some l → active_ops st !! mb = Some l ∨ (issued st < mb)%Z;
  grows_work : ∃ w, work st' = work st ++ w ∧ Forall (λ i, completion i.2 = false) w }.

Lemma grows_refl st n : core_ok st → (0 ≤ n)%Z → grows st st n.
Proof. intros. split; [done|lia|done|done|by left|]. exists []. by rewrite app_nil_r. Qed.

Lemma grows_trans st1 st2 st3 n m : grows st1 st2 n → grows st2 st3 m → grows st1 st3 (n + m).
Proof.
  intros [? ? ? ? Hn (w & Hw & Hf)] [? ? ? ? Hn' (w' & Hw' & Hf')]. split.
  - done.
  - lia.
  - by etrans.
  - by etrans.
  - intros mb l [Ha|Hlt]%Hn'; [by apply Hn|right; lia].
  - exists (w ++ w'). rewrite Hw', Hw, app_assoc. split; [done|by apply Forall_app].
Qed.

Lemma AddWork_grows mb l args st :
  core_ok st → active_ops st !! mb = Some l → completion args = false →
  grows st (AddWork mb l args st) 1.
Proof.
  intros. split; try done; [by apply AddWork_ok|simpl; lia|by left|].
  exists [(mb, l, args)]. split; [done|by apply Forall_singleton].
Qed.

Lemma with_op_grows l op st mb args :
  core_ok st → heap st !! l = None → op_mailbox op = (issued st + 1)%Z → mb = op_mailbox op →
  completion args = false → grows st (AddWork mb l args (with_op l op st)) 1.
Proof.
  intros Hok Hl Hm -> Hc. split; simpl.
  - apply AddWork_ok; [by apply with_op_ok|]. apply lookup_insert_eq.
  - lia.
  - by apply insert_subseteq.
  - apply insert_subseteq. destruct (active_ops st !! op_mailbox op) as [l'|] eqn:E; [|done].
    destruct (ok_active _ Hok _ _ E) as (op' & Hop' & Heq).
    destruct (ok_heap _ Hok _ _ Hop') as [? _]. lia.
  - intros mb l' [[<- _]|[_ ?]]%lookup_insert_Some; [right; lia|by left].
  - exists [(op_mailbox op, l, args)]. split; [done|by apply Forall_singleton].
Qed.

Lemma do_call_ok c st :
  core_ok st → (issued st + 1 < max_mailboxes)%Z → call_plain c = true →
  match do_call c st with
  | Ok st' => grows st st' 1
  | Throw e => e ≠ Undefined
  end.
Proof.
  intros Hok Hy Hp. assert (Hid : grows st st 1) by by apply grows_refl.
  destruct c as [auto op_id s|mb args|dst op_id data|]; simpl; [| | |done].
  - destruct (new_op_active auto op_id s st Hok Hy) as (l & st1 & -> & Hl & Hadd & Hi & Hr).
    unfold LaunchOp. rewrite Hi, Hr. destruct (initialized st && running st); [|done]. simpl.
    rewrite Hadd. simpl. rewrite with_op_mailbox by done. simpl. by apply with_op_grows.
  - unfold TriggerOp. destruct args as [a|]; [|done]. cbn [call_plain] in Hp. apply negb_true_iff in Hp.
    unfold getActiveOp. destruct (mb =? 0)%Z; [done|].
    destruct (active_ops st !! mb) as [l|] eqn:E; [|done]. simpl. by apply AddWork_grows.
  - unfold HandleIncomingMessage. destruct (dst =? 0)%Z eqn:Ed.
    + destruct (CreateOp op_id) as [s|]; [|done].
      destruct (new_op_active false op_id s st Hok Hy) as (l & st1 & -> & Hl & Hadd & _).
      rewrite Hadd. simpl. rewrite with_op_mailbox by done. simpl.
      rewrite with_op_mailbox by done. simpl. by apply with_op_grows.
    + unfold getActiveOp. rewrite Ed. destruct (active_ops st !! dst) as [l|] eqn:E; [|done].
      destruct (ok_active _ Hok _ _ E) as (op & Hop & Hm). simpl.
      rewrite (GetAssignedMailbox_active l op) by done. simpl. by apply AddWork_grows.
Qed.

Lemma do_calls_ok cs st :
  core_ok st → (issued st + Z.of_nat (length cs) < max_mailboxes)%Z →
  Forall (λ c, call_plain c = true) cs →
  match do_calls cs st with
  | Ok st' => grows st st' (Z.of_nat (length cs))
  | Throw e => e ≠ Undefined
  end.
Proof.
  intros Hok Hy Hp. revert st Hok Hy. induction Hp as [|c cs Hc _ IH]; intros st Hok Hy;
    cbn [do_calls length] in *; [by apply grows_refl|].
  pose proof (do_call_ok c st Hok ltac:(lia) Hc) as H1.
  destruct (do_call c st) as [st1|e]; [|done]. simpl. pose proof (grows_issued _ _ _ H1) as Hi.
  specialize (IH st1 (grows_ok _ _ _ H1) ltac:(lia)).
  destruct (do_calls cs st1) as [st2|e]; [|done].
  replace (Z.of_nat (Datatypes.S (length cs))) with (1 + Z.of_nat (length cs))%Z by lia. by eapply grows_trans.
Qed.

Lemma set_state_ok l op s' st :
  core_ok st → heap st !! l = Some op →
  core_ok (set_heap st (<[l := mkOp (op_mailbox op) (op_id_of op) s']> (heap st))).
Proof.
  intros [H1 H2 H3 H4] Hop. split; simpl; try done.
  - intros mb l' Hl'. destruct (H2 _ _ Hl') as (op' & Hop' & Hm).
    destruct (decide (l' = l)) as [->|Hne].
    + rewrite lookup_insert_eq. simplify_eq. eauto.
    + rewrite lookup_insert_ne by done. eauto.
  - intros l' op' [[<- <-]|[_ Hl']]%lookup_insert_Some; simpl; [by apply H3|by apply H3].
Qed.

Lemma endActiveOp_ok mb l st :
  core_ok st → active_ops st !! mb = Some l →
  ∃ st', endActiveOp mb st = Ok st' ∧ core_ok st' ∧ heap st' !! l = None ∧
    active_ops st' !! mb = None ∧ issued st' = issued st.
Proof.
  intros [H1 H2 H3 H4] Ha. destruct (H2 _ _ Ha) as (op & Hop & Hm).
  destruct (H3 _ _ Hop) as [Hmb _]. unfold endActiveOp, deref.
  rewrite (proj2 (Z.eqb_neq _ _)) by lia. simpl. rewrite Ha, Hop. simpl. eexists. split; [done|].
  simpl. rewrite !lookup_delete_eq. split_and!; try done. split; simpl; try done.
  - intros mb' l' [Hne Hl']%lookup_delete_Some. destruct (H2 _ _ Hl') as (op' & Hop' & Hm').
    exists op'. split; [|done]. apply lookup_delete_Some. split; [|done]. congruence.
  - intros l' op' [Hne Hl']%lookup_delete_Some. destruct (H3 _ _ Hl') as [? Hact].
    split; [done|]. apply lookup_delete_Some. split; [|done]. congruence.
  - intros mb' l' a Hin. destruct (H4 _ _ _ Hin) as [? Hu]. split; [done|].
    intros l'' [_ Hl'']%lookup_delete_Some. by apply Hu.
Qed.

Lemma deref_Some l op st : heap st !! l = Some op → deref l st = Ok op.
Proof. intros Hop. unfold deref. by rewrite Hop. Qed.

Lemma next_item_ok st item rest :
  core_ok st → next_item st item rest → core_ok (set_work st rest) ∧ item ∈ work st.
Proof.
  intros Hok (w1 & w2 & Hw & -> & _). split; [|rewrite Hw; set_solver].
  apply core_ok_sub; [done|]. intros i. rewrite Hw. set_solver.
Qed.

(** ** The callbacks in the network *)
Section disciplined.
Context {outstanding : S → nat} `{!Disciplined outstanding}.
Implicit Types net : list (Z * loc).

(** What is on its way to an op: callbacks the network holds, and completions in the queue. *)
Definition in_net (mb : Z) (l : loc) net : nat := length (filter (λ cb, cb = (mb, l)) net).
Definition in_queue (mb : Z) (l : loc) (w : list (Z * loc * OpArgs)) : nat :=
  length (filter (λ i, i.1 = (mb, l) ∧ completion i.2 = true) w).

(** A callback holds the address of an op that is there, and of an op no more is on its way than it
    has asked for. *)
Record net_ok st net : Prop := {
  net_active mb l : (mb, l) ∈ net → active_ops st !! mb = Some l;
  net_count mb l op : active_ops st !! mb = Some l → heap st !! l = Some op →
    in_net mb l net + in_queue mb l (work st) ≤ outstanding (op_state op) }.

Lemma in_net_app mb l n1 n2 : in_net mb l (n1 ++ n2) = in_net mb l n1 + in_net mb l n2.
Proof. unfold in_net. by rewrite filter_app, length_app. Qed.

Lemma in_queue_app mb l w1 w2 : in_queue mb l (w1 ++ w2) = in_queue mb l w1 + in_queue mb l w2.
Proof. unfold in_queue. by rewrite filter_app, length_app. Qed.

Lemma in_net_cons mb l cb net :
  in_net mb l (cb :: net) = (if decide (cb = (mb, l)) then 1 else 0) + in_net mb l net.
Proof. unfold in_net. rewrite filter_cons. by case_decide. Qed.

Lemma in_queue_cons mb l i w :
  in_queue mb l (i :: w) =
  (if decide (i.1 = (mb, l)) then if completion i.2 then 1 else 0 else 0) + in_queue mb l w.
Proof. unfold in_queue. rewrite filter_cons. repeat case_decide; destruct (completion i.2); naive_solver. Qed.

Lemma in_net_replicate mb l k cb :
  in_net mb l (replicate k cb) = if decide (cb = (mb, l)) then k else 0.
Proof. induction k as [|k IH]; cbn [replicate]; [by case_decide|]. rewrite in_net_cons, IH. by case_decide. Qed.

Lemma filter_none {B} (P : B → Prop) `{!∀ x, Decision (P x)} (xs : list B) :
  (∀ x, x ∈ xs → ¬ P x) → filter P xs = [].
Proof.
  intros Hn. destruct (filter P xs) as [|x xs'] eqn:E; [done|].
  assert (Hin : x ∈ filter P xs) by (rewrite E; apply list_elem_of_here).
  apply list_elem_of_filter in Hin as [HP Hin]. by destruct (Hn x).
Qed.

Lemma in_net_0 mb l net : (mb, l) ∉ net → in_net mb l net = 0.
Proof.
  intros Hn. unfold in_net. rewrite filter_none; [done|]. by intros cb Hcb ->.
Qed.

Lemma in_net_elem mb l net : (mb, l) ∈ net → 0 < in_net mb l net.
Proof.
  intros (n1 & n2 & ->)%list_elem_of_split. rewrite in_net_app, in_net_cons, decide_True by done. lia.
Qed.

Lemma in_queue_plain mb l w : Forall (λ i, completion i.2 = false) w → in_queue mb l w = 0.
Proof.
  induction 1 as [|i w Hi _ IH]; [done|]. rewrite in_queue_cons, IH, Hi. by case_decide.
Qed.

(** Nothing is on its way to a mailbox that has not been given out. *)
Lemma nothing_yet st net mb l :
  core_ok st → net_ok st net → (issued st < mb)%Z → in_net mb l net = 0 ∧ in_queue mb l (work st) = 0.
Proof.
  intros Hok Hn Hlt. split.
  - apply in_net_0. intros Ha%(net_active _ _ Hn). destruct (ok_active _ Hok _ _ Ha) as (op & Hop & <-).
    destruct (ok_heap _ Hok _ _ Hop). lia.
  - unfold in_queue. rewrite filter_none; [done|].
    intros [[mb' l'] a] Hin [[= -> ->] _]. destruct (ok_work _ Hok _ _ _ Hin). lia.
Qed.

Lemma net_ok_grows st st' n net :
  core_ok st → net_ok st net → grows st st' n → net_ok st' net.
Proof.
  intros Hok Hn [Hok' _ Hh Ha Hnew (w & Hw & Hp)]. split.
  - intros mb l Hin. eapply lookup_weaken; [|exact Ha]. by apply (net_active _ _ Hn).
  - intros mb l op Hact Hop. rewrite Hw, in_queue_app, (in_queue_plain _ _ w) by done.
    destruct (Hnew _ _ Hact) as [Hold|Hlt].
    + destruct (ok_active _ Hok _ _ Hold) as (op' & Hop' & _).
      pose proof (lookup_weaken _ _ _ _ Hop' Hh) as Hop2. assert (op' = op) as -> by congruence.
      pose proof (net_count _ _ Hn _ _ _ Hold Hop'). lia.
    + destruct (nothing_yet st net mb l Hok Hn Hlt) as [-> ->]. lia.
Qed.

(** Taking an item from the queue. *)
Lemma next_item_queue st item rest mb l :
  next_item st item rest →
  in_queue mb l (work st) =
  (if decide (item.1 = (mb, l)) then if completion item.2 then 1 else 0 else 0) + in_queue mb l rest.
Proof.
  intros (w1 & w2 & -> & -> & _). rewrite !in_queue_app, in_queue_cons. lia.
Qed.

Lemma net_ok_take st item rest net :
  net_ok st net → next_item st item rest → net_ok (set_work st rest) net.
Proof.
  intros Hn Hi. split; [apply Hn|]. intros mb l op Ha Hop.
  pose proof (net_count _ _ Hn mb l op Ha Hop) as Hc.
  rewrite (next_item_queue _ _ _ mb l Hi) in Hc. cbn [work set_work]. lia.
Qed.

(** The new state of an op, with the callbacks of its update in the network. *)
Lemma net_ok_state st net mb l op s' k :
  core_ok st → net_ok st net → active_ops st !! mb = Some l → heap st !! l = Some op →
  in_net mb l net + k + in_queue mb l (work st) ≤ outstanding s' →
  net_ok (set_heap st (<[l := mkOp (op_mailbox op) (op_id_of op) s']> (heap st)))
    (net ++ replicate k (mb, l)).
Proof.
  intros Hok Hn Ha Hop Hle. split.
  - intros mb' l' [Hin|Hin]%elem_of_app; [by apply (net_active _ _ Hn)|].
    apply elem_of_replicate in Hin as [[= -> ->] _]. done.
  - intros mb' l' op' Ha' Hop'. cbn [active_ops work heap set_heap] in *.
    rewrite in_net_app, in_net_replicate. case_decide as Heq.
    + injection Heq as -> ->. rewrite lookup_insert_eq in Hop'. injection Hop' as <-. simpl. lia.
    + assert (l' ≠ l) as Hne.
      { intros ->. apply Heq. destruct (ok_active _ Hok _ _ Ha') as (o1 & ? & <-).
        destruct (ok_active _ Hok _ _ Ha) as (o2 & ? & <-). congruence. }
      rewrite lookup_insert_ne in Hop' by done. pose proof (net_count _ _ Hn _ _ _ Ha' Hop'). lia.
Qed.

(** The end of an op that has nothing on its way. *)
Lemma net_ok_end st st' net mb l :
  core_ok st → net_ok st net → active_ops st !! mb = Some l → in_net mb l net = 0 →
  endActiveOp mb st = Ok st' → net_ok st' net.
Proof.
  intros Hok Hn Ha H0 He. destruct (ok_active _ Hok _ _ Ha) as (op & Hop & Hm).
  unfold endActiveOp, deref in He. unbind. rewrite Ha, Hop in *. cbn in *. unbind. subst. split; simpl.
  - intros mb' l' Hin. pose proof (net_active _ _ Hn _ _ Hin) as Ha'.
    rewrite lookup_delete_ne; [done|]. intros Heq. pose proof (in_net_elem _ _ _ Hin) as Hpos.
    rewrite <-Heq in *. assert (l' = l) as -> by congruence. lia.
  - intros mb' l' op' [_ Ha']%lookup_delete_Some [_ Hop']%lookup_delete_Some. by apply (net_count _ _ Hn).
Qed.

(** An item of work for an op that has ended changes nothing; for one that is active it reaches
    that op. *)
Lemma item_ok st net mb l args rest :
  core_ok st → net_ok st net → next_item st (mb, l, args) rest →
  (issued st + calls_of (mb, l, args) st < max_mailboxes)%Z →
  match doAction (mb, l, args) (set_work st rest) with
  | Ok st' => core_ok st' ∧ net_ok st' (net ++ requests_of (mb, l, args) st)
  | Throw e => e ≠ Undefined
  end.
Proof.
  intros Hok Hn Hi Hy. destruct (next_item_ok _ _ _ Hok Hi) as [Hok0 Hin].
  destruct (ok_work _ Hok _ _ _ Hin) as [Hmb _]. pose proof (net_ok_take _ _ _ _ Hn Hi) as Hn0.
  unfold doAction, requests_of. change (getActiveOp mb (set_work st rest)) with (getActiveOp mb st).
  rewrite (proj2 (Z.eqb_neq mb 0)) by lia. simpl.
  case_bool_decide as Hact; simpl; [|by rewrite app_nil_r].
  unfold getActiveOp in Hact. rewrite (proj2 (Z.eqb_neq mb 0)) in Hact by lia.
  destruct (ok_active _ Hok _ _ Hact) as (op & Hop & Hm). rewrite Hop.
  rewrite (deref_Some l op) by done. simpl. unfold calls_of in Hy. rewrite Hop in Hy.
  pose proof (counts_requests (op_state op) args) as Hreq.
  pose proof (ends_answered (op_state op) args) as Hend.
  pose proof (triggers_plain (op_state op) args) as Hpl.
  pose proof (net_count _ _ Hn _ _ _ Hact Hop) as Hc.
  rewrite (next_item_queue _ _ _ mb l Hi), decide_True in Hc by done.
  destruct (Update (op_state op) args) as [[s' calls] rc]. simpl in Hy, Hreq, Hend, Hpl, Hc |- *.
  pose proof (do_calls_ok calls (set_work st rest) Hok0 Hy Hpl) as Hcs.
  destruct (do_calls calls (set_work st rest)) as [st1|e]; [|done]. simpl.
  pose proof (net_ok_grows _ _ _ _ Hok0 Hn0 Hcs) as Hn1.
  destruct Hcs as [Hok1 _ Hh Ha _ (w & Hw & Hp)].
  pose proof (lookup_weaken _ _ _ _ Hop Hh) as Hop1. pose proof (lookup_weaken _ _ _ _ Hact Ha) as Ha1.
  rewrite (deref_Some l op) by done. simpl. pose proof (set_state_ok l op s' st1 Hok1 Hop1) as Hok2.
  assert (Hq : in_net mb l net + requests calls + in_queue mb l (work st1) ≤ outstanding s').
  { rewrite Hw, in_queue_app, (in_queue_plain _ _ w) by done. cbn [work set_work]. lia. }
  pose proof (net_ok_state st1 net mb l op s' (requests calls) Hok1 Hn1 Ha1 Hop1 Hq) as Hn2.
  destruct rc; try done. destruct (endActiveOp_ok mb l _ Hok2 Ha1) as (st' & He & ? & _). rewrite He.
  split; [done|]. eapply net_ok_end; [exact Hok2|exact Hn2|exact Ha1| |exact He].
  rewrite in_net_app, in_net_replicate, decide_True by done. rewrite Hend in Hq by done. lia.
Qed.

(** A callback of the network finds the op that made it. *)
Lemma callback_finds st net mb l args :
  core_ok st → net_ok st net → (mb, l) ∈ net → UpdateOp l args st = Ok (AddWork mb l args st).
Proof.
  intros Hok Hn Hin. pose proof (net_active _ _ Hn _ _ Hin) as Ha.
  destruct (ok_active _ Hok _ _ Ha) as (op & Hop & <-).
  unfold UpdateOp. by rewrite (GetAssignedMailbox_active l op).
Qed.

Lemma callback_queued st mb l args n1 n2 :
  core_ok st → net_ok st (n1 ++ (mb, l) :: n2) → net_ok (AddWork mb l args st) (n1 ++ n2).
Proof.
  intros Hok Hn. split; simpl.
  - intros mb' l' Hin. apply (net_active _ _ Hn). set_solver.
  - intros mb' l' op Ha Hop. pose proof (net_count _ _ Hn _ _ _ Ha Hop) as Hc.
    rewrite in_net_app, in_net_cons in Hc. rewrite in_net_app, in_queue_app, in_queue_cons. simpl.
    change (in_queue mb' l' []) with 0. case_decide; destruct (completion args); lia.
Qed.

Lemma net_ok_flags st st' net :
  active_ops st' = active_ops st → heap st' = heap st → work st' = work st → net_ok st net → net_ok st' net.
Proof. intros Ha Hh Hw [H1 H2]. split; rewrite ?Ha, ?Hh, ?Hw; done. Qed.

Lemma core_reachable_ok st net : reachable st net → core_ok st ∧ net_ok st net.
Proof.
  induction 1 as [|st st' net _ [IH In] Hs|st st' net _ [IH In] Hs|st st' net _ [IH In] Hs
    |c st st' net _ [IH In] Hp Hy Hs|mb l args n1 n2 st st' _ [IH In] Hc Hs|cb n1 n2 st _ [IH In]
    |[[mb l] a] rest st st' net _ [IH In] Hn Hy Hs].
  - split; [apply core_ok_new|]. split; [by intros mb l ?%elem_of_nil|]. intros mb l op Ha.
    cbn in Ha. by apply lookup_empty_Some in Ha.
  - unfold init in Hs. unbind. subst. split; [by destruct IH|by apply (net_ok_flags st)].
  - unfold start_core in Hs. unbind. subst. split; [by destruct IH|by apply (net_ok_flags st)].
  - unfold finish in Hs. unbind. case_match; unbind; subst. split; [by destruct IH|by apply (net_ok_flags st)].
  - pose proof (do_call_ok c st IH Hy Hp) as Hg. rewrite Hs in Hg. split; [apply Hg|by eapply net_ok_grows].
  - assert (Hin : (mb, l) ∈ n1 ++ (mb, l) :: n2) by set_solver.
    rewrite (callback_finds st _ mb l args IH In Hin) in Hs. injection Hs as <-. split.
    + apply AddWork_ok; [done|]. by apply (net_active _ _ In).
    + by apply callback_queued.
  - split; [done|]. split; [intros mb l Hin; apply (net_active _ _ In); set_solver|].
    intros mb l op Ha Hop. pose proof (net_count _ _ In _ _ _ Ha Hop) as Hc.
    rewrite in_net_app, in_net_cons in Hc. rewrite in_net_app. lia.
  - pose proof (item_ok st net mb l a rest IH In Hn Hy) as Hi. by rewrite Hs in Hi.
Qed.

(** C6: Ops are neither leaked nor used after they end, when no op ends while a request of its own
    is unanswered ([Disciplined]) and fewer than 2^32 - 1 mailboxes are handed out.  Along every run
    of a node the ops in memory are exactly the active ones, each under one mailbox of its own;
    whatever work is taken from the queue next, and although freed addresses are reused, it never
    touches memory that is not a live op; work that was queued for an op either finds that op under
    its mailbox or finds the mailbox unused; and whenever the network calls back, which it may do
    for any request it has, through the bare address, the op that made the request is there and
    gets the update. *)
Theorem opbox_memory_safe st net :
  reachable st net →
  (∀ l, is_Some (heap st !! l) ↔ ∃ mb, active_ops st !! mb = Some l) ∧
  (∀ mb mb' l, active_ops st !! mb = Some l → active_ops st !! mb' = Some l → mb = mb') ∧
  (∀ item rest, next_item st item rest →
     (issued st + calls_of item st < max_mailboxes)%Z →
     doAction item (set_work st rest) ≠ Throw Undefined) ∧
  (∀ mb l a l', (mb, l, a) ∈ work st → active_ops st !! mb = Some l' → l' = l) ∧
  (∀ mb l args, (mb, l) ∈ net →
     active_ops st !! mb = Some l ∧ UpdateOp l args st = Ok (AddWork mb l args st)).
Proof.
  intros [Hok Hnet]%core_reachable_ok. split_and!.
  - intros l. split.
    + intros [op Hop]. exists (op_mailbox op). by apply (ok_heap _ Hok).
    + intros [mb Ha]. destruct (ok_active _ Hok _ _ Ha) as (op & ? & _). eauto.
  - intros mb mb' l H1 H2. destruct (ok_active _ Hok _ _ H1) as (op & ? & <-).
    destruct (ok_active _ Hok _ _ H2) as (op' & ? & <-). congruence.
  - intros [[mb l] a] rest Hn Hy Hd. pose proof (item_ok st net mb l a rest Hok Hnet Hn Hy) as Hi.
    by rewrite Hd in Hi.
  - intros mb l a l' Hin Ha. by destruct (ok_work _ Hok _ _ _ Hin) as [_ ?]; auto.
  - intros mb l args Hin. split; [by apply (net_active _ _ Hnet)|by eapply callback_finds].
Qed.
End disciplined.

(** The end of an op: when an update says so, the op leaves the table and its memory is freed,
    so that nothing queued for it later is delivered. *)
Lemma done_frees mb l a op st rest s' :
  core_ok st → next_item st (mb, l, a) rest → active_ops st !! mb = Some l →
  heap st !! l = Some op → Update (op_state op) a = (s', [], done_and_destroy) →
  ∃ st', doAction (mb, l, a) (set_work st rest) = Ok st' ∧ heap st' !! l = None ∧
    getActiveOp mb st' = None.
Proof.
  intros Hok Hn Ha Hop Hu. destruct (next_item_ok _ _ _ Hok Hn) as [Hok' Hin].
  destruct (ok_work _ Hok _ _ _ Hin) as [Hmb _].
  unfold doAction, getActiveOp. rewrite (proj2 (Z.eqb_neq mb 0)) by lia. simpl.
  rewrite Ha, bool_decide_true by done. simpl.
  rewrite (deref_Some l op) by done. simpl. rewrite Hu. simpl. rewrite (deref_Some l op) by done. simpl.
  pose proof (set_state_ok l op s' (set_work st rest) Hok' Hop) as Hok2.
  destruct (endActiveOp_ok mb l _ Hok2 Ha) as (st' & Hend & _ & ? & ? & _). eauto.
Qed.

(** A network callback that comes after the op has ended reads freed memory. *)
Lemma UpdateOp_dangling l args st : heap st !! l = None → UpdateOp l args st = Throw Undefined.
Proof. intros Hl. unfold UpdateOp, GetAssignedMailbox, deref. by rewrite Hl. Qed.

(** Finishing a core that still has active ops is undefined. *)
Lemma finish_undefined st :
  initialized st = true → running st = true → active_ops st ≠ ∅ → finish st = Throw Undefined.
Proof. intros Hi Hr Ha. unfold finish. rewrite Hi, Hr, bool_decide_false by done. done. Qed.
End calls.
End core.
Arguments OpArgs : clear implicits.
Arguments Op : clear implicits.
Arguments OpBoxCore : clear implicits.
Arguments call : clear implicits.

(** * The events of the key/value store

    A cell that is filled triggers the ops waiting on it, one after the other, in the thread
    that filled it. *)
Section events.
Context {D : Type} `{LdoOps D} {S : Type}.

Definition deliver (ev : event D) (st : OpBoxCore S (D * object_info_t))
    : outcome (OpBoxCore S (D * object_info_t)) :=
  match ev with
  | EvTrigger mb args => '(_, st') ← TriggerOp mb (mkArgs user_trigger <$> args) st; Ok st'
  | _ => Ok st
  end.

Fixpoint deliver_all (evs : list (event D)) (st : OpBoxCore S (D * object_info_t))
    : outcome (OpBoxCore S (D * object_info_t)) :=
  match evs with
  | [] => Ok st
  | ev :: evs' => st' ← deliver ev st; deliver_all evs' st'
  end.

Lemma deliver_cases ev st :
  deliver ev st = Throw Halt ∧ (∃ mb, ev = EvTrigger mb None) ∨ ∃ st', deliver ev st = Ok st'.
Proof.
  destruct ev as [| |mb [args|]]; simpl; eauto. right. unfold TriggerOp. simpl.
  destruct (getActiveOp mb st); simpl; eauto.
Qed.

Lemma deliver_null evs st mb : EvTrigger mb None ∈ evs → deliver_all evs st = Throw Halt.
Proof.
  revert st. induction evs as [|ev evs IH]; intros st Hin; [by apply elem_of_nil in Hin|].
  simpl. destruct (deliver_cases ev st) as [[-> _]|[st' Hd]]; [done|].
  apply elem_of_cons in Hin as [<-|Hin]; [by simpl in Hd|]. rewrite Hd. simpl. by apply IH.
Qed.

(** Two remote gets waiting on the same key stop the node: filling the cell triggers the second
    op with the null pointer the first trigger left behind, and the thread that published the
    object halts in the sanity check, with the mutex of the row locked, before the callbacks of
    the cell are queued. *)
Theorem second_waiter_halts r key (c : LocalKVCell D) mb mb0 st :
  mb ∈ waiting_ops_list c → mb0 ∈ waiting_ops_list c → (mb0 < mb)%Z →
  deliver_all (dispatchCallbacksAndNotifications r key c).2 st = Throw Halt.
Proof.
  intros Hmb Hmb0 Hlt. destruct (dispatch_args_moved r key c mb mb0) as [Hin _]; [done..|].
  by apply (deliver_null _ _ mb).
Qed.
End events.

(** * Witnesses *)


(** An op that asks the network for something when it starts and ends with the answer; its state
    is the number of answers it waits for. *)
Definition one_request (s : nat) (args : OpArgs unit) : nat * list (call nat unit) * WaitingType :=
  match args_type args with
  | start => (Datatypes.S s, [Request], waiting_on_cq)
  | get_success => if decide (s ≤ 1) then (0, [], done_and_destroy) else (pred s, [], waiting_on_cq)
  | _ => (s, [], waiting_on_cq)
  end.

#[global] Instance one_request_disciplined : Disciplined one_request id.
Proof.
  split; intros s [[] []]; unfold one_request, requests, id; cbn; try case_decide; cbn;
    first [lia | done | repeat constructor].
Qed.

(** One that does not wait for the answer. *)
Definition no_wait (s : nat) (args : OpArgs unit) : nat * list (call nat unit) * WaitingType :=
  (s, [Request], done_and_destroy).

Definition launched : OpBoxCore nat unit :=
  AddWork 1 1%positive (mkArgs start ())
    (with_op 1 (mkOp 1 9 0) (mkCore true true false 0 ∅ ∅ [])).

Lemma launched_reachable Update : reachable Update (λ _, None) fresh () launched [].
Proof.
  apply (reach_call _ _ _ _ (LaunchNew true 9 0) (mkCore true true false 0 ∅ ∅ []));
    [|reflexivity|reflexivity|vm_compute; reflexivity].
  apply (reach_start _ _ _ _ (mkCore true false false 0 ∅ ∅ [])); [|reflexivity].
  apply (reach_init _ _ _ _ new_core); [|reflexivity]. constructor.
Qed.

Lemma opbox_memory_safe_witness :
  ∃ st, reachable one_request (λ _, None) fresh () st [(1%Z, 1%positive)] ∧
    UpdateOp 1 (mkArgs get_success ()) st = Ok (AddWork 1 1 (mkArgs get_success ()) st).
Proof.
  pose (st := set_work (set_heap launched {[1%positive := mkOp 1 9 1]}) []).
  assert (Hr : reachable one_request (λ _, None) fresh () st [(1%Z, 1%positive)]).
  { apply (reach_work _ _ _ _ (1%Z, 1%positive, mkArgs start ()) [] launched st []
      (launched_reachable one_request)); [|reflexivity|vm_compute; reflexivity].
    exists [], []. split_and!; [reflexivity|reflexivity|constructor]. }
  exists st. split; [exact Hr|].
  apply (opbox_memory_safe one_request (λ _, None) fresh () is_fresh (outstanding := id) st _ Hr).
  apply list_elem_of_here.
Defined.

(** Without the discipline the network calls back into freed memory. *)
Lemma no_wait_dangles :
  ∃ st, reachable no_wait (λ _, None) fresh () st [(1%Z, 1%positive)] ∧
    UpdateOp 1 (mkArgs get_success ()) st = Throw Undefined.
Proof.
  pose (st := set_work (set_heap (set_active launched ∅) ∅) []).
  exists st. split; [|reflexivity].
  apply (reach_work _ _ _ _ (1%Z, 1%positive, mkArgs start ()) [] launched st []
    (launched_reachable no_wait)); [|reflexivity|vm_compute; reflexivity].
  exists [], []. split_and!; [reflexivity|reflexivity|constructor].
Qed.

Lemma second_waiter_halts_witness :
  let c := appendWaitingList 2 (appendWaitingList 1 (new_cell (D := option ldo_content) 0)) in
  deliver_all (dispatchCallbacksAndNotifications (new_row (lit "r")) (row_key (lit "r")) c).2
    (new_core (S := nat)) = Throw Halt.
Proof.
  apply (second_waiter_halts (new_row (lit "r")) (row_key (lit "r"))
    (appendWaitingList 2 (appendWaitingList 1 (new_cell 0))) 2 1).
  - cbn [waiting_ops_list appendWaitingList]. set_solver.
  - cbn [waiting_ops_list appendWaitingList]. set_solver.
  - reflexivity.
Defined.
