(* ===== verification/OpPing.v ===== *)
(** The ops that come with OpBox (src/src/opbox/ops/OpPing.cpp, OpCount.cpp).

    A ping sends a string to another node, which sends it back in upper case.  The origin and the
    target are state machines; [pstep] lets the messages and the completions of the sends arrive in
    every order.  [ping_returns]: where the completion of the origin's send does not come after the
    answer, the ping comes to its end and the future is the string in upper case;
    [ping_overtaken]: where it does, it is delivered to an op that is gone. *)
From S2P Require Import Prelude StringHelpers Identifiers Message OpBox.

Definition islower (c : ascii) : bool := (97 <=? code c)%Z && (code c <=? 122)%Z.
(** [::toupper] on each [char].  The standard defines it for values of [unsigned char] only; a
    [char] of 128 and above is passed as a negative [int], for which the table of glibc, in the
    locale that a process starts in, has the character itself. *)
Definition toupper (c : ascii) : ascii := if islower c then char_of (code c - 32) else c.
Definition uppercase (s : str) : str := toupper <$> s.

(** * The op *)

Definition OpPing_id : Z := const_hash (lit "OpPing").

Inductive State := State_start | snd_wait_for_sent | snd_wait_for_reply | rcv_wait_for_reply_sent | State_done.

(** An update: an event of the network or the start, or a message with its sender. *)
Inductive ping_args :=
| Event (t : UpdateType)
| Incoming (sender : NodeID.t) (m : string_message).

Definition ping_type (a : ping_args) : UpdateType :=
  match a with Event t => t | Incoming _ _ => incoming_message end.

(** A peer is known by its node; the null pointer is [None].  The message is gone once it is sent;
    the promise is what was handed to the future. *)
Record OpPing := mkPing {
  state : State;
  peer : option NodeID.t;
  ldo_msg : option string_message;
  ping_promise : option str
}.

(** The constructors: at the origin, with the mailbox that was assigned, and at the target. *)
Definition OpPing_origin (me dst : NodeID.t) (mailbox : Z) (ping_message : str) : OpPing :=
  mkPing State_start (Some dst)
    (Some (AllocateStringRequestMessage me dst mailbox OpPing_id 0 ping_message).2) None.
Definition OpPing_target : OpPing := mkPing State_start None None None.

Definition updateState (p : OpPing) (new_state : State) : OpPing :=
  mkPing new_state (peer p) (ldo_msg p) (ping_promise p).

(** What an update gives: the op, what it sends, and what it waits for. *)
Definition result : Type := OpPing * list (NodeID.t * string_message) * WaitingType.

(** [SendMsg] of a message that was moved away reads a null pointer. *)
Definition SendMsg (p : OpPing) (next : State) : outcome result :=
  match peer p, ldo_msg p with
  | Some dst, Some m => Ok (mkPing next (peer p) None (ping_promise p), [(dst, m)], waiting_on_cq)
  | _, _ => Throw Undefined
  end.

Definition ExpectMessageOrDie (a : ping_args) : outcome (NodeID.t * string_message) :=
  match a with Incoming sender m => Ok (sender, m) | _ => Throw RuntimeError end.

Definition smo_Start (p : OpPing) : outcome result :=
  _ ← F_ASSERT (bool_decide (is_Some (peer p)));
  SendMsg p snd_wait_for_sent.

(** Setting a promise a second time throws. *)
Definition smo_WaitReply (p : OpPing) (a : ping_args) : outcome result :=
  '(_, m) ← ExpectMessageOrDie a;
  user_data ← UnpackStringMessage m;
  match ping_promise p with
  | Some _ => Throw RuntimeError
  | None => Ok (mkPing State_done (peer p) (ldo_msg p) (Some user_data), [], done_and_destroy)
  end.

Definition smo_WaitSend (p : OpPing) (a : ping_args) : outcome result :=
  if bool_decide (ping_type a = send_success) then Ok (updateState p snd_wait_for_reply, [], waiting_on_cq)
  else if bool_decide (ping_type a = incoming_message) then smo_WaitReply p a
  else Ok (p, [], error_).

Definition smt_Start (me : NodeID.t) (p : OpPing) (a : ping_args) : outcome result :=
  '(sender, m) ← ExpectMessageOrDie a;
  s ← UnpackStringMessage m;
  SendMsg (mkPing (state p) (Some sender) (Some (AllocateStringReplyMessage me (sm_hdr m) 0 (uppercase s)).2)
             (ping_promise p)) rcv_wait_for_reply_sent.

Definition smt_WaitOnSent (p : OpPing) (a : ping_args) : outcome result :=
  if bool_decide (ping_type a = send_success) then Ok (updateState p State_done, [], done_and_destroy)
  else Throw RuntimeError.

Definition UpdateOrigin (p : OpPing) (a : ping_args) : outcome result :=
  match state p with
  | State_start => smo_Start p
  | snd_wait_for_sent => smo_WaitSend p a
  | snd_wait_for_reply => smo_WaitReply p a
  | State_done => Ok (p, [], done_and_destroy)
  | rcv_wait_for_reply_sent => Throw AssertFailed
  end.

Definition UpdateTarget (me : NodeID.t) (p : OpPing) (a : ping_args) : outcome result :=
  match state p with
  | State_start => smt_Start me p a
  | rcv_wait_for_reply_sent => smt_WaitOnSent p a
  | State_done => Ok (p, [], done_and_destroy)
  | _ => Throw AssertFailed
  end.

(** * OpCount *)

Module Count.
Inductive State := start_ | done_.
Record OpCount := mkCount { num_left : Z; c_state : State }.
Definition new_count (n : Z) : OpCount := mkCount n start_.

(** [num_left] is an [int]: going below its range is undefined. *)
Definition UpdateOrigin (o : OpCount) (t : UpdateType) : outcome (OpCount * WaitingType) :=
  match c_state o with
  | start_ =>
      _ ← F_ASSERT (bool_decide (t = user_trigger));
      n ← (if (num_left o =? 0)%Z then Ok 0%Z
           else if (num_left o =? - 2 ^ 31)%Z then Throw Undefined else Ok (num_left o - 1)%Z);
      if (n =? 0)%Z then Ok (mkCount n done_, done_and_destroy) else Ok (mkCount n start_, wait_on_user)
  | done_ => Ok (o, done_and_destroy)
  end.

Fixpoint triggers (k : nat) (o : OpCount) : outcome (OpCount * list WaitingType) :=
  match k with
  | 0 => Ok (o, [])
  | S k => '(o, w) ← UpdateOrigin o user_trigger; '(o, ws) ← triggers k o; Ok (o, w :: ws)
  end.

(** An op that counts [n] asks for more until it was triggered [n] times, and ends then. *)
Theorem counts_down n :
  0 < n → (Z.of_nat n < 2 ^ 31)%Z →
  triggers n (new_count (Z.of_nat n)) = Ok (mkCount 0 done_, replicate (n - 1) wait_on_user ++ [done_and_destroy]).
Proof.
  induction n as [|n IH]; intros Hn Hb; [lia|]. cbn [triggers]. unfold UpdateOrigin, new_count. cbn [c_state num_left].
  rewrite bool_decide_eq_true_2 by done. cbn [F_ASSERT mbind outcome_bind].
  rewrite (proj2 (Z.eqb_neq (Z.of_nat (S n)) 0)), (proj2 (Z.eqb_neq (Z.of_nat (S n)) (- 2 ^ 31))) by lia.
  cbn [mbind outcome_bind]. replace (Z.of_nat (S n) - 1)%Z with (Z.of_nat n) by lia.
  destruct n as [|n]; [done|]. rewrite (proj2 (Z.eqb_neq (Z.of_nat (S n)) 0)) by lia. cbn [mbind outcome_bind].
  fold (new_count (Z.of_nat (S n))). rewrite IH by lia. cbn [mbind outcome_bind].
  replace (S (S n) - 1) with (S (S n - 1)) by lia. done.
Qed.

Lemma counts_down_witness : triggers 3 (new_count 3) = Ok (mkCount 0 done_, [wait_on_user; wait_on_user; done_and_destroy]).
Proof. apply (counts_down 3); lia. Defined.
End Count.

(** * Two nodes *)

(** The origin op and the future it serves, the target op, the messages on their way, and the
    completions of sends that have not been delivered.  An op that has ended is [None]. *)
Record world := mkWorld {
  origin : option OpPing;
  future : option str;
  target : option OpPing;
  request : option string_message;
  reply : option string_message;
  origin_sends : bool;
  target_sends : bool
}.

(** The op after an update; a state machine that reports an error ends the process. *)
Definition after (w : WaitingType) (p : OpPing) : outcome (option OpPing) :=
  match w with done_and_destroy => Ok None | error_ => Throw Exit | _ => Ok (Some p) end.

Definition launch (oid tid : NodeID.t) (mailbox : Z) (s : str) : outcome world :=
  '(p, out, w) ← UpdateOrigin (OpPing_origin oid tid mailbox s) (Event start);
  op ← after w p;
  Ok (mkWorld op None None (snd <$> head out) None true false).

Inductive arrival := Request_arrives | Reply_arrives | Origin_sent | Target_sent.

(** An update of the origin. *)
Definition to_origin (p : OpPing) (a : ping_args) (w : world) : outcome world :=
  '(p, _, wt) ← UpdateOrigin p a;
  op ← after wt p;
  Ok (mkWorld op (ping_promise p) (target w) (request w) (reply w) (origin_sends w) (target_sends w)).

(** What arrives; [None] when it is not on its way.  A message to a mailbox without an op is
    dropped, the completion of a send goes to the op it was made for. *)
Definition pstep (oid tid : NodeID.t) (ar : arrival) (w : world) : option (outcome world) :=
  match ar with
  | Request_arrives =>
      m ← request w;
      Some ('(p, out, wt) ← UpdateTarget tid OpPing_target (Incoming oid m);
            op ← after wt p;
            Ok (mkWorld (origin w) (future w) op None (snd <$> head out) (origin_sends w) true))
  | Reply_arrives =>
      m ← reply w;
      let w := mkWorld (origin w) (future w) (target w) (request w) None (origin_sends w) (target_sends w) in
      Some match origin w with None => Ok w | Some p => to_origin p (Incoming tid m) w end
  | Origin_sent =>
      if origin_sends w then
        let w := mkWorld (origin w) (future w) (target w) (request w) (reply w) false (target_sends w) in
        Some match origin w with None => Throw Undefined | Some p => to_origin p (Event send_success) w end
      else None
  | Target_sent =>
      if target_sends w then
        let w := mkWorld (origin w) (future w) (target w) (request w) (reply w) (origin_sends w) false in
        Some match target w with
             | None => Throw Undefined
             | Some p =>
                 '(p, _, wt) ← UpdateTarget tid p (Event send_success);
                 op ← after wt p;
                 Ok (mkWorld (origin w) (future w) op (request w) (reply w) (origin_sends w) (target_sends w))
             end
      else None
  end.

Fixpoint prun (oid tid : NodeID.t) (ars : list arrival) (w : world) : option (outcome world) :=
  match ars with
  | [] => Some (Ok w)
  | ar :: ars =>
      match pstep oid tid ar w with
      | Some (Ok w) => prun oid tid ars w
      | Some (Throw e) => if bool_decide (ars = []) then Some (Throw e) else None
      | None => None
      end
  end.

#[global] Instance arrival_eq_dec : EqDecision arrival.
Proof. solve_decision. Defined.

(** ** The worlds of a ping *)

Section ping.
Context (oid tid : NodeID.t) (mailbox : Z) (s : str).
Hypothesis short : (str_len s < 2 ^ 32)%Z.

Definition req : string_message := (AllocateStringRequestMessage oid tid mailbox OpPing_id 0 s).2.
Definition rep : string_message := (AllocateStringReplyMessage tid (sm_hdr req) 0 (uppercase s)).2.

(** How far the target is. *)
Inductive progress := Asked | Answering | Answered.

Definition at_ (t : progress) (replied sent : bool) : world :=
  mkWorld
    (if replied then None
     else Some (mkPing (if sent then snd_wait_for_reply else snd_wait_for_sent) (Some tid) None None))
    (if replied then Some (uppercase s) else None)
    (match t with Answering => Some (mkPing rcv_wait_for_reply_sent (Some oid) None None) | _ => None end)
    (match t with Asked => Some req | _ => None end)
    (match t with Asked => None | _ => if replied then None else Some rep end)
    (negb sent)
    (match t with Answering => true | _ => false end).

Lemma unpack_req : UnpackStringMessage req = Ok s.
Proof. unfold UnpackStringMessage. cbn. rewrite str_len_u32 by done. apply read_all. Qed.

Lemma str_len_upper : str_len (uppercase s) = str_len s.
Proof. unfold str_len, uppercase. by rewrite length_fmap. Qed.

Lemma unpack_rep : UnpackStringMessage rep = Ok (uppercase s).
Proof.
  unfold UnpackStringMessage. cbn -[uppercase]. rewrite str_len_upper, str_len_u32 by done.
  rewrite <-str_len_upper. apply read_all.
Qed.

Lemma launched : launch oid tid mailbox s = Ok (at_ Asked false false).
Proof. reflexivity. Qed.

(** What each arrival makes of a world. *)
Definition next (ar : arrival) (t : progress) (replied sent : bool) : option (option (progress * bool * bool)) :=
  match ar, t with
  | Request_arrives, Asked => Some (Some (Answering, replied, sent))
  | Reply_arrives, (Answering | Answered) => if replied then None else Some (Some (t, true, sent))
  | Origin_sent, _ => if sent then None else if replied then Some None else Some (Some (t, replied, true))
  | Target_sent, Answering => Some (Some (Answered, replied, sent))
  | _, _ => None
  end.

Lemma pstep_at ar t replied sent :
  (replied = true → t ≠ Asked) →
  pstep oid tid ar (at_ t replied sent) =
  match next ar t replied sent with
  | None => None
  | Some None => Some (Throw Undefined)
  | Some (Some (t', r', s')) => Some (Ok (at_ t' r' s'))
  end.
Proof.
  intros Hr. destruct ar.
  - destruct t; [|done|done]. destruct replied; [by destruct Hr|]. cbn [pstep at_ request mbind option_bind].
    unfold UpdateTarget, smt_Start. cbn [OpPing_target state ExpectMessageOrDie mbind outcome_bind].
    rewrite unpack_req. reflexivity.
  - destruct t, replied; try done; try (by destruct Hr);
      cbn [pstep at_ reply mbind option_bind origin]; unfold to_origin, UpdateOrigin; destruct sent; cbn [state];
      unfold smo_WaitSend, smo_WaitReply; cbn [ping_type ExpectMessageOrDie mbind outcome_bind];
      rewrite ?unpack_rep; reflexivity.
  - destruct sent, replied; try done; by destruct t.
  - destruct t; [done| |done]. destruct replied, sent; reflexivity.
Qed.

Definition weight (t : progress) (replied sent : bool) : nat :=
  match t with Asked => 0 | Answering => 1 | Answered => 2 end + Nat.b2n replied + Nat.b2n sent.

(** Where a run leads: to another world of the ping, or to a completion that comes too late. *)
Lemma prun_at ars t replied sent r :
  (replied = true → t ≠ Asked) → prun oid tid ars (at_ t replied sent) = Some r →
  (∃ t' r' s', r = Ok (at_ t' r' s') ∧ (r' = true → t' ≠ Asked) ∧
     weight t' r' s' = weight t replied sent + length ars ∧
     (r' = true → replied = true ∨ Reply_arrives ∈ ars) ∧ (s' = true → sent = true ∨ Origin_sent ∈ ars)) ∨
  (r = Throw Undefined ∧ last ars = Some Origin_sent ∧ (replied = true ∨ Reply_arrives ∈ ars)).
Proof.
  revert t replied sent. induction ars as [|ar ars IH]; intros t replied sent Hr; cbn [prun].
  { intros [= <-]. left. exists t, replied, sent. split_and!; [done|done|cbn; lia|by left|by left]. }
  rewrite pstep_at by done. destruct (next ar t replied sent) as [[[[t1 r1] s1]|]|] eqn:Hn; [| |done].
  - intros Hrun. assert ((r1 = true → t1 ≠ Asked) ∧ weight t1 r1 s1 = S (weight t replied sent) ∧
      (r1 = true → replied = true ∨ ar = Reply_arrives) ∧ (s1 = true → sent = true ∨ ar = Origin_sent)) as (H1 & H2 & H3 & H4).
    { destruct ar, t, replied, sent; cbn in Hn; try discriminate; injection Hn as <- <- <-;
        (split_and!; [done|reflexivity|auto|auto]). }
    destruct (IH t1 r1 s1 H1 Hrun) as [(t2 & r2 & s2 & -> & H5 & H6 & H7 & H8)|(-> & H5 & H6)].
    + left. exists t2, r2, s2. split_and!; [done|done|cbn [length]; lia| |].
      * intros Hx. destruct (H7 Hx) as [Hy|Hy]; [|right; by right]. destruct (H3 Hy) as [?| ->]; [by left|right; by left].
      * intros Hx. destruct (H8 Hx) as [Hy|Hy]; [|right; by right]. destruct (H4 Hy) as [?| ->]; [by left|right; by left].
    + right. split_and!; [done|by rewrite last_cons, H5|].
      destruct H6 as [Hy|Hy]; [|right; by right]. destruct (H3 Hy) as [?| ->]; [by left|right; by left].
  - case_bool_decide as E; [|done]. intros [= <-]. subst ars. right.
    destruct ar, t, replied, sent; cbn in Hn; try discriminate; (split_and!; [done|done|by left]).
Qed.

(** C20: A ping is over after four arrivals, whatever their order, and nothing but its string in upper
    case is ever handed to the future.  Where nothing is on its way any more the future is set and
    both ops have ended.  The only way to fail is a completion of the origin's send that is
    delivered behind the answer, to an op that is gone. *)
Theorem ping_returns :
  ∃ w0, launch oid tid mailbox s = Ok w0 ∧
    (∀ ars w, prun oid tid ars w0 = Some (Ok w) →
       (future w = None ∨ future w = Some (uppercase s)) ∧ length ars ≤ 4 ∧
       ((∀ ar, pstep oid tid ar w = None) →
          future w = Some (uppercase s) ∧ origin w = None ∧ target w = None)) ∧
    (∀ ars e, prun oid tid ars w0 = Some (Throw e) →
       e = Undefined ∧ last ars = Some Origin_sent ∧ Reply_arrives ∈ ars).
Proof.
  exists (at_ Asked false false). split; [apply launched|]. split.
  - intros ars w Hrun. apply prun_at in Hrun as [(t & r & sn & Hw & Hr & Hwt & _)|(? & _)]; [|done|done].
    injection Hw as ->. split; [destruct r; [by right|by left]|].
    split; [destruct t, r, sn; cbn in Hwt; lia|]. intros Hno.
    assert (∀ ar, next ar t r sn = None) as Hn.
    { intros ar. specialize (Hno ar). rewrite pstep_at in Hno by done.
      by destruct (next ar t r sn) as [[[[? ?] ?]|]|]. }
    pose proof (Hn Request_arrives). pose proof (Hn Reply_arrives). pose proof (Hn Target_sent).
    by destruct t, r.
  - intros ars e Hrun. apply prun_at in Hrun as [(t & r & sn & Hw & _)|(He & Hl & Hx)]; [done| |done].
    injection He as ->. split_and!; [done|done|]. by destruct Hx.
Qed.
End ping.

(** The answer may come first; the code has a case for it, and the completion then finds the op
    deleted. *)
Example ping_overtaken :
  (w ← launch (NodeID.mk 1) (NodeID.mk 2) 7 (lit "hi");
   default (Throw Exit) (prun (NodeID.mk 1) (NodeID.mk 2) [Request_arrives; Reply_arrives; Origin_sent] w)) = Throw Undefined.
Proof. vm_compute. reflexivity. Qed.

Lemma ping_returns_witness :
  ∃ w0, launch (NodeID.mk 1) (NodeID.mk 2) 7 (lit "Hi") = Ok w0 ∧
    (∀ ars w, prun (NodeID.mk 1) (NodeID.mk 2) ars w0 = Some (Ok w) →
       (future w = None ∨ future w = Some (lit "HI")) ∧ length ars ≤ 4 ∧
       ((∀ ar, pstep (NodeID.mk 1) (NodeID.mk 2) ar w = None) →
          future w = Some (lit "HI") ∧ origin w = None ∧ target w = None)) ∧
    (∀ ars e, prun (NodeID.mk 1) (NodeID.mk 2) ars w0 = Some (Throw e) →
       e = Undefined ∧ last ars = Some Origin_sent ∧ Reply_arrives ∈ ars).
Proof. apply (ping_returns (NodeID.mk 1) (NodeID.mk 2) 7 (lit "Hi")). done. Defined.
