(* ===== verification/KelpieOps.v ===== *)
(** The ops that carry kelpie's requests to other nodes (src/src/kelpie/ops/direct): publish,
    bounded and unbounded get, meta, drop, list and compute.

    Each op is a state machine run at two places: at the node that launched it (the origin) and
    at the node that holds the object (the target).  A state is a constructor with the name it
    has in the code, carrying the fields that are still in use there; the handlers [smo_...] and
    [smt_...] are the member functions of the same name, and [..._Update] is the switch of the
    op's [Update].

    A handler runs in a monad [M]: it may throw, it works on the rows and the I/O modules of its
    node, and it leaves a list of effects, the calls on the network and on the user's callbacks
    in the order they are made. *)
From S2P Require Import Prelude StringHelpers Identifiers Key KelpieTypes LocalKVRow LocalKV.
From S2P Require Import Message OpBox.

(** * The network's one-sided transfers

    A registered object is known to the other nodes by a handle ([NetBufferRemote]); the cleared
    handle stands for no object. *)
Abbreviation handle := N.
Definition no_buffer : handle := 0%N.

(** [ldo_alloc n] is [lunasa::DataObject(0, n, eager)].  [xfer src dst] is what the object [dst]
    holds after [src] was transferred to it; as net.hh says, the length of the transfer is the
    smaller of the two, so objects of the same size are transferred whole. *)
Class Rdma (D : Type) `{LdoOps D} := {
  ldo_alloc : Z → D;
  xfer : D → D → D;
  ldo_user_size_width d : in_width 32 (ldo_user_size d);
  ldo_alloc_size n : in_width 32 n → ldo_user_size (ldo_alloc n) = n;
  xfer_same src dst : ldo_user_size src = ldo_user_size dst → xfer src dst = src
}.

Section ops.
Context {D : Type} {LO : LdoOps D} {RD : Rdma D} {I : Type} {IO : IomBase I D}.
(** The number of bytes cereal packs a listing into. *)
Context (packed_size : ObjectCapacities → Z).

Abbreviation table := (gmap str (LocalKVRow D)).
Abbreviation peer_ptr_t := NodeID.t.

(** * Messages, updates and effects *)

(** An object of the node, with the handle the network knows it by. *)
Record data_object := mkObject { obj_loc : handle; obj_val : D }.

Definition buffer_t := msg_direct_buffer_t handle.

Definition new_buffer := AllocBuffer no_buffer obj_loc (λ o, ldo_user_size (obj_val o)).
Definition set_ldo := SetLDO no_buffer obj_loc (λ o, ldo_user_size (obj_val o)).

(** The body of a list reply is the listing, packed by cereal. *)
Inductive message :=
| MsgSimple (m : msg_direct_simple_t)
| MsgBuffer (m : buffer_t)
| MsgStatus (m : msg_direct_status_t)
| MsgCereal (hdr : message_t) (oc : ObjectCapacities).

Definition msg_hdr (m : message) : message_t :=
  match m with
  | MsgSimple m => ms_hdr m | MsgBuffer m => mb_hdr m | MsgStatus m => mt_hdr m
  | MsgCereal h _ => h
  end.

Inductive op_args :=
| AUpdate (t : UpdateType)
| AMessage (sender : peer_ptr_t) (m : message)
| AObjectAvailable (ldo : D) (info : object_info_t).

Definition args_type_of (a : op_args) : UpdateType :=
  match a with
  | AUpdate t => t | AMessage _ _ => incoming_message | AObjectAvailable _ _ => user_trigger
  end.

Definition VerifyTypeOrDie (a : op_args) (expected : UpdateType) : outcome () :=
  if bool_decide (args_type_of a = expected) then Ok () else Throw RuntimeError.

(** [ExpectMessageOrDie]: the cast is not checked. *)
Definition ExpectMessageOrDie {A} (cast : message → option A) (a : op_args)
    : outcome (peer_ptr_t * A) :=
  match a with
  | AMessage sender m =>
      match cast m with Some x => Ok (sender, x) | None => Throw Undefined end
  | _ => Throw RuntimeError
  end.

Definition as_simple (m : message) := match m with MsgSimple x => Some x | _ => None end.
Definition as_buffer (m : message) := match m with MsgBuffer x => Some x | _ => None end.
Definition as_status (m : message) := match m with MsgStatus x => Some x | _ => None end.
Definition as_cereal (m : message) := match m with MsgCereal h x => Some x | _ => None end.

Inductive effect :=
| ESend (peer : peer_ptr_t) (m : message)
| ENew (l : handle) (d : D)
| EGet (peer : peer_ptr_t) (remote_buffer local_ldo : handle)
| EPut (peer : peer_ptr_t) (local_ldo : D) (remote_buffer : handle)
| EStore (evs : list (event D))
| ECallPublish (cb : callback_id) (rc : rc_t) (info : object_info_t)
| ECallGet (cb : callback_id) (success : bool) (key : Key) (d : D)
| ECallDrop (cb : callback_id) (success : bool) (key : Key)
| ECallCompute (cb : callback_id) (rc : rc_t) (key : Key) (d : D)
| EAppend (oc : ObjectCapacities)
| ESetPromise (b : bool).

(** What an update finds around it: the node and the time, the op's own mailbox, a free place
    for an object it allocates, and the objects registered at the node. *)
Record env := mkEnv {
  me : NodeID.t;
  now : Z;
  mailbox : Z;
  free_loc : handle;
  memory : handle → D }.
Implicit Types e : env.

(** * The monad of the handlers *)

Record node_state := mkNode { h_rows : table; h_ioms : gmap Z I; h_effects : list effect }.

Definition M (A : Type) : Type := node_state → outcome (A * node_state).

#[local] Instance M_ret : MRet M := λ A a s, Ok (a, s).
#[local] Instance M_bind : MBind M := λ A A' f m s, '(a, s') ← m s; f a s'.

Definition lift {A} (o : outcome A) : M A := λ s, a ← o; Ok (a, s).
Definition emit (x : effect) : M () :=
  λ s, Ok ((), mkNode (h_rows s) (h_ioms s) (h_effects s ++ [x])).

Definition FindIOM (iom_hash : Z) : M (option I) := λ s, Ok (h_ioms s !! iom_hash, s).

Definition iom_write (iom_hash : Z) (bucket : Bucket.t) (key : Key) (d : D) : M () :=
  λ s, match h_ioms s !! iom_hash with
       | Some i => Ok ((), mkNode (h_rows s) (<[iom_hash := (iom_WriteObject i bucket key d).2]> (h_ioms s))
                             (h_effects s))
       | None => Throw Undefined
       end.

(** The calls on the node's store.  [iom_hash] is the I/O module whose address is passed, if
    any. *)
Definition op_put e (bucket : Bucket.t) (key : Key) (d : D) (flags : Z) (iom_hash : option Z)
    (info : object_info_t) : M (rc_t * object_info_t) :=
  λ s, '(rep, iom') ← put (now e) bucket key d flags (h ← iom_hash; h_ioms s !! h) (Some info)
                        (h_rows s);
       Ok ( (rep_rc _ rep, default info (rep_info _ rep)),
            mkNode (rep_rows _ rep)
              (match iom_hash, iom' with Some h, Some i => <[h := i]> (h_ioms s) | _, _ => h_ioms s end)
              (h_effects s ++ [EStore (rep_events _ rep)]) ).

Definition op_getInfo e (bucket : Bucket.t) (key : Key) (info : object_info_t)
    : M (rc_t * object_info_t) :=
  λ s, let rep := getInfo (now e) bucket key (Some info) (h_rows s) in
       Ok ( (rep_rc _ rep, default info (rep_info _ rep)),
            mkNode (rep_rows _ rep) (h_ioms s) (h_effects s ++ [EStore (rep_events _ rep)]) ).

(** The object is what was written through the pointer, if anything was. *)
Definition op_getForOp e (bucket : Bucket.t) (key : Key) (flags iom_hash : Z)
    (info : option object_info_t) : M (rc_t * option D * option object_info_t) :=
  λ s, rep ← getForOp (now e) bucket key (mailbox e) flags iom_hash (λ h, h_ioms s !! h) info
               (h_rows s);
       Ok ( (rep_rc _ rep, mjoin (rep_out _ rep), rep_info _ rep),
            mkNode (rep_rows _ rep) (h_ioms s) (h_effects s ++ [EStore (rep_events _ rep)]) ).

Definition op_drop e (bucket : Bucket.t) (key : Key) : M rc_t :=
  λ s, '(rc, rows) ← lkv_drop (now e) bucket key (h_rows s);
       Ok (rc, mkNode rows (h_ioms s) (h_effects s)).

Definition op_list (bucket : Bucket.t) (key : Key) (iom : option I)
    : M (rc_t * ObjectCapacities) :=
  λ s, '(rc, oc) ← lkv_list bucket key iom oc_empty (h_rows s); Ok ((rc, oc), s).

Definition op_compute e (compute : str → str → Bucket.t → Key → gmap Key D → rc_t * D)
    (function_name function_args : str) (bucket : Bucket.t) (key : Key) : M (rc_t * D) :=
  λ s, '(rc, rows, d) ← doCompute compute (now e) function_name function_args bucket key (h_rows s);
       Ok ((rc, d), mkNode rows (h_ioms s) (h_effects s)).

Definition updateState {S} (new_state : S) (waiting_condition : WaitingType) : M (S * WaitingType) :=
  mret (new_state, waiting_condition).

(** [omsg->Success(b)] and [omsg->remote_rc = rc] on a status message. *)
Definition status_success (b : bool) (m : msg_direct_status_t) : msg_direct_status_t :=
  mkStatus (DirectFlags.SetSuccess (mt_hdr m) b) (remote_rc m) (object_info m).
Definition status_rc (rc : rc_t) (m : msg_direct_status_t) : msg_direct_status_t :=
  mkStatus (mt_hdr m) rc (object_info m).
Definition status_info (info : object_info_t) (m : msg_direct_status_t) : msg_direct_status_t :=
  mkStatus (mt_hdr m) (remote_rc m) info.

(** * Publish (OpKelpiePublish.cpp) *)

Definition OpKelpiePublish_id : Z := const_hash (lit "OpKelpiePublish").

Inductive PublishState :=
| orig_pub_send (peer : peer_ptr_t) (ldo_msg : buffer_t) (ldo_data : data_object)
    (cb_info_result : option callback_id)
| trgt_pub_start
| trgt_pub_wait_for_rdma (peer : peer_ptr_t) (bucket : Bucket.t) (key : Key)
    (target_iom target_behavior_flags : Z) (ldo_msg : msg_direct_status_t) (ldo_data : handle)
| orig_pub_wait_for_ack (ldo_data : data_object) (cb_info_result : option callback_id)
| pub_done.

Definition OpKelpiePublish (self : NodeID.t) (mb : Z) (target_node : NodeID.t)
    (target_ptr : peer_ptr_t) (bucket : Bucket.t) (key : Key) (ldo_users_data : data_object)
    (iom_hash behavior_flags : Z) (cb_result : option callback_id) : PublishState :=
  orig_pub_send target_ptr
    (new_buffer self OpKelpiePublish_id DirectFlags.CMD_PUBLISH target_node mb MAILBOX_UNSPECIFIED
       bucket key iom_hash behavior_flags (Some ldo_users_data))
    ldo_users_data cb_result.

Definition smo_Publish_Send (peer : peer_ptr_t) (ldo_msg : buffer_t) (ldo_data : data_object)
    (cb : option callback_id) : M (PublishState * WaitingType) :=
  _ ← emit (ESend peer (MsgBuffer ldo_msg));
  updateState (orig_pub_wait_for_ack ldo_data cb) waiting_on_cq.

Definition smt_Publish_Start e (args : op_args) : M (PublishState * WaitingType) :=
  '(peer, imsg) ← lift (ExpectMessageOrDie as_buffer args);
  let bucket := mb_bucket imsg in
  key ← lift (ExtractKeyBuffer imsg);
  let nbr := mb_net_buffer_remote imsg in
  let target_iom := mb_iom_hash imsg in
  let target_behavior_flags := PoolBehavior.ChangeRemoteToLocal (mb_behavior_flags imsg) in
  let ldo_msg := AllocAck (me e) (mb_hdr imsg) in
  let fetch : M (PublishState * WaitingType) :=
    _ ← emit (ENew (free_loc e) (ldo_alloc (mb_meta_plus_data_size imsg)));
    _ ← emit (EGet peer nbr (free_loc e));
    updateState (trgt_pub_wait_for_rdma peer bucket key target_iom target_behavior_flags ldo_msg
                   (free_loc e)) waiting_on_cq in
  if negb (PoolBehavior.has target_behavior_flags PoolBehavior.EnableOverwrites) then
    '(rc, info) ← op_getInfo e bucket key Wipe;
    if (rc =? KELPIE_OK)%Z && bool_decide (col_availability info = InLocalMemory) then
      _ ← emit (ESend peer (MsgStatus (status_rc KELPIE_EEXIST (status_success true ldo_msg))));
      updateState pub_done done_and_destroy
    else fetch
  else fetch.

Definition smt_Publish_WaitRDMA e (peer : peer_ptr_t) (bucket : Bucket.t) (key : Key)
    (target_iom target_behavior_flags : Z) (ldo_msg : msg_direct_status_t) (ldo_data : handle)
    (args : op_args) : M (PublishState * WaitingType) :=
  if bool_decide (args_type_of args = send_success) then
    updateState (trgt_pub_wait_for_rdma peer bucket key target_iom target_behavior_flags ldo_msg
                   ldo_data) waiting_on_cq
  else
    _ ← lift (VerifyTypeOrDie args get_success);
    let to_iom := negb (target_iom =? 0)%Z
                  && PoolBehavior.has target_behavior_flags PoolBehavior.WriteToIOM in
    let d := memory e ldo_data in
    '(rc, info) ← op_put e bucket key d target_behavior_flags
                    (if to_iom then Some target_iom else None) (object_info ldo_msg);
    _ ← (if to_iom then
           iom ← FindIOM target_iom;
           match iom with
           | None => lift (Throw RuntimeError)
           | Some _ => iom_write target_iom bucket key d
           end
         else mret ());
    let omsg := status_rc rc (status_success (rc =? KELPIE_OK)%Z (status_info info ldo_msg)) in
    _ ← emit (ESend peer (MsgStatus omsg));
    updateState pub_done done_and_destroy.

Definition smo_Publish_WaitAck (cb_info_result : option callback_id) (args : op_args)
    : M (PublishState * WaitingType) :=
  '(_, imsg) ← lift (ExpectMessageOrDie as_status args);
  _ ← match cb_info_result with
      | Some cb => emit (ECallPublish cb (remote_rc imsg)
                           (ChangeAvailabilityFromLocalToRemote (object_info imsg)))
      | None => mret ()
      end;
  updateState pub_done done_and_destroy.

Definition Publish_Update e (state : PublishState) (args : op_args)
    : M (PublishState * WaitingType) :=
  match state with
  | orig_pub_send peer ldo_msg ldo_data cb => smo_Publish_Send peer ldo_msg ldo_data cb
  | trgt_pub_start => smt_Publish_Start e args
  | trgt_pub_wait_for_rdma peer b k iom flags ldo_msg ldo_data =>
      smt_Publish_WaitRDMA e peer b k iom flags ldo_msg ldo_data args
  | orig_pub_wait_for_ack _ cb => smo_Publish_WaitAck cb args
  | pub_done => updateState pub_done done_and_destroy
  end.
(** * Bounded get (OpKelpieGetBounded.cpp) *)

Definition OpKelpieGetBounded_id : Z := const_hash (lit "OpKelpieGetBounded").

Inductive GetBoundedState :=
| orig_getbounded_send (peer : peer_ptr_t) (ldo_msg : buffer_t) (key : Key) (ldo_data : handle)
    (cb_opget_result : callback_id)
| trgt_getbounded_start
| trgt_getbounded_wait_for_data (peer : peer_ptr_t) (nbr : handle) (ldo_msg : msg_direct_status_t)
| trgt_getbounded_wait_for_rdma (peer : peer_ptr_t) (ldo_msg : msg_direct_status_t) (ldo_data : D)
| orig_getbounded_wait_for_ack (key : Key) (ldo_data : handle) (cb_opget_result : callback_id)
| getb_done.

(** The object that will receive the data is made with the op, at the place [l]. *)
Definition OpKelpieGetBounded (self : NodeID.t) (mb : Z) (l : handle) (target_node : NodeID.t)
    (target_ptr : peer_ptr_t) (bucket : Bucket.t) (key : Key) (expected_ldo_user_size : Z)
    (iom_hash behavior_flags : Z) (cb_result : callback_id)
    : outcome (GetBoundedState * data_object) :=
  _ ← F_ASSERT (0 <? expected_ldo_user_size)%Z;
  let ldo_data := mkObject l (ldo_alloc expected_ldo_user_size) in
  Ok ( orig_getbounded_send target_ptr
         (new_buffer self OpKelpieGetBounded_id DirectFlags.CMD_GET_BOUNDED target_node mb
            MAILBOX_UNSPECIFIED bucket key iom_hash behavior_flags (Some ldo_data))
         key l cb_result,
       ldo_data ).

Definition smo_GetBounded_Send (peer : peer_ptr_t) (ldo_msg : buffer_t) (key : Key)
    (ldo_data : handle) (cb : callback_id) : M (GetBoundedState * WaitingType) :=
  _ ← emit (ESend peer (MsgBuffer ldo_msg));
  updateState (orig_getbounded_wait_for_ack key ldo_data cb) waiting_on_cq.

Definition smt_GetBounded_Start e (args : op_args) : M (GetBoundedState * WaitingType) :=
  '(peer, imsg) ← lift (ExpectMessageOrDie as_buffer args);
  let nbr := mb_net_buffer_remote imsg in
  let bucket := mb_bucket imsg in
  key ← lift (ExtractKeyBuffer imsg);
  let omsg := AllocAck (me e) (mb_hdr imsg) in
  '(rc, ldo_data, info) ← op_getForOp e bucket key (mb_behavior_flags imsg) (mb_iom_hash imsg)
                            (Some (object_info omsg));
  let omsg := status_info (default Wipe info) omsg in
  if (rc =? KELPIE_OK)%Z then
    let d := default ldo_null ldo_data in
    _ ← emit (EPut peer d nbr);
    updateState (trgt_getbounded_wait_for_rdma peer (status_success true omsg) d) waiting_on_cq
  else updateState (trgt_getbounded_wait_for_data peer nbr omsg) wait_on_user.

Definition smt_GetBounded_WaitData (peer : peer_ptr_t) (nbr : handle)
    (ldo_msg : msg_direct_status_t) (args : op_args) : M (GetBoundedState * WaitingType) :=
  match args with
  | AUpdate timeout =>
      _ ← emit (ESend peer (MsgStatus (status_success false ldo_msg)));
      updateState getb_done done_and_destroy
  | AObjectAvailable ldo info =>
      _ ← emit (EPut peer ldo nbr);
      updateState (trgt_getbounded_wait_for_rdma peer ldo_msg ldo) waiting_on_cq
  | AUpdate user_trigger => lift (Throw Undefined)
  | _ => lift (Throw RuntimeError)
  end.

Definition smt_GetBounded_WaitRDMA (peer : peer_ptr_t) (ldo_msg : msg_direct_status_t)
    (args : op_args) : M (GetBoundedState * WaitingType) :=
  _ ← lift (VerifyTypeOrDie args put_success);
  _ ← emit (ESend peer (MsgStatus ldo_msg));
  updateState getb_done done_and_destroy.

Definition smo_GetBounded_WaitAck e (key : Key) (ldo_data : handle) (cb : callback_id)
    (args : op_args) : M (GetBoundedState * WaitingType) :=
  '(_, imsg) ← lift (ExpectMessageOrDie as_status args);
  _ ← emit (ECallGet cb (DirectFlags.Success (mt_hdr imsg)) key (memory e ldo_data));
  updateState getb_done done_and_destroy.

Definition GetBounded_Update e (state : GetBoundedState) (args : op_args)
    : M (GetBoundedState * WaitingType) :=
  match state with
  | orig_getbounded_send peer ldo_msg key ldo_data cb =>
      smo_GetBounded_Send peer ldo_msg key ldo_data cb
  | trgt_getbounded_start => smt_GetBounded_Start e args
  | trgt_getbounded_wait_for_data peer nbr ldo_msg => smt_GetBounded_WaitData peer nbr ldo_msg args
  | trgt_getbounded_wait_for_rdma peer ldo_msg _ => smt_GetBounded_WaitRDMA peer ldo_msg args
  | orig_getbounded_wait_for_ack key ldo_data cb => smo_GetBounded_WaitAck e key ldo_data cb args
  | getb_done => updateState getb_done done_and_destroy
  end.

(** * Unbounded get (OpKelpieGetUnbounded.cpp) *)

Definition OpKelpieGetUnbounded_id : Z := const_hash (lit "OpKelpieGetUnbounded").

Inductive GetUnboundedState :=
| orig_getunbounded_send (peer : peer_ptr_t) (ldo_msg : msg_direct_simple_t) (key : Key)
    (cb_opget_result : callback_id)
| trgt_getunbounded_start
| trgt_getunbounded_wait_for_data (peer : peer_ptr_t) (ldo_msg : buffer_t)
| orig_getunbounded_wait_for_info (key : Key) (cb_opget_result : callback_id)
| orig_getunbounded_wait_for_rdma (peer : peer_ptr_t) (key : Key) (cb_opget_result : callback_id)
    (ldo_msg : msg_direct_status_t) (ldo_data : handle)
| trgt_getunbounded_wait_for_ack (ldo_data : data_object)
| getu_done.

Definition OpKelpieGetUnbounded (self : NodeID.t) (mb : Z) (target_node : NodeID.t)
    (target_ptr : peer_ptr_t) (bucket : Bucket.t) (key : Key) (iom_hash behavior_flags : Z)
    (cb_result : callback_id) : GetUnboundedState :=
  orig_getunbounded_send target_ptr
    (AllocSimple self OpKelpieGetUnbounded_id DirectFlags.CMD_GET_UNBOUNDED target_node mb
       MAILBOX_UNSPECIFIED bucket key iom_hash behavior_flags [] [])
    key cb_result.

Definition smo_GetUnbounded_Send (peer : peer_ptr_t) (ldo_msg : msg_direct_simple_t) (key : Key)
    (cb : callback_id) : M (GetUnboundedState * WaitingType) :=
  _ ← emit (ESend peer (MsgSimple ldo_msg));
  updateState (orig_getunbounded_wait_for_info key cb) waiting_on_cq.

(** The object of the store is registered under the handle that is sent. *)
Definition send_pointers e (peer : peer_ptr_t) (ldo_msg : buffer_t) (d : D)
    : M (GetUnboundedState * WaitingType) :=
  let ldo_data := mkObject (free_loc e) d in
  _ ← emit (ENew (free_loc e) d);
  _ ← emit (ESend peer (MsgBuffer (set_ldo ldo_msg (Some ldo_data))));
  updateState (trgt_getunbounded_wait_for_ack ldo_data) waiting_on_cq.

Definition smt_GetUnbounded_Start e (args : op_args) : M (GetUnboundedState * WaitingType) :=
  '(peer, imsg) ← lift (ExpectMessageOrDie as_simple args);
  let bucket := ms_bucket imsg in
  key ← lift (ExtractKeySimple imsg);
  let ldo_msg := new_buffer (me e) OpKelpieGetUnbounded_id DirectFlags.CMD_GET_UNBOUNDED
                   (src (ms_hdr imsg)) (mailbox e) (src_mailbox (ms_hdr imsg)) bucket key 0
                   PoolBehavior.NoAction None in
  '(rc, ldo_data, _) ← op_getForOp e bucket key (ms_behavior_flags imsg) (ms_iom_hash imsg) None;
  if (rc =? KELPIE_OK)%Z then send_pointers e peer ldo_msg (default ldo_null ldo_data)
  else updateState (trgt_getunbounded_wait_for_data peer ldo_msg) wait_on_user.

Definition smt_GetUnbounded_WaitData e (peer : peer_ptr_t) (ldo_msg : buffer_t) (args : op_args)
    : M (GetUnboundedState * WaitingType) :=
  match args with
  | AObjectAvailable ldo info => send_pointers e peer ldo_msg ldo
  | AUpdate user_trigger => lift (Throw Undefined)
  | _ => lift (Throw RuntimeError)
  end.

(** An empty message ends the process ([F_TODO]). *)
Definition smo_GetUnbounded_WaitInfo e (key : Key) (cb : callback_id) (args : op_args)
    : M (GetUnboundedState * WaitingType) :=
  '(peer, imsg) ← lift (ExpectMessageOrDie as_buffer args);
  if (mb_meta_plus_data_size imsg =? 0)%Z then lift (Throw Exit)
  else
    let ldo_msg := AllocAck (me e) (mb_hdr imsg) in
    _ ← emit (ENew (free_loc e) (ldo_alloc (mb_meta_plus_data_size imsg)));
    _ ← emit (EGet peer (mb_net_buffer_remote imsg) (free_loc e));
    updateState (orig_getunbounded_wait_for_rdma peer key cb ldo_msg (free_loc e)) waiting_on_cq.

Definition smo_GetUnbounded_WaitRDMA e (peer : peer_ptr_t) (key : Key) (cb : callback_id)
    (ldo_msg : msg_direct_status_t) (ldo_data : handle) (args : op_args)
    : M (GetUnboundedState * WaitingType) :=
  _ ← lift (VerifyTypeOrDie args get_success);
  _ ← emit (ECallGet cb true key (memory e ldo_data));
  _ ← emit (ESend peer (MsgStatus (status_success true ldo_msg)));
  updateState getu_done done_and_destroy.

Definition smt_GetUnbounded_WaitAck (args : op_args) : M (GetUnboundedState * WaitingType) :=
  _ ← lift (ExpectMessageOrDie as_status args);
  updateState getu_done done_and_destroy.

Definition GetUnbounded_Update e (state : GetUnboundedState) (args : op_args)
    : M (GetUnboundedState * WaitingType) :=
  match state with
  | orig_getunbounded_send peer ldo_msg key cb => smo_GetUnbounded_Send peer ldo_msg key cb
  | trgt_getunbounded_start => smt_GetUnbounded_Start e args
  | trgt_getunbounded_wait_for_data peer ldo_msg => smt_GetUnbounded_WaitData e peer ldo_msg args
  | orig_getunbounded_wait_for_info key cb => smo_GetUnbounded_WaitInfo e key cb args
  | orig_getunbounded_wait_for_rdma peer key cb ldo_msg ldo_data =>
      smo_GetUnbounded_WaitRDMA e peer key cb ldo_msg ldo_data args
  | trgt_getunbounded_wait_for_ack _ => smt_GetUnbounded_WaitAck args
  | getu_done => updateState getu_done done_and_destroy
  end.

(** * Row and column information (OpKelpieMeta.cpp) *)

Definition OpKelpieMeta_id : Z := const_hash (lit "OpKelpieMeta").

Inductive MetaState :=
| orig_meta_send (peer : peer_ptr_t) (ldo_msg : msg_direct_simple_t)
    (cb_info_result : option callback_id)
| trgt_meta_start
| orig_wait_for_ack (cb_info_result : option callback_id)
| meta_done.

Definition OpKelpieMeta (self : NodeID.t) (mb xferdirect_command : Z) (target_node : NodeID.t)
    (target_ptr : peer_ptr_t) (bucket : Bucket.t) (key : Key) (iom_hash : Z)
    (cb_result : option callback_id) : MetaState :=
  orig_meta_send target_ptr
    (AllocSimple self OpKelpieMeta_id xferdirect_command target_node mb MAILBOX_UNSPECIFIED bucket
       key iom_hash PoolBehavior.NoAction [] []) cb_result.

Definition smo_Meta_Send (peer : peer_ptr_t) (ldo_msg : msg_direct_simple_t)
    (cb : option callback_id) : M (MetaState * WaitingType) :=
  _ ← emit (ESend peer (MsgSimple ldo_msg));
  updateState (orig_wait_for_ack cb) waiting_on_cq.

Definition smt_Meta_Start e (args : op_args) : M (MetaState * WaitingType) :=
  '(peer, imsg) ← lift (ExpectMessageOrDie as_simple args);
  let cmd := DirectFlags.GetCommand (ms_hdr imsg) in
  let bucket := ms_bucket imsg in
  key ← lift (ExtractKeySimple imsg);
  let target_iom := ms_iom_hash imsg in
  let is_colinfo := (cmd =? DirectFlags.CMD_GET_COLINFO)%Z in
  let is_rowinfo := (cmd =? DirectFlags.CMD_GET_ROWINFO)%Z in
  if is_colinfo || is_rowinfo then
    let omsg := AllocAck (me e) (ms_hdr imsg) in
    '(rc, info) ← op_getInfo e bucket key (object_info omsg);
    '(rc, info) ←
      (if negb (rc =? KELPIE_OK)%Z && negb (target_iom =? 0)%Z && is_colinfo then
         iom ← FindIOM target_iom;
         match iom with
         | None => lift (Throw RuntimeError)
         | Some i => mret (iom_GetInfo i bucket key)
         end
       else mret (rc, info));
    _ ← emit (ESend peer (MsgStatus (status_rc rc (status_info info omsg))));
    updateState meta_done done_and_destroy
  else lift (Throw Exit).

Definition smo_WaitAck (cb_info_result : option callback_id) (args : op_args)
    : M (MetaState * WaitingType) :=
  '(_, imsg) ← lift (ExpectMessageOrDie as_status args);
  _ ← lift (F_ASSERT (DirectFlags.IsStatus (mt_hdr imsg)));
  _ ← match cb_info_result with
      | Some cb => emit (ECallPublish cb (remote_rc imsg)
                           (ChangeAvailabilityFromLocalToRemote (object_info imsg)))
      | None => mret ()
      end;
  updateState meta_done done_and_destroy.

Definition Meta_Update e (state : MetaState) (args : op_args) : M (MetaState * WaitingType) :=
  match state with
  | orig_meta_send peer ldo_msg cb => smo_Meta_Send peer ldo_msg cb
  | trgt_meta_start => smt_Meta_Start e args
  | orig_wait_for_ack cb => smo_WaitAck cb args
  | meta_done => updateState meta_done done_and_destroy
  end.

(** * Drop (OpKelpieDrop.cpp) *)

Definition OpKelpieDrop_id : Z := const_hash (lit "OpKelpieDrop").

Inductive DropState :=
| orig_drop_send (targets : list (NodeID.t * peer_ptr_t)) (bucket : Bucket.t) (search_key : Key)
    (callback : option callback_id) (successful_drops : Z)
| trgt_drop_start
| orig_drop_wait_for_results (search_key : Key) (callback : option callback_id)
    (num_targets_left successful_drops : Z)
| drop_done.

Definition OpKelpieDrop (targets : list (NodeID.t * peer_ptr_t)) (bucket : Bucket.t)
    (search_key : Key) (already_dropped_locally : bool) (callback : option callback_id)
    : DropState :=
  orig_drop_send targets bucket search_key callback (if already_dropped_locally then 1 else 0).

(** One request to each of the targets. *)
Fixpoint send_each (make : NodeID.t → message) (targets : list (NodeID.t * peer_ptr_t)) : M () :=
  match targets with
  | [] => mret ()
  | (node, peer) :: rest => _ ← emit (ESend peer (make node)); send_each make rest
  end.

Definition smo_Drop_Send e (targets : list (NodeID.t * peer_ptr_t)) (bucket : Bucket.t)
    (search_key : Key) (callback : option callback_id) (successful_drops : Z)
    : M (DropState * WaitingType) :=
  let expects_reply := bool_decide (is_Some callback) in
  let mbox := if expects_reply then mailbox e else MAILBOX_UNSPECIFIED in
  let num_targets_left := if expects_reply then Z.of_nat (length targets) else 0%Z in
  _ ← send_each (λ node, MsgSimple
        (AllocSimple (me e) OpKelpieDrop_id DirectFlags.CMD_DROP node mbox MAILBOX_UNSPECIFIED
           bucket search_key 0 PoolBehavior.NoAction [] [])) targets;
  if expects_reply then
    updateState (orig_drop_wait_for_results search_key callback num_targets_left successful_drops)
      waiting_on_cq
  else updateState drop_done done_and_destroy.

Definition smt_Drop_Start e (args : op_args) : M (DropState * WaitingType) :=
  '(peer, imsg) ← lift (ExpectMessageOrDie as_simple args);
  search_key ← lift (ExtractKeySimple imsg);
  rc ← op_drop e (ms_bucket imsg) search_key;
  if negb (src_mailbox (ms_hdr imsg) =? MAILBOX_UNSPECIFIED)%Z then
    let omsg := AllocAck (me e) (ms_hdr imsg) in
    let omsg := if negb (rc =? KELPIE_OK)%Z then status_success false omsg else omsg in
    _ ← emit (ESend peer (MsgStatus omsg));
    updateState drop_done done_and_destroy
  else updateState drop_done done_and_destroy.

(** The counters are a [size_t] and an [int]. *)
Definition smo_Drop_WaitForResults (search_key : Key) (callback : option callback_id)
    (num_targets_left successful_drops : Z) (args : op_args) : M (DropState * WaitingType) :=
  '(_, imsg) ← lift (ExpectMessageOrDie as_status args);
  let successful_drops :=
    if DirectFlags.Success (mt_hdr imsg) then (successful_drops + 1)%Z else successful_drops in
  let num_targets_left := u64 (num_targets_left - 1) in
  if (num_targets_left <? 1)%Z then
    _ ← match callback with
        | Some cb => emit (ECallDrop cb (0 <? successful_drops)%Z search_key)
        | None => lift (Throw RuntimeError)
        end;
    updateState drop_done done_and_destroy
  else
    updateState (orig_drop_wait_for_results search_key callback num_targets_left successful_drops)
      waiting_on_cq.

Definition Drop_Update e (state : DropState) (args : op_args) : M (DropState * WaitingType) :=
  match state with
  | orig_drop_send targets b k cb n => smo_Drop_Send e targets b k cb n
  | trgt_drop_start => smt_Drop_Start e args
  | orig_drop_wait_for_results k cb num n => smo_Drop_WaitForResults k cb num n args
  | drop_done => updateState drop_done done_and_destroy
  end.

(** * List (OpKelpieList.cpp) *)

Definition OpKelpieList_id : Z := const_hash (lit "OpKelpieList").

Inductive ListState :=
| orig_list_send (targets : list (NodeID.t * peer_ptr_t)) (bucket : Bucket.t) (search_key : Key)
    (iom_hash num_targets_left : Z)
| trgt_list_start
| orig_list_wait_for_results (num_targets_left : Z)
| list_done.

Definition OpKelpieList (targets : list (NodeID.t * peer_ptr_t)) (bucket : Bucket.t)
    (search_key : Key) (iom_hash : Z) : ListState :=
  orig_list_send targets bucket search_key iom_hash (Z.of_nat (length targets)).

Definition smo_List_Send e (targets : list (NodeID.t * peer_ptr_t)) (bucket : Bucket.t)
    (search_key : Key) (iom_hash num_targets_left : Z) : M (ListState * WaitingType) :=
  if (num_targets_left <? 1)%Z then updateState list_done done_and_destroy
  else
    _ ← send_each (λ node, MsgSimple
          (AllocSimple (me e) OpKelpieList_id DirectFlags.CMD_LIST node (mailbox e)
             MAILBOX_UNSPECIFIED bucket search_key iom_hash PoolBehavior.NoAction [] [])) targets;
    updateState (orig_list_wait_for_results num_targets_left) waiting_on_cq.

Definition smt_List_Start e (args : op_args) : M (ListState * WaitingType) :=
  '(peer, imsg) ← lift (ExpectMessageOrDie as_simple args);
  search_key ← lift (ExtractKeySimple imsg);
  iom ← FindIOM (ms_iom_hash imsg);
  '(rc, found_object_capacities) ← op_list (ms_bucket imsg) search_key iom;
  let simple_rc := if (rc =? KELPIE_OK)%Z then 0%Z else 1%Z in
  _ ← emit (ESend peer
        (MsgCereal (SetStandardReply (me e) (ms_hdr imsg) simple_rc
                      (u32 (packed_size found_object_capacities))) found_object_capacities));
  updateState list_done done_and_destroy.

Definition smo_List_WaitForResults (num_targets_left : Z) (args : op_args)
    : M (ListState * WaitingType) :=
  '(_, found_object_capacities) ← lift (ExpectMessageOrDie as_cereal args);
  _ ← emit (EAppend found_object_capacities);
  let num_targets_left := (num_targets_left - 1)%Z in
  if (num_targets_left <? 1)%Z then
    _ ← emit (ESetPromise true);
    updateState list_done done_and_destroy
  else updateState (orig_list_wait_for_results num_targets_left) waiting_on_cq.

Definition List_Update e (state : ListState) (args : op_args) : M (ListState * WaitingType) :=
  match state with
  | orig_list_send targets b k iom num => smo_List_Send e targets b k iom num
  | trgt_list_start => smt_List_Start e args
  | orig_list_wait_for_results num => smo_List_WaitForResults num args
  | list_done => updateState list_done done_and_destroy
  end.

(** * Compute (OpKelpieCompute.cpp) *)

Section compute.
(** The registered functions of the node. *)
Context (compute : str → str → Bucket.t → Key → gmap Key D → rc_t * D).

Definition OpKelpieCompute_id : Z := const_hash (lit "OpKelpieCompute").

Inductive ComputeState :=
| orig_compute_send (peer : peer_ptr_t) (ldo_msg : msg_direct_simple_t) (key : Key)
    (cb_compute_result : callback_id)
| trgt_compute_start
| orig_compute_wait_for_info (key : Key) (cb_compute_result : callback_id)
| orig_compute_wait_for_rdma (peer : peer_ptr_t) (key : Key) (cb_compute_result : callback_id)
    (ldo_msg : msg_direct_status_t) (ldo_data : handle)
| trgt_compute_wait_for_ack (ldo_data : data_object)
| compute_done.

Definition OpKelpieCompute (self : NodeID.t) (mb : Z) (target_node : NodeID.t)
    (target_ptr : peer_ptr_t) (bucket : Bucket.t) (key : Key) (iom_hash behavior_flags : Z)
    (function_name function_args : str) (cb_result : callback_id) : ComputeState :=
  orig_compute_send target_ptr
    (AllocSimple self OpKelpieCompute_id DirectFlags.CMD_COMPUTE target_node mb
       MAILBOX_UNSPECIFIED bucket key iom_hash behavior_flags function_name function_args)
    key cb_result.

Definition smo_Compute_Send (peer : peer_ptr_t) (ldo_msg : msg_direct_simple_t) (key : Key)
    (cb : callback_id) : M (ComputeState * WaitingType) :=
  _ ← emit (ESend peer (MsgSimple ldo_msg));
  updateState (orig_compute_wait_for_info key cb) waiting_on_cq.

Definition smt_Compute_Start e (args : op_args) : M (ComputeState * WaitingType) :=
  '(peer, imsg) ← lift (ExpectMessageOrDie as_simple args);
  let bucket := ms_bucket imsg in
  '(key, function_name, function_args) ← lift (ExtractComputeArgs imsg);
  '(rc, d) ← op_compute e compute function_name function_args bucket key;
  let ldo_data := mkObject (free_loc e) d in
  _ ← emit (ENew (free_loc e) d);
  let reply flags ldo :=
    new_buffer (me e) OpKelpieCompute_id flags (src (ms_hdr imsg)) (mailbox e)
      (src_mailbox (ms_hdr imsg)) bucket key 0 PoolBehavior.NoAction ldo in
  let ldo_msg :=
    if (rc =? KELPIE_OK)%Z then reply DirectFlags.CMD_STATUS_ACK (Some ldo_data)
    else reply DirectFlags.CMD_STATUS_NACK None in
  _ ← emit (ESend peer (MsgBuffer ldo_msg));
  updateState (trgt_compute_wait_for_ack ldo_data) waiting_on_cq.

Definition smo_Compute_WaitInfo e (key : Key) (cb : callback_id) (args : op_args)
    : M (ComputeState * WaitingType) :=
  '(peer, imsg) ← lift (ExpectMessageOrDie as_buffer args);
  if DirectFlags.IsNack (mb_hdr imsg) then
    _ ← emit (ECallCompute cb KELPIE_ENOENT key ldo_null);
    updateState compute_done done_and_destroy
  else if (mb_meta_plus_data_size imsg =? 0)%Z then
    _ ← emit (ECallCompute cb KELPIE_OK key ldo_null);
    updateState compute_done done_and_destroy
  else
    _ ← emit (ENew (free_loc e) (ldo_alloc (mb_meta_plus_data_size imsg)));
    _ ← emit (EGet peer (mb_net_buffer_remote imsg) (free_loc e));
    updateState (orig_compute_wait_for_rdma peer key cb (AllocAck (me e) (mb_hdr imsg)) (free_loc e))
      waiting_on_cq.

Definition smo_Compute_WaitRDMA e (peer : peer_ptr_t) (key : Key) (cb : callback_id)
    (ldo_msg : msg_direct_status_t) (ldo_data : handle) (args : op_args)
    : M (ComputeState * WaitingType) :=
  _ ← lift (VerifyTypeOrDie args get_success);
  _ ← emit (ECallCompute cb KELPIE_OK key (memory e ldo_data));
  _ ← emit (ESend peer (MsgStatus (status_success true ldo_msg)));
  updateState compute_done done_and_destroy.

Definition smt_Compute_WaitAck (args : op_args) : M (ComputeState * WaitingType) :=
  _ ← lift (ExpectMessageOrDie as_status args);
  updateState compute_done done_and_destroy.

Definition Compute_Update e (state : ComputeState) (args : op_args)
    : M (ComputeState * WaitingType) :=
  match state with
  | orig_compute_send peer ldo_msg key cb => smo_Compute_Send peer ldo_msg key cb
  | trgt_compute_start => smt_Compute_Start e args
  | orig_compute_wait_for_info key cb => smo_Compute_WaitInfo e key cb args
  | orig_compute_wait_for_rdma peer key cb ldo_msg ldo_data =>
      smo_Compute_WaitRDMA e peer key cb ldo_msg ldo_data args
  | trgt_compute_wait_for_ack _ => smt_Compute_WaitAck args
  | compute_done => updateState compute_done done_and_destroy
  end.
(** * All the ops (core/KelpieCoreStandard.cpp) *)

Inductive kelpie_op :=
| KPublish (s : PublishState)
| KGetBounded (s : GetBoundedState)
| KGetUnbounded (s : GetUnboundedState)
| KMeta (s : MetaState)
| KDrop (s : DropState)
| KList (s : ListState)
| KCompute (s : ComputeState).

(** The ops the core registers, and the state a message for a new op finds them in. *)
Definition registered_ops : list (Z * kelpie_op) :=
  [ (OpKelpieCompute_id, KCompute trgt_compute_start);
    (OpKelpieDrop_id, KDrop trgt_drop_start);
    (OpKelpieGetBounded_id, KGetBounded trgt_getbounded_start);
    (OpKelpieGetUnbounded_id, KGetUnbounded trgt_getunbounded_start);
    (OpKelpieList_id, KList trgt_list_start);
    (OpKelpieMeta_id, KMeta trgt_meta_start);
    (OpKelpiePublish_id, KPublish trgt_pub_start) ].

Definition create_target (op_id : Z) : option kelpie_op :=
  (list_to_map registered_ops : gmap Z kelpie_op) !! op_id.

Definition op_Update e (op : kelpie_op) (args : op_args) : M (kelpie_op * WaitingType) :=
  match op with
  | KPublish s => '(s', w) ← Publish_Update e s args; mret (KPublish s', w)
  | KGetBounded s => '(s', w) ← GetBounded_Update e s args; mret (KGetBounded s', w)
  | KGetUnbounded s => '(s', w) ← GetUnbounded_Update e s args; mret (KGetUnbounded s', w)
  | KMeta s => '(s', w) ← Meta_Update e s args; mret (KMeta s', w)
  | KDrop s => '(s', w) ← Drop_Update e s args; mret (KDrop s', w)
  | KList s => '(s', w) ← List_Update e s args; mret (KList s', w)
  | KCompute s => '(s', w) ← Compute_Update e s args; mret (KCompute s', w)
  end.

(** The identifiers are different, so a message reaches the op it is meant for. *)
Lemma create_target_spec op_id op :
  create_target op_id = Some op ↔ (op_id, op) ∈ registered_ops.
Proof.
  unfold create_target. symmetry. apply elem_of_list_to_map.
  change (registered_ops.*1) with
    [OpKelpieCompute_id; OpKelpieDrop_id; OpKelpieGetBounded_id; OpKelpieGetUnbounded_id;
     OpKelpieList_id; OpKelpieMeta_id; OpKelpiePublish_id].
  apply (bool_decide_unpack _). vm_compute. exact Logic.I.
Qed.
End compute.

(** * Running the handlers *)

Definition add_effects (xs : list effect) (s : node_state) : node_state :=
  mkNode (h_rows s) (h_ioms s) (h_effects s ++ xs).

Lemma bind_lift {A A'} (o : outcome A) (f : A → M A') s :
  (lift o ≫= f) s = (a ← o; f a s).
Proof. unfold mbind, M_bind, lift. by destruct o. Qed.
Lemma bind_emit {A'} x (f : () → M A') s : (emit x ≫= f) s = f () (add_effects [x] s).
Proof. done. Qed.
Lemma bind_mret {A A'} (a : A) (f : A → M A') s : (mret a ≫= f) s = f a s.
Proof. done. Qed.
Lemma bind_run {A A'} (m : M A) (f : A → M A') s a s' : m s = Ok (a, s') → (m ≫= f) s = f a s'.
Proof. intros Hm. unfold mbind, M_bind. by rewrite Hm. Qed.
Lemma bind_inv {A A'} (m : M A) (f : A → M A') s a s' :
  (m ≫= f) s = Ok (a, s') → ∃ a1 s1, m s = Ok (a1, s1) ∧ f a1 s1 = Ok (a, s').
Proof. unfold mbind at 1, M_bind. destruct (m s) as [[a1 s1]|] eqn:Hm; naive_solver. Qed.
Lemma add_effects_app xs ys s : add_effects ys (add_effects xs s) = add_effects (xs ++ ys) s.
Proof. unfold add_effects. simpl. by rewrite app_assoc. Qed.

(** * What the handlers do to the store *)

(** Two stores that differ at most in the times their cells were last used. *)
Definition same_objects (rows rows' : table) : Prop :=
  ∀ b k, set_accessed 0 <$> find_cell b k rows' = set_accessed 0 <$> find_cell b k rows.

Lemma set_accessed_twice n n' (c : LocalKVCell D) :
  set_accessed n (set_accessed n' c) = set_accessed n c.
Proof. done. Qed.

Lemma set_cell_same_objects b k n c rows :
  find_cell b k rows = Some c → same_objects rows (set_cell b k (set_accessed n c) rows).
Proof.
  intros Hc b' k'.
  destruct (decide (makeRowname b' k' = makeRowname b k ∧ K2 k' = K2 k)) as [[Hr H2]|Hne].
  - assert (Hf : ∀ r : table, find_cell b' k' r = find_cell b k r) by
      (intros; unfold find_cell; by rewrite Hr, H2).
    rewrite !Hf, find_set_cell, Hc. done.
  - by rewrite find_set_cell_ne.
Qed.

Lemma row_getInfo_availability key (r : LocalKVRow D) info :
  col_availability (row_getInfo key r info) = col_availability info.
Proof. unfold row_getInfo. by destruct (if IsColWildcard key then _ else _). Qed.

(** [getInfo] reads the cell of the key and, apart from the time of the last use, changes
    nothing. *)
Lemma getInfo_spec n b k info rows :
  let rep := getInfo n b k (Some info) rows in
  rep_events _ rep = [] ∧ same_objects rows (rep_rows _ rep) ∧
  ∃ i, rep_info _ rep = Some i ∧
    col_availability i = from_option availability Unavailable (find_cell b k rows).
Proof.
  set (rep0 := doColOp n b k LambdaFlags.DONT_CREATE_OR_TRIGGER (Some info) getInfo_func rows).
  assert (Hrep : let rep := getInfo n b k (Some info) rows in
    rep_events _ rep = rep_events _ rep0 ∧ rep_rows _ rep = rep_rows _ rep0 ∧
    rep_info _ rep = rep_info _ rep0).
  { unfold getInfo. fold rep0.
    destruct (rep_rc _ rep0 =? KELPIE_WAITING)%Z, (rep_info _ rep0) eqn:Hi; auto. }
  cbv zeta in *. destruct Hrep as (-> & -> & ->).
  destruct (find_cell b k rows) as [c|] eqn:Hc.
  - pose proof (doColOp_spec n b k LambdaFlags.DONT_CREATE_OR_TRIGGER (Some info) getInfo_func rows)
      as Hs. rewrite Hc in Hs. cbn [default from_option] in Hs. rewrite bool_decide_true in Hs by eauto.
    unfold getInfo_func at 1 in Hs.
    destruct (bool_decide _); simpl in Hs; destruct Hs as (_ & Hr & He & _ & Hi); eauto;
      unfold rep0; rewrite Hr, He, Hi; (split_and!; [done|by apply set_cell_same_objects|];
      eexists; split; [done|]; by rewrite row_getInfo_availability).
  - destruct (doColOp_missing n b k LambdaFlags.DONT_CREATE_OR_TRIGGER (Some info) getInfo_func
      rows) as (_ & _ & Hr & He & _); [done..|]. unfold rep0. rewrite Hr, He. split_and!; [done..|].
    unfold doColOp, getRow. unfold find_cell in Hc. destruct (rows !! makeRowname b k); simpl.
    + rewrite row_doColOp_missing by done. simpl. eexists. split; [done|].
      by rewrite row_getInfo_availability.
    + eauto.
Qed.

(** * Publishing to another node *)

(** A key that arrives as it was sent. *)
Definition sendable (k : Key) : Prop :=
  key_valid k = true ∧ (str_len (K1 k) < 2 ^ 16)%Z ∧ (str_len (K2 k) < 2 ^ 16)%Z.

Lemma new_buffer_key self id cmd dst smb dmb b k iom flags ldo :
  sendable k →
  ExtractKeyBuffer (new_buffer self id cmd dst smb dmb b k iom flags ldo) = Ok k.
Proof.
  intros (Hv & H1 & H2). unfold new_buffer. rewrite ExtractKeyBuffer_Alloc.
  by rewrite wire_key_id, Hv.
Qed.

Lemma simple_key self id cmd dst smb dmb b k iom flags name args :
  sendable k →
  ExtractKeySimple (AllocSimple self id cmd dst smb dmb b k iom flags name args) = Ok k.
Proof. intros (Hv & H1 & H2). by rewrite long_key_truncated, wire_key_id, Hv. Qed.

(** An object of its own size receives the whole of what is transferred to it. *)
Lemma xfer_alloc d : xfer d (ldo_alloc (ldo_user_size d)) = d.
Proof. apply xfer_same. symmetry. apply ldo_alloc_size, ldo_user_size_width. Qed.

Lemma remote_overwrites flags :
  in_width 8 flags →
  PoolBehavior.has (PoolBehavior.ChangeRemoteToLocal flags) PoolBehavior.EnableOverwrites =
  PoolBehavior.has flags PoolBehavior.EnableOverwrites.
Proof. intros Hf. by destruct (PoolBehavior.ChangeRemoteToLocal_spec flags Hf) as (_&_&_&_&_&?&_). Qed.

(** The first answer of the target: it asks for the data unless it has an object in memory it
    must not overwrite. *)
Lemma Publish_Start_fetches et o m k st :
  ExtractKeyBuffer m = Ok k → in_width 8 (mb_behavior_flags m) →
  (PoolBehavior.has (mb_behavior_flags m) PoolBehavior.EnableOverwrites = true ∨
   ∀ c, find_cell (mb_bucket m) k (h_rows st) = Some c → availability c ≠ InLocalMemory) →
  ∃ rows evs,
    smt_Publish_Start et (AMessage o (MsgBuffer m)) st =
      Ok ((trgt_pub_wait_for_rdma o (mb_bucket m) k (mb_iom_hash m)
             (PoolBehavior.ChangeRemoteToLocal (mb_behavior_flags m)) (AllocAck (me et) (mb_hdr m))
             (free_loc et), waiting_on_cq),
          mkNode rows (h_ioms st)
            (h_effects st ++ evs ++ [ENew (free_loc et) (ldo_alloc (mb_meta_plus_data_size m));
                                     EGet o (mb_net_buffer_remote m) (free_loc et)])) ∧
    same_objects (h_rows st) rows ∧ (evs = [] ∨ evs = [EStore []]).
Proof.
  intros Hk Hf Hnew. unfold smt_Publish_Start. rewrite bind_lift. simpl (ExpectMessageOrDie _ _).
  cbn [mbind outcome_bind]. rewrite bind_lift, Hk. cbn [mbind outcome_bind].
  rewrite remote_overwrites by done.
  destruct (PoolBehavior.has (mb_behavior_flags m) PoolBehavior.EnableOverwrites) eqn:Ho; cbn [negb].
  - exists (h_rows st), []. rewrite !bind_emit, add_effects_app. split_and!; [done|done|by left].
  - destruct Hnew as [?|Hnew]; [done|].
    destruct (getInfo_spec (now et) (mb_bucket m) k Wipe (h_rows st)) as (He & Hr & i & Hi & Ha).
    erewrite bind_run by (unfold op_getInfo; rewrite Hi, He; reflexivity). cbn [default from_option].
    rewrite (bool_decide_false (col_availability i = InLocalMemory)).
    2:{ rewrite Ha. destruct (find_cell _ _ _) as [c|] eqn:Hc; [by apply Hnew|done]. }
    rewrite andb_false_r, !bind_emit, add_effects_app. eexists _, [EStore []].
    split_and!; [|exact Hr|by right]. unfold add_effects. cbn [h_effects]. by rewrite <-app_assoc.
Qed.

Definition to_iom (iom flags : Z) : bool :=
  negb (iom =? 0)%Z && PoolBehavior.has flags PoolBehavior.WriteToIOM.

Definition publish_ack (rc : rc_t) (info : object_info_t) (ack : msg_direct_status_t) : message :=
  MsgStatus (status_rc rc (status_success (rc =? KELPIE_OK)%Z (status_info info ack))).

(** The second: the object goes into the store, and the answer carries what the store said. *)
Lemma Publish_WaitRDMA_puts e o b k iom flags ack l s rep iom' :
  to_iom iom flags = false →
  put (now e) b k (memory e l) flags (None : option I) (Some (object_info ack)) (h_rows s) =
    Ok (rep, iom') →
  smt_Publish_WaitRDMA e o b k iom flags ack l (AUpdate get_success) s =
    Ok ((pub_done, done_and_destroy),
        mkNode (rep_rows _ rep) (h_ioms s)
          (h_effects s ++ [EStore (rep_events _ rep);
             ESend o (publish_ack (rep_rc _ rep) (default (object_info ack) (rep_info _ rep)) ack)])).
Proof.
  intros Hi Hp. unfold smt_Publish_WaitRDMA. simpl (bool_decide _). cbv iota.
  rewrite bind_lift. simpl (VerifyTypeOrDie _ _). cbn [mbind outcome_bind].
  fold (to_iom iom flags). rewrite Hi.
  erewrite bind_run by (unfold op_put; cbn [mbind option_bind]; rewrite Hp; reflexivity).
  cbv beta iota. rewrite bind_mret, bind_emit. unfold add_effects.
  cbn [h_effects h_rows h_ioms]. by rewrite <-app_assoc.
Qed.

(** With storage attached the object is written to it twice: the store writes it, and the op
    writes it again. *)
Lemma publish_writes_twice e o b k iom flags ack l s i a s' :
  to_iom iom flags = true → h_ioms s !! iom = Some i → key_valid k = true →
  smt_Publish_WaitRDMA e o b k iom flags ack l (AUpdate get_success) s = Ok (a, s') →
  let d := memory e l in
  h_ioms s' !! iom = Some (iom_WriteObject (iom_WriteObject i b k d).2 b k d).2.
Proof.
  intros Hi Hs Hk. unfold smt_Publish_WaitRDMA. simpl (bool_decide _). cbv iota.
  rewrite bind_lift. simpl (VerifyTypeOrDie _ _). cbn [mbind outcome_bind].
  fold (to_iom iom flags). rewrite Hi.
  apply andb_true_iff in Hi as [_ Hw].
  intros ([rc info] & s1 & Hput & Hrest)%bind_inv.
  assert (H1 : h_ioms s1 !! iom = Some (iom_WriteObject i b k (memory e l)).2).
  { unfold op_put, put in Hput. cbn [mbind option_bind] in Hput. rewrite Hs, Hk in Hput.
    unfold put_iom in Hput. rewrite Hw in Hput. simpl in Hput.
    destruct (iom_WriteObject i b k (memory e l)) as [rc2 i2]. simpl in *. simplify_eq/=.
    apply lookup_insert_eq. }
  cbv beta iota in Hrest. apply bind_inv in Hrest as ([] & s2 & Hwr & Hend).
  apply bind_inv in Hwr as (? & ? & [= <- <-] & Hwr). rewrite H1 in Hwr.
  unfold iom_write in Hwr. rewrite H1 in Hwr. injection Hwr as <-. rewrite bind_emit in Hend.
  injection Hend as _ <-. cbn [h_ioms add_effects]. by rewrite lookup_insert_eq.
Qed.

(** C5: Publishing an object to another node is a put at that node: a publish of an object that is
    not empty, under a key that fits the message, without storage, that does not find an object
    it must not overwrite, ends with the put of that very object in the store of the target,
    with the flags as the target sees them, and the callback at the origin is told what that
    put returned.  Between the request and the transfer the store of the target ([st2]) may
    have changed in any way. *)
Theorem remote_publish_is_put eo et et2 eo2 o t mb obj b k iom flags cb so so2 st st2 rep iom' :
  sendable k → in_width 8 flags → (0 < ldo_user_size (obj_val obj))%Z → me et = t →
  to_iom iom (PoolBehavior.ChangeRemoteToLocal flags) = false →
  (PoolBehavior.has flags PoolBehavior.EnableOverwrites = true ∨
   ∀ c, find_cell b k (h_rows st) = Some c → availability c ≠ InLocalMemory) →
  memory et2 (free_loc et) =
    xfer (obj_val obj) (ldo_alloc (ldo_user_size (obj_val obj))) →
  put (now et2) b k (obj_val obj) (PoolBehavior.ChangeRemoteToLocal flags) (None : option I)
    (Some Wipe) (h_rows st2) = Ok (rep, iom') →
  ∃ request waiting st1 ack,
    Publish_Update eo (OpKelpiePublish o mb t t b k obj iom flags (Some cb)) (AUpdate OpBox.start) so =
      Ok ((orig_pub_wait_for_ack obj (Some cb), waiting_on_cq), add_effects [ESend t request] so) ∧
    Publish_Update et trgt_pub_start (AMessage o request) st = Ok ((waiting, waiting_on_cq), st1) ∧
    EGet o (obj_loc obj) (free_loc et) ∈ h_effects st1 ∧ same_objects (h_rows st) (h_rows st1) ∧
    Publish_Update et2 waiting (AUpdate get_success) st2 =
      Ok ((pub_done, done_and_destroy),
          mkNode (rep_rows _ rep) (h_ioms st2)
            (h_effects st2 ++ [EStore (rep_events _ rep); ESend o ack])) ∧
    dst_mailbox (msg_hdr ack) = mb ∧
    Publish_Update eo2 (orig_pub_wait_for_ack obj (Some cb)) (AMessage t ack) so2 =
      Ok ((pub_done, done_and_destroy),
          add_effects [ECallPublish cb (rep_rc _ rep)
            (ChangeAvailabilityFromLocalToRemote (default Wipe (rep_info _ rep)))] so2).
Proof.
  intros Hk Hf Hsz Ht Hi Hnew Hmem Hput.
  set (m := new_buffer o OpKelpiePublish_id DirectFlags.CMD_PUBLISH t mb MAILBOX_UNSPECIFIED b k
              iom flags (Some obj)).
  destruct (Publish_Start_fetches et o m k st) as (rows & evs & Hst & Hso & Hev);
    [by apply new_buffer_key|done|done|].
  rewrite xfer_alloc in Hmem.
  eexists (MsgBuffer m), _, _, _. split; [done|]. split; [exact Hst|]. split_and!.
  - cbn [h_effects]. rewrite !elem_of_app, elem_of_cons, list_elem_of_singleton. do 3 right. f_equal.
    change (mb_net_buffer_remote m) with (if (ldo_user_size (obj_val obj) =? 0)%Z then no_buffer
      else obj_loc obj). by rewrite (proj2 (Z.eqb_neq _ _)) by lia.
  - done.
  - apply (Publish_WaitRDMA_puts _ _ _ _ _ _ _ _ _ _ iom'); [done|]. by rewrite Hmem.
  - done.
  - done.
Qed.

(** * Getting from another node *)

(** What [getForOp] does on an object in memory, and on a key that has none when there is no
    storage to look into: the op is put on the waiting list. *)
Lemma getForOp_present n b k mb flags h find info rows c :
  key_valid k = true → find_cell b k rows = Some c → availability c = InLocalMemory →
  ∃ rep, getForOp (I := I) n b k mb flags h find info rows = Ok rep ∧ rep_rc _ rep = KELPIE_OK ∧
    rep_out _ rep = Some (Some (ldo c)) ∧ rep_events _ rep = [] ∧
    same_objects rows (rep_rows _ rep).
Proof.
  intros Hk Hc Ha. unfold getForOp. rewrite Hk. cbn [F_ASSERT mbind outcome_bind].
  eexists. split; [done|].
  pose proof (doColOp_spec n b k LambdaFlags.CREATE_IF_MISSING info
    (getForOp_func n b k mb flags h find) rows) as Hs. rewrite Hc in Hs.
  cbn [default from_option] in Hs. rewrite bool_decide_true in Hs by eauto.
  unfold getForOp_func at 1 in Hs. rewrite bool_decide_true in Hs by done. simpl in Hs.
  destruct Hs as (-> & -> & -> & -> & _); [by left|]. split_and!; [done..|].
  by apply set_cell_same_objects.
Qed.

Lemma getForOp_waits n b k mb flags find info rows :
  key_valid k = true →
  (∀ c, find_cell b k rows = Some c → availability c ≠ InLocalMemory) →
  ∃ rep, getForOp (I := I) n b k mb flags 0 find info rows = Ok rep ∧ rep_rc _ rep = KELPIE_ENOENT ∧
    rep_out _ rep = Some None ∧ rep_events _ rep = [] ∧
    rep_rows _ rep =
      set_cell b k (set_accessed n (appendWaitingList mb
        (default (new_cell n) (find_cell b k rows)))) rows.
Proof.
  intros Hk Hna. unfold getForOp. rewrite Hk. cbn [F_ASSERT mbind outcome_bind].
  eexists. split; [done|].
  pose proof (doColOp_spec n b k LambdaFlags.CREATE_IF_MISSING info
    (getForOp_func n b k mb flags 0 find) rows) as Hs. cbv zeta in Hs.
  set (c := default (new_cell n) (find_cell b k rows)) in *.
  assert (Ha : availability c ≠ InLocalMemory).
  { unfold c. destruct (find_cell b k rows); [by apply Hna|done]. }
  unfold getForOp_func at 1 in Hs. rewrite bool_decide_false in Hs by done. simpl in Hs.
  destruct Hs as (-> & -> & -> & -> & _); [by right|]. done.
Qed.

(** The second half of an unbounded get, from the object in the hands of the target: the origin
    fetches it, its callback is given that very object, and the target is released. *)
Lemma unbounded_tail et o imsg d key cb eo eo2 et2 st so so2 st2 :
  (0 < ldo_user_size d)%Z →
  memory eo2 (free_loc eo) = xfer d (ldo_alloc (ldo_user_size d)) →
  ∃ info waiting ack,
    send_pointers et o imsg d st =
      Ok ((trgt_getunbounded_wait_for_ack (mkObject (free_loc et) d), waiting_on_cq),
          add_effects [ENew (free_loc et) d; ESend o info] st) ∧
    dst_mailbox (msg_hdr info) = dst_mailbox (mb_hdr imsg) ∧
    GetUnbounded_Update eo (orig_getunbounded_wait_for_info key cb) (AMessage (me et) info) so =
      Ok ((waiting, waiting_on_cq),
          add_effects [ENew (free_loc eo) (ldo_alloc (ldo_user_size d));
                       EGet (me et) (free_loc et) (free_loc eo)] so) ∧
    GetUnbounded_Update eo2 waiting (AUpdate get_success) so2 =
      Ok ((getu_done, done_and_destroy),
          add_effects [ECallGet cb true key d; ESend (me et) ack] so2) ∧
    dst_mailbox (msg_hdr ack) = src_mailbox (mb_hdr imsg) ∧
    GetUnbounded_Update et2 (trgt_getunbounded_wait_for_ack (mkObject (free_loc et) d))
      (AMessage o ack) st2 = Ok ((getu_done, done_and_destroy), st2).
Proof.
  intros Hsz Hmem. rewrite xfer_alloc in Hmem.
  set (info := set_ldo imsg (Some (mkObject (free_loc et) d))).
  assert (Hn : (ldo_user_size d =? 0)%Z = false) by (apply Z.eqb_neq; lia).
  assert (Hb : mb_net_buffer_remote info = free_loc et).
  { change (mb_net_buffer_remote info) with
      (if (ldo_user_size d =? 0)%Z then no_buffer else free_loc et). by rewrite Hn. }
  exists (MsgBuffer info), (orig_getunbounded_wait_for_rdma (me et) key cb
    (AllocAck (me eo) (mb_hdr imsg)) (free_loc eo)),
    (MsgStatus (status_success true (AllocAck (me eo) (mb_hdr imsg)))). split_and!.
  - unfold send_pointers. by rewrite !bind_emit, add_effects_app.
  - done.
  - cbn [GetUnbounded_Update]. unfold smo_GetUnbounded_WaitInfo. rewrite bind_lift.
    simpl (ExpectMessageOrDie _ _). cbn [mbind outcome_bind].
    change (mb_meta_plus_data_size info) with (ldo_user_size d). rewrite Hn, Hb.
    by rewrite !bind_emit, add_effects_app.
  - cbn [GetUnbounded_Update]. unfold smo_GetUnbounded_WaitRDMA. rewrite bind_lift.
    simpl (VerifyTypeOrDie _ _). cbn [mbind outcome_bind].
    by rewrite !bind_emit, add_effects_app, Hmem.
  - done.
  - done.
Qed.

Definition unbounded_request (o t : NodeID.t) (mb : Z) (b : Bucket.t) (k : Key) (iom flags : Z) :=
  AllocSimple o OpKelpieGetUnbounded_id DirectFlags.CMD_GET_UNBOUNDED t mb MAILBOX_UNSPECIFIED b k
    iom flags [] [].
Definition unbounded_reply et (o : NodeID.t) (mb : Z) (b : Bucket.t) (k : Key) : buffer_t :=
  new_buffer (me et) OpKelpieGetUnbounded_id DirectFlags.CMD_GET_UNBOUNDED o (mailbox et) mb b k 0
    PoolBehavior.NoAction None.

Lemma GetUnbounded_Start_run et o t mb b k iom flags st rep :
  sendable k →
  getForOp (now et) b k (mailbox et) flags iom (λ h, h_ioms st !! h) None (h_rows st) = Ok rep →
  GetUnbounded_Update et trgt_getunbounded_start
    (AMessage o (MsgSimple (unbounded_request o t mb b k iom flags))) st =
  (let st1 := mkNode (rep_rows _ rep) (h_ioms st) (h_effects st ++ [EStore (rep_events _ rep)]) in
   if (rep_rc _ rep =? KELPIE_OK)%Z
   then send_pointers et o (unbounded_reply et o mb b k) (default ldo_null (mjoin (rep_out _ rep))) st1
   else Ok ((trgt_getunbounded_wait_for_data o (unbounded_reply et o mb b k), wait_on_user), st1)).
Proof.
  intros Hk Hg. cbn [GetUnbounded_Update]. unfold smt_GetUnbounded_Start. rewrite bind_lift.
  simpl (ExpectMessageOrDie _ _). cbn [mbind outcome_bind]. rewrite bind_lift.
  unfold unbounded_request. rewrite simple_key by done. cbn [mbind outcome_bind].
  change (ms_bucket _) with b. change (ms_behavior_flags _) with flags. change (ms_iom_hash _) with iom.
  erewrite bind_run by (unfold op_getForOp; rewrite Hg; reflexivity). cbv beta iota zeta.
  by destruct (rep_rc _ rep =? KELPIE_OK)%Z.
Qed.

(** C17: Getting an object that is not empty and that another node has in memory: the get runs to its end, and the callback at
    the origin is given the object in the store of the target, which stays there. *)
Theorem remote_get_returns eo eo1 eo2 et et2 o mb b k iom flags cb so so1 so2 st st2 c :
  sendable k → find_cell b k (h_rows st) = Some c → availability c = InLocalMemory →
  (0 < ldo_user_size (ldo c))%Z →
  memory eo2 (free_loc eo1) = xfer (ldo c) (ldo_alloc (ldo_user_size (ldo c))) →
  ∃ request holding st1 info waiting so1' ack,
    GetUnbounded_Update eo (OpKelpieGetUnbounded o mb (me et) (me et) b k iom flags cb)
      (AUpdate OpBox.start) so =
      Ok ((orig_getunbounded_wait_for_info k cb, waiting_on_cq), add_effects [ESend (me et) request] so) ∧
    GetUnbounded_Update et trgt_getunbounded_start (AMessage o request) st =
      Ok ((holding, waiting_on_cq), st1) ∧
    ESend o info ∈ h_effects st1 ∧ same_objects (h_rows st) (h_rows st1) ∧
    dst_mailbox (msg_hdr info) = mb ∧
    GetUnbounded_Update eo1 (orig_getunbounded_wait_for_info k cb) (AMessage (me et) info) so1 =
      Ok ((waiting, waiting_on_cq), so1') ∧
    EGet (me et) (free_loc et) (free_loc eo1) ∈ h_effects so1' ∧
    GetUnbounded_Update eo2 waiting (AUpdate get_success) so2 =
      Ok ((getu_done, done_and_destroy),
          add_effects [ECallGet cb true k (ldo c); ESend (me et) ack] so2) ∧
    dst_mailbox (msg_hdr ack) = mailbox et ∧
    GetUnbounded_Update et2 holding (AMessage o ack) st2 = Ok ((getu_done, done_and_destroy), st2).
Proof.
  intros Hk Hc Ha Hsz Hmem.
  destruct (getForOp_present (now et) b k (mailbox et) flags iom (λ h, h_ioms st !! h) None
    (h_rows st) c) as (rep & Hg & Hrc & Hout & Hev & Hso); [by destruct Hk|done..|].
  set (st1 := mkNode (rep_rows _ rep) (h_ioms st) (h_effects st ++ [EStore (rep_events _ rep)])).
  destruct (unbounded_tail et o (unbounded_reply et o mb b k) (ldo c) k cb eo1 eo2 et2 st1 so1 so2 st2
    Hsz Hmem) as (info & waiting & ack & Hs & Hd & Hw & Hr & Ha' & He).
  pose proof (GetUnbounded_Start_run et o (me et) mb b k iom flags st rep Hk Hg) as Hst.
  cbv zeta in Hst. fold st1 in Hst. rewrite Hrc, Hout in Hst. cbn [mjoin option_join] in Hst.
  change (KELPIE_OK =? KELPIE_OK)%Z with true in Hst. cbv iota in Hst.
  cbn [default from_option] in Hst. unfold id in Hst. rewrite Hs in Hst.
  eexists (MsgSimple _), _, _, info, waiting, _, ack. split; [done|]. split; [exact Hst|].
  split_and!; [|exact Hso|done|exact Hw| |exact Hr|done|exact He];
    cbn [h_effects add_effects]; rewrite !elem_of_app, elem_of_cons, list_elem_of_singleton; auto.
Qed.

(** C18: Getting an object that is not there yet, without a storage module and with no other op
    waiting for it: the op waits at the target, and the put that brings the object, if it is not
    empty, hands it to the op, which sends it on: the callback at the origin is given the
    object of that put. *)
Theorem remote_get_waits eo eo1 eo2 et et1 et2 o mb b k flags cb so so1 so2 st st2 st3 now' d pflags
    iom info :
  sendable k →
  (∀ c, find_cell b k (h_rows st) = Some c →
     availability c ≠ InLocalMemory ∧ waiting_ops_list c = ∅) →
  (0 < ldo_user_size d)%Z → me et1 = me et →
  memory eo2 (free_loc eo1) = xfer d (ldo_alloc (ldo_user_size d)) →
  ∃ request waiting st1 rep iom' ,
    GetUnbounded_Update eo (OpKelpieGetUnbounded o mb (me et) (me et) b k 0 flags cb)
      (AUpdate OpBox.start) so =
      Ok ((orig_getunbounded_wait_for_info k cb, waiting_on_cq), add_effects [ESend (me et) request] so) ∧
    GetUnbounded_Update et trgt_getunbounded_start (AMessage o request) st =
      Ok ((waiting, wait_on_user), st1) ∧
    put now' b k d pflags (iom : option I) info (h_rows st1) = Ok (rep, iom') ∧
    offered (rep_events _ rep) = [(mailbox et, Some d)] ∧
    ∀ i, ∃ holding found fetching so1' ack,
      GetUnbounded_Update et1 waiting (AObjectAvailable d i) st2 =
        Ok ((holding, waiting_on_cq), add_effects [ENew (free_loc et1) d; ESend o found] st2) ∧
      dst_mailbox (msg_hdr found) = mb ∧
      GetUnbounded_Update eo1 (orig_getunbounded_wait_for_info k cb) (AMessage (me et) found) so1 =
        Ok ((fetching, waiting_on_cq), so1') ∧
      GetUnbounded_Update eo2 fetching (AUpdate get_success) so2 =
        Ok ((getu_done, done_and_destroy),
            add_effects [ECallGet cb true k d; ESend (me et) ack] so2) ∧
      dst_mailbox (msg_hdr ack) = mailbox et ∧
      GetUnbounded_Update et2 holding (AMessage o ack) st3 = Ok ((getu_done, done_and_destroy), st3).
Proof.
  intros Hk Hc Hsz Hme Hmem. pose proof Hk as (Hv & _).
  destruct (getForOp_waits (now et) b k (mailbox et) flags (λ h, h_ioms st !! h) None (h_rows st))
    as (rep & Hg & Hrc & Hout & Hev & Hrows); [done|naive_solver|].
  pose proof (GetUnbounded_Start_run et o (me et) mb b k 0 flags st rep Hk Hg) as Hst.
  cbv zeta in Hst. rewrite Hrc in Hst. change (KELPIE_ENOENT =? KELPIE_OK)%Z with false in Hst.
  set (c := default (new_cell (now et)) (find_cell b k (h_rows st))) in *.
  assert (Hcell : availability c ≠ InLocalMemory ∧ waiting_ops_list c = ∅).
  { unfold c. destruct (find_cell b k (h_rows st)) as [c0|]; [by apply Hc|done]. }
  set (c1 := set_accessed (now et) (appendWaitingList (mailbox et) c)) in *.
  assert (Hw : waiting_ops_list c1 = {[mailbox et]}).
  { unfold c1. cbn [waiting_ops_list set_accessed appendWaitingList]. destruct Hcell as [_ ->].
    set_solver. }
  assert (Hf : find_cell b k (rep_rows _ rep) = Some c1) by (rewrite Hrows; apply find_set_cell).
  pose proof (put_spec now' b k d pflags iom info (rep_rows _ rep) Hv) as Hp.
  rewrite Hf in Hp. cbn [default from_option] in Hp. unfold put_cell in Hp.
  rewrite bool_decide_false in Hp by (cbn; tauto). cbn [andb] in Hp.
  destruct Hp as (rep' & iom' & Hput & _ & _ & _ & _ & Hof); [left; eauto|].
  eexists (MsgSimple _), _, _, rep', iom'. split; [done|]. split; [exact Hst|]. split; [exact Hput|].
  split.
  { rewrite Hof; unfold id; rewrite Hw.
    - rewrite mailboxes_small by (by rewrite size_singleton). by rewrite elements_singleton.
    - by rewrite size_singleton. }
  intros i.
  destruct (unbounded_tail et1 o (unbounded_reply et o mb b k) d k cb eo1 eo2 et2 st2 so1 so2 st3
    Hsz Hmem) as (found & fetching & ack & Hs & Hd & Hw' & Hr & Ha & He).
  rewrite Hme in Hw', Hr. eexists _, found, fetching, _, ack.
  split; [exact Hs|]. split; [exact Hd|]. split; [exact Hw'|]. split; [exact Hr|]. by split.
Qed.

(** An empty object ends the process that asked for it: the message that should announce it is
    taken for a cancellation, which is not implemented. *)
Lemma empty_object_exits et o mb b k d key cb eo st so :
  ldo_user_size d = 0%Z →
  ∃ info st1, send_pointers et o (unbounded_reply et o mb b k) d st = Ok (st1) ∧
    ESend o info ∈ h_effects st1.2 ∧
    GetUnbounded_Update eo (orig_getunbounded_wait_for_info key cb) (AMessage (me et) info) so =
      Throw Exit.
Proof.
  intros Hd. unfold send_pointers. rewrite !bind_emit, add_effects_app.
  eexists (MsgBuffer (set_ldo _ _)), _. split; [reflexivity|]. split.
  - cbn [snd h_effects add_effects app]. rewrite elem_of_app, elem_of_cons, list_elem_of_singleton. auto.
  - cbn [GetUnbounded_Update]. unfold smo_GetUnbounded_WaitInfo. rewrite bind_lift.
    simpl (ExpectMessageOrDie _ _). cbn [mbind outcome_bind].
    change (mb_meta_plus_data_size _) with (ldo_user_size d). by rewrite Hd.
Qed.

(** A compute that fails, or whose result is empty, is never acknowledged: the origin ends
    without a message, and the target waits on. *)
Lemma compute_not_acknowledged compute e key cb t imsg s :
  DirectFlags.IsNack (mb_hdr imsg) = true ∨ mb_meta_plus_data_size imsg = 0%Z →
  ∃ rc, Compute_Update compute e (orig_compute_wait_for_info key cb) (AMessage t (MsgBuffer imsg)) s =
    Ok ((compute_done, done_and_destroy), add_effects [ECallCompute cb rc key ldo_null] s).
Proof.
  intros Hn. cbn [Compute_Update]. unfold smo_Compute_WaitInfo. rewrite bind_lift.
  simpl (ExpectMessageOrDie _ _). cbn [mbind outcome_bind].
  destruct (DirectFlags.IsNack (mb_hdr imsg)); [by exists KELPIE_ENOENT|].
  destruct Hn as [?|Hn]; [done|]. rewrite Hn. by exists KELPIE_OK.
Qed.

(** * Collecting the answers of many nodes *)

(** Updates one after the other. *)
Fixpoint feed {S} (upd : S → op_args → M (S * WaitingType)) (s : S) (w : WaitingType)
    (l : list op_args) : M (S * WaitingType) :=
  match l with
  | [] => mret (s, w)
  | a :: l' => '(s', w') ← upd s a; feed upd s' w' l'
  end.

Definition successes (l : list (peer_ptr_t * msg_direct_status_t)) : Z :=
  Z.of_nat (length (filter (λ m, DirectFlags.Success (mt_hdr m.2) = true) l)).

(** A drop sent to several nodes calls back once, when the last of them has answered, and says
    whether one of them (or the node itself) had something to drop. *)
Theorem drop_collects e k cb n0 replies s w :
  replies ≠ [] → (Z.of_nat (length replies) < 2 ^ 64)%Z →
  feed (Drop_Update e)
    (orig_drop_wait_for_results k (Some cb) (Z.of_nat (length replies)) n0) w
    ((λ m, AMessage m.1 (MsgStatus m.2)) <$> replies) s =
  Ok ((drop_done, done_and_destroy),
      add_effects [ECallDrop cb (0 <? n0 + successes replies)%Z k] s).
Proof.
  revert n0 w. induction replies as [|[p m] l IH]; intros n0 w Hne Hlen; [done|].
  cbn [fmap list_fmap feed Drop_Update]. unfold smo_Drop_WaitForResults at 1.
  cbn [length] in Hlen.
  set (n1 := if DirectFlags.Success (mt_hdr m) then (n0 + 1)%Z else n0).
  assert (Hn1 : (n0 + successes ((p, m) :: l) = n1 + successes l)%Z).
  { unfold n1, successes. rewrite filter_cons. cbn [snd].
    destruct (DirectFlags.Success (mt_hdr m)).
    - rewrite decide_True by done. simpl. lia.
    - by rewrite decide_False by done. }
  assert (Hu : u64 (Z.of_nat (length ((p, m) :: l)) - 1) = Z.of_nat (length l)).
  { cbn [length]. replace (Z.of_nat (S (length l)) - 1)%Z with (Z.of_nat (length l)) by lia.
    apply wrap_id. unfold in_width. lia. }
  rewrite Hu. unfold mbind at 1, M_bind at 1. rewrite bind_lift. simpl (ExpectMessageOrDie _ _).
  cbn [mbind outcome_bind]. fold n1. destruct l as [|x l].
  - change (Z.of_nat (length (@nil (peer_ptr_t * msg_direct_status_t))) <? 1)%Z with true.
    cbv iota. rewrite bind_emit. rewrite Hn1. unfold successes. simpl. by rewrite Z.add_0_r.
  - rewrite (proj2 (Z.ltb_ge _ _)) by (cbn [length]; lia).
    unfold updateState, mret, M_ret. rewrite Hn1. apply IH; [done|cbn [length] in *; lia].
Qed.

(** A listing of several nodes appends their answers in the order they come and sets the promise
    with the last. *)
Lemma list_collects e replies s w :
  replies ≠ [] →
  feed (List_Update e) (orig_list_wait_for_results (Z.of_nat (length replies))) w
    ((λ m, AMessage m.1.1 (MsgCereal m.1.2 m.2)) <$> replies) s =
  Ok ((list_done, done_and_destroy),
      add_effects ((EAppend <$> replies.*2) ++ [ESetPromise true]) s).
Proof.
  revert w s. induction replies as [|[[p h] oc] l IH]; intros w s Hne; [done|].
  cbn [fmap list_fmap feed List_Update length]. unfold smo_List_WaitForResults at 1.
  replace (Z.of_nat (S (length l)) - 1)%Z with (Z.of_nat (length l)) by lia.
  unfold mbind at 1, M_bind at 1. rewrite bind_lift. simpl (ExpectMessageOrDie _ _).
  cbn [mbind outcome_bind]. rewrite bind_emit. destruct l as [|x l].
  - change (Z.of_nat (length (@nil (peer_ptr_t * message_t * ObjectCapacities))) <? 1)%Z with true.
    cbv iota. by rewrite bind_emit, add_effects_app.
  - rewrite (proj2 (Z.ltb_ge _ _)) by (cbn [length]; lia).
    unfold updateState, mret, M_ret. etrans; [apply IH; done|]. by rewrite add_effects_app.
Qed.

(** With nobody to ask, a drop with a callback waits for an answer that never comes, and a
    listing ends without setting its promise. *)
Lemma nobody_to_ask e b k cb iom n s :
  Drop_Update e (OpKelpieDrop [] b k n (Some cb)) (AUpdate OpBox.start) s =
    Ok ((orig_drop_wait_for_results k (Some cb) 0 (if n then 1 else 0), waiting_on_cq), s) ∧
  List_Update e (OpKelpieList [] b k iom) (AUpdate OpBox.start) s = Ok ((list_done, done_and_destroy), s).
Proof. by destruct n. Qed.

End ops.

(** * Objects that are transferred

    The contents of data objects, with a transfer that cuts what does not fit. *)
Definition content_alloc (n : Z) : option ldo_content :=
  Some (mkLdo 0 [] (replicate (Z.to_nat n) nul)).

Definition content_xfer (src dst : option ldo_content) : option ldo_content :=
  if (ldo_user_size src <=? ldo_user_size dst)%Z then src
  else (λ c, mkLdo (ldo_type c) (ldo_meta_section c)
               (take (Z.to_nat (ldo_user_size dst)) (ldo_data_section c))) <$> src.

Lemma content_size_width (d : option ldo_content) : in_width 32 (ldo_user_size d).
Proof. destruct d as [c|]; [by apply wrap_in_width|done]. Qed.

Lemma content_alloc_size n : in_width 32 n → ldo_user_size (content_alloc n) = n.
Proof.
  intros [H0 H1]. simpl. rewrite length_replicate, Z2Nat.id by done. by apply wrap_id.
Qed.

Lemma content_xfer_same src dst :
  ldo_user_size src = ldo_user_size dst → content_xfer src dst = src.
Proof. intros Hs. unfold content_xfer. by rewrite Hs, Z.leb_refl. Qed.

#[global] Instance content_rdma : Rdma (option ldo_content) := {
  ldo_alloc := content_alloc;
  xfer := content_xfer;
  ldo_user_size_width := content_size_width;
  ldo_alloc_size := content_alloc_size;
  xfer_same := content_xfer_same
}.

(** * Witnesses *)

Abbreviation node := (node_state (D := content) (I := storage)).
Definition node0 : node := mkNode ∅ ∅ [].
Definition origin : NodeID.t := NodeID.mk 1.
Definition target_node : NodeID.t := NodeID.mk 2.
Definition hello : content := obj (lit "hello").
Definition env_at (n : NodeID.t) (mb : Z) : env (D := content) := mkEnv n 5 mb 9%N (λ _, hello).
Definition k_hello : Key := mkKey (lit "row") (lit "col").
Definition full_node : node :=
  mkNode (set_cell b0 k_hello (fill 3 hello (new_cell 3)) ∅) ∅ [].

Lemma k_hello_sendable : sendable k_hello.
Proof. split_and!; reflexivity. Defined.

Lemma remote_publish_is_put_witness :
  ∃ ack, Publish_Update (env_at origin 3)
      (orig_pub_wait_for_ack (mkObject 4%N hello) (Some 7)) (AMessage target_node ack) node0 =
    Ok ((pub_done, done_and_destroy),
        add_effects [ECallPublish 7 KELPIE_OK (mkInfo 5 5 1 0 InRemoteMemory)] node0).
Proof.
  edestruct (remote_publish_is_put (I := storage) (env_at origin 3) (env_at target_node 8)
    (env_at target_node 8) (env_at origin 3) origin target_node 3 (mkObject 4%N hello) b0 k_hello 0
    PoolBehavior.DefaultRemote 7 node0 node0 node0 node0) as (req & w & st1 & ack & _ & _ & _ & _ & _ & _ & H).
  - exact k_hello_sendable.
  - split; [discriminate|reflexivity].
  - reflexivity.
  - reflexivity.
  - reflexivity.
  - right. intros c Hc. discriminate Hc.
  - reflexivity.
  - vm_compute. reflexivity.
  - exists ack. exact H.
Defined.

Lemma remote_get_returns_witness :
  ∃ waiting ack, GetUnbounded_Update (env_at origin 3) waiting (AUpdate get_success) node0 =
    Ok ((getu_done, done_and_destroy),
        add_effects [ECallGet 7 true k_hello hello; ESend target_node ack] node0).
Proof.
  destruct (remote_get_returns (I := storage) (env_at origin 3) (env_at origin 3) (env_at origin 3)
    (env_at target_node 8) (env_at target_node 8) origin 3 b0 k_hello 0 0 7 node0 node0 node0
    full_node full_node (fill 3 hello (new_cell 3)))
    as (req & h & st1 & info & waiting & so1 & ack & _ & _ & _ & _ & _ & _ & _ & H & _).
  - exact k_hello_sendable.
  - apply find_set_cell.
  - reflexivity.
  - reflexivity.
  - reflexivity.
  - exists waiting, ack. exact H.
Defined.

Lemma remote_get_waits_witness :
  ∃ waiting (st1 : node) rep iom',
    put 9 b0 k_hello hello 1 (None : option storage) None (h_rows st1) = Ok (rep, iom') ∧
    offered (rep_events _ rep) = [(8%Z, Some hello)] ∧
    ∃ holding found,
      GetUnbounded_Update (env_at target_node 8) waiting (AObjectAvailable hello Wipe) node0 =
      Ok ((holding, waiting_on_cq), add_effects [ENew 9%N hello; ESend origin found] node0).
Proof.
  destruct (remote_get_waits (I := storage) (env_at origin 3) (env_at origin 3) (env_at origin 3)
    (env_at target_node 8) (env_at target_node 8) (env_at target_node 8) origin 3 b0 k_hello 0 7
    node0 node0 node0 node0 node0 node0 9 hello 1 None None)
    as (req & waiting & st1 & rep & iom' & _ & _ & Hp & Ho & Hrest).
  - exact k_hello_sendable.
  - intros c Hc. discriminate Hc.
  - reflexivity.
  - reflexivity.
  - reflexivity.
  - exists waiting, st1, rep, iom'. split; [exact Hp|]. split; [exact Ho|].
    destruct (Hrest Wipe) as (holding & found & f & so & ack & H & _). exists holding, found. exact H.
Defined.

Lemma drop_collects_witness :
  let ack := AllocAck target_node (ms_hdr (unbounded_request origin target_node 3 b0 k_hello 0 0)) in
  feed (Drop_Update (env_at origin 3)) (orig_drop_wait_for_results k_hello (Some 7) 2 0) waiting_on_cq
    [AMessage target_node (MsgStatus (status_success false ack)); AMessage target_node (MsgStatus ack)]
    node0 =
  Ok ((drop_done, done_and_destroy), add_effects [ECallDrop 7 true k_hello] node0).
Proof.
  intros ack. apply (drop_collects (env_at origin 3) k_hello 7 0
    [(target_node, status_success false ack); (target_node, ack)]); [discriminate|reflexivity].
Defined.
