(* ===== verification/Pools.v ===== *)
(** Pools (src/src/kelpie/pools): what an application publishes to and reads from.  A pool is the
    base settings of PoolBase.cpp and the methods of its kind: LocalPool.cpp works on the store of
    the node, NullPool.cpp on nothing, DHTPool.cpp spreads the rows over the members of a
    directory and launches the ops of KelpieOps for what lives elsewhere; PoolRegistry.cpp hands
    out one pool per tag.

    A method runs in the monad [M] of the ops, on the node that called it.  A method that launches
    an op returns it; [mailbox] and [free_loc] of the environment are the mailbox and the memory the
    op will be given. *)
From S2P Require Import Prelude StringHelpers Identifiers ResourceURL Key KelpieTypes LocalKVRow.
From S2P Require Import LocalKV DirectoryInfo Message OpBox KelpieOps.

(** * Settings (PoolBase.cpp) *)

(** Which member keeps a key: the row, the tag of the row (TFTPool.cpp) or the rank of the process
    (RFTPool.cpp) decides. *)
Inductive placement := ByRow | ByTag | ByRank (mpi_rank : Z).

Record pool := mkPool {
  pool_url : ResourceURL;
  default_bucket : Bucket.t;
  my_nodeid : NodeID.t;
  iom : option Z;                          (** the node's I/O module, by the hash of its name *)
  iom_hash : Z;
  behavior_flags : Z;
  nodes : list (NodeID.t * NodeID.t);      (** the members of a DHT, with their peers *)
  get_callback : callback_id;              (** the callback its gets are launched with *)
  pool_placement : placement }.

Definition set_iom (p : pool) (i : option Z) : pool :=
  mkPool (pool_url p) (default_bucket p) (my_nodeid p) i (iom_hash p) (behavior_flags p) (nodes p)
    (get_callback p) (pool_placement p).
Definition set_iom_hash (p : pool) (h : Z) : pool :=
  mkPool (pool_url p) (default_bucket p) (my_nodeid p) (iom p) h (behavior_flags p) (nodes p)
    (get_callback p) (pool_placement p).
Definition set_behavior (p : pool) (f : Z) : pool :=
  mkPool (pool_url p) (default_bucket p) (my_nodeid p) (iom p) (iom_hash p) f (nodes p)
    (get_callback p) (pool_placement p).
Definition set_nodes (p : pool) (l : list (NodeID.t * NodeID.t)) : pool :=
  mkPool (pool_url p) (default_bucket p) (my_nodeid p) (iom p) (iom_hash p) (behavior_flags p) l
    (get_callback p) (pool_placement p).

Definition set_placement (p : pool) (r : placement) : pool :=
  mkPool (pool_url p) (default_bucket p) (my_nodeid p) (iom p) (iom_hash p) (behavior_flags p)
    (nodes p) (get_callback p) r.

(** The hash in an ["iom"] option: a hexadecimal number, or the name it is the hash of. *)
Definition parse_iom_hash (iom_name : str) : outcome Z :=
  if starts_0x iom_name then
    match stream_hex 64 (drop 2 iom_name) with
    | Some val => Ok (u32 val)
    | None => Throw Undefined
    end
  else Ok (hash32 iom_name).

Definition PoolBase_new (my_id : NodeID.t) (url : ResourceURL) (behavior_flags_ : Z)
    (cb : callback_id) : outcome pool :=
  if Type_ url =s? lit "unconfigured" then
    Ok (mkPool url Bucket.UNSPECIFIED NodeID.NODE_UNSPECIFIED None 0 behavior_flags_ [] cb ByRow)
  else
    let new_bucket := GetOption url (lit "bucket") [] in
    b ← (if negb (new_bucket =s? []) then Bucket.of_string new_bucket else Ok (bucket url));
    let iom_name := GetOption url (lit "iom") [] in
    '(h, flags) ←
      (if negb (iom_name =s? [])
       then h ← parse_iom_hash iom_name; Ok (h, PoolBehavior.DefaultIOM)
       else Ok (0%Z, behavior_flags_));
    let behavior := GetOption url (lit "behavior") [] in
    flags ← (if negb (behavior =s? []) then PoolBehavior.ParseString behavior else Ok flags);
    Ok (mkPool url b my_id None h flags [] cb ByRow).

Section pools.
Context {D : Type} {LO : LdoOps D} {RD : Rdma D} {I : Type} {IO : IomBase I D}.
(** The node's I/O modules by name, [IomRegistry::RegisterIomFromURL], the compute functions, the
    directory service and the connections. *)
Context (iom_find : str → option Z) (RegisterIomFromURL : ResourceURL → option (str → option Z)).
Context (compute : str → str → Bucket.t → Key → gmap Key D → rc_t * D).
Context (GetDirectoryInfo : ResourceURL → option DirectoryInfo).
Context (Connect_peer : NodeID.t → option NodeID.t).

Abbreviation M := (@M D I).
#[local] Existing Instances M_ret M_bind.
Implicit Types (p : pool) (e : env (D := D)) (key : Key).

(** Calls on the store that keep nothing but what the caller looks at. *)
Definition put_quiet e (b : Bucket.t) key (d : D) (flags : Z) : M () :=
  λ s, '(rep, _) ← put (now e) b key d flags (None : option I) None (h_rows s);
       Ok ((), mkNode (rep_rows _ rep) (h_ioms s) (h_effects s ++ [EStore (rep_events _ rep)])).

Definition lkv_get e (b : Bucket.t) key : M (rc_t * option D * object_info_t) :=
  λ s, rep ← get (now e) b key (Some Wipe) (h_rows s);
       Ok ( (rep_rc _ rep, mjoin (rep_out _ rep), default Wipe (rep_info _ rep)),
            mkNode (rep_rows _ rep) (h_ioms s) (h_effects s ++ [EStore (rep_events _ rep)]) ).

Definition want_local e (b : Bucket.t) key (fetch : bool) (cb : option callback_id) : M rc_t :=
  λ s, rep ← wantLocal (now e) b key fetch cb (h_rows s);
       Ok (rep_rc _ rep, mkNode (rep_rows _ rep) (h_ioms s) (h_effects s ++ [EStore (rep_events _ rep)])).

Definition list_local (b : Bucket.t) key (iom : option Z) (oc : ObjectCapacities)
    : M (rc_t * ObjectCapacities) :=
  λ s, '(rc, oc') ← lkv_list b key (h ← iom; h_ioms s !! h) oc (h_rows s); Ok ((rc, oc'), s).

(** The pool's I/O module; the pointer stays good. *)
Definition pool_iom p : M (option I) :=
  λ s, match iom p with
       | None => Ok (None, s)
       | Some h => match h_ioms s !! h with Some i => Ok (Some i, s) | None => Throw Undefined end
       end.

Definition call_publish (cb : option callback_id) (rc : rc_t) (info : object_info_t) : M () :=
  match cb with Some c => emit (ECallPublish c rc info) | None => mret () end.

(** * The local pool (LocalPool.cpp) *)

Definition iom_option (url : ResourceURL) : str :=
  if path url =s? lit "/local/iom" then name url else GetOption url (lit "iom") [].

Definition LocalPool_new (my_id : NodeID.t) (url : ResourceURL) (cb : callback_id) : outcome pool :=
  p ← PoolBase_new my_id url PoolBehavior.DefaultLocal cb;
  let io := iom_option url in
  if negb (io =s? []) then
    match iom_find io with
    | None => Throw RuntimeError
    | Some i =>
        let p := set_iom_hash (set_iom p (Some i)) i in
        Ok (if GetOption url (lit "behavior") [] =s? [] then set_behavior p PoolBehavior.DefaultLocalIOM
            else p)
    end
  else Ok p.

Definition Local_Publish_key p e key (cb : option callback_id) : M rc_t :=
  '(rc, ldo, info) ← lkv_get e (default_bucket p) key;
  if negb (rc =? KELPIE_OK)%Z then mret rc
  else
    _ ← match iom p with
        | Some h => iom_write h (default_bucket p) key (default ldo_null ldo)
        | None => mret ()
        end;
    _ ← call_publish cb KELPIE_OK info;
    mret KELPIE_OK.

Definition Local_Publish p e key (user_ldo : D) (cb : option callback_id) : M rc_t :=
  '(rc, info) ← op_put e (default_bucket p) key user_ldo (behavior_flags p) (iom p) Wipe;
  _ ← call_publish cb rc info;
  mret KELPIE_OK.

Definition Local_Want p e key (expected_ldo_user_bytes : Z) (cb : option callback_id) : M rc_t :=
  rc ← want_local e (default_bucket p) key false cb;
  i ← pool_iom p;
  match i with
  | Some i =>
      if (rc =? KELPIE_ENOENT)%Z then
        let '(rc, ldo) := iom_ReadObject i (default_bucket p) key in
        if (rc =? KELPIE_OK)%Z then
          _ ← put_quiet e (default_bucket p) key ldo (behavior_flags p); mret rc
        else mret rc
      else mret rc
  | None => mret rc
  end.

(** [Need] polls; this is one turn of its loop.  It ends with a code and an object, or goes
    around again; the I/O module is asked in the first turn that finds nothing. *)
Definition Local_Need_turn p e key (first_time : bool) : M (option (rc_t * D) * bool) :=
  '(rc, ldo, _) ← lkv_get e (default_bucket p) key;
  if (rc =? KELPIE_ENOENT)%Z then
    i ← pool_iom p;
    match i, first_time with
    | Some i, true =>
        let '(rc, ldo) := iom_ReadObject i (default_bucket p) key in
        mret ((if (rc =? KELPIE_OK)%Z then Some (rc, ldo) else None), false)
    | _, _ => mret (None, first_time)
    end
  else mret (Some (rc, default ldo_null ldo), first_time).

Definition Local_Compute p e key (function_name function_args : str) (cb : callback_id) : M rc_t :=
  '(rc, ldo) ← op_compute e compute function_name function_args (default_bucket p) key;
  _ ← emit (ECallCompute cb rc key ldo);
  mret KELPIE_OK.

Definition Local_Info p e key (info : object_info_t) : M (rc_t * object_info_t) :=
  '(rc, info) ← op_getInfo e (default_bucket p) key info;
  i ← pool_iom p;
  match i with
  | Some i => if (rc =? KELPIE_ENOENT)%Z then mret (iom_GetInfo i (default_bucket p) key)
              else mret (rc, info)
  | None => mret (rc, info)
  end.

Definition Local_RowInfo p e key (info : object_info_t) : M (rc_t * object_info_t) :=
  op_getInfo e (default_bucket p) key info.

Definition Local_Drop p e key (cb : option callback_id) : M rc_t :=
  rc ← op_drop e (default_bucket p) key;
  _ ← match cb with Some c => emit (ECallDrop c (rc =? KELPIE_OK)%Z key) | None => mret () end;
  mret rc.

Definition Local_List p key (oc : ObjectCapacities) : M (rc_t * ObjectCapacities) :=
  list_local (default_bucket p) key (iom p) oc.

(** * The null pool (NullPool.cpp) *)

Definition Null_Publish p key (cb : option callback_id) : M rc_t :=
  _ ← call_publish cb KELPIE_OK Wipe; mret KELPIE_OK.
Definition null_ldo (expected_ldo_user_bytes : Z) : D :=
  if (0 <? expected_ldo_user_bytes)%Z then ldo_alloc expected_ldo_user_bytes else ldo_null.
Definition Null_Want p key (expected_ldo_user_bytes : Z) (cb : callback_id) : M rc_t :=
  _ ← emit (EStore [EvCallback cb key (null_ldo expected_ldo_user_bytes) Wipe]); mret KELPIE_OK.
Definition Null_Need p key (expected_ldo_user_bytes : Z) : M (rc_t * D) :=
  mret (KELPIE_OK, null_ldo expected_ldo_user_bytes).
Definition Null_Compute p key (cb : callback_id) : M rc_t :=
  _ ← emit (ECallCompute cb KELPIE_ENOENT key ldo_null); mret KELPIE_OK.
Definition Null_Info p key : M (rc_t * object_info_t) := mret (KELPIE_OK, Wipe).
Definition Null_Drop p key (cb : option callback_id) : M rc_t := mret KELPIE_OK.
Definition Null_List p key (oc : ObjectCapacities) : M (rc_t * ObjectCapacities) :=
  mret (KELPIE_OK, oc).
(** * The distributed pool (DHTPool.cpp) *)

(** The peers of the members; one that cannot be reached ends the construction. *)
Fixpoint connect_all (ms : list NameAndNode) : outcome (list (NodeID.t * NodeID.t)) :=
  match ms with
  | [] => Ok []
  | m :: ms' =>
      match Connect_peer (nn_node m) with
      | None => Throw RuntimeError
      | Some peer => l ← connect_all ms'; Ok ((nn_node m, peer) :: l)
      end
  end.

Definition DHTPool_new (my_id : NodeID.t) (url : ResourceURL) (cb : callback_id) : outcome pool :=
  p ← PoolBase_new my_id url PoolBehavior.DefaultRemote cb;
  match GetDirectoryInfo url with
  | None => Throw RuntimeError
  | Some dir_info =>
      let we_are_in_pool := existsb (λ m, bool_decide (nn_node m = my_id)) (members dir_info) in
      nodes ← connect_all (members dir_info);
      let p := set_nodes p nodes in
      let p := if negb (iom_hash p =? 0)%Z && (GetOption url (lit "behavior") [] =s? [])
               then set_behavior p PoolBehavior.DefaultRemoteIOM else p in
      let io := iom_option url in
      if we_are_in_pool && negb (io =s? []) then
        match iom_find io with
        | Some i => Ok (set_iom p (Some i))
        | None =>
            match RegisterIomFromURL url ≫= λ find, find io with
            | Some i => Ok (set_iom p (Some i))
            | None => Throw RuntimeError
            end
        end
      else Ok p
  end.

(** Tagged and ranked pools are made like the others and differ in where a key is kept.
    [MPI_Comm_rank] is a parameter. *)
Definition TFTPool_new (my_id : NodeID.t) (url : ResourceURL) (cb : callback_id) : outcome pool :=
  p ← DHTPool_new my_id url cb; Ok (set_placement p ByTag).

(** [std::stoi] with the radix of the text. *)
Definition stoi (s : str) : outcome Z :=
  match scan_number 0 (c_str s) with
  | None => Throw InvalidArgument
  | Some (neg, v, _) =>
      let v := if neg then (- v)%Z else v in
      if (- 2 ^ 31 <=? v)%Z && (v <? 2 ^ 31)%Z then Ok v else Throw OutOfRange
  end.

Definition RFTPool_new (mpi_comm_rank : Z) (my_id : NodeID.t) (url : ResourceURL) (cb : callback_id)
    : outcome pool :=
  p ← DHTPool_new my_id url cb;
  let intended_rank := GetOption url (lit "rank") [] in
  r ← (if intended_rank =s? [] then Ok mpi_comm_rank else stoi intended_rank);
  Ok (set_placement p (ByRank r)).

(** [x % nodes.size()]; a pool without members has nothing to divide by. *)
Definition among (p : pool) (x : Z) : outcome nat :=
  if bool_decide (nodes p = []) then Throw Undefined
  else Ok (Z.to_nat (x mod Z.of_nat (length (nodes p)))).

Definition DHT_findNodeIndex p key : outcome nat :=
  if decide (length (nodes p) < 2) then Ok 0
  else among p (hash_dbj2_bucket (Bucket.bid (default_bucket p)) (K1 key)).

Definition TFT_findNodeIndex p key : outcome nat :=
  '(rc, tag) ← GetK1Tag key;
  if negb (rc =? KELPIE_OK)%Z then
    if decide (length (nodes p) < 2) then Ok 0
    else among p (hash_dbj2_bucket (Bucket.bid (default_bucket p)) (K1 key))
  else among p tag.

Definition RFT_findNodeIndex p (mpi_rank : Z) : outcome nat := among p (u64 mpi_rank).

Definition findNodeIndex p key : outcome nat :=
  match pool_placement p with
  | ByRow => DHT_findNodeIndex p key
  | ByTag => TFT_findNodeIndex p key
  | ByRank r => RFT_findNodeIndex p r
  end.

(** [nodes[spot]]; a pool without members has none. *)
Definition FindTargetNode p key : outcome (NodeID.t * NodeID.t) :=
  spot ← findNodeIndex p key;
  match nodes p !! spot with Some n => Ok n | None => Throw Undefined end.

Definition find_node p key : M (NodeID.t * NodeID.t) := lift (FindTargetNode p key).

Definition DHT_Publish p e key (user_ldo : data_object (D := D)) (cb : option callback_id)
    : M (rc_t * option (kelpie_op (D := D))) :=
  '(node, peer) ← find_node p key;
  if bool_decide (node = my_nodeid p) then
    '(rc, info) ← op_put e (default_bucket p) key (obj_val user_ldo)
                    (PoolBehavior.ChangeRemoteToLocal (behavior_flags p)) (iom p) Wipe;
    _ ← call_publish cb rc info;
    mret (KELPIE_OK, None)
  else
    let op := KPublish (OpKelpiePublish (me e) (mailbox e) node peer (default_bucket p) key user_ldo
                          (iom_hash p) (behavior_flags p) cb) in
    _ ← (if PoolBehavior.has (behavior_flags p) PoolBehavior.WriteToLocal then
           '(_, _) ← op_put e (default_bucket p) key (obj_val user_ldo) (behavior_flags p) None Wipe;
           mret ()
         else mret ());
    mret (KELPIE_OK, Some op).

Definition DHT_Publish_key p e key (cb : option callback_id) : M (rc_t * option (kelpie_op (D := D))) :=
  '(rc, ldo, _) ← lkv_get e (default_bucket p) key;
  if (rc =? KELPIE_ENOENT)%Z then mret (KELPIE_ENOENT, None)
  else
    let d := default ldo_null ldo in
    _ ← emit (ENew (free_loc e) d);
    DHT_Publish p e key (mkObject (free_loc e) d) cb.

(** What the callback of a get does with the object. *)
Definition DHT_got p e (success : bool) key (ldo : D) : M () :=
  if success then put_quiet e (default_bucket p) key ldo (behavior_flags p) else mret ().

Definition DHT_Want p e key (expected_ldo_user_bytes : Z) (cb : option callback_id)
    : M (rc_t * option (kelpie_op (D := D))) :=
  rc ← want_local e (default_bucket p) key true cb;
  if (rc =? KELPIE_OK)%Z || (rc =? KELPIE_WAITING)%Z then mret (KELPIE_OK, None)
  else
    '(node, peer) ← find_node p key;
    if bool_decide (node = my_nodeid p) then
      i ← pool_iom p;
      _ ← match i with
          | Some i =>
              if (rc =? KELPIE_ENOENT)%Z && PoolBehavior.has (behavior_flags p) PoolBehavior.WriteToIOM
              then
                let '(rc, ldo) := iom_ReadObject i (default_bucket p) key in
                if (rc =? KELPIE_OK)%Z
                then put_quiet e (default_bucket p) key ldo (behavior_flags p) else mret ()
              else mret ()
          | None => mret ()
          end;
      mret (KELPIE_OK, None)
    else if (0 <? expected_ldo_user_bytes)%Z then
      '(st, landing) ← lift (OpKelpieGetBounded (me e) (mailbox e) (free_loc e) node peer
                         (default_bucket p) key expected_ldo_user_bytes (iom_hash p)
                         (behavior_flags p) (get_callback p));
      _ ← emit (ENew (obj_loc landing) (obj_val landing));
      mret (KELPIE_OK, Some (KGetBounded st))
    else
      mret (KELPIE_OK, Some (KGetUnbounded (OpKelpieGetUnbounded (me e) (mailbox e) node peer
        (default_bucket p) key (iom_hash p) (behavior_flags p) (get_callback p)))).

(** [Need]: a want that must be placed; the caller blocks until its callback is called. *)
Definition DHT_Need p e key (expected_ldo_user_bytes : Z) (cb : callback_id)
    : M (option (kelpie_op (D := D))) :=
  '(rc, op) ← DHT_Want p e key expected_ldo_user_bytes (Some cb);
  if negb (rc =? KELPIE_OK)%Z then lift (Throw Exit) else mret op.

Definition DHT_Compute p e key (function_name function_args : str) (cb : callback_id)
    : M (rc_t * option (kelpie_op (D := D))) :=
  _ ← lift (F_ASSERT (negb (IsRowWildcard key)));
  '(node, peer) ← find_node p key;
  if bool_decide (node = my_nodeid p) then
    '(rc, ldo) ← op_compute e compute function_name function_args (default_bucket p) key;
    _ ← emit (ECallCompute cb rc key ldo);
    mret (KELPIE_OK, None)
  else
    mret (KELPIE_OK, Some (KCompute (OpKelpieCompute (me e) (mailbox e) node peer (default_bucket p)
      key (iom_hash p) (behavior_flags p) function_name function_args cb))).

(** [Info] and [RowInfo] before they block: the answer, or the op to wait for. *)
Definition DHT_Info p e key (info : object_info_t) (cb : callback_id)
    : M (rc_t * object_info_t * option (kelpie_op (D := D))) :=
  '(rc, info) ← op_getInfo e (default_bucket p) key info;
  if (rc =? KELPIE_OK)%Z || (rc =? KELPIE_WAITING)%Z then mret (rc, info, None)
  else
    '(node, peer) ← find_node p key;
    if bool_decide (node = my_nodeid p) then
      i ← pool_iom p;
      let '(rc, info) :=
        match i with Some i => iom_GetInfo i (default_bucket p) key | None => (rc, info) end in
      mret (rc, info, None)
    else
      mret (rc, info, Some (KMeta (OpKelpieMeta (me e) (mailbox e) DirectFlags.CMD_GET_COLINFO node
        peer (default_bucket p) key (iom_hash p) (Some cb)))).

Definition DHT_RowInfo p e key (info : object_info_t) (cb : callback_id)
    : M (rc_t * object_info_t * option (kelpie_op (D := D))) :=
  '(rc, info) ← op_getInfo e (default_bucket p) key info;
  if (rc =? KELPIE_OK)%Z || (rc =? KELPIE_WAITING)%Z then mret (rc, info, None)
  else
    '(node, peer) ← find_node p key;
    if bool_decide (node = my_nodeid p) then mret (rc, info, None)
    else
      mret (rc, info, Some (KMeta (OpKelpieMeta (me e) (mailbox e) DirectFlags.CMD_GET_ROWINFO node
        peer (default_bucket p) key (iom_hash p) (Some cb)))).

(** The callback of the op, and what the caller does once it has run. *)
Definition DHT_Info_result (result : rc_t) (new_info : object_info_t) : rc_t * object_info_t :=
  let info := if (result =? 0)%Z then new_info else Wipe in
  (result, if (result =? KELPIE_OK)%Z then ChangeAvailabilityFromLocalToRemote info else info).

(** The nodes a search key concerns: whether this one is, and the others. *)
Definition search_nodes p key : M (bool * list (NodeID.t * NodeID.t)) :=
  if negb (IsRowWildcard key) then
    '(node, peer) ← find_node p key;
    mret (if bool_decide (node = my_nodeid p) then (true, []) else (false, [(node, peer)]))
  else
    mret (existsb (λ n, bool_decide (n.1 = my_nodeid p)) (nodes p),
          filter (λ n, n.1 ≠ my_nodeid p) (nodes p)).

Definition DHT_Drop p e key (cb : option callback_id) : M (rc_t * option (kelpie_op (D := D))) :=
  '(here, tmp_nodes) ← search_nodes p key;
  let needs_local_search :=
    PoolBehavior.has (behavior_flags p) (Z.lor PoolBehavior.WriteToLocal PoolBehavior.ReadToLocal)
    || here in
  rc_local ← (if needs_local_search then op_drop e (default_bucket p) key else mret KELPIE_ENOENT);
  if negb (bool_decide (tmp_nodes = [])) then
    mret (KELPIE_OK, Some (KDrop (OpKelpieDrop tmp_nodes (default_bucket p) key
      (rc_local =? KELPIE_OK)%Z cb)))
  else
    _ ← match cb with Some c => emit (ECallDrop c (rc_local =? KELPIE_OK)%Z key) | None => mret () end;
    mret (KELPIE_OK, None).

Definition DHT_List p e key (oc : ObjectCapacities)
    : M (rc_t * ObjectCapacities * option (kelpie_op (D := D))) :=
  '(here, tmp_nodes) ← search_nodes p key;
  '(_, oc) ← (if (here : bool) then list_local (default_bucket p) key (iom p) oc
              else mret (KELPIE_OK, oc));
  mret (KELPIE_OK, oc,
    if negb (bool_decide (tmp_nodes = []))
    then Some (KList (OpKelpieList tmp_nodes (default_bucket p) key (iom_hash p))) else None).
(** * The pool in the hands of the application (Pool.cpp)

    A [Pool] points to an implementation; the unconfigured pool answers every call with an
    exception. *)
Inductive pool_kind := LocalPool | NullPool | DHTPool | UnconfiguredPool.

Definition no_op {A} (m : M A) : M (A * option (kelpie_op (D := D))) := a ← m; mret (a, None).
Definition Panic {A} : M A := lift (Throw RuntimeError).

Definition Pool_Publish_key (kind : pool_kind) p e key (cb : option callback_id)
    : M (rc_t * option (kelpie_op (D := D))) :=
  if IsWildcard key then lift (Throw RuntimeError)
  else
    match kind with
    | LocalPool => no_op (Local_Publish_key p e key cb)
    | NullPool => no_op (Null_Publish p key cb)
    | DHTPool => DHT_Publish_key p e key cb
    | UnconfiguredPool => Panic
    end.

Definition Pool_Publish (kind : pool_kind) p e key (user_ldo : data_object (D := D))
    (cb : option callback_id) : M (rc_t * option (kelpie_op (D := D))) :=
  if IsWildcard key then lift (Throw RuntimeError)
  else
    match kind with
    | LocalPool => no_op (Local_Publish p e key (obj_val user_ldo) cb)
    | NullPool => no_op (Null_Publish p key cb)
    | DHTPool => DHT_Publish p e key user_ldo cb
    | UnconfiguredPool => Panic
    end.

Definition Pool_Want (kind : pool_kind) p e key (expected_ldo_user_bytes : Z) (cb : callback_id)
    : M (rc_t * option (kelpie_op (D := D))) :=
  if IsWildcard key then lift (Throw RuntimeError)
  else
    match kind with
    | LocalPool => no_op (Local_Want p e key expected_ldo_user_bytes (Some cb))
    | NullPool => no_op (Null_Want p key expected_ldo_user_bytes cb)
    | DHTPool => DHT_Want p e key expected_ldo_user_bytes (Some cb)
    | UnconfiguredPool => Panic
    end.

Definition Pool_Compute (kind : pool_kind) p e key (function_name function_args : str)
    (cb : callback_id) : M (rc_t * option (kelpie_op (D := D))) :=
  match kind with
  | LocalPool => no_op (Local_Compute p e key function_name function_args cb)
  | NullPool => no_op (Null_Compute p key cb)
  | DHTPool => DHT_Compute p e key function_name function_args cb
  | UnconfiguredPool => Panic
  end.

Definition Pool_Drop (kind : pool_kind) p e key (cb : option callback_id)
    : M (rc_t * option (kelpie_op (D := D))) :=
  match kind with
  | LocalPool => no_op (Local_Drop p e key cb)
  | NullPool => no_op (Null_Drop p key cb)
  | DHTPool => DHT_Drop p e key cb
  | UnconfiguredPool => Panic
  end.

Definition Pool_List (kind : pool_kind) p e key (oc : ObjectCapacities)
    : M (rc_t * ObjectCapacities * option (kelpie_op (D := D))) :=
  match kind with
  | LocalPool => no_op (Local_List p key oc)
  | NullPool => no_op (Null_List p key oc)
  | DHTPool => DHT_List p e key oc
  | UnconfiguredPool => Panic
  end.

(** * Where things are *)

Lemma among_bounds p x : nodes p ≠ [] → ∃ i, among p x = Ok i ∧ i < length (nodes p).
Proof.
  intros Hne. unfold among. rewrite bool_decide_false by done. eexists. split; [done|].
  destruct (nodes p) as [|n l]; [done|].
  pose proof (Z.mod_pos_bound x (Z.of_nat (length (n :: l))) ltac:(simpl; lia)). lia.
Qed.

Lemma findNodeIndex_bounds p key :
  nodes p ≠ [] → (pool_placement p = ByTag → ∃ r, GetK1Tag key = Ok r) →
  ∃ i, findNodeIndex p key = Ok i ∧ i < length (nodes p).
Proof.
  intros Hne Htag. pose proof (among_bounds p (hash_dbj2_bucket (Bucket.bid (default_bucket p)) (K1 key)) Hne).
  assert (0 < length (nodes p)) by (destruct (nodes p); [done|simpl; lia]).
  unfold findNodeIndex. destruct (pool_placement p) as [| |r].
  - unfold DHT_findNodeIndex. case_decide; eauto.
  - unfold TFT_findNodeIndex. destruct (Htag eq_refl) as [[rc tag] ->]. cbn [mbind outcome_bind].
    destruct (negb _); [case_decide; eauto|by apply among_bounds].
  - by apply among_bounds.
Qed.

(** C29: The home of a key is a member of the pool, and depends on nothing but the bucket, the row,
    the list of members and the rule of the pool: every node of the pool looks for the columns of
    a row in the same place. *)
Theorem dht_one_home p p' key key' :
  nodes p ≠ [] → (pool_placement p = ByTag → ∃ r, GetK1Tag key = Ok r) →
  nodes p' = nodes p → default_bucket p' = default_bucket p → pool_placement p' = pool_placement p →
  K1 key' = K1 key →
  FindTargetNode p' key' = FindTargetNode p key ∧
  ∃ n, FindTargetNode p key = Ok n ∧ n ∈ nodes p.
Proof.
  intros Hne Htag Hn Hb Hpl Hk. split.
  - unfold FindTargetNode, findNodeIndex, DHT_findNodeIndex, TFT_findNodeIndex, RFT_findNodeIndex, among,
      GetK1Tag. by rewrite Hn, Hb, Hpl, Hk.
  - destruct (findNodeIndex_bounds p key Hne Htag) as (i & Hi & Hlt). unfold FindTargetNode. rewrite Hi.
    cbn [mbind outcome_bind]. apply lookup_lt_is_Some_2 in Hlt as [n Hl]. rewrite Hl.
    exists n. split; [done|]. by eapply list_elem_of_lookup_2.
Qed.

Lemma FindTargetNode_member p key n : FindTargetNode p key = Ok n → n ∈ nodes p.
Proof.
  unfold FindTargetNode. intros (i & _ & Hn)%bind_Ok. destruct (nodes p !! i) eqn:Hl; [|done].
  injection Hn as <-. by eapply list_elem_of_lookup_2.
Qed.

Lemma find_node_run p key s n :
  FindTargetNode p key = Ok n → find_node p key s = Ok (n, s).
Proof. unfold find_node, lift. intros Hn. by rewrite Hn. Qed.

(** A search for a row prefix reaches every member once: this node on the spot if it is one, and
    the others by message.  A search for one row reaches its home. *)
Lemma search_nodes_spec p key s here others s' :
  search_nodes p key s = Ok ((here, others), s') →
  s' = s ∧ (∀ n, n ∈ others → n ∈ nodes p ∧ n.1 ≠ my_nodeid p) ∧
  (if IsRowWildcard key then
     others = filter (λ n, n.1 ≠ my_nodeid p) (nodes p) ∧
     (here = true ↔ my_nodeid p ∈ (nodes p).*1)
   else
     ∃ n, FindTargetNode p key = Ok n ∧
       (here = true ∧ n.1 = my_nodeid p ∧ others = [] ∨
        here = false ∧ n.1 ≠ my_nodeid p ∧ others = [n])).
Proof.
  unfold search_nodes. destruct (IsRowWildcard key); cbn [negb].
  - intros [= <- <- <-]. split; [done|]. split; [|split; [done|]].
    + intros n [? ?]%list_elem_of_filter. by split.
    + rewrite existsb_exists. setoid_rewrite bool_decide_eq_true.
      rewrite list_elem_of_fmap. setoid_rewrite list_elem_of_In. naive_solver.
  - unfold find_node. rewrite bind_lift. intros ([node peer] & Hn & Hs)%bind_Ok.
    pose proof (FindTargetNode_member _ _ _ Hn) as Hin.
    injection Hs as Hs <-. split; [done|]. case_bool_decide as Hm; injection Hs as <- <-.
    + split; [intros ? []%elem_of_nil|]. eexists. split; [done|]. left. by split_and!.
    + split; [intros ? ->%list_elem_of_singleton; by split|]. eexists. split; [done|].
      right. by split_and!.
Qed.

(** The ops of drop and list always have somebody to ask, and never this node. *)
Theorem dht_asks_somebody p e key cb oc s :
  (∀ r s', DHT_Drop p e key cb s = Ok (r, s') →
   ∀ st, r.2 = Some (KDrop st) →
     ∃ targets n, st = OpKelpieDrop targets (default_bucket p) key n cb ∧ targets ≠ [] ∧
       ∀ x, x ∈ targets → x ∈ nodes p ∧ x.1 ≠ my_nodeid p) ∧
  (∀ r s', DHT_List p e key oc s = Ok (r, s') →
   ∀ st, r.2 = Some (KList st) →
     ∃ targets, st = OpKelpieList targets (default_bucket p) key (iom_hash p) ∧ targets ≠ [] ∧
       ∀ x, x ∈ targets → x ∈ nodes p ∧ x.1 ≠ my_nodeid p).
Proof.
  split; intros r s'.
  - unfold DHT_Drop. intros ([here others] & s0 & (-> & Hin & _)%search_nodes_spec & Hr)%bind_inv st Hst.
    cbv beta iota zeta in Hr. apply bind_inv in Hr as (rc & s1 & _ & Hr).
    case_bool_decide as Ho; cbn [negb] in Hr.
    + apply bind_inv in Hr as (? & ? & _ & [= <- _]). done.
    + injection Hr as <- _. cbn [snd] in Hst. injection Hst as <-. eauto.
  - unfold DHT_List. intros ([here others] & s0 & (-> & Hin & _)%search_nodes_spec & Hr)%bind_inv st Hst.
    cbv beta iota zeta in Hr. apply bind_inv in Hr as ([rc oc'] & s1 & _ & [= <- _]). cbn [snd] in Hst.
    case_bool_decide; cbn [negb] in Hst; [done|]. injection Hst as <-. eauto.
Qed.

(** Dropping from the null pool never calls back, so [BlockingDrop] on it waits for ever. *)
Lemma null_drop_silent p key cb (s : node_state (D := D) (I := I)) :
  Null_Drop p key (Some cb) s = Ok (KELPIE_OK, s).
Proof. done. Qed.

End pools.

(** * The registry of pools (PoolRegistry.cpp) *)

Section pool_registry.
(** [P] is a pool; the directory service is asked for references. *)
Context {P : Type} (GetDirectoryInfo : ResourceURL → option DirectoryInfo).

Record PoolRegistry := mkPoolRegistry {
  started : bool;
  reg_default_bucket : Bucket.t;
  pool_create_fns : gmap str (ResourceURL → outcome P);
  known_pools : gmap str P }.
Implicit Types r : PoolRegistry.

Definition new_pool_registry : PoolRegistry := mkPoolRegistry false Bucket.UNSPECIFIED ∅ ∅.

Definition registry_init (config_bucket : Bucket.t) r : PoolRegistry :=
  mkPoolRegistry (started r) config_bucket (pool_create_fns r) (known_pools r).
Definition registry_start r : PoolRegistry :=
  mkPoolRegistry true (reg_default_bucket r) (pool_create_fns r) (known_pools r).
Definition registry_finish r : PoolRegistry := mkPoolRegistry false (reg_default_bucket r) ∅ ∅.

Definition RegisterPoolConstructor (pool_name : str) (f : ResourceURL → outcome P) r
    : outcome PoolRegistry :=
  _ ← F_ASSERT (negb (started r));
  _ ← F_ASSERT (bool_decide (pool_create_fns r !! pool_name = None));
  Ok (mkPoolRegistry (started r) (reg_default_bucket r) (<[pool_name := f]> (pool_create_fns r))
        (known_pools r)).

Definition makeKnownPoolTag (url : ResourceURL) : str := GetURL url false false true true.

Definition with_bucket (u : ResourceURL) (b : Bucket.t) : ResourceURL :=
  mkURL (resource_type u) (reference_node u) b (path u) (name u) (options u).

(** The URL a pool is looked up and made with; [None] when the reference is not known. *)
Definition resolve (pool_url : ResourceURL) r : outcome (option ResourceURL) :=
  let src_url := if bool_decide (bucket pool_url = Bucket.UNSPECIFIED)
                 then with_bucket pool_url (reg_default_bucket r) else pool_url in
  if IsReference src_url then
    match GetDirectoryInfo src_url with
    | None => Ok None
    | Some dir_info =>
        original_options ← GetOptions pool_url;
        Ok (Some (foldl (λ u kv, SetOption u kv.1 kv.2) (di_url dir_info) original_options))
    end
  else Ok (Some src_url).

(** [None] is an error pool. *)
Definition Connect (pool_url : ResourceURL) r : outcome (option P * PoolRegistry) :=
  src ← resolve pool_url r;
  match src with
  | None => Ok (None, r)
  | Some src_url =>
      let pool_tag := makeKnownPoolTag src_url in
      match known_pools r !! pool_tag with
      | Some p => Ok (Some p, r)
      | None =>
          match pool_create_fns r !! Type_ src_url with
          | None => Ok (None, r)
          | Some ctor =>
              p ← ctor src_url;
              Ok (Some p, mkPoolRegistry (started r) (reg_default_bucket r) (pool_create_fns r)
                            (<[pool_tag := p]> (known_pools r)))
          end
      end
  end.

Lemma resolve_frame url r r' :
  reg_default_bucket r' = reg_default_bucket r → resolve url r' = resolve url r.
Proof. intros Hb. unfold resolve. by rewrite Hb. Qed.

(** What a successful connection leaves behind, and that it replaces no pool. *)
Lemma Connect_inv url r p r' :
  Connect url r = Ok (Some p, r') →
  ∃ src, resolve url r = Ok (Some src) ∧ known_pools r' !! makeKnownPoolTag src = Some p ∧
    known_pools r ⊆ known_pools r' ∧ reg_default_bucket r' = reg_default_bucket r.
Proof.
  unfold Connect. intros ([src|] & Hs & Hc)%bind_Ok; [|done]. exists src. split; [done|].
  destruct (known_pools r !! makeKnownPoolTag src) as [p0|] eqn:Hk; [by simplify_eq|].
  destruct (pool_create_fns r !! Type_ src) as [ctor|]; [|done].
  apply bind_Ok in Hc as (p1 & _ & [= <- <-]). cbn [known_pools reg_default_bucket].
  split_and!; [apply lookup_insert_eq|by apply insert_subseteq|done].
Qed.

Lemma Connect_error url r r' : Connect url r = Ok (None, r') → r' = r.
Proof.
  unfold Connect. intros ([src|] & _ & Hc)%bind_Ok; [|congruence]. cbv zeta in Hc.
  destruct (known_pools r !! makeKnownPoolTag src); [congruence|].
  destruct (pool_create_fns r !! Type_ src); [|congruence].
  apply bind_Ok in Hc as (? & _ & ?). congruence.
Qed.

(** Connections to one URL share a pool: whoever connects next, with whatever connections in
    between, is handed the pool of the first. *)
Theorem connect_shares url r p r' urls r'' :
  Connect url r = Ok (Some p, r') →
  foldl (λ m u, r1 ← m; '(_, r2) ← Connect u r1; Ok r2) (Ok r') urls = Ok r'' →
  Connect url r'' = Ok (Some p, r'').
Proof.
  intros (src & Hs & Hk & _ & Hb)%Connect_inv Hf.
  assert (Hinv : known_pools r'' !! makeKnownPoolTag src = Some p ∧
    reg_default_bucket r'' = reg_default_bucket r).
  { clear Hs. revert r' Hk Hb Hf. induction urls as [|u urls IH]; intros r' Hk Hb Hf.
    { simpl in Hf. by simplify_eq. }
    cbn [foldl mbind outcome_bind] in Hf. destruct (Connect u r') as [[[p1|] r1]|e] eqn:Hc;
      cbn [mbind outcome_bind] in Hf.
    - apply Connect_inv in Hc as (_ & _ & _ & Hsub & Hb1). eapply (IH r1); [|congruence|done].
      by eapply lookup_weaken.
    - apply Connect_error in Hc as ->. by eapply IH.
    - exfalso. clear -Hf. induction urls as [|u urls IH]; [done|]. by apply IH. }
  destruct Hinv as [Hk' Hb']. unfold Connect. rewrite (resolve_frame url r r'') by done.
  rewrite Hs. cbn [mbind outcome_bind]. by rewrite Hk'.
Qed.

(** The tag leaves out the type: with a pool of one type open, a URL that differs from its URL in
    nothing but the type is answered with that pool. *)
Lemma connect_ignores_type ty ty' n b pa na op r p r' :
  ty ≠ [] → ty' ≠ [] → b ≠ Bucket.UNSPECIFIED →
  Connect (url_make ty n b pa na op) r = Ok (Some p, r') →
  Connect (url_make ty' n b pa na op) r' = Ok (Some p, r').
Proof.
  intros Hty Hty' Hb Hc.
  assert (Hres : ∀ t r0, t ≠ [] → resolve (url_make t n b pa na op) r0 =
    Ok (Some (url_make t n b pa na op))).
  { intros t r0 Ht. unfold resolve. rewrite bool_decide_false by done. unfold IsReference.
    cbn [resource_type url_make]. by rewrite bool_decide_false. }
  apply Connect_inv in Hc as (src & Hs & Hk & _). rewrite Hres in Hs by done.
  injection Hs as <-. unfold Connect. rewrite Hres by done. cbn [mbind outcome_bind].
  change (makeKnownPoolTag (url_make ty' n b pa na op)) with
    (makeKnownPoolTag (url_make ty n b pa na op)). by rewrite Hk.
Qed.
End pool_registry.

(** * Pools in use *)

Definition dht_pool_on (me : NodeID.t) : pool :=
  mkPool (url_make (lit "dht") NodeID.NODE_UNSPECIFIED b0 (lit "/my") (lit "dht") []) b0 me None 0
    PoolBehavior.DefaultRemote [(origin, origin); (target_node, target_node)] 7 ByRow.

Lemma dht_one_home_witness :
  FindTargetNode (dht_pool_on target_node) (mkKey (lit "row") (lit "other")) =
  FindTargetNode (dht_pool_on origin) k_hello.
Proof.
  apply (dht_one_home (dht_pool_on origin) (dht_pool_on target_node) k_hello (mkKey (lit "row") (lit "other")));
    [discriminate|discriminate|reflexivity..].
Defined.

(** A key with a wildcard in its row is looked for on the other node. *)
Definition k_rows : Key := mkKey (lit "r*") (lit "col").

Lemma dht_asks_somebody_witness :
  ∃ targets n,
    DHT_Drop (dht_pool_on origin) (env_at origin 3) k_rows (Some 7) node0 =
      Ok ((KELPIE_OK, Some (KDrop (OpKelpieDrop targets b0 k_rows n (Some 7)))), node0) ∧
    targets ≠ [] ∧ ∀ x, x ∈ targets → x.1 ≠ origin.
Proof.
  destruct (dht_asks_somebody (dht_pool_on origin) (env_at origin 3) k_rows (Some 7) oc_empty node0)
    as [Hd _].
  destruct (Hd (KELPIE_OK, Some (KDrop (OpKelpieDrop [(target_node, target_node)] b0 k_rows false (Some 7))))
    node0 ltac:(vm_compute; reflexivity) _ eq_refl) as (targets & n & Hst & Hne & Hx).
  change (default_bucket _) with b0 in Hst.
  exists targets, n. rewrite <-Hst. split; [vm_compute; reflexivity|]. split; [exact Hne|].
  intros x Hi. exact (proj2 (Hx x Hi)).
Defined.

(** Two connections to one URL, with another pool opened in between. *)
Definition local_url (nm : str) : ResourceURL :=
  url_make (lit "local") NodeID.NODE_UNSPECIFIED b0 (lit "/") nm [].
Definition registry0 : PoolRegistry (P := str) :=
  mkPoolRegistry true b0 {[lit "local" := λ u, Ok (name u)]} ∅.

Lemma connect_shares_witness :
  ∃ r1 r2, Connect (λ _, None) (local_url (lit "a")) registry0 = Ok (Some (lit "a"), r1) ∧
    Connect (λ _, None) (local_url (lit "a")) r2 = Ok (Some (lit "a"), r2) ∧ r1 ≠ r2.
Proof.
  eexists _, _. split; [vm_compute; reflexivity|]. split.
  - eapply (connect_shares (λ _, None) (local_url (lit "a")) registry0 (lit "a") _ [local_url (lit "b")]);
      vm_compute; reflexivity.
  - vm_compute. congruence.
Defined.
