(* ===== verification/TracePlay.v ===== *)
(** The trace pool (src/src/kelpie/pools/TracePool/TracePool.cpp), which logs the calls made on
    another pool as a script, and the part of the command line tool that reads and plays such scripts
    (src/tools/faodel-cli: play.cpp, PlayAction.cpp, KelpieClientAction.cpp, ResourceAction.cpp,
    kelpie_client.cpp).

    For the calls it can express, what a trace pool logs is played again by the tool: the calls it
    makes and the times it sleeps are those of the log ([trace_replays]). *)
From S2P Require Import Prelude StringHelpers Identifiers Configuration ResourceURL Key.

Definition newline : ascii := "010"%char.
Definition space : ascii := " "%char.
Definition EAGAIN : Z := 11.

(** * The trace pool *)

(** The file, the flag put into each command, and the times in nanoseconds. *)
Record TracePool := mkTrace {
  f : str;
  rank_flag : str;
  use_relative_time : bool;
  t_start : Z;
  t_last : Z
}.

(** The name of the file. *)
Definition trace_file (pool_url : ResourceURL) : str :=
  let dashed_pool_name := Dashify pool_url in
  let extra_bucket := GetOption pool_url (lit "bucket") [] in
  let dashed_pool_name :=
    if negb (extra_bucket =s? []) then dashed_pool_name ++ lit "_" ++ extra_bucket else dashed_pool_name in
  GetOption pool_url (lit "file") (lit "trace" ++ dashed_pool_name).

(** [mpi_rank] is the rank of the process where there is MPI, and [can_open] tells whether a file
    can be opened for writing. *)
Definition TracePool_new (mpi_rank : option Z) (can_open : str → bool) (pool_url : ResourceURL) (now : Z)
    : outcome (str * TracePool) :=
  let rank := GetOption pool_url (lit "rank") [] in
  let rank := match rank, mpi_rank with [], Some r => to_string r | _, _ => rank end in
  let fname := trace_file pool_url in
  let fname := if negb (rank =s? []) then fname ++ lit "." ++ rank else fname in
  let flag := if negb (rank =s? []) then lit " -r " ++ rank ++ lit " " else [] in
  if can_open (c_str fname)
  then Ok (c_str fname, mkTrace (lit "set pool " ++ GetPathName pool_url ++ [newline]) flag true now now)
  else Throw RuntimeError.

Definition appendTrace (now : Z) (cmd s : str) (t : TracePool) : TracePool :=
  let t_us := Z.quot (now - (if use_relative_time t then t_last t else t_start t)) 1000 in
  let delay := if use_relative_time t then lit "delayfor " else lit "delayuntil " in
  mkTrace (f t ++ delay ++ to_string t_us ++ lit "us " ++ rank_flag t ++ lit ";"
             ++ cmd ++ rank_flag t ++ s ++ [newline])
    (rank_flag t) (use_relative_time t) (t_start t) now.

(** The calls of a pool, as they are logged before they go to the next pool. *)
Inductive call :=
| Publish_key (key : Key)
| Publish (key : Key) (meta_size data_size : Z)
| Want (key : Key) (expected_ldo_user_bytes : Z)
| Need (key : Key) (expected_ldo_user_bytes : Z)
| Compute (key : Key) (function_name function_args : str)
| Info (key : Key)
| RowInfo (key : Key)
| Drop (key : Key)
| List_ (key : Key).

Definition logged (c : call) : str * str :=
  match c with
  | Publish_key key => (lit "kput", str_as_args key)
  | Publish key m d => (lit "kput", lit "-M " ++ show_dec m ++ lit " -D " ++ show_dec d ++ lit " " ++ str_as_args key)
  | Want key _ | Need key _ => (lit "kget", str_as_args key)
  | Compute key fn args => (lit "kcomp", str_as_args key ++ lit " -F " ++ fn ++ lit " -A " ++ args ++ [newline])
  | Info key | RowInfo key => (lit "kinfo", str_as_args key)
  | Drop key => (lit "kdrop", str_as_args key)
  | List_ key => (lit "klist", str_as_args key)
  end.

(** A method: the call is logged and then made on the next pool. *)
Definition traced {S A} (next : call → S → outcome (A * S)) (now : Z) (c : call) (s : TracePool * S)
    : outcome (A * (TracePool * S)) :=
  let t := appendTrace now (logged c).1 (logged c).2 s.1 in
  '(a, s') ← next c s.2; Ok (a, (t, s')).

(** * Commands of the tool *)

Section tool.
(** [errno] before a number is read, and whether a directory is there or can be made. *)
Context (erange : bool) (dir_ok : str → bool).

Record KelpieClientAction := mkKca {
  cmd : str;
  pool_name : str;
  file_name : str;
  dir_name : str;
  generate_meta_size : option Z;   (** [None]: not set *)
  generate_data_size : option Z;
  meta : str;
  kget_meta_only : bool;
  kload_all_dir_entries : bool;
  keys : list Key;
  remaining_args : list str;
  has_error : bool
}.

Definition kelpie_commands : list (str * str) :=
  [(lit "kelpie-put", lit "kput"); (lit "kelpie-get", lit "kget"); (lit "kelpie-get-meta", lit "kget");
   (lit "kgetm", lit "kget"); (lit "kelpie-info", lit "kinfo"); (lit "kelpie-list", lit "klist");
   (lit "kls", lit "klist"); (lit "kelpie-save", lit "ksave"); (lit "kelpie-load", lit "kload");
   (lit "kelpie-load-dir", lit "kload"); (lit "kloadd", lit "kload")].

Definition resource_commands : list (str * str) :=
  [(lit "resource-list", lit "rlist"); (lit "resource-listr", lit "rlistr");
   (lit "resource-define", lit "rdef"); (lit "resource-drop", lit "rdrop")].

(** The short name of a command, empty if there is none. *)
Fixpoint shorthand (long_or_short_cmd : str) (l : list (str * str)) : str :=
  match l with
  | [] => []
  | (big, little) :: l =>
      if (long_or_short_cmd =s? big) || (long_or_short_cmd =s? little) then little
      else shorthand long_or_short_cmd l
  end.

Definition new_action (long_or_short_cmd : str) : KelpieClientAction :=
  let c := shorthand long_or_short_cmd kelpie_commands in
  mkKca c [] [] [] None None []
    ((c =s? lit "kelpie-getm") || (c =s? lit "kgetm")) ((c =s? lit "kelpie-loadd") || (c =s? lit "kloadd"))
    [] [] (c =s? []).

(** The variables of [ParseArgs] while it goes through the arguments. *)
Record scan := mkScan {
  s_key1 : str; s_key2 : str; s_gen_meta : str; s_gen_data : str;
  s_pool : str; s_file : str; s_dir : str; s_meta : str;
  s_meta_only : bool; s_keys : list Key; s_rest : list str
}.

Definition set_key1 (v : str) (s : scan) : scan :=
  mkScan v (s_key2 s) (s_gen_meta s) (s_gen_data s) (s_pool s) (s_file s) (s_dir s) (s_meta s) (s_meta_only s)
    (s_keys s) (s_rest s).
Definition set_key2 (v : str) (s : scan) : scan :=
  mkScan (s_key1 s) v (s_gen_meta s) (s_gen_data s) (s_pool s) (s_file s) (s_dir s) (s_meta s) (s_meta_only s)
    (s_keys s) (s_rest s).
Definition add_key (k : Key) (s : scan) : scan :=
  mkScan (s_key1 s) (s_key2 s) (s_gen_meta s) (s_gen_data s) (s_pool s) (s_file s) (s_dir s) (s_meta s)
    (s_meta_only s) (s_keys s ++ [k]) (s_rest s).

(** Both parts of a key make a key. *)
Definition flush (s : scan) : scan :=
  if negb (s_key1 s =s? []) && negb (s_key2 s =s? [])
  then set_key1 [] (set_key2 [] (add_key (mkKey (s_key1 s) (s_key2 s)) s)) else s.

(** [appendKey] with a key in one argument; [None] for more than two parts. *)
Definition appendKey (v : str) (s : scan) : outcome (option scan) :=
  match Split v "|"%char true with
  | [] => Throw Undefined
  | [k1] => Ok (Some (add_key (mkKey k1 []) s))
  | [k1; k2] => Ok (Some (add_key (mkKey k1 k2) s))
  | _ => Ok None
  end.

Definition is_option (a short_name long_name : str) : bool := (a =s? short_name) || (a =s? long_name).

(** The arguments that take a value and store it. *)
Definition two_arg_token (a v : str) (s : scan) : option scan :=
  let '(mkScan k1 k2 gm gd p fl d m mo ks r) := s in
  if is_option a (lit "-p") (lit "--pool") then Some (mkScan k1 k2 gm gd v fl d m mo ks r)
  else if is_option a (lit "-r") (lit "--rank") then Some s
  else if is_option a (lit "-f") (lit "--file") then Some (mkScan k1 k2 gm gd p v d m mo ks r)
  else if is_option a (lit "-d") (lit "--dir") then Some (mkScan k1 k2 gm gd p fl v m mo ks r)
  else if is_option a (lit "-M") (lit "--generate-meta-size") then Some (mkScan k1 k2 v gd p fl d m mo ks r)
  else if is_option a (lit "-D") (lit "--generate-data-size") then Some (mkScan k1 k2 gm v p fl d m mo ks r)
  else if is_option a (lit "-m") (lit "--meta") then Some (mkScan k1 k2 gm gd p fl d v mo ks r)
  else None.

Definition takes_value (a : str) : bool :=
  is_option a (lit "-k1") (lit "--key1") || is_option a (lit "-k2") (lit "--key2") || is_option a (lit "-k") (lit "--key")
  || bool_decide (is_Some (two_arg_token a [] (mkScan [] [] [] [] [] [] [] [] false [] []))).

(** An argument without a value. *)
Definition single (c a : str) (s : scan) : outcome (option scan) :=
  let '(mkScan k1 k2 gm gd p fl d m mo ks r) := s in
  if is_option a (lit "-i") (lit "--meta-only") then Ok (Some (mkScan k1 k2 gm gd p fl d m true ks r))
  else if takes_value a then Ok None
  else if (c =s? lit "kinfo") || (c =s? lit "klist") then appendKey a s
  else Ok (Some (mkScan k1 k2 gm gd p fl d m mo ks (r ++ [a]))).

(** The loop over the arguments; [None] for a parse error. *)
Fixpoint scan_args (c : str) (args : list str) (s : scan) : outcome (option scan) :=
  match args with
  | [] => Ok (Some s)
  | [a] => single c a s
  | a :: ((v :: rest) as tl) =>
      if is_option a (lit "-k1") (lit "--key1") then scan_args c rest (flush (set_key1 v s))
      else if is_option a (lit "-k2") (lit "--key2") then scan_args c rest (flush (set_key2 v s))
      else if is_option a (lit "-k") (lit "--key") then
        r ← appendKey v s;
        match r with None => Ok None | Some s => scan_args c rest s end
      else
        match two_arg_token a v s with
        | Some s => scan_args c rest s
        | None =>
            r ← single c a s;
            match r with None => Ok None | Some s => scan_args c tl s end
        end
  end.

(** A size that was given; [None] when it does not parse. *)
Definition read_size (text : str) : outcome (option (option Z)) :=
  if text =s? [] then Ok (Some None)
  else
    '(rc, v) ← StringToUInt64 erange text;
    Ok (if (rc =? 0)%Z then Some v else None).

(** The checks after the loop, in their order; [None] for an error. *)
Definition validate (c default_pool : str) (all_dirs : bool) (s : scan) : outcome (option KelpieClientAction) :=
  if s_meta_only s && negb (c =s? lit "kget") then Ok None
  else if decide (64 * 1024 < Z.of_nat (length (s_meta s)))%Z then Ok None
  else if negb (s_gen_meta s =s? []) && (negb (s_meta s =s? []) || negb (c =s? lit "kput")) then Ok None
  else
    gm ← read_size (s_gen_meta s);
    match gm with
    | None => Ok None
    | Some gm =>
        if decide (64 * 1024 <= default 0 gm)%Z then Ok None
        else if negb (s_gen_data s =s? []) && (negb (s_file s =s? []) || negb (c =s? lit "kput")) then Ok None
        else
          gd ← read_size (s_gen_data s);
          match gd with
          | None => Ok None
          | Some gd =>
              if bool_decide (1 < length (s_keys s)) && negb (c =s? lit "kinfo") then Ok None
              else
                let pool := if s_pool s =s? [] then default_pool else s_pool s in
                let needs_dir := (c =s? lit "kload") || (c =s? lit "ksave") in
                if pool =s? [] then Ok None
                else if needs_dir && ((s_dir s =s? []) || negb (dir_ok (c_str (s_dir s)))) then Ok None
                else if negb needs_dir && negb (s_dir s =s? []) then Ok None
                else if negb (bool_decide (s_rest s = [])) && ((c =s? lit "kput") || (c =s? lit "kget")) then Ok None
                else
                  Ok (Some (mkKca c pool (s_file s) (s_dir s) gm gd (s_meta s) (s_meta_only s) all_dirs
                              (s_keys s) (s_rest s) false))
          end
    end.

Definition ParseArgs (a : KelpieClientAction) (args : list str) (default_pool : str)
    : outcome (option KelpieClientAction) :=
  r ← scan_args (cmd a) args
        (mkScan [] [] [] [] (pool_name a) (file_name a) (dir_name a) (meta a) (kget_meta_only a) (keys a)
           (remaining_args a));
  match r with
  | None => Ok None
  | Some s => validate (cmd a) default_pool (kload_all_dir_entries a) s
  end.

(** * Lines of a script *)

Inductive play_action :=
| Barrier
| PrintText (text : str)
| Delay (duration : str)
| Resource (c : str) (rargs : list str)
| Kelpie (a : KelpieClientAction).

(** What becomes of a command: an action, nothing, the end of the script, or an error. *)
Inductive parsed := Action (a : play_action) | Skip | Stop | Bad.

(** The rank of a command, ["-r"] and its value: [None] when the value is missing, [Some None] for
    another rank. *)
Fixpoint take_rank (my_rank : str) (kargs : list str) : option (option (bool * list str)) :=
  match kargs with
  | [] => Some (Some (false, []))
  | a :: rest =>
      if a =s? lit "-r" then
        match rest with
        | [] => None
        | r :: rest' => if (my_rank =s? []) || (r =s? my_rank) then Some (Some (true, rest')) else Some None
        end
      else
        match take_rank my_rank rest with
        | Some (Some (found, rest')) => Some (Some (found, a :: rest'))
        | x => x
        end
  end.

Definition resource_args (c : str) (kargs : list str) : list str :=
  match kargs with
  | [] => if (c =s? lit "rlist") || (c =s? lit "rlistr") then [lit "/"] else []
  | _ => kargs
  end.

(** The settings that commands change: the default pool and rank. *)
Definition settings : Type := str * str.

Definition parseCommandLine (my_rank command_line : str) (st : settings) : outcome (parsed * settings) :=
  let '(default_pool, default_rank) := st in
  match Split command_line space true with
  | [] => Ok (Skip, st)
  | t0 :: kargs =>
      let command := ToLowercase t0 in
      match take_rank my_rank kargs with
      | None => Ok (Bad, st)
      | Some None => Ok (Skip, st)
      | Some (Some (found_rank_option, kargs)) =>
          if command =s? lit "exit" then Ok (Stop, st)
          else if command =s? lit "set" then
            match kargs with
            | [what; value] =>
                if what =s? lit "pool" then Ok (Skip, (value, default_rank))
                else if what =s? lit "rank" then Ok (Skip, (default_pool, value))
                else Ok (Bad, st)
            | _ => Ok (Bad, st)
            end
          else if command =s? lit "barrier" then Ok (Action Barrier, st)
          else if negb found_rank_option && negb (default_rank =s? my_rank) then Ok (Skip, st)
          else if command =s? lit "print" then
            Ok (Action (PrintText (if decide (5 < length command_line) then drop 6 command_line else [])), st)
          else if (command =s? lit "delay") || (command =s? lit "delayfor") then
            match kargs with
            | [d] => Ok (Action (Delay d), st)
            | _ => Ok (Bad, st)
            end
          else
            let rc := shorthand command resource_commands in
            if negb (rc =s? []) then Ok (Action (Resource rc (resource_args rc kargs)), st)
            else
              let a := new_action command in
              if cmd a =s? [] then Ok (Bad, st)
              else
                r ← ParseArgs a kargs default_pool;
                Ok (match r with Some a => Action (Kelpie a) | None => Bad end, st)
      end
  end.

(** The commands of one line; the tool ends at a command it cannot parse.  The flag tells that the
    script ends here. *)
Fixpoint run_commands (my_rank : str) (cmds : list str) (st : settings) (results : list play_action)
    : outcome (bool * settings * list play_action) :=
  match cmds with
  | [] => Ok (false, st, results)
  | c :: cmds =>
      '(p, st) ← parseCommandLine my_rank c st;
      match p with
      | Skip => run_commands my_rank cmds st results
      | Stop => Ok (true, st, results)
      | Bad => Throw Exit
      | Action a => run_commands my_rank cmds st (results ++ [a])
      end
  end.

(** One script, line by line; settings of the configuration go there. *)
Fixpoint run_lines (my_rank : str) (lines : list str) (config : Configuration) (st : settings)
    (results : list play_action) : outcome (Configuration * settings * list play_action) :=
  match lines with
  | [] => Ok (config, st, results)
  | line :: lines =>
      if StringBeginsWith line (lit "config ") then
        config ← Append config (drop 6 line); run_lines my_rank lines config st results
      else
        match Split line "#"%char false with
        | [] => run_lines my_rank lines config st results
        | cmd_comment :: _ =>
            '(hit_exit, st, results) ← run_commands my_rank (Split cmd_comment ";"%char true) st results;
            if (hit_exit : bool) then Ok (config, st, results)
            else run_lines my_rank lines config st results
        end
  end.

(** [playParseScripts], from the texts of the scripts; [env_pool] is the pool in the environment. *)
Fixpoint run_scripts (my_rank : str) (scripts : list str) (config : Configuration) (st : settings)
    (results : list play_action) : outcome (Configuration * settings * list play_action) :=
  match scripts with
  | [] => Ok (config, st, results)
  | text :: scripts =>
      '(config, st, results) ← run_lines my_rank (getlines text newline) config st results;
      run_scripts my_rank scripts config st results
  end.

Definition playParseScripts (env_pool : option str) (my_rank : str) (scripts : list str) (config : Configuration)
    : outcome (Configuration * list play_action) :=
  '(config, _, results) ← run_scripts my_rank scripts config (default [] env_pool, my_rank) [];
  Ok (config, results).
End tool.

(** * Playing a script

    What the tool does with the actions, as a list of events.  What it finds around it is a
    parameter: whether a pool can be connected to, what the pools list for a key, the sizes of
    files, the objects in a directory under the keys in their names, and the bytes on standard
    input. *)
Section player.
Context (connects : str → bool) (listing : Key → list (Key * Z)) (file_size : str → option Z)
  (dir_objects : str → list (Key * Z * Z)) (stdin_bytes : Z).

Inductive event :=
| Connected (pool : str)
| Called (c : call)
| Slept (us : Z)
| Printed (text : str)
| Synced
| Managed (c : str) (rargs : list str).

Definition getMetaCapacity (a : KelpieClientAction) : outcome Z :=
  match meta a, generate_meta_size a with
  | [], None => Throw Undefined
  | [], Some mc => Ok (Z.land mc 65535)
  | m, _ => Ok (Z.land (Z.of_nat (length m)) 65535)
  end.

(** [action.keys[0]] *)
Definition first_key (a : KelpieClientAction) : outcome Key :=
  match keys a with k :: _ => Ok k | [] => Throw Undefined end.

Definition kelpieClient_PutFromFile (a : KelpieClientAction) : outcome (list call) :=
  key ← first_key a;
  Ok (match file_size (file_name a) with
      | None => []
      | Some n =>
          if decide (4 * 1024 * 1024 * 1024 ≤ n)%Z then []
          else [Publish key (Z.land (Z.of_nat (length (meta a))) 65535) n]
      end).

(** The size is cut to the 32 bits of an object. *)
Definition kelpieClient_PutFromGeneratedData (a : KelpieClientAction) (data_size : Z) : outcome (list call) :=
  key ← first_key a;
  mc ← getMetaCapacity a;
  Ok [Publish key mc (u32 data_size)].

(** The object has the capacity cut to 32 bits, the reads go up to the whole of it. *)
Definition kelpieClient_PutFromStdio (a : KelpieClientAction) (MAX_CAPACITY : Z) : outcome (list call) :=
  let offset := Z.min stdin_bytes MAX_CAPACITY in
  if decide (u32 MAX_CAPACITY < offset)%Z then Throw Undefined
  else
    key ← first_key a;
    Ok [Publish key (Z.land (Z.of_nat (length (meta a))) 65535) offset].

Definition kelpieClient_Put (erange : bool) (config : Configuration) (a : KelpieClientAction)
    : outcome (list call) :=
  if negb (file_name a =s? []) then kelpieClient_PutFromFile a
  else
    match generate_data_size a with
    | None => Throw Undefined
    | Some data_size =>
        if negb (data_size =? 0)%Z then kelpieClient_PutFromGeneratedData a data_size
        else
          '(_, cap) ← GetUInt erange config (lit "kelpie.chunk_size") (lit "512M");
          match cap with
          | None => Throw Undefined
          | Some cap => kelpieClient_PutFromStdio a cap
          end
    end.

Definition kelpieClient_Get (a : KelpieClientAction) : outcome (list call) :=
  key ← first_key a; Ok [Need key 0].

Definition kelpieClient_Info (a : KelpieClientAction) : list call := Info <$> keys a.

Definition kelpieClient_List (a : KelpieClientAction) : list call := List_ <$> keys a.

Definition kelpieClient_Save (a : KelpieClientAction) : list call :=
  (List_ <$> keys a) ++ (uncurry Need <$> (keys a ≫= listing)).

Definition kelpieClient_Load (a : KelpieClientAction) : list call :=
  (λ '(k, m, d), Publish k m d) <$> dir_objects (dir_name a).

Definition kelpieClient_Dispatch (erange : bool) (config : Configuration) (a : KelpieClientAction)
    : outcome (list call) :=
  if cmd a =s? lit "kput" then kelpieClient_Put erange config a
  else if cmd a =s? lit "kget" then kelpieClient_Get a
  else if cmd a =s? lit "kinfo" then Ok (kelpieClient_Info a)
  else if cmd a =s? lit "klist" then Ok (kelpieClient_List a)
  else if cmd a =s? lit "ksave" then Ok (kelpieClient_Save a)
  else if cmd a =s? lit "kload" then Ok (kelpieClient_Load a)
  else Ok [].

(** The pool of an action is connected to when it is not the current one. *)
Definition accessPool (pool_name current_pool_name : str) : outcome (list event) :=
  if pool_name =s? current_pool_name then Ok []
  else if connects pool_name then Ok [Connected pool_name] else Throw Exit.

Fixpoint playActions (erange : bool) (config : Configuration) (actions : list play_action)
    (current_pool_name : str) : outcome (list event) :=
  match actions with
  | [] => Ok []
  | Kelpie a :: actions =>
      conn ← accessPool (pool_name a) current_pool_name;
      calls ← kelpieClient_Dispatch erange config a;
      rest ← playActions erange config actions (pool_name a);
      Ok (conn ++ (Called <$> calls) ++ rest)
  | Resource c rargs :: actions => cons (Managed c rargs) <$> playActions erange config actions current_pool_name
  | PrintText text :: actions => cons (Printed text) <$> playActions erange config actions current_pool_name
  | Barrier :: actions => cons Synced <$> playActions erange config actions current_pool_name
  | Delay duration :: actions =>
      cons (Slept (StringToTimeUS erange duration).2) <$> playActions erange config actions current_pool_name
  end.

(** [playMain] between starting and finishing Faodel. *)
Definition playMain (erange : bool) (dir_ok : str → bool) (env_pool : option str) (my_rank : str)
    (scripts : list str) (config : Configuration) : outcome (list event) :=
  '(config, actions) ← playParseScripts erange dir_ok env_pool my_rank scripts config;
  playActions erange config actions [].
End player.

(** * Scripts that trace pools write *)

(** What can stand in a command: no separator of the script. *)
Definition plain_char (c : ascii) : Prop :=
  c ≠ space ∧ c ≠ ";"%char ∧ c ≠ "#"%char ∧ c ≠ newline.
Definition word (w : str) : Prop := w ≠ [] ∧ Forall plain_char w.
Definition gap (w : str) : Prop := w = [] ∨ word w.

(** Dropping the empty pieces of a split. *)
Lemma split_go_filter sep cur text :
  split_go sep true cur text = filter (.≠ []) (split_go sep false cur text).
Proof.
  revert cur. induction text as [|c text IH]; intros cur; cbn [split_go negb orb].
  - case_bool_decide; subst; [by rewrite filter_cons_False by naive_solver|by rewrite filter_cons_True].
  - case_bool_decide; [|apply IH]. cbn [app].
    case_bool_decide; subst; cbn [negb app]; [by rewrite filter_cons_False, IH by naive_solver|].
    by rewrite filter_cons_True, IH.
Qed.

(** The words of a text with spaces, in any number, between them. *)
Lemma split_words (ws : list str) :
  ws ≠ [] → Forall gap ws → Split (Join ws space) space true = filter (.≠ []) ws.
Proof.
  intros Hne Hws. unfold Split. rewrite split_go_filter. f_equal. apply (Split_Join ws space false); [|done].
  eapply Forall_impl; [exact Hws|]. intros w [->|[_ Hw]]; [apply not_elem_of_nil|].
  intros Hin. rewrite Forall_forall in Hw. by destruct (Hw _ Hin).
Qed.

Lemma join_plain (P : ascii → Prop) ws :
  P space → (∀ c, plain_char c → P c) → Forall gap ws → Forall P (Join ws space).
Proof.
  intros Hs HP Hws. apply Forall_join; [done|]. eapply Forall_impl; [exact Hws|].
  intros w [->|[_ Hw]]; [done|]. by eapply Forall_impl.
Qed.

(** The parts of a line: the delay, and the command. *)
Definition delay_words (t_us : Z) (rank : str) : list str :=
  [lit "delayfor"; to_string t_us ++ lit "us"; []; lit "-r"; rank; []].

Definition key_words (k : Key) : list str := [lit "-k1"; K1 k; lit "-k2"; K2 k].

(** The calls that the tool has commands for.  A [RowInfo] is logged as an [Info], and a publish of an
    object that is in the pool as one of an object to be made: neither comes back. *)
Definition replayed (c : call) : option (str * list str * Key) :=
  match c with
  | Publish k m d => Some (lit "kput", [lit "-M"; show_dec m; lit "-D"; show_dec d], k)
  | Want k _ | Need k _ => Some (lit "kget", [], k)
  | Info k => Some (lit "kinfo", [], k)
  | List_ k => Some (lit "klist", [], k)
  | Publish_key _ | RowInfo _ | Compute _ _ _ | Drop _ => None
  end.

Definition command_words (rank c : str) (sizes : list str) (k : Key) : list str :=
  [c; lit "-r"; rank] ++ sizes ++ key_words k.

Definition flag_of (rank : str) : str := lit " -r " ++ rank ++ lit " ".

(** The actions a call is read back as. *)
Definition sizes_of (c : call) : option Z * option Z :=
  match c with Publish _ m d => (Some m, Some d) | _ => (None, None) end.

Definition actions_of (pool : str) (t_us : Z) (c : call) : list play_action :=
  match replayed c with
  | Some (name, _, k) =>
      [Delay (to_string t_us ++ lit "us");
       Kelpie (mkKca name pool [] [] (sizes_of c).1 (sizes_of c).2 [] false false [k] [] false)]
  | None => []
  end.

(** A call with both parts of its key, which can be written as words, and an object that has data. *)
Definition sizes_ok (c : call) : Prop :=
  match c with Publish _ m d => (0 ≤ m < 2 ^ 16)%Z ∧ (0 < d < 2 ^ 32)%Z | _ => True end.
Definition key_words_ok (k : Key) : Prop := word (K1 k) ∧ word (K2 k).
Definition call_ok (c : call) : Prop :=
  match replayed c with Some (_, _, k) => key_words_ok k | None => False end ∧ sizes_ok c.

Lemma show_dec_word n : (0 ≤ n)%Z → word (show_dec n).
Proof.
  intros Hn. split; [by apply show_base_nonempty|].
  eapply Forall_impl; [apply show_base_digits; lia|]. intros c Hc.
  split_and!; intros ->; discriminate.
Qed.

Lemma word_app a b : word a → Forall plain_char b → word (a ++ b).
Proof. intros [Hn Ha] Hb. split; [by destruct a|]. apply Forall_app. by split. Qed.

Lemma lit_word (s : str) : bool_decide (s ≠ []) && forallb (λ c, negb (bool_decide (c ∈ [space; ";"%char; "#"%char; newline]))) s = true → word s.
Proof.
  intros [Hn%bool_decide_eq_true Hf]%andb_true_iff. split; [done|]. apply Forall_forall. intros c Hc.
  rewrite forallb_forall in Hf. specialize (Hf c (proj1 (list_elem_of_In _ _) Hc)).
  apply negb_true_iff, bool_decide_eq_false in Hf. repeat (apply not_elem_of_cons in Hf as [? Hf]). by split_and!.
Qed.

Lemma delay_words_gap t_us rank : (0 ≤ t_us)%Z → word rank → Forall gap (delay_words t_us rank).
Proof.
  intros Ht Hr. unfold delay_words, to_string. rewrite (proj2 (Z.ltb_ge _ _)) by lia.
  rewrite !Forall_cons, Forall_nil. split_and!; try done; try (by left); right; try done; try (by apply lit_word).
  apply word_app; [by apply show_dec_word|]. by apply lit_word.
Qed.

Lemma replayed_name c name sizes k :
  replayed c = Some (name, sizes, k) → name ∈ [lit "kput"; lit "kget"; lit "kinfo"; lit "klist"].
Proof. destruct c; intros [= <- <- <-]; set_solver. Qed.

Lemma command_words_gap rank c name sizes k :
  replayed c = Some (name, sizes, k) → word rank → key_words_ok k → sizes_ok c →
  Forall gap (command_words rank name sizes k).
Proof.
  intros Hc Hr [H1 H2] Hs. unfold command_words, key_words.
  assert (Forall word sizes) as Hsz.
  { destruct c; try discriminate Hc; injection Hc as <- <- <-; try constructor; try (by apply lit_word). destruct Hs as [Hm Hd].
    rewrite !Forall_cons, Forall_nil. split_and!; try done; try (by apply lit_word); apply show_dec_word; lia. }
  assert (word name) as Hn.
  { apply replayed_name in Hc. repeat (apply elem_of_cons in Hc as [->|Hc]; [by apply lit_word|]). by apply elem_of_nil in Hc. }
  apply Forall_app. split; [rewrite !Forall_cons, Forall_nil; split_and!; try done; right; first [done | by apply lit_word]|].
  apply Forall_app. split; [eapply Forall_impl; [exact Hsz|by right]|].
  rewrite !Forall_cons, Forall_nil. split_and!; try done; right; first [done | by apply lit_word].
Qed.

(** A line of the log is its words. *)
Lemma logged_words c name sizes k :
  replayed c = Some (name, sizes, k) → key_words_ok k →
  (logged c).1 = name ∧ (logged c).2 = Join (sizes ++ key_words k) space.
Proof.
  intros Hc [[Hk1 _] [Hk2 _]].
  assert (str_as_args k = Join (key_words k) space) as Hk.
  { unfold str_as_args, key_words. rewrite !bool_decide_eq_false_2 by done. cbn. by rewrite <-?app_assoc, ?app_nil_r. }
  destruct c; try discriminate Hc; injection Hc as <- <- <-; cbn [logged fst snd]; rewrite ?Hk; try done.
Qed.

(** ** Parsing a command back *)

Section replay.
Context (dir_ok : str → bool).

Lemma scan_k1 c v rest s : scan_args c (lit "-k1" :: v :: rest) s = scan_args c rest (flush (set_key1 v s)).
Proof. done. Qed.
Lemma scan_k2 c v rest s : scan_args c (lit "-k2" :: v :: rest) s = scan_args c rest (flush (set_key2 v s)).
Proof. done. Qed.
Lemma scan_M c v rest s : scan_args c (lit "-M" :: v :: rest) s =
  scan_args c rest (mkScan (s_key1 s) (s_key2 s) v (s_gen_data s) (s_pool s) (s_file s) (s_dir s) (s_meta s)
    (s_meta_only s) (s_keys s) (s_rest s)).
Proof. by destruct s. Qed.
Lemma scan_D c v rest s : scan_args c (lit "-D" :: v :: rest) s =
  scan_args c rest (mkScan (s_key1 s) (s_key2 s) (s_gen_meta s) v (s_pool s) (s_file s) (s_dir s) (s_meta s)
    (s_meta_only s) (s_keys s) (s_rest s)).
Proof. by destruct s. Qed.

(** The two parts of a key are one key. *)
Lemma scan_key c k s :
  key_words_ok k → s_key1 s = [] → s_key2 s = [] →
  scan_args c (key_words k) s = Ok (Some (add_key k s)).
Proof.
  intros [[H1 _] [H2 _]] E1 E2. unfold key_words. rewrite scan_k1, scan_k2.
  destruct s as [k1 k2 gm gd p fl d m mo ks r], k as [a b]. cbn in *. subst.
  unfold flush at 2. cbn [set_key1 s_key1 s_key2]. rewrite andb_false_r.
  unfold flush. cbn [set_key1 set_key2 s_key1 s_key2]. rewrite !bool_decide_eq_false_2 by done. done.
Qed.

Lemma read_size_show n : (0 ≤ n < 2 ^ 64)%Z → read_size false (show_dec n) = Ok (Some (Some n)).
Proof.
  intros Hn. unfold read_size. rewrite bool_decide_eq_false_2 by apply show_base_nonempty.
  rewrite <-(app_nil_r (show_dec n)), (StringToUInt64_decimal n [] 1) by (done || by left).
  cbn [mbind outcome_bind]. rewrite Z.mul_1_l, wrap_id by done. done.
Qed.

Definition call_name (c : call) : str :=
  match replayed c with Some (name, _, _) => name | None => [] end.

Lemma new_action_known name :
  name ∈ [lit "kput"; lit "kget"; lit "kinfo"; lit "klist"] →
  new_action name = mkKca name [] [] [] None None [] false false [] [] false.
Proof. intros Hn. repeat (apply elem_of_cons in Hn as [->|Hn]; [done|]). by apply elem_of_nil in Hn. Qed.

(** The checks pass for a command with one key. *)
Lemma validate_key name pool k gm gd m d :
  name ∈ [lit "kput"; lit "kget"; lit "kinfo"; lit "klist"] → pool ≠ [] →
  read_size false gm = Ok (Some m) → read_size false gd = Ok (Some d) → (default 0 m < 64 * 1024)%Z →
  (gm = [] ∧ gd = []) ∨ name = lit "kput" →
  validate false dir_ok name pool false (mkScan [] [] gm gd [] [] [] [] false [k] []) =
    Ok (Some (mkKca name pool [] [] m d [] false false [k] [] false)).
Proof.
  intros Hn Hp Hm Hd Hlt Hg. unfold validate. cbn [s_meta_only s_meta s_gen_meta s_gen_data s_file s_dir s_pool s_keys s_rest andb].
  rewrite decide_False by (cbn; lia).
  assert (Ha : ∀ g, g = gm ∨ g = gd → negb (g =s? []) && (negb ([] =s? []) || negb (name =s? lit "kput")) = false).
  { intros g Hgg. destruct Hg as [[-> ->]| ->]; [by destruct Hgg as [-> | ->]|]. by rewrite andb_false_r. }
  rewrite (Ha gm), Hm by (by left). cbn [mbind outcome_bind]. rewrite decide_False by lia.
  rewrite (Ha gd), Hd by (by right). cbn [mbind outcome_bind]. rewrite bool_decide_eq_false_2 by (cbn; lia).
  cbn [andb]. rewrite (bool_decide_eq_true_2 ([] = [])), (bool_decide_eq_false_2 (pool = [])) by done.
  assert ((name =s? lit "kload") || (name =s? lit "ksave") = false) as ->.
  { repeat (apply elem_of_cons in Hn as [->|Hn]; [done|]). by apply elem_of_nil in Hn. }
  done.
Qed.

(** The arguments of a call give its action. *)
Lemma ParseArgs_call c name sizes k pool :
  replayed c = Some (name, sizes, k) → key_words_ok k → sizes_ok c → pool ≠ [] →
  ParseArgs false dir_ok (new_action name) (sizes ++ key_words k) pool =
    Ok (Some (mkKca name pool [] [] (sizes_of c).1 (sizes_of c).2 [] false false [k] [] false)).
Proof.
  intros Hc Hk Hs Hp. pose proof (replayed_name _ _ _ _ Hc) as Hn. unfold ParseArgs.
  rewrite new_action_known by done. cbn [cmd pool_name file_name dir_name meta kget_meta_only keys remaining_args kload_all_dir_entries].
  destruct (decide (sizes = [])) as [->|Hne].
  - assert (sizes_of c = (None, None)) as -> by (by destruct c).
    cbn [app]. rewrite scan_key by done. cbn [mbind outcome_bind].
    apply (validate_key name pool k [] [] None None); [done|done|done|done|cbn; lia|by left].
  - destruct c as [|k0 m d| | | | | | |]; try (by injection Hc as <- <- <-); try done.
    assert (name = lit "kput" ∧ sizes = [lit "-M"; show_dec m; lit "-D"; show_dec d] ∧ k = k0) as (-> & -> & ->)
      by (by injection Hc as <- <- <-).
    destruct Hs as [Hm Hd]. cbn [app]. rewrite scan_M, scan_D, scan_key by done. cbn [mbind outcome_bind].
    apply (validate_key (lit "kput") pool k0 (show_dec m) (show_dec d) (Some m) (Some d)); [done|done| | | |by right].
    + apply read_size_show. lia.
    + apply read_size_show. lia.
    + cbn. lia.
Qed.

Lemma not_rank_flag t_us : (to_string t_us ++ lit "us" =s? lit "-r") = false.
Proof.
  apply bool_decide_eq_false_2. intros E%(f_equal last).
  change (lit "us") with (lit "u" ++ ["s"%char]) in E. rewrite app_assoc, last_snoc in E. discriminate.
Qed.

Lemma parse_delay rank t_us st :
  (0 ≤ t_us)%Z → word rank →
  parseCommandLine false dir_ok rank (Join (delay_words t_us rank) space) st =
    Ok (Action (Delay (to_string t_us ++ lit "us")), st).
Proof.
  intros Ht Hr. unfold parseCommandLine. destruct st as [pool dr].
  rewrite split_words by (done || by apply delay_words_gap). unfold delay_words.
  assert (to_string t_us ++ lit "us" ≠ []) as Hne by (by destruct (to_string t_us)).
  rewrite filter_cons_True, filter_cons_True, filter_cons_False, filter_cons_True, filter_cons_True, filter_cons_False
    by (done || naive_solver || apply Hr).
  change (ToLowercase (lit "delayfor")) with (lit "delayfor"). cbn [take_rank filter list_filter].
  rewrite not_rank_flag. change (lit "-r" =s? lit "-r") with true. cbn iota.
  rewrite (bool_decide_eq_true_2 (rank = rank)), orb_true_r by done. done.
Qed.

Lemma words_kept (ws : list str) : Forall (λ w, w ≠ []) ws → filter (.≠ []) ws = ws.
Proof. induction 1 as [|w ws Hw _ IH]; [done|]. by rewrite filter_cons_True, IH. Qed.

Lemma command_words_nonempty rank c name sizes k :
  replayed c = Some (name, sizes, k) → word rank → key_words_ok k →
  Forall (λ w, w ≠ []) (command_words rank name sizes k).
Proof.
  intros Hc [Hr _] [[Hk1 _] [Hk2 _]]. unfold command_words, key_words.
  assert (name ≠ []).
  { pose proof (replayed_name _ _ _ _ Hc) as Hn.
    repeat (apply elem_of_cons in Hn as [->|Hn]; [done|]). by apply elem_of_nil in Hn. }
  assert (Forall (λ w, w ≠ []) sizes).
  { destruct c; try discriminate Hc; injection Hc as <- <- <-; try done.
    rewrite !Forall_cons, Forall_nil. split_and!; try done; apply show_base_nonempty. }
  rewrite !Forall_app, !Forall_cons, !Forall_nil. by split_and!.
Qed.

Lemma parse_command rank c name sizes k pool dr :
  replayed c = Some (name, sizes, k) → word rank → key_words_ok k → sizes_ok c → pool ≠ [] →
  parseCommandLine false dir_ok rank (Join (command_words rank name sizes k) space) (pool, dr) =
    Ok (Action (Kelpie (mkKca name pool [] [] (sizes_of c).1 (sizes_of c).2 [] false false [k] [] false)), (pool, dr)).
Proof.
  intros Hc Hr Hk Hs Hp. pose proof (command_words_gap rank c name sizes k Hc Hr Hk Hs) as Hg.
  pose proof (replayed_name _ _ _ _ Hc) as Hn. unfold parseCommandLine. rewrite split_words by done.
  rewrite words_kept by (by eapply command_words_nonempty).
  unfold command_words. cbn [app].
  assert (∃ name', ToLowercase name = name' ∧ name' = name ∧ shorthand name resource_commands = [] ∧ name ≠ [] ∧
    (name =s? lit "exit") = false ∧ (name =s? lit "set") = false ∧ (name =s? lit "barrier") = false ∧
    (name =s? lit "print") = false ∧ (name =s? lit "delay") || (name =s? lit "delayfor") = false)
    as (? & -> & -> & Hsh & Hnn & E1 & E2 & E3 & E4 & E5).
  { repeat (apply elem_of_cons in Hn as [->|Hn]; [by eexists|]). by apply elem_of_nil in Hn. }
  cbn [take_rank]. change (lit "-r" =s? lit "-r") with true. cbn iota.
  rewrite (bool_decide_eq_true_2 (rank = rank)), orb_true_r by done. cbn iota.
  rewrite E1, E2, E3, E4, E5, Hsh. cbn [negb andb]. change ([] =s? []) with true. cbn [negb].
  assert ((cmd (new_action name) =s? []) = false) as ->
    by (rewrite new_action_known by done; by apply bool_decide_eq_false_2).
  rewrite (ParseArgs_call c name sizes k pool) by done. done.
Qed.

(** ** Whole scripts *)

Lemma no_char (P : ascii) ws :
  P ∈ [";"%char; "#"%char; newline] → Forall gap ws → P ∉ Join ws space.
Proof.
  intros HP Hws Hin. assert (Forall (.≠ P) (Join ws space)) as Hf.
  { apply join_plain; [|intros c (? & ? & ? & ?)|done]; set_solver. }
  rewrite Forall_forall in Hf. by apply (Hf P).
Qed.

(** A line of the log, as the tool reads it. *)
Lemma run_trace_line rank c name sizes k t_us pool dr lines config results :
  replayed c = Some (name, sizes, k) → word rank → key_words_ok k → sizes_ok c → pool ≠ [] → (0 ≤ t_us)%Z →
  run_lines false dir_ok rank
    ((Join (delay_words t_us rank) space ++ lit ";" ++ Join (command_words rank name sizes k) space) :: lines)
    config (pool, dr) results =
  run_lines false dir_ok rank lines config (pool, dr) (results ++ actions_of pool t_us c).
Proof.
  intros Hc Hr Hk Hs Hp Ht. pose proof (command_words_gap rank c name sizes k Hc Hr Hk Hs) as Hg.
  pose proof (delay_words_gap t_us rank Ht Hr) as Hd. cbn [run_lines].
  set (A := Join (delay_words t_us rank) space). set (B := Join (command_words rank name sizes k) space).
  assert (StringBeginsWith (A ++ lit ";" ++ B) (lit "config ") = false) as ->.
  { apply not_true_is_false. rewrite StringBeginsWith_spec. intros [x Hx]. discriminate. }
  rewrite (Split_last "#"%char false).
  2:{ unfold no_sep. rewrite !elem_of_app. intros [H|[H|H]];
        [by apply (no_char "#"%char) in H; [|set_solver|]|by apply (bool_decide_unpack ("#"%char ∉ _)) in H
        |by apply (no_char "#"%char) in H; [|set_solver|]]. }
  2:{ done. }
  change (A ++ lit ";" ++ B) with (A ++ ";"%char :: B).
  rewrite (Split_sep ";"%char true A B), (Split_last ";"%char true B).
  2:{ apply no_char; [set_solver|done]. }
  2:{ intros _. unfold B, command_words. pose proof (replayed_name _ _ _ _ Hc) as Hn.
      repeat (apply elem_of_cons in Hn as [->|Hn]; [done|]). by apply elem_of_nil in Hn. }
  2:{ apply no_char; [set_solver|done]. }
  2:{ done. }
  cbn [run_commands]. unfold A, B. rewrite parse_delay by done. cbn [mbind outcome_bind].
  rewrite (parse_command rank c name sizes k) by done. cbn [mbind outcome_bind].
  unfold actions_of. rewrite Hc, <-app_assoc. done.
Qed.

(** A run of calls with the times at which they are made. *)
Definition trace_calls (l : list (Z * call)) (t : TracePool) : TracePool :=
  fold_left (λ t nc, appendTrace nc.1 (logged nc.2).1 (logged nc.2).2 t) l t.

Fixpoint in_order (last : Z) (l : list (Z * call)) : Prop :=
  match l with [] => True | (now, _) :: l => (last ≤ now < last + 2 ^ 63)%Z ∧ in_order now l end.

Fixpoint all_actions (pool : str) (last : Z) (l : list (Z * call)) : list play_action :=
  match l with
  | [] => []
  | (now, c) :: l => actions_of pool (Z.quot (now - last) 1000) c ++ all_actions pool now l
  end.

(** The call that is made for a logged one: a request is waited for, and its size is not known. *)
Definition as_played (c : call) : call :=
  match c with Want k _ | Need k _ => Need k 0 | _ => c end.

(** What a log of calls is to be played as: the time since the call before, and the call; the pool is
    connected to once. *)
Fixpoint replay (pool current : str) (last : Z) (l : list (Z * call)) : list event :=
  match l with
  | [] => []
  | (now, c) :: l =>
      [Slept (Z.quot (now - last) 1000)] ++ (if pool =s? current then [] else [Connected pool]) ++
      [Called (as_played c)] ++ replay pool pool now l
  end.

(** The lines that calls add. *)
Definition trace_line (rank : str) (last : Z) (nc : Z * call) : str :=
  match replayed nc.2 with
  | Some (name, sizes, k) =>
      Join (delay_words (Z.quot (nc.1 - last) 1000) rank) space ++ lit ";" ++ Join (command_words rank name sizes k) space
  | None => []
  end.

Fixpoint trace_lines (rank : str) (last : Z) (l : list (Z * call)) : list str :=
  match l with [] => [] | nc :: l => trace_line rank last nc :: trace_lines rank nc.1 l end.

Lemma join_app (a b : list str) : a ≠ [] → b ≠ [] → Join (a ++ b) space = Join a space ++ [space] ++ Join b space.
Proof.
  intros Ha Hb. induction a as [|x a IH]; [done|]. destruct a as [|y a].
  - cbn [app Join]. destruct b; [done|]. by rewrite app_nil_r.
  - change ((x :: y :: a) ++ b) with (x :: y :: (a ++ b)). rewrite !Join_cons.
    change (y :: a ++ b) with ((y :: a) ++ b). rewrite IH by done. by rewrite <-app_assoc.
Qed.

Lemma appendTrace_line rank nc t :
  call_ok nc.2 → rank_flag t = flag_of rank → use_relative_time t = true →
  appendTrace nc.1 (logged nc.2).1 (logged nc.2).2 t =
    mkTrace (f t ++ trace_line rank (t_last t) nc ++ [newline]) (flag_of rank) true (t_start t) nc.1.
Proof.
  intros [Hc _] Hf Hu. unfold trace_line. destruct (replayed nc.2) as [[[name sizes] k]|] eqn:Hr; [|done].
  destruct (logged_words _ _ _ _ Hr Hc) as [-> ->]. unfold appendTrace. rewrite Hf, Hu. f_equal.
  unfold command_words. rewrite (join_app [name; lit "-r"; rank]) by (by destruct sizes). unfold flag_of.
  set (b := Join (sizes ++ key_words k) space). cbn [Join delay_words]. rewrite <-!app_assoc. cbn. rewrite <-!app_assoc. cbn. rewrite ?app_nil_r. rewrite <-?app_assoc. done.
Qed.

Lemma trace_calls_text rank l t :
  Forall (λ nc, call_ok nc.2) l → rank_flag t = flag_of rank → use_relative_time t = true →
  f (trace_calls l t) = f t ++ concat ((λ line, line ++ [newline]) <$> trace_lines rank (t_last t) l).
Proof.
  intros Hl. revert t. induction Hl as [|nc l Hc _ IH]; intros t Hf Hu; cbn [trace_calls fold_left trace_lines fmap list_fmap concat].
  { by rewrite app_nil_r. }
  rewrite (appendTrace_line rank) by done. fold (trace_calls l). rewrite IH by done. cbn [f t_last].
  by rewrite <-app_assoc.
Qed.

Lemma line_chars rank last nc :
  call_ok nc.2 → word rank → (last ≤ nc.1)%Z → newline ∉ trace_line rank last nc.
Proof.
  intros [Hc Hs] Hr Ht. unfold trace_line. destruct (replayed nc.2) as [[[name sizes] k]|] eqn:Hrep; [|done].
  assert (0 ≤ Z.quot (nc.1 - last) 1000)%Z as Hq by (apply Z.quot_pos; lia).
  rewrite !elem_of_app. intros [H|[H|H]].
  - apply (no_char newline) in H; [done|set_solver|by apply delay_words_gap].
  - by apply (bool_decide_unpack (newline ∉ _)) in H.
  - apply (no_char newline) in H; [done|set_solver|by eapply command_words_gap].
Qed.

Lemma lines_of_trace rank last l :
  Forall (λ nc, call_ok nc.2) l → word rank → in_order last l →
  getlines (concat ((λ line, line ++ [newline]) <$> trace_lines rank last l)) newline = trace_lines rank last l.
Proof.
  intros Hl Hr. revert last. induction Hl as [|[now c] l Hc _ IH]; intros last Ho; [done|]. destruct Ho as [[Ht Hub] Ho].
  cbn [trace_lines fmap list_fmap concat fst]. rewrite <-app_assoc. cbn [app]. rewrite getlines_cons.
  - by rewrite IH.
  - apply Forall_forall. intros x Hx ->. by apply (line_chars rank last (now, c)) in Hx.
Qed.

Lemma run_trace_lines rank l last pool dr config results :
  Forall (λ nc, call_ok nc.2) l → word rank → in_order last l → pool ≠ [] →
  run_lines false dir_ok rank (trace_lines rank last l) config (pool, dr) results =
    Ok (config, (pool, dr), results ++ all_actions pool last l).
Proof.
  intros Hl Hr Ho Hp. revert last results Ho. induction Hl as [|[now c] l [Hc Hs] _ IH]; intros last results Ho.
  { cbn. by rewrite app_nil_r. }
  destruct Ho as [[Ht Hub] Ho]. cbn [trace_lines all_actions fst]. unfold trace_line. cbn [fst snd] in *.
  destruct (replayed c) as [[[name sizes] k]|] eqn:Hrep; [|done].
  rewrite (run_trace_line rank c name sizes k) by (done || (apply Z.quot_pos; lia)). rewrite IH by done. by rewrite <-app_assoc.
Qed.

(** ** Playing the actions *)

Lemma lower_digits (a : str) : Forall (λ c, isdigit c = true) a → ToLowercase a = a.
Proof.
  induction 1 as [|c a Hc _ IH]; [done|]. unfold ToLowercase in *. cbn [fmap list_fmap].
  rewrite IH. f_equal. unfold tolower. destruct (isupper c) eqn:E; [|done]. exfalso.
  unfold isupper, isdigit, in_range in *. lia.
Qed.

Lemma dec_digits n : (0 ≤ n)%Z → Forall (λ c, isdigit c = true) (show_dec n).
Proof.
  intros Hn. eapply Forall_impl; [apply show_base_digits; lia|]. apply is_digit_of_10.
Qed.

Lemma trim_digits (a : str) : Forall (λ c, isdigit c = true) a → trim_spaces a = a.
Proof.
  intros Ha. unfold trim_spaces. rewrite <-(reverse_involutive a) at 2. f_equal.
  assert (Forall (λ c, isdigit c = true) (reverse a)) as Hr by (by apply Forall_reverse).
  destruct Hr as [|c l Hc _]; [done|]. cbn [drop_while]. case_bool_decide; [|done]. by subst c.
Qed.

(** A pause of the log is read back. *)
Lemma pause_read n : (0 ≤ n < 2 ^ 64)%Z → StringToTimeUS false (to_string n ++ lit "us") = (0%Z, n).
Proof.
  intros Hn. unfold to_string. rewrite (proj2 (Z.ltb_ge _ _)) by lia.
  pose proof (dec_digits n ltac:(lia)) as Hd. pose proof (show_base_nonempty 10 n) as Hne.
  unfold StringToTimeUS. rewrite bool_decide_eq_false_2 by (by destruct (show_dec n)).
  assert (ToLowercase (show_dec n ++ lit "us") = show_dec n ++ lit "us") as ->.
  { unfold ToLowercase. rewrite fmap_app. f_equal. by apply lower_digits. }
  unfold time_table. cbn [time_suffix].
  assert (StringEndsWith (show_dec n ++ lit "us") (lit "us") = true) as ->.
  { apply StringEndsWith_spec. by exists (show_dec n). }
  rewrite length_app, Nat.add_sub, take_app_length, trim_digits by done.
  rewrite bool_decide_eq_false_2 by done. rewrite (proj2 (forallb_forall _ _)).
  2:{ intros c Hc. rewrite Forall_forall in Hd. by apply Hd, list_elem_of_In. }
  cbn [negb andb]. unfold strtoul.
  rewrite <-(app_nil_r (show_dec n)), c_str_app by (apply show_base_no_nul; lia).
  rewrite scan_show_dec by (done || lia || by left).
  assert (ULONG_MAX = 2 ^ 64 - 1)%Z as HU by done. rewrite (proj2 (Z.ltb_ge _ _)) by lia.
  rewrite Z.mul_1_l, wrap_id by (unfold in_width; lia). cbn [orb]. by rewrite andb_false_r.
Qed.

Section played.
Context (connects : str → bool) (listing : Key → list (Key * Z)) (file_size : str → option Z)
  (dir_objects : str → list (Key * Z * Z)) (stdin_bytes : Z).
Abbreviation player_actions := (playActions connects listing file_size dir_objects stdin_bytes false).
Abbreviation dispatch := (kelpieClient_Dispatch listing file_size dir_objects stdin_bytes false).

(** The action that a call was read back as makes the call. *)
Lemma dispatch_call c name sizes k pool config :
  replayed c = Some (name, sizes, k) → sizes_ok c →
  dispatch config (mkKca name pool [] [] (sizes_of c).1 (sizes_of c).2 [] false false [k] [] false) =
    Ok [as_played c].
Proof.
  intros Hc Hs. destruct c as [|k0 m d| | | | | | |]; try discriminate Hc; injection Hc as <- <- <-; try done.
  destruct Hs as [Hm Hd]. unfold kelpieClient_Dispatch. cbn [cmd sizes_of fst snd].
  change (lit "kput" =s? lit "kput") with true. cbn iota. unfold kelpieClient_Put.
  cbn [file_name generate_data_size]. change (negb ([] =s? [])) with false. cbn iota.
  rewrite (proj2 (Z.eqb_neq d 0)) by lia. cbn [negb].
  unfold kelpieClient_PutFromGeneratedData, getMetaCapacity, first_key.
  cbn [keys meta generate_meta_size mbind outcome_bind as_played]. change 65535%Z with (Z.ones 16).
  by rewrite Z.land_ones, Z.mod_small, wrap_id by (unfold in_width; lia).
Qed.

Lemma play_trace pool current last l config :
  Forall (λ nc, call_ok nc.2) l → in_order last l → connects pool = true →
  player_actions config (all_actions pool last l) current = Ok (replay pool current last l).
Proof.
  intros Hl Ho Hp. revert last current Ho.
  induction Hl as [|[now c] l [Hc Hs] _ IH]; intros last current Ho; [done|]. destruct Ho as [[Ht Hub] Ho].
  cbn [all_actions replay snd] in *. unfold actions_of.
  destruct (replayed c) as [[[name sizes] k]|] eqn:Hrep; [|done].
  assert (0 ≤ Z.quot (now - last) 1000 < 2 ^ 64)%Z as Hq.
  { rewrite Z.quot_div_nonneg by lia. split; [apply Z.div_pos; lia|]. apply Z.div_lt_upper_bound; lia. }
  cbn [app playActions]. rewrite pause_read by done. unfold accessPool.
  rewrite dispatch_call with (sizes := sizes) by done. cbn [pool_name]. rewrite Hp.
  destruct (pool =s? current); cbn [mbind outcome_bind]; rewrite IH by done; done.
Qed.

End played.
End replay.

(** * Witness and limits *)

Definition trace_url : ResourceURL := mkURL (lit "trace") (NodeID.mk 0) (Bucket.mk 0) (lit "/my") (lit "pool") [].
Definition new_trace (mpi_rank : option Z) : TracePool :=
  match TracePool_new mpi_rank (λ _, true) trace_url 1000 with Ok (_, t) => t | Throw _ => mkTrace [] [] true 0 0 end.
Definition rc_key : Key := mkKey (lit "row") (lit "col").
Definition no_config : Configuration := mkConfig [] ∅.
Definition play (my_rank : str) (t : TracePool) : outcome (list play_action) :=
  snd <$> playParseScripts false (λ _, true) None my_rank [f t] no_config.

Definition played (my_rank : str) (t : TracePool) : outcome (list event) :=
  playMain (λ _, true) (λ _, []) (λ _, None) (λ _, []) 0 false (λ _, true) None my_rank [f t] no_config.


(** What is logged as something else is played as that: a row's information as that of an object,
    and a publish of an object without data, or of one in the pool, as one from standard input or,
    as nothing tells the size, as anything. *)
Example not_replayed :
  played (lit "3") (trace_calls [(2000, RowInfo rc_key)]%Z (new_trace (Some 3%Z))) =
    Ok [Slept 1; Connected (lit "/my/pool"); Called (Info rc_key)] ∧
  playMain (λ _, true) (λ _, []) (λ _, None) (λ _, []) 9 false (λ _, true) None (lit "3")
    [f (trace_calls [(2000, Publish rc_key 2 0)]%Z (new_trace (Some 3%Z)))] no_config =
    Ok [Slept 1; Connected (lit "/my/pool"); Called (Publish rc_key 0 9)] ∧
  played (lit "3") (trace_calls [(2000, Publish_key rc_key)]%Z (new_trace (Some 3%Z))) = Throw Undefined.
Proof. split_and!; vm_compute; reflexivity. Qed.

(** A key with only its first part is not read back: the put has no key. *)
Example row_key_lost :
  map (λ a, match a with Kelpie k => keys k | _ => [] end) <$>
    play (lit "3") (trace_calls [(2000, Publish (mkKey (lit "row") []) 2 5)]%Z (new_trace (Some 3%Z)))
  = Ok [[]; []].
Proof. vm_compute. reflexivity. Qed.

(** Without a rank the command and its first argument are one word, which the tool does not know. *)
Example trace_without_rank :
  f (trace_calls [(2000, Want rc_key 0)]%Z (new_trace None))
    = lit "set pool /my/pool" ++ [newline] ++ lit "delayfor 1us ;kget-k1 row -k2 col" ++ [newline] ∧
  play [] (trace_calls [(2000, Want rc_key 0)]%Z (new_trace None)) = Throw Exit.
Proof. split; vm_compute; reflexivity. Qed.

(** Drops and computations are logged under names the tool does not know. *)
Example drop_not_replayed :
  play (lit "3") (trace_calls [(2000, Drop rc_key)]%Z (new_trace (Some 3%Z))) = Throw Exit ∧
  play (lit "3") (trace_calls [(2000, Compute rc_key (lit "fn") (lit "x"))]%Z (new_trace (Some 3%Z))) = Throw Exit.
Proof. split; vm_compute; reflexivity. Qed.

(** The aliases for meta data only and for whole directories are replaced before they are looked at. *)
Example aliases_have_no_effect :
  kget_meta_only (new_action (lit "kgetm")) = false ∧ kload_all_dir_entries (new_action (lit "kloadd")) = false.
Proof. split; vm_compute; reflexivity. Qed.

(** A resource command without its arguments is taken: the error is looked for in the wrong place. *)
Example resource_error_ignored :
  parseCommandLine false (λ _, true) (lit "0") (lit "rdef") (lit "/p", lit "0") = Ok (Action (Resource (lit "rdef") []), (lit "/p", lit "0")).
Proof. vm_compute. reflexivity. Qed.

(** A put without ["-M"] has no meta size, and one without ["-D"] no data size: the members are read
    although nothing was written to them. *)
Example meta_size_unset :
  (a ← ParseArgs false (λ _, true) (new_action (lit "kput")) [lit "-k1"; lit "a"; lit "-k2"; lit "b"; lit "-D"; lit "5"] (lit "/p");
   match a with Some a => getMetaCapacity a | None => Ok 0%Z end) = Throw Undefined.
Proof. vm_compute. reflexivity. Qed.

(** The next pool sees the call and its answer is handed on; the log has one entry more. *)
Lemma traced_transparent {S A} (next : call → S → outcome (A * S)) now c t s a s' :
  next c s = Ok (a, s') →
  traced next now c (t, s) = Ok (a, (trace_calls [(now, c)] t, s')).
Proof. intros Hn. unfold traced. cbn [fst snd]. by rewrite Hn. Qed.
