(* ===== verification/PoolFacade.v ===== *)
(** The pool in the hands of an application (src/src/kelpie/pools/Pool.cpp, UnconfiguredPool.cpp):
    handles to shared implementations, and the calls that wait for their answer.

    A blocking call hands a callback of its own to the implementation and spins until it was called.
    [blocking_progress]: what a blocked caller waits for is an op that was launched with its callback,
    except for a drop on the null pool, which waits for nothing. *)
From S2P Require Import Prelude StringHelpers Identifiers ResourceURL Key KelpieTypes LocalKVRow LocalKV Message OpBox KelpieOps Pools.

(** * Handles *)

(** What a handle points to: a pool with its type, the unconfigured one with its message. *)
Record impl := mkImpl { impl_kind : pool_kind; error_message : str }.

(** [None] is the null pointer. *)
Abbreviation Pool := (option impl).

Definition unconfigured_pool : impl := mkImpl UnconfiguredPool (lit "Pool accessed before initialization").
Definition UnconfiguredPoolCreate (msg : str) : Pool := Some (mkImpl UnconfiguredPool msg).

Definition Pool_new : Pool := Some unconfigured_pool.
Definition Pool_base (base : Pool) : Pool := base.
Definition Pool_copy (source : Pool) : Pool := source.

(** Moving gives the new value of the destination and of the source. *)
Definition Pool_move (source : Pool) : Pool * Pool := (source, Some unconfigured_pool).
Definition Pool_assign (_ source : Pool) : Pool := source.
Definition Pool_assign_move (_ source : Pool) : Pool * Pool := (source, None).

(** Every call goes through the pointer. *)
Definition deref (x : Pool) : outcome impl := match x with Some i => Ok i | None => Throw Undefined end.

Definition is_unconfigured (i : impl) : bool :=
  match impl_kind i with UnconfiguredPool => true | _ => false end.

(** [Valid], with or without a place for a message; the message is read through the pointer also
    when it is null. *)
Definition Valid (x : Pool) (wants_message : bool) : outcome (bool * str) :=
  match x with
  | None => if wants_message then Throw Undefined else Ok (false, [])
  | Some i =>
      if is_unconfigured i then Ok (false, if wants_message then error_message i else [])
      else Ok (true, [])
  end.

Definition ValidOrDie (x : Pool) : outcome () :=
  '(ok, _) ← Valid x true; if (ok : bool) then Ok () else Throw Exit.

(** A handle that is not null says whether its pool is usable, and why not; one that was the source
    of a move assignment answers nothing. *)
Theorem Valid_spec i dst src :
  (∃ msg, Valid (Some i) true = Ok (negb (is_unconfigured i), msg) ∧
     (is_unconfigured i = true → msg = error_message i)) ∧
  ValidOrDie (Some i) = (if is_unconfigured i then Throw Exit else Ok ()) ∧
  Valid (Pool_move src).2 true = Ok (false, error_message unconfigured_pool) ∧
  Valid (Pool_assign_move dst src).2 true = Throw Undefined ∧ deref (Pool_assign_move dst src).2 = Throw Undefined.
Proof.
  split_and!; try done; unfold ValidOrDie, Valid; destruct (is_unconfigured i); cbn; (done || by eexists).
Qed.

(** * Calls that wait *)

Section facade.
Context {D : Type} {LO : LdoOps D} {RD : Rdma D} {I : Type} {IO : IomBase I D}.
Context (compute : str → str → Bucket.t → Key → gmap Key D → rc_t * D).
Abbreviation M := (@KelpieOps.M D I).
#[local] Existing Instances M_ret M_bind.
Implicit Types (p : pool) (e : env (D := D)) (key : Key).

(** The first time the caller's callback is called, by kind of call. *)
Definition published (cb : callback_id) (effs : list (effect (D := D))) : option (rc_t * object_info_t) :=
  head (omap (λ x, match x with
                   | ECallPublish c rc info => if bool_decide (c = cb) then Some (rc, info) else None
                   | _ => None end) effs).
Definition computed (cb : callback_id) (effs : list (effect (D := D))) : option (rc_t * D) :=
  head (omap (λ x, match x with
                   | ECallCompute c rc _ d => if bool_decide (c = cb) then Some (rc, d) else None
                   | _ => None end) effs).
Definition dropped (cb : callback_id) (effs : list (effect (D := D))) : option bool :=
  head (omap (λ x, match x with
                   | ECallDrop c success _ => if bool_decide (c = cb) then Some success else None
                   | _ => None end) effs).

(** What the call has done since [s]. *)
Definition since (s s' : node_state (D := D) (I := I)) : list (effect (D := D)) :=
  drop (length (h_effects s)) (h_effects s').

(** [Publish] with a place for the information.  The answer is [None] while the caller spins; the op
    is what was launched. *)
Definition Publish_blocking (kind : pool_kind) p e key (user_ldo : data_object (D := D)) (cb : callback_id)
    : M (option (rc_t * option object_info_t) * option (kelpie_op (D := D))) :=
  λ s, '((rc1, op), s') ← Pool_Publish kind p e key user_ldo (Some cb) s;
       Ok ((if negb (rc1 =? KELPIE_OK)%Z then Some (rc1, None)
            else (λ r, (r.1, Some r.2)) <$> published cb (since s s'), op), s').

Definition Compute_blocking (kind : pool_kind) p e key (function_name function_args : str) (cb : callback_id)
    : M (option (rc_t * option D) * option (kelpie_op (D := D))) :=
  λ s, '((rc1, op), s') ← Pool_Compute compute kind p e key function_name function_args cb s;
       Ok ((if negb (rc1 =? KELPIE_OK)%Z then Some (rc1, None)
            else (λ r, (r.1, Some r.2)) <$> computed cb (since s s'), op), s').

(** The code [Drop] returns is not looked at. *)
Definition BlockingDrop (kind : pool_kind) p e key (cb : callback_id)
    : M (option rc_t * option (kelpie_op (D := D))) :=
  λ s, '((_, op), s') ← Pool_Drop kind p e key (Some cb) s;
       Ok (((λ success : bool, if success then KELPIE_OK else KELPIE_ENOENT) <$> dropped cb (since s s'), op), s').

(** [Need]: the object to fill must be there and empty. *)
Definition Need_guard (returned_ldo : option Z) : outcome () :=
  match returned_ldo with
  | None => Throw AssertFailed
  | Some user_capacity => F_ASSERT (user_capacity =? 0)%Z
  end.

(** One look of [Need]: an object, another turn of the local pool's loop, or an op to wait for. *)
Inductive need := Found (rc : rc_t) (d : D) | Again (first_time : bool) | Waits (op : option (kelpie_op (D := D))).

Definition Pool_Need (kind : pool_kind) p e key (expected_ldo_user_bytes : Z) (returned_ldo : option Z)
    (first_time : bool) (cb : callback_id) : M need :=
  _ ← lift (Need_guard returned_ldo);
  match kind with
  | LocalPool =>
      '(r, first_time) ← Local_Need_turn p e key first_time;
      mret match r with Some (rc, d) => Found rc d | None => Again first_time end
  | NullPool => '(rc, d) ← Null_Need p key expected_ldo_user_bytes; mret (Found rc d)
  | DHTPool => op ← DHT_Need p e key expected_ldo_user_bytes cb; mret (Waits op)
  | UnconfiguredPool => Panic
  end.

(** Wildcards are only warned about. *)
Definition Pool_Info (kind : pool_kind) p e key (info : object_info_t) (cb : callback_id)
    : M (rc_t * object_info_t * option (kelpie_op (D := D))) :=
  match kind with
  | LocalPool => no_op (Local_Info p e key info)
  | NullPool => no_op (Null_Info p key)
  | DHTPool => DHT_Info p e key info cb
  | UnconfiguredPool => Panic
  end.

Definition Pool_RowInfo (kind : pool_kind) p e key (info : object_info_t) (cb : callback_id)
    : M (rc_t * object_info_t * option (kelpie_op (D := D))) :=
  match kind with
  | LocalPool => no_op (Local_RowInfo p e key info)
  | NullPool => no_op (Null_Info p key)
  | DHTPool => DHT_RowInfo p e key info cb
  | UnconfiguredPool => Panic
  end.

(** ** What the calls leave behind *)

Lemma since_app (s : node_state (D := D) (I := I)) rows ioms effs :
  since s (mkNode rows ioms (h_effects s ++ effs)) = effs.
Proof. unfold since. cbn [h_effects]. apply drop_app_length. Qed.

Lemma op_put_run e b key (d : D) flags h info (s : node_state (D := D) (I := I)) r s' :
  op_put e b key d flags h info s = Ok (r, s') →
  ∃ evs, h_effects s' = h_effects s ++ [EStore evs].
Proof.
  unfold op_put. intros ([rep iom'] & _ & Hs)%bind_Ok. injection Hs as _ <-. by eexists.
Qed.

(** A put at this node and the callback after it. *)
Definition put_answers p e key (d : D) flags (cb : callback_id) : M (rc_t * option (kelpie_op (D := D))) :=
  '(rc, info) ← op_put e (default_bucket p) key d flags (iom p) Wipe;
  _ ← call_publish (Some cb) rc info;
  mret (KELPIE_OK, None).

Lemma put_answers_run p e key d flags cb (s : node_state (D := D) (I := I)) r s' :
  put_answers p e key d flags cb s = Ok (r, s') →
  ∃ rc info s1, op_put e (default_bucket p) key d flags (iom p) Wipe s = Ok ((rc, info), s1) ∧
    r = (KELPIE_OK, None) ∧ published cb (since s s') = Some (rc, info).
Proof.
  intros ([rc info] & s1 & Hp & H)%bind_inv. destruct (op_put_run _ _ _ _ _ _ _ _ _ _ Hp) as [evs He].
  cbn in H. injection H as <- <-. exists rc, info, s1. split_and!; [done|done|].
  unfold published, since. cbn [h_effects]. rewrite He, <-app_assoc, drop_app_length. cbn.
  by rewrite bool_decide_eq_true_2.
Qed.

Lemma Publish_progress kind p e key (user_ldo : data_object (D := D)) cb s r op s' :
  Publish_blocking kind p e key user_ldo cb s = Ok ((r, op), s') →
  is_Some r ∨ ∃ node peer, op = Some (KPublish (OpKelpiePublish (me e) (mailbox e) node peer
    (default_bucket p) key user_ldo (iom_hash p) (behavior_flags p) (Some cb))).
Proof.
  unfold Publish_blocking. intros ([[rc1 op1] s1] & Hp & H)%bind_Ok. injection H as <- <- <-.
  unfold Pool_Publish in Hp. destruct (IsWildcard key); [done|].
  assert (∀ d flags, put_answers p e key d flags cb s = Ok ((rc1, op1), s1) →
    is_Some (if negb (rc1 =? KELPIE_OK)%Z then Some (rc1, None)
             else (λ x, (x.1, Some x.2)) <$> published cb (since s s1))) as Hput.
  { intros d flags Hd. destruct (put_answers_run _ _ _ _ _ _ _ _ _ Hd) as (rc & info & s2 & _ & [= -> _] & ->). by eexists. }
  destruct kind.
  - left. apply (Hput (obj_val user_ldo) (behavior_flags p)). rewrite <-Hp.
    unfold no_op, Local_Publish, put_answers, mbind, M_bind. by destruct (op_put _ _ _ _ _ _ _ s) as [[[? ?] ?]|].
  - left. injection Hp as <- <- <-. cbn. unfold published, since. cbn [h_effects]. rewrite drop_app_length. cbn.
    rewrite bool_decide_eq_true_2 by done. by eexists.
  - unfold DHT_Publish in Hp. apply bind_inv in Hp as ([node peer] & s2 & Hn & Hp).
    unfold find_node, lift in Hn. apply bind_Ok in Hn as (n & _ & [= -> <-]).
    case_bool_decide; [left; by apply (Hput (obj_val user_ldo) (PoolBehavior.ChangeRemoteToLocal (behavior_flags p)))|].
    apply bind_inv in Hp as (? & ? & _ & [= <- <- _]). right. by exists node, peer.
  - done.
Qed.

Lemma op_compute_run e fn args b key (s : node_state (D := D) (I := I)) r s' :
  op_compute e compute fn args b key s = Ok (r, s') → h_effects s' = h_effects s.
Proof. unfold op_compute. intros ([[rc rows] d] & _ & H)%bind_Ok. by injection H as _ <-. Qed.

(** A computation at this node and the callback after it. *)
Lemma compute_answers e fn args b key cb (s : node_state (D := D) (I := I)) r s' :
  ('(rc, ldo) ← op_compute e compute fn args b key; _ ← emit (ECallCompute cb rc key ldo); mret KELPIE_OK) s = Ok (r, s') →
  r = KELPIE_OK ∧ is_Some (computed cb (since s s')).
Proof.
  intros ([rc ldo] & s1 & Hc & H)%bind_inv. apply op_compute_run in Hc. cbn in H. injection H as <- <-.
  split; [done|]. unfold computed, since. cbn [h_effects]. rewrite Hc, drop_app_length. cbn.
  rewrite bool_decide_eq_true_2 by done. by eexists.
Qed.

Lemma Compute_progress kind p e key fn args cb s r op s' :
  Compute_blocking kind p e key fn args cb s = Ok ((r, op), s') →
  is_Some r ∨ ∃ node peer, op = Some (KCompute (OpKelpieCompute (me e) (mailbox e) node peer
    (default_bucket p) key (iom_hash p) (behavior_flags p) fn args cb)).
Proof.
  unfold Compute_blocking. intros ([[rc1 op1] s1] & Hp & H)%bind_Ok. injection H as <- <- <-.
  unfold Pool_Compute in Hp. destruct kind.
  - left. apply bind_inv in Hp as (rc & s2 & Hl & [= <- <- <-]). unfold Local_Compute in Hl.
    apply compute_answers in Hl as [-> [x ->]]. by eexists.
  - left. injection Hp as <- <- <-. cbn. unfold computed, since. cbn [h_effects]. rewrite drop_app_length. cbn.
    rewrite bool_decide_eq_true_2 by done. by eexists.
  - unfold DHT_Compute in Hp. rewrite bind_lift in Hp. apply bind_Ok in Hp as (? & _ & Hp).
    apply bind_inv in Hp as ([node peer] & s2 & Hn & Hp).
    unfold find_node, lift in Hn. apply bind_Ok in Hn as (n & _ & [= -> <-]). case_bool_decide.
    + left. apply bind_inv in Hp as ([rc ldo] & s3 & Hc & Hp). apply op_compute_run in Hc. cbn in Hp. injection Hp as <- <- <-.
      unfold computed, since. cbn [h_effects]. rewrite Hc, drop_app_length. cbn.
      rewrite bool_decide_eq_true_2 by done. by eexists.
    + injection Hp as <- <- _. right. by exists node, peer.
  - done.
Qed.

Lemma op_drop_run e b key (s : node_state (D := D) (I := I)) r s' :
  op_drop e b key s = Ok (r, s') → h_effects s' = h_effects s.
Proof. unfold op_drop. intros ([rc rows] & _ & H)%bind_Ok. by injection H as _ <-. Qed.

Lemma dropped_last cb (b : bool) key (s s1 : node_state (D := D) (I := I)) rows ioms :
  h_effects s1 = h_effects s → dropped cb (since s (mkNode rows ioms (h_effects s1 ++ [ECallDrop cb b key]))) = Some b.
Proof.
  intros He. unfold dropped, since. cbn [h_effects]. rewrite He, drop_app_length. cbn. by rewrite bool_decide_eq_true_2.
Qed.

Lemma Drop_progress kind p e key cb s r op s' :
  kind ≠ NullPool → BlockingDrop kind p e key cb s = Ok ((r, op), s') →
  is_Some r ∨ ∃ targets here, targets ≠ [] ∧
    op = Some (KDrop (OpKelpieDrop targets (default_bucket p) key here (Some cb))).
Proof.
  intros Hk. unfold BlockingDrop. intros ([[rc1 op1] s1] & Hp & H)%bind_Ok. injection H as <- <- <-.
  unfold Pool_Drop in Hp. destruct kind; [|done| |done].
  - left. apply bind_inv in Hp as (rc & s2 & Hl & [= <- <- <-]). unfold Local_Drop in Hl.
    apply bind_inv in Hl as (rc' & s3 & Hd & Hl). apply op_drop_run in Hd. cbn in Hl. injection Hl as <- <-.
    rewrite dropped_last by done. by eexists.
  - unfold DHT_Drop in Hp. apply bind_inv in Hp as ([here others] & s2 & Hs & Hp). cbv beta iota zeta in Hp.
    apply search_nodes_spec in Hs as (-> & _ & _). apply bind_inv in Hp as (rc & s3 & Hd & Hp).
    assert (h_effects s3 = h_effects s) as He by (destruct (_ || _); [by apply op_drop_run in Hd|by injection Hd as _ <-]).
    case_bool_decide as Ho; cbn [negb] in Hp.
    + left. cbn in Hp. injection Hp as <- <- <-. rewrite dropped_last by done. by eexists.
    + injection Hp as <- <- _. right. by exists others, (rc =? KELPIE_OK)%Z.
Qed.

(** A caller of a blocking call has its answer when the call on the pool is through, or an op is under
    way that has the caller's callback and somebody to ask.  For drops this holds for all pools but
    the null pool. *)
Theorem blocking_progress kind p e key (user_ldo : data_object (D := D)) fn args cb s :
  (∀ r op s', Publish_blocking kind p e key user_ldo cb s = Ok ((r, op), s') →
     is_Some r ∨ ∃ node peer, op = Some (KPublish (OpKelpiePublish (me e) (mailbox e) node peer
       (default_bucket p) key user_ldo (iom_hash p) (behavior_flags p) (Some cb)))) ∧
  (∀ r op s', Compute_blocking kind p e key fn args cb s = Ok ((r, op), s') →
     is_Some r ∨ ∃ node peer, op = Some (KCompute (OpKelpieCompute (me e) (mailbox e) node peer
       (default_bucket p) key (iom_hash p) (behavior_flags p) fn args cb))) ∧
  (∀ r op s', kind ≠ NullPool → BlockingDrop kind p e key cb s = Ok ((r, op), s') →
     is_Some r ∨ ∃ targets here, targets ≠ [] ∧
       op = Some (KDrop (OpKelpieDrop targets (default_bucket p) key here (Some cb)))).
Proof.
  split_and!; [apply Publish_progress|apply Compute_progress|]. intros r op s' Hk. by apply Drop_progress.
Qed.

(** On the local pool nothing waits: a publish answers with the code of the put, and a drop says
    whether the store had something to drop. *)
Theorem local_answers p e key (user_ldo : data_object (D := D)) cb s r op s' :
  (Publish_blocking LocalPool p e key user_ldo cb s = Ok ((r, op), s') →
   ∃ rc info s1, op_put e (default_bucket p) key (obj_val user_ldo) (behavior_flags p) (iom p) Wipe s = Ok ((rc, info), s1) ∧
     r = Some (rc, Some info) ∧ op = None) ∧
  (∀ r', BlockingDrop LocalPool p e key cb s = Ok ((r', op), s') →
   ∃ rc s1, op_drop e (default_bucket p) key s = Ok (rc, s1) ∧
     r' = Some (if (rc =? KELPIE_OK)%Z then KELPIE_OK else KELPIE_ENOENT) ∧ op = None).
Proof.
  split.
  - unfold Publish_blocking. intros ([[rc1 op1] s1] & Hp & H)%bind_Ok. injection H as <- <- <-.
    unfold Pool_Publish in Hp. destruct (IsWildcard key); [done|].
    assert (put_answers p e key (obj_val user_ldo) (behavior_flags p) cb s = Ok ((rc1, op1), s1)) as Hput.
    { rewrite <-Hp. unfold no_op, Local_Publish, put_answers, mbind, M_bind.
      by destruct (op_put _ _ _ _ _ _ _ s) as [[[? ?] ?]|]. }
    destruct (put_answers_run _ _ _ _ _ _ _ _ _ Hput) as (rc & info & s2 & Hs & [= -> ->] & ->).
    by exists rc, info, s2.
  - intros r'. unfold BlockingDrop. intros ([[rc1 op1] s1] & Hp & H)%bind_Ok. injection H as <- <- <-.
    unfold Pool_Drop in Hp. apply bind_inv in Hp as (rc & s2 & Hl & [= <- <- <-]). unfold Local_Drop in Hl.
    apply bind_inv in Hl as (rc' & s3 & Hd & Hl). exists rc', s3. split; [done|]. apply op_drop_run in Hd.
    cbn in Hl. injection Hl as <- <-. by rewrite dropped_last.
Qed.

(** A blocking drop on the null pool waits for nothing, for ever. *)
Lemma null_drop_waits p e key cb (s : node_state (D := D) (I := I)) :
  BlockingDrop NullPool p e key cb s = Ok ((None, None), s).
Proof.
  unfold BlockingDrop. assert (Pool_Drop NullPool p e key (Some cb) s = Ok ((KELPIE_OK, None), s)) as -> by done.
  cbn [mbind outcome_bind]. unfold dropped, since. by rewrite drop_all.
Qed.
End facade.

(** * Witness *)

Lemma blocking_progress_witness :
  ∃ op, BlockingDrop DHTPool (dht_pool_on origin) (env_at origin 3) k_rows 7 node0 = Ok ((None, op), node0) ∧
    ∃ targets here, targets ≠ [] ∧ op = Some (KDrop (OpKelpieDrop targets b0 k_rows here (Some 7))).
Proof.
  destruct (blocking_progress (λ _ _ _ _ _, (KELPIE_OK, None)) DHTPool (dht_pool_on origin) (env_at origin 3) k_rows
    (mkObject 0%N None) [] [] 7 node0) as (_ & _ & Hd).
  set (op := Some (KDrop (D := content) (OpKelpieDrop [(target_node, target_node)] b0 k_rows false (Some 7)))).
  assert (BlockingDrop DHTPool (dht_pool_on origin) (env_at origin 3) k_rows 7 node0 = Ok ((None, op), node0)) as Hr
    by (vm_compute; reflexivity).
  exists op. split; [exact Hr|]. destruct (Hd None op node0) as [[x Hx]|H]; [discriminate|exact Hr|discriminate|].
  exact H.
Defined.
