(* ===== verification/DHTWorld.v ===== *)
(** A distributed pool in use: nodes that publish, want and drop, with the ops of KelpieOps between
    them, messages and transfers in flight, and every order in which they can arrive.

    A world is the nodes (store, I/O modules, active ops), the registered memory, what is in flight,
    and the callbacks the applications were given.  A step is a call of an application, the arrival
    of a message, a transfer, or an update of an op; what the update does is what [op_Update] and the
    methods of [DHTPool] say.

    The theorem is about what applications are given: an object handed to the callback of a want
    was published under that key. *)
From stdpp Require Import functions.
From S2P Require Import Prelude StringHelpers Identifiers ResourceURL Key KelpieTypes LocalKVRow.
From S2P Require Import LocalKV DirectoryInfo Message OpBox KelpieOps Pools.

(** What reading an I/O module gives back was there before, or was just written. *)
Class IomLaws (I D : Type) `{IomBase I D} := {
  iom_read_written i b k d b' k' d' :
    iom_ReadObject (iom_WriteObject i b k d).2 b' k' = (KELPIE_OK, d') →
    (b' = b ∧ k' = k ∧ d' = d) ∨ iom_ReadObject i b' k' = (KELPIE_OK, d')
}.

#[global] Instance NodeID_countable : Countable NodeID.t.
Proof. apply (inj_countable' NodeID.nid NodeID.mk). by intros []. Defined.

(** * Properties of all the cells of a store *)

Section cells.
Context {D : Type} {LO : LdoOps D} {I : Type} {IO : IomBase I D}.
Abbreviation table := (gmap str (LocalKVRow D)).
Context (P : str → str → LocalKVCell D → Prop).

Definition all_cells (rows : table) : Prop :=
  ∀ full row name c, rows !! full = Some row → getCol name row = Some c → P full name c.

Lemma set_cell_all b k c rows :
  all_cells rows → P (makeRowname b k) (K2 k) c → all_cells (set_cell b k c rows).
Proof.
  intros Hall Hc full row name c' Hr Hn. unfold set_cell in Hr.
  apply lookup_insert_Some in Hr as [[<- <-]|[_ Hr]]; [|by eapply Hall].
  destruct (decide (name = K2 k)) as [->|Hne].
  - autorewrite with faodel in Hn. by simplify_eq.
  - rewrite getCol_setCol_ne in Hn by done. unfold row_or_new in Hn.
    destruct (rows !! makeRowname b k) as [row|] eqn:Hr; simpl in Hn; [by eapply Hall|].
    by destruct name.
Qed.

Lemma find_cell_all b k rows c :
  all_cells rows → find_cell b k rows = Some c → P (makeRowname b k) (K2 k) c.
Proof.
  unfold find_cell. intros Hall Hc. destruct (rows !! makeRowname b k) as [row|] eqn:Hr; [|done].
  by eapply Hall.
Qed.

(** A column operation whose function keeps [P], whose events, with those of the dispatch that
    follows it, have the property [E], and whose results have the property [O]. *)
Lemma doColOp_all {R} (E : event D → Prop) (O : rc_t → option R → Prop) now b k flags info (func : fn_column_op_t D R) rows :
  let full := makeRowname b k in
  (∀ n c, P full (K2 k) c → P full (K2 k) (set_accessed n c)) →
  P full (K2 k) (new_cell now) →
  (∀ row c existed, P full (K2 k) c →
     let '(rc, c1, evs, out) := func row c existed in
     P full (K2 k) c1 ∧ Forall E evs ∧ O rc (Some out) ∧
     (PoolBehavior.has flags LambdaFlags.TRIGGER_DEPENDENCIES = true →
      ∀ r, P full (K2 k) (clear_dependencies c1) ∧
        Forall E (dispatchCallbacksAndNotifications r k c1).2)) →
  O KELPIE_ENOENT None → table_ok rows → all_cells rows →
  let rep := doColOp now b k flags info func rows in
  table_ok (rep_rows _ rep) ∧ all_cells (rep_rows _ rep) ∧ Forall E (rep_events _ rep) ∧
  O (rep_rc _ rep) (rep_out _ rep).
Proof.
  intros full Hacc Hnew Hf Hmiss Hok Hall. pose proof (doColOp_spec now b k flags info func rows) as Hs.
  pose proof (doColOp_missing now b k flags info func rows) as Hm. cbv zeta in *.
  set (c := default (new_cell now) (find_cell b k rows)) in *.
  assert (Hc : P full (K2 k) c).
  { subst c. destruct (find_cell b k rows) eqn:Hc; simpl; [by eapply find_cell_all|done]. }
  set (row := if bool_decide _ then _ else _) in Hs.
  set (existed := bool_decide (is_Some (find_cell b k rows))) in *.
  specialize (Hf row c existed Hc). clearbody row.
  destruct (func row c existed) as [[[rc c1] evs] out]. destruct Hf as (Hc1 & He & Ho & Ht).
  destruct (decide (existed = true ∨ PoolBehavior.has flags LambdaFlags.CREATE_IF_MISSING = true))
    as [Hex|Hex].
  - destruct (PoolBehavior.has flags LambdaFlags.TRIGGER_DEPENDENCIES) eqn:Htr.
    + specialize (Ht eq_refl (setCol (K2 k) c1 (row_or_new b k rows))).
      pose proof (dispatch_once (setCol (K2 k) c1 (row_or_new b k rows)) k c1) as Hd.
      destruct (dispatchCallbacksAndNotifications _ k c1) as [c2 evs2]. destruct Hd as [-> _].
      destruct Ht as [Hcl He2]. destruct (Hs Hex) as (-> & -> & -> & -> & _).
      split_and!; [by apply set_cell_ok|apply set_cell_all; auto|by apply Forall_app|done].
    + destruct (Hs Hex) as (-> & -> & -> & -> & _). rewrite app_nil_r.
      split_and!; [by apply set_cell_ok|apply set_cell_all; auto|done..].
  - apply Decidable.not_or in Hex as [He1 He2]. apply not_true_is_false in He1, He2.
    apply bool_decide_eq_false, eq_None_not_Some in He1.
    destruct (Hm He1 He2) as (-> & _ & -> & -> & ->). split_and!; [done..|by apply Forall_nil|done].
Qed.

Lemma lkv_drop_all now b k rows rc rows' :
  (∀ full name c, P full name c → P full name (set_drop_requested c)) →
  table_ok rows → all_cells rows → lkv_drop now b k rows = Ok (rc, rows') →
  table_ok rows' ∧ all_cells rows'.
Proof.
  intros Hdrop Hok Hall Hd. split; [by eapply lkv_drop_ok|].
  intros full row name c Hl Hc.
  destruct (lkv_drop_shrinks _ _ _ _ _ _ Hok Hd _ _ _ _ Hl Hc) as (row0 & c0 & Hl0 & Hc0 & [->| ->]);
    eauto.
Qed.
End cells.

(** * Who holds what for which key

    The proof tags what moves through the world with the cell (row and column of the store) it is
    for: the ops by the part they play, and the registered memory by what it is for. *)

Section world.
Context {D : Type} {LO : LdoOps D} {RD : Rdma D} {I : Type} {IO : IomBase I D} {IL : IomLaws I D}.
Context (packed_size : ObjectCapacities → Z).
Context (compute : str → str → Bucket.t → Key → gmap Key D → rc_t * D).
Abbreviation table := (gmap str (LocalKVRow D)).
Abbreviation cell := (str * str)%type.
Abbreviation op_ref := (NodeID.t * Z)%type.

(** The bucket of the pool, and which objects may be published in which cell. *)
Context (bkt : Bucket.t) (good : cell → D → Prop).

Definition cell_of (k : Key) : cell := (makeRowname bkt k, K2 k).

Inductive role :=
| RPublishOrigin
| RPublishTarget
| RBoundedOrigin (c : cell) (l : handle)
| RBoundedTarget (c : cell) (o : op_ref)
| RUnboundedOrigin (c : cell)
| RUnboundedTarget (c : cell)
| RDrop.

(** A published object, or a place where an object of that size will arrive. *)
Inductive mem_role := Source (d : D) | Landing (c : cell) (size : Z).

Record tags := mkTags {
  t_op : gmap op_ref role;
  t_land : gmap op_ref handle;
  t_mem : gmap handle mem_role }.
Implicit Types G : tags.

Definition tags_le G G' : Prop := t_op G ⊆ t_op G' ∧ t_land G ⊆ t_land G' ∧ t_mem G ⊆ t_mem G'.
Infix "⊑" := tags_le (at level 70).

#[local] Instance tags_le_refl : Reflexive tags_le.
Proof. by intros G. Qed.

Lemma op_le G G' o r : G ⊑ G' → t_op G !! o = Some r → t_op G' !! o = Some r.
Proof. intros (Ho & _) Hl. by eapply lookup_weaken. Qed.
Lemma land_le G G' o l : G ⊑ G' → t_land G !! o = Some l → t_land G' !! o = Some l.
Proof. intros (_ & Ho & _) Hl. by eapply lookup_weaken. Qed.
Lemma mem_le G G' l r : G ⊑ G' → t_mem G !! l = Some r → t_mem G' !! l = Some r.
Proof. intros (_ & _ & Ho) Hl. by eapply lookup_weaken. Qed.
#[local] Hint Resolve op_le land_le mem_le : tags.

(** An op that waits in a cell, and an object offered to an op. *)
Definition waits_in G (o : op_ref) (c : cell) : Prop :=
  ∃ r, t_op G !! o = Some r ∧
    match r with RBoundedTarget c' _ | RUnboundedTarget c' => c' = c | _ => True end.
Definition offer_ok G (o : op_ref) (d : D) : Prop :=
  ∃ r, t_op G !! o = Some r ∧
    match r with RBoundedTarget c _ | RUnboundedTarget c => good c d | _ => True end.

Lemma waits_in_offer G o c d : waits_in G o c → good c d → offer_ok G o d.
Proof. intros (r & Hr & Hc) Hd. exists r. split; [done|]. by destruct r; subst. Qed.

(** The store of a node. *)
Definition cell_ok G (n : NodeID.t) (full name : str) (c : LocalKVCell D) : Prop :=
  (availability c = InLocalMemory → good (full, name) (ldo c)) ∧
  ∀ mb, mb ∈ waiting_ops_list c → waits_in G (n, mb) (full, name).

Definition event_ok G (n : NodeID.t) (ev : event D) : Prop :=
  match ev with
  | EvCallback _ k d _ | EvBackburner _ k d _ => good (cell_of k) d
  | EvTrigger mb (Some (d, _)) => offer_ok G (n, mb) d
  | EvTrigger _ None => True
  end.

Definition store_ok G (n : NodeID.t) (rows : table) : Prop :=
  table_ok rows ∧ all_cells (cell_ok G n) rows.

Definition iom_ok (i : I) : Prop :=
  ∀ b k d, iom_ReadObject i b k = (KELPIE_OK, d) → good (makeRowname b k, K2 k) d.
Definition ioms_ok (ioms : gmap Z I) : Prop := map_Forall (λ _ i, iom_ok i) ioms.

Lemma iom_write_ok i k d :
  iom_ok i → good (cell_of k) d → iom_ok (iom_WriteObject i bkt k d).2.
Proof. intros Hi Hd b' k' d' [(-> & -> & ->)|?]%iom_read_written; [done|by eapply Hi]. Qed.

Lemma cell_ok_accessed G n full name m c :
  cell_ok G n full name c → cell_ok G n full name (set_accessed m c).
Proof. done. Qed.

Lemma cell_ok_new G n full name m : cell_ok G n full name (new_cell m).
Proof. split; [done|]. intros mb Hmb. cbn in Hmb. set_solver. Qed.

Lemma dispatch_events_ok G n r k c :
  cell_ok G n (makeRowname bkt k) (K2 k) c → availability c = InLocalMemory →
  cell_ok G n (makeRowname bkt k) (K2 k) (clear_dependencies c) ∧
  Forall (event_ok G n) (dispatchCallbacksAndNotifications r k c).2.
Proof.
  intros [Hg Hw] Ha. specialize (Hg Ha). split.
  { split; [done|]. intros mb Hmb. cbn in Hmb. set_solver. }
  unfold dispatchCallbacksAndNotifications. destruct (_ && _); [by apply Forall_nil|].
  cbn [snd]. apply Forall_app. split.
  - assert (Hm : Forall (λ mb, waits_in G (n, mb) (cell_of k)) (mailboxes (waiting_ops_list c))).
    { apply Forall_forall. intros mb Hmb%elem_of_mailboxes. by apply Hw. }
    destruct (mailboxes _) as [|mb l]; [by apply Forall_nil|]. apply Forall_cons in Hm as [Hmb _].
    apply Forall_cons. split; [by eapply waits_in_offer|].
    apply Forall_forall. by intros ev (mb' & -> & _)%list_elem_of_fmap.
  - apply Forall_forall. by intros ev (cb & -> & _)%list_elem_of_fmap.
Qed.

(** The requests keep the store. *)
Lemma put_ok G n now k d flags iom info rows rep iom' :
  store_ok G n rows → good (cell_of k) d → (∀ i, iom = Some i → iom_ok i) →
  put now bkt k d flags iom info rows = Ok (rep, iom') →
  store_ok G n (rep_rows _ rep) ∧ Forall (event_ok G n) (rep_events _ rep) ∧
  (∀ i, iom' = Some i → iom_ok i).
Proof.
  intros [Hok Hall] Hd Hi Hp. unfold put in Hp. unbind.
  destruct (put_iom _ _ _ _ _ _) as [rc i'] eqn:Hio. simplify_eq/=.
  destruct (doColOp_all (cell_ok G n) (event_ok G n) (λ _ _, True) now bkt k (put_lambda_flags flags) info
    (put_func now d flags) rows) as (H1 & H2 & H3 & _); [done|apply cell_ok_new| |done..|].
  - intros row c existed Hc. rewrite put_func_cell.
    pose proof (put_cell_deps now d flags c) as (Hw & _ & Ha).
    assert (Hc' : cell_ok G n (makeRowname bkt k) (K2 k) (put_cell now d flags c).2).
    { split; [|rewrite Hw; apply Hc]. intros _. unfold put_cell in *.
      destruct (bool_decide _ && _) eqn:Hb; [|done].
      apply andb_true_iff in Hb as [?%bool_decide_eq_true _]. by apply Hc. }
    split_and!; [done|by apply Forall_nil|done|]. intros _ r. by apply dispatch_events_ok.
  - split; [by split|]. split; [done|]. intros i ->. unfold put_iom in Hio.
    destruct (PoolBehavior.has _ _); [|simplify_eq; by apply Hi].
    destruct iom as [i0|]; [|done]. pose proof (iom_write_ok i0 k d (Hi _ eq_refl) Hd) as Hw.
    destruct (iom_WriteObject i0 bkt k d). by simplify_eq/=.
Qed.

Lemma getForOp_ok G n now k mb flags h find info rows rep :
  store_ok G n rows → waits_in G (n, mb) (cell_of k) → (∀ h i, find h = Some i → iom_ok i) →
  getForOp now bkt k mb flags h find info rows = Ok rep →
  store_ok G n (rep_rows _ rep) ∧ Forall (event_ok G n) (rep_events _ rep) ∧
  (rep_rc _ rep = KELPIE_OK → good (cell_of k) (default ldo_null (mjoin (rep_out _ rep)))).
Proof.
  intros [Hok Hall] Hw Hi Hp. unfold getForOp in Hp. unbind. subst.
  destruct (doColOp_all (cell_ok G n) (event_ok G n)
    (λ rc out, rc = KELPIE_OK → good (cell_of k) (default ldo_null (mjoin out))) now bkt k
    LambdaFlags.CREATE_IF_MISSING info
    (getForOp_func now bkt k mb flags h find) rows) as (H1 & H2 & H3 & H4);
    [done|apply cell_ok_new| |done..|by split_and!].
  intros row c existed Hc.
  assert (Hadd : cell_ok G n (makeRowname bkt k) (K2 k) (appendWaitingList mb c)).
  { split; [apply Hc|]. intros mb' Hmb. cbn in Hmb. apply elem_of_union in Hmb as [Hmb|Hmb].
    - apply elem_of_singleton in Hmb as ->. done.
    - by apply Hc. }
  unfold getForOp_func. case_bool_decide as Ha.
  { split_and!; [done|by apply Forall_nil|intros _; by apply Hc|done]. }
  destruct (h =? 0)%Z; [by split_and!; [|apply Forall_nil| |]|].
  destruct (find h) as [i|] eqn:Hf; [|by split_and!; [|apply Forall_nil| |]].
  destruct (iom_ReadObject i bkt k) as [rc d] eqn:Hr.
  destruct (Z.eqb_spec rc KELPIE_OK) as [->|Hne].
  - specialize (Hi _ _ Hf _ _ _ Hr). split_and!; [|by apply Forall_nil|done|done].
    destruct (PoolBehavior.has _ _); [split; [done|apply Hc]|split; [done|apply Hc]].
  - split_and!; [done|by apply Forall_nil|done|done].
Qed.
Lemma wantLocal_ok G n now k fetch cb rows rep :
  store_ok G n rows → wantLocal now bkt k fetch cb rows = Ok rep →
  store_ok G n (rep_rows _ rep) ∧ Forall (event_ok G n) (rep_events _ rep).
Proof.
  intros [Hok Hall] Hp. unfold wantLocal in Hp. unbind. subst.
  destruct (doColOp_all (cell_ok G n) (event_ok G n) (λ _ _, True) now bkt k
    LambdaFlags.CREATE_IF_MISSING None (wantLocal_func k fetch cb) rows) as (H1 & H2 & H3 & _);
    [done|apply cell_ok_new| |done..|by split_and!].
  intros row c existed Hc. unfold wantLocal_func. case_bool_decide as Ha.
  - split_and!; [done| |done|done]. destruct cb; [|by apply Forall_nil].
    apply Forall_singleton. by apply Hc.
  - assert (Hd : ∀ a, a ≠ InLocalMemory →
      cell_ok G n (makeRowname bkt k) (K2 k)
        (set_availability (match cb with Some cb => appendCallbackList cb c | None => c end) a)).
    { intros a Ha'. destruct cb; (split; [done|]); apply Hc. }
    assert (Hk : cell_ok G n (makeRowname bkt k) (K2 k)
        (match cb with Some cb => appendCallbackList cb c | None => c end)) by (by destruct cb).
    cbv zeta. destruct (fetch && _); (split_and!; [|by apply Forall_nil|done|done]); [by apply Hd|done].
Qed.

Lemma get_ok G n now k info rows rep :
  store_ok G n rows → get now bkt k info rows = Ok rep →
  store_ok G n (rep_rows _ rep) ∧ Forall (event_ok G n) (rep_events _ rep) ∧
  (rep_rc _ rep = KELPIE_OK → good (cell_of k) (default ldo_null (mjoin (rep_out _ rep)))).
Proof.
  intros [Hok Hall] Hp. unfold get in Hp. unbind. subst.
  destruct (doColOp_all (cell_ok G n) (event_ok G n)
    (λ rc out, rc = KELPIE_OK → good (cell_of k) (default ldo_null (mjoin out))) now bkt k
    LambdaFlags.DONT_CREATE_OR_TRIGGER info get_func rows) as (H1 & H2 & H3 & H4);
    [done|apply cell_ok_new| |done..|by split_and!].
  intros row c existed Hc. unfold get_func. case_bool_decide as Ha.
  - split_and!; [done|by apply Forall_nil|intros _; by apply Hc|done].
  - split_and!; [done|by apply Forall_nil|done|done].
Qed.

Lemma getInfo_ok G n now b k info rows :
  store_ok G n rows →
  let rep := getInfo now b k info rows in
  store_ok G n (rep_rows _ rep) ∧ Forall (event_ok G n) (rep_events _ rep).
Proof.
  intros [Hok Hall].
  destruct (doColOp_all (cell_ok G n) (event_ok G n) (λ _ _, True) now b k
    LambdaFlags.DONT_CREATE_OR_TRIGGER info getInfo_func rows) as (H1 & H2 & H3 & _);
    [done|apply cell_ok_new| |done..|].
  - intros row c existed Hc. unfold getInfo_func.
    case_bool_decide; (split_and!; [done|by apply Forall_nil|done|done]).
  - unfold getInfo. cbv zeta. by repeat case_match; split_and!.
Qed.

Lemma drop_ok G n now b k rows rc rows' :
  store_ok G n rows → lkv_drop now b k rows = Ok (rc, rows') → store_ok G n rows'.
Proof. intros [Hok Hall] Hd. by eapply lkv_drop_all. Qed.

Lemma waits_in_le G G' o c : G ⊑ G' → waits_in G o c → waits_in G' o c.
Proof. intros Hle (r & Hr & Hc). exists r. eauto 9 with tags. Qed.
Lemma offer_ok_le G G' o d : G ⊑ G' → offer_ok G o d → offer_ok G' o d.
Proof. intros Hle (r & Hr & Hc). exists r. eauto 9 with tags. Qed.
#[local] Hint Resolve waits_in_le offer_ok_le : tags.

Lemma store_ok_le G G' n rows : G ⊑ G' → store_ok G n rows → store_ok G' n rows.
Proof.
  intros Hle [Hok Hall]. split; [done|]. intros full row name c Hr Hn.
  destruct (Hall _ _ _ _ Hr Hn) as [Hg Hw]. split; eauto 9 with tags.
Qed.

Lemma events_ok_le G G' n evs :
  G ⊑ G' → Forall (event_ok G n) evs → Forall (event_ok G' n) evs.
Proof.
  intros Hle Hf. eapply Forall_impl; [exact Hf|].
  intros [| |mb [[]|]]; cbn [event_ok]; eauto 9 with tags.
Qed.

(** * Messages, transfers and ops *)

(** The memory of the transfers holds what it is tagged with. *)
Definition mem_ok G (mem : gmap handle D) : Prop :=
  ∀ l t, t_mem G !! l = Some t → l ≠ no_buffer ∧
    match t with
    | Source d => mem !! l = Some d
    | Landing _ size => ∃ d, mem !! l = Some d ∧ ldo_user_size d = size
    end.

(** The object has arrived. *)
Definition landed G (mem : gmap handle D) (l : handle) : Prop :=
  ∃ c size d, t_mem G !! l = Some (Landing c size) ∧ mem !! l = Some d ∧ good c d.

(** A handle a transfer may read from: what is there is for the cell. *)
Definition source_ok G (nbr : handle) (c : cell) (size : Z) : Prop :=
  nbr = no_buffer ∨ ∃ d, t_mem G !! nbr = Some (Source d) ∧ good c d ∧ ldo_user_size d = size.

(** All the objects of a cell have the size that a bounded want expects. *)
Definition sized (c : cell) (size : Z) : Prop := ∀ d, good c d → ldo_user_size d = size.

(** A bounded get: the op at its origin, and the place it has made for the object. *)
Definition bounded_origin G (o : op_ref) (c : cell) (l : handle) : Prop :=
  t_op G !! o = Some (RBoundedOrigin c l) ∧
  ∃ size, t_mem G !! l = Some (Landing c size) ∧ sized c size.

Definition publish_request_ok G (m : buffer_t) : Prop :=
  mb_bucket m = bkt ∧ in_width 32 (mb_meta_plus_data_size m) ∧
  ∃ k, ExtractKeyBuffer m = Ok k ∧
    source_ok G (mb_net_buffer_remote m) (cell_of k) (mb_meta_plus_data_size m).
Definition bounded_request_ok G (o : op_ref) (c : cell) (m : buffer_t) : Prop :=
  mb_bucket m = bkt ∧ src_mailbox (mb_hdr m) = o.2 ∧
  ∃ k, ExtractKeyBuffer m = Ok k ∧ c = cell_of k ∧ bounded_origin G o c (mb_net_buffer_remote m).
Definition unbounded_request_ok G (o : op_ref) (c : cell) (m : msg_direct_simple_t) : Prop :=
  ms_bucket m = bkt ∧ src_mailbox (ms_hdr m) = o.2 ∧
  ∃ k, ExtractKeySimple m = Ok k ∧ c = cell_of k ∧ t_op G !! o = Some (RUnboundedOrigin c).
Definition drop_request_ok G (o : op_ref) (m : msg_direct_simple_t) : Prop :=
  src_mailbox (ms_hdr m) = MAILBOX_UNSPECIFIED ∨
  src_mailbox (ms_hdr m) = o.2 ∧ o.2 ≠ 0%Z ∧ t_op G !! o = Some RDrop.

(** A message that starts an op. *)
Definition request_ok G (from : NodeID.t) (m : message) : Prop :=
  match m with
  | MsgBuffer m =>
      op_id (mb_hdr m) = OpKelpiePublish_id ∧ publish_request_ok G m ∧
        src_mailbox (mb_hdr m) ≠ 0%Z ∧
        t_op G !! (from, src_mailbox (mb_hdr m)) = Some RPublishOrigin ∨
      op_id (mb_hdr m) = OpKelpieGetBounded_id ∧ src_mailbox (mb_hdr m) ≠ 0%Z ∧
        ∃ c, bounded_request_ok G (from, src_mailbox (mb_hdr m)) c m
  | MsgSimple m =>
      op_id (ms_hdr m) = OpKelpieGetUnbounded_id ∧ src_mailbox (ms_hdr m) ≠ 0%Z ∧
        (∃ c, unbounded_request_ok G (from, src_mailbox (ms_hdr m)) c m) ∨
      op_id (ms_hdr m) = OpKelpieDrop_id ∧ drop_request_ok G (from, src_mailbox (ms_hdr m)) m
  | _ => False
  end.

(** A message for an op that waits for it. *)
Definition reply_ok G mem (from : NodeID.t) (o : op_ref) (m : message) : Prop :=
  match m with
  | MsgBuffer m =>
      in_width 32 (mb_meta_plus_data_size m) ∧ src_mailbox (mb_hdr m) ≠ 0%Z ∧
      (∃ c', t_op G !! (from, src_mailbox (mb_hdr m)) = Some (RUnboundedTarget c')) ∧
      ∃ c, t_op G !! o = Some (RUnboundedOrigin c) ∧
        source_ok G (mb_net_buffer_remote m) c (mb_meta_plus_data_size m)
  | MsgStatus m =>
      ∃ r, t_op G !! o = Some r ∧
        match r with
        | RBoundedOrigin _ l => DirectFlags.Success (mt_hdr m) = true → landed G mem l
        | _ => True
        end
  | _ => False
  end.

Definition message_ok G mem (from to : NodeID.t) (m : message) : Prop :=
  if (dst_mailbox (msg_hdr m) =? MAILBOX_UNSPECIFIED)%Z then request_ok G from m
  else reply_ok G mem from (to, dst_mailbox (msg_hdr m)) m.

(** A request at the op it has started. *)
Definition started_ok G (o : op_ref) (from : NodeID.t) (m : message) : Prop :=
  match m with
  | MsgBuffer m =>
      t_op G !! o = Some RPublishTarget ∧ publish_request_ok G m ∧
        src_mailbox (mb_hdr m) ≠ 0%Z ∧
        t_op G !! (from, src_mailbox (mb_hdr m)) = Some RPublishOrigin ∨
      src_mailbox (mb_hdr m) ≠ 0%Z ∧
        ∃ c, t_op G !! o = Some (RBoundedTarget c (from, src_mailbox (mb_hdr m))) ∧
          bounded_request_ok G (from, src_mailbox (mb_hdr m)) c m
  | MsgSimple m =>
      src_mailbox (ms_hdr m) ≠ 0%Z ∧
        (∃ c, t_op G !! o = Some (RUnboundedTarget c) ∧
           unbounded_request_ok G (from, src_mailbox (ms_hdr m)) c m) ∨
      t_op G !! o = Some RDrop ∧ drop_request_ok G (from, src_mailbox (ms_hdr m)) m
  | _ => False
  end.

Definition op_ok G (n : NodeID.t) (mb : Z) (op : kelpie_op (D := D)) : Prop :=
  let o := (n, mb) in
  match op with
  | KPublish (orig_pub_send _ m _ _) =>
      t_op G !! o = Some RPublishOrigin ∧ dst_mailbox (mb_hdr m) = 0%Z ∧ request_ok G n (MsgBuffer m)
  | KPublish trgt_pub_start => t_op G !! o = Some RPublishTarget ∧ t_land G !! o = None
  | KPublish (trgt_pub_wait_for_rdma peer b k _ _ ack l) =>
      t_op G !! o = Some RPublishTarget ∧ b = bkt ∧ t_land G !! o = Some l ∧
      (∃ size, t_mem G !! l = Some (Landing (cell_of k) size)) ∧
      dst_mailbox (mt_hdr ack) ≠ 0%Z ∧
      t_op G !! (peer, dst_mailbox (mt_hdr ack)) = Some RPublishOrigin
  | KPublish (orig_pub_wait_for_ack _ _) => t_op G !! o = Some RPublishOrigin
  | KGetBounded (orig_getbounded_send _ m key l _) =>
      bounded_origin G o (cell_of key) l ∧ dst_mailbox (mb_hdr m) = 0%Z ∧ request_ok G n (MsgBuffer m)
  | KGetBounded trgt_getbounded_start => ∃ c oo, t_op G !! o = Some (RBoundedTarget c oo)
  | KGetBounded (trgt_getbounded_wait_for_data peer nbr ack) =>
      dst_mailbox (mt_hdr ack) ≠ 0%Z ∧
      ∃ c, t_op G !! o = Some (RBoundedTarget c (peer, dst_mailbox (mt_hdr ack))) ∧
        bounded_origin G (peer, dst_mailbox (mt_hdr ack)) c nbr
  | KGetBounded (trgt_getbounded_wait_for_rdma peer ack _) =>
      dst_mailbox (mt_hdr ack) ≠ 0%Z ∧
      ∃ c l, t_op G !! o = Some (RBoundedTarget c (peer, dst_mailbox (mt_hdr ack))) ∧
        bounded_origin G (peer, dst_mailbox (mt_hdr ack)) c l
  | KGetBounded (orig_getbounded_wait_for_ack key l _) => bounded_origin G o (cell_of key) l
  | KGetUnbounded (orig_getunbounded_send _ m key _) =>
      t_op G !! o = Some (RUnboundedOrigin (cell_of key)) ∧ t_land G !! o = None ∧
      dst_mailbox (ms_hdr m) = 0%Z ∧ request_ok G n (MsgSimple m)
  | KGetUnbounded trgt_getunbounded_start => ∃ c, t_op G !! o = Some (RUnboundedTarget c)
  | KGetUnbounded (trgt_getunbounded_wait_for_data peer m) =>
      dst_mailbox (mb_hdr m) ≠ 0%Z ∧ src_mailbox (mb_hdr m) = mb ∧
      ∃ c, t_op G !! o = Some (RUnboundedTarget c) ∧
        t_op G !! (peer, dst_mailbox (mb_hdr m)) = Some (RUnboundedOrigin c)
  | KGetUnbounded (orig_getunbounded_wait_for_info key _) =>
      t_op G !! o = Some (RUnboundedOrigin (cell_of key)) ∧ t_land G !! o = None
  | KGetUnbounded (orig_getunbounded_wait_for_rdma peer key _ ack l) =>
      t_op G !! o = Some (RUnboundedOrigin (cell_of key)) ∧ t_land G !! o = Some l ∧
      (∃ size, t_mem G !! l = Some (Landing (cell_of key) size)) ∧
      dst_mailbox (mt_hdr ack) ≠ 0%Z ∧
      ∃ c, t_op G !! (peer, dst_mailbox (mt_hdr ack)) = Some (RUnboundedTarget c)
  | KGetUnbounded (trgt_getunbounded_wait_for_ack _) => ∃ c, t_op G !! o = Some (RUnboundedTarget c)
  | KDrop _ => t_op G !! o = Some RDrop
  | _ => False
  end.

Definition args_ok G mem (n : NodeID.t) (mb : Z) (a : op_args (D := D)) : Prop :=
  let o := (n, mb) in
  match a with
  | AUpdate OpBox.start => True
  | AUpdate get_success => ∃ l, t_land G !! o = Some l ∧ landed G mem l
  | AUpdate put_success =>
      ∃ c oo l, t_op G !! o = Some (RBoundedTarget c oo) ∧ t_op G !! oo = Some (RBoundedOrigin c l) ∧
        landed G mem l
  | AUpdate _ => False
  | AObjectAvailable d _ => offer_ok G o d
  | AMessage from m =>
      if (dst_mailbox (msg_hdr m) =? MAILBOX_UNSPECIFIED)%Z then started_ok G o from m
      else dst_mailbox (msg_hdr m) = mb ∧ reply_ok G mem from o m
  end.

Definition get_ok_at G (n : NodeID.t) (mb : Z) (nbr l : handle) : Prop :=
  t_land G !! (n, mb) = Some l ∧
  ∃ c size, t_mem G !! l = Some (Landing c size) ∧ source_ok G nbr c size.
Definition put_ok_at G (n : NodeID.t) (mb : Z) (d : D) (nbr : handle) : Prop :=
  ∃ c oo, t_op G !! (n, mb) = Some (RBoundedTarget c oo) ∧
    t_op G !! oo = Some (RBoundedOrigin c nbr) ∧ good c d ∧
    t_mem G !! nbr = Some (Landing c (ldo_user_size d)).

Definition effect_ok G mem (n : NodeID.t) (mb : Z) (x : effect (D := D)) : Prop :=
  match x with
  | ESend to m => message_ok G mem n to m
  | EGet _ nbr l => get_ok_at G n mb nbr l
  | EPut _ d nbr => put_ok_at G n mb d nbr
  | EStore evs => Forall (event_ok G n) evs
  | ECallGet _ success key d => success = true → good (cell_of key) d
  | _ => True
  end.

(** The objects an update makes. *)
Definition new_objects (xs : list (effect (D := D))) (mem : gmap handle D) : gmap handle D :=
  foldl (λ m x, match x with ENew l d => <[l := d]> m | _ => m end) mem xs.

(** ** More tags keep what is well tagged *)

Lemma landed_le G G' (mem mem' : gmap handle D) l :
  G ⊑ G' → mem ⊆ mem' → landed G mem l → landed G' mem' l.
Proof.
  intros Hle Hm (c & size & d & Ht & Hd & Hg). exists c, size, d.
  split_and!; [eauto 9 with tags|by eapply lookup_weaken|done].
Qed.

Lemma source_ok_le G G' nbr c size : G ⊑ G' → source_ok G nbr c size → source_ok G' nbr c size.
Proof. intros Hle [->|(d & Ht & Hg)]; [by left|]. right. exists d. eauto 9 with tags. Qed.

Lemma bounded_origin_le G G' o c l : G ⊑ G' → bounded_origin G o c l → bounded_origin G' o c l.
Proof. intros Hle (Ho & size & Hm & Hs). split; [eauto 9 with tags|]. exists size. eauto 9 with tags. Qed.
#[local] Hint Resolve landed_le source_ok_le bounded_origin_le : tags.

Lemma publish_request_le G G' m : G ⊑ G' → publish_request_ok G m → publish_request_ok G' m.
Proof. intros Hle (? & ? & k & ? & ?). split_and!; [done..|]. exists k. eauto 9 with tags. Qed.
Lemma bounded_request_le G G' o c m :
  G ⊑ G' → bounded_request_ok G o c m → bounded_request_ok G' o c m.
Proof. intros Hle (? & ? & k & ? & ? & ?). split_and!; [done..|]. exists k. eauto 9 with tags. Qed.
Lemma unbounded_request_le G G' o c m :
  G ⊑ G' → unbounded_request_ok G o c m → unbounded_request_ok G' o c m.
Proof. intros Hle (? & ? & k & ? & ? & ?). split_and!; [done..|]. exists k. eauto 9 with tags. Qed.
Lemma drop_request_le G G' o m : G ⊑ G' → drop_request_ok G o m → drop_request_ok G' o m.
Proof. intros Hle [?|(? & ? & ?)]; [by left|right; eauto 9 with tags]. Qed.
#[local] Hint Resolve publish_request_le bounded_request_le unbounded_request_le drop_request_le : tags.

Lemma request_ok_le G G' from m : G ⊑ G' → request_ok G from m → request_ok G' from m.
Proof.
  intros Hle. destruct m as [m|m|m|]; cbn [request_ok]; [| |done..].
  - intros [(? & ? & c & ?)|(? & ?)]; [left|right; eauto 9 with tags].
    split_and!; [done..|]. exists c. eauto 9 with tags.
  - intros [(? & ? & ? & ?)|(? & ? & c & ?)]; [left; eauto 9 with tags|right].
    split_and!; [done..|]. exists c. eauto 9 with tags.
Qed.

Lemma reply_ok_le G G' mem mem' from o m :
  G ⊑ G' → (∀ l, landed G mem l → landed G' mem' l) → reply_ok G mem from o m → reply_ok G' mem' from o m.
Proof.
  intros Hle Hm. destruct m as [m|m|m|]; cbn [reply_ok]; [done| | |done].
  - intros (? & ? & [c' ?] & c & ? & ?). split_and!; [done..|exists c'|exists c]; eauto 9 with tags.
  - intros (r & ? & Hr). exists r. split; [eauto 9 with tags|]. destruct r; eauto 9 with tags.
Qed.

Lemma message_ok_le G G' mem mem' from to m :
  G ⊑ G' → (∀ l, landed G mem l → landed G' mem' l) → message_ok G mem from to m → message_ok G' mem' from to m.
Proof.
  intros Hle Hm. unfold message_ok. destruct (_ =? _)%Z; [by apply request_ok_le|by apply reply_ok_le].
Qed.

Lemma started_ok_le G G' o from m : G ⊑ G' → started_ok G o from m → started_ok G' o from m.
Proof.
  intros Hle. destruct m as [m|m|m|]; cbn [started_ok]; [| |done..].
  - intros [(? & c & ? & ?)|(? & ?)]; [left|right; eauto 9 with tags].
    split_and!; [done..|]. exists c. eauto 9 with tags.
  - intros [(? & ? & ? & ?)|(? & c & ? & ?)]; [left; eauto 9 with tags|right].
    split_and!; [done..|]. exists c. eauto 9 with tags.
Qed.

Lemma args_ok_le G G' mem mem' n mb a :
  G ⊑ G' → (∀ l, landed G mem l → landed G' mem' l) → args_ok G mem n mb a → args_ok G' mem' n mb a.
Proof.
  intros Hle Hm. destruct a as [t|from m|d i]; cbn [args_ok].
  - destruct t; try done.
    + intros (l & ? & ?). exists l. eauto 9 with tags.
    + intros (c & oo & l & ? & ? & ?). exists c, oo, l. eauto 9 with tags.
  - destruct (_ =? _)%Z; [by apply started_ok_le|]. intros [? ?]. split; [done|by eapply reply_ok_le].
  - eauto 9 with tags.
Qed.

Lemma get_ok_at_le G G' n mb nbr l : G ⊑ G' → get_ok_at G n mb nbr l → get_ok_at G' n mb nbr l.
Proof. intros Hle (? & c & size & ? & ?). split; [eauto 9 with tags|]. exists c, size. eauto 9 with tags. Qed.
Lemma put_ok_at_le G G' n mb d nbr : G ⊑ G' → put_ok_at G n mb d nbr → put_ok_at G' n mb d nbr.
Proof. intros Hle (c & oo & ? & ? & ? & ?). exists c, oo. eauto 9 with tags. Qed.

Lemma effect_ok_le G G' mem mem' n mb x :
  G ⊑ G' → (∀ l, landed G mem l → landed G' mem' l) → effect_ok G mem n mb x → effect_ok G' mem' n mb x.
Proof.
  intros Hle Hm. destruct x; cbn [effect_ok]; try done.
  - by apply message_ok_le.
  - by apply get_ok_at_le.
  - by apply put_ok_at_le.
  - by apply events_ok_le.
Qed.

Lemma op_ok_le G G' n mb op :
  G ⊑ G' → t_land G' !! (n, mb) = t_land G !! (n, mb) → op_ok G n mb op → op_ok G' n mb op.
Proof.
  intros Hle Hl.
  destruct op as [[]|[]|[]|s|s|s|s]; cbn [op_ok]; rewrite ?Hl; try done.
  - intros (? & ? & ?). split_and!; eauto 9 using request_ok_le with tags.
  - intros (? & ?). split_and!; eauto 9 with tags.
  - intros (? & ? & ? & [size ?] & ? & ?). split_and!; eauto 9 with tags.
  - eauto 9 with tags.
  - intros (? & ? & ?). split_and!; eauto 9 using request_ok_le with tags.
  - intros (c & oo & ?). exists c, oo. eauto 9 with tags.
  - intros (? & c & ? & ?). split; [done|]. exists c. eauto 9 with tags.
  - intros (? & c & l & ? & ?). split; [done|]. exists c, l. eauto 9 with tags.
  - eauto 9 with tags.
  - intros (? & ? & ? & ?). split_and!; eauto 9 using request_ok_le with tags.
  - intros (c & ?). exists c. eauto 9 with tags.
  - intros (? & ? & c & ? & ?). split_and!; [done..|]. exists c. eauto 9 with tags.
  - intros (? & ?). split_and!; eauto 9 with tags.
  - intros (? & ? & [size ?] & ? & c & ?). split_and!; eauto 9 with tags.
  - intros (c & ?). exists c. eauto 9 with tags.
  - eauto 9 with tags.
Qed.

(** ** Updates of ops *)

(** What an update leaves is well tagged, with a new tag for what it allocated. *)
Definition update_post G mem (n : NodeID.t) (mb : Z) (op' : kelpie_op (D := D)) (w : WaitingType)
    (s' : node_state (D := D) (I := I)) : Prop :=
  let mem' := new_objects (h_effects s') mem in
  ∃ G', G ⊑ G' ∧ t_op G' = t_op G ∧ (∀ o, o ≠ (n, mb) → t_land G' !! o = t_land G !! o) ∧
    mem ⊆ mem' ∧ mem_ok G' mem' ∧ store_ok G' n (h_rows s') ∧ ioms_ok (h_ioms s') ∧
    Forall (effect_ok G' mem' n mb) (h_effects s') ∧ (w ≠ done_and_destroy → op_ok G' n mb op').

Definition allocates (x : effect (D := D)) : bool := match x with ENew _ _ => true | _ => false end.

Lemma new_objects_app xs ys mem : new_objects (xs ++ ys) mem = new_objects ys (new_objects xs mem).
Proof. apply foldl_app. Qed.

Lemma new_objects_none xs mem : Forall (λ x, allocates x = false) xs → new_objects xs mem = mem.
Proof. induction 1 as [|x xs Hx _ IH]; [done|]. destruct x; try done; apply IH. Qed.

Section updates.
Context G (mem : gmap handle D) (n : NodeID.t) (mb : Z) (e : env (D := D)) (rows : table)
  (ioms : gmap Z I).
Context (Hmem : mem_ok G mem) (Hstore : store_ok G n rows) (Hioms : ioms_ok ioms) (Hmb : mb ≠ 0%Z)
  (Hme : me e = n) (Hbox : mailbox e = mb) (Hfree : mem !! free_loc e = None)
  (Hloc : free_loc e ≠ no_buffer) (Hread : ∀ h, memory e h = default ldo_null (mem !! h)).
Implicit Types s : node_state (D := D) (I := I).

Lemma post_same op' w s' :
  Forall (λ x, allocates x = false) (h_effects s') →
  store_ok G n (h_rows s') → ioms_ok (h_ioms s') →
  Forall (effect_ok G mem n mb) (h_effects s') →
  (w ≠ done_and_destroy → op_ok G n mb op') → update_post G mem n mb op' w s'.
Proof.
  intros Hn Hs Hi He Ho. unfold update_post. rewrite new_objects_none by done. exists G.
  by split_and!.
Qed.

Lemma fresh_tag : t_mem G !! free_loc e = None.
Proof.
  destruct (t_mem G !! free_loc e) as [t|] eqn:Ht; [|done].
  destruct (Hmem _ _ Ht) as [_ Hl]. destruct t as [d|c size].
  - congruence.
  - destruct Hl as (d & Hl & _). congruence.
Qed.

(** One more object, with its tag. *)
Definition tag_mem (l : handle) (t : mem_role) : tags :=
  mkTags (t_op G) (t_land G) (<[l := t]> (t_mem G)).
Definition tag_land (l : handle) (t : mem_role) : tags :=
  mkTags (t_op G) (<[(n, mb) := l]> (t_land G)) (<[l := t]> (t_mem G)).

Lemma mem_ok_tag G' d t :
  t_mem G' = <[free_loc e := t]> (t_mem G) →
  match t with Source d' => d = d' | Landing _ size => ldo_user_size d = size end →
  mem_ok G' (<[free_loc e := d]> mem).
Proof.
  intros Hg Ht l t' Hl. rewrite Hg in Hl. apply lookup_insert_Some in Hl as [[<- <-]|[Hne Hl]].
  - split; [done|]. rewrite lookup_insert_eq. destruct t; [by rewrite Ht|by exists d].
  - destruct (Hmem _ _ Hl) as [? Hm]. split; [done|]. by rewrite lookup_insert_ne.
Qed.

(** An update that ends with a transfer to a new object. *)
Lemma post_landing pre c size peer nbr op' w s' :
  h_effects s' = pre ++ [ENew (free_loc e) (ldo_alloc size); EGet peer nbr (free_loc e)] →
  Forall (λ x, allocates x = false) pre → Forall (effect_ok G mem n mb) pre →
  t_land G !! (n, mb) = None → in_width 32 size → source_ok G nbr c size →
  store_ok G n (h_rows s') → ioms_ok (h_ioms s') →
  (∀ x, x ∈ pre → ∃ evs, x = EStore evs) →
  (let G' := tag_land (free_loc e) (Landing c size) in G ⊑ G' → op_ok G' n mb op') →
  update_post G mem n mb op' w s'.
Proof.
  intros He Hna Hpre Hl Hsz Hsrc Hs Hi Hst Hop. unfold update_post.
  rewrite He, new_objects_app, (new_objects_none pre) by done. cbn [new_objects foldl].
  set (G' := tag_land (free_loc e) (Landing c size)).
  assert (Hle : G ⊑ G').
  { split_and!; [done|by apply insert_subseteq|apply insert_subseteq, fresh_tag]. }
  exists G'. split_and!; [done|done| |by apply insert_subseteq| | |done| |intros _; by apply Hop].
  - intros o Ho. by apply lookup_insert_ne.
  - eapply mem_ok_tag; [done|]. by apply ldo_alloc_size.
  - by eapply store_ok_le.
  - apply Forall_app. split.
    + apply Forall_forall. intros x Hx. destruct (Hst _ Hx) as [evs ->].
      rewrite Forall_forall in Hpre. specialize (Hpre _ Hx). by eapply events_ok_le.
    + apply Forall_cons. split; [done|]. apply Forall_singleton. split; [apply lookup_insert_eq|].
      exists c, size. split; [apply lookup_insert_eq|by eapply source_ok_le].
Qed.

(** An update that registers an object and announces it. *)
Lemma post_source pre d to m op' w s' :
  h_effects s' = pre ++ [ENew (free_loc e) d; ESend to m] →
  Forall (λ x, allocates x = false) pre → Forall (effect_ok G mem n mb) pre →
  (∀ x, x ∈ pre → ∃ evs, x = EStore evs) →
  store_ok G n (h_rows s') → ioms_ok (h_ioms s') →
  (let G' := tag_mem (free_loc e) (Source d) in G ⊑ G' →
   message_ok G' (<[free_loc e := d]> mem) n to m ∧ op_ok G' n mb op') →
  update_post G mem n mb op' w s'.
Proof.
  intros He Hna Hpre Hst Hs Hi Hop. unfold update_post.
  rewrite He, new_objects_app, (new_objects_none pre) by done. cbn [new_objects foldl].
  set (G' := tag_mem (free_loc e) (Source d)).
  assert (Hle : G ⊑ G').
  { split_and!; [done|done|apply insert_subseteq, fresh_tag]. }
  destruct (Hop Hle) as [Hmsg Hop'].
  exists G'. split_and!; [done|done|done|by apply insert_subseteq|by eapply mem_ok_tag| |done| |done].
  - by eapply store_ok_le.
  - apply Forall_app. split.
    + apply Forall_forall. intros x Hx. destruct (Hst _ Hx) as [evs ->].
      rewrite Forall_forall in Hpre. specialize (Hpre _ Hx). by eapply events_ok_le.
    + apply Forall_cons. split; [done|]. by apply Forall_singleton.
Qed.
(** The calls on the store, in the monad. *)
Definition keeps s (s' : node_state (D := D) (I := I)) : Prop :=
  store_ok G n (h_rows s') ∧ ioms_ok (h_ioms s') ∧
  ∃ evs, h_effects s' = h_effects s ++ [EStore evs] ∧ Forall (event_ok G n) evs.

Lemma op_put_ok s k d flags h info r s' :
  store_ok G n (h_rows s) → ioms_ok (h_ioms s) → good (cell_of k) d →
  op_put e bkt k d flags h info s = Ok (r, s') → keeps s s'.
Proof.
  intros Hs Hi Hd Hp. unfold op_put in Hp. apply bind_Ok in Hp as ([rep iom'] & Hp & Hr).
  injection Hr as _ <-.
  assert (Hio : ∀ i, (h0 ← h; h_ioms s !! h0) = Some i → iom_ok i).
  { intros i Hl. destruct h as [h|]; [|done]. by apply (Hi _ _ Hl). }
  destruct (put_ok _ _ _ _ _ _ _ _ _ _ _ Hs Hd Hio Hp) as (H1 & H2 & H3).
  split; [done|]. split; [|by exists (rep_events _ rep)]. cbn [h_ioms].
  destruct h as [h|], iom' as [i|]; try done. apply map_Forall_insert_2; auto.
Qed.

Lemma put_quiet_ok s k d flags r s' :
  store_ok G n (h_rows s) → ioms_ok (h_ioms s) → good (cell_of k) d →
  put_quiet e bkt k d flags s = Ok (r, s') → keeps s s'.
Proof.
  intros Hs Hi Hd Hp. unfold put_quiet in Hp. apply bind_Ok in Hp as ([rep iom'] & Hp & Hr).
  injection Hr as _ <-.
  destruct (put_ok _ _ _ _ _ _ None _ _ _ _ Hs Hd ltac:(done) Hp) as (H1 & H2 & H3).
  split; [done|]. split; [done|by exists (rep_events _ rep)].
Qed.

Lemma op_getInfo_ok s b k info r s' :
  store_ok G n (h_rows s) → ioms_ok (h_ioms s) → op_getInfo e b k info s = Ok (r, s') → keeps s s'.
Proof.
  intros Hs Hi [= _ <-]. destruct (getInfo_ok G n (now e) b k (Some info) (h_rows s) Hs) as [H1 H2].
  split; [done|]. split; [done|]. by eexists.
Qed.

Lemma op_getForOp_ok s k flags h info rc d i s' :
  store_ok G n (h_rows s) → ioms_ok (h_ioms s) → waits_in G (n, mailbox e) (cell_of k) →
  op_getForOp e bkt k flags h info s = Ok ((rc, d, i), s') →
  keeps s s' ∧ (rc = KELPIE_OK → good (cell_of k) (default ldo_null d)).
Proof.
  intros Hs Hi Hw Hp. unfold op_getForOp in Hp. apply bind_Ok in Hp as (rep & Hp & Hr).
  injection Hr as <- <- _ <-.
  assert (Hio : ∀ h i, h_ioms s !! h = Some i → iom_ok i) by (intros h0 i0 Hl; by apply (Hi _ _ Hl)).
  destruct (getForOp_ok _ _ _ _ _ _ _ _ _ _ _ Hs Hw Hio Hp) as (H1 & H2 & H3).
  split; [|done]. split; [done|]. split; [done|]. by eexists.
Qed.

Lemma keeps_effects s s' :
  h_effects s = [] → keeps s s' →
  Forall (λ x, allocates x = false) (h_effects s') ∧ Forall (effect_ok G mem n mb) (h_effects s') ∧
  (∀ x, x ∈ h_effects s' → ∃ evs, x = EStore evs).
Proof.
  intros Hn (_ & _ & evs & He & Hev). rewrite He, Hn. cbn [app]. split_and!.
  - by apply Forall_singleton.
  - by apply Forall_singleton.
  - intros x ->%list_elem_of_singleton. by exists evs.
Qed.

Lemma landed_memory l c size :
  landed G mem l → t_mem G !! l = Some (Landing c size) → good c (memory e l).
Proof.
  intros (c' & size' & d & Ht & Hd & Hg) Hl. rewrite Hread, Hd. cbn [default from_option]. unfold id.
  congruence.
Qed.

Lemma status_reply to m :
  dst_mailbox (mt_hdr m) ≠ 0%Z →
  (∃ r, t_op G !! (to, dst_mailbox (mt_hdr m)) = Some r ∧
     match r with
     | RBoundedOrigin _ l => DirectFlags.Success (mt_hdr m) = true → landed G mem l
     | _ => True
     end) →
  message_ok G mem n to (MsgStatus m).
Proof.
  intros Hd Hr. unfold message_ok. cbn [msg_hdr].
  unfold MAILBOX_UNSPECIFIED. by rewrite (proj2 (Z.eqb_neq _ _)).
Qed.

Lemma publish_update_ok st a st' w s' :
  op_ok G n mb (KPublish st) → args_ok G mem n mb a →
  Publish_Update e st a (mkNode rows ioms []) = Ok ((st', w), s') →
  update_post G mem n mb (KPublish st') w s'.
Proof.
  intros Hop Ha Hu. destruct st as [peer m obj cb| |peer b k iom flags ack l|obj cb|]; cbn [Publish_Update] in Hu.
  - unfold smo_Publish_Send in Hu. rewrite bind_emit in Hu. injection Hu as <- <- <-.
    destruct Hop as (Ho & Hd & Hr). apply post_same; try done.
    + by apply Forall_singleton.
    + apply Forall_singleton. cbn [effect_ok]. unfold message_ok. cbn [msg_hdr]. by rewrite Hd.
  - destruct Hop as [Ho Hl]. unfold smt_Publish_Start in Hu. rewrite bind_lift in Hu.
    destruct a as [| from [|m| |]|]; try done. cbn [ExpectMessageOrDie as_buffer mbind outcome_bind] in Hu.
    rewrite bind_lift in Hu. apply bind_Ok in Hu as (k & Hk & Hu). cbv zeta in Hu.
    cbn [args_ok msg_hdr] in Ha. destruct (_ =? _)%Z.
    2:{ destruct Ha as (_ & _ & _ & _ & c & Ho' & _). congruence. }
    destruct Ha as [(_ & (Hb & Hsz & k' & Hk' & Hsrc) & Hsm & Hsrco)|(_ & c & Ho' & _)]; [|congruence].
    rewrite Hk in Hk'. injection Hk' as <-.
    assert (Hfetch : ∀ s1, h_effects s1 = [] ∨ keeps (mkNode rows ioms []) s1 →
      store_ok G n (h_rows s1) → ioms_ok (h_ioms s1) →
      Ok ((trgt_pub_wait_for_rdma from (mb_bucket m) k (mb_iom_hash m)
        (PoolBehavior.ChangeRemoteToLocal (mb_behavior_flags m)) (AllocAck (me e) (mb_hdr m)) (free_loc e),
        waiting_on_cq), add_effects [ENew (free_loc e) (ldo_alloc (mb_meta_plus_data_size m));
          EGet from (mb_net_buffer_remote m) (free_loc e)] s1) = Ok ((st', w), s') →
      update_post G mem n mb (KPublish st') w s').
    { intros s1 He Hs1 Hi1 [= <- <- <-].
      assert (Hes : Forall (λ x, allocates x = false) (h_effects s1) ∧
        Forall (effect_ok G mem n mb) (h_effects s1) ∧
        (∀ x, x ∈ h_effects s1 → ∃ evs, x = EStore evs)).
      { destruct He as [He|He]; [|by apply (keeps_effects (mkNode rows ioms []))]. rewrite He.
        split_and!; [by apply Forall_nil..|intros x []%elem_of_nil]. }
      destruct Hes as (He1 & He2 & He3).
      eapply post_landing; [done|done..|].
      intros G' Hle. split_and!; [by eapply op_le|done|apply lookup_insert_eq| |done|by eapply op_le].
      exists (mb_meta_plus_data_size m). apply lookup_insert_eq. }
    destruct (negb _).
    + apply bind_inv in Hu as ([rc info] & s1 & Hinfo & Hu).
      apply op_getInfo_ok in Hinfo; [|done..]. pose proof Hinfo as (Hs1 & Hi1 & _). cbv beta iota in Hu.
      destruct (_ && _).
      * rewrite bind_emit in Hu. injection Hu as <- <- <-.
        destruct (keeps_effects (mkNode rows ioms []) s1 eq_refl Hinfo) as (He1 & He2 & _).
        apply post_same; try done.
        -- cbn [add_effects h_effects]. apply Forall_app. split; [done|by apply Forall_singleton].
        -- cbn [add_effects h_effects]. apply Forall_app. split; [done|]. apply Forall_singleton.
           cbn [effect_ok]. apply status_reply; [done|]. by exists RPublishOrigin.
      * rewrite !bind_emit, add_effects_app in Hu. eapply Hfetch; [by right|done..].
    + rewrite !bind_emit, add_effects_app in Hu. eapply (Hfetch (mkNode rows ioms [])); [by left|done..].
  - destruct Hop as (Ho & -> & Hl & [size Hm] & Hd & Hpo). unfold smt_Publish_WaitRDMA in Hu.
    destruct (bool_decide (args_type_of a = send_success)) eqn:Hss.
    { apply bool_decide_eq_true in Hss. destruct a as [[]| |]; done. }
    rewrite bind_lift in Hu. apply bind_Ok in Hu as (? & Hv & Hu). cbv zeta in Hu.
    unfold VerifyTypeOrDie in Hv. destruct (bool_decide (args_type_of a = get_success)) eqn:Hgs; [|done].
    apply bool_decide_eq_true in Hgs. destruct a as [[]| |]; try done.
    destruct Ha as (l' & Hl' & Hland). rewrite Hl in Hl'. injection Hl' as <-.
    pose proof (landed_memory _ _ _ Hland Hm) as Hg.
    apply bind_inv in Hu as ([rc info] & s1 & Hp & Hu). apply op_put_ok in Hp; [|done..].
    destruct (keeps_effects (mkNode rows ioms []) s1 eq_refl Hp) as (He1 & He2 & _).
    destruct Hp as (Hs1 & Hi1 & _). cbv beta iota in Hu.
    apply bind_inv in Hu as ([] & s2 & Hw & Hu). rewrite bind_emit in Hu. injection Hu as <- <- <-.
    assert (Hs2 : h_rows s2 = h_rows s1 ∧ h_effects s2 = h_effects s1 ∧ ioms_ok (h_ioms s2)).
    { destruct (_ && _); [|by injection Hw as <-]. apply bind_inv in Hw as (i & s3 & [= <- <-] & Hw).
      destruct (h_ioms s1 !! iom) as [i|] eqn:Hi; [|done]. unfold iom_write in Hw. rewrite Hi in Hw.
      injection Hw as <-. split_and!; [done..|]. cbn [h_ioms]. apply map_Forall_insert_2; [|done].
      apply iom_write_ok; [by apply (Hi1 _ _ Hi)|done]. }
    destruct Hs2 as (Hr2 & Hf2 & Hi2). apply post_same; cbn [add_effects h_rows h_ioms h_effects];
      rewrite ?Hr2, ?Hf2; try done.
    + apply Forall_app. split; [done|by apply Forall_singleton].
    + apply Forall_app. split; [done|]. apply Forall_singleton. cbn [effect_ok].
      apply status_reply; [done|]. by exists RPublishOrigin.
  - unfold smo_Publish_WaitAck in Hu. rewrite bind_lift in Hu. apply bind_Ok in Hu as ([p imsg] & _ & Hu).
    cbv beta iota in Hu. destruct cb as [cb|].
    + rewrite bind_emit in Hu. injection Hu as <- <- <-.
      apply post_same; try done; by apply Forall_singleton.
    + rewrite bind_mret in Hu. injection Hu as <- <- <-. apply post_same; try done; by apply Forall_nil.
  - done.
Qed.
Lemma bounded_put_ok c oo nbr d peer :
  t_op G !! (n, mb) = Some (RBoundedTarget c oo) → bounded_origin G oo c nbr → good c d →
  effect_ok G mem n mb (EPut peer d nbr).
Proof.
  intros Ho (Hoo & size & Hm & Hsz) Hg. exists c, oo. split_and!; [done..|]. by rewrite (Hsz _ Hg).
Qed.

Lemma bounded_update_ok st a st' w s' :
  op_ok G n mb (KGetBounded st) → args_ok G mem n mb a →
  GetBounded_Update e st a (mkNode rows ioms []) = Ok ((st', w), s') →
  update_post G mem n mb (KGetBounded st') w s'.
Proof.
  intros Hop Ha Hu. destruct st as [peer m key l cb| |peer nbr ack|peer ack d|key l cb|];
    cbn [GetBounded_Update] in Hu.
  - unfold smo_GetBounded_Send in Hu. rewrite bind_emit in Hu. injection Hu as <- <- <-.
    destruct Hop as (Ho & Hd & Hr). apply post_same; try done.
    + by apply Forall_singleton.
    + apply Forall_singleton. cbn [effect_ok]. unfold message_ok. cbn [msg_hdr]. by rewrite Hd.
  - destruct Hop as (c & oo & Ho). unfold smt_GetBounded_Start in Hu. rewrite bind_lift in Hu.
    destruct a as [| from [|m| |]|]; try done. cbn [ExpectMessageOrDie as_buffer mbind outcome_bind] in Hu.
    rewrite bind_lift in Hu. apply bind_Ok in Hu as (k & Hk & Hu). cbv zeta in Hu.
    cbn [args_ok msg_hdr] in Ha. destruct (_ =? _)%Z.
    2:{ destruct Ha as (_ & _ & _ & _ & c' & Ho' & _). congruence. }
    destruct Ha as [(? & _)|(Hsm & c' & Ho' & (Hb & _ & k' & Hk' & -> & Hbo))]; [congruence|].
    rewrite Ho in Ho'. injection Ho' as -> ->. rewrite Hk in Hk'. injection Hk' as <-.
    rewrite Hb in Hu. apply bind_inv in Hu as ([[rc d] info] & s1 & Hp & Hu).
    apply op_getForOp_ok in Hp as [Hp Hd]; [|done..|rewrite Hbox; by eexists].
    destruct (keeps_effects (mkNode rows ioms []) s1 eq_refl Hp) as (He1 & He2 & _).
    destruct Hp as (Hs1 & Hi1 & _). cbv beta iota in Hu. destruct (Z.eqb_spec rc KELPIE_OK) as [Hrc|Hrc].
    + rewrite bind_emit in Hu. injection Hu as <- <- <-. apply post_same; try done.
      * apply Forall_app. split; [done|by apply Forall_singleton].
      * apply Forall_app. split; [done|]. apply Forall_singleton. eapply bounded_put_ok; [exact Ho|exact Hbo|by apply Hd].
      * intros _. split; [done|]. eexists _, _. by split.
    + injection Hu as <- <- <-. apply post_same; try done.
      intros _. split; [done|]. eexists. by split.
  - destruct Hop as (Hd & c & Ho & Hbo). unfold smt_GetBounded_WaitData in Hu.
    destruct a as [[]| |d i]; try done.
    rewrite bind_emit in Hu. injection Hu as <- <- <-. destruct Ha as (r & Hr & Hg).
    rewrite Ho in Hr. injection Hr as <-. apply post_same; try done.
    + by apply Forall_singleton.
    + apply Forall_singleton. by eapply bounded_put_ok.
    + intros _. split; [done|]. eexists _, _. by split.
  - destruct Hop as (Hd & c & l & Ho & Hbo). unfold smt_GetBounded_WaitRDMA in Hu.
    rewrite bind_lift in Hu. apply bind_Ok in Hu as (? & Hv & Hu). rewrite bind_emit in Hu.
    injection Hu as <- <- <-. unfold VerifyTypeOrDie in Hv.
    destruct (bool_decide (args_type_of a = put_success)) eqn:Hgs; [|done].
    apply bool_decide_eq_true in Hgs. destruct a as [[]| |]; try done.
    destruct Ha as (c' & oo & l' & Ho' & Hoo & Hland). rewrite Ho in Ho'. injection Ho' as <- <-.
    apply post_same; try done.
    + by apply Forall_singleton.
    + apply Forall_singleton. cbn [effect_ok]. apply status_reply; [done|]. exists (RBoundedOrigin c l'). by split.
  - destruct Hop as (Ho & size & Hm & _). unfold smo_GetBounded_WaitAck in Hu. rewrite bind_lift in Hu.
    destruct a as [| from [| |m|]|]; try done. cbn [ExpectMessageOrDie as_status mbind outcome_bind] in Hu.
    rewrite bind_emit in Hu. injection Hu as <- <- <-. cbn [args_ok msg_hdr] in Ha.
    destruct (_ =? _)%Z; [done|]. destruct Ha as (_ & r & Hr & Hs).
    rewrite Ho in Hr. injection Hr as <-. apply post_same; try done.
    + by apply Forall_singleton.
    + apply Forall_singleton. intros Hsucc. eapply landed_memory; [by apply Hs|done].
  - done.
Qed.

Lemma send_pointers_ok s1 peer m d c st' w s' :
  keeps (mkNode rows ioms []) s1 ∨ s1 = mkNode rows ioms [] →
  dst_mailbox (mb_hdr m) ≠ 0%Z → src_mailbox (mb_hdr m) = mb →
  t_op G !! (n, mb) = Some (RUnboundedTarget c) →
  t_op G !! (peer, dst_mailbox (mb_hdr m)) = Some (RUnboundedOrigin c) → good c d →
  send_pointers e peer m d s1 = Ok ((st', w), s') →
  update_post G mem n mb (KGetUnbounded st') w s'.
Proof.
  intros Hk Hd Hsm Ho Hoo Hg Hu. unfold send_pointers in Hu.
  rewrite !bind_emit, add_effects_app in Hu. injection Hu as <- <- <-.
  assert (Hes : store_ok G n (h_rows s1) ∧ ioms_ok (h_ioms s1) ∧
    Forall (λ x, allocates x = false) (h_effects s1) ∧
    Forall (effect_ok G mem n mb) (h_effects s1) ∧ (∀ x, x ∈ h_effects s1 → ∃ evs, x = EStore evs)).
  { destruct Hk as [Hk| ->].
    - split_and!; [apply Hk|apply Hk|..]; by apply (keeps_effects (mkNode rows ioms [])).
    - split_and!; [done..|by apply Forall_nil|by apply Forall_nil|intros x []%elem_of_nil]. }
  destruct Hes as (Hs1 & Hi1 & He1 & He2 & He3).
  eapply post_source; [done|done..|]. intros G' Hle. split; [|exists c; by eapply op_le].
  unfold message_ok. cbn [msg_hdr set_ldo SetLDO mb_hdr]. unfold MAILBOX_UNSPECIFIED.
  rewrite (proj2 (Z.eqb_neq _ _)) by done. cbn [reply_ok set_ldo SetLDO mb_hdr].
  split; [apply ldo_user_size_width|]. rewrite Hsm. split; [done|].
  split; [exists c; by eapply op_le|]. exists c. split; [by eapply op_le|].
  change (source_ok G' (if (ldo_user_size d =? 0)%Z then no_buffer else free_loc e) c (ldo_user_size d)).
  destruct (_ =? _)%Z; [by left|]. right. exists d. split_and!; [apply lookup_insert_eq|done..].
Qed.

Lemma unbounded_update_ok st a st' w s' :
  op_ok G n mb (KGetUnbounded st) → args_ok G mem n mb a →
  GetUnbounded_Update e st a (mkNode rows ioms []) = Ok ((st', w), s') →
  update_post G mem n mb (KGetUnbounded st') w s'.
Proof.
  intros Hop Ha Hu. destruct st as [peer m key cb| |peer m|key cb|peer key cb ack l|obj|];
    cbn [GetUnbounded_Update] in Hu.
  - unfold smo_GetUnbounded_Send in Hu. rewrite bind_emit in Hu. injection Hu as <- <- <-.
    destruct Hop as (Ho & Hl & Hd & Hr). apply post_same; try done.
    + by apply Forall_singleton.
    + apply Forall_singleton. cbn [effect_ok]. unfold message_ok. cbn [msg_hdr]. by rewrite Hd.
  - destruct Hop as (c & Ho). unfold smt_GetUnbounded_Start in Hu. rewrite bind_lift in Hu.
    destruct a as [| from [m| | |]|]; try done. cbn [ExpectMessageOrDie as_simple mbind outcome_bind] in Hu.
    rewrite bind_lift in Hu. apply bind_Ok in Hu as (k & Hk & Hu). cbv zeta in Hu.
    cbn [args_ok msg_hdr] in Ha. destruct (_ =? _)%Z; [|by destruct Ha].
    destruct Ha as [(Hsm & c' & Ho' & (Hb & _ & k' & Hk' & -> & Hoo))|[? _]]; [|congruence].
    rewrite Ho in Ho'. injection Ho' as ->. rewrite Hk in Hk'. injection Hk' as <-.
    rewrite Hb in Hu. apply bind_inv in Hu as ([[rc d] info] & s1 & Hp & Hu).
    apply op_getForOp_ok in Hp as [Hp Hd]; [|done..|rewrite Hbox; by eexists].
    cbv beta iota in Hu. destruct (Z.eqb_spec rc KELPIE_OK) as [Hrc|Hrc].
    + eapply send_pointers_ok; [by left|..|exact Hu]; [done|done|done|exact Hoo|by apply Hd].
    + destruct (keeps_effects (mkNode rows ioms []) s1 eq_refl Hp) as (He1 & He2 & _).
      destruct Hp as (Hs1 & Hi1 & _). injection Hu as <- <- <-. apply post_same; try done.
      intros _. split; [done|]. split; [done|]. eexists. by split.
  - destruct Hop as (Hd & Hsm & c & Ho & Hoo). unfold smt_GetUnbounded_WaitData in Hu.
    destruct a as [[]| |d i]; try done. destruct Ha as (r & Hr & Hg).
    rewrite Ho in Hr. injection Hr as <-. eapply send_pointers_ok; [by right|..|exact Hu]; done.
  - destruct Hop as (Ho & Hl). unfold smo_GetUnbounded_WaitInfo in Hu. rewrite bind_lift in Hu.
    destruct a as [| from [|m| |]|]; try done. cbn [ExpectMessageOrDie as_buffer mbind outcome_bind] in Hu.
    cbn [args_ok msg_hdr] in Ha. destruct (_ =? _)%Z.
    { destruct Ha as [(? & _)|(_ & c & ? & _)]; congruence. }
    destruct Ha as (_ & Hsz & Hsm & [c' Hsrc] & c & Hc & Hso). rewrite Ho in Hc. injection Hc as <-.
    destruct (_ =? _)%Z; [done|]. rewrite !bind_emit, add_effects_app in Hu. injection Hu as <- <- <-.
    eapply (post_landing [] (cell_of key) (mb_meta_plus_data_size m)); try done; [by apply Forall_nil..| |].
    + intros x []%elem_of_nil.
    + intros G' Hle. split_and!; [by eapply op_le|apply lookup_insert_eq| |done|exists c'; by eapply op_le].
      exists (mb_meta_plus_data_size m). apply lookup_insert_eq.
  - destruct Hop as (Ho & Hl & [size Hm] & Hd & c & Hoo). unfold smo_GetUnbounded_WaitRDMA in Hu.
    rewrite bind_lift in Hu. apply bind_Ok in Hu as (? & Hv & Hu). rewrite !bind_emit, add_effects_app in Hu.
    injection Hu as <- <- <-. unfold VerifyTypeOrDie in Hv.
    destruct (bool_decide (args_type_of a = get_success)) eqn:Hgs; [|done].
    apply bool_decide_eq_true in Hgs. destruct a as [[]| |]; try done.
    destruct Ha as (l' & Hl' & Hland). rewrite Hl in Hl'. injection Hl' as <-.
    apply post_same; try done.
    + by repeat apply Forall_cons_2; [| |apply Forall_nil].
    + repeat apply Forall_cons_2; [|..|by apply Forall_nil].
      * intros _. by eapply landed_memory.
      * cbn [effect_ok]. apply status_reply; [done|]. by eexists.
  - unfold smt_GetUnbounded_WaitAck in Hu. rewrite bind_lift in Hu. apply bind_Ok in Hu as (? & _ & Hu).
    injection Hu as <- <- <-. apply post_same; try done; by apply Forall_nil.
  - done.
Qed.
Lemma send_each_run (make : NodeID.t → message) targets s :
  send_each make targets s = Ok ((), add_effects ((λ t, ESend t.2 (make t.1)) <$> targets) s).
Proof.
  revert s. induction targets as [|[node peer] l IH]; intros s; cbn [send_each fmap list_fmap].
  - unfold add_effects. rewrite app_nil_r. by destruct s.
  - rewrite bind_emit, IH, add_effects_app. done.
Qed.

Lemma drop_update_ok st a st' w s' :
  op_ok G n mb (KDrop st) → args_ok G mem n mb a →
  Drop_Update e st a (mkNode rows ioms []) = Ok ((st', w), s') →
  update_post G mem n mb (KDrop st') w s'.
Proof.
  intros Ho Ha Hu. cbn [op_ok] in Ho.
  assert (Hcase : Forall (λ x, allocates x = false) (h_effects s') ∧ store_ok G n (h_rows s') ∧
    ioms_ok (h_ioms s') ∧ Forall (effect_ok G mem n mb) (h_effects s')).
  2:{ destruct Hcase as (H1 & H2 & H3 & H4). by apply post_same. }
  destruct st as [targets b k cb succ| |k cb num succ|]; cbn [Drop_Update] in Hu.
  - unfold smo_Drop_Send in Hu. cbv zeta in Hu. erewrite bind_run in Hu by apply send_each_run.
    assert (Hs' : s' = add_effects ((λ t, ESend t.2 (MsgSimple (AllocSimple (me e) OpKelpieDrop_id
      DirectFlags.CMD_DROP t.1 (if bool_decide (is_Some cb) then mailbox e else MAILBOX_UNSPECIFIED)
      MAILBOX_UNSPECIFIED b k 0 PoolBehavior.NoAction [] []))) <$> targets) (mkNode rows ioms [])).
    { destruct (bool_decide (is_Some cb)); by injection Hu. }
    rewrite Hs'. cbn [add_effects h_effects h_rows h_ioms app]. split_and!; [|done..|].
    + apply Forall_forall. by intros x (t & -> & _)%list_elem_of_fmap.
    + apply Forall_forall. intros x (t & -> & _)%list_elem_of_fmap. cbn [effect_ok].
      unfold message_ok. cbn [msg_hdr]. change (dst_mailbox _) with 0%Z. cbn [request_ok].
      right. split; [done|]. unfold drop_request_ok. cbn [snd]. change (src_mailbox _) with
        (if bool_decide (is_Some cb) then mailbox e else MAILBOX_UNSPECIFIED).
      destruct (bool_decide (is_Some cb)); [|by left]. right. rewrite Hbox. by split_and!.
  - unfold smt_Drop_Start in Hu. rewrite bind_lift in Hu.
    destruct a as [| from [m| | |]|]; try done. cbn [ExpectMessageOrDie as_simple mbind outcome_bind] in Hu.
    rewrite bind_lift in Hu. apply bind_Ok in Hu as (k & Hk & Hu).
    cbn [args_ok msg_hdr] in Ha. destruct (_ =? _)%Z; [|by destruct Ha].
    destruct Ha as [(_ & c & ? & _)|[_ Hreq]]; [congruence|].
    apply bind_inv in Hu as (rc & s1 & Hd & Hu). unfold op_drop in Hd.
    apply bind_Ok in Hd as ([rc' rows'] & Hd & [= -> <-]). apply (drop_ok G n) in Hd; [|done].
    destruct (Z.eqb_spec (src_mailbox (ms_hdr m)) MAILBOX_UNSPECIFIED) as [Hz|Hz]; cbn [negb] in Hu.
    + injection Hu as _ _ <-. split_and!; [by apply Forall_nil|done..|by apply Forall_nil].
    + cbv zeta in Hu. rewrite bind_emit in Hu. injection Hu as _ _ <-.
      split_and!; [by apply Forall_singleton|done..|].
      apply Forall_singleton. cbn [effect_ok]. destruct Hreq as [?|(_ & _ & Hr)]; [done|].
      destruct (negb _); (apply status_reply; [done|by exists RDrop]).
  - unfold smo_Drop_WaitForResults in Hu. rewrite bind_lift in Hu. apply bind_Ok in Hu as ([] & _ & Hu).
    cbv zeta in Hu. destruct (_ <? _)%Z.
    + destruct cb as [cb|].
      * rewrite bind_emit in Hu. injection Hu as _ _ <-.
        split_and!; [by apply Forall_singleton|done..|by apply Forall_singleton].
      * rewrite bind_lift in Hu. done.
    + injection Hu as _ _ <-. split_and!; [by apply Forall_nil|done..|by apply Forall_nil].
  - injection Hu as _ _ <-. split_and!; [by apply Forall_nil|done..|by apply Forall_nil].
Qed.

(** The update of an op that is well tagged leaves everything well tagged. *)
Lemma op_update_ok op a op' w s' :
  op_ok G n mb op → args_ok G mem n mb a →
  op_Update packed_size compute e op a (mkNode rows ioms []) = Ok ((op', w), s') →
  update_post G mem n mb op' w s'.
Proof.
  intros Hop Ha Hu. destruct op as [s|s|s|s|s|s|s]; try done; cbn [op_Update] in Hu;
    apply bind_inv in Hu as ([s1 w1] & s2 & Hu & [= <- <- <-]).
  - by eapply publish_update_ok.
  - by eapply bounded_update_ok.
  - by eapply unbounded_update_ok.
  - by eapply drop_update_ok.
Qed.
(** ** Calls of applications *)

(** From one state of a call to the next. *)
Definition quiet s (s' : node_state (D := D) (I := I)) : Prop :=
  store_ok G n (h_rows s') ∧ ioms_ok (h_ioms s') ∧
  ∃ xs, h_effects s' = h_effects s ++ xs ∧ Forall (λ x, allocates x = false) xs ∧
    Forall (effect_ok G mem n mb) xs.

Lemma quiet_refl s : store_ok G n (h_rows s) → ioms_ok (h_ioms s) → quiet s s.
Proof. intros Hs Hi. split_and!; [done..|]. exists []. by rewrite app_nil_r. Qed.

Lemma quiet_trans s1 s2 s3 : quiet s1 s2 → quiet s2 s3 → quiet s1 s3.
Proof.
  intros (_ & _ & xs & He & Ha & Ho) (Hs & Hi & ys & He' & Ha' & Ho'). split_and!; [done..|].
  exists (xs ++ ys). rewrite He', He, <-app_assoc. split_and!; [done|by apply Forall_app..].
Qed.

Lemma keeps_quiet s s' : keeps s s' → quiet s s'.
Proof.
  intros (Hs & Hi & evs & He & Hev). split_and!; [done..|]. exists [EStore evs].
  split_and!; [done|by apply Forall_singleton..].
Qed.

Lemma emit_quiet s x :
  store_ok G n (h_rows s) → ioms_ok (h_ioms s) → allocates x = false → effect_ok G mem n mb x →
  quiet s (add_effects [x] s).
Proof. intros Hs Hi Ha Ho. split_and!; [done..|]. exists [x]. split_and!; [done|by apply Forall_singleton..]. Qed.

Lemma want_local_ok s k fetch cb rc s' :
  store_ok G n (h_rows s) → ioms_ok (h_ioms s) → want_local e bkt k fetch cb s = Ok (rc, s') → keeps s s'.
Proof.
  intros Hs Hi Hp. unfold want_local in Hp. apply bind_Ok in Hp as (rep & Hp & [= _ <-]).
  destruct (wantLocal_ok _ _ _ _ _ _ _ _ Hs Hp) as [H1 H2]. split_and!; [done..|]. by eexists.
Qed.

Lemma lkv_get_ok s k rc d i s' :
  store_ok G n (h_rows s) → ioms_ok (h_ioms s) → lkv_get e bkt k s = Ok ((rc, d, i), s') →
  keeps s s' ∧ (rc = KELPIE_OK → good (cell_of k) (default ldo_null d)) ∧
  (rc = KELPIE_OK ∨ rc = KELPIE_ENOENT).
Proof.
  intros Hs Hi Hp. unfold lkv_get in Hp. apply bind_Ok in Hp as (rep & Hp & [= <- <- _ <-]).
  destruct (get_ok _ _ _ _ _ _ _ Hs Hp) as (H1 & H2 & H3).
  split; [split_and!; [done..|]; by eexists|]. split; [done|].
  unfold get in Hp. apply bind_Ok in Hp as ([] & Hv%F_ASSERT_Ok & Hp).
  destruct (get_spec (now e) bkt k (Some Wipe) (h_rows s) Hv) as (rep' & Hg & Hrc & _).
  unfold get in Hg. rewrite Hv in Hg. cbn [F_ASSERT mbind outcome_bind] in Hg, Hp.
  assert (rep' = rep) as -> by congruence. rewrite Hrc.
  destruct (find_cell _ _ _); [case_bool_decide|]; auto.
Qed.

Lemma call_publish_quiet s cb rc info u s' :
  store_ok G n (h_rows s) → ioms_ok (h_ioms s) → call_publish cb rc info s = Ok (u, s') → quiet s s'.
Proof.
  intros Hs Hi. destruct cb; cbn [call_publish]; intros [= _ <-]; [by apply emit_quiet|by apply quiet_refl].
Qed.

Lemma publish_call_ok (pl : pool) key obj cb s r op s' :
  default_bucket pl = bkt → good (cell_of key) (obj_val obj) →
  store_ok G n (h_rows s) → ioms_ok (h_ioms s) →
  DHT_Publish pl e key obj cb s = Ok ((r, op), s') →
  quiet s s' ∧
  (op = None ∨ ∃ node peer,
     op = Some (KPublish (OpKelpiePublish (me e) (mailbox e) node peer bkt key obj (iom_hash pl)
                            (behavior_flags pl) cb))).
Proof.
  intros Hb Hd Hs Hi Hu. unfold DHT_Publish in Hu. rewrite Hb in Hu.
  unfold find_node in Hu. rewrite bind_lift in Hu. apply bind_Ok in Hu as ([node peer] & _ & Hu).
  case_bool_decide.
  - apply bind_inv in Hu as ([rc info] & s1 & Hp & Hu). apply op_put_ok in Hp; [|done..].
    pose proof Hp as (Hs1 & Hi1 & _). cbv beta iota in Hu.
    apply bind_inv in Hu as ([] & s2 & Hc & [= <- <- <-]). split; [|by left].
    eapply quiet_trans; [by apply keeps_quiet|by eapply call_publish_quiet].
  - cbv zeta in Hu. apply bind_inv in Hu as ([] & s1 & Hp & [= <- <- <-]). split; [|right; eauto].
    destruct (PoolBehavior.has _ _); [|by injection Hp as <-; apply quiet_refl].
    apply bind_inv in Hp as ([rc info] & s2 & Hp & [= <-]). apply op_put_ok in Hp; [|done..].
    by apply keeps_quiet.
Qed.

Lemma want_call_ok (pl : pool) key size cb r op s' :
  default_bucket pl = bkt →
  DHT_Want pl e key size cb (mkNode rows ioms []) = Ok ((r, op), s') →
  quiet (mkNode rows ioms []) s' ∧
  (op = None ∨ ∃ node peer,
     op = Some (KGetUnbounded (OpKelpieGetUnbounded (me e) (mailbox e) node peer bkt key
       (iom_hash pl) (behavior_flags pl) (get_callback pl)))) ∨
  ∃ node peer st obj s1,
    quiet (mkNode rows ioms []) s1 ∧ (0 < size)%Z ∧
    OpKelpieGetBounded (me e) (mailbox e) (free_loc e) node peer bkt key size (iom_hash pl)
      (behavior_flags pl) (get_callback pl) = Ok (st, obj) ∧ op = Some (KGetBounded st) ∧
    s' = add_effects [ENew (free_loc e) (ldo_alloc size)] s1.
Proof.
  intros Hb Hu. unfold DHT_Want in Hu. rewrite Hb in Hu.
  apply bind_inv in Hu as (rc & s1 & Hw & Hu). apply want_local_ok in Hw; [|done..].
  pose proof Hw as (Hs1 & Hi1 & _). apply keeps_quiet in Hw.
  destruct (_ || _); [injection Hu as <- <- <-; left; split; [done|by left]|].
  unfold find_node in Hu. rewrite bind_lift in Hu. apply bind_Ok in Hu as ([node peer] & _ & Hu).
  case_bool_decide.
  - left. apply bind_inv in Hu as (i & s2 & Hio & Hu). apply bind_inv in Hu as ([] & s3 & Hp & [= <- <- <-]).
    assert (Hs2 : s2 = s1 ∧ ∀ i0, i = Some i0 → iom_ok i0).
    { unfold pool_iom in Hio. destruct (iom pl) as [h|]; [|by simplify_eq].
      destruct (h_ioms s1 !! h) as [i1|] eqn:Hl; [|done]. simplify_eq. split; [done|].
      intros i0 [= <-]. by apply (Hi1 _ _ Hl). }
    destruct Hs2 as [-> Hi2]. split; [|by left].
    destruct i as [i|]; [|by injection Hp as <-].
    destruct (_ && _); [|by injection Hp as <-].
    destruct (iom_ReadObject i bkt key) as [rc2 d] eqn:Hr.
    destruct (Z.eqb_spec rc2 KELPIE_OK) as [->|]; [|by injection Hp as <-].
    apply put_quiet_ok in Hp; [|done..|by apply (Hi2 _ eq_refl _ _ _ Hr)].
    eapply quiet_trans; [done|by apply keeps_quiet].
  - destruct (Z.ltb_spec 0 size) as [Hsz|Hsz].
    + right. rewrite bind_lift in Hu. apply bind_Ok in Hu as ([st obj] & Hn & Hu).
      rewrite bind_emit in Hu. injection Hu as <- <- <-.
      exists node, peer, st, obj, s1. split_and!; [done..|].
      unfold OpKelpieGetBounded in Hn. apply bind_Ok in Hn as (? & _ & [= <- <-]). done.
    + injection Hu as <- <- <-. left. split; [done|]. right. eauto.
Qed.

Lemma drop_call_ok (pl : pool) key cb r op s' :
  DHT_Drop pl e key cb (mkNode rows ioms []) = Ok ((r, op), s') →
  quiet (mkNode rows ioms []) s' ∧ (op = None ∨ ∃ st, op = Some (KDrop st)).
Proof.
  intros Hu. unfold DHT_Drop in Hu. apply bind_inv in Hu as ([here others] & s1 & Hn & Hu).
  assert (s1 = mkNode rows ioms []) as ->.
  { unfold search_nodes in Hn. destruct (negb _); [|by injection Hn].
    unfold find_node in Hn. rewrite bind_lift in Hn. apply bind_Ok in Hn as ([] & _ & Hn).
    by injection Hn. }
  cbv beta iota zeta in Hu. apply bind_inv in Hu as (rc & s2 & Hd & Hu).
  assert (Hs2 : quiet (mkNode rows ioms []) s2).
  { destruct (_ || _); [|injection Hd as _ <-; by apply quiet_refl].
    unfold op_drop in Hd. apply bind_Ok in Hd as ([rc' rows'] & Hd & [= _ <-]).
    apply (drop_ok G n) in Hd; [|done]. split_and!; [done..|]. exists []. by split_and!. }
  pose proof Hs2 as (Hs2' & Hi2' & _).
  destruct (negb _); [injection Hu as <- <- <-; split; [done|right; eauto]|].
  apply bind_inv in Hu as ([] & s3 & Hc & [= <- <- <-]). split; [|by left].
  eapply quiet_trans; [done|]. destruct cb; injection Hc as <-; [by apply emit_quiet|by apply quiet_refl].
Qed.
End updates.

(** * Worlds *)

(** The pool as each node has opened it. *)
Context (p : NodeID.t → pool).

Inductive packet :=
| PMessage (from to : NodeID.t) (m : message)
| PGet (n : NodeID.t) (mb : Z) (remote_buffer local_ldo : handle)
| PPut (n : NodeID.t) (mb : Z) (local_ldo : D) (remote_buffer : handle)
| PUpdate (n : NodeID.t) (mb : Z) (a : op_args (D := D)).

Record wnode := mkWNode {
  w_rows : table;
  w_ioms : gmap Z I;
  w_ops : gmap Z (kelpie_op (D := D));
  w_next : Z }.

Record world := mkWorld {
  w_node : NodeID.t → wnode;
  w_mem : gmap handle D;
  w_net : list packet;
  w_calls : list (NodeID.t * callback_id * Key * D) }.
Implicit Types w : world.

Definition set_node n x w : world := mkWorld (<[n := x]> (w_node w)) (w_mem w) (w_net w) (w_calls w).
Definition set_mem m w : world := mkWorld (w_node w) m (w_net w) (w_calls w).
Definition set_net l w : world := mkWorld (w_node w) (w_mem w) l (w_calls w).
Definition add_packet k w : world := set_net (w_net w ++ [k]) w.
Definition add_call c w : world := mkWorld (w_node w) (w_mem w) (w_net w) (w_calls w ++ [c]).

Definition node_of w (n : NodeID.t) : node_state (D := D) (I := I) :=
  mkNode (w_rows (w_node w n)) (w_ioms (w_node w n)) [].

(** The store and the I/O modules after a call. *)
Definition after (n : NodeID.t) (s : node_state (D := D) (I := I)) w : world :=
  set_node n (mkWNode (h_rows s) (h_ioms s) (w_ops (w_node w n)) (w_next (w_node w n))) w.

(** What the store asks for: triggers go to the active ops of the node, and a trigger through a
    null pointer halts it ([TriggerOp] in OpBox); callbacks are called. *)
Definition store_event (n : NodeID.t) (ev : event D) w : outcome world :=
  match ev with
  | EvCallback cb k d _ | EvBackburner cb k d _ => Ok (add_call (n, cb, k, d) w)
  | EvTrigger mb (Some (d, i)) =>
      Ok (match w_ops (w_node w n) !! mb with
          | Some _ => add_packet (PUpdate n mb (AObjectAvailable d i)) w
          | None => w
          end)
  | EvTrigger mb None => Throw Halt
  end.

Fixpoint store_events (n : NodeID.t) (evs : list (event D)) w : outcome world :=
  match evs with
  | [] => Ok w
  | ev :: evs' => w' ← store_event n ev w; store_events n evs' w'
  end.

(** The callback of a get stores the object where it was wanted. *)
Definition got (t : Z) (n : NodeID.t) (success : bool) (key : Key) (d : D) w : outcome world :=
  '(_, s) ← DHT_got (p n) (mkEnv n t 0 no_buffer (λ _, ldo_null)) success key d (node_of w n);
  store_events n (x ← h_effects s; match x with EStore evs => evs | _ => [] end) (after n s w).

Definition apply_effect (t : Z) (n : NodeID.t) (mb : Z) (x : effect (D := D)) w : outcome world :=
  match x with
  | ESend to m => Ok (add_packet (PMessage n to m) w)
  | EGet _ nbr l => Ok (add_packet (PGet n mb nbr l) w)
  | EPut _ d nbr => Ok (add_packet (PPut n mb d nbr) w)
  | EStore evs => store_events n evs w
  | ECallGet cb success key d => got t n success key d w
  | _ => Ok w
  end.

Fixpoint apply_effects (t : Z) (n : NodeID.t) (mb : Z) (xs : list (effect (D := D))) w : outcome world :=
  match xs with
  | [] => Ok w
  | x :: xs' => w' ← apply_effect t n mb x w; apply_effects t n mb xs' w'
  end.

(** An update of an op; one that has ended is deleted. *)
Definition run_update (e : env (D := D)) (n : NodeID.t) (mb : Z) (a : op_args (D := D)) w : outcome world :=
  match w_ops (w_node w n) !! mb with
  | None => Ok w
  | Some op =>
      '(op', wt, s) ← op_Update packed_size compute e op a (node_of w n);
      let ops := match wt with
                 | done_and_destroy => delete mb (w_ops (w_node w n))
                 | _ => <[mb := op']> (w_ops (w_node w n))
                 end in
      let w1 := set_node n (mkWNode (h_rows s) (h_ioms s) ops (w_next (w_node w n))) w in
      apply_effects (now e) n mb (h_effects s) (set_mem (new_objects (h_effects s) (w_mem w)) w1)
  end.

(** An op begins: it gets the next mailbox, and [a] is its first update.  The counter of mailboxes
    wraps at 32 bits, and an op that gets the mailbox of another replaces it in the table. *)
Definition launch (n : NodeID.t) (op : kelpie_op (D := D)) (a : op_args (D := D)) w : world :=
  let x := w_node w n in
  add_packet (PUpdate n (w_next x) a)
    (set_node n (mkWNode (w_rows x) (w_ioms x) (<[w_next x := op]> (w_ops x)) (u32 (w_next x + 1))) w).

(** A call of an application on the pool. *)
Definition run_call (e : env (D := D)) (n : NodeID.t)
    (m : M (D := D) (I := I) (rc_t * option (kelpie_op (D := D)))) w : outcome world :=
  '(_, op, s) ← m (node_of w n);
  let w1 := set_mem (new_objects (h_effects s) (w_mem w)) (after n s w) in
  let w2 := match op with Some op => launch n op (AUpdate OpBox.start) w1 | None => w1 end in
  apply_effects (now e) n (mailbox e) (h_effects s) w2.

Definition env_ok w (n : NodeID.t) (mb : Z) (e : env (D := D)) : Prop :=
  me e = n ∧ mailbox e = mb ∧ w_mem w !! free_loc e = None ∧ free_loc e ≠ no_buffer ∧
  ∀ h, memory e h = default ldo_null (w_mem w !! h).

Inductive step : world → world → Prop :=
| step_publish w n e key d cb w' :
    env_ok w n (w_next (w_node w n)) e → sendable key → good (cell_of key) d →
    run_call e n (DHT_Publish (p n) e key (mkObject (free_loc e) d) cb)
      (set_mem (<[free_loc e := d]> (w_mem w)) w) = Ok w' →
    step w w'
| step_publish_key w n e key cb w' :
    env_ok w n (w_next (w_node w n)) e → sendable key →
    run_call e n (DHT_Publish_key (p n) e key cb) w = Ok w' →
    step w w'
| step_want w n e key size cb w' :
    env_ok w n (w_next (w_node w n)) e → sendable key →
    ((0 < size)%Z → in_width 32 size ∧ sized (cell_of key) size) →
    run_call e n (DHT_Want (p n) e key size cb) w = Ok w' →
    step w w'
| step_drop w n e key cb w' :
    env_ok w n (w_next (w_node w n)) e →
    run_call e n (DHT_Drop (p n) e key cb) w = Ok w' →
    step w w'
| step_create w from to m l1 l2 op :
    w_net w = l1 ++ PMessage from to m :: l2 → dst_mailbox (msg_hdr m) = MAILBOX_UNSPECIFIED →
    create_target (op_id (msg_hdr m)) = Some op →
    step w (launch to op (AMessage from m) (set_net (l1 ++ l2) w))
| step_deliver w from to m l1 l2 :
    w_net w = l1 ++ PMessage from to m :: l2 → dst_mailbox (msg_hdr m) ≠ MAILBOX_UNSPECIFIED →
    is_Some (w_ops (w_node w to) !! dst_mailbox (msg_hdr m)) →
    step w (set_net (l1 ++ PUpdate to (dst_mailbox (msg_hdr m)) (AMessage from m) :: l2) w)
| step_update w n mb a l1 l2 e w' :
    w_net w = l1 ++ PUpdate n mb a :: l2 → env_ok w n mb e →
    run_update e n mb a (set_net (l1 ++ l2) w) = Ok w' →
    step w w'
| step_get w n mb nbr l l1 l2 src dst :
    w_net w = l1 ++ PGet n mb nbr l :: l2 → nbr ≠ no_buffer →
    w_mem w !! nbr = Some src → w_mem w !! l = Some dst →
    step w (set_net (l1 ++ PUpdate n mb (AUpdate get_success) :: l2)
              (set_mem (<[l := xfer src dst]> (w_mem w)) w))
| step_put w n mb d nbr l1 l2 dst :
    w_net w = l1 ++ PPut n mb d nbr :: l2 → w_mem w !! nbr = Some dst →
    step w (set_net (l1 ++ PUpdate n mb (AUpdate put_success) :: l2)
              (set_mem (<[nbr := xfer d dst]> (w_mem w)) w)).

(** The pool is opened: nothing is stored, launched or in flight; what is on storage was published
    before. *)
Definition initial w : Prop :=
  (∀ n, w_rows (w_node w n) = ∅ ∧ ioms_ok (w_ioms (w_node w n)) ∧ w_ops (w_node w n) = ∅ ∧
     w_next (w_node w n) = 1%Z) ∧
  w_mem w = ∅ ∧ w_net w = [] ∧ w_calls w = [].

(** No node has used up its mailboxes: the counter has not come round. *)
Definition mailboxes_left w : Prop := ∀ n, (w_next (w_node w n) < OpBox.max_mailboxes)%Z.

Inductive reachable : world → Prop :=
| reachable_initial w : initial w → reachable w
| reachable_next w w' : reachable w → mailboxes_left w → step w w' → reachable w'.

(** ** The invariant *)

Definition packet_ok G mem (k : packet) : Prop :=
  match k with
  | PMessage from to m => message_ok G mem from to m
  | PGet n mb nbr l => get_ok_at G n mb nbr l
  | PPut n mb d nbr => put_ok_at G n mb d nbr
  | PUpdate n mb a => args_ok G mem n mb a
  end.

Lemma packet_ok_le G G' mem mem' k :
  G ⊑ G' → (∀ l, landed G mem l → landed G' mem' l) → packet_ok G mem k → packet_ok G' mem' k.
Proof.
  intros Hle Hm. destruct k; cbn [packet_ok].
  - by apply message_ok_le.
  - by apply get_ok_at_le.
  - by apply put_ok_at_le.
  - by apply args_ok_le.
Qed.

Definition tagged G (o : op_ref) : Prop := is_Some (t_op G !! o) ∨ is_Some (t_land G !! o).

Record inv G w : Prop := {
  i_mem : mem_ok G (w_mem w);
  i_store : ∀ n, store_ok G n (w_rows (w_node w n));
  i_ioms : ∀ n, ioms_ok (w_ioms (w_node w n));
  i_ops : ∀ n mb op, w_ops (w_node w n) !! mb = Some op → op_ok G n mb op;
  i_next : ∀ n, (1 ≤ w_next (w_node w n))%Z;
  i_fresh : ∀ n mb, tagged G (n, mb) → (0 < mb < w_next (w_node w n))%Z;
  i_net : Forall (packet_ok G (w_mem w)) (w_net w);
  i_calls : Forall (λ c, good (cell_of c.1.2) c.2) (w_calls w) }.

Lemma op_ok_tagged G n mb op : op_ok G n mb op → tagged G (n, mb).
Proof.
  intros Hop. left.
  destruct op as [[]|[]|[]|x|x|x|x]; cbn [op_ok] in Hop; unfold bounded_origin in Hop;
    solve [done | destruct_and?; eauto | naive_solver].
Qed.

Lemma inv_packets G w l :
  inv G w → Forall (packet_ok G (w_mem w)) l → inv G (set_net l w).
Proof. intros []. by split. Qed.

Lemma inv_add_packet G w k : inv G w → packet_ok G (w_mem w) k → inv G (add_packet k w).
Proof.
  intros Hi Hk. apply inv_packets; [done|]. apply Forall_app. split; [apply Hi|by apply Forall_singleton].
Qed.

(** Worlds with the same nodes. *)
Lemma inv_ext G w w' :
  inv G w → (∀ n, w_node w n = w_node w' n) → w_mem w = w_mem w' → w_net w = w_net w' →
  w_calls w = w_calls w' → inv G w'.
Proof.
  intros [] Hn Hm Hl Hc. split; rewrite <-?Hm, <-?Hl, <-?Hc; try done; intros n; rewrite <-Hn; auto.
Qed.

Lemma set_node_pointwise (Q : NodeID.t → wnode → Prop) n x (f : NodeID.t → wnode) :
  Q n x → (∀ n', n' ≠ n → Q n' (f n')) → ∀ n', Q n' (<[n := x]> f n').
Proof.
  intros Hx Hf n'. destruct (decide (n = n')) as [<-|Hne]; [by rewrite fn_lookup_insert|].
  rewrite fn_lookup_insert_ne by done. by apply Hf.
Qed.

Lemma inv_after G w n s :
  inv G w → store_ok G n (h_rows s) → ioms_ok (h_ioms s) → inv G (after n s w).
Proof.
  intros [] Hs Hi. unfold after, set_node. split; cbn [w_node w_mem w_net w_calls]; try done.
  - by apply (set_node_pointwise (λ n' x, store_ok G n' (w_rows x))).
  - by apply (set_node_pointwise (λ _ x, ioms_ok (w_ioms x))).
  - apply (set_node_pointwise (λ n' x, ∀ mb op, w_ops x !! mb = Some op → op_ok G n' mb op));
      [apply i_ops0|intros n' _; apply i_ops0].
  - apply (set_node_pointwise (λ _ x, 1 ≤ w_next x)%Z); [apply i_next0|intros n' _; apply i_next0].
  - apply (set_node_pointwise (λ n' x, ∀ mb, tagged G (n', mb) → (0 < mb < w_next x)%Z));
      [apply i_fresh0|intros n' _; apply i_fresh0].
Qed.

Lemma store_events_inv G n evs w w' :
  inv G w → Forall (event_ok G n) evs → store_events n evs w = Ok w' →
  inv G w' ∧ w_mem w' = w_mem w.
Proof.
  intros Hi Hev. revert w Hi. induction Hev as [|ev evs Hok _ IH]; intros w Hi Hs; [by simplify_eq/=|].
  cbn [store_events] in Hs. apply bind_Ok in Hs as (w1 & H1 & Hs).
  assert (Hw1 : inv G w1 ∧ w_mem w1 = w_mem w).
  { destruct ev as [cb k d i|cb k d i|mb [[d i]|]]; cbn [store_event] in H1; [| | |done];
      injection H1 as <-; cbn [event_ok] in Hok.
    1,2: split; [|done]; destruct Hi; split; try done; apply Forall_app; split; [done|];
      by apply Forall_singleton.
    destruct (w_ops _ !! mb); [|done]. split; [|done]. by apply inv_add_packet. }
  destruct Hw1 as [Hi1 <-]. by apply IH.
Qed.

Context (Hp : ∀ n, default_bucket (p n) = bkt).

Lemma got_inv G t n success key d w w' :
  inv G w → (success = true → good (cell_of key) d) → got t n success key d w = Ok w' →
  inv G w' ∧ w_mem w' = w_mem w.
Proof.
  intros Hi Hg Hw. unfold got in Hw. apply bind_Ok in Hw as ([[] s] & Hd & Hw).
  assert (Hs : store_ok G n (h_rows s) ∧ ioms_ok (h_ioms s) ∧
    Forall (event_ok G n) (x ← h_effects s; match x with EStore evs => evs | _ => [] end)).
  { pose proof (i_store _ _ Hi n) as Hst. pose proof (i_ioms _ _ Hi n) as Hio.
    unfold DHT_got in Hd. rewrite Hp in Hd. destruct success.
    - apply (put_quiet_ok G n) in Hd as (H1 & H2 & evs & He & Hev); [|done..|by apply Hg].
      split_and!; [done..|]. rewrite He. cbn. by rewrite app_nil_r.
    - injection Hd as <-. split_and!; [done..|]. by apply Forall_nil. }
  destruct Hs as (H1 & H2 & H3). change (w_mem w) with (w_mem (after n s w)).
  eapply store_events_inv; [by apply inv_after|done|exact Hw].
Qed.

Lemma apply_effects_inv G t n mb xs w w' :
  apply_effects t n mb xs w = Ok w' → inv G w → Forall (effect_ok G (w_mem w) n mb) xs → inv G w'.
Proof.
  revert w. induction xs as [|x xs IH]; intros w Hs Hi Hx; [by simplify_eq/=|].
  apply Forall_cons in Hx as [Hx Hxs]. cbn [apply_effects] in Hs.
  apply bind_Ok in Hs as (w1 & H1 & Hs).
  assert (Hw1 : inv G w1 ∧ w_mem w1 = w_mem w).
  { destruct x; cbn [apply_effect] in H1; cbn [effect_ok] in Hx;
      try (injection H1 as <-; split; [|done]; first [done|by apply inv_add_packet]).
    - by eapply store_events_inv.
    - by eapply got_inv. }
  destruct Hw1 as [Hi1 Hm]. eapply (IH w1); [done..|by rewrite Hm].
Qed.

(** The node [n] changes, and with it the op at [mb]. *)
Lemma inv_extend G G' w n mb mem' x :
  inv G w → G ⊑ G' →
  (∀ o, o ≠ (n, mb) → t_land G' !! o = t_land G !! o) →
  (∀ o, o ≠ (n, mb) → t_op G' !! o = t_op G !! o) →
  w_mem w ⊆ mem' → mem_ok G' mem' →
  store_ok G' n (w_rows x) → ioms_ok (w_ioms x) → (w_next (w_node w n) ≤ w_next x)%Z →
  (tagged G' (n, mb) → (0 < mb < w_next x)%Z) →
  (∀ mb' op, mb' ≠ mb → w_ops x !! mb' = Some op → w_ops (w_node w n) !! mb' = Some op) →
  (∀ op, w_ops x !! mb = Some op → op_ok G' n mb op) →
  inv G' (set_mem mem' (set_node n x w)).
Proof.
  intros [] Hle Hland Hop Hsub Hmem Hs Hi Hnext Htag Hother Hthis.
  assert (Hfr : ∀ o, tagged G' o → tagged G o ∨ o = (n, mb)).
  { intros o Ho. destruct (decide (o = (n, mb))) as [->|Hne]; [by right|]. left.
    unfold tagged in *. rewrite Hland, Hop in Ho by done. done. }
  unfold set_mem, set_node. split; cbn [w_node w_mem w_net w_calls]; try done.
  - apply (set_node_pointwise (λ n' x, store_ok G' n' (w_rows x))); [done|]. intros n' _. by eapply store_ok_le.
  - by apply (set_node_pointwise (λ _ x, ioms_ok (w_ioms x))).
  - apply (set_node_pointwise (λ n' x, ∀ mb op, w_ops x !! mb = Some op → op_ok G' n' mb op)).
    + intros mb' op Hl. destruct (decide (mb' = mb)) as [->|Hne]; [by apply Hthis|].
      eapply op_ok_le; [done|apply Hland; congruence|]. by apply i_ops0, Hother.
    + intros n' Hne mb' op Hl. eapply op_ok_le; [done|apply Hland; congruence|]. by apply i_ops0.
  - apply (set_node_pointwise (λ _ x, 1 ≤ w_next x)%Z); [|done]. specialize (i_next0 n). lia.
  - apply (set_node_pointwise (λ n' x, ∀ mb, tagged G' (n', mb) → (0 < mb < w_next x)%Z)).
    + intros mb' Ht. destruct (Hfr _ Ht) as [Ho|[= ->]]; [|by apply Htag].
      specialize (i_fresh0 _ _ Ho). lia.
    + intros n' Hne mb' Ht. destruct (Hfr _ Ht) as [Ho|[= ? ?]]; [|congruence]. by apply i_fresh0.
  - eapply Forall_impl; [exact i_net0|]. intros k Hk. eapply packet_ok_le; [done| |done].
    intros l. by apply landed_le.
Qed.

Lemma run_update_inv G w n mb a e w' :
  inv G w → env_ok w n mb e → args_ok G (w_mem w) n mb a →
  run_update e n mb a w = Ok w' → ∃ G', inv G' w'.
Proof.
  intros Hi (He1 & He2 & He3 & He4 & He5) Ha Hu. unfold run_update in Hu.
  destruct (w_ops (w_node w n) !! mb) as [op|] eqn:Hop; [|simplify_eq; by exists G].
  apply bind_Ok in Hu as ([[op' wt] s] & Hu & Hs). cbv zeta in Hs.
  pose proof (i_ops _ _ Hi _ _ _ Hop) as Hok. pose proof (op_ok_tagged _ _ _ _ Hok) as Ht.
  pose proof (i_fresh _ _ Hi _ _ Ht) as Hfr.
  assert (Hpost : update_post G (w_mem w) n mb op' wt s).
  { eapply op_update_ok; try done; [apply Hi..|lia]. }
  destruct Hpost as (G' & Hle & Hto & Hland & Hsub & Hmem & Hst & Hio & Heff & Hop').
  exists G'. eapply apply_effects_inv; [exact Hs| |exact Heff].
  eapply (inv_extend G G' w n mb); try done.
  - intros o _. by rewrite Hto.
  - intros mb' op1 Hne. destruct wt; cbn [w_ops]; rewrite ?lookup_insert_ne, ?lookup_delete_ne by done; done.
  - intros op1. cbn [w_ops]. destruct wt; rewrite ?lookup_insert_eq, ?lookup_delete_eq; try done;
      intros [= <-]; by apply Hop'.
Qed.

(** A call of an application, once its parts are known to be well tagged. *)
Lemma next_mailbox G w n :
  inv G w → mailboxes_left w → u32 (w_next (w_node w n) + 1) = (w_next (w_node w n) + 1)%Z.
Proof.
  intros Hi Hl. pose proof (i_next _ _ Hi n). specialize (Hl n). unfold OpBox.max_mailboxes in Hl.
  apply wrap_id. unfold in_width. lia.
Qed.

Lemma call_inv G G' w n e op s mem' w' :
  inv G w → mailboxes_left w → env_ok w n (w_next (w_node w n)) e →
  G ⊑ G' → t_land G' = t_land G →
  (∀ o, o ≠ (n, w_next (w_node w n)) → t_op G' !! o = t_op G !! o) →
  w_mem w ⊆ mem' → mem_ok G' mem' → store_ok G n (h_rows s) → ioms_ok (h_ioms s) →
  Forall (effect_ok G (w_mem w) n (w_next (w_node w n))) (h_effects s) →
  match op with
  | Some op => op_ok G' n (w_next (w_node w n)) op
  | None => t_op G' = t_op G
  end →
  (let w1 := set_mem mem' (after n s w) in
   apply_effects (now e) n (mailbox e) (h_effects s)
     (match op with Some op => launch n op (AUpdate OpBox.start) w1 | None => w1 end)) = Ok w' →
  ∃ G'', inv G'' w'.
Proof.
  intros Hi Hleft (_ & Hmb & _) Hle Hland Hto Hsub Hmem Hst Hio Heff Hop Hw. cbv zeta in Hw. rewrite Hmb in Hw.
  pose proof (i_next _ _ Hi n) as Hnext.
  assert (Hfresh : ∀ mb, tagged G (n, mb) → (0 < mb < w_next (w_node w n))%Z) by apply Hi.
  assert (Heff' : Forall (effect_ok G' mem' n (w_next (w_node w n))) (h_effects s)).
  { eapply Forall_impl; [exact Heff|]. intros x Hx. eapply effect_ok_le; [done| |done].
    intros l. by apply landed_le. }
  exists G'. destruct op as [op|].
  - eapply apply_effects_inv; [exact Hw| |exact Heff'].
    unfold launch. cbn [set_mem after set_node w_node w_rows w_ioms w_ops w_next].
    rewrite fn_lookup_insert. cbn [w_rows w_ioms w_ops w_next].
    rewrite (next_mailbox G) by done. apply inv_add_packet; [|done].
    assert (Hinv : inv G' (set_mem mem' (set_node n (mkWNode (h_rows s) (h_ioms s)
      (<[w_next (w_node w n) := op]> (w_ops (w_node w n))) (w_next (w_node w n) + 1)) w))).
    { eapply (inv_extend G G' w n (w_next (w_node w n))); try done; cbn [w_rows w_ioms w_ops w_next].
      - intros o _. by rewrite Hland.
      - by eapply store_ok_le.
      - lia.
      - lia.
      - intros mb' op1 Hne. by rewrite lookup_insert_ne.
      - intros op1. rewrite lookup_insert_eq. by intros [= <-]. }
    eapply inv_ext; [exact Hinv| |done..]. intros n'. cbn [set_mem after set_node w_node].
    by destruct (decide (n = n')) as [<-|Hne]; rewrite ?fn_lookup_insert, ?fn_lookup_insert_ne by done.
  - eapply apply_effects_inv; [exact Hw| |exact Heff'].
    eapply (inv_extend G G' w n (w_next (w_node w n))); try done; cbn [w_rows w_ioms w_ops w_next].
    + intros o _. by rewrite Hland.
    + by eapply store_ok_le.
    + unfold tagged. rewrite Hop, Hland. apply Hfresh.
    + intros op Ho. apply (i_ops _ _ Hi) in Ho. eapply op_ok_le; [done|by rewrite Hland|done].
Qed.

(** ** The steps keep the invariant *)

Definition tag_op G o r : tags := mkTags (<[o := r]> (t_op G)) (t_land G) (t_mem G).

Lemma fresh_op G w n :
  inv G w → t_op G !! (n, w_next (w_node w n)) = None ∧ t_land G !! (n, w_next (w_node w n)) = None.
Proof.
  intros Hi. split; apply eq_None_not_Some; intros Hs;
    assert (0 < w_next (w_node w n) < w_next (w_node w n))%Z as ?
      by (apply (i_fresh _ _ Hi); unfold tagged; auto); lia.
Qed.

Lemma tag_op_le G w n r : inv G w → G ⊑ tag_op G (n, w_next (w_node w n)) r.
Proof. intros Hi. split_and!; [|done..]. apply insert_subseteq. by apply fresh_op. Qed.

Lemma mem_ok_extend G mem mem' : mem_ok G mem → mem ⊆ mem' → mem_ok G mem'.
Proof.
  intros Hm Hsub l t Hl. destruct (Hm _ _ Hl) as [Hn Ht]. split; [done|].
  destruct t as [d|c size]; [by eapply lookup_weaken|]. destruct Ht as (d & Hd & Hs).
  exists d. split; [by eapply lookup_weaken|done].
Qed.

(** A transfer brings a landing place the object it is for. *)
Lemma inv_write G w l c size d :
  inv G w → t_mem G !! l = Some (Landing c size) → good c d → ldo_user_size d = size →
  inv G (set_mem (<[l := d]> (w_mem w)) w) ∧ landed G (<[l := d]> (w_mem w)) l.
Proof.
  intros [] Hl Hg Hs. assert (Hland : landed G (<[l := d]> (w_mem w)) l).
  { exists c, size, d. by rewrite lookup_insert_eq. }
  split; [|done]. unfold set_mem. split; cbn [w_node w_mem w_net w_calls]; try done.
  - intros l' t Ht. destruct (i_mem0 _ _ Ht) as [Hn Hm]. split; [done|].
    destruct (decide (l' = l)) as [->|Hne]; [|by rewrite lookup_insert_ne].
    rewrite Hl in Ht. injection Ht as <-. exists d. by rewrite lookup_insert_eq.
  - eapply Forall_impl; [exact i_net0|]. intros k Hk. eapply packet_ok_le; [done| |done].
    intros l' (c' & size' & d' & ? & ? & ?). destruct (decide (l' = l)) as [->|Hne]; [done|].
    exists c', size', d'. by rewrite lookup_insert_ne.
Qed.

Lemma inv_net_split G w l1 k l2 :
  inv G w → w_net w = l1 ++ k :: l2 →
  packet_ok G (w_mem w) k ∧ Forall (packet_ok G (w_mem w)) l1 ∧ Forall (packet_ok G (w_mem w)) l2.
Proof. intros Hi He. pose proof (i_net _ _ Hi) as Hn. rewrite He, Forall_app, Forall_cons in Hn. tauto. Qed.

Lemma inv_replace G w l1 k l2 mem :
  inv G (set_mem mem w) → w_net w = l1 ++ k :: l2 → ∀ k',
  packet_ok G mem k' → inv G (set_net (l1 ++ k' :: l2) (set_mem mem w)).
Proof.
  intros Hi He k' Hk. destruct (inv_net_split _ _ l1 k l2 Hi He) as (_ & H1 & H2).
  apply inv_packets; [done|]. rewrite Forall_app, Forall_cons. done.
Qed.

Lemma launch_inv G G' w n op a :
  inv G w → mailboxes_left w → G ⊑ G' → t_land G' = t_land G → t_mem G' = t_mem G →
  (∀ o, o ≠ (n, w_next (w_node w n)) → t_op G' !! o = t_op G !! o) →
  op_ok G' n (w_next (w_node w n)) op → args_ok G' (w_mem w) n (w_next (w_node w n)) a →
  inv G' (launch n op a w).
Proof.
  intros Hi Hleft Hle Hland Hm Hto Hop Ha. unfold launch. rewrite (next_mailbox G) by done. apply inv_add_packet; [|done].
  pose proof (i_next _ _ Hi n) as Hnext.
  assert (Hmem : mem_ok G' (w_mem w)).
  { intros l t. rewrite Hm. apply (i_mem _ _ Hi). }
  eapply (inv_extend G G' w n (w_next (w_node w n)) (w_mem w)); try done; cbn [w_rows w_ioms w_ops w_next].
  - intros o _. by rewrite Hland.
  - eapply store_ok_le; [done|apply Hi].
  - apply Hi.
  - lia.
  - lia.
  - intros mb' op1 Hne. by rewrite lookup_insert_ne.
  - intros op1. rewrite lookup_insert_eq. by intros [= <-].
Qed.

Lemma create_inv G w from to m op :
  inv G w → mailboxes_left w → message_ok G (w_mem w) from to m → dst_mailbox (msg_hdr m) = MAILBOX_UNSPECIFIED →
  create_target (op_id (msg_hdr m)) = Some op → ∃ G', inv G' (launch to op (AMessage from m) w).
Proof.
  intros Hi Hleft Hm Hdst Hc. unfold message_ok in Hm. rewrite Hdst, Z.eqb_refl in Hm.
  pose proof (fresh_op G w to Hi) as [Hf1 Hf2].
  assert (Hgo : ∀ r, op_ok (tag_op G (to, w_next (w_node w to)) r) to (w_next (w_node w to)) op →
    started_ok (tag_op G (to, w_next (w_node w to)) r) (to, w_next (w_node w to)) from m →
    ∃ G', inv G' (launch to op (AMessage from m) w)).
  { intros r Hop Hst. eexists. eapply launch_inv; [done|done|by apply tag_op_le|done|done| |done|].
    - intros o Ho. by apply lookup_insert_ne.
    - cbn [args_ok]. by rewrite Hdst, Z.eqb_refl. }
  assert (Hle : ∀ r, G ⊑ tag_op G (to, w_next (w_node w to)) r) by (intros r; by apply tag_op_le).
  destruct m as [m|m|m|]; cbn [request_ok msg_hdr] in *; [| |done..].
  - destruct Hm as [(Hid & Hs & c & Hr)|(Hid & Hr)]; rewrite Hid in Hc; injection Hc as <-.
    + apply (Hgo (RUnboundedTarget c)); [exists c; apply lookup_insert_eq|]. left. split; [done|].
      exists c. split; [apply lookup_insert_eq|eapply unbounded_request_le; [apply Hle|done]].
    + apply (Hgo RDrop); [apply lookup_insert_eq|]. right. split; [apply lookup_insert_eq|].
      eapply drop_request_le; [apply Hle|done].
  - destruct Hm as [(Hid & Hr & Hs & Ho)|(Hid & Hs & c & Hr)]; rewrite Hid in Hc; injection Hc as <-.
    + apply (Hgo RPublishTarget); [split; [apply lookup_insert_eq|done]|]. left.
      split_and!; [apply lookup_insert_eq|eapply publish_request_le; [apply Hle|done]|done|eapply op_le; [apply Hle|done]].
    + apply (Hgo (RBoundedTarget c (from, src_mailbox (mb_hdr m))));
        [eexists _, _; apply lookup_insert_eq|]. right. split; [done|].
      exists c. split; [apply lookup_insert_eq|eapply bounded_request_le; [apply Hle|done]].
Qed.

Lemma new_buffer_handle self id cmd dst smb dmb b k iom flags obj :
  mb_net_buffer_remote (new_buffer self id cmd dst smb dmb b k iom flags (Some obj)) =
  if (ldo_user_size (obj_val obj) =? 0)%Z then no_buffer else obj_loc obj.
Proof. done. Qed.

(** The calls of the applications. *)
Lemma publish_inv G w n e key d cb s0 r op s' w' :
  inv G w → mailboxes_left w → env_ok w n (w_next (w_node w n)) e → sendable key → good (cell_of key) d →
  store_ok G n (h_rows s0) → ioms_ok (h_ioms s0) →
  Forall (effect_ok G (w_mem w) n (w_next (w_node w n))) (h_effects s0) →
  DHT_Publish (p n) e key (mkObject (free_loc e) d) cb s0 = Ok ((r, op), s') →
  let mem' := <[free_loc e := d]> (w_mem w) in
  (let w1 := set_mem mem' (after n s' w) in
   apply_effects (now e) n (mailbox e) (h_effects s')
     (match op with Some op => launch n op (AUpdate OpBox.start) w1 | None => w1 end)) = Ok w' →
  ∃ G'', inv G'' w'.
Proof.
  intros Hi Hleft Henv Hk Hd Hs0 Hi0 He0 Hu mem' Hw. pose proof Henv as (Hme & Hmb & Hfree & Hloc & _).
  destruct (publish_call_ok G (w_mem w) n (w_next (w_node w n)) e (p n) key
    (mkObject (free_loc e) d) cb s0 r op s' (Hp n) Hd Hs0 Hi0 Hu) as ((Hs1 & Hi1 & xs & Hx & _ & Hxo) & Hop).
  assert (Heff : Forall (effect_ok G (w_mem w) n (w_next (w_node w n))) (h_effects s')).
  { rewrite Hx. by apply Forall_app. }
  assert (Hsub : w_mem w ⊆ mem') by by apply insert_subseteq.
  destruct Hop as [->|(node & peer & ->)].
  { apply (call_inv G G w n e None s' mem' w'); try done. eapply mem_ok_extend; [apply Hi|done]. }
  set (G' := tag_mem (tag_op G (n, w_next (w_node w n)) RPublishOrigin) (free_loc e) (Source d)).
  assert (Hto : t_op G' !! (n, w_next (w_node w n)) = Some RPublishOrigin) by apply lookup_insert_eq.
  eapply (call_inv G G' w n e (Some _) s' mem' w'); try done.
  - split_and!; [by apply tag_op_le|done|]. apply insert_subseteq. eapply fresh_tag; [apply Hi|done].
  - intros o Ho. by apply lookup_insert_ne.
  - eapply mem_ok_tag; [apply Hi|done..].
  - split_and!; [done..|]. left. pose proof (i_next _ _ Hi n) as Hnext.
    change (src_mailbox _) with (mailbox e). rewrite Hmb. split_and!; [done| |lia|done].
    split_and!; [done|apply ldo_user_size_width|]. exists key. split; [by apply new_buffer_key|].
    rewrite new_buffer_handle. cbn [obj_val obj_loc]. destruct (_ =? _)%Z; [by left|].
    right. exists d. split_and!; [apply lookup_insert_eq|done|done].
Qed.

Lemma want_inv G w n e key size cb r op s' w' :
  inv G w → mailboxes_left w → env_ok w n (w_next (w_node w n)) e → sendable key →
  ((0 < size)%Z → in_width 32 size ∧ sized (cell_of key) size) →
  DHT_Want (p n) e key size cb (node_of w n) = Ok ((r, op), s') →
  (let w1 := set_mem (new_objects (h_effects s') (w_mem w)) (after n s' w) in
   apply_effects (now e) n (mailbox e) (h_effects s')
     (match op with Some op => launch n op (AUpdate OpBox.start) w1 | None => w1 end)) = Ok w' →
  ∃ G'', inv G'' w'.
Proof.
  intros Hi Hleft Henv Hk Hsz Hu Hw. pose proof Henv as (Hme & Hmb & Hfree & Hloc & _).
  pose proof (i_next _ _ Hi n) as Hnext. pose proof (fresh_op _ _ n Hi) as [_ Hnl].
  assert (Hwant := λ A, want_call_ok G (w_mem w) n (w_next (w_node w n)) e _ _
    (i_store _ _ Hi n) (i_ioms _ _ Hi n) (p n) key size cb r op s' (Hp n) A).
  specialize (Hwant Hu) as [((Hs1 & Hi1 & xs & Hx & Hxn & Hxo) & Hop)|Hop].
  - cbn [h_effects app] in Hx. rewrite Hx, new_objects_none in Hw by done. rewrite <-Hx in Hw.
    rewrite <-Hx in Hxo. destruct Hop as [->|(node & peer & ->)].
    { apply (call_inv G G w n e None s' (w_mem w) w'); try done. apply Hi. }
    set (G' := tag_op G (n, w_next (w_node w n)) (RUnboundedOrigin (cell_of key))).
    assert (Hto : t_op G' !! (n, w_next (w_node w n)) = Some (RUnboundedOrigin (cell_of key)))
      by apply lookup_insert_eq.
    eapply (call_inv G G' w n e (Some _) s' (w_mem w) w'); try done.
    + by apply tag_op_le.
    + intros o Ho. by apply lookup_insert_ne.
    + apply Hi.
    + split_and!; [done..|]. left. change (src_mailbox _) with (mailbox e). rewrite Hmb.
      split_and!; [done|lia|]. exists (cell_of key). split_and!; [done|by rewrite <-Hmb|].
      exists key. split; [by apply simple_key|done].
  - destruct Hop as (node & peer & st & obj & s1 & (Hs1 & Hi1 & xs & Hx & Hxn & Hxo) & Hpos & Hnew & -> & ->).
    cbn [h_effects app] in Hx. destruct (Hsz Hpos) as [Hwd Hall].
    unfold OpKelpieGetBounded in Hnew. apply bind_Ok in Hnew as ([] & _ & [= <- <-]).
    cbn [add_effects h_effects] in Hw.
    rewrite Hx, new_objects_app, (new_objects_none xs) in Hw by done. cbn [new_objects foldl] in Hw.
    set (G' := tag_mem (tag_op G (n, w_next (w_node w n)) (RBoundedOrigin (cell_of key) (free_loc e)))
      (free_loc e) (Landing (cell_of key) size)).
    assert (Hto : t_op G' !! (n, w_next (w_node w n)) = Some (RBoundedOrigin (cell_of key) (free_loc e)))
      by apply lookup_insert_eq.
    assert (Hbo : bounded_origin G' (n, w_next (w_node w n)) (cell_of key) (free_loc e)).
    { split; [done|]. exists size. split; [apply lookup_insert_eq|done]. }
    eapply (call_inv G G' w n e (Some _) (add_effects [ENew (free_loc e) (ldo_alloc size)] s1)
      (<[free_loc e := ldo_alloc size]> (w_mem w)) w');
      try done; cbn [add_effects h_effects h_rows h_ioms]; [..|rewrite Hx; exact Hw].
    + split_and!; [by apply tag_op_le|done|]. apply insert_subseteq. eapply fresh_tag; [apply Hi|done].
    + intros o Ho. by apply lookup_insert_ne.
    + by apply insert_subseteq.
    + eapply mem_ok_tag; [apply Hi|done|done|]. by apply ldo_alloc_size.
    + rewrite Hx. apply Forall_app. split; [done|by apply Forall_singleton].
    + split_and!; [done..|]. right. change (src_mailbox _) with (mailbox e). rewrite Hmb.
      split_and!; [done|lia|]. exists (cell_of key). split_and!; [done|by rewrite <-Hmb|].
      exists key. split_and!; [by apply new_buffer_key|done|].
      rewrite new_buffer_handle. cbn [obj_val obj_loc]. rewrite ldo_alloc_size by done.
      by replace (size =? 0)%Z with false by lia.
Qed.

Lemma drop_inv G w n e key cb r op s' w' :
  inv G w → mailboxes_left w → env_ok w n (w_next (w_node w n)) e →
  DHT_Drop (p n) e key cb (node_of w n) = Ok ((r, op), s') →
  (let w1 := set_mem (new_objects (h_effects s') (w_mem w)) (after n s' w) in
   apply_effects (now e) n (mailbox e) (h_effects s')
     (match op with Some op => launch n op (AUpdate OpBox.start) w1 | None => w1 end)) = Ok w' →
  ∃ G'', inv G'' w'.
Proof.
  intros Hi Hleft Henv Hu Hw.
  destruct (drop_call_ok G (w_mem w) n (w_next (w_node w n)) e _ _ (i_store _ _ Hi n) (i_ioms _ _ Hi n)
    (p n) key cb r op s' Hu) as ((Hs1 & Hi1 & xs & Hx & Hxn & Hxo) & Hop).
  cbn [h_effects app] in Hx. rewrite Hx, new_objects_none in Hw by done. rewrite <-Hx in Hw, Hxo.
  destruct Hop as [->|[st ->]].
  { apply (call_inv G G w n e None s' (w_mem w) w'); try done. apply Hi. }
  eapply (call_inv G (tag_op G (n, w_next (w_node w n)) RDrop) w n e (Some _) s' (w_mem w) w'); try done.
  - by apply tag_op_le.
  - intros o Ho. by apply lookup_insert_ne.
  - apply Hi.
  - apply lookup_insert_eq.
Qed.

Lemma publish_key_inv G w n e key cb r op s' w' :
  inv G w → mailboxes_left w → env_ok w n (w_next (w_node w n)) e → sendable key →
  DHT_Publish_key (p n) e key cb (node_of w n) = Ok ((r, op), s') →
  (let w1 := set_mem (new_objects (h_effects s') (w_mem w)) (after n s' w) in
   apply_effects (now e) n (mailbox e) (h_effects s')
     (match op with Some op => launch n op (AUpdate OpBox.start) w1 | None => w1 end)) = Ok w' →
  ∃ G'', inv G'' w'.
Proof.
  intros Hi Hleft Henv Hk Hu Hw. unfold DHT_Publish_key in Hu. rewrite (Hp n) in Hu.
  apply bind_inv in Hu as ([[rc ldo] i] & s1 & Hg & Hu).
  apply (lkv_get_ok G n) in Hg as ((Hs1 & Hi1 & evs & Hev & Hevo) & Hgood & Hrc);
    [|apply Hi..]. cbn [node_of h_effects app] in Hev. cbv beta iota zeta in Hu.
  assert (He1 : Forall (effect_ok G (w_mem w) n (w_next (w_node w n))) (h_effects s1)).
  { rewrite Hev. by apply Forall_singleton. }
  destruct Hrc as [->| ->].
  - change (KELPIE_OK =? KELPIE_ENOENT)%Z with false in Hu. cbv iota in Hu. rewrite bind_emit in Hu.
    specialize (Hgood eq_refl).
    set (s2 := add_effects [ENew (free_loc e) (default ldo_null ldo)] s1) in *.
    destruct (publish_call_ok G (w_mem w) n (w_next (w_node w n)) e (p n) key
      (mkObject (free_loc e) (default ldo_null ldo)) cb s2 r op s' (Hp n) Hgood Hs1 Hi1 Hu)
      as ((_ & _ & xs & Hx & Hxn & _) & _).
    eapply (publish_inv G w n e key _ cb s2); [done|done|done|done|exact Hgood|exact Hs1|exact Hi1| |exact Hu|].
    + unfold s2. cbn [add_effects h_effects]. apply Forall_app. split; [done|by apply Forall_singleton].
    + assert (Hno : new_objects (h_effects s') (w_mem w) = <[free_loc e := default ldo_null ldo]> (w_mem w)).
      { rewrite Hx, new_objects_app, (new_objects_none xs) by done. unfold s2. cbn [add_effects h_effects].
        by rewrite Hev. }
      rewrite Hno in Hw. exact Hw.
  - injection Hu as <- <- <-. 
    assert (Hno : new_objects (h_effects s1) (w_mem w) = w_mem w) by by rewrite Hev.
    rewrite Hno in Hw.
    apply (call_inv G G w n e None s1 (w_mem w) w'); try done. apply Hi.
Qed.

Lemma step_inv G w w' : inv G w → mailboxes_left w → step w w' → ∃ G', inv G' w'.
Proof.
  intros Hi Hleft Hs. destruct Hs as
    [w n e key d cb w' Henv Hk Hd Hr|w n e key cb w' Henv Hk Hr|w n e key size cb w' Henv Hk Hsz Hr
    |w n e key cb w' Henv Hr|w from to m l1 l2 op Hn Hdst Hc|w from to m l1 l2 Hn Hdst Hop
    |w n mb a l1 l2 e w' Hn Henv Hr|w n mb nbr l l1 l2 src dst Hn Hnb Hsrc Hland
    |w n mb d nbr l1 l2 dst Hn Hland].
  1-4: unfold run_call in Hr; apply bind_Ok in Hr as ([[r op] s] & Hu & Hw).
  - change (node_of (set_mem _ w) n) with (node_of w n) in Hu.
    refine (publish_inv G w n e key d cb (node_of w n) r op s w' Hi Hleft Henv Hk Hd _ _ _ Hu _);
      [apply Hi..|done|].
    destruct (publish_call_ok G (w_mem w) n (w_next (w_node w n)) e (p n) key
      (mkObject (free_loc e) d) cb (node_of w n) r op s (Hp n) Hd (i_store _ _ Hi n) (i_ioms _ _ Hi n) Hu)
      as ((_ & _ & xs & Hx & Hxn & _) & _).
    cbn [node_of h_effects app] in Hx. rewrite Hx, (new_objects_none xs) in Hw by done. by rewrite Hx.
  - by eapply publish_key_inv.
  - by eapply want_inv.
  - by eapply drop_inv.
  - destruct (inv_net_split _ _ _ _ _ Hi Hn) as (Hk & H1 & H2).
    eapply (create_inv G (set_net (l1 ++ l2) w)); [|exact Hleft|exact Hk|done..]. apply inv_packets; [done|]. by apply Forall_app.
  - destruct (inv_net_split _ _ _ _ _ Hi Hn) as (Hk & H1 & H2). exists G.
    apply inv_packets; [done|]. apply Forall_app. split; [done|]. apply Forall_cons. split; [|done].
    cbn [packet_ok args_ok] in *. unfold message_ok in Hk.
    destruct (Z.eqb_spec (dst_mailbox (msg_hdr m)) MAILBOX_UNSPECIFIED); [done|]. by split.
  - destruct (inv_net_split _ _ _ _ _ Hi Hn) as (Hk & H1 & H2).
    eapply (run_update_inv G (set_net (l1 ++ l2) w)); [|exact Henv|exact Hk|exact Hr]. apply inv_packets; [done|]. by apply Forall_app.
  - destruct (inv_net_split _ _ _ _ _ Hi Hn) as ((Hto & c & size & Hl & [?|(d & Ht & Hg & Hsz)]) & _); [done|].
    destruct (i_mem _ _ Hi _ _ Ht) as [_ Hd]. destruct (i_mem _ _ Hi _ _ Hl) as (_ & d' & Hd' & Hsz').
    assert (src = d) as -> by congruence. assert (d' = dst) as -> by congruence.
    rewrite xfer_same by congruence.
    destruct (inv_write G w l c size d Hi Hl Hg Hsz) as [Hi' Hld]. exists G.
    eapply inv_replace; [done..|]. by exists l.
  - destruct (inv_net_split _ _ _ _ _ Hi Hn) as ((c & oo & Ho & Hoo & Hg & Hl) & _).
    destruct (i_mem _ _ Hi _ _ Hl) as (_ & d' & Hd' & Hsz').
    assert (d' = dst) as -> by congruence. rewrite xfer_same by done.
    destruct (inv_write G w nbr c _ d Hi Hl Hg eq_refl) as [Hi' Hld]. exists G.
    eapply inv_replace; [done..|]. by exists c, oo, nbr.
Qed.

Lemma initial_inv w : initial w → inv (mkTags ∅ ∅ ∅) w.
Proof.
  intros (Hn & Hm & Hl & Hc). split; try (intros n; destruct (Hn n) as (H1 & H2 & H3 & H4)).
  - intros l t Ht. done.
  - rewrite H1. split; [apply map_Forall_empty|]. by intros full row Hr.
  - done.
  - intros mb op. by rewrite H3.
  - by rewrite H4.
  - intros mb [[? ?]|[? ?]]; done.
  - rewrite Hl. by apply Forall_nil.
  - rewrite Hc. by apply Forall_nil.
Qed.

Lemma world_reachable_inv w : reachable w → ∃ G, inv G w.
Proof.
  induction 1 as [w Hw|w w' _ [G IH] Hl Hs]; [eexists; by apply initial_inv|by eapply step_inv].
Qed.

(** C1: as long as no node has used up its mailboxes, what every node of a pool stores or hands to an
    application was published there. *)
Theorem dht_integrity w :
  reachable w →
  (∀ n cb key d, (n, cb, key, d) ∈ w_calls w → good (cell_of key) d) ∧
  ∀ n full row name c, w_rows (w_node w n) !! full = Some row → getCol name row = Some c →
    availability c = InLocalMemory → good (full, name) (ldo c).
Proof.
  intros (G & Hi)%world_reachable_inv. split.
  - intros n cb key d Hc. pose proof (i_calls _ _ Hi) as Hall. rewrite Forall_forall in Hall.
    by apply (Hall _ Hc).
  - intros n full row name c Hr Hc. destruct (i_store _ _ Hi n) as [_ Hall].
    by destruct (Hall _ _ _ _ Hr Hc).
Qed.
(** * Running a world *)

(** What can be made to happen: a call, or the [i]-th thing in flight. *)
Inductive action :=
| ActPublish (n : NodeID.t) (key : Key) (d : D) (cb : option callback_id)
| ActPublishKey (n : NodeID.t) (key : Key) (cb : option callback_id)
| ActWant (n : NodeID.t) (key : Key) (size : Z) (cb : option callback_id)
| ActDrop (n : NodeID.t) (key : Key) (cb : option callback_id)
| ActTurn (i : nat).

Definition env_of w (n : NodeID.t) (mb t : Z) : env (D := D) :=
  mkEnv n t mb (fresh ({[no_buffer]} ∪ dom (w_mem w) : gset handle))
    (λ h, default ldo_null (w_mem w !! h)).

Definition value {A} (o : outcome A) : option A := match o with Ok a => Some a | Throw _ => None end.

Definition turn (t : Z) (i : nat) w : option world :=
  let l1 := take i (w_net w) in
  let l2 := drop (S i) (w_net w) in
  k ← w_net w !! i;
  match k with
  | PMessage from to m =>
      if decide (dst_mailbox (msg_hdr m) = MAILBOX_UNSPECIFIED) then
        op ← create_target (op_id (msg_hdr m));
        Some (launch to op (AMessage from m) (set_net (l1 ++ l2) w))
      else
        _ ← w_ops (w_node w to) !! dst_mailbox (msg_hdr m);
        Some (set_net (l1 ++ PUpdate to (dst_mailbox (msg_hdr m)) (AMessage from m) :: l2) w)
  | PGet n mb nbr l =>
      if decide (nbr = no_buffer) then None
      else
        src ← w_mem w !! nbr;
        dst ← w_mem w !! l;
        Some (set_net (l1 ++ PUpdate n mb (AUpdate get_success) :: l2)
                (set_mem (<[l := xfer src dst]> (w_mem w)) w))
  | PPut n mb d nbr =>
      dst ← w_mem w !! nbr;
      Some (set_net (l1 ++ PUpdate n mb (AUpdate put_success) :: l2)
              (set_mem (<[nbr := xfer d dst]> (w_mem w)) w))
  | PUpdate n mb a => value (run_update (env_of w n mb t) n mb a (set_net (l1 ++ l2) w))
  end.

Definition act (t : Z) (a : action) w : option world :=
  let e n := env_of w n (w_next (w_node w n)) t in
  match a with
  | ActPublish n key d cb =>
      value (run_call (e n) n (DHT_Publish (p n) (e n) key (mkObject (free_loc (e n)) d) cb)
               (set_mem (<[free_loc (e n) := d]> (w_mem w)) w))
  | ActPublishKey n key cb => value (run_call (e n) n (DHT_Publish_key (p n) (e n) key cb) w)
  | ActWant n key size cb => value (run_call (e n) n (DHT_Want (p n) (e n) key size cb) w)
  | ActDrop n key cb => value (run_call (e n) n (DHT_Drop (p n) (e n) key cb) w)
  | ActTurn i => turn t i w
  end.

Fixpoint acts (t : Z) (l : list action) w : option world :=
  match l with
  | [] => Some w
  | a :: l' => w' ← act t a w; acts (t + 1) l' w'
  end.

(** What an application must keep to: it publishes what may be published, under keys that messages
    carry whole, and wants objects of their size. *)
Definition allowed (a : action) : Prop :=
  match a with
  | ActPublish _ key d _ => sendable key ∧ good (cell_of key) d
  | ActPublishKey _ key _ => sendable key
  | ActWant _ key size _ => sendable key ∧ ((0 < size)%Z → in_width 32 size ∧ sized (cell_of key) size)
  | ActDrop _ _ _ | ActTurn _ => True
  end.

Lemma env_of_ok w n mb t : env_ok w n mb (env_of w n mb t).
Proof.
  pose proof (is_fresh ({[no_buffer]} ∪ dom (w_mem w) : gset handle)) as Hf.
  apply not_elem_of_union in Hf as [Hf1 Hf2]. split_and!; [done..| | |done].
  - by apply not_elem_of_dom in Hf2.
  - intros He. apply Hf1. cbn [free_loc env_of] in He. rewrite He. by apply elem_of_singleton.
Qed.

Lemma value_Some {A} (o : outcome A) a : value o = Some a → o = Ok a.
Proof. destruct o; cbn; congruence. Qed.

Lemma act_step t a w w' : allowed a → act t a w = Some w' → step w w'.
Proof.
  intros Ha Hs. pose proof (λ n mb, env_of_ok w n mb t) as He.
  destruct a as [n key d cb|n key cb|n key size cb|n key cb|i]; cbn [act allowed] in *;
    [..|unfold turn in Hs]; cbv zeta in Hs; [apply value_Some in Hs..|].
  - destruct Ha. by eapply step_publish.
  - by eapply step_publish_key.
  - destruct Ha. by eapply step_want.
  - by eapply step_drop.
  - destruct (w_net w !! i) as [k|] eqn:Hk; [|done]. apply take_drop_middle in Hk. cbn [mbind option_bind] in Hs.
    destruct k as [from to m|n mb nbr l|n mb d nbr|n mb a].
    + case_decide.
      * destruct (create_target _) eqn:Hc; [|done]. injection Hs as <-. by eapply step_create.
      * destruct (w_ops _ !! _) eqn:Ho; [|done]. injection Hs as <-. by eapply step_deliver.
    + case_decide; [done|]. destruct (w_mem w !! nbr) eqn:Hsrc; [|done].
      destruct (w_mem w !! l) eqn:Hd; [|done]. injection Hs as <-. by eapply step_get.
    + destruct (w_mem w !! nbr) eqn:Hd; [|done]. injection Hs as <-. by eapply step_put.
    + apply value_Some in Hs. by eapply step_update.
Qed.

(** A step takes at most one mailbox of a node. *)
Lemma store_events_next n evs w w' n' :
  store_events n evs w = Ok w' → w_next (w_node w' n') = w_next (w_node w n').
Proof.
  revert w. induction evs as [|ev evs IH]; intros w; cbn [store_events]; [by intros [= <-]|].
  intros (w1 & H1 & Hs)%bind_Ok. rewrite (IH _ Hs). clear IH Hs.
  destruct ev as [cb k d i|cb k d i|mb [[d i]|]]; cbn [store_event] in H1; [| | |done]; injection H1 as <-;
    try done. by destruct (w_ops _ !! mb).
Qed.

Lemma set_node_next n x w n' :
  w_next x = w_next (w_node w n) → w_next (w_node (set_node n x w) n') = w_next (w_node w n').
Proof.
  intros Hx. cbn [set_node w_node].
  by destruct (decide (n = n')) as [<-|Hne]; rewrite ?fn_lookup_insert, ?fn_lookup_insert_ne by done.
Qed.

Lemma apply_effects_next t n mb xs w w' n' :
  apply_effects t n mb xs w = Ok w' → w_next (w_node w' n') = w_next (w_node w n').
Proof.
  revert w. induction xs as [|x xs IH]; intros w; cbn [apply_effects]; [by intros [= <-]|].
  intros (w1 & H1 & Hs)%bind_Ok. rewrite (IH _ Hs). clear IH Hs.
  destruct x; cbn [apply_effect] in H1; try (by injection H1 as <-).
  - by eapply store_events_next.
  - unfold got in H1. apply bind_Ok in H1 as ([? s] & _ & H1). rewrite (store_events_next _ _ _ _ n' H1).
    by apply set_node_next.
Qed.

Lemma launch_next n op a w n' :
  (1 ≤ w_next (w_node w n))%Z → (w_next (w_node (launch n op a w) n') ≤ w_next (w_node w n') + 1)%Z.
Proof.
  intros H1. unfold launch. cbn [add_packet set_net set_node w_node].
  destruct (decide (n = n')) as [<-|Hne]; rewrite ?fn_lookup_insert, ?fn_lookup_insert_ne by done; [|lia].
  cbn [w_next]. apply Z.mod_le; lia.
Qed.

Lemma run_call_next e n m w w' n' :
  (1 ≤ w_next (w_node w n))%Z → run_call e n m w = Ok w' →
  (w_next (w_node w' n') ≤ w_next (w_node w n') + 1)%Z.
Proof.
  intros H1 ([[? op] s] & _ & Hw)%bind_Ok. cbv zeta in Hw. rewrite (apply_effects_next _ _ _ _ _ _ n' Hw).
  assert (Ha : ∀ k, w_next (w_node (after n s w) k) = w_next (w_node w k)) by (intros k; by apply set_node_next).
  destruct op as [op|]; [|cbn [set_mem w_node]; rewrite Ha; lia].
  pose proof (launch_next n op (AUpdate OpBox.start)
    (set_mem (new_objects (h_effects s) (w_mem w)) (after n s w)) n') as Hl.
  cbn [set_mem w_node] in Hl. rewrite !Ha in Hl. by apply Hl.
Qed.

Lemma run_update_next e n mb a w w' n' :
  run_update e n mb a w = Ok w' → w_next (w_node w' n') = w_next (w_node w n').
Proof.
  unfold run_update. destruct (_ !! mb) as [op|]; [|by intros [= <-]].
  intros ([[op' wt] s] & _ & Hw)%bind_Ok. cbv zeta in Hw. rewrite (apply_effects_next _ _ _ _ _ _ n' Hw).
  by apply set_node_next.
Qed.

Lemma step_next w w' n :
  (∀ k, 1 ≤ w_next (w_node w k))%Z → step w w' → (w_next (w_node w' n) ≤ w_next (w_node w n) + 1)%Z.
Proof.
  intros H1 Hs. destruct Hs as [w k e key d cb w' _ _ _ Hr|w k e key cb w' _ _ Hr|w k e key size cb w' _ _ _ Hr
    |w k e key cb w' _ Hr|w from to m l1 l2 op _ _ _|w from to m l1 l2 _ _ _
    |w k mb a l1 l2 e w' _ _ Hr|w k mb nbr l l1 l2 src dst _ _ _ _|w k mb d nbr l1 l2 dst _ _];
    try (cbn [set_net set_mem w_node]; lia).
  1-4: pose proof (λ A, run_call_next _ _ _ _ _ n A Hr) as Hx; exact (Hx (H1 k)).
  - exact (launch_next to op (AMessage from m) (set_net (l1 ++ l2) w) n (H1 to)).
  - rewrite (run_update_next _ _ _ _ _ _ n Hr). cbn [set_net w_node]. lia.
Qed.

(** What runs, is reachable. *)
Lemma acts_reachable t l w w' :
  reachable w → (∀ n, w_next (w_node w n) + Z.of_nat (length l) ≤ OpBox.max_mailboxes)%Z →
  Forall allowed l → acts t l w = Some w' → reachable w'.
Proof.
  intros Hw Hmb Hl. revert t w Hw Hmb.
  induction Hl as [|a l Ha _ IH]; intros t w Hw Hmb Hs; [by simplify_eq/=|].
  cbn [acts length] in *. destruct (act t a w) as [w1|] eqn:H1; [|done].
  pose proof (act_step _ _ _ _ Ha H1) as Hst.
  assert (Hnx : ∀ n, (w_next (w_node w1 n) ≤ w_next (w_node w n) + 1)%Z).
  { destruct (world_reachable_inv _ Hw) as [G Hi]. intros n. eapply step_next; [|done]. apply Hi. }
  eapply (IH _ w1); [|intros n; specialize (Hmb n); specialize (Hnx n); lia|done].
  eapply reachable_next; [done|intros n; specialize (Hmb n); lia|done].
Qed.
End world.

(** * A pool in use

    Two nodes; the row of [k_hello] lives on the second.  The first publishes, the second sees the
    object arrive, and the first wants it back. *)
#[global] Instance storage_laws : IomLaws storage content.
Proof.
  constructor. intros i [b] k d [b'] k' d'. cbn. intros Hr.
  destruct (decide ((b', k') = (b, k))) as [[= -> ->]|Hne].
  - rewrite lookup_insert_eq in Hr. left. by injection Hr as ->.
  - rewrite lookup_insert_ne in Hr by congruence. by right.
Qed.

Definition dht_url : ResourceURL :=
  mkURL (lit "dht") NodeID.NODE_UNSPECIFIED b0 (lit "/my") (lit "dht") [].
Definition pool_on (n : NodeID.t) : pool :=
  mkPool dht_url b0 n None 0 PoolBehavior.DefaultRemote
    [(target_node, target_node); (origin, origin)] 7 ByRow.
Definition world0 : world (D := content) (I := storage) :=
  mkWorld (λ _, mkWNode ∅ ∅ ∅ 1) ∅ [] [].
Definition no_listing (oc : ObjectCapacities) : Z := 0.
Definition no_compute (f args : str) (b : Bucket.t) (k : Key) (l : gmap Key content) : rc_t * content :=
  (KELPIE_OK, None).
Definition only_hello (c : str * str) (d : content) : Prop := c = cell_of b0 k_hello ∧ d = hello.

Definition there_and_back : list (action (D := content)) :=
  ActPublish origin k_hello hello (Some 3) :: replicate 7 (ActTurn 0) ++
  ActWant origin k_hello 0 (Some 5) :: replicate 9 (ActTurn 0).

Lemma there_and_back_runs :
  option_map w_calls (acts no_listing no_compute pool_on 5 there_and_back world0) =
  Some [(origin, 5, k_hello, hello)].
Proof. vm_compute. reflexivity. Qed.

Lemma there_and_back_allowed : Forall (allowed b0 only_hello) there_and_back.
Proof.
  unfold there_and_back. rewrite Forall_cons, Forall_app, Forall_cons.
  split; [|split; [by apply Forall_replicate|split; [|by apply Forall_replicate]]].
  - split; [exact k_hello_sendable|by split].
  - split; [exact k_hello_sendable|]. intros Hz. by apply Z.lt_irrefl in Hz.
Qed.

Lemma dht_integrity_witness :
  ∃ w : world (D := content) (I := storage), w_calls w = [(origin, 5, k_hello, hello)] ∧ only_hello (cell_of b0 k_hello) hello.
Proof.
  pose proof there_and_back_runs as Hc.
  destruct (acts no_listing no_compute pool_on 5 there_and_back world0) as [w|] eqn:Hw; [|discriminate Hc].
  injection Hc as Hc. exists w. split; [exact Hc|].
  eapply (dht_integrity no_listing no_compute b0 only_hello pool_on (λ n, eq_refl) w).
  - eapply (λ Hp, acts_reachable _ _ _ _ _ Hp 5 there_and_back world0); [done| |intros n; vm_compute; discriminate|exact there_and_back_allowed|exact Hw].
    apply reachable_initial. split_and!; try reflexivity. intros n. split_and!; try reflexivity.
    apply map_Forall_empty.
  - rewrite Hc. apply list_elem_of_here.
Defined.
