(* ===== verification/ResultCollector.v ===== *)
(** Gathering the results of asynchronous requests (src/src/kelpie/pools/ResultCollector.cpp).

    A collector is made for a number of requests; each callback takes the next slot with an atomic
    decrement, fills it, and the one with the last slot decrements once more; [Sync] waits until the
    counter is negative.  The callbacks run on different threads: between taking a slot and filling
    it, and between filling the last one and signalling, others may run, and the steps of the model
    are these pieces. *)
From S2P Require Import Prelude StringHelpers Identifiers Key KelpieTypes LocalKVRow.

Inductive RequestType := Publish | Want | Compute.

Section collector.
Context {D : Type} {LO : LdoOps D}.

(** A slot; the type of a slot that was never filled is not initialised. *)
Record Result := mkResult {
  request_type : option RequestType;
  res_rc : rc_t;
  res_info : object_info_t;
  res_key : Key;
  res_ldo : D }.

Definition blank : Result := mkResult None 0 Wipe (mkKey [] []) ldo_null.

(** The three callbacks with their arguments, and what each writes into its slot. *)
Inductive callback :=
| fn_publish_callback (result : rc_t) (info : object_info_t)
| fn_want_callback (success : bool) (key : Key) (user_ldo : D) (info : object_info_t)
| fn_compute_callback (result : rc_t) (key : Key) (user_ldo : D).

Definition record_result (c : callback) (old : Result) : Result :=
  match c with
  | fn_publish_callback rc info => mkResult (Some Publish) rc info (res_key old) (res_ldo old)
  | fn_want_callback success key d info =>
      mkResult (Some Want) (if success then KELPIE_OK else KELPIE_EINVAL) info key d
  | fn_compute_callback rc key d => mkResult (Some Compute) rc Wipe key d
  end.

(** The collector, the callbacks that have a slot and have not filled it, and those that have
    filled the last slot and not signalled. *)
Record ResultCollector := mkCollector {
  expected_items : Z;
  items_left : Z;
  results : list Result;
  filling : list (Z * callback);
  signalling : nat }.
Implicit Types s : ResultCollector.

Definition new_collector (num_requests : nat) : ResultCollector :=
  mkCollector (Z.of_nat num_requests) (Z.of_nat num_requests) (replicate num_requests blank) [] 0.

(** [int spot = expected_items - (items_left--)] *)
Definition take_spot (c : callback) s : ResultCollector :=
  mkCollector (expected_items s) (items_left s - 1) (results s)
    (filling s ++ [((expected_items s - items_left s)%Z, c)]) (signalling s).

(** The assignments to [results[spot]], and the test for the last slot. *)
Definition fill_spot (spot : Z) (c : callback) (rest : list (Z * callback)) s : outcome ResultCollector :=
  if (spot <? 0)%Z then Throw Undefined
  else
    match results s !! Z.to_nat spot with
    | None => Throw Undefined
    | Some old =>
        Ok (mkCollector (expected_items s) (items_left s)
              (<[Z.to_nat spot := record_result c old]> (results s)) rest
              (if (spot =? expected_items s - 1)%Z then S (signalling s) else signalling s))
    end.

(** [items_left--], after the last slot was filled. *)
Definition signal s : ResultCollector :=
  mkCollector (expected_items s) (items_left s - 1) (results s) (filling s) (pred (signalling s)).

(** [Sync] leaves its loop. *)
Definition synced s : bool := (items_left s <? 0)%Z.

(** What a thread inside a callback does next. *)
Inductive work : ResultCollector → outcome ResultCollector → Prop :=
| work_fill s l1 spot c l2 :
    filling s = l1 ++ (spot, c) :: l2 → work s (fill_spot spot c (l1 ++ l2) s)
| work_signal s : 0 < signalling s → work s (Ok (signal s)).

(** The states of a collector for [n] requests, with the callbacks called so far. *)
Inductive reachable (n : nat) : list callback → ResultCollector → Prop :=
| reachable_new : reachable n [] (new_collector n)
| reachable_call cs s c : reachable n cs s → length cs < n → reachable n (cs ++ [c]) (take_spot c s)
| reachable_work cs s s' : reachable n cs s → work s (Ok s') → reachable n cs s'.

(** ** The invariant *)

(** Slot [i] is being filled by the callback that took it, is filled, or is blank. *)
Definition slot_ok (cs : list callback) s (i : nat) (r : Result) : Prop :=
  match cs !! i with
  | Some c => if bool_decide (Z.of_nat i ∈ (filling s).*1) then r = blank else r = record_result c blank
  | None => r = blank
  end.

Definition last_filled (n : nat) (cs : list callback) s : nat :=
  if bool_decide (0 < n ∧ length cs = n ∧ Z.of_nat (n - 1) ∉ (filling s).*1) then 1 else 0.

Record collector_ok (n : nat) (cs : list callback) s : Prop := {
  c_expected : expected_items s = Z.of_nat n;
  c_length : length (results s) = n;
  c_count : length cs ≤ n;
  c_spots : NoDup (filling s).*1;
  c_filling : ∀ spot c, (spot, c) ∈ filling s → (0 ≤ spot)%Z ∧ cs !! Z.to_nat spot = Some c;
  c_slots : ∀ i r, results s !! i = Some r → slot_ok cs s i r;
  c_left : items_left s =
    (Z.of_nat n - Z.of_nat (length cs) - (Z.of_nat (last_filled n cs s) - Z.of_nat (signalling s)))%Z;
  c_signal : signalling s ≤ last_filled n cs s }.

Lemma new_ok n : collector_ok n [] (new_collector n).
Proof.
  split; cbn [new_collector expected_items items_left results filling signalling]; try done.
  - by rewrite length_replicate.
  - cbn. lia.
  - apply NoDup_nil_2.
  - intros ? ? []%elem_of_nil.
  - intros i r [-> _]%lookup_replicate. done.
  - unfold last_filled. cbn. rewrite bool_decide_false; [lia|]. lia.
  - lia.
Qed.

Lemma call_ok n cs s c :
  collector_ok n cs s → length cs < n → collector_ok n (cs ++ [c]) (take_spot c s).
Proof.
  intros [] Hlt.
  assert (Hl0 : last_filled n cs s = 0).
  { unfold last_filled. rewrite bool_decide_false; [done|]. lia. }
  rewrite Hl0 in *. assert (Hspot : (expected_items s - items_left s = Z.of_nat (length cs))%Z) by lia.
  assert (Hnew : Z.of_nat (length cs) ∉ (filling s).*1).
  { intros ([spot c'] & Hs & Hin)%list_elem_of_fmap. cbn in Hs. subst spot.
    destruct (c_filling0 _ _ Hin) as [_ Hc]. rewrite Nat2Z.id in Hc.
    apply lookup_lt_Some in Hc. lia. }
  assert (Hl1 : last_filled n (cs ++ [c]) (take_spot c s) = 0).
  { unfold last_filled. rewrite bool_decide_false; [done|]. rewrite length_app. cbn [length].
    intros (_ & Hn & Hin). apply Hin. cbn [filling take_spot]. rewrite fmap_app, Hspot.
    apply elem_of_app. right. cbn. apply list_elem_of_singleton. lia. }
  split; rewrite ?Hl1; cbn [take_spot expected_items items_left results filling signalling]; try done.
  - rewrite length_app. cbn. lia.
  - rewrite fmap_app, Hspot. apply NoDup_app. split_and!; [done| |apply NoDup_singleton].
    by intros x Hx ->%list_elem_of_singleton.
  - intros spot c' [Hin| [= -> ->]%list_elem_of_singleton]%elem_of_app.
    + destruct (c_filling0 _ _ Hin) as [? Hc]. split; [done|]. by apply lookup_app_l_Some.
    + rewrite Hspot, Nat2Z.id. split; [lia|]. by apply list_lookup_middle.
  - intros i r Hr. specialize (c_slots0 _ _ Hr). unfold slot_ok in *. cbn [filling take_spot].
    rewrite fmap_app, Hspot. cbn [fmap list_fmap fst].
    destruct (decide (i < length cs)) as [Hi|Hi].
    + rewrite lookup_app_l by done. destruct (cs !! i); [|done].
      by replace (bool_decide (Z.of_nat i ∈ (filling s).*1 ++ [Z.of_nat (length cs)])) with
        (bool_decide (Z.of_nat i ∈ (filling s).*1)) by (apply bool_decide_ext; set_solver by lia).
    + rewrite lookup_ge_None_2 in c_slots0 by lia. rewrite lookup_app_r by lia.
      destruct (i - length cs) as [|k] eqn:Hk; cbn; [|done].
      rewrite bool_decide_true; [done|]. apply elem_of_app. right. apply list_elem_of_singleton. lia.
  - rewrite length_app. cbn. lia.
Qed.
Lemma fill_ok n cs s l1 spot c l2 :
  collector_ok n cs s → filling s = l1 ++ (spot, c) :: l2 →
  ∃ s', fill_spot spot c (l1 ++ l2) s = Ok s' ∧ filling s' = l1 ++ l2 ∧ collector_ok n cs s'.
Proof.
  intros [] Hf. destruct (c_filling0 spot c) as [Hpos Hc]; [rewrite Hf; set_solver|].
  pose proof (lookup_lt_Some _ _ _ Hc) as Hlt.
  destruct (lookup_lt_is_Some_2 (results s) (Z.to_nat spot)) as [old Hold]; [lia|].
  rewrite Hf, fmap_app, fmap_cons in c_spots0. cbn [fst] in c_spots0.
  apply NoDup_app in c_spots0 as (Hn1 & Hn12 & [Hnot Hn2]%NoDup_cons).
  assert (Hspot : spot ∉ (l1 ++ l2).*1).
  { rewrite fmap_app, elem_of_app. intros [Hin|?]; [|done]. by destruct (Hn12 _ Hin); left. }
  assert (Hiff : ∀ x, x ≠ spot → x ∈ (l1 ++ l2).*1 ↔ x ∈ (filling s).*1).
  { intros x Hx. rewrite Hf, !fmap_app, fmap_cons. cbn [fst]. set_solver. }
  assert (Hblank : old = blank).
  { specialize (c_slots0 _ _ Hold). unfold slot_ok in c_slots0. rewrite Hc, Z2Nat.id in c_slots0 by lia.
    rewrite bool_decide_true in c_slots0; [done|]. rewrite Hf, fmap_app. set_solver. }
  unfold fill_spot. rewrite (proj2 (Z.ltb_ge spot 0)) by done. rewrite Hold. eexists.
  split; [done|]. split; [done|].
  assert (Hlast : last_filled n cs (mkCollector (expected_items s) (items_left s)
      (<[Z.to_nat spot:=record_result c old]> (results s)) (l1 ++ l2)
      (if (spot =? expected_items s - 1)%Z then S (signalling s) else signalling s)) =
    (if (spot =? expected_items s - 1)%Z then S (last_filled n cs s) else last_filled n cs s) ∧
    ((spot = expected_items s - 1)%Z → last_filled n cs s = 0)).
  { unfold last_filled. cbn [filling]. destruct (Z.eqb_spec spot (expected_items s - 1)) as [He|He].
    - rewrite (bool_decide_false (0 < n ∧ length cs = n ∧ Z.of_nat (n - 1) ∉ (filling s).*1)).
      + split; [|done]. rewrite bool_decide_true; [done|]. split_and!; [lia..|].
        by replace (Z.of_nat (n - 1)) with spot by lia.
      + intros (_ & _ & Hin). apply Hin. rewrite Hf, fmap_app. replace (Z.of_nat (n - 1)) with spot by lia.
        set_solver.
    - split; [|done]. erewrite bool_decide_ext; [done|].
      split; intros (? & ? & Hin); (split_and!; [done..|]); by rewrite Hiff in * by lia. }
  destruct Hlast as [Hl Hl0].
  split; cbn [expected_items items_left results filling signalling]; try done.
  - by rewrite length_insert.
  - rewrite fmap_app. apply NoDup_app. split_and!; [done| |done].
    intros x Hx Hx2. apply (Hn12 _ Hx). by right.
  - intros spot' c' Hin. apply c_filling0. rewrite Hf. set_solver.
  - intros i r Hr. unfold slot_ok. cbn [filling]. apply list_lookup_insert_Some in Hr as [(<- & <- & _)|[Hne Hr]].
    + rewrite Hc, Z2Nat.id by lia. by rewrite bool_decide_false, Hblank.
    + specialize (c_slots0 _ _ Hr). unfold slot_ok in c_slots0. destruct (cs !! i); [|done].
      by rewrite (bool_decide_ext _ _ (Hiff (Z.of_nat i) ltac:(lia))).
  - rewrite Hl. destruct (_ =? _)%Z; lia.
  - rewrite Hl. destruct (_ =? _)%Z; lia.
Qed.

Lemma signal_ok n cs s : collector_ok n cs s → 0 < signalling s → collector_ok n cs (signal s).
Proof.
  intros [] Hs. assert (Hl : last_filled n cs (signal s) = last_filled n cs s) by done.
  split; rewrite ?Hl; cbn [signal expected_items items_left results filling signalling]; try done; lia.
Qed.

Lemma collector_reachable_ok n cs s : reachable n cs s → collector_ok n cs s.
Proof.
  induction 1 as [|cs s c _ IH Hlt|cs s s' _ IH Hw]; [apply new_ok|by apply call_ok|].
  inversion Hw as [? l1 spot c l2 Hf Ho|? Hsig]; subst.
  - destruct (fill_ok _ _ _ _ _ _ _ IH Hf) as (s1 & Hs1 & _ & Hok). congruence.
  - by apply signal_ok.
Qed.

(** ** What the collector guarantees *)

Lemma slots_ok n cs s i c :
  collector_ok n cs s → cs !! i = Some c →
  Z.of_nat i ∈ (filling s).*1 ∨ results s !! i = Some (record_result c blank).
Proof.
  intros [] Hc. destruct (decide (Z.of_nat i ∈ (filling s).*1)) as [|Hin]; [by left|right].
  pose proof (lookup_lt_Some _ _ _ Hc) as Hlt.
  destruct (lookup_lt_is_Some_2 (results s) i) as [r Hl]; [lia|]. rewrite Hl.
  specialize (c_slots0 _ _ Hl). unfold slot_ok in c_slots0. rewrite Hc in c_slots0.
  by rewrite bool_decide_false in c_slots0 by done; subst.
Qed.

(** With no more callbacks than were announced, every callback writes a slot of its own that
    exists, and [Sync] returns only after all of them were called. *)
Theorem collector_safe n cs s o :
  reachable n cs s →
  (work s o → ∃ s', o = Ok s') ∧
  (∀ i c, cs !! i = Some c → Z.of_nat i ∈ (filling s).*1 ∨ results s !! i = Some (record_result c blank)) ∧
  (synced s = true → length cs = n).
Proof.
  intros Hr%collector_reachable_ok. split_and!.
  - intros Hw. destruct Hw as [s l1 spot c l2 Hf|s Hs]; [|eauto].
    destruct (fill_ok _ _ _ _ _ _ _ Hr Hf) as (s' & Hs' & _). eauto.
  - intros i c. by apply (slots_ok n).
  - unfold synced. intros Hs%Z.ltb_lt. destruct Hr. unfold last_filled in *. case_bool_decide; lia.
Qed.

(** The threads inside callbacks come to an end. *)
Definition to_do s : nat := 2 * length (filling s) + signalling s.

Lemma work_decreases s s' : work s (Ok s') → to_do s' < to_do s.
Proof.
  intros Hw. inversion Hw as [? l1 spot c l2 Hf Hss Ho|? Hs]; subst.
  - unfold fill_spot in Ho. destruct (_ <? _)%Z; [done|]. destruct (results s !! _); [|done].
    injection Ho as <-. unfold to_do. cbn [filling signalling]. rewrite Hf, !length_app. cbn [length].
    destruct (_ =? _)%Z; lia.
  - unfold to_do, signal. cbn [filling signalling]. lia.
Qed.

(** C32: In a collector of at least one request, once all the callbacks that were announced have been called and have run to their end, which
    they do after finitely many steps, [Sync] returns and every slot has its result. *)
Theorem collector_completes n cs s :
  reachable n cs s → 0 < n → length cs = n →
  (∀ s', work s (Ok s') → to_do s' < to_do s) ∧
  ((∀ o, ¬ work s o) → synced s = true ∧ results s = (λ c, record_result c blank) <$> cs).
Proof.
  intros Hr Hn Hcs. split; [apply work_decreases|]. intros Hdone.
  assert (Hf : filling s = []).
  { destruct (filling s) as [|[spot c] l] eqn:Hf; [done|]. exfalso. by eapply Hdone, (work_fill s []). }
  assert (Hs : signalling s = 0).
  { destruct (decide (0 < signalling s)) as [Hp|]; [|lia]. exfalso. by eapply Hdone, work_signal. }
  apply collector_reachable_ok in Hr as Hok. pose proof (λ i c, slots_ok n cs s i c Hok) as Hslots. destruct Hok.
  split.
  - unfold synced. apply Z.ltb_lt. assert (Hl : last_filled n cs s = 1); [|lia].
    unfold last_filled. rewrite bool_decide_true; [done|]. rewrite Hf. split_and!; [done..|]. set_solver.
  - apply list_eq. intros i. rewrite list_lookup_fmap. destruct (cs !! i) as [c|] eqn:Hc; cbn.
    + destruct (Hslots _ _ Hc) as [Hin|]; [|done]. rewrite Hf in Hin. set_solver.
    + apply lookup_ge_None in Hc. apply lookup_ge_None. lia.
Qed.

(** [Sync] may return while a slot is still blank: it waits for the last slot to be filled, not
    for all of them. *)
Lemma sync_too_early (c1 c2 : callback) :
  ∃ s, reachable 2 [c1; c2] s ∧ synced s = true ∧ results s !! 0 = Some blank.
Proof.
  set (s1 := take_spot c2 (take_spot c1 (new_collector 2))).
  set (s2 := mkCollector 2 0 [blank; record_result c2 blank] [(0%Z, c1)] 1).
  assert (Hw : work s1 (Ok s2)) by exact (work_fill s1 [(0%Z, c1)] 1%Z c2 [] eq_refl).
  exists (signal s2). split; [|done].
  eapply reachable_work; [|apply work_signal; cbn; lia]. eapply reachable_work; [|exact Hw].
  apply (reachable_call 2 [c1] _ c2); [|cbn; lia].
  apply (reachable_call 2 [] _ c1); [apply reachable_new|cbn; lia].
Qed.

(** A collector for no requests is never done. *)
Lemma sync_nothing cs s : reachable 0 cs s → synced s = false.
Proof.
  intros [Hr ? ? ? ? ? Hl ?]%collector_reachable_ok. unfold synced. apply Z.ltb_ge. rewrite Hl. unfold last_filled.
  rewrite bool_decide_false by lia. lia.
Qed.
End collector.

(** * A collector in use: two results, the second slot filled first *)

Definition c_pub : callback (D := option ldo_content) := fn_publish_callback KELPIE_OK Wipe.
Definition c_want : callback (D := option ldo_content) :=
  fn_want_callback true (mkKey (lit "row") (lit "col")) (Some (mkLdo 0 [] (lit "hello"))) Wipe.
Definition both_called : ResultCollector := take_spot c_want (take_spot c_pub (new_collector 2)).
Definition both_done : ResultCollector (D := option ldo_content) :=
  mkCollector 2 (-1) [record_result c_pub blank; record_result c_want blank] [] 0.

Lemma both_called_reachable : reachable 2 [c_pub; c_want] both_called.
Proof.
  apply (reachable_call 2 [c_pub] _ c_want); [|cbn; lia].
  apply (reachable_call 2 [] _ c_pub); [apply reachable_new|cbn; lia].
Qed.

Lemma both_done_reachable : reachable 2 [c_pub; c_want] both_done.
Proof.
  set (s2 := mkCollector 2 0 [blank; record_result c_want blank] [(0%Z, c_pub)] 1).
  set (s3 := mkCollector 2 0 [record_result c_pub blank; record_result c_want blank] [] 1).
  eapply (reachable_work 2 _ s3); [|exact (work_signal s3 ltac:(cbn; lia))].
  eapply (reachable_work 2 _ s2); [|exact (work_fill s2 [] 0%Z c_pub [] eq_refl)].
  eapply (reachable_work 2 _ both_called); [exact both_called_reachable|].
  exact (work_fill both_called [(0%Z, c_pub)] 1%Z c_want [] eq_refl).
Qed.

Lemma collector_safe_witness : ∃ s', fill_spot 1 c_want [(0%Z, c_pub)] both_called = Ok s'.
Proof.
  refine (proj1 (collector_safe 2 [c_pub; c_want] both_called _ both_called_reachable) _).
  exact (work_fill both_called [(0%Z, c_pub)] 1%Z c_want [] eq_refl).
Defined.

Lemma collector_completes_witness :
  synced both_done = true ∧ results both_done = [record_result c_pub blank; record_result c_want blank].
Proof.
  apply (collector_completes 2 [c_pub; c_want] both_done both_done_reachable); [lia|reflexivity|].
  intros o Hw. inversion Hw as [? l1 spot c l2 Hf|? Hs].
  - destruct l1; discriminate Hf.
  - cbn in Hs. lia.
Defined.
