(* ===== verification/ComputeRegistry.v ===== *)
(** The functions a node offers to compute on its objects (src/src/kelpie/common/ComputeRegistry.cpp):
    the registry, and the built-in function [pick] that selects one of the objects of a search.

    A function is given the objects of the search in a [std::map], which it visits in the order of the
    keys, and an object to overwrite.  [compute_of] is what the ops and the store call
    (the [compute] of LocalKV, KelpieOps and Pools). *)
From S2P Require Import Prelude StringHelpers Identifiers Key KelpieTypes LocalKVRow LocalKV KelpieOps.
From stdpp Require Import sorting.

(** * The order of the keys *)

Definition key_le (a b : Key) : Prop := key_ltb b a = false.

#[global] Instance key_le_dec : RelDecision key_le.
Proof. intros a b. unfold key_le. apply _. Defined.

Lemma key_le_spec a b :
  key_le a b ↔ (K1 a ≠ K1 b ∧ str_le (K1 a) (K1 b)) ∨ (K1 a = K1 b ∧ str_le (K2 a) (K2 b)).
Proof.
  unfold key_le, key_ltb. rewrite orb_false_iff, andb_false_iff, !str_ltb_false, bool_decide_eq_false.
  destruct (decide (K1 a = K1 b)) as [He|He].
  - rewrite He. split; [intros [_ [?|?]]; [done|right; done]|]. intros [[? _]|[_ ?]]; [done|].
    split; [done|by right].
  - split; [intros [? _]; by left|]. intros [[_ ?]|[? _]]; [|done]. split; [done|]. left. congruence.
Qed.

#[global] Instance key_le_total : Total key_le.
Proof.
  intros a b. rewrite !key_le_spec. destruct (decide (K1 a = K1 b)) as [He|He].
  - destruct (total str_le (K2 a) (K2 b)); [left|right]; right; by rewrite He.
  - destruct (total str_le (K1 a) (K1 b)); [left|right]; left; by split.
Qed.

#[global] Instance key_le_trans : Transitive key_le.
Proof.
  intros a b c. rewrite !key_le_spec. intros [[Hn1 H1]|[He1 H1]] [[Hn2 H2]|[He2 H2]].
  - left. split; [|by etrans]. intros He. apply Hn1. apply (anti_symm str_le); [done|by rewrite He].
  - left. by rewrite <-He2.
  - left. by rewrite He1.
  - right. split; [congruence|by etrans].
Qed.

#[global] Instance key_le_antisym : AntiSymm (=) key_le.
Proof.
  intros [a1 a2] [b1 b2]. rewrite !key_le_spec. cbn [K1 K2].
  intros [[Hn H1]|[-> H1]] [[Hn' H2]|[He H2]]; try congruence.
  - by destruct Hn; apply (anti_symm str_le).
  - f_equal. by apply (anti_symm str_le).
Qed.

Section registry.
Context {D : Type} {LO : LdoOps D}.

(** The objects of a map in the order in which it is iterated. *)
Definition entry_le (a b : Key * D) : Prop := key_le a.1 b.1.
#[local] Instance entry_le_dec : RelDecision entry_le.
Proof. intros a b. unfold entry_le. apply _. Defined.

Definition in_order (ldos : gmap Key D) : list (Key * D) := merge_sort entry_le (map_to_list ldos).

(** * The function [pick] *)

Definition choices : list str := [lit "first"; lit "last"; lit "largest"; lit "smallest"].

(** [for(i=0; i<4; i++) if(args == choices[i]) break;] *)
Fixpoint choice (l : list str) (i : nat) (args : str) : nat :=
  match l with
  | [] => i
  | c :: l' => if args =s? c then i else choice l' (S i) args
  end.

(** The loops of the last two choices; the size is the [uint32_t] the loop keeps. *)
Fixpoint pick_by (better : Z → Z → bool) (l : list (Key * D)) (best_size : Z) (ext : D) : D :=
  match l with
  | [] => ext
  | (_, d) :: l' =>
      if better (ldo_user_size d) best_size then pick_by better l' (ldo_user_size d) d
      else pick_by better l' best_size ext
  end.

Definition pick_largest : list (Key * D) → Z → D → D := pick_by Z.gtb.
Definition pick_smallest : list (Key * D) → Z → D → D := pick_by Z.ltb.

(** The code, and what [ext_ldo] points to afterwards. *)
Definition fn_pick (key : Key) (args : str) (ldos : gmap Key D) (ext_ldo : option D) : rc_t * option D :=
  let i := if args =s? [] then 0 else choice choices 0 args in
  let l := in_order ldos in
  if decide (i = 4) then (KELPIE_EINVAL, ext_ldo)
  else
    match l, ext_ldo with
    | [], _ => (KELPIE_ENOENT, ext_ldo)
    | _, None => (KELPIE_OK, None)
    | (_, d) :: _, Some ext =>
        ( KELPIE_OK,
          Some (match i with
                | 0 => d
                | 1 => from_option snd ext (last l)
                | 2 => pick_largest l 0 ext
                | 3 => pick_smallest l (u32 (ldo_user_size d + 1)) ext
                | _ => ext
                end) )
    end.

(** * The registry *)

Abbreviation fn_compute_t := (Bucket.t → Key → str → gmap Key D → option D → rc_t * option D).

Record ComputeRegistry := mkComputeRegistry { started : bool; compute_fns : gmap str fn_compute_t }.
Implicit Types r : ComputeRegistry.

Definition new_compute_registry : ComputeRegistry := mkComputeRegistry false ∅.

Definition RegisterComputeFunction (compute_function_name : str) (f : fn_compute_t) r
    : outcome ComputeRegistry :=
  _ ← F_ASSERT (negb (started r));
  _ ← F_ASSERT (bool_decide (compute_fns r !! compute_function_name = None));
  Ok (mkComputeRegistry (started r) (<[compute_function_name := f]> (compute_fns r))).

Definition init r : outcome ComputeRegistry :=
  RegisterComputeFunction (lit "pick") (λ _, fn_pick) r.
Definition start r : ComputeRegistry := mkComputeRegistry true (compute_fns r).
Definition finish r : ComputeRegistry := mkComputeRegistry false ∅.

Definition registry_doCompute (compute_function_name args : str) (bucket : Bucket.t) (key : Key)
    (ldos : gmap Key D) (ext_ldo : option D) r : rc_t * option D :=
  match compute_fns r !! compute_function_name with
  | None => (KELPIE_EINVAL, ext_ldo)
  | Some f => f bucket key args ldos ext_ldo
  end.

(** What the store calls: the object to overwrite is a new one. *)
Definition compute_of r (function_name args : str) (bucket : Bucket.t) (key : Key) (ldos : gmap Key D)
    : rc_t * D :=
  let '(rc, ext) := registry_doCompute function_name args bucket key ldos (Some ldo_null) r in
  (rc, default ldo_null ext).

(** * What [pick] selects *)

Lemma in_order_elem ldos k d : (k, d) ∈ in_order ldos ↔ ldos !! k = Some d.
Proof. unfold in_order. by rewrite merge_sort_Permutation, elem_of_map_to_list. Qed.

#[local] Instance entry_le_total : Total entry_le.
Proof. intros a b. apply (total key_le). Qed.
#[local] Instance entry_le_trans : Transitive entry_le.
Proof. intros a b c. apply (transitivity (R := key_le)). Qed.

Lemma in_order_sorted ldos : StronglySorted entry_le (in_order ldos).
Proof. apply StronglySorted_merge_sort; apply _. Qed.

(** The loops find an object that no other beats, unless the size they start with rules all out. *)
Lemma pick_by_spec better l size ext :
  (∀ x y z, better x y = true → better y z = true → better x z = true) →
  (∀ x y z, better x y = false → better y z = false → better x z = false) →
  (∀ x, better x x = false) →
  (∀ k d, (k, d) ∈ l → better (ldo_user_size d) size = false) ∧ pick_by better l size ext = ext ∨
  ∃ k d, (k, d) ∈ l ∧ pick_by better l size ext = d ∧ better (ldo_user_size d) size = true ∧
    ∀ k' d', (k', d') ∈ l → better (ldo_user_size d') (ldo_user_size d) = false.
Proof.
  intros Ht Hf Hr. revert size ext. induction l as [|[k d] l IH]; intros size ext; cbn [pick_by].
  { left. split; [intros ? ? []%elem_of_nil|done]. }
  assert (Hless : ∀ x y, better x y = true → better y x = false).
  { intros x y Hxy. destruct (better y x) eqn:Hyx; [|done]. by rewrite <-(Hr x), (Ht x y x). }
  destruct (better (ldo_user_size d) size) eqn:Hb.
  - right. destruct (IH (ldo_user_size d) d) as [[Hall ->]|(k1 & d1 & Hin & -> & Hlt1 & Hall)].
    + exists k, d. split_and!; [by left|done..|]. intros k' d' [[= -> ->]|?]%elem_of_cons; eauto.
    + exists k1, d1. split_and!; [by right|done|eauto|]. intros k' d' [[= -> ->]|?]%elem_of_cons; eauto.
  - destruct (IH size ext) as [[Hall ->]|(k1 & d1 & Hin & -> & Hlt1 & Hall)].
    + left. split; [|done]. intros k' d' [[= -> ->]|?]%elem_of_cons; eauto.
    + right. exists k1, d1. split_and!; [by right|done..|].
      intros k' d' [[= -> ->]|?]%elem_of_cons; eauto.
Qed.

Lemma pick_largest_spec l size ext :
  (∀ k d, (k, d) ∈ l → (ldo_user_size d ≤ size)%Z) ∧ pick_largest l size ext = ext ∨
  ∃ k d, (k, d) ∈ l ∧ pick_largest l size ext = d ∧ (size < ldo_user_size d)%Z ∧
    ∀ k' d', (k', d') ∈ l → (ldo_user_size d' ≤ ldo_user_size d)%Z.
Proof.
  destruct (pick_by_spec Z.gtb l size ext) as [[Hall ?]|(k & d & ? & ? & ? & Hall)]; try (intros; lia).
  - left. split; [|done]. intros k d Hin. specialize (Hall _ _ Hin). lia.
  - right. exists k, d. split_and!; [done..|lia|]. intros k' d' Hin. specialize (Hall _ _ Hin). lia.
Qed.

Lemma pick_smallest_spec l size ext :
  (∀ k d, (k, d) ∈ l → (size ≤ ldo_user_size d)%Z) ∧ pick_smallest l size ext = ext ∨
  ∃ k d, (k, d) ∈ l ∧ pick_smallest l size ext = d ∧
    ∀ k' d', (k', d') ∈ l → (ldo_user_size d ≤ ldo_user_size d')%Z.
Proof.
  destruct (pick_by_spec Z.ltb l size ext) as [[Hall ?]|(k & d & ? & ? & ? & Hall)]; try (intros; lia).
  - left. split; [|done]. intros k d Hin. specialize (Hall _ _ Hin). lia.
  - right. exists k, d. split_and!; [done..|]. intros k' d' Hin. specialize (Hall _ _ Hin). lia.
Qed.

Lemma in_order_nil ldos : in_order ldos = [] ↔ ldos = ∅.
Proof.
  split.
  - intros He. apply map_empty. intros k. destruct (ldos !! k) as [d|] eqn:Hd; [|done].
    apply in_order_elem in Hd. rewrite He in Hd. by apply elem_of_nil in Hd.
  - intros ->. done.
Qed.

(** The choice of a picked object among those that were found. *)
Definition chosen (args : str) (ldos : gmap Key D) (k : Key) (d : D) : Prop :=
  if (args =s? []) || (args =s? lit "first") then ∀ k', is_Some (ldos !! k') → key_le k k'
  else if args =s? lit "last" then ∀ k', is_Some (ldos !! k') → key_le k' k
  else if args =s? lit "largest" then ∀ k' d', ldos !! k' = Some d' → (ldo_user_size d' ≤ ldo_user_size d)%Z
  else ∀ k' d', ldos !! k' = Some d' → (ldo_user_size d ≤ ldo_user_size d')%Z.

Lemma pick_first ldos k d l :
  in_order ldos = (k, d) :: l → ldos !! k = Some d ∧ ∀ k', is_Some (ldos !! k') → key_le k k'.
Proof.
  intros He. pose proof (in_order_sorted ldos) as Hs. rewrite He in Hs.
  apply StronglySorted_cons in Hs as [Hall _]. rewrite Forall_forall in Hall.
  split; [apply in_order_elem; rewrite He; by left|]. intros k' [d' Hd'].
  apply in_order_elem in Hd'. rewrite He in Hd'. apply elem_of_cons in Hd' as [[= -> _]|Hin].
  - by destruct (total key_le k k).
  - by apply (Hall _ Hin).
Qed.

Lemma pick_last ldos k d l :
  in_order ldos = l ++ [(k, d)] → ldos !! k = Some d ∧ ∀ k', is_Some (ldos !! k') → key_le k' k.
Proof.
  intros He. pose proof (in_order_sorted ldos) as Hs. rewrite He in Hs.
  split; [apply in_order_elem; rewrite He; set_solver|]. intros k' [d' Hd'].
  apply in_order_elem in Hd'. rewrite He in Hd'.
  apply elem_of_app in Hd' as [Hin|[= -> _]%list_elem_of_singleton].
  - eapply (StronglySorted_app_1_elem_of entry_le _ _ (k', d') (k, d)) in Hs; [done..|by left].
  - by destruct (total key_le k k).
Qed.

Lemma choice_in args :
  args ∈ choices ↔ choice choices 0 args < 4.
Proof.
  unfold choices. cbn [choice].
  repeat (case_bool_decide; [subst; split; [lia|intros _; set_solver]|]).
  split; [set_solver|lia].
Qed.

(** [pick] refuses what it does not know, reports an empty search, and otherwise hands out one of
    the objects that were found: the one with the first or the last key, or one of largest or
    smallest size (of objects that are not empty and leave room for one byte more). *)
Theorem pick_spec key args ldos ext :
  (args ∉ [] :: choices → fn_pick key args ldos (Some ext) = (KELPIE_EINVAL, Some ext)) ∧
  (args ∈ [] :: choices → ldos = ∅ → fn_pick key args ldos (Some ext) = (KELPIE_ENOENT, Some ext)) ∧
  (args ∈ [] :: choices → ldos ≠ ∅ →
   (∀ k d, ldos !! k = Some d → (0 < ldo_user_size d < 2 ^ 32 - 1)%Z) →
   ∃ k d, ldos !! k = Some d ∧ chosen args ldos k d ∧
     fn_pick key args ldos (Some ext) = (KELPIE_OK, Some d)).
Proof.
  unfold fn_pick. cbv zeta. split_and!.
  - intros Hn. rewrite bool_decide_false by set_solver.
    assert (choice choices 0 args = 4) as ->; [|done].
    assert (args ∉ choices) as Hc by set_solver. unfold choices in Hc |- *. cbn [choice].
    repeat (rewrite bool_decide_false by set_solver). done.
  - intros Ha ->. rewrite decide_False; [done|]. case_bool_decide as He; [done|].
    assert (args ∈ choices) as ?%choice_in by set_solver. lia.
  - intros Ha Hne Hsz. destruct (in_order ldos) as [|[k0 d0] l] eqn:Hl; [by apply in_order_nil in Hl|].
    pose proof (pick_first _ _ _ _ Hl) as [Hk0 Hfirst]. pose proof (Hsz _ _ Hk0) as Hd0.
    assert (Hu : u32 (ldo_user_size d0 + 1) = (ldo_user_size d0 + 1)%Z) by (apply wrap_id; split; lia).
    assert (Hin : ∀ k d, (k, d) ∈ (k0, d0) :: l ↔ ldos !! k = Some d).
    { intros k d. by rewrite <-Hl, in_order_elem. }
    unfold chosen. case_bool_decide as He; cbn [orb]; [by exists k0, d0|].
    assert (Hc : args ∈ choices) by set_solver. unfold choices in Hc |- *. cbn [choice].
    case_bool_decide; [by exists k0, d0|]. case_bool_decide.
    { destruct (@exists_last _ (in_order ldos)) as (l' & [k d] & Hl'); [by rewrite Hl|].
      destruct (pick_last _ _ _ _ Hl') as [Hk Hlast]. exists k, d. split_and!; [done..|].
      cbn [decide]. rewrite <-Hl, Hl', last_snoc. done. }
    case_bool_decide.
    { destruct (pick_largest_spec ((k0, d0) :: l) 0 ext) as [[Hall _]|(k & d & Hd & -> & _ & Hbest)].
      - specialize (Hall k0 d0 ltac:(by left)). lia.
      - exists k, d. split_and!; [by apply Hin| |done]. intros k' d' Hd'. apply (Hbest k'). by apply Hin. }
    rewrite bool_decide_true by set_solver. rewrite Hu.
    destruct (pick_smallest_spec ((k0, d0) :: l) (ldo_user_size d0 + 1) ext) as [[Hall _]|(k & d & Hd & -> & Hbest)].
    + specialize (Hall k0 d0 ltac:(by left)). lia.
    + exists k, d. split_and!; [by apply Hin| |done]. intros k' d' Hd'. apply (Hbest k'). by apply Hin.
Qed.

(** Among empty objects the largest is none of them: the code is [KELPIE_OK] and nothing is
    handed out. *)
Lemma pick_largest_empty key ldos ext :
  ldos ≠ ∅ → (∀ k d, ldos !! k = Some d → ldo_user_size d = 0%Z) →
  fn_pick key (lit "largest") ldos (Some ext) = (KELPIE_OK, Some ext).
Proof.
  intros Hne Hz. unfold fn_pick. cbv zeta.
  change (if lit "largest" =s? [] then 0 else choice choices 0 (lit "largest")) with 2.
  rewrite decide_False by done.
  destruct (in_order ldos) as [|[k0 d0] l] eqn:Hl; [by apply in_order_nil in Hl|].
  destruct (pick_largest_spec ((k0, d0) :: l) 0 ext) as [[_ ->]|(k & d & Hd & _ & Hlt & _)]; [done|].
  rewrite <-Hl in Hd. apply in_order_elem, Hz in Hd. lia.
Qed.

(** * The registry *)

Lemma register_inv name f r r' :
  RegisterComputeFunction name f r = Ok r' →
  started r = false ∧ compute_fns r !! name = None ∧ r' = mkComputeRegistry false (<[name := f]> (compute_fns r)).
Proof.
  unfold RegisterComputeFunction.
  intros ([] & Hs%F_ASSERT_Ok & ([] & Hn%F_ASSERT_Ok & [= <-])%bind_Ok)%bind_Ok.
  apply negb_true_iff in Hs. apply bool_decide_eq_true in Hn. by rewrite Hs.
Qed.

Definition register_all (fs : list (str * fn_compute_t)) (m : outcome ComputeRegistry)
    : outcome ComputeRegistry :=
  foldl (λ m nf, r ← m; RegisterComputeFunction nf.1 nf.2 r) m fs.

Lemma register_all_throw fs e : register_all fs (Throw e) = Throw e.
Proof. by induction fs. Qed.

Lemma register_all_keeps name f fs r r' :
  compute_fns r !! name = Some f → register_all fs (Ok r) = Ok r' → compute_fns r' !! name = Some f.
Proof.
  revert r. induction fs as [|[n g] fs IH]; intros r Hl Hr; [by injection Hr as <-|].
  unfold register_all in Hr. cbn [foldl fst snd mbind outcome_bind] in Hr. fold (register_all fs) in Hr.
  destruct (RegisterComputeFunction n g r) as [r1|e] eqn:H1.
  - apply register_inv in H1 as (_ & Hn & ->). eapply IH; [|exact Hr]. cbn [compute_fns].
    rewrite lookup_insert_ne; [done|]. congruence.
  - change (register_all fs (Throw e) = Ok r') in Hr. by rewrite register_all_throw in Hr.
Qed.

(** A registered function is what computations under its name call, whatever is registered after
    it; registering the name again, or anything after the start, is refused. *)
Theorem registered_computes name f r r' fs r'' :
  RegisterComputeFunction name f r = Ok r' → register_all fs (Ok r') = Ok r'' →
  (∀ args b k ldos ext, registry_doCompute name args b k ldos ext (start r'') = f b k args ldos ext) ∧
  (∀ g r3, RegisterComputeFunction name g r'' ≠ Ok r3) ∧
  (∀ n g r3, RegisterComputeFunction n g (start r'') ≠ Ok r3).
Proof.
  intros (_ & _ & ->)%register_inv Hf.
  assert (Hl : compute_fns r'' !! name = Some f).
  { eapply register_all_keeps; [|exact Hf]. apply lookup_insert_eq. }
  split_and!.
  - intros. unfold registry_doCompute. change (compute_fns (start r'')) with (compute_fns r'').
    by rewrite Hl.
  - intros g r3 (_ & Hn & _)%register_inv. congruence.
  - by intros n g r3 (Hs & _)%register_inv.
Qed.
End registry.

(** * A search and its picks *)

Definition three : gmap Key content :=
  {[ mkKey (lit "r") (lit "a") := obj (lit "xx");
     mkKey (lit "r") (lit "b") := obj (lit "xxxx");
     mkKey (lit "r") (lit "c") := obj (lit "x") ]}.

Definition started_registry : outcome (ComputeRegistry (D := content)) :=
  r ← init new_compute_registry; Ok (start r).

(** The picks of a search, through the registry. *)
Lemma picks :
  (r ← started_registry;
   Ok ((λ args, compute_of r (lit "pick") args b0 k_hello three) <$>
         [lit "first"; lit "last"; lit "largest"; lit "smallest"; lit "best"])) =
  Ok [(KELPIE_OK, obj (lit "xx")); (KELPIE_OK, obj (lit "x")); (KELPIE_OK, obj (lit "xxxx"));
      (KELPIE_OK, obj (lit "x")); (KELPIE_EINVAL, None)].
Proof. vm_compute. reflexivity. Qed.

Lemma pick_spec_witness :
  ∃ k d, three !! k = Some d ∧ chosen (lit "largest") three k d ∧
    fn_pick k_hello (lit "largest") three (Some None) = (KELPIE_OK, Some d).
Proof.
  apply (pick_spec k_hello (lit "largest") three None).
  - right. right. right. left.
  - intros He. apply (f_equal (λ m, m !! mkKey (lit "r") (lit "a"))) in He. discriminate He.
  - apply map_Forall_lookup. unfold three.
    repeat (apply map_Forall_insert_2; [split; vm_compute; reflexivity|]).
    apply map_Forall_empty.
Defined.

Lemma registered_computes_witness :
  ∃ r : ComputeRegistry (D := content),
    ∀ args ldos ext, registry_doCompute (lit "pick") args b0 k_hello ldos ext (start r) =
      fn_pick k_hello args ldos ext.
Proof.
  eexists. intros args ldos ext.
  apply (registered_computes (lit "pick") (λ _, fn_pick) new_compute_registry _
    [(lit "null", λ _ _ _ _ e, (KELPIE_OK, e))] _ eq_refl eq_refl).
Defined.
