(* ===== verification/IomRegistry.v ===== *)
(** I/O modules: the operations on several objects that every module inherits
    (src/src/kelpie/ioms/IomBase.cpp), and the registry of a node's modules
    (src/src/kelpie/ioms/IomRegistry.cpp).

    A module is known by the hash of its name.  Modules registered before the registry is started
    are kept apart from later ones, for which there is a mutex.  Registration looks first and stores
    later; [rstep] interleaves the registrations of several threads. *)
From S2P Require Import Prelude StringHelpers Identifiers ResourceURL Key KelpieTypes LocalKVRow.
From S2P Require Import LocalKV KelpieOps.

(** * Operations on several objects (IomBase.cpp) *)

(** The counters of a driver ([int]s). *)
Record iom_stats := mkStats {
  stat_wr_requests : Z;
  stat_wr_bytes : Z;
  stat_rd_requests : Z;
  stat_rd_bytes : Z;
  stat_rd_hits : Z;
  stat_rd_misses : Z
}.

Definition no_stats : iom_stats := mkStats 0 0 0 0 0 0.

(** The constructor keeps the settings that the driver knows. *)
Definition keep_settings (valid_settings : list str) (new_settings : gmap str str) : gmap str str :=
  fold_left (λ settings s,
    match new_settings !! s with Some v => <[s := v]> settings | None => settings end) valid_settings ∅.

(** The texts that drivers build names from. *)
Lemma c_str_plain (s : str) : nul ∉ s → c_str s = s.
Proof.
  intros Hs. rewrite <-(app_nil_r s) at 1. rewrite c_str_app, app_nil_r; [done|].
  apply Forall_forall. by intros c Hc ->.
Qed.

Lemma hex_plain b (P : ascii → bool) :
  Bucket.wf b → forall_char (λ c, implb (is_digit_of 16 c) (P c)) = true → P "x"%char = true →
  Forall (λ c, P c = true) (Bucket.GetHex b).
Proof.
  intros [H0 _] HP Hx. pose proof (forall_char_spec _ "0"%char HP) as H0'. cbv beta in H0'.
  unfold Bucket.GetHex. apply Forall_app. split; [by repeat constructor|].
  eapply Forall_impl; [exact (show_base_digits 16 _ ltac:(lia) H0)|]. intros c Hc.
  pose proof (forall_char_spec _ c HP) as Hi. cbv beta in Hi. by rewrite Hc in Hi.
Qed.

Lemma hex_inj b b' : Bucket.wf b → Bucket.wf b' → Bucket.GetHex b = Bucket.GetHex b' → b = b'.
Proof.
  intros Hb Hb' He. pose proof (Bucket_hex_ok b Hb) as Hx. rewrite He, Bucket_hex_ok in Hx by done.
  congruence.
Qed.

Section iom_base.
Context {D : Type} {LO : LdoOps D} {I : Type} {IO : IomBase I D}.

Fixpoint GetInfo_all (i : I) (b : Bucket.t) (keys : list Key) (rc : rc_t) : rc_t * list object_info_t :=
  match keys with
  | [] => (rc, [])
  | k :: keys' =>
      let '(rc2, info) := iom_GetInfo i b k in
      let '(rc', infos) := GetInfo_all i b keys' (if negb (rc2 =? KELPIE_OK)%Z then rc2 else rc) in
      (rc', info :: infos)
  end.

Fixpoint WriteObjects (i : I) (b : Bucket.t) (items : list (Key * D)) : I :=
  match items with
  | [] => i
  | (k, d) :: items' => WriteObjects (iom_WriteObject i b k d).2 b items'
  end.

(** The code, the objects that were found and the keys that were not. *)
Fixpoint ReadObjects (i : I) (b : Bucket.t) (keys : list Key) (return_rc : rc_t)
    : rc_t * list (Key * D) * list Key :=
  match keys with
  | [] => (return_rc, [], [])
  | k :: keys' =>
      let '(rc, d) := iom_ReadObject i b k in
      if (rc =? KELPIE_OK)%Z then
        let '(rc', found, missing) := ReadObjects i b keys' return_rc in (rc', (k, d) :: found, missing)
      else
        let '(rc', found, missing) := ReadObjects i b keys' KELPIE_RECHECK in (rc', found, k :: missing)
  end.

Definition Setting (settings : gmap str str) (setting_name : str) : str :=
  default [] (settings !! ToLowercase setting_name).

Lemma ReadObjects_rc i b keys rc :
  (ReadObjects i b keys rc).1.1 = if decide ((ReadObjects i b keys rc).2 = []) then rc else KELPIE_RECHECK.
Proof.
  revert rc. induction keys as [|k keys IH]; intros rc; cbn [ReadObjects]; [done|].
  destruct (iom_ReadObject i b k) as [rc0 d]. destruct (_ =? _)%Z.
  - specialize (IH rc). by destruct (ReadObjects i b keys rc) as [[rc' found] missing].
  - specialize (IH KELPIE_RECHECK). destruct (ReadObjects i b keys KELPIE_RECHECK) as [[rc' found] missing].
    cbn in IH |- *. rewrite IH. by destruct (decide (missing = [])).
Qed.

(** Every key is either found, with the object the module holds for it, or missing. *)
Lemma ReadObjects_spec i b keys rc :
  let '(_, found, missing) := ReadObjects i b keys rc in
  (∀ k d, (k, d) ∈ found ↔ k ∈ keys ∧ iom_ReadObject i b k = (KELPIE_OK, d)) ∧
  (∀ k, k ∈ missing ↔ k ∈ keys ∧ (iom_ReadObject i b k).1 ≠ KELPIE_OK).
Proof.
  revert rc. induction keys as [|k keys IH]; intros rc; cbn [ReadObjects].
  { split; intros; split; set_solver. }
  destruct (iom_ReadObject i b k) as [rc0 d] eqn:Hr. destruct (Z.eqb_spec rc0 KELPIE_OK) as [->|Hne].
  - specialize (IH rc). destruct (ReadObjects i b keys rc) as [[rc' found] missing]. destruct IH as [Hf Hm].
    split; intros k'.
    + intros d'. rewrite !elem_of_cons, Hf. split; [naive_solver|]. intros [[->|?] ?]; [left; congruence|by right].
    + rewrite Hm, elem_of_cons. split; [naive_solver|]. intros [[->|?] Hx]; [by rewrite Hr in Hx|done].
  - specialize (IH KELPIE_RECHECK). destruct (ReadObjects i b keys KELPIE_RECHECK) as [[rc' found] missing].
    destruct IH as [Hf Hm]. split; intros k'.
    + intros d'. rewrite Hf, elem_of_cons. split; [naive_solver|]. intros [[->|?] Hx]; [congruence|done].
    + rewrite !elem_of_cons, Hm. split; [|naive_solver]. intros [->|?]; [|naive_solver].
      split; [by left|by rewrite Hr].
Qed.
End iom_base.

(** A module that keeps what it is given. *)
Class IomStorage (I D : Type) `{IomBase I D} := {
  iom_read_write i b k d b' k' :
    iom_ReadObject (iom_WriteObject i b k d).2 b' k' =
    if decide (b' = b ∧ k' = k) then (KELPIE_OK, d) else iom_ReadObject i b' k'
}.

Section storage.
Context {D : Type} {LO : LdoOps D} {I : Type} {IO : IomBase I D} {IS : IomStorage I D}.

Lemma read_WriteObjects i b items b' k :
  NoDup items.*1 →
  iom_ReadObject (WriteObjects i b items) b' k =
  match decide (b' = b), list_to_map (M := gmap Key D) items !! k with
  | left _, Some d => (KELPIE_OK, d)
  | _, _ => iom_ReadObject i b' k
  end.
Proof.
  revert i. induction items as [|[k0 d0] items IH]; intros i Hn; cbn [WriteObjects].
  { cbn. rewrite lookup_empty. by destruct (decide _). }
  cbn in Hn. apply NoDup_cons in Hn as [Hk0 Hn]. rewrite IH by done. rewrite iom_read_write. cbn [list_to_map foldr].
  destruct (decide (k = k0)) as [->|Hne].
  - rewrite not_elem_of_list_to_map_1 by done. rewrite lookup_insert_eq.
    destruct (decide (b' = b)); [by rewrite decide_True|by rewrite decide_False by naive_solver].
  - rewrite lookup_insert_ne by done.
    destruct (decide (b' = b)); [|by rewrite decide_False by naive_solver].
    destruct (list_to_map items !! k); [done|]. by rewrite decide_False by naive_solver.
Qed.

(** What was written in one call is read back in one call, in order and with nothing missing. *)
Theorem objects_roundtrip i b (items : list (Key * D)) :
  NoDup items.*1 → ReadObjects (WriteObjects i b items) b items.*1 KELPIE_OK = (KELPIE_OK, items, []).
Proof.
  intros Hn. set (i' := WriteObjects i b items).
  assert (Hread : ∀ k d, (k, d) ∈ items → iom_ReadObject i' b k = (KELPIE_OK, d)).
  { intros k d Hin. unfold i'. rewrite read_WriteObjects, decide_True by done.
    by rewrite (elem_of_list_to_map_1 items k d). }
  clear Hn. clearbody i'. induction items as [|[k d] items IH]; cbn [fmap list_fmap fst ReadObjects]; [done|].
  rewrite (Hread k d) by by left. cbn [fmap list_fmap] in IH. rewrite Z.eqb_refl.
  rewrite IH; [done|]. intros k' d' Hin. apply Hread. by right.
Qed.
End storage.

(** * The registry (IomRegistry.cpp) *)

Section iom_registry.
Context {I : Type}.
(** A constructor takes the name and the settings; [None] is a null pointer. *)
Abbreviation ctor := (str → gmap str str → outcome (option I)).
Abbreviation parameters := (list (str * str)).

Record IomRegistry := mkIomRegistry {
  finalized : bool;
  ioms_by_hash_pre : gmap Z I;
  ioms_by_hash_post : gmap Z I;
  iom_ctors : gmap str ctor;
  iom_valid_setting_fns : gmap str (option parameters) }.
Implicit Types r : IomRegistry.

Definition new_iom_registry : IomRegistry := mkIomRegistry false ∅ ∅ ∅ ∅.

Definition Find (iom_hash : Z) r : option I :=
  match ioms_by_hash_pre r !! iom_hash with
  | Some i => Some i
  | None => if finalized r then ioms_by_hash_post r !! iom_hash else None
  end.
Definition Find_name (iom_name : str) r : option I := Find (hash32 iom_name) r.

(** Whether [Find] locks the mutex on its way. *)
Definition Find_locks (iom_hash : Z) r : bool :=
  bool_decide (ioms_by_hash_pre r !! iom_hash = None) && finalized r.

(** [RegisterIom] up to the new module. *)
Definition register_new (type nm : str) (settings : gmap str str) r : outcome I :=
  let type := ToLowercase type in
  match Find_name nm r, iom_ctors r !! type with
  | Some _, _ => Throw RuntimeError
  | None, None => Throw RuntimeError
  | None, Some ctor =>
      i ← ctor nm settings;
      match i with None => Throw RuntimeError | Some i => Ok i end
  end.

(** [RegisterIom] from there on: the module goes into one of the lists. *)
Definition register_store (nm : str) (i : I) r : outcome IomRegistry :=
  let hid := hash32 nm in
  if negb (finalized r) then
    Ok (mkIomRegistry (finalized r) (<[hid := i]> (ioms_by_hash_pre r)) (ioms_by_hash_post r)
          (iom_ctors r) (iom_valid_setting_fns r))
  else
    match ioms_by_hash_post r !! hid with
    | Some _ => Throw RuntimeError
    | None =>
        Ok (mkIomRegistry (finalized r) (ioms_by_hash_pre r) (<[hid := i]> (ioms_by_hash_post r))
              (iom_ctors r) (iom_valid_setting_fns r))
    end.

Definition RegisterIom (type nm : str) (settings : gmap str str) r : outcome IomRegistry :=
  i ← register_new type nm settings r; register_store nm i r.

(** The options of a URL: name, type and the other settings, without their prefix. *)
Definition iom_options (l : list (str * str)) : str * str * gmap str str :=
  foldl (λ '(iom_name, iom_type, m) kv,
    let k := ToLowercase kv.1 in
    if k =s? lit "iom" then (kv.2, iom_type, m)
    else if k =s? lit "iom_type" then (iom_name, kv.2, m)
    else if StringBeginsWith k (lit "iom_") then
      (iom_name, iom_type, if drop 4 k =s? [] then m else <[drop 4 k := kv.2]> m)
    else (iom_name, iom_type, m)) ([], [], ∅) l.

Definition RegisterIomFromURL (url : ResourceURL) r : outcome (Z * IomRegistry) :=
  options_vector ← GetOptions url;
  let '(iom_name, iom_type, options_map) := iom_options options_vector in
  if (iom_name =s? []) || (iom_type =s? []) then Ok ((-1)%Z, r)
  else
    match RegisterIom iom_type iom_name options_map r with
    | Ok r' => Ok (0%Z, r')
    | Throw _ => Ok ((-1)%Z, r)
    end.

Definition RegisterIomConstructor (type : str) (f : ctor) (valid : option parameters) r
    : outcome IomRegistry :=
  let type := ToLowercase type in
  if finalized r then Throw RuntimeError
  else Ok (mkIomRegistry (finalized r) (ioms_by_hash_pre r) (ioms_by_hash_post r)
             (<[type := f]> (iom_ctors r)) (<[type := valid]> (iom_valid_setting_fns r))).

(** The modules the configuration names; [settings] is what it says of each, by role and default. *)
Fixpoint init_ioms (names : list str) (settings : str → gmap str str) r : outcome IomRegistry :=
  match names with
  | [] => Ok r
  | nm :: names' =>
      let type := ToLowercase (default [] (settings nm !! lit "type")) in
      if type =s? [] then Throw RuntimeError
      else if bool_decide (is_Some (Find_name nm r)) then Throw RuntimeError
      else if bool_decide (iom_ctors r !! type = None) then Throw RuntimeError
      else r' ← RegisterIom type nm (settings nm) r; init_ioms names' settings r'
  end.

Definition init (drivers : list (str * ctor * parameters)) (kelpie_ioms : str)
    (settings : str → gmap str str) r : outcome IomRegistry :=
  r ← foldl (λ m '(type, f, valid), r ← m; RegisterIomConstructor type f (Some valid) r) (Ok r) drivers;
  if kelpie_ioms =s? [] then Ok r
  else init_ioms (Split kelpie_ioms ";"%char true) settings r.

Definition start r : IomRegistry :=
  mkIomRegistry true (ioms_by_hash_pre r) (ioms_by_hash_post r) (iom_ctors r) (iom_valid_setting_fns r).
Definition finish r : IomRegistry := mkIomRegistry (finalized r) ∅ ∅ ∅ (iom_valid_setting_fns r).

Definition RegisteredTypeParameters (type : str) r : parameters :=
  default [] (mjoin (iom_valid_setting_fns r !! type)).

(** [HandleWhookieStatus] for one module looks it up with the mutex held; [None] is a thread that
    waits for itself. *)
Definition whookie_lookup (iom_name : str) r : option (option I) :=
  if Find_locks (hash32 iom_name) r then None else Some (Find_name iom_name r).

(** ** Registration and lookup *)

Lemma register_store_Find nm i r r' h :
  Find_name nm r = None → register_store nm i r = Ok r' →
  Find h r' = if decide (h = hash32 nm) then Some i else Find h r.
Proof.
  unfold Find_name, register_store, Find. intros Hnone Hs.
  destruct (finalized r) eqn:Hf; cbn [negb] in Hs.
  - destruct (ioms_by_hash_post r !! hash32 nm) eqn:Hp; [done|]. injection Hs as <-.
    cbn [finalized ioms_by_hash_pre ioms_by_hash_post]. case_decide as Hh.
    + subst h. destruct (ioms_by_hash_pre r !! hash32 nm); [done|]. by rewrite lookup_insert_eq.
    + by rewrite lookup_insert_ne.
  - injection Hs as <-. cbn [finalized ioms_by_hash_pre ioms_by_hash_post]. case_decide as Hh.
    + subst h. by rewrite lookup_insert_eq.
    + by rewrite lookup_insert_ne.
Qed.

Lemma register_new_free type nm settings r i :
  register_new type nm settings r = Ok i →
  Find_name nm r = None ∧ ∃ f, iom_ctors r !! ToLowercase type = Some f ∧ f nm settings = Ok (Some i).
Proof.
  unfold register_new. intros Hn. destruct (Find_name nm r); [done|]. split; [done|].
  destruct (iom_ctors r !! ToLowercase type) as [f|]; [|done]. exists f. split; [done|].
  apply bind_Ok in Hn as ([i'|] & Hc & Hn); [|done]. by simplify_eq.
Qed.

(** Registering a module that is not there makes the module its driver built the one that is found
    under its name, and changes nothing under other hashes; a name (or a name with the same hash)
    that is taken, and an unknown driver, are refused. *)
Theorem RegisterIom_spec type nm settings r :
  match RegisterIom type nm settings r with
  | Ok r' =>
      Find_name nm r = None ∧
      ∃ f i, iom_ctors r !! ToLowercase type = Some f ∧ f nm settings = Ok (Some i) ∧
        Find_name nm r' = Some i ∧ ∀ h, h ≠ hash32 nm → Find h r' = Find h r
  | Throw _ =>
      is_Some (Find_name nm r) ∨ iom_ctors r !! ToLowercase type = None ∨
      ∃ f, iom_ctors r !! ToLowercase type = Some f ∧ ∀ i, f nm settings ≠ Ok (Some i)
  end.
Proof.
  unfold RegisterIom. destruct (register_new type nm settings r) as [i|e] eqn:Hn; cbn [mbind outcome_bind].
  - apply register_new_free in Hn as (Hfree & f & Hf & Hi).
    destruct (register_store nm i r) as [r'|e] eqn:Hs.
    + split; [done|]. exists f, i. unfold Find_name. split_and!; [done..| |].
      * rewrite (register_store_Find nm i r r') by done. by rewrite decide_True.
      * intros h Hh. rewrite (register_store_Find nm i r r') by done. by rewrite decide_False.
    + exfalso. unfold register_store, Find_name, Find in *. destruct (finalized r); [|done].
      destruct (ioms_by_hash_pre r !! _); [done|]. by rewrite Hfree in Hs.
  - unfold register_new in Hn. destruct (Find_name nm r) as [i|]; [left; eauto|].
    destruct (iom_ctors r !! ToLowercase type) as [f|]; [|auto]. right. right. exists f. split; [done|].
    intros i Hi. by rewrite Hi in Hn.
Qed.

(** A module from a URL: 0 when it is there afterwards, -1 with the registry as it was. *)
Lemma RegisterIomFromURL_spec url r rc r' :
  RegisterIomFromURL url r = Ok (rc, r') →
  rc = (-1)%Z ∧ r' = r ∨
  rc = 0%Z ∧ ∃ l, GetOptions url = Ok l ∧ is_Some (Find_name (iom_options l).1.1 r').
Proof.
  unfold RegisterIomFromURL. intros (l & Hl & Hr)%bind_Ok.
  destruct (iom_options l) as [[nm type] m] eqn:Ho. destruct (_ || _); [simplify_eq; by left|].
  destruct (RegisterIom type nm m r) as [r1|] eqn:H1; injection Hr as <- <-; [right|by left]. split; [done|].
  exists l. split; [done|]. rewrite Ho. cbn [fst].
  unfold RegisterIom in H1. apply bind_Ok in H1 as (i & (Hfree & _)%register_new_free & Hs).
  exists i. unfold Find_name. rewrite (register_store_Find nm i r r1) by done. by rewrite decide_True.
Qed.

(** ** Several threads *)

(** The registry and the threads between the two halves of [RegisterIom]. *)
Inductive rstep : IomRegistry * list (str * I) → IomRegistry * list (str * I) → Prop :=
| rstep_new r l type nm settings i :
    register_new type nm settings r = Ok i → rstep (r, l) (r, l ++ [(nm, i)])
| rstep_store r r' l1 nm i l2 :
    register_store nm i r = Ok r' → rstep (r, l1 ++ (nm, i) :: l2) (r', l1 ++ l2)
| rstep_race r e l1 nm i l2 :
    register_store nm i r = Throw e → rstep (r, l1 ++ (nm, i) :: l2) (r, l1 ++ l2)
| rstep_start r l : rstep (r, l) (start r, l).

(** Once the registry is started, a module that is found stays the one that is found, whatever
    registrations run at the same time. *)
Theorem iom_stable s s' h i :
  rtc rstep s s' → finalized s.1 = true → Find h s.1 = Some i → Find h s'.1 = Some i.
Proof.
  intros Hs Hf Hi. assert (finalized s'.1 = true ∧ Find h s'.1 = Some i) as [_ ?]; [|done].
  induction Hs as [s|s1 s2 s3 H12 _ IH]; [done|].
  destruct H12 as [r l type nm settings i' Hn|r r' l1 nm i' l2 Hst|r e l1 nm i' l2 Hst|r l]; cbn [fst] in *.
  - by apply IH.
  - unfold register_store in Hst. rewrite Hf in Hst. cbn [negb] in Hst.
    destruct (ioms_by_hash_post r !! hash32 nm) eqn:Hp; [done|]. injection Hst as <-. apply IH; [done|].
    unfold Find in *. cbn [finalized ioms_by_hash_pre ioms_by_hash_post].
    destruct (ioms_by_hash_pre r !! h); [done|]. rewrite Hf in *.
    destruct (decide (h = hash32 nm)) as [->|Hne]; [congruence|by rewrite lookup_insert_ne].
  - by apply IH.
  - apply IH; [done|]. unfold Find in *. cbn [start finalized ioms_by_hash_pre ioms_by_hash_post].
    by rewrite Hf in Hi.
Qed.

(** Before that it may be replaced: two threads that both found the name free both succeed. *)
Lemma early_race_replaces r nm (i1 i2 : I) :
  finalized r = false →
  ∃ r1 r2, rtc rstep (r, [(nm, i1); (nm, i2)]) (r1, [(nm, i2)]) ∧ Find_name nm r1 = Some i1 ∧
    rstep (r1, [(nm, i2)]) (r2, []) ∧ Find_name nm r2 = Some i2.
Proof.
  intros Hf. assert (Hst : ∀ i r0, finalized r0 = false → ∃ r1, register_store nm i r0 = Ok r1 ∧
    finalized r1 = false ∧ Find_name nm r1 = Some i).
  { intros i r0 Hf0. unfold register_store. rewrite Hf0. eexists. split_and!; [done..|].
    unfold Find_name, Find. cbn [ioms_by_hash_pre]. by rewrite lookup_insert_eq. }
  destruct (Hst i1 r Hf) as (r1 & H1 & Hf1 & Hr1). destruct (Hst i2 r1 Hf1) as (r2 & H2 & _ & Hr2).
  exists r1, r2. split_and!; [|done| |done].
  - apply rtc_once. by apply (rstep_store r r1 [] nm i1 [(nm, i2)]).
  - by apply (rstep_store r1 r2 [] nm i2 []).
Qed.

(** The web page of a module that was registered after the start, or that does not exist, waits
    for the mutex its own thread holds. *)
Lemma whookie_blocks nm r :
  finalized r = true → ioms_by_hash_pre r !! hash32 nm = None → whookie_lookup nm r = None.
Proof. intros Hf Hp. unfold whookie_lookup, Find_locks. by rewrite Hp, Hf, bool_decide_true. Qed.
End iom_registry.

(** * A registry in use *)

#[global] Instance storage_is_storage : IomStorage storage content.
Proof.
  constructor. intros i [b] k d [b'] k'. cbn. destruct (decide _) as [[[= ->] ->]|Hne].
  - by rewrite lookup_insert_eq.
  - rewrite lookup_insert_ne; [done|]. naive_solver.
Qed.

Lemma objects_roundtrip_witness :
  ReadObjects (WriteObjects (∅ : storage) b0 [(k_hello, hello); (mkKey (lit "row") (lit "b"), None)]) b0
    [k_hello; mkKey (lit "row") (lit "b")] KELPIE_OK =
  (KELPIE_OK, [(k_hello, hello); (mkKey (lit "row") (lit "b"), None)], []).
Proof.
  apply (objects_roundtrip (∅ : storage) b0 [(k_hello, hello); (mkKey (lit "row") (lit "b"), None)]).
  apply (bool_decide_unpack _). vm_compute. exact Logic.I.
Defined.

(** A module is registered while another registration of its name is under way. *)
Definition one_driver : IomRegistry (I := str) :=
  mkIomRegistry true ∅ {[hash32 (lit "a") := lit "first"]} {[lit "memory" := λ nm _, Ok (Some nm)]} ∅.

Definition two_ioms : IomRegistry (I := str) :=
  mkIomRegistry true ∅ (<[hash32 (lit "b") := lit "second"]> {[hash32 (lit "a") := lit "first"]})
    {[lit "memory" := λ nm _, Ok (Some nm)]} ∅.

Lemma iom_stable_witness :
  rtc rstep (one_driver, [(lit "b", lit "second")]) (two_ioms, []) ∧
  Find (hash32 (lit "a")) two_ioms = Some (lit "first").
Proof.
  assert (Hs : rtc rstep (one_driver, [(lit "b", lit "second")]) (two_ioms, [])).
  { apply rtc_once, (rstep_store one_driver _ [] (lit "b") (lit "second") []). vm_compute. reflexivity. }
  split; [exact Hs|].
  apply (iom_stable _ _ (hash32 (lit "a")) (lit "first") Hs); vm_compute; reflexivity.
Defined.
