(* ===== verification/KelpieCore.v ===== *)
(** The kelpie core of a process (src/src/kelpie/core): its store and its registries, what they leave
    in the rest of the process (hooks of the web server, registered ops, the pointers that the ops
    keep), and the life cycle of the service (Singleton.cpp).

    A core is an object on the heap; hooks and ops refer to it by its address.  The theorems: what is
    there once the service is initialised ([standard_ready]); that a second initialisation works once
    the op registry was finished ([restart_ready]); and what refers to the deleted core after
    [Finish], which does not call the core's own [finish] ([finish_dangles]). *)
From S2P Require Import Prelude StringHelpers Identifiers Configuration ResourceURL DirectoryInfo DirManConfig.
From S2P Require Import Key KelpieTypes LocalKVRow LocalKV KelpieOps OpBox Pools ComputeRegistry IomRegistry.

Inductive core_kind := Standard | NoNet.

(** The ops of kelpie, in the order in which they are registered. *)
Definition kelpie_ops : list str :=
  [lit "OpKelpieCompute"; lit "OpKelpieDrop"; lit "OpKelpieGetBounded"; lit "OpKelpieGetUnbounded";
   lit "OpKelpieList"; lit "OpKelpieMeta"; lit "OpKelpiePublish"].

Definition lkv_hooks : list str := [lit "/kelpie/lkv"; lit "/kelpie/lkv/row"; lit "/kelpie/lkv/cell"].

Section kelpie_core.
Context {P I D : Type} {LO : LdoOps D}.
(** The pools by type, the storage drivers, and what a configuration says about storage; whether
    the build has MPI; the next free address. *)
Context (pool_creator : str → ResourceURL → outcome P).
Context (drivers : list (str * (str → gmap str str → outcome (option I)) * list (str * str))).
Context (kelpie_ioms : Configuration → str) (iom_settings : Configuration → str → gmap str str).
Context (mpi_support : bool) (malloc : gset nat → nat).

Record kelpie_core := mkKelpieCore {
  kind : core_kind;
  lkv_configured : bool;
  iom_registry : IomRegistry (I := I);
  pool_registry : PoolRegistry (P := P);
  compute_registry : ComputeRegistry (D := D)
}.

Definition new_kelpie_core (k : core_kind) : kelpie_core :=
  mkKelpieCore k false new_iom_registry new_pool_registry new_compute_registry.

(** What the process has of kelpie: the core of the singleton ([None]: the unconfigured one), the
    cores on the heap, the pointers of the ops to the store of a core, the hooks of the web server
    that call a core, and the registry of ops. *)
Record process := mkProcess {
  core : option nat;
  cores : gmap nat kelpie_core;
  op_lkv : gmap str nat;
  hooks : gmap str nat;
  op_registry : OpRegistry.OpRegistry str
}.

Definition set_core w c : process := mkProcess c (cores w) (op_lkv w) (hooks w) (op_registry w).
Definition set_cores w cs : process := mkProcess (core w) cs (op_lkv w) (hooks w) (op_registry w).
Definition set_op_lkv w o : process := mkProcess (core w) (cores w) o (hooks w) (op_registry w).
Definition set_hooks w h : process := mkProcess (core w) (cores w) (op_lkv w) h (op_registry w).
Definition set_ops w r : process := mkProcess (core w) (cores w) (op_lkv w) (hooks w) r.

Definition updateHook (l : nat) (name : str) (w : process) : process := set_hooks w (<[name := l]> (hooks w)).
Definition deregisterHook (name : str) (w : process) : process := set_hooks w (delete name (hooks w)).

(** ** The core *)

Definition pool_types (k : core_kind) : list str :=
  match k with
  | Standard => [lit "local"; lit "lkv"; lit "null"; lit "dht"; lit "tft"; lit "trace"]
                  ++ (if mpi_support then [lit "rft"] else [])
  | NoNet => [lit "local"; lit "lkv"; lit "null"; lit "trace"]
  end.

Fixpoint register_pools (types : list str) (r : PoolRegistry (P := P)) : outcome PoolRegistry :=
  match types with
  | [] => Ok r
  | t :: types => r ← RegisterPoolConstructor t (pool_creator t) r; register_pools types r
  end.

Fixpoint register_ops (names : list str) (r : OpRegistry.OpRegistry str) : outcome (OpRegistry.OpRegistry str) :=
  match names with
  | [] => Ok r
  | nm :: names => r ← OpRegistry.RegisterOp (const_hash nm) nm nm r; register_ops names r
  end.

(** [configure] of each op: its pointer to the store. *)
Definition configure_ops (names : list str) (l : option nat) (w : process) : process :=
  foldl (λ w nm, set_op_lkv w (partial_alter (λ _, l) nm (op_lkv w))) w names.

(** The parts both cores have: the store, the registries and their hooks, the pool types. *)
Definition init_parts (l : nat) (k : kelpie_core) (c : Configuration) (w : process)
    : outcome (kelpie_core * process) :=
  _ ← F_ASSERT (negb (lkv_configured k));
  let w := foldl (λ w h, updateHook l h w) w lkv_hooks in
  ioms ← IomRegistry.init drivers (kelpie_ioms c) (iom_settings c) (iom_registry k);
  let w := updateHook l (lit "/kelpie/iom_registry") w in
  b ← default_security_bucket c;
  let pools := registry_init b (pool_registry k) in
  let w := updateHook l (lit "/kelpie/pool_registry") w in
  compute ← ComputeRegistry.init (compute_registry k);
  let w := updateHook l (lit "/kelpie/compute_registry") w in
  pools ← register_pools (pool_types (kind k)) pools;
  Ok (mkKelpieCore (kind k) true ioms pools compute, w).

Definition core_init (l : nat) (k : kelpie_core) (c : Configuration) (w : process) : outcome process :=
  '(k, w) ← init_parts l k c w;
  w ← match kind k with
      | Standard =>
          r ← register_ops kelpie_ops (op_registry w);
          Ok (configure_ops kelpie_ops (Some l) (set_ops w r))
      | NoNet => Ok w
      end;
  Ok (set_cores (updateHook l (lit "/kelpie") w) (<[l := k]> (cores w))).

(** The standard core does not start its registries. *)
Definition core_start (k : kelpie_core) : kelpie_core :=
  match kind k with
  | Standard => k
  | NoNet => mkKelpieCore (kind k) (lkv_configured k) (IomRegistry.start (iom_registry k))
               (registry_start (pool_registry k)) (compute_registry k)
  end.

(** [finish] of a core: the standard one resets six of its seven ops; the registry of modules takes a
    hook out that is not there. *)
Definition core_finish (k : kelpie_core) (w : process) : kelpie_core * process :=
  let w := match kind k with
           | Standard => configure_ops (drop 1 kelpie_ops) None (deregisterHook (lit "/kelpie") w)
           | NoNet => w
           end in
  let w := deregisterHook (lit "kelpie/iom_registry") (deregisterHook (lit "/kelpie/pool_registry") w) in
  let w := match kind k with Standard => w | NoNet => deregisterHook (lit "/kelpie") w end in
  (mkKelpieCore (kind k) (lkv_configured k) (IomRegistry.finish (iom_registry k))
     (registry_finish (pool_registry k)) (compute_registry k), w).

(** The destructor of the store takes its hooks out. *)
Definition delete_core (l : nat) (w : process) : process :=
  let w := foldl (λ w h, deregisterHook h w) w (reverse lkv_hooks) in
  set_cores w (delete l (cores w)).

(** ** The singleton *)

Definition IsUnconfigured (w : process) : bool := bool_decide (core w = None).

Definition core_of_type (kelpie_type : str) : outcome core_kind :=
  if kelpie_type =s? lit "standard" then Ok Standard
  else if kelpie_type =s? lit "nonet" then Ok NoNet
  else Throw Exit.

Definition Init (c : Configuration) (w : process) : outcome process :=
  if negb (IsUnconfigured w) then Throw Exit
  else
    k ← core_of_type (GetLowercaseString c (lit "kelpie.type") (lit "standard")).2;
    let l := malloc (dom (cores w)) in
    _ ← default_security_bucket c;
    w ← core_init l (new_kelpie_core k) c (set_cores w (<[l := new_kelpie_core k]> (cores w)));
    Ok (set_core w (Some l)).

Definition Start (w : process) : outcome process :=
  match core w with
  | None => Throw Exit
  | Some l => Ok (set_cores w (alter core_start l (cores w)))
  end.

(** The wait for active ops: at most three pauses of five seconds while ops are seen, [counts] being
    what is seen at each look. *)
Fixpoint pauses (tries : nat) (counts : nat → nat) : nat :=
  match tries with
  | 0 => 0
  | S tries => if bool_decide (counts 0 = 0) then 0 else S (pauses tries (λ i, counts (S i)))
  end.

(** The number of pauses, and the process without the core, whose [finish] is not called. *)
Definition Finish (counts : nat → nat) (w : process) : nat * process :=
  match core w with
  | None => (0, w)
  | Some l => (pauses 3 counts, set_core (delete_core l w) None)
  end.

(** ** Use *)

(** What an op of a kind does when it runs: it goes to the store through its pointer. *)
Definition op_core (name : str) (w : process) : outcome kelpie_core :=
  match op_lkv w !! name with
  | None => Throw Undefined
  | Some l => match cores w !! l with Some k => Ok k | None => Throw Undefined end
  end.

(** A request for a page. *)
Definition page_core (hook : str) (w : process) : outcome (option kelpie_core) :=
  match hooks w !! hook with
  | None => Ok None
  | Some l => match cores w !! l with Some k => Ok (Some k) | None => Throw Undefined end
  end.

(** Joining a pool as a server; [join] is the directory service. *)
Definition JoinServerPool (join : ResourceURL → str → bool * DirectoryInfo) (url : ResourceURL)
    (optional_node_name : str) (k : kelpie_core) : outcome (Z * kelpie_core) :=
  let '(ok, dir_info) := join url optional_node_name in
  if ok then
    let iom_name := GetOption (di_url dir_info) (lit "iom") [] in
    if negb (iom_name =s? []) then
      match Find_name iom_name (iom_registry k) with
      | Some _ => Ok (0%Z, k)
      | None =>
          '(rc, r) ← RegisterIomFromURL (di_url dir_info) (iom_registry k);
          Ok (if (rc =? 0)%Z then 0%Z else (-1)%Z,
              mkKelpieCore (kind k) (lkv_configured k) r (pool_registry k) (compute_registry k))
      end
    else Ok (0%Z, k)
  else Ok (0%Z, k).

(** * The service comes up *)

Lemma register_pools_ok types r :
  Pools.started r = false → NoDup types → (∀ t, t ∈ types → pool_create_fns r !! t = None) →
  ∃ r', register_pools types r = Ok r' ∧ Pools.started r' = false ∧
    (∀ t, pool_create_fns r' !! t =
       if decide (t ∈ types) then Some (pool_creator t) else pool_create_fns r !! t).
Proof.
  intros Hs Hnd. revert r Hs. induction Hnd as [|t types Ht _ IH]; intros r Hs Hn; cbn [register_pools].
  { exists r. split_and!; [done|done|]. intros t. by rewrite decide_False by (by intros ?%elem_of_nil). }
  unfold RegisterPoolConstructor. rewrite Hs, bool_decide_eq_true_2 by (apply Hn; by left).
  cbn [negb F_ASSERT mbind outcome_bind].
  destruct (IH (mkPoolRegistry false (reg_default_bucket r) (<[t := pool_creator t]> (pool_create_fns r)) (known_pools r)))
    as (r' & Hr & Hs' & Hl); [done| |].
  { intros t' Ht'. cbn. rewrite lookup_insert_ne by congruence. apply Hn. by right. }
  exists r'. split_and!; [done|done|]. intros t'. rewrite Hl. cbn [pool_create_fns].
  destruct (decide (t' ∈ types)) as [Hin|Hin]; [by rewrite decide_True by (by right)|].
  destruct (decide (t' = t)) as [->|Hne].
  - by rewrite decide_True, lookup_insert_eq by (by left).
  - rewrite decide_False by (intros [?|?]%elem_of_cons; done). by rewrite lookup_insert_ne.
Qed.

Lemma RegisterOp_new id nm f (r : OpRegistry.OpRegistry str) :
  OpRegistry.CreateOp id r = None →
  ∃ r', OpRegistry.RegisterOp id nm f r = Ok r' ∧
    ∀ id', OpRegistry.CreateOp id' r' = if decide (id' = id) then Some f else OpRegistry.CreateOp id' r.
Proof.
  unfold OpRegistry.CreateOp, OpRegistry.RegisterOp. intros Hn.
  destruct (OpRegistry.known_ops_pre r !! id) eqn:Hpre; [done|].
  destruct (OpRegistry.finalized r); cbn [negb]; [rewrite Hn|]; eexists; (split; [done|]); intros id'; cbn;
    destruct (decide (id' = id)) as [->|Hne]; rewrite ?Hpre, ?lookup_insert_eq, ?lookup_insert_ne by done; done.
Qed.

Lemma register_ops_ok names r :
  NoDup (const_hash <$> names) → (∀ nm, nm ∈ names → OpRegistry.CreateOp (const_hash nm) r = None) →
  ∃ r', register_ops names r = Ok r' ∧ ∀ nm, nm ∈ names → OpRegistry.CreateOp (const_hash nm) r' = Some nm.
Proof.
  intros Hnd Hn. assert (∃ r', register_ops names r = Ok r' ∧
    (∀ nm, nm ∈ names → OpRegistry.CreateOp (const_hash nm) r' = Some nm) ∧
    ∀ id, id ∉ const_hash <$> names → OpRegistry.CreateOp id r' = OpRegistry.CreateOp id r) as (r' & ? & ? & _); [|by exists r'].
  revert r Hn. induction names as [|nm names IH]; intros r Hn; cbn [register_ops].
  { exists r. split_and!; [done|by intros ? ?%elem_of_nil|done]. }
  apply NoDup_cons in Hnd as [Hnew Hnd]. destruct (RegisterOp_new (const_hash nm) nm nm r) as (r1 & -> & H1); [apply Hn; by left|].
  cbn [mbind outcome_bind]. destruct (IH Hnd r1) as (r' & -> & H2 & H3).
  { intros nm' Hin. rewrite H1. rewrite decide_False; [apply Hn; by right|].
    intros E. apply Hnew. rewrite <-E. by apply list_elem_of_fmap_2. }
  exists r'. split_and!; [done| |].
  - intros nm' [->|Hin]%elem_of_cons; [|by apply H2]. rewrite H3 by done. rewrite H1. by rewrite decide_True.
  - intros id [Hne Hin]%not_elem_of_cons. rewrite H3, H1 by done. by rewrite decide_False.
Qed.

Lemma configure_ops_lookup names l w nm :
  op_lkv (configure_ops names l w) !! nm = if decide (nm ∈ names) then l else op_lkv w !! nm.
Proof.
  revert w. induction names as [|n names IH]; intros w.
  { by rewrite decide_False by (by intros ?%elem_of_nil). }
  change (configure_ops (n :: names) l w)
    with (configure_ops names l (set_op_lkv w (partial_alter (λ _, l) n (op_lkv w)))). rewrite IH. cbn [set_op_lkv op_lkv].
  destruct (decide (nm ∈ names)) as [Hin|Hin]; [by rewrite decide_True by (by right)|].
  destruct (decide (nm = n)) as [->|Hne].
  - rewrite decide_True by (by left). apply lookup_partial_alter_eq.
  - rewrite decide_False by (intros [?|?]%elem_of_cons; done). by rewrite lookup_partial_alter_ne.
Qed.

Lemma configure_ops_rest names l w :
  core (configure_ops names l w) = core w ∧ cores (configure_ops names l w) = cores w ∧
  hooks (configure_ops names l w) = hooks w ∧ op_registry (configure_ops names l w) = op_registry w.
Proof. revert w. induction names as [|n names IH]; intros w; [done|].
  apply (IH (set_op_lkv w (partial_alter (λ _, l) n (op_lkv w)))). Qed.

Definition registry_hooks : list str :=
  [lit "/kelpie"; lit "/kelpie/iom_registry"; lit "/kelpie/pool_registry"; lit "/kelpie/compute_registry"].

(** A process in which a standard core serves. *)
Record serving (w : process) (l : nat) (k : kelpie_core) (ioms : IomRegistry (I := I)) : Prop := {
  serving_core : core w = Some l ∧ cores w !! l = Some k;
  serving_kind : kind k = Standard ∧ lkv_configured k = true;
  serving_ioms : iom_registry k = ioms;
  serving_pools t : t ∈ pool_types Standard → pool_create_fns (pool_registry k) !! t = Some (pool_creator t);
  serving_pick : is_Some (compute_fns (compute_registry k) !! lit "pick");
  serving_ops nm : nm ∈ kelpie_ops →
    OpRegistry.CreateOp (const_hash nm) (op_registry w) = Some nm ∧ op_lkv w !! nm = Some l;
  serving_hooks h : h ∈ lkv_hooks ++ registry_hooks → hooks w !! h = Some l
}.

Lemma init_parts_ok l c w ioms b :
  IomRegistry.init drivers (kelpie_ioms c) (iom_settings c) new_iom_registry = Ok ioms →
  default_security_bucket c = Ok b →
  ∃ k h, init_parts l (new_kelpie_core Standard) c w = Ok (k, set_hooks w h) ∧
    kind k = Standard ∧ lkv_configured k = true ∧ iom_registry k = ioms ∧
    (∀ t, t ∈ pool_types Standard → pool_create_fns (pool_registry k) !! t = Some (pool_creator t)) ∧
    is_Some (compute_fns (compute_registry k) !! lit "pick") ∧
    (∀ x, x ∈ lkv_hooks ++ drop 1 registry_hooks → h !! x = Some l).
Proof.
  intros Hi Hb. unfold init_parts, new_kelpie_core.
  cbn [kind lkv_configured iom_registry pool_registry compute_registry negb F_ASSERT mbind outcome_bind].
  rewrite Hi. cbn [mbind outcome_bind]. rewrite Hb. cbn [mbind outcome_bind].
  assert (∃ comp, ComputeRegistry.init (new_compute_registry (D := D)) = Ok comp ∧ is_Some (compute_fns comp !! lit "pick"))
    as (comp & Hcomp & Hpick) by (eexists; split; [done|]; cbn; rewrite lookup_insert_eq; done).
  rewrite Hcomp. cbn [mbind outcome_bind].
  destruct (register_pools_ok (pool_types Standard) (registry_init b new_pool_registry)) as (r & Hr & _ & Hl); [done| |done|].
  { unfold pool_types. destruct mpi_support; apply (bool_decide_unpack _); vm_compute; exact Logic.I. }
  rewrite Hr. cbn [mbind outcome_bind].
  eexists _, _. split; [done|]. split_and!; try done.
  - intros t Ht. cbn [pool_registry]. by rewrite Hl, decide_True.
  - intros x Hx. repeat (apply elem_of_cons in Hx as [->|Hx]; [by simplify_map_eq|]). by apply elem_of_nil in Hx.
Qed.

(** Where the configuration asks for the standard core, and its storage and bucket can be read. *)
Record good_config (c : Configuration) (ioms : IomRegistry (I := I)) : Prop := {
  asks_standard : (GetLowercaseString c (lit "kelpie.type") (lit "standard")).2 = lit "standard";
  good_ioms : IomRegistry.init drivers (kelpie_ioms c) (iom_settings c) new_iom_registry = Ok ioms;
  good_bucket : ∃ b, default_security_bucket c = Ok b
}.

Lemma Init_serves c w ioms :
  good_config c ioms → core w = None →
  (∀ nm, nm ∈ kelpie_ops → OpRegistry.CreateOp (const_hash nm) (op_registry w) = None) →
  ∃ w' l k, Init c w = Ok w' ∧ serving w' l k ioms.
Proof.
  intros [Ht Hi [b Hb]] Hc Hops. unfold Init, IsUnconfigured. rewrite Hc, Ht. cbn [negb].
  rewrite (bool_decide_eq_true_2 (None = None)) by done. cbn [negb].
  change (core_of_type (lit "standard")) with (Ok Standard). cbn [mbind outcome_bind]. rewrite Hb. cbn [mbind outcome_bind].
  set (l := malloc _). set (w0 := set_cores _ _).
  destruct (init_parts_ok l c w0 ioms b Hi Hb) as (k & h & Hp & Hk & Hconf & Hioms & Hpools & Hpick & Hh).
  unfold core_init. rewrite Hp. cbn [mbind outcome_bind]. rewrite Hk. cbn [set_hooks op_registry].
  destruct (register_ops_ok kelpie_ops (op_registry w0)) as (r & -> & Hr).
  { apply (bool_decide_unpack _). vm_compute. exact Logic.I. }
  { done. }
  cbn [mbind outcome_bind]. set (w1 := set_ops _ _).
  destruct (configure_ops_rest kelpie_ops (Some l) w1) as (H1 & H2 & H3 & H4).
  eexists _, l, k. split; [reflexivity|]. split; [| |done|done|done| |].
  - split; [done|]. cbn. apply lookup_insert_eq.
  - done.
  - intros nm Hnm. split.
    + cbn [set_core set_cores updateHook set_hooks op_registry]. rewrite H4. by apply Hr.
    + cbn [set_core set_cores updateHook set_hooks op_lkv]. by rewrite configure_ops_lookup, decide_True.
  - intros x Hx. cbn [set_core set_cores updateHook set_hooks hooks]. rewrite H3. cbn [w1 set_ops set_hooks hooks].
    destruct (decide (x = lit "/kelpie")) as [->|Hne]; [apply lookup_insert_eq|].
    rewrite lookup_insert_ne by done. apply Hh. apply elem_of_app in Hx as [?|Hx]; apply elem_of_app; [by left|right].
    by apply elem_of_cons in Hx as [?|?].
Qed.

(** C31: A process in which kelpie is not configured and its ops are not registered comes up with a
    standard core, when the configuration asks for the standard type and its storage and bucket can
    be read: the storage modules of the configuration; pools of the types local, lkv, null, dht, tft
    and trace, and rft where there is MPI; the function pick; the ops for computing, dropping, both
    kinds of getting, listing, meta data and publishing are known and work on this core's store; and
    the seven pages of kelpie show this core. *)
Theorem standard_ready c w ioms :
  good_config c ioms → core w = None →
  (∀ nm, nm ∈ [lit "OpKelpieCompute"; lit "OpKelpieDrop"; lit "OpKelpieGetBounded"; lit "OpKelpieGetUnbounded";
               lit "OpKelpieList"; lit "OpKelpieMeta"; lit "OpKelpiePublish"] →
     OpRegistry.CreateOp (const_hash nm) (op_registry w) = None) →
  ∃ w' l k, Init c w = Ok w' ∧ core w' = Some l ∧ cores w' !! l = Some k ∧ iom_registry k = ioms ∧
    (∀ t, t ∈ [lit "local"; lit "lkv"; lit "null"; lit "dht"; lit "tft"; lit "trace"] ∨
          t = lit "rft" ∧ mpi_support = true →
       pool_create_fns (pool_registry k) !! t = Some (pool_creator t)) ∧
    is_Some (compute_fns (compute_registry k) !! lit "pick") ∧
    (∀ nm, nm ∈ [lit "OpKelpieCompute"; lit "OpKelpieDrop"; lit "OpKelpieGetBounded"; lit "OpKelpieGetUnbounded";
                 lit "OpKelpieList"; lit "OpKelpieMeta"; lit "OpKelpiePublish"] →
       OpRegistry.CreateOp (const_hash nm) (op_registry w') = Some nm ∧ op_core nm w' = Ok k) ∧
    (∀ h, h ∈ [lit "/kelpie/lkv"; lit "/kelpie/lkv/row"; lit "/kelpie/lkv/cell"; lit "/kelpie";
               lit "/kelpie/iom_registry"; lit "/kelpie/pool_registry"; lit "/kelpie/compute_registry"] →
       page_core h w' = Ok (Some k)).
Proof.
  intros Hg Hc Hops. destruct (Init_serves c w ioms Hg Hc Hops) as (w' & l & k & Hi & [[H1 H2] _ H3 H4 H5 H6 H7]).
  exists w', l, k. split_and!; try done.
  - intros t [Ht|[-> Hm]]; apply H4; unfold pool_types; apply elem_of_app; [by left|right].
    rewrite Hm. by left.
  - intros nm Hnm. destruct (H6 nm Hnm) as [? Hl]. split; [done|]. unfold op_core. by rewrite Hl, H2.
  - intros h Hh. unfold page_core. by rewrite (H7 h Hh), H2.
Qed.

Lemma delete_core_rest l w :
  op_lkv (delete_core l w) = op_lkv w ∧ op_registry (delete_core l w) = op_registry w ∧
  cores (delete_core l w) = delete l (cores w) ∧
  ∀ h, hooks (delete_core l w) !! h = if decide (h ∈ lkv_hooks) then None else hooks w !! h.
Proof.
  split_and!; [done..|]. intros h. unfold delete_core. cbn.
  destruct (decide (h ∈ lkv_hooks)) as [Hin|Hin].
  - repeat (apply elem_of_cons in Hin as [->|Hin]; [by simplify_map_eq|]). by apply elem_of_nil in Hin.
  - assert (h ≠ lit "/kelpie/lkv" ∧ h ≠ lit "/kelpie/lkv/row" ∧ h ≠ lit "/kelpie/lkv/cell") as (? & ? & ?)
      by (split_and!; intros ->; apply Hin; [by left|by right; left|by right; right; left]).
    by rewrite !lookup_delete_ne by (by apply not_eq_sym).
Qed.

(** [Finish] deletes the core without finishing it: all ops of kelpie keep their pointers to its
    store, and four pages still call it. *)
Theorem finish_dangles counts w l k ioms :
  serving w l k ioms →
  let w' := (Finish counts w).2 in
  core w' = None ∧
  (∀ nm, nm ∈ kelpie_ops → OpRegistry.CreateOp (const_hash nm) (op_registry w') = Some nm ∧ op_core nm w' = Throw Undefined) ∧
  (∀ h, h ∈ registry_hooks → page_core h w' = Throw Undefined) ∧
  (∀ h, h ∈ lkv_hooks → page_core h w' = Ok None).
Proof.
  intros [[H1 H2] _ _ _ _ H6 H7]. unfold Finish. rewrite H1. cbn [snd].
  destruct (delete_core_rest l w) as (Ho & Hr & Hc & Hh).
  assert (∀ x, cores (set_core (delete_core l w) None) !! x = delete l (cores w) !! x) as Hcs by done.
  split_and!; [done| | |].
  - intros nm Hnm. destruct (H6 nm Hnm) as [Hk Hl]. split; [done|]. unfold op_core.
    change (op_lkv (set_core (delete_core l w) None)) with (op_lkv w). by rewrite Hl, Hcs, lookup_delete_eq.
  - intros h Hx. unfold page_core. change (hooks (set_core ?x None)) with (hooks x). rewrite Hh, decide_False.
    + rewrite (H7 h) by (apply elem_of_app; by right). by rewrite Hcs, lookup_delete_eq.
    + intros Hy. repeat (apply elem_of_cons in Hx as [->|Hx]; [by apply (bool_decide_unpack (_ ∉ lkv_hooks)) in Hy|]).
      by apply elem_of_nil in Hx.
  - intros h Hx. unfold page_core. change (hooks (set_core ?x None)) with (hooks x). by rewrite Hh, decide_True.
Qed.

(** Once OpBox has been finished as well, kelpie comes up again, and everything refers to the new
    core; before that, the ops of kelpie are still registered and the process ends. *)
Theorem restart_ready counts c' w l k ioms ioms' :
  serving w l k ioms → good_config c' ioms' → OpRegistry.reachable (op_registry w) →
  (∃ w' l' k', Init c' (set_ops (Finish counts w).2 OpRegistry.new_registry) = Ok w' ∧ serving w' l' k' ioms') ∧
  Init c' (Finish counts w).2 = Throw Exit.
Proof.
  intros Hs Hg Hreach. pose proof (serving_core _ _ _ _ Hs) as [H1 _]. split.
  - apply Init_serves; [done| |done]. unfold Finish. by rewrite H1.
  - destruct Hg as [Ht Hi [b Hb]]. pose proof (serving_ops _ _ _ _ Hs) as Hops.
    unfold Finish. rewrite H1. cbn [snd]. unfold Init, IsUnconfigured. cbn [set_core core].
    rewrite (bool_decide_eq_true_2 (None = None)) by done. cbn [negb]. rewrite Ht.
    change (core_of_type (lit "standard")) with (Ok Standard). cbn [mbind outcome_bind]. rewrite Hb. cbn [mbind outcome_bind].
    set (l' := malloc _). set (w0 := set_cores _ _).
    destruct (init_parts_ok l' c' w0 ioms' b Hi Hb) as (k' & h & Hp & Hk & _). unfold core_init. rewrite Hp.
    cbn [mbind outcome_bind]. rewrite Hk. cbn [set_hooks op_registry].
    assert (OpRegistry.RegisterOp (const_hash (lit "OpKelpieCompute")) (lit "OpKelpieCompute") (lit "OpKelpieCompute")
      (op_registry w0) = Throw Exit) as Hdup.
    { destruct (Hops (lit "OpKelpieCompute")) as [Hcr _]; [by left|].
      change (op_registry w0) with (op_registry w). unfold OpRegistry.CreateOp in Hcr. unfold OpRegistry.RegisterOp.
      destruct (OpRegistry.known_ops_pre _ !! _); [done|]. rewrite Hcr.
      destruct (OpRegistry.finalized _) eqn:Hf; [done|]. exfalso.
      destruct (OpRegistry.registry_reachable_ok _ Hreach) as (_ & _ & _ & He). rewrite He in Hcr by done.
      by rewrite lookup_empty in Hcr. }
    cbn [kelpie_ops register_ops]. by rewrite Hdup.
Qed.

(** What the [finish] of the core would leave, if it were called: the pointer of one op, and two pages. *)
Theorem core_finish_leaves w l k ioms :
  serving w l k ioms →
  let w' := delete_core l (core_finish k w).2 in
  (∀ nm, nm ∈ kelpie_ops →
     op_lkv w' !! nm = if decide (nm = lit "OpKelpieCompute") then Some l else None) ∧
  (∀ h, h ∈ lkv_hooks ++ registry_hooks →
     hooks w' !! h = if decide (h ∈ [lit "/kelpie/iom_registry"; lit "/kelpie/compute_registry"]) then Some l else None) ∧
  cores w' !! l = None.
Proof.
  intros [_ [Hk _] _ _ _ H6 H7]. unfold core_finish. rewrite Hk. cbn [snd].
  set (w1 := configure_ops _ _ _). set (w2 := deregisterHook _ _).
  destruct (configure_ops_rest (drop 1 kelpie_ops) None (deregisterHook (lit "/kelpie") w)) as (_ & _ & Hh1 & _).
  fold w1 in Hh1. destruct (delete_core_rest l w2) as (Ho & _ & Hc & Hh). split_and!.
  - intros nm Hnm. rewrite Ho. change (op_lkv w2) with (op_lkv w1). unfold w1. rewrite configure_ops_lookup.
    change (op_lkv (deregisterHook _ w)) with (op_lkv w).
    apply elem_of_cons in Hnm as [->|Hnm].
    + rewrite decide_False by (by apply (bool_decide_unpack (_ ∉ _))). rewrite decide_True by done. by apply H6; left.
    + rewrite (decide_True (P := nm ∈ drop 1 kelpie_ops)) by done. rewrite decide_False; [done|]. intros ->.
      by apply (bool_decide_unpack (_ ∉ _)) in Hnm.
  - intros h Hx. pose proof (H7 h Hx) as Hw. rewrite Hh. unfold w2. cbn [deregisterHook set_hooks hooks]. rewrite Hh1. cbn [deregisterHook set_hooks hooks].
    repeat (apply elem_of_cons in Hx as [->|Hx]; [by simplify_map_eq|]).
    by apply elem_of_nil in Hx.
  - rewrite Hc. apply lookup_delete_eq.
Qed.

(** ** Joining as a server *)

Lemma RegisterIomFromURL_found url (r r' : IomRegistry (I := I)) l :
  GetOptions url = Ok l → RegisterIomFromURL url r = Ok (0%Z, r') →
  is_Some (Find_name (iom_options l).1.1 r').
Proof.
  intros Hl. unfold RegisterIomFromURL. rewrite Hl. cbn [mbind outcome_bind].
  destruct (iom_options l) as [[nm ty] m]. destruct (_ || _); [done|].
  destruct (RegisterIom ty nm m r) as [r1|] eqn:Hr; [|done]. intros [= <-]. cbn [fst].
  unfold RegisterIom in Hr. apply bind_Ok in Hr as (i & Hnew & Hst). unfold register_store in Hst.
  unfold register_new in Hnew. destruct (Find_name nm r) eqn:Hf; [done|]. unfold Find_name, Find in *.
  destruct (finalized r) eqn:Hfin; cbn [negb] in Hst.
  - destruct (ioms_by_hash_post r !! hash32 nm); [done|]. injection Hst as <-. cbn.
    destruct (ioms_by_hash_pre r !! hash32 nm); [done|]. rewrite lookup_insert_eq. by eexists.
  - injection Hst as <-. cbn. rewrite lookup_insert_eq. by eexists.
Qed.

(** A node that joined a pool with an I/O module has the module, unless the call says -1. *)
Theorem join_brings_iom join url nm k k' l :
  let d := (join url nm).2 in
  (join url nm).1 = true → GetOptions (di_url d) = Ok l →
  (iom_options l).1.1 = GetOption (di_url d) (lit "iom") [] → GetOption (di_url d) (lit "iom") [] ≠ [] →
  JoinServerPool join url nm k = Ok (0%Z, k') →
  is_Some (Find_name (GetOption (di_url d) (lit "iom") []) (iom_registry k')).
Proof.
  intros d Hok Hl Hname Hne. unfold JoinServerPool. fold d. destruct (join url nm) as [ok d0] eqn:Hj. cbn in d, Hok. subst ok.
  subst d. cbn [snd] in *. rewrite bool_decide_eq_false_2 by done. cbn [negb].
  destruct (Find_name _ (iom_registry k)) eqn:Hf; [intros [= <-]; by rewrite Hf|].
  intros ([rc r] & Hr & He)%bind_Ok. destruct (Z.eqb_spec rc 0) as [->|]; [|done]. injection He as <-. cbn [iom_registry].
  rewrite <-Hname. by apply (RegisterIomFromURL_found _ _ _ _ Hl Hr).
Qed.

(** A join that fails is reported as done. *)
Lemma join_failure_unreported join url nm d (k : kelpie_core) :
  join url nm = (false, d) → JoinServerPool join url nm k = Ok (0%Z, k).
Proof. intros Hj. unfold JoinServerPool. by rewrite Hj. Qed.
End kelpie_core.

(** * Witnesses *)

Definition no_creator (t : str) (_ : ResourceURL) : outcome str := Ok t.
Definition null_driver : list (str * (str → gmap str str → outcome (option str)) * list (str * str)) :=
  [(lit "null", (λ nm _, Ok (Some nm)), [])].
Definition unconfigured_process : process (P := str) (I := str) (D := content) :=
  mkProcess None ∅ ∅ ∅ OpRegistry.new_registry.
Definition kelpie_config : Configuration := mkConfig (lit "default") ∅.
Definition next_free (X : gset nat) : nat := S (set_fold Nat.max 0 X).
Definition kelpie_up : process (P := str) (I := str) (D := content) :=
  match Init no_creator null_driver (λ _, []) (λ _ _, ∅) true next_free kelpie_config unconfigured_process with
  | Ok w => w
  | Throw _ => unconfigured_process
  end.
Definition demo_ioms : IomRegistry (I := str) :=
  match IomRegistry.init null_driver [] (λ _, ∅) new_iom_registry with Ok r => r | Throw _ => new_iom_registry end.

Lemma kelpie_config_good : good_config null_driver (λ _, []) (λ _ _, ∅) kelpie_config demo_ioms.
Proof. split; [vm_compute; reflexivity|reflexivity|]. exists (Bucket.mk 2916609667). vm_compute. reflexivity. Qed.

Lemma standard_ready_witness :
  ∃ w' l k, Init no_creator null_driver (λ _, []) (λ _ _, ∅) true next_free kelpie_config unconfigured_process = Ok w' ∧
    core w' = Some l ∧ cores w' !! l = Some k ∧ iom_registry k = demo_ioms ∧
    pool_create_fns (pool_registry k) !! lit "rft" = Some (no_creator (lit "rft")) ∧
    op_core (lit "OpKelpieMeta") w' = Ok k ∧ page_core (lit "/kelpie/lkv") w' = Ok (Some k).
Proof.
  destruct (standard_ready no_creator null_driver (λ _, []) (λ _ _, ∅) true next_free kelpie_config unconfigured_process demo_ioms)
    as (w' & l & k & Hi & H1 & H2 & H3 & Hpools & _ & Hops & Hpages);
    [exact kelpie_config_good|reflexivity|intros nm _; reflexivity|].
  exists w', l, k. split_and!; [exact Hi|exact H1|exact H2|exact H3| | |].
  - apply Hpools. right. split; reflexivity.
  - apply Hops. by do 5 apply list_elem_of_further; left.
  - apply Hpages. left.
Defined.

Lemma kelpie_serving : ∃ l k, serving no_creator true kelpie_up l k demo_ioms.
Proof.
  destruct (Init_serves no_creator null_driver (λ _, []) (λ _ _, ∅) true next_free kelpie_config unconfigured_process demo_ioms)
    as (w' & l & k & Hi & Hs); [exact kelpie_config_good|reflexivity|intros nm _; reflexivity|].
  exists l, k. unfold kelpie_up. rewrite Hi. exact Hs.
Qed.

Lemma finish_dangles_witness :
  let w' := (Finish (λ _, 0) kelpie_up).2 in
  core w' = None ∧
  (∀ nm, nm ∈ kelpie_ops → OpRegistry.CreateOp (const_hash nm) (op_registry w') = Some nm ∧ op_core nm w' = Throw Undefined) ∧
  (∀ h, h ∈ registry_hooks → page_core h w' = Throw Undefined) ∧
  (∀ h, h ∈ lkv_hooks → page_core h w' = Ok None).
Proof.
  destruct kelpie_serving as (l & k & Hs). apply (finish_dangles no_creator true (λ _, 0) kelpie_up l k demo_ioms Hs).
Defined.

(** The op registry of a process that went through [Init] is one that calls lead to. *)
Lemma register_ops_reachable names (r r' : OpRegistry.OpRegistry str) :
  OpRegistry.reachable r → register_ops names r = Ok r' → OpRegistry.reachable r'.
Proof.
  revert r. induction names as [|nm names IH]; intros r Hr; cbn [register_ops]; [by intros [= <-]|].
  intros (r1 & H1 & H2)%bind_Ok. apply (IH r1); [|done].
  by apply (OpRegistry.reach_call (OpRegistry.CRegister (const_hash nm) nm nm) r).
Qed.

Lemma kelpie_up_reachable : OpRegistry.reachable (op_registry kelpie_up).
Proof.
  destruct (register_ops_ok kelpie_ops OpRegistry.new_registry) as (r & Hr & _).
  { apply (bool_decide_unpack _). vm_compute. exact Logic.I. }
  { intros nm _. reflexivity. }
  assert (op_registry kelpie_up = r) as ->.
  { assert (register_ops kelpie_ops OpRegistry.new_registry = Ok (op_registry kelpie_up)) as Hk by (vm_compute; reflexivity).
    congruence. }
  by apply (register_ops_reachable kelpie_ops OpRegistry.new_registry); [apply OpRegistry.reach_new|].
Qed.

Lemma restart_ready_witness :
  (∃ w' l' k', Init no_creator null_driver (λ _, []) (λ _ _, ∅) true next_free kelpie_config
                 (set_ops (Finish (λ _, 0) kelpie_up).2 OpRegistry.new_registry) = Ok w' ∧
               serving no_creator true w' l' k' demo_ioms) ∧
  Init no_creator null_driver (λ _, []) (λ _ _, ∅) true next_free kelpie_config (Finish (λ _, 0) kelpie_up).2 = Throw Exit.
Proof.
  destruct kelpie_serving as (l & k & Hs).
  exact (restart_ready no_creator null_driver (λ _, []) (λ _ _, ∅) true next_free (λ _, 0) kelpie_config kelpie_up
    l k demo_ioms demo_ioms Hs kelpie_config_good kelpie_up_reachable).
Defined.
