(* ===== verification/IomPosix.v ===== *)
(** The storage driver that keeps every object in a file of its own
    (src/src/kelpie/ioms/IomPosixIndividualObjects.cpp).

    The file system is an interface: [PosixFS] has the calls the driver makes and [PosixFSLaws]
    what POSIX documents about them for the directories of the driver, which hold no links.
    [others] is what other processes do to the file system while the driver sleeps.  An operation
    takes the file system and the counters and returns an outcome with both. *)
From S2P Require Import Prelude StringHelpers Identifiers DataObject LdoBytes Key KelpieTypes.
From S2P Require Import LocalKVRow LocalKV IomRegistry.

(** * File systems *)

Definition slash : str := lit "/".

(** What [stat] reports: a directory, a regular file with its contents, or anything else. *)
Inductive node := Dir | Reg (contents : str) | Special.

Class PosixFS (F : Type) := {
  fs_stat : F → str → option node;           (** [stat]; [None] is an error *)
  fs_writable : F → str → bool;              (** [access(path, W_OK) == 0] *)
  fs_mkdir : F → str → option F;             (** [mkdir]; [None] is an error *)
  fs_saves : F → str → str → bool;           (** does the file take these bytes, for the user to read? *)
  fs_save : F → str → str → F;               (** an [ofstream] is opened, written and closed *)
  fs_read : F → str → option str;            (** what an [ifstream] gives; [None]: it does not open *)
  fs_readdir : F → str → option (list str)   (** [opendir] and [readdir]; [None] is an error *)
}.

(** The names a directory can have for its entries. *)
Definition entry_name (n : str) : Prop :=
  n ≠ [] ∧ "/"%char ∉ n ∧ n ≠ lit "." ∧ n ≠ lit "..".

(** An entry of a directory below [d]. *)
Definition below (d b n : str) : str := d ++ b ++ slash ++ n.

Definition ends_in_slash (d : str) : Prop := ∃ d', d = d' ++ slash.

Class PosixFSLaws (F : Type) `{PosixFS F} := {
  save_stores s d b n c :
    ends_in_slash d → entry_name b → entry_name n → fs_saves s (below d b n) c = true →
    fs_stat (fs_save s (below d b n) c) (below d b n) = Some (Reg c) ∧
    fs_read (fs_save s (below d b n) c) (below d b n) = Some c;
  save_frame s d b n c b' n' :
    ends_in_slash d → entry_name b → entry_name n → entry_name b' → entry_name n' →
    (b', n') ≠ (b, n) →
    fs_stat (fs_save s (below d b n) c) (below d b' n') = fs_stat s (below d b' n') ∧
    fs_read (fs_save s (below d b n) c) (below d b' n') = fs_read s (below d b' n');
  save_dirs s d b n c b' :
    ends_in_slash d → entry_name b → entry_name n → entry_name b' →
    fs_writable (fs_save s (below d b n) c) (below d b' []) = fs_writable s (below d b' []);
  mkdir_frame s s' d b b' n' :
    ends_in_slash d → entry_name b → entry_name b' → entry_name n' →
    fs_mkdir s (below d b []) = Some s' →
    fs_stat s' (below d b' n') = fs_stat s (below d b' n') ∧
    fs_read s' (below d b' n') = fs_read s (below d b' n');
  mkdir_writable s s' d b :
    ends_in_slash d → entry_name b → fs_mkdir s (below d b []) = Some s' →
    fs_writable s' (below d b []) = true;
  readdir_complete s d b l n :
    ends_in_slash d → entry_name b → entry_name n → nul ∉ n → fs_readdir s (below d b []) = Some l →
    fs_stat s (below d b n) ≠ None → n ∈ l;
  readdir_names s p l :
    fs_readdir s p = Some l →
    NoDup l ∧ ∀ n, n ∈ l → n = lit "." ∨ n = lit ".." ∨ entry_name n ∧ nul ∉ n;
  double_slash s d n :
    ends_in_slash d → entry_name n → fs_stat s (d ++ slash ++ n) = fs_stat s (d ++ n)
}.

(** * The driver *)

Section driver.
Context {F : Type} `{PosixFS F}.
(** [others i]: what other processes do during the [i]th sleep; [garbage]: what fresh memory holds. *)
Context (others : nat → F → F) (garbage : str).

Record world := mkWorld { fs : F; stats : iom_stats }.

Definition M (A : Type) : Type := world → outcome A * world.
#[local] Instance M_ret : MRet M := λ A a w, (Ok a, w).
#[local] Instance M_bind : MBind M := λ A B f m w,
  match m w with (Ok a, w') => f a w' | (Throw e, w') => (Throw e, w') end.

Definition lift {A} (o : outcome A) : M A := λ w, (o, w).
Definition scan {A} (f : F → outcome A) : M A := λ w, (f (fs w), w).
Definition look {A} (f : F → A) : M A := scan (λ s, Ok (f s)).
Definition count (f : iom_stats → iom_stats) : M () := λ w, (Ok (), mkWorld (fs w) (f (stats w))).
Definition save (p c : str) : M () := λ w, (Ok (), mkWorld (fs_save (fs w) p c) (stats w)).

(** The constructor: the directory is there and can be written, or is made; three tries. *)
Fixpoint find_or_make (tries i : nat) (path : str) (s : F) : outcome () * F :=
  match tries with
  | O => (Throw RuntimeError, s)
  | S tries' =>
      match fs_stat s (c_str path) with
      | Some Dir => (if fs_writable s (c_str path) then Ok () else Throw RuntimeError, s)
      | Some _ => (Throw RuntimeError, s)
      | None =>
          match fs_mkdir s (c_str path) with
          | Some s' => (Ok (), s')
          | None => find_or_make tries' (S i) path (others i s)
          end
      end
  end.

Definition new_pio (getenv : str → option str) (new_settings : gmap str str) (s : F) : outcome str * F :=
  let settings := keep_settings [lit "path"; lit "path.env_name"] new_settings in
  let path := GetPathFromComponentSettings getenv settings in
  if path =s? [] then (Throw RuntimeError, s)
  else
    match find_or_make 3 0 path s with
    | (Ok _, s') => (Ok path, s')
    | (Throw e, s') => (Throw e, s')
    end.

(** The member [path] is an argument of the other operations. *)
Context (path : str).

Fixpoint bucket_loop (tries i : nat) (bucket_path : str) (s : F) : outcome str * F :=
  match tries with
  | O => (Throw RuntimeError, s)
  | S tries' =>
      if fs_writable s (c_str bucket_path) then (Ok bucket_path, s)
      else
        match fs_mkdir s (c_str bucket_path) with
        | Some s' => (Ok bucket_path, s')
        | None => bucket_loop tries' (S i) bucket_path (others i s)
        end
  end.

Definition genBucketPath (bucket : Bucket.t) : M str := λ w,
  let '(r, s) := bucket_loop 5 0 (path ++ Bucket.GetHex bucket ++ slash) (fs w) in
  (r, mkWorld s (stats w)).

Definition genBucketPathFile (bucket : Bucket.t) (key : Key) : M str :=
  bucket_path ← genBucketPath bucket;
  packed ← lift (pup key);
  mret (bucket_path ++ MakePunycode packed).

(** [GetInfo] with a place for the answer. *)
Definition GetInfo (bucket : Bucket.t) (key : Key) : M (rc_t * object_info_t) :=
  fname ← genBucketPathFile bucket key;
  sb ← look (λ s, fs_stat s (c_str fname));
  match sb with
  | Some (Reg c) => mret (KELPIE_OK, mkInfo 0 (u64 (zlen c - GetHeaderSize)) 0 0 InDisk)
  | _ => mret (KELPIE_ENOENT, Wipe)
  end.

Definition WriteObject (bucket : Bucket.t) (key : Key) (ldo : ldo_obj) : M rc_t :=
  fname ← genBucketPathFile bucket key;
  contents ← lift (writeToFile ldo);
  _ ← save (c_str fname) contents;
  let rc := 0%Z in
  _ ← count (λ st, mkStats (s32 (stat_wr_requests st + 1))
                     (s32 (stat_wr_bytes st + GetWireSize (Some (alloc ldo)))) (stat_rd_requests st)
                     (stat_rd_bytes st) (stat_rd_hits st) (stat_rd_misses st));
  mret (if (rc =? 0)%Z then KELPIE_OK else KELPIE_EIO).

(** [readFromFile] on a file [stat] has found to hold [c]; a stream that does not open gives
    nothing, and nothing is reported. *)
Definition read_into (o : ldo_obj) (c : str) (stream : option str) : outcome ldo_obj :=
  match stream with
  | Some c' => readFromFile o (Some c')
  | None =>
      _ ← F_ASSERT (zlen c <=? u32 (GetHeaderSize + meta_bytes (alloc o) + data_bytes (alloc o)))%Z;
      Ok o
  end.

(** [ReadObject] with a place for the object; [None]: the place is left as it was. *)
Definition ReadObject (bucket : Bucket.t) (key : Key) : M (rc_t * option ldo_obj) :=
  fname ← genBucketPathFile bucket key;
  _ ← count (λ st, mkStats (stat_wr_requests st) (stat_wr_bytes st) (s32 (stat_rd_requests st + 1))
                     (stat_rd_bytes st) (stat_rd_hits st) (stat_rd_misses st));
  sb ← look (λ s, fs_stat s (c_str fname));
  match sb with
  | Some (Reg c) =>
      o ← lift (new_ldo garbage (u32 (zlen c)) 0 (u32 (zlen c)) 0);
      stream ← look (λ s, fs_read s (c_str fname));
      o' ← lift (read_into o c stream);
      _ ← count (λ st, mkStats (stat_wr_requests st) (stat_wr_bytes st) (stat_rd_requests st)
                         (s32 (stat_rd_bytes st + zlen c)) (s32 (stat_rd_hits st + 1)) (stat_rd_misses st));
      mret (KELPIE_OK, Some o')
  | _ => mret (KELPIE_ENOENT, None)
  end.

Definition is_dot (name : str) : bool := (name =s? lit ".") || (name =s? lit "..").

Fixpoint list_entries (s : F) (bucket_path : str) (wanted : Key → bool) (names : list str)
    (oc : ObjectCapacities) : outcome ObjectCapacities :=
  match names with
  | [] => Ok oc
  | name :: names' =>
      if is_dot name then list_entries s bucket_path wanted names' oc
      else
        match fs_stat s (c_str (bucket_path ++ slash ++ name)) with
        | Some (Reg c) =>
            key ← unpup (ExpandPunycode name);
            list_entries s bucket_path wanted names'
              (if wanted key then oc_Append oc key (zlen c) else oc)
        | _ => list_entries s bucket_path wanted names' oc
        end
  end.

Definition wanted (key : Key) (k : Key) : bool :=
  let k1 := if IsRowWildcard key then chop (K1 key) else K1 key in
  let k2 := if IsColWildcard key then chop (K2 key) else K2 key in
  matchesPrefixString k (IsRowWildcard key) k1 (IsColWildcard key) k2.

Definition ListObjects (bucket : Bucket.t) (key : Key) (oc : ObjectCapacities)
    : M (rc_t * ObjectCapacities) :=
  bucket_path ← genBucketPath bucket;
  dp ← look (λ s, fs_readdir s (c_str bucket_path));
  match dp with
  | Some names =>
      oc' ← scan (λ s, list_entries s bucket_path (wanted key) names oc);
      mret (KELPIE_OK, oc')
  | None => mret (KELPIE_OK, oc)
  end.

(** The text after the last slash. *)
Fixpoint basename (cur s : str) : str :=
  match s with
  | [] => cur
  | c :: s' => if c =c? "/"%char then basename s' s' else basename cur s'
  end.

Definition getKeyFromBucketPathFile (p : str) : outcome Key :=
  unpup (ExpandPunycode (basename (c_str p) (c_str p))).

Definition bucket_le (a b : Bucket.t) : Prop := (Bucket.bid a ≤ Bucket.bid b)%Z.
#[global] Instance bucket_le_dec : RelDecision bucket_le.
Proof. intros a b. unfold bucket_le. apply _. Defined.

Fixpoint parse_buckets (names : list str) : outcome (list Bucket.t) :=
  match names with
  | [] => Ok []
  | name :: names' =>
      if is_dot name then parse_buckets names'
      else b ← Bucket.of_string name; bs ← parse_buckets names'; Ok (b :: bs)
  end.

Definition getBucketNames : M (list Bucket.t) :=
  dp ← look (λ s, fs_readdir s (c_str path));
  bs ← lift (parse_buckets (default [] dp));
  mret (merge_sort bucket_le bs).

Definition row_le (x y : str * str) : Prop := str_ltb x.1 y.1 = true ∨ x.1 = y.1 ∧ str_le x.2 y.2.
#[global] Instance row_le_dec : RelDecision row_le.
Proof. intros x y. unfold row_le. apply _. Defined.

Fixpoint contents_rows (s : F) (bucket_path : str) (names : list str) : outcome (list (str * str)) :=
  match names with
  | [] => Ok []
  | name :: names' =>
      if is_dot name then contents_rows s bucket_path names'
      else
        row ← match fs_stat s (c_str (bucket_path ++ slash ++ name)) with
              | Some (Reg c) =>
                  key ← unpup (ExpandPunycode name); Ok (key_str key, show_dec (zlen c))
              | _ => Ok (name, lit "NODATA?")
              end;
        rows ← contents_rows s bucket_path names';
        Ok (row :: rows)
  end.

Definition getBucketContents (bucket : str) : M (list (str * str)) :=
  b ← lift (Bucket.of_string bucket);
  bucket_path ← genBucketPath b;
  dp ← look (λ s, fs_readdir s (c_str bucket_path));
  rows ← scan (λ s, contents_rows s bucket_path (default [] dp));
  mret (merge_sort row_le rows).
End driver.

Arguments world F : clear implicits.
Arguments mkWorld {F} _ _.

(** * Names *)

Definition plain_char (c : ascii) : bool := negb (c =c? nul) && negb (c =c? "/"%char) && negb (c =c? "."%char).

Lemma plain_name n : n ≠ [] → Forall (λ c, plain_char c = true) n → entry_name n ∧ nul ∉ n.
Proof.
  intros Hn Hall. rewrite Forall_forall in Hall. unfold entry_name.
  split_and!; [done|intros Hin|intros ->|intros ->|intros Hin].
  1,4: apply Hall in Hin; vm_compute in Hin; done.
  all: specialize (Hall "."%char); vm_compute in Hall; discriminate Hall; set_solver.
Qed.

Lemma puny_plain c : Forall (λ c, plain_char c = true) (puny_char c).
Proof.
  assert (forallb plain_char (puny_char c) = true) as Hc.
  { by_chars c (λ c, forallb plain_char (puny_char c)). }
  rewrite Forall_forall. intros x Hx%list_elem_of_In. by apply (proj1 (forallb_forall _ _) Hc).
Qed.

Lemma Make_plain s : Forall (λ c, plain_char c = true) (MakePunycode s).
Proof.
  induction s as [|c s IH]; [constructor|].
  change (MakePunycode (c :: s)) with (puny_char c ++ MakePunycode s).
  apply Forall_app. split; [apply puny_plain|done].
Qed.

Definition key_ok (k : Key) : Prop :=
  length (K1 k) ≤ MAX_STRING_BYTES ∧ length (K2 k) ≤ MAX_STRING_BYTES.

Definition file_name (k : Key) : str :=
  match pup k with Ok t => MakePunycode t | Throw _ => [] end.

Lemma pup_ok k : key_ok k → ∃ t, pup k = Ok t ∧ unpup t = Ok k ∧ t ≠ [].
Proof.
  intros [H1 H2]. pose proof (pup_roundtrip k H1 H2) as Hr. apply bind_Ok in Hr as (t & Ht & Hu).
  exists t. split_and!; [done..|]. intros ->. by vm_compute in Hu.
Qed.

Lemma Make_nil t : MakePunycode t = [] → t = [].
Proof. intros Hm. by rewrite <-(Punycode_roundtrip t), Hm. Qed.

Lemma file_name_ok k : key_ok k → entry_name (file_name k) ∧ nul ∉ file_name k.
Proof.
  intros (t & Ht & _ & Hn)%pup_ok. unfold file_name. rewrite Ht.
  apply plain_name; [by intros ?%Make_nil|apply Make_plain].
Qed.

(** The name of a file tells the key. *)
Lemma file_name_key k : key_ok k → unpup (ExpandPunycode (file_name k)) = Ok k.
Proof. intros (t & Ht & Hu & _)%pup_ok. unfold file_name. by rewrite Ht, Punycode_roundtrip. Qed.

Lemma file_name_inj k k' : key_ok k → key_ok k' → file_name k = file_name k' → k = k'.
Proof.
  intros Hk Hk' He. pose proof (file_name_key k Hk) as Hx. rewrite He, file_name_key in Hx by done.
  congruence.
Qed.

Lemma hex_ok b : Bucket.wf b → entry_name (Bucket.GetHex b) ∧ nul ∉ Bucket.GetHex b.
Proof. intros Hb. apply plain_name; [done|]. by apply hex_plain. Qed.

(** * The driver as a map of objects *)

Section refinement.
Context {F : Type} `{PosixFSLaws F} (others : nat → F → F) (garbage path : str).

(** The member [path], as the constructor leaves it. *)
Definition path_ok : Prop := ends_in_slash path ∧ nul ∉ path.

(** Two file systems with the same files in the directories of the driver. *)
Definition same_files (s s' : F) : Prop :=
  ∀ b n, entry_name b → entry_name n →
    fs_stat s' (below path b n) = fs_stat s (below path b n) ∧
    fs_read s' (below path b n) = fs_read s (below path b n).

#[local] Instance same_files_preorder : PreOrder same_files.
Proof.
  split; [by intros s b n|]. intros s1 s2 s3 H12 H23 b n Hb Hn.
  destruct (H12 b n Hb Hn), (H23 b n Hb Hn). split; congruence.
Qed.

(** Other processes make directories and leave the files of the driver alone. *)
Hypothesis others_mkdir : ∀ i s, same_files s (others i s).
Hypothesis Hpath : path_ok.

Definition file_path (b : Bucket.t) (k : Key) : str := below path (Bucket.GetHex b) (file_name k).

Lemma below_plain b n : nul ∉ b → nul ∉ n → nul ∉ below path b n.
Proof. destruct Hpath as [_ Hp]. unfold below, slash. rewrite !elem_of_app. set_solver. Qed.

Lemma file_path_plain b k : Bucket.wf b → key_ok k → c_str (file_path b k) = file_path b k.
Proof. intros [_ Hb]%hex_ok [_ Hk]%file_name_ok. by apply c_str_plain, below_plain. Qed.

Lemma bucket_loop_spec tries i b s r s' :
  Bucket.wf b → bucket_loop others tries i (below path (Bucket.GetHex b) []) s = (r, s') →
  same_files s s' ∧
  (r = Throw RuntimeError ∨
   r = Ok (below path (Bucket.GetHex b) []) ∧ fs_writable s' (below path (Bucket.GetHex b) []) = true).
Proof.
  intros Hb. destruct (hex_ok b Hb) as [Hx Hx0]. destruct Hpath as [Hd _].
  assert (c_str (below path (Bucket.GetHex b) []) = below path (Bucket.GetHex b) []) as Hc
    by (apply c_str_plain, below_plain; set_solver).
  revert i s. induction tries as [|n IH]; intros i s; cbn [bucket_loop]; rewrite ?Hc.
  { intros [= <- <-]. split; [done|by left]. }
  destruct (fs_writable s _) eqn:Hw; [intros [= <- <-]; split; [done|by right]|].
  destruct (fs_mkdir s _) as [s1|] eqn:Hm.
  - intros [= <- <-]. split; [|right; split; [done|by eapply mkdir_writable]].
    intros b' n' Hb' Hn'. by apply (mkdir_frame s s1 path (Bucket.GetHex b)).
  - intros [Hs Hr]%IH. split; [|done]. by etrans; [apply (others_mkdir i)|].
Qed.

Lemma below_nil b : below path b [] = path ++ b ++ slash.
Proof. unfold below. by rewrite app_nil_r. Qed.

(** Finding the directory of a bucket, and making it, changes no file. *)
Lemma genBucketPath_spec b w r w' :
  Bucket.wf b → genBucketPath others path b w = (r, w') →
  same_files (fs w) (fs w') ∧ stats w' = stats w ∧
  (r = Throw RuntimeError ∨
   r = Ok (below path (Bucket.GetHex b) []) ∧ fs_writable (fs w') (below path (Bucket.GetHex b) []) = true).
Proof.
  intros Hb. unfold genBucketPath. rewrite <-below_nil.
  destruct (bucket_loop _ _ _ _ _) as [r0 s0] eqn:He. intros [= <- <-].
  apply bucket_loop_spec in He as [? ?]; done.
Qed.

Lemma genBucketPathFile_spec b k w r w' :
  Bucket.wf b → key_ok k → genBucketPathFile others path b k w = (r, w') →
  same_files (fs w) (fs w') ∧ stats w' = stats w ∧
  (r = Throw RuntimeError ∨ r = Ok (file_path b k)).
Proof.
  intros Hb Hk. unfold genBucketPathFile, mbind, M_bind.
  destruct (genBucketPath _ _ _ _) as [r0 w0] eqn:He. apply genBucketPath_spec in He; [|done].
  destruct He as (Hs & Hst & [->|[-> _]]); [intros [= <- <-]; by auto|].
  destruct (pup_ok k Hk) as (t & Ht & _). unfold lift, mret, M_ret. rewrite Ht. intros [= <- <-].
  split_and!; [done..|]. right. unfold file_path, file_name. by rewrite Ht, below_nil, <-!app_assoc.
Qed.

(** An object small enough to be read back: [ReadObject] asks for eight bytes more than it has. *)
Definition small (o : ldo_obj) : Prop := (meta_bytes (alloc o) + data_bytes (alloc o) + 68 < 2 ^ 32)%Z.

Definition holds (s : F) (b : Bucket.t) (k : Key) (o : ldo_obj) : Prop :=
  ldo_ok o ∧ small o ∧
  ∃ c, writeToFile o = Ok c ∧ fs_stat s (file_path b k) = Some (Reg c) ∧
       fs_read s (file_path b k) = Some c.

(** The files are those of the objects of [m], one each. *)
Definition represents (s : F) (m : gmap (Z * Key) ldo_obj) : Prop := ∀ b k, Bucket.wf b → key_ok k →
  match m !! (Bucket.bid b, k) with
  | Some o => holds s b k o
  | None => ∀ c, fs_stat s (file_path b k) ≠ Some (Reg c)
  end.

Lemma same_file s s' b k :
  same_files s s' → Bucket.wf b → key_ok k →
  fs_stat s' (file_path b k) = fs_stat s (file_path b k) ∧
  fs_read s' (file_path b k) = fs_read s (file_path b k).
Proof. intros Hs Hb Hk. apply Hs; [by apply hex_ok|by apply file_name_ok]. Qed.

Lemma represents_same s s' m : same_files s s' → represents s m → represents s' m.
Proof.
  intros Hs Hr b k Hb Hk. specialize (Hr b k Hb Hk). unfold holds in *.
  destruct (same_file _ _ b k Hs Hb Hk) as [-> ->]. done.
Qed.

Lemma genBucketPathFile_ok b k w d w1 :
  Bucket.wf b → key_ok k → genBucketPath others path b w = (Ok d, w1) →
  genBucketPathFile others path b k w = (Ok (file_path b k), w1) ∧ same_files (fs w) (fs w1).
Proof.
  intros Hb Hk Hd. destruct (genBucketPathFile others path b k w) as [r w'] eqn:He.
  pose proof He as (Hs & _ & Hr)%genBucketPathFile_spec; [|done..].
  unfold genBucketPathFile, mbind, M_bind in He. rewrite Hd in He.
  destruct (pup_ok k Hk) as (t & Ht & _). unfold lift, mret, M_ret in He. rewrite Ht in He.
  injection He as <- <-. destruct Hr as [|Hr]; [done|]. by rewrite Hr.
Qed.

Lemma genBucketPath_again b w :
  Bucket.wf b → fs_writable (fs w) (below path (Bucket.GetHex b) []) = true →
  genBucketPath others path b w = (Ok (below path (Bucket.GetHex b) []), w).
Proof.
  intros Hb Hw. destruct (hex_ok b Hb) as [_ Hx]. unfold genBucketPath. rewrite <-below_nil.
  cbn [bucket_loop]. rewrite c_str_plain by (apply below_plain; set_solver). rewrite Hw. by destruct w.
Qed.

Lemma save_represents s m b k o c :
  Bucket.wf b → key_ok k → represents s m → ldo_ok o → small o → writeToFile o = Ok c →
  fs_saves s (file_path b k) c = true →
  represents (fs_save s (file_path b k) c) (<[(Bucket.bid b, k) := o]> m).
Proof.
  intros Hb Hk Hr Ho Hsm Hc Hs b' k' Hb' Hk'. destruct Hpath as [Hp _].
  destruct (hex_ok b Hb) as [Nb _], (hex_ok b' Hb') as [Nb' _], (file_name_ok k Hk) as [Nk _],
    (file_name_ok k' Hk') as [Nk' _].
  destruct (decide ((Bucket.bid b, k) = (Bucket.bid b', k'))) as [[= He ->]|Hne].
  - rewrite He, lookup_insert_eq. assert (b' = b) as -> by (destruct b, b'; simpl in He; congruence).
    split_and!; [done..|]. exists c. split; [done|].
    apply (save_stores s path (Bucket.GetHex b) (file_name k')); done.
  - rewrite lookup_insert_ne by done. specialize (Hr b' k' Hb' Hk').
    destruct (save_frame s path (Bucket.GetHex b) (file_name k) c (Bucket.GetHex b') (file_name k'))
      as [E1 E2]; [done..| |].
    { intros Hx. apply pair_equal_spec in Hx as [->%hex_inj ->%file_name_inj]; done. }
    unfold holds, file_path in *. by rewrite E1, E2.
Qed.

Lemma WriteObject_ok m w b k o c d w1 :
  represents (fs w) m → Bucket.wf b → key_ok k → genBucketPath others path b w = (Ok d, w1) →
  ldo_ok o → small o → writeToFile o = Ok c → fs_saves (fs w1) (file_path b k) c = true →
  ∃ w', WriteObject others path b k o w = (Ok KELPIE_OK, w') ∧
        represents (fs w') (<[(Bucket.bid b, k) := o]> m) ∧
        genBucketPath others path b w' = (Ok d, w').
Proof.
  intros Hr Hb Hk Hd Ho Hsm Hc Hs. destruct (genBucketPathFile_ok b k w d w1 Hb Hk Hd) as [Hf Hsf].
  unfold WriteObject, mbind, M_bind, lift, save, count, mret, M_ret. rewrite Hf, Hc.
  rewrite file_path_plain by done. cbn [Z.eqb fs stats]. eexists. split; [done|]. cbn [fs]. split.
  - apply save_represents; try done. by apply (represents_same (fs w)).
  - pose proof Hd as (_ & _ & [|[[= ->] Hw]])%genBucketPath_spec; [done| |done].
    apply genBucketPath_again; [done|]. cbn [fs]. unfold file_path. destruct Hpath as [Hp _].
    rewrite save_dirs; [done|done|by apply hex_ok|by apply file_name_ok|by apply hex_ok].
Qed.

Lemma zlen_file o c :
  ldo_ok o → small o → writeToFile o = Ok c →
  ∃ body rest, c = header_bytes (alloc o) ++ body ∧ user o = body ++ rest ∧
    zlen body = (meta_bytes (alloc o) + data_bytes (alloc o))%Z ∧ zlen c = (8 + zlen body)%Z.
Proof.
  intros Ho Hsm Hc. destruct (writeToFile_ok o Ho) as (body & rest & Hu & Hb & Hw); [unfold small in Hsm; lia|].
  assert (c = header_bytes (alloc o) ++ body) as -> by congruence. exists body, rest. split_and!; [done..|].
  rewrite zlen_app. unfold zlen at 1. by rewrite length_header.
Qed.

(** Reading the file of an object gives the object. *)
Lemma read_back o c :
  ldo_ok o → small o → writeToFile o = Ok c →
  ∃ n o', new_ldo garbage (u32 (zlen c)) 0 (u32 (zlen c)) 0 = Ok n ∧
    read_into n c (Some c) = Ok o' ∧ ldo_ok o' ∧ same_object o' o.
Proof.
  intros Ho Hsm Hc. destruct (zlen_file o c Ho Hsm Hc) as (body & rest & -> & Hu & Hb & Hz).
  pose proof Ho as [_ _ Hm Hd _ _ _]. unfold small in Hsm. rewrite Hz.
  rewrite wrap_id by (unfold in_width; lia).
  destruct (new_ldo_ok garbage (8 + zlen body) 0 (8 + zlen body) 0)
    as (n & Hn & Hok & Hnm & Hnd & _ & Hnt); [lia..|].
  destruct (readFromFile_written n o body rest) as (o' & Hr & Hok' & Hsame); [done..|lia|].
  exists n, o'. done.
Qed.

Lemma ReadObject_ok m w b k d w1 :
  represents (fs w) m → Bucket.wf b → key_ok k → genBucketPath others path b w = (Ok d, w1) →
  ∃ r w', ReadObject others garbage path b k w = (Ok r, w') ∧ fs w' = fs w1 ∧
    match m !! (Bucket.bid b, k) with
    | Some o => ∃ o', r = (KELPIE_OK, Some o') ∧ ldo_ok o' ∧ same_object o' o
    | None => r = (KELPIE_ENOENT, None)
    end.
Proof.
  intros Hr Hb Hk Hd. destruct (genBucketPathFile_ok b k w d w1 Hb Hk Hd) as [Hf Hsf].
  apply (represents_same _ _ _ Hsf) in Hr. specialize (Hr b k Hb Hk).
  unfold ReadObject, mbind, M_bind, lift, look, scan, count, mret, M_ret. rewrite Hf. cbn [fs stats].
  rewrite !file_path_plain by done. destruct (m !! _) as [o|].
  - destruct Hr as (Ho & Hsm & c & Hc & -> & Hrd).
    destruct (read_back o c Ho Hsm Hc) as (n & o' & -> & Hin & Hok & Hsame).
    cbn [fs stats]. rewrite Hrd, Hin. eexists _, _. split; [done|]. split; [done|]. by exists o'.
  - destruct (fs_stat (fs w1) _) as [[]|]; [|by edestruct Hr|..]; by eexists _, _.
Qed.

Lemma GetInfo_ok m w b k d w1 :
  represents (fs w) m → Bucket.wf b → key_ok k → genBucketPath others path b w = (Ok d, w1) →
  GetInfo others path b k w =
  (Ok match m !! (Bucket.bid b, k) with
      | Some o => (KELPIE_OK, mkInfo 0 (meta_bytes (alloc o) + data_bytes (alloc o)) 0 0 InDisk)
      | None => (KELPIE_ENOENT, Wipe)
      end, w1).
Proof.
  intros Hr Hb Hk Hd. destruct (genBucketPathFile_ok b k w d w1 Hb Hk Hd) as [Hf Hsf].
  apply (represents_same _ _ _ Hsf) in Hr. specialize (Hr b k Hb Hk).
  unfold GetInfo, mbind, M_bind, look, scan, mret, M_ret. rewrite Hf. cbn [fs stats].
  rewrite file_path_plain by done. destruct (m !! _) as [o|].
  - destruct Hr as (Ho & Hsm & c & Hc & -> & _).
    destruct (zlen_file o c Ho Hsm Hc) as (body & rest & _ & _ & Hbd & Hz).
    unfold GetHeaderSize, offsetof_user, offsetof_header. unfold small in Hsm.
    destruct Ho as [_ _ Hm Hdt _ _ _]. rewrite Hz, Hbd, wrap_id by (unfold in_width; lia).
    repeat f_equal. lia.
  - destruct (fs_stat (fs w1) _) as [[]|]; [|by edestruct Hr|..]; done.
Qed.

(** C13: The driver implements a map from buckets and keys to objects: a write that the disk takes
    stores the object under its bucket and key and changes nothing else, a read gives back the
    object that was stored last, with its type, meta data and data, or says that there is none,
    and [GetInfo] tells its size. *)
Theorem pio_refines_map m w b k d w1 :
  represents (fs w) m → Bucket.wf b → key_ok k → genBucketPath others path b w = (Ok d, w1) →
  (∀ o c, ldo_ok o → small o → writeToFile o = Ok c → fs_saves (fs w1) (file_path b k) c = true →
     ∃ w', WriteObject others path b k o w = (Ok KELPIE_OK, w') ∧
           represents (fs w') (<[(Bucket.bid b, k) := o]> m) ∧
           genBucketPath others path b w' = (Ok d, w')) ∧
  (∃ r w', ReadObject others garbage path b k w = (Ok r, w') ∧ represents (fs w') m ∧
     match m !! (Bucket.bid b, k) with
     | Some o => ∃ o', r = (KELPIE_OK, Some o') ∧ ldo_ok o' ∧ same_object o' o
     | None => r = (KELPIE_ENOENT, None)
     end) ∧
  GetInfo others path b k w =
    (Ok match m !! (Bucket.bid b, k) with
        | Some o => (KELPIE_OK, mkInfo 0 (meta_bytes (alloc o) + data_bytes (alloc o)) 0 0 InDisk)
        | None => (KELPIE_ENOENT, Wipe)
        end, w1).
Proof.
  intros Hr Hb Hk Hd. split_and!.
  - intros o c Ho Hsm Hc Hs. by apply (WriteObject_ok m w b k o c d w1).
  - destruct (ReadObject_ok m w b k d w1) as (r & w' & He & Hw & Hm); [done..|].
    exists r, w'. split; [done|]. split; [|done]. rewrite Hw.
    destruct (genBucketPathFile_ok b k w d w1 Hb Hk Hd) as [_ Hsf]. by apply (represents_same (fs w)).
  - by apply (GetInfo_ok m w b k d).
Qed.

(** The regular files of a bucket are all of the driver's making. *)
Definition clean (s : F) (b : Bucket.t) : Prop := ∀ n c, entry_name n →
  fs_stat s (below path (Bucket.GetHex b) n) = Some (Reg c) → ∃ k, key_ok k ∧ n = file_name k.

Lemma is_dot_spec n : is_dot n = true ↔ n = lit "." ∨ n = lit "..".
Proof. unfold is_dot. rewrite orb_true_iff, !bool_decide_eq_true. done. Qed.

Lemma stat_entry s b n :
  Bucket.wf b → entry_name n → nul ∉ n →
  fs_stat s (c_str (below path (Bucket.GetHex b) [] ++ slash ++ n)) =
  fs_stat s (below path (Bucket.GetHex b) n).
Proof.
  intros Hb Hn Hn0. pose proof (hex_ok b Hb) as [_ Hx].
  rewrite c_str_plain.
  - rewrite double_slash; [by rewrite below_nil, <-!app_assoc| |done].
    exists (path ++ Bucket.GetHex b). by rewrite below_nil, <-app_assoc.
  - rewrite !elem_of_app. intros [Hin|[Hin|Hin]]; [|by vm_compute in Hin; set_solver|done].
    revert Hin. apply below_plain; [done|set_solver].
Qed.

(** One entry of the listing. *)
Definition listed (s : F) (b : Bucket.t) (p : Key → bool) (names : list str) (k : Key) (c : Z) : Prop :=
  key_ok k ∧ file_name k ∈ names ∧ p k = true ∧
  ∃ f, fs_stat s (file_path b k) = Some (Reg f) ∧ c = zlen f.

Lemma listed_skip s b p n names :
  (∀ k f, key_ok k → n = file_name k → p k = true → fs_stat s (file_path b k) ≠ Some (Reg f)) →
  ∀ k c, listed s b p (n :: names) k c ↔ listed s b p names k c.
Proof.
  intros Hno k c. unfold listed. split; [|set_solver]. intros (Hk & Hin & Hp & f & Hf & ->).
  apply elem_of_cons in Hin as [<-|Hin]; [by edestruct Hno|]. split_and!; eauto.
Qed.

Lemma listed_cons s b p names k f :
  key_ok k → p k = true → fs_stat s (file_path b k) = Some (Reg f) →
  ∀ k' c', listed s b p (file_name k :: names) k' c' ↔ (k', c') = (k, zlen f) ∨ listed s b p names k' c'.
Proof.
  intros Hk Hp Hf k' c'. unfold listed. split.
  - intros (Hk' & Hin & Hp' & f' & Hf' & ->). apply elem_of_cons in Hin as [He|Hi].
    + apply file_name_inj in He as ->; [|done..]. left. congruence.
    + right. split_and!; eauto.
  - intros [[= -> ->]|(? & ? & ? & ?)]; split_and!; [done|by left|done|by exists f|done|by right|done|done].
Qed.

Lemma list_entries_spec s b p names oc :
  Bucket.wf b → clean s b → NoDup names →
  (∀ n, n ∈ names → n = lit "." ∨ n = lit ".." ∨ entry_name n ∧ nul ∉ n) →
  ∃ found, list_entries s (below path (Bucket.GetHex b) []) p names oc
           = Ok (oc_AppendAll oc (mkOC found.*1 found.*2)) ∧
    (∀ k c, (k, c) ∈ found ↔ listed s b p names k c) ∧ NoDup found.*1.
Proof.
  intros Hb Hcl. revert oc. induction names as [|n names IH]; intros oc Hnd Hnames; cbn [list_entries].
  { exists []. split; [|split; [|constructor]].
    - destruct oc. unfold oc_AppendAll. simpl. by rewrite !app_nil_r.
    - intros k c. split; [by intros ?%elem_of_nil|by intros (_ & ?%elem_of_nil & _)]. }
  apply NoDup_cons in Hnd as [Hnin Hnd].
  assert (Hskip : (∀ k f, key_ok k → n = file_name k → p k = true → fs_stat s (file_path b k) ≠ Some (Reg f)) →
    ∃ found, list_entries s (below path (Bucket.GetHex b) []) p names oc
             = Ok (oc_AppendAll oc (mkOC found.*1 found.*2)) ∧
      (∀ k c, (k, c) ∈ found ↔ listed s b p (n :: names) k c) ∧ NoDup found.*1).
  { intros Hno. destruct (IH oc) as (found & -> & Hin & Hn); [done|set_solver|]. exists found.
    split_and!; [done| |done]. intros k c. by rewrite Hin, listed_skip. }
  destruct (is_dot n) eqn:Hdot.
  { apply Hskip. intros k f Hk -> _ _. apply is_dot_spec in Hdot.
    destruct (file_name_ok k Hk) as [(_ & _ & ? & ?) _]. tauto. }
  destruct (Hnames n) as [->|[->|[Hen Hn0]]]; [by left|done|done|]. rewrite stat_entry by done.
  destruct (fs_stat s (below path (Bucket.GetHex b) n)) as [[|f|]|] eqn:Hst.
  1,3,4: apply Hskip; intros k0 f0 Hk0 -> _; unfold file_path; congruence.
  destruct (Hcl n f Hen Hst) as (k & Hk & ->). rewrite file_name_key by done. cbn [mbind outcome_bind].
  destruct (p k) eqn:Hp.
  2:{ apply Hskip. intros k0 f0 Hk0 He. apply file_name_inj in He as ->; [congruence|done..]. }
  destruct (IH (oc_Append oc k (zlen f))) as (found & -> & Hin & Hn); [done|set_solver|].
  exists ((k, zlen f) :: found). split_and!.
  - unfold oc_AppendAll, oc_Append. simpl. by rewrite <-!app_assoc.
  - intros k' c'. by rewrite elem_of_cons, Hin, (listed_cons _ _ _ _ _ f).
  - simpl. constructor; [|done]. intros ([k0 c0] & -> & Hx%Hin)%list_elem_of_fmap.
    by destruct Hx as (_ & Hx & _).
Qed.

(** The listing of a bucket holds the stored objects whose keys match the pattern, each once, with
    the size of its file. *)
Theorem pio_lists_matches m w b key oc d w1 names :
  represents (fs w) m → (∀ b k, is_Some (m !! (b, k)) → key_ok k) → Bucket.wf b →
  genBucketPath others path b w = (Ok d, w1) → clean (fs w1) b → fs_readdir (fs w1) d = Some names →
  ∃ found, ListObjects others path b key oc w
           = (Ok (KELPIE_OK, oc_AppendAll oc (mkOC found.*1 found.*2)), w1) ∧
    NoDup found.*1 ∧
    ∀ k c, (k, c) ∈ found ↔ Matches k (K1 key) (K2 key) = true ∧
      ∃ o, m !! (Bucket.bid b, k) = Some o ∧
           c = (GetHeaderSize + meta_bytes (alloc o) + data_bytes (alloc o))%Z.
Proof.
  intros Hr Hm Hb Hd Hcl Hdir. pose proof (hex_ok b Hb) as [Hex Hx0].
  pose proof Hd as (Hsf & _ & [|[[= ->] _]])%genBucketPath_spec; [done| |done].
  apply (represents_same _ _ _ Hsf) in Hr.
  unfold ListObjects, mbind, M_bind, look, scan, mret, M_ret. rewrite Hd.
  rewrite c_str_plain by (apply below_plain; [done|set_solver]). rewrite Hdir.
  destruct (readdir_names _ _ _ Hdir) as [Hnd Hnames].
  destruct (list_entries_spec (fs w1) b (wanted key) names oc) as (found & -> & Hin & Hn); [done..|].
  exists found. split; [done|]. split; [done|]. intros k c. rewrite Hin. clear Hin Hn. unfold listed.
  change (wanted key k) with (Matches k (K1 key) (K2 key)). split.
  - intros (Hk & _ & Hp & f & Hf & ->). split; [done|]. specialize (Hr b k Hb Hk).
    destruct (m !! _) as [o|]; [|by edestruct Hr]. destruct Hr as (Ho & Hsm & c & Hc & Hs & _).
    exists o. split; [done|]. rewrite Hf in Hs. injection Hs as ->.
    destruct (zlen_file o c Ho Hsm Hc) as (? & ? & _ & _ & Hbd & Hz).
    unfold GetHeaderSize, offsetof_user, offsetof_header. lia.
  - intros (Hp & o & Ho & ->). assert (key_ok k) as Hk by (apply (Hm (Bucket.bid b)); by rewrite Ho).
    specialize (Hr b k Hb Hk). rewrite Ho in Hr. destruct Hr as (Hok & Hsm & c & Hc & Hs & _).
    split_and!; [done| |done|].
    + destruct Hpath as [Hp' _].
      apply (readdir_complete (fs w1) path (Bucket.GetHex b)); [done|done|by apply file_name_ok..|done|].
      unfold file_path in Hs. by rewrite Hs.
    + exists c. split; [done|]. destruct (zlen_file o c Hok Hsm Hc) as (? & ? & _ & _ & Hbd & Hz).
      unfold GetHeaderSize, offsetof_user, offsetof_header. lia.
Qed.

(** Writing keeps a bucket clean. *)
Lemma save_clean s b k b' c :
  Bucket.wf b → Bucket.wf b' → key_ok k → clean s b' → clean (fs_save s (file_path b k) c) b'.
Proof.
  intros Hb Hb' Hk Hcl n f Hn Hst. destruct Hpath as [Hp _].
  destruct (decide (Bucket.GetHex b' = Bucket.GetHex b ∧ n = file_name k)) as [[_ ->]|Hne]; [by exists k|].
  apply (Hcl n f Hn). rewrite <-Hst. symmetry. unfold file_path.
  apply save_frame; [done|by apply hex_ok|by apply file_name_ok|by apply hex_ok|done|].
  intros Hx. apply pair_equal_spec in Hx. done.
Qed.

(** Every write that finds its directory is reported as good, whether the disk takes it or not. *)
Lemma write_always_reports_ok w b k o c d w1 :
  Bucket.wf b → key_ok k → genBucketPath others path b w = (Ok d, w1) → writeToFile o = Ok c →
  (WriteObject others path b k o w).1 = Ok KELPIE_OK.
Proof.
  intros Hb Hk Hd Hc. destruct (genBucketPathFile_ok b k w d w1 Hb Hk Hd) as [Hf _].
  unfold WriteObject, mbind, M_bind, lift, save, count, mret, M_ret. by rewrite Hf, Hc.
Qed.

Lemma basename_app cur a n : "/"%char ∉ n → basename cur (a ++ slash ++ n) = n.
Proof.
  intros Hn. revert cur. induction a as [|c a IH]; intros cur; simpl.
  - assert (Hb : ∀ cur' m, "/"%char ∉ m → basename cur' m = cur').
    { intros cur' m. revert cur'. induction m as [|c m IHm]; intros cur' Hm; [done|]. simpl.
      rewrite bool_decide_eq_false_2 by set_solver. apply IHm. set_solver. }
    by apply Hb.
  - destruct (c =c? "/"%char); apply IH.
Qed.

(** The path of an object's file gives back its key. *)
Lemma getKey_file_path b k :
  Bucket.wf b → key_ok k → getKeyFromBucketPathFile (file_path b k) = Ok k.
Proof.
  intros Hb Hk. unfold getKeyFromBucketPathFile. rewrite file_path_plain by done.
  unfold file_path, below. rewrite app_assoc, basename_app; [by apply file_name_key|].
  by destruct (file_name_ok k Hk) as [(_ & ? & _) _].
Qed.
End refinement.

(** The driver never counts a miss. *)
Lemma misses_not_counted {F} `{PosixFS F} others garbage path b k (w : world F) :
  stat_rd_misses (stats (ReadObject others garbage path b k w).2) = stat_rd_misses (stats w).
Proof.
  unfold ReadObject, genBucketPathFile, genBucketPath, mbind, M_bind, lift, look, scan, count, mret, M_ret.
  destruct (bucket_loop _ _ _ _ _) as [[d|e] s]; [|done]. destruct (pup k); [|done]. cbn [fs stats].
  destruct (fs_stat _ _) as [[|c|]|]; try done. destruct (new_ldo _ _ _ _ _); [|done]. cbn [fs stats].
  by destruct (read_into _ _ _).
Qed.

(** * A file system *)

(** Directories and files by the components of their paths. *)
Abbreviation tree := (gmap (list str) node).

Fixpoint path_split (p : str) : list str :=
  match p with
  | [] => [[]]
  | c :: p' =>
      if c =c? "/"%char then [] :: path_split p'
      else match path_split p' with h :: l => (c :: h) :: l | [] => [[c]] end
  end.

Definition components (p : str) : list str :=
  filter (λ n, n ≠ [] ∧ n ≠ lit ".") (path_split p).

Definition tree_stat (t : tree) (p : str) : option node :=
  match components p with [] => Some Dir | l => t !! l end.

Definition NAME_MAX : nat := 255.

#[local] Instance node_eq_dec : EqDecision node.
Proof. solve_decision. Defined.

#[local] Instance entry_name_dec n : Decision (entry_name n).
Proof. unfold entry_name. apply _. Defined.

Definition parent_ok (t : tree) (l : list str) : bool :=
  match last l with
  | None => false
  | Some n =>
      bool_decide (length n ≤ NAME_MAX) &&
      match take (length l - 1) l with [] => true | d => bool_decide (t !! d = Some Dir) end
  end.

Definition tree_saves (t : tree) (p : str) : bool :=
  parent_ok t (components p) &&
  match t !! components p with None | Some (Reg _) => true | _ => false end.

(** The name of a path as an entry of the directory [p]. *)
Definition dir_entry (p : str) (l : list str) : option str :=
  match last l with
  | Some n => if bool_decide (l = components p ++ [n] ∧ entry_name n ∧ nul ∉ n) then Some n else None
  | None => None
  end.

#[global] Instance tree_fs : PosixFS tree := {
  fs_stat := tree_stat;
  fs_writable t p := bool_decide (is_Some (tree_stat t p));
  fs_mkdir t p :=
    if parent_ok t (components p) && bool_decide (t !! components p = None)
    then Some (<[components p := Dir]> t) else None;
  fs_saves t p _ := tree_saves t p;
  fs_save t p c := if tree_saves t p then <[components p := Reg c]> t else t;
  fs_read t p := match tree_stat t p with Some (Reg c) => Some c | _ => None end;
  fs_readdir t p :=
    match tree_stat t p with
    | Some Dir =>
        Some (lit "." :: lit ".." ::
              omap (dir_entry p) (map_to_list t).*1)
    | _ => None
    end
}.

Lemma path_split_slash a b : path_split (a ++ slash ++ b) = path_split a ++ path_split b.
Proof.
  induction a as [|c a IH]; [done|]. cbn [app path_split]. rewrite IH. destruct (c =c? _); [done|].
  destruct (path_split a) eqn:Ha; [|done]. destruct a; simpl in Ha; [done|].
  repeat case_match; done.
Qed.

Lemma path_split_name n : "/"%char ∉ n → path_split n = [n].
Proof.
  induction n as [|c n IH]; intros Hn; [done|]. simpl. rewrite bool_decide_eq_false_2 by set_solver.
  by rewrite IH by set_solver.
Qed.

Lemma components_slash a b : components (a ++ slash ++ b) = components a ++ components b.
Proof. unfold components. by rewrite path_split_slash, filter_app. Qed.

Lemma components_name n : entry_name n → components n = [n].
Proof.
  intros (H1 & H2 & H3 & _). unfold components. rewrite path_split_name by done.
  by rewrite filter_cons_True.
Qed.

Lemma components_end a : components (a ++ slash) = components a.
Proof. rewrite <-(app_nil_r slash), components_slash. apply app_nil_r. Qed.

Lemma components_below d b n :
  ends_in_slash d → entry_name b → entry_name n → components (below d b n) = components d ++ [b; n].
Proof.
  intros [d' ->] Hb Hn. unfold below. rewrite <-app_assoc, !components_slash, components_end.
  by rewrite (components_name b), (components_name n).
Qed.

Lemma components_dir d b :
  ends_in_slash d → entry_name b → components (below d b []) = components d ++ [b].
Proof.
  intros [d' ->] Hb. unfold below. rewrite <-app_assoc, !components_slash, components_end.
  by rewrite (components_name b).
Qed.

Lemma tree_stat_app t p a b n : components p = a ++ b :: n → tree_stat t p = t !! (a ++ b :: n).
Proof. intros Hp. unfold tree_stat. rewrite Hp. by destruct a. Qed.

Lemma NoDup_omap_inj {A B} (f : A → option B) (l : list A) :
  (∀ x y z, f x = Some z → f y = Some z → x = y) → NoDup l → NoDup (omap f l).
Proof.
  intros Hf. induction 1 as [|x l Hx _ IH]; simpl; [constructor|].
  destruct (f x) as [z|] eqn:Hz; [|done]. constructor; [|done].
  intros (y & Hy & Hyz)%list_elem_of_omap. by rewrite (Hf x y z Hz Hyz) in Hx.
Qed.

Lemma dir_entry_spec p l n :
  dir_entry p l = Some n → l = components p ++ [n] ∧ entry_name n ∧ nul ∉ n.
Proof.
  unfold dir_entry. destruct (last l) as [x|]; [|done]. case_bool_decide as Hx; [|done]. by intros [= ->].
Qed.

#[global] Instance tree_laws : PosixFSLaws tree.
Proof.
  constructor; cbn [fs_stat fs_read fs_saves fs_save fs_writable fs_mkdir fs_readdir tree_fs].
  - intros t d b n c Hd Hb Hn Hs. rewrite Hs. pose proof (components_below d b n Hd Hb Hn) as Hc.
    rewrite (tree_stat_app _ _ _ _ _ Hc), Hc, lookup_insert_eq. done.
  - intros t d b n c b' n' Hd Hb Hn Hb' Hn' Hne. pose proof (components_below d b n Hd Hb Hn) as Hc.
    pose proof (components_below d b' n' Hd Hb' Hn') as Hc'. destruct (tree_saves _ _); [|done].
    rewrite !(tree_stat_app _ _ _ _ _ Hc'), Hc, lookup_insert_ne; [done|].
    intros [=]%app_inv_head. naive_solver.
  - intros t d b n c b' Hd Hb Hn Hb'. pose proof (components_below d b n Hd Hb Hn) as Hc.
    destruct (tree_saves _ _); [|done]. pose proof (components_dir d b' Hd Hb') as Hc'.
    rewrite !(tree_stat_app _ _ _ _ _ Hc'), Hc, lookup_insert_ne; [done|]. by intros ?%app_inv_head.
  - intros t t' d b b' n' Hd Hb Hb' Hn'. pose proof (components_dir d b Hd Hb) as Hc.
    destruct (_ && _); [|done]. intros [= <-]. pose proof (components_below d b' n' Hd Hb' Hn') as Hc'.
    rewrite !(tree_stat_app _ _ _ _ _ Hc'), Hc, lookup_insert_ne; [done|]. by intros ?%app_inv_head.
  - intros t t' d b Hd Hb. pose proof (components_dir d b Hd Hb) as Hc.
    destruct (_ && _); [|done]. intros [= <-]. rewrite (tree_stat_app _ _ _ _ _ Hc), Hc, lookup_insert_eq. done.
  - intros t d b l n Hd Hb Hn Hn0. pose proof (components_below d b n Hd Hb Hn) as Hc.
    pose proof (components_dir d b Hd Hb) as Hc'. rewrite (tree_stat_app _ _ _ _ _ Hc).
    destruct (tree_stat _ _) as [[]|]; [|done..]. intros [= <-]. intros [x Hx]%not_eq_None_Some.
    right. right. apply list_elem_of_omap. exists (components d ++ [b; n]). split.
    + apply list_elem_of_fmap. exists (components d ++ [b; n], x). split; [done|]. by apply elem_of_map_to_list.
    + unfold dir_entry. rewrite last_app. simpl. rewrite bool_decide_eq_true_2; [done|]. rewrite Hc', <-app_assoc. done.
  - intros t p l. destruct (tree_stat _ _) as [[]|]; [|done..]. intros [= <-].
    assert (Hin : ∀ n, n ∈ omap (dir_entry p) (map_to_list t).*1 → entry_name n ∧ nul ∉ n).
    { intros n (l & _ & Hl)%list_elem_of_omap. by apply dir_entry_spec in Hl as [_ ?]. }
    split.
    + constructor; [|constructor]; [..|].
      * intros [?|Hx%Hin]%elem_of_cons; [done|]. by destruct Hx as [(_ & _ & ? & _) _].
      * intros Hx%Hin. by destruct Hx as [(_ & _ & _ & ?) _].
      * apply NoDup_omap_inj; [|apply NoDup_fst_map_to_list].
        intros l l' n [-> _]%dir_entry_spec [-> _]%dir_entry_spec. done.
    + intros n [->|[->|Hx%Hin]%elem_of_cons]%elem_of_cons; auto.
  - intros t d n [d' ->] Hn. unfold tree_stat. rewrite <-!app_assoc, !components_slash. done.
Qed.

(** * A driver in use *)

Definition dir0 : str := lit "/data/".
Definition alone (_ : nat) (t : tree) : tree := t.
Definition disk0 : world tree := mkWorld {[ [lit "data"] := Dir ]} no_stats.
Definition bucket1 : Bucket.t := Bucket.mk 31.
Definition key1 : Key := mkKey (lit "row/1") (lit "col").
Definition disk1 : world tree := (genBucketPath alone dir0 bucket1 disk0).2.
Definition disk2 : world tree := (WriteObject alone dir0 bucket1 key1 sample_ldo disk0).2.
Definition bucket_dir1 : str := lit "/data/0x1f/".

Lemma alone_mkdir i t : same_files dir0 t (alone i t).
Proof. done. Qed.

Lemma dir0_ok : path_ok dir0.
Proof. split; [by exists (lit "/data")|]. by apply (bool_decide_unpack _). Qed.

Lemma bucket1_wf : Bucket.wf bucket1.
Proof. unfold Bucket.wf, in_width. simpl. lia. Qed.

Lemma key1_ok : key_ok key1.
Proof. split; vm_compute; lia. Qed.

Lemma disk0_empty : represents dir0 (fs disk0) ∅.
Proof.
  intros b k Hb Hk. rewrite lookup_empty. intros c.
  cbn [fs disk0 fs_stat tree_fs]. unfold file_path.
  erewrite tree_stat_app.
  2:{ apply components_below; [by exists (lit "/data")|by apply hex_ok|by apply file_name_ok]. }
  by rewrite lookup_singleton_ne.
Qed.

Lemma disk1_eq : genBucketPath alone dir0 bucket1 disk0 = (Ok bucket_dir1, disk1).
Proof. vm_compute. reflexivity. Qed.

Lemma sample_small : small sample_ldo.
Proof. unfold small. simpl. lia. Qed.

(** Witness for [pio_refines_map]: an object is written to an empty disk. *)
Lemma pio_refines_witness :
  WriteObject alone dir0 bucket1 key1 sample_ldo disk0 = (Ok KELPIE_OK, disk2) ∧
  represents dir0 (fs disk2) {[(31%Z, key1) := sample_ldo]}.
Proof.
  destruct (pio_refines_map alone (lit "old") dir0 alone_mkdir dir0_ok ∅ disk0 bucket1 key1 bucket_dir1 disk1
    disk0_empty bucket1_wf key1_ok disk1_eq) as (Hw & _ & _).
  destruct (Hw sample_ldo (header_bytes (alloc sample_ldo) ++ lit "mmdata!")) as (w' & He & Hr & _).
  - exact sample_ldo_ok.
  - exact sample_small.
  - vm_compute. reflexivity.
  - vm_compute. reflexivity.
  - assert (w' = disk2) as ->; [|done]. unfold disk2. by rewrite He.
Defined.

Lemma disk2_holds : represents dir0 (fs disk2) {[(31%Z, key1) := sample_ldo]}.
Proof.
  destruct (WriteObject_ok alone dir0 alone_mkdir dir0_ok ∅ disk0 bucket1 key1 sample_ldo
    (header_bytes (alloc sample_ldo) ++ lit "mmdata!") bucket_dir1 disk1) as (w' & He & Hr & _).
  - exact disk0_empty.
  - exact bucket1_wf.
  - exact key1_ok.
  - exact disk1_eq.
  - exact sample_ldo_ok.
  - exact sample_small.
  - vm_compute. reflexivity.
  - vm_compute. reflexivity.
  - assert (w' = disk2) as ->; [|done]. unfold disk2. by rewrite He.
Qed.

Lemma disk2_again : genBucketPath alone dir0 bucket1 disk2 = (Ok bucket_dir1, disk2).
Proof. apply (genBucketPath_again alone dir0 alone_mkdir dir0_ok); [exact bucket1_wf|]. vm_compute. reflexivity. Qed.

Lemma disk2_clean : clean dir0 (fs disk2) bucket1.
Proof.
  assert (fs disk2 = fs_save (fs disk1) (file_path dir0 bucket1 key1) (header_bytes (alloc sample_ldo) ++ lit "mmdata!"))
    as -> by (vm_compute; reflexivity).
  apply save_clean; [exact dir0_ok|exact bucket1_wf|exact bucket1_wf|exact key1_ok|].
  intros n c Hn. cbn [fs_stat tree_fs].
  rewrite (tree_stat_app _ _ _ _ _ (components_below dir0 (Bucket.GetHex bucket1) n ltac:(by exists (lit "/data"))
    (proj1 (hex_ok bucket1 bucket1_wf)) Hn)).
  assert (fs disk1 = <[ [lit "data"; lit "0x1f"] := Dir ]> {[ [lit "data"] := Dir ]}) as ->
    by (vm_compute; reflexivity).
  by rewrite lookup_insert_ne, lookup_singleton_ne.
Qed.

(** Witness for [pio_lists_matches]: the rows that begin with "row". *)
Lemma pio_lists_witness :
  ∃ found, ListObjects alone dir0 bucket1 (mkKey (lit "row*") (lit "*")) oc_empty disk2
    = (Ok (KELPIE_OK, oc_AppendAll oc_empty (mkOC found.*1 found.*2)), disk2) ∧ (key1, 15%Z) ∈ found.
Proof.
  destruct (pio_lists_matches alone dir0 alone_mkdir dir0_ok {[(31%Z, key1) := sample_ldo]} disk2 bucket1
    (mkKey (lit "row*") (lit "*")) oc_empty bucket_dir1 disk2
    [lit "."; lit ".."; file_name key1]) as (found & Hl & _ & Hin).
  - exact disk2_holds.
  - intros b k [o Ho]. apply lookup_singleton_Some in Ho as [[= <- <-] _]. exact key1_ok.
  - exact bucket1_wf.
  - exact disk2_again.
  - exact disk2_clean.
  - vm_compute. reflexivity.
  - exists found. split; [exact Hl|]. apply Hin. split; [vm_compute; reflexivity|].
    exists sample_ldo. split; [apply lookup_singleton_eq|vm_compute; reflexivity].
Defined.

(** A valid key whose file name the disk does not take: the write is reported as good, and the
    object is not there. *)
Definition long_key : Key := mkKey (replicate 250 "a"%char) [].

Example long_key_lost :
  key_ok long_key ∧ (WriteObject alone dir0 bucket1 long_key sample_ldo disk0).1 = Ok KELPIE_OK ∧
  (ReadObject alone [] dir0 bucket1 long_key (WriteObject alone dir0 bucket1 long_key sample_ldo disk0).2).1
  = Ok (KELPIE_ENOENT, None).
Proof. split; [split; vm_compute; lia|]. split; vm_compute; reflexivity. Qed.

(** One file that is not the driver's, with a name of one character, and the bucket cannot be
    listed. *)
Example foreign_file_breaks_listing :
  (ListObjects alone dir0 bucket1 (mkKey (lit "*") (lit "*")) oc_empty
     (mkWorld (fs_save (fs disk2) (lit "/data/0x1f/x") []) no_stats)).1 = Throw RuntimeError.
Proof. vm_compute. reflexivity. Qed.

(** [GetInfo] leaves the header out of the size, the listing counts it. *)
Example sizes_differ :
  (GetInfo alone dir0 bucket1 key1 disk2).1 = Ok (KELPIE_OK, mkInfo 0 7 0 0 InDisk) ∧
  (ListObjects alone dir0 bucket1 key1 oc_empty disk2).1 = Ok (KELPIE_OK, mkOC [key1] [15%Z]).
Proof. split; vm_compute; reflexivity. Qed.

(** A directory that is not a bucket's gives a bucket by the hash of its name. *)
Example stray_directory_is_a_bucket :
  (getBucketNames dir0 (mkWorld (<[ [lit "data"; lit "tmp"] := Dir ]> (fs disk2)) no_stats)).1
  = Ok (merge_sort bucket_le [bucket1; Bucket.mk (hash32 (lit "tmp"))]).
Proof. vm_compute. reflexivity. Qed.

(** * The constructor *)

(** A driver that is built has a path that ends in a slash. *)
Lemma new_pio_path {F} `{PosixFS F} others getenv settings (s : F) p s' :
  new_pio others getenv settings s = (Ok p, s') → ends_in_slash p.
Proof.
  unfold new_pio, GetPathFromComponentSettings. generalize (GetItemFromComponentSettings getenv (lit "path")
    (keep_settings [lit "path"; lit "path.env_name"] settings)) as v. intros v.
  destruct (last v) as [c|] eqn:Hl.
  - apply last_Some in Hl as [v' Hv].
    assert (Hp : ∀ q, ends_in_slash q →
      (if q =s? [] then (Throw RuntimeError, s)
       else match find_or_make others 3 0 q s with (Ok _, s1) => (Ok q, s1) | (Throw e, s1) => (Throw e, s1) end)
      = (Ok p, s') → ends_in_slash p).
    { intros q Hq. case_bool_decide; [done|]. destruct (find_or_make _ _ _ _ _) as [[]]; [|done].
      by intros [= <- _]. }
    destruct (decide (c = "/"%char)) as [Hc|Hc].
    + rewrite (bool_decide_eq_true_2 (c = _)) by done. apply Hp. exists v'. by rewrite Hv, Hc.
    + rewrite (bool_decide_eq_false_2 (c = _)) by done. apply Hp. by exists v.
  - apply last_None in Hl as ->. done.
Qed.
