(* ===== verification/IomLevelDB.v ===== *)
(** The storage driver on LevelDB (src/src/kelpie/ioms/IomLevelDB.cpp).

    The database is an interface, [LevelDB], with what its documentation says of [Get] and of
    [Write] with a batch of puts.  A database per bucket is opened at the first use of the bucket
    and kept in [bmap_].  The counters of the base class change with successful calls only. *)
From S2P Require Import Prelude StringHelpers Identifiers DataObject LdoBytes Key KelpieTypes.
From S2P Require Import LocalKVRow LocalKV IomRegistry.

(** * The database *)

Class LevelDB (B : Type) := {
  db_open : str → option B;                          (** [DB::Open]; [None]: the status is not ok *)
  db_Get : B → str → option str;                     (** [Get]; [None]: the status is not ok *)
  db_Write : B → list (str * str) → option B;        (** [Write] of a batch of puts *)
  db_all : B → list (str * str)                      (** what an iterator visits *)
}.

(** The last value a batch puts under a name. *)
Definition batch_get (batch : list (str * str)) (n : str) : option str :=
  snd <$> last (filter (λ kv, kv.1 = n) batch).

Class LevelDBLaws (B : Type) `{LevelDB B} := {
  Get_Write d d' batch n :
    db_Write d batch = Some d' →
    db_Get d' n = match batch_get batch n with Some v => Some v | None => db_Get d n end
}.

(** * The driver *)

Section driver.
Context {B : Type} `{LevelDB B}.
Context (garbage : str).

Record ldb_iom := mkLdb { path_ : str; bmap_ : gmap str B; stats : iom_stats }.

Definition new_ldb (new_settings : gmap str str) : outcome ldb_iom :=
  let settings := keep_settings [lit "path"; lit "unique"] new_settings in
  match settings !! lit "path" with
  | None => Throw RuntimeError
  | Some p =>
      let path := p ++ lit "/" in
      let path := match settings !! lit "unique" with Some u => path ++ u ++ lit "/" | None => path end in
      Ok (mkLdb path ∅ no_stats)
  end.

Definition bucketToDB (bkt : Bucket.t) (i : ldb_iom) : outcome (B * ldb_iom) :=
  match bmap_ i !! Bucket.GetHex bkt with
  | Some db => Ok (db, i)
  | None =>
      match db_open (path_ i ++ Bucket.GetHex bkt) with
      | None => Throw RuntimeError
      | Some db => Ok (db, mkLdb (path_ i) (<[Bucket.GetHex bkt := db]> (bmap_ i)) (stats i))
      end
  end.

(** [ldo_info_struct]: type, meta size, data size. *)
Definition lis_bytes (a : Allocation) : str :=
  le 2 (type_id a) ++ le 2 (meta_bytes a) ++ le 4 (data_bytes a).

(** The puts for one object. *)
Definition object_puts (key : Key) (ldo : ldo_obj) : outcome (list (str * str)) :=
  ldo_slice ← mem_read (user ldo) 0 (GetUserSize (Some (alloc ldo)));
  Ok [(key_str key ++ lit ".buffer", ldo_slice); (key_str key ++ lit ".info", lis_bytes (alloc ldo))].

Fixpoint pack_batch (kvpairs : list (Key * ldo_obj)) : outcome (list (str * str)) :=
  match kvpairs with
  | [] => Ok []
  | (k, o) :: kvpairs' => b ← object_puts k o; bs ← pack_batch kvpairs'; Ok (b ++ bs)
  end.

Definition wr_amt (batch : list (str * str)) : Z := foldr (λ kv n, (zlen kv.2 + n)%Z) 0%Z batch.

(** [false]: a [runtime_error], which the caller catches.  A database that was opened stays open
    when the write fails. *)
Definition internal_WriteObject (bucket : Bucket.t) (kvpairs : list (Key * ldo_obj)) (i : ldb_iom)
    : outcome (bool * ldb_iom) :=
  match bucketToDB bucket i with
  | Throw RuntimeError => Ok (false, i)
  | Throw e => Throw e
  | Ok (db, i) =>
      batch ← pack_batch kvpairs;
      match db_Write db batch with
      | None => Ok (false, i)
      | Some db' =>
          let st := stats i in
          Ok (true, mkLdb (path_ i) (<[Bucket.GetHex bucket := db']> (bmap_ i))
            (mkStats (s32 (stat_wr_requests st + Z.of_nat (length kvpairs)))
               (s32 (stat_wr_bytes st + wr_amt batch)) (stat_rd_requests st) (stat_rd_bytes st)
               (stat_rd_hits st) (stat_rd_misses st)))
      end
  end.

Definition WriteObject (bucket : Bucket.t) (key : Key) (ldo : ldo_obj) (i : ldb_iom)
    : outcome (rc_t * ldb_iom) :=
  '(ok, i') ← internal_WriteObject bucket [(key, ldo)] i;
  Ok (if ok : bool then 0%Z else 1%Z, i').

(** The object from the two values; the structure is read from the bytes of [info]. *)
Definition rebuild (buf info : str) : outcome ldo_obj :=
  lis ← mem_read info 0 8;
  let ldo_type := unle (take 2 lis) in
  let ldo_meta_size := unle (take 2 (drop 2 lis)) in
  let ldo_data_size := unle (take 4 (drop 4 lis)) in
  restore garbage ldo_type ldo_meta_size ldo_data_size buf.

Definition ReadObject (bucket : Bucket.t) (key : Key) (i : ldb_iom)
    : outcome (rc_t * option ldo_obj * ldb_iom) :=
  '(db, i) ← bucketToDB bucket i;
  match db_Get db (key_str key ++ lit ".buffer"), db_Get db (key_str key ++ lit ".info") with
  | Some buf, Some info =>
      o ← rebuild buf info;
      let st := stats i in
      Ok (KELPIE_OK, Some o, mkLdb (path_ i) (bmap_ i)
        (mkStats (stat_wr_requests st) (stat_wr_bytes st) (s32 (stat_rd_requests st + 1))
           (s32 (stat_rd_bytes st + (8 + zlen buf))) (stat_rd_hits st) (stat_rd_misses st)))
  | _, _ => Ok (KELPIE_ENOENT, None, i)
  end.

Definition GetInfo (bucket : Bucket.t) (key : Key) (i : ldb_iom)
    : outcome (rc_t * object_info_t * ldb_iom) :=
  '(db, i) ← bucketToDB bucket i;
  match db_Get db (key_str key) with
  | Some val => Ok (KELPIE_OK, mkInfo 0 (zlen val) 0 0 InDisk, i)
  | None => Ok (KELPIE_ENOENT, Wipe, i)
  end.

(** The rows of the page of a bucket: [bmap_[bucket]] is null for one that is not open. *)
Definition web_bucket (bucket : str) (i : ldb_iom) : outcome (list (str * str)) :=
  match bmap_ i !! bucket with
  | None => Throw Undefined
  | Some db =>
      Ok ((lit "Key", lit "Size") :: map (λ kv, (kv.1, show_dec (zlen kv.2))) (db_all db))
  end.
End driver.
Arguments ldb_iom B : clear implicits.
Arguments mkLdb {B} _ _ _.

(** * Names *)

Lemma key_str_inj k k' :
  "|"%char ∉ K1 k → "|"%char ∉ K1 k' → key_str k = key_str k' → k = k'.
Proof.
  destruct k as [a b], k' as [a' b']. unfold key_str. simpl. revert a'.
  induction a as [|c a IH]; intros [|c' a'] Ha Ha' He; simpl in He.
  - by injection He as ->.
  - injection He as <- _. by destruct Ha'; left.
  - injection He as -> _. by destruct Ha; left.
  - injection He as -> He. assert (mkKey a b = mkKey a' b') as [= -> ->] by (apply IH; set_solver). done.
Qed.

Definition buffer_name (k : Key) : str := key_str k ++ lit ".buffer".
Definition info_name (k : Key) : str := key_str k ++ lit ".info".

Lemma snoc_ne (a b : str) x y : x ≠ y → a ++ [x] ≠ b ++ [y].
Proof. intros Hxy He. apply app_inj_tail in He as [_ ?]. done. Qed.

Lemma buffer_info_ne k k' : buffer_name k ≠ info_name k'.
Proof.
  unfold buffer_name, info_name.
  change (lit ".buffer") with (lit ".buffe" ++ ["r"%char]). change (lit ".info") with (lit ".inf" ++ ["o"%char]).
  rewrite !app_assoc. by apply snoc_ne.
Qed.

(** * What is written is read *)

Section laws.
Context {B : Type} `{LevelDBLaws B} (garbage : str).
Implicit Types i : ldb_iom B.

Lemma object_puts_ok k o :
  ldo_ok o → ∃ body rest, user o = body ++ rest ∧
    zlen body = (meta_bytes (alloc o) + data_bytes (alloc o))%Z ∧
    object_puts k o = Ok [(buffer_name k, body); (info_name k, lis_bytes (alloc o))].
Proof.
  intros (body & rest & Hu & Hz & Hr)%user_slice_ok. exists body, rest. split_and!; [done..|].
  unfold object_puts. by rewrite Hr.
Qed.

(** The two values of an object make the object. *)
Lemma ldb_rebuild_ok o body rest :
  ldo_ok o → user o = body ++ rest → zlen body = (meta_bytes (alloc o) + data_bytes (alloc o))%Z →
  (zlen body + 60 < 2 ^ 32)%Z →
  ∃ o', rebuild garbage body (lis_bytes (alloc o)) = Ok o' ∧ ldo_ok o' ∧ same_object o' o.
Proof.
  intros Ho Hu Hb Hs. pose proof Ho as [Hp Ht Hm Hd Ha Hl Hf].
  destruct (restore_ok garbage o body rest) as (o' & Hr & Hok); [done..|]. exists o'. split; [|done].
  unfold rebuild. rewrite (read_middle' _ [] (lis_bytes (alloc o)) []); [|by rewrite app_nil_r|done|].
  2:{ unfold lis_bytes. rewrite !zlen_app, !zlen_le. done. }
  cbn [mbind outcome_bind]. cbn zeta. unfold lis_bytes.
  rewrite !take_le, !drop_le, !take_le.
  rewrite (drop_drop_app 2 2) by apply length_le. rewrite drop_le.
  rewrite <-(app_nil_r (le 4 _)), take_le, !unle_le by lia. exact Hr.
Qed.

(** What [ReadObject] gives, without the counters. *)
Definition reads (b : Bucket.t) (k : Key) (i : ldb_iom B) : outcome (rc_t * option ldo_obj) :=
  fst <$> ReadObject garbage b k i.

(** Two states with the same values for an object read the same. *)
Lemma reads_same b b' k k' i i' db db' i1 i1' :
  bucketToDB b i = Ok (db, i1) → bucketToDB b' i' = Ok (db', i1') →
  db_Get db' (buffer_name k') = db_Get db (buffer_name k) →
  db_Get db' (info_name k') = db_Get db (info_name k) →
  reads b' k' i' = reads b k i.
Proof.
  unfold reads, ReadObject. intros -> -> Hb Hi. cbn [mbind outcome_bind]. unfold buffer_name, info_name in *.
  rewrite Hb, Hi. destruct (db_Get db (key_str k ++ lit ".buffer")) as [buf|]; [|done].
  destruct (db_Get db (key_str k ++ lit ".info")) as [info|]; [|done].
  by destruct (rebuild garbage buf info).
Qed.

Lemma batch_get_two n1 v1 n2 v2 n :
  n1 ≠ n2 →
  batch_get [(n1, v1); (n2, v2)] n = if decide (n = n1) then Some v1 else if decide (n = n2) then Some v2 else None.
Proof.
  intros Hne. unfold batch_get. rewrite !filter_cons, filter_nil. simpl.
  destruct (decide (n1 = n)), (decide (n2 = n)), (decide (n = n1)), (decide (n = n2)); naive_solver.
Qed.

Lemma Get_put k o body db db' n :
  db_Write db [(buffer_name k, body); (info_name k, lis_bytes (alloc o))] = Some db' →
  db_Get db' n = if decide (n = buffer_name k) then Some body
                 else if decide (n = info_name k) then Some (lis_bytes (alloc o)) else db_Get db n.
Proof.
  intros Hw. rewrite (Get_Write _ _ _ _ Hw), batch_get_two by apply buffer_info_ne.
  destruct (decide _); [done|]. by destruct (decide _).
Qed.

Lemma bucketToDB_known b i db i1 :
  bucketToDB b i = Ok (db, i1) →
  bmap_ i1 !! Bucket.GetHex b = Some db ∧
  ∀ b', Bucket.GetHex b' ≠ Bucket.GetHex b →
        bmap_ i1 !! Bucket.GetHex b' = bmap_ i !! Bucket.GetHex b' ∧ path_ i1 = path_ i.
Proof.
  unfold bucketToDB. destruct (bmap_ i !! _) eqn:He; [intros [= <- <-]; done|].
  destruct (db_open _); [|done]. intros [= <- <-]. cbn [bmap_ path_]. split; [apply lookup_insert_eq|].
  intros b' Hne. by rewrite lookup_insert_ne.
Qed.

(** The state a good write leaves. *)
Lemma WriteObject_db b k o i db i1 batch db' :
  bucketToDB b i = Ok (db, i1) → pack_batch [(k, o)] = Ok batch → db_Write db batch = Some db' →
  ∃ st, WriteObject b k o i = Ok (0%Z, mkLdb (path_ i1) (<[Bucket.GetHex b := db']> (bmap_ i1)) st).
Proof.
  intros Hd Hp Hw. unfold WriteObject, internal_WriteObject. rewrite Hd, Hp. cbn [mbind outcome_bind].
  rewrite Hw. cbn [mbind outcome_bind]. by eexists.
Qed.

Lemma pack_one k o body :
  object_puts k o = Ok [(buffer_name k, body); (info_name k, lis_bytes (alloc o))] →
  pack_batch [(k, o)] = Ok [(buffer_name k, body); (info_name k, lis_bytes (alloc o))].
Proof. intros Hp. cbn [pack_batch]. rewrite Hp. done. Qed.

Lemma bucketToDB_set b i st db' :
  bucketToDB b (mkLdb (path_ i) (<[Bucket.GetHex b := db']> (bmap_ i)) st) =
  Ok (db', mkLdb (path_ i) (<[Bucket.GetHex b := db']> (bmap_ i)) st).
Proof. unfold bucketToDB. cbn [bmap_]. by rewrite lookup_insert_eq. Qed.

(** The same, when the bucket is another one: a new database is opened under the same name. *)
Lemma reads_other_bucket b' k i i' :
  bmap_ i' !! Bucket.GetHex b' = bmap_ i !! Bucket.GetHex b' → path_ i' = path_ i →
  reads b' k i' = reads b' k i.
Proof.
  intros Hb Hp. destruct (bucketToDB b' i) as [[db i1]|e] eqn:Hd.
  - assert (∃ i1', bucketToDB b' i' = Ok (db, i1')) as [i1' Hd'].
    { unfold bucketToDB in *. rewrite Hb, Hp. destruct (bmap_ i !! _); [injection Hd as -> _; by eexists|].
      destruct (db_open _); [|done]. injection Hd as -> _. by eexists. }
    by apply (reads_same _ _ _ _ _ _ _ _ _ _ Hd Hd').
  - assert (bucketToDB b' i' = Throw e) as Hd'.
    { unfold bucketToDB in *. rewrite Hb, Hp. destruct (bmap_ i !! _); [done|].
      by destruct (db_open _). }
    unfold reads, ReadObject. by rewrite Hd, Hd'.
Qed.

(** A write that the database takes is read back as the object it was, and every other key of the
    bucket (keys are told apart by their text) and every other bucket reads as before. *)
Theorem ldb_write_read b k o i db i1 body db' :
  ldo_ok o → (meta_bytes (alloc o) + data_bytes (alloc o) + 60 < 2 ^ 32)%Z →
  bucketToDB b i = Ok (db, i1) → object_puts k o = Ok body → db_Write db body = Some db' →
  ∃ i', WriteObject b k o i = Ok (KELPIE_OK, i') ∧
    (∃ o', reads b k i' = Ok (KELPIE_OK, Some o') ∧ ldo_ok o' ∧ same_object o' o) ∧
    (∀ k', key_str k' ≠ key_str k → reads b k' i' = reads b k' i) ∧
    (∀ b' k', Bucket.wf b → Bucket.wf b' → b' ≠ b → reads b' k' i' = reads b' k' i).
Proof.
  intros Ho Hs Hd Hp Hw. destruct (object_puts_ok k o Ho) as (bd & rest & Hu & Hz & Hp').
  assert (body = [(buffer_name k, bd); (info_name k, lis_bytes (alloc o))]) as -> by congruence.
  destruct (WriteObject_db b k o i db i1 _ db' Hd (pack_one _ _ _ Hp') Hw) as [st He].
  destruct (bucketToDB_known b i db i1 Hd) as [Hk Ho1].
  pose proof (bucketToDB_set b i1 st db') as Hset.
  eexists. split; [exact He|]. split_and!.
  - destruct (ldb_rebuild_ok o bd rest Ho Hu Hz) as (o' & Hr & Hok & Hsame); [lia|].
    exists o'. split; [|done]. unfold reads, ReadObject. rewrite Hset. cbn [mbind outcome_bind].
    fold (buffer_name k) (info_name k). rewrite !(Get_put k o bd db db' _ Hw).
    rewrite (decide_True _ _ (eq_refl (buffer_name k))).
    rewrite (decide_False (P := info_name k = _)) by (intros E; by apply (buffer_info_ne k k)).
    rewrite decide_True by done. by rewrite Hr.
  - intros k' Hne. apply (reads_same b b k' k' i _ db db' i1 _ Hd Hset); rewrite (Get_put k o bd db db' _ Hw).
    + rewrite decide_False by (intros E%app_inv_tail; done). rewrite decide_False; [done|]. apply buffer_info_ne.
    + rewrite decide_False by (intros E; by apply (buffer_info_ne k k')).
      rewrite decide_False; [done|]. by intros E%app_inv_tail.
  - intros b' k' Hb Hb' Hne.
    assert (Bucket.GetHex b' ≠ Bucket.GetHex b) as Hx.
    { intros E. apply Hne. by apply hex_inj. }
    destruct (Ho1 b' Hx) as [H1 H2].
    apply reads_other_bucket; cbn [bmap_ path_]; [by rewrite lookup_insert_ne|done].
Qed.

(** The names of a database that holds objects only. *)
Definition objects_only (db : B) : Prop :=
  ∀ n v, db_Get db n = Some v → lit ".buffer" `suffix_of` n ∨ lit ".info" `suffix_of` n.

(** [GetInfo] asks for the bare key, which no write uses: of an object that was just written and
    can be read it says that it does not exist. *)
Theorem ldb_info_misses b k o i db i1 puts db' :
  ldo_ok o → (meta_bytes (alloc o) + data_bytes (alloc o) + 60 < 2 ^ 32)%Z →
  bucketToDB b i = Ok (db, i1) → object_puts k o = Ok puts → db_Write db puts = Some db' →
  objects_only db → ¬ lit ".buffer" `suffix_of` key_str k → ¬ lit ".info" `suffix_of` key_str k →
  ∃ i', WriteObject b k o i = Ok (KELPIE_OK, i') ∧ GetInfo b k i' = Ok (KELPIE_ENOENT, Wipe, i').
Proof.
  intros Ho Hs Hd Hp Hw Hdb H1 H2. destruct (object_puts_ok k o Ho) as (bd & rest & Hu & Hz & Hp').
  assert (puts = [(buffer_name k, bd); (info_name k, lis_bytes (alloc o))]) as -> by congruence.
  destruct (WriteObject_db b k o i db i1 _ db' Hd (pack_one _ _ _ Hp') Hw) as [st He].
  eexists. split; [exact He|]. unfold GetInfo. rewrite bucketToDB_set. cbn [mbind outcome_bind].
  rewrite (Get_put k o bd db db' _ Hw).
  rewrite decide_False by (intros E; apply H1; exists (key_str k); exact E).
  rewrite decide_False by (intros E; apply H2; exists (key_str k); exact E).
  destruct (db_Get db (key_str k)) eqn:Hg; [|done]. by destruct (Hdb _ _ Hg).
Qed.

(** Writes keep a database to objects. *)
Lemma objects_only_write k o puts db db' :
  object_puts k o = Ok puts → db_Write db puts = Some db' → objects_only db → objects_only db'.
Proof.
  unfold object_puts. intros Hp Hw Hdb n v. unbind. subst puts. rewrite (Get_put k o _ db db' _ Hw).
  destruct (decide (n = buffer_name k)) as [->|_]; [left; by eexists|].
  destruct (decide (n = info_name k)) as [->|_]; [right; by eexists|]. apply Hdb.
Qed.

(** A write that fails is reported with the code of a request that is under way. *)
Lemma write_failure_code b k o i db i1 puts :
  bucketToDB b i = Ok (db, i1) → object_puts k o = Ok puts → db_Write db puts = None →
  WriteObject b k o i = Ok (KELPIE_WAITING, i1).
Proof.
  intros Hd Hp Hw. unfold WriteObject, internal_WriteObject. rewrite Hd. cbn [pack_batch]. rewrite Hp.
  cbn [mbind outcome_bind]. rewrite app_nil_r, Hw. done.
Qed.

(** A bucket that cannot be opened: a write gives a code, a read throws. *)
Lemma bucket_not_opened b k o i :
  bucketToDB b i = Throw RuntimeError →
  WriteObject b k o i = Ok (KELPIE_WAITING, i) ∧ ReadObject garbage b k i = Throw RuntimeError ∧
  GetInfo b k i = Throw RuntimeError.
Proof.
  intros Hd. unfold WriteObject, internal_WriteObject, ReadObject, GetInfo. rewrite Hd. done.
Qed.

(** Two keys with the same text are one object. *)
Lemma same_text_same_object b k k' i : key_str k = key_str k' → reads b k i = reads b k' i.
Proof. intros He. unfold reads, ReadObject. by rewrite He. Qed.
End laws.

(** * A driver in use *)

(** Databases as maps; [Open] finds them empty. *)
#[global] Instance map_leveldb : LevelDB (gmap str str) := {
  db_open p := if p =s? lit "/bad/0x1f" then None else Some ∅;
  db_Get d n := d !! n;
  db_Write d batch := Some (fold_left (λ d kv, <[kv.1 := kv.2]> d) batch d);
  db_all d := entries d
}.

#[global] Instance map_leveldb_laws : LevelDBLaws (gmap str str).
Proof.
  constructor. intros d d' batch n. cbn [db_Write db_Get map_leveldb]. intros [= <-]. revert d.
  induction batch as [|[n0 v0] batch IH]; intros d; [done|]. cbn [fold_left fst snd]. rewrite IH.
  unfold batch_get. rewrite filter_cons. cbn [fst]. destruct (decide (n0 = n)) as [->|Hne].
  - destruct (filter _ batch) as [|x l] eqn:Hf; simpl; [by rewrite lookup_insert_eq|].
    rewrite last_cons. by destruct (last l).
  - destruct (last _); [done|]. simpl. by rewrite lookup_insert_ne.
Qed.

Definition ldb0 : ldb_iom (gmap str str) := mkLdb (lit "/db/") ∅ no_stats.
Definition bucket_a : Bucket.t := Bucket.mk 31.
Definition key_a : Key := mkKey (lit "a|b") (lit "c").
Definition key_a' : Key := mkKey (lit "a") (lit "b|c").
Definition puts_a : list (str * str) :=
  [(lit "a|b|c.buffer", lit "mmdata!"); (lit "a|b|c.info", lis_bytes (alloc sample_ldo))].
Definition db_a : gmap str str := fold_left (λ d kv, <[kv.1 := kv.2]> d) puts_a ∅.
Definition ldb1 : ldb_iom (gmap str str) :=
  mkLdb (lit "/db/") {[lit "0x1f" := ∅]} no_stats.

Lemma ldb_write_read_witness :
  ∃ i' o', WriteObject bucket_a key_a sample_ldo ldb0 = Ok (KELPIE_OK, i') ∧
    reads (lit "old") bucket_a key_a i' = Ok (KELPIE_OK, Some o') ∧ same_object o' sample_ldo.
Proof.
  destruct (ldb_write_read (lit "old") bucket_a key_a sample_ldo ldb0 ∅ ldb1 puts_a db_a)
    as (i' & Hw & (o' & Hr & _ & Hs) & _ & _).
  - exact sample_ldo_ok.
  - vm_compute. reflexivity.
  - vm_compute. reflexivity.
  - vm_compute. reflexivity.
  - vm_compute. reflexivity.
  - by exists i', o'.
Defined.

Lemma ldb_info_witness :
  ∃ i', WriteObject bucket_a key_a sample_ldo ldb0 = Ok (KELPIE_OK, i') ∧
    GetInfo bucket_a key_a i' = Ok (KELPIE_ENOENT, Wipe, i').
Proof.
  apply (ldb_info_misses bucket_a key_a sample_ldo ldb0 ∅ ldb1 puts_a db_a).
  - exact sample_ldo_ok.
  - vm_compute. reflexivity.
  - vm_compute. reflexivity.
  - vm_compute. reflexivity.
  - vm_compute. reflexivity.
  - intros n v Hn. cbn in Hn. by rewrite lookup_empty in Hn.
  - intros [x Hx%(f_equal length)]. rewrite length_app in Hx. cbn in Hx. lia.
  - intros [x Hx]. apply (f_equal last) in Hx. rewrite last_app in Hx. done.
Defined.

(** Two different keys with the text "a|b|c": the second write replaces the first. *)
Example keys_collide :
  key_a ≠ key_a' ∧
  ('(_, i1) ← WriteObject bucket_a key_a sample_ldo ldb0;
   '(_, i2) ← WriteObject bucket_a key_a'
                (LdoBytes.mkLdo (mkAllocation 1 67 4 [] 9 2 5) (lit "MMDATA?----")) i1;
   '(rc, o) ← reads [] bucket_a key_a i2;
   Ok (rc, match o with Some o => type_id (alloc o) | None => (-1)%Z end)) = Ok (KELPIE_OK, 9%Z).
Proof. split; [done|]. vm_compute. reflexivity. Qed.

(** A page for a bucket that is not open follows a null pointer. *)
Example web_unknown_bucket : web_bucket (lit "0x20") ldb1 = Throw Undefined.
Proof. vm_compute. reflexivity. Qed.
