(* ===== verification/IomHDF5.v ===== *)
(** The storage driver on HDF5 (src/src/kelpie/ioms/IomHDF5.cpp).

    The library is an interface, [HDF5]: one file with groups and data sets by name, a data set
    with a payload and attributes.  A group per bucket is made at its first use.  The results of
    [H5Dwrite], [H5Acreate] and [H5Awrite] are not looked at, as in the code. *)
From S2P Require Import Prelude StringHelpers Identifiers DataObject LdoBytes Key KelpieTypes.
From S2P Require Import LocalKVRow LocalKV IomRegistry.

(** * The library *)

Class HDF5 (H : Type) := {
  H5Fcreate : str → H;                            (** the file, emptied; any failure shows up later *)
  H5types : bool;                                 (** the types and spaces of the driver can be made *)
  H5Lexists : H → str → bool;                     (** [H5Lexists(...) > 0] *)
  H5Gcreate : H → str → option H;
  H5Dcreate : H → str → option H;
  H5Dopen : H → str → bool;
  H5Dwrite : H → str → str → H;                   (** the payload of a data set *)
  H5Dread : H → str → option str;                 (** [None]: the descriptor is left unset *)
  H5Acreate : H → str → str → option H;           (** data set and attribute *)
  H5Awrite : H → str → str → Z → H;               (** the value, after the conversion of types *)
  H5Aread : H → str → str → option Z              (** [None]: [H5Aopen_by_name] fails *)
}.

(** The names of the data sets of the driver: a group of the root and one name in it.  The library
    follows slashes and dots as a file system does; these names have none to follow. *)
Definition simple (x : str) : Prop := x ≠ [] ∧ "/"%char ∉ x ∧ x ≠ lit "." ∧ x ≠ lit "..".

Definition dset_name (n : str) : Prop :=
  ∃ g k, n = lit "/" ++ g ++ lit "/" ++ k ∧ simple g ∧ simple k.

(** What can be seen of a data set: is it there, its payload, its attributes. *)
Definition same_dset {H} `{HDF5 H} (s s' : H) (n : str) : Prop :=
  H5Dopen s' n = H5Dopen s n ∧ H5Dread s' n = H5Dread s n ∧ ∀ a, H5Aread s' n a = H5Aread s n a.

(** What the library documents of the data sets and attributes of one file. *)
Class HDF5Laws (H : Type) `{HDF5 H} := {
  Gcreate_frame s g s' n : simple g → dset_name n → H5Gcreate s (lit "/" ++ g) = Some s' → same_dset s s' n;
  Dcreate_fresh s n s' :
    dset_name n → H5Dcreate s n = Some s' → H5Dopen s' n = true ∧ ∀ a, H5Aread s' n a = None;
  Dcreate_frame s n s' n' :
    dset_name n → dset_name n' → n' ≠ n → H5Dcreate s n = Some s' → same_dset s s' n';
  Dopen_exists s n : dset_name n → H5Dopen s n = true → H5Lexists s n = true;
  Dwrite_read s n p :
    dset_name n → H5Dopen s n = true →
    H5Dread (H5Dwrite s n p) n = Some p ∧ H5Dopen (H5Dwrite s n p) n = true ∧
    ∀ a, H5Aread (H5Dwrite s n p) n a = H5Aread s n a;
  Dwrite_frame s n p n' :
    dset_name n → dset_name n' → n' ≠ n → same_dset s (H5Dwrite s n p) n';
  (** an attribute is created once *)
  Acreate_twice s n a v : dset_name n → H5Aread s n a = Some v → H5Acreate s n a = None;
  Acreate_once s n a : dset_name n → H5Dopen s n = true → H5Aread s n a = None → is_Some (H5Acreate s n a);
  Awrite_read s n a s' v :
    dset_name n → H5Acreate s n a = Some s' →
    H5Aread (H5Awrite s' n a v) n a = Some v ∧ H5Dopen (H5Awrite s' n a v) n = H5Dopen s n ∧
    H5Dread (H5Awrite s' n a v) n = H5Dread s n ∧
    ∀ a', a' ≠ a → H5Aread (H5Awrite s' n a v) n a' = H5Aread s n a';
  Awrite_frame s n a s' v n' :
    dset_name n → dset_name n' → n' ≠ n → H5Acreate s n a = Some s' → same_dset s (H5Awrite s' n a v) n';
  (** names are relative to the root of the file *)
  relative s n :
    dset_name (lit "/" ++ n) →
    H5Dopen s n = H5Dopen s (lit "/" ++ n) ∧ H5Dread s n = H5Dread s (lit "/" ++ n) ∧
    ∀ a, H5Aread s n a = H5Aread s (lit "/" ++ n) a
}.

(** * The driver *)

Section driver.
Context {H : Type} `{HDF5 H}.
Context (garbage : str).

Record hdf5_iom := mkH5 { hfile_ : H; stats : iom_stats }.

Definition new_hdf5 (new_settings : gmap str str) : outcome hdf5_iom :=
  let settings := keep_settings [lit "path"; lit "unique"] new_settings in
  match settings !! lit "path" with
  | None => Throw RuntimeError
  | Some p =>
      let path := p ++ lit "/" in
      let path := match settings !! lit "unique" with Some u => path ++ u ++ lit "/" | None => path end in
      let f := H5Fcreate (c_str (path ++ lit "/iom.h5")) in
      if H5types then Ok (mkH5 f no_stats) else Throw RuntimeError
  end.

(** Creating an attribute and writing it; writing to an attribute that was not created fails. *)
Definition store_attr (n a : str) (v : Z) (s : H) : H :=
  match H5Acreate s n a with Some s' => H5Awrite s' n a v | None => s end.

(** The three attributes.  [H5Awrite] takes the data size for an unsigned short: it reads the first
    two bytes of the [unsigned long]. *)
Definition store_attrs (n : str) (a : Allocation) (s : H) : H :=
  store_attr n (lit "ldo-data-size") (u16 (data_bytes a))
    (store_attr n (lit "ldo-meta-size") (u16 (meta_bytes a))
       (store_attr n (lit "ldo-type") (u16 (type_id a)) s)).

(** One object of [internal_WriteObject]: [None] is a [runtime_error]. *)
Definition write_one (grp_name : str) (key : Key) (ldo : ldo_obj) (i : hdf5_iom)
    : outcome (option hdf5_iom) :=
  let dset_name := c_str (grp_name ++ lit "/" ++ key_str key) in
  let s := hfile_ i in
  let dset :=
    if negb (H5Lexists s dset_name) then H5Dcreate s dset_name
    else if H5Dopen s dset_name then Some s else None in
  match dset with
  | None => Ok None
  | Some s =>
      payload ← mem_read (user ldo) 0 (GetUserSize (Some (alloc ldo)));
      let s := H5Dwrite s dset_name payload in
      let st := stats i in
      Ok (Some (mkH5 (store_attrs dset_name (alloc ldo) s)
        (mkStats (s32 (stat_wr_requests st + 1)) (s32 (stat_wr_bytes st + zlen payload + 2 + 2 + 8))
           (stat_rd_requests st) (stat_rd_bytes st) (stat_rd_hits st) (stat_rd_misses st))))
  end.

Fixpoint write_all (grp_name : str) (kvpairs : list (Key * ldo_obj)) (i : hdf5_iom)
    : outcome (bool * hdf5_iom) :=
  match kvpairs with
  | [] => Ok (true, i)
  | (k, o) :: kvpairs' =>
      r ← write_one grp_name k o i;
      match r with
      | Some i' => write_all grp_name kvpairs' i'
      | None => Ok (false, i)
      end
  end.

(** [false]: a [runtime_error], which the caller catches. *)
Definition internal_WriteObject (bucket : Bucket.t) (kvpairs : list (Key * ldo_obj)) (i : hdf5_iom)
    : outcome (bool * hdf5_iom) :=
  let grp_name := lit "/" ++ Bucket.GetHex bucket in
  let s := hfile_ i in
  match (if negb (H5Lexists s (c_str grp_name)) then H5Gcreate s (c_str grp_name) else Some s) with
  | None => Ok (false, i)
  | Some s => write_all grp_name kvpairs (mkH5 s (stats i))
  end.

Definition WriteObject (bucket : Bucket.t) (key : Key) (ldo : ldo_obj) (i : hdf5_iom)
    : outcome (rc_t * hdf5_iom) :=
  '(ok, i') ← internal_WriteObject bucket [(key, ldo)] i;
  Ok (if ok : bool then 0%Z else 1%Z, i').

(** The object of the given sizes and type with the payload copied in. *)
Definition rebuild (ldo_type ldo_meta_size ldo_data_size : Z) (payload : str) : outcome ldo_obj :=
  restore garbage ldo_type (u16 ldo_meta_size) (u32 ldo_data_size) payload.

Definition ReadObject (bucket : Bucket.t) (key : Key) (i : hdf5_iom)
    : outcome (rc_t * option ldo_obj * hdf5_iom) :=
  let dset_name := c_str (Bucket.GetHex bucket ++ lit "/" ++ key_str key) in
  let s := hfile_ i in
  if H5Dopen s dset_name then
    match H5Dread s dset_name with
    | None => Throw Undefined
    | Some payload =>
        match H5Aread s dset_name (lit "ldo-meta-size"), H5Aread s dset_name (lit "ldo-data-size"),
              H5Aread s dset_name (lit "ldo-type") with
        | Some m, Some d, Some t =>
            o ← rebuild t m d payload;
            let st := stats i in
            Ok (KELPIE_OK, Some o, mkH5 s
              (mkStats (stat_wr_requests st) (stat_wr_bytes st) (s32 (stat_rd_requests st + 1))
                 (s32 (stat_rd_bytes st + zlen payload + (2 + 8 + 2))) (stat_rd_hits st) (stat_rd_misses st)))
        | _, _, _ => Throw RuntimeError
        end
    end
  else Ok (KELPIE_ENOENT, None, i).

Definition GetInfo (bucket : Bucket.t) (key : Key) (i : hdf5_iom) : rc_t * object_info_t :=
  let target := c_str (lit "/" ++ Bucket.GetHex bucket ++ lit "/" ++ key_str key) in
  match H5Aread (hfile_ i) target (lit "ldo-meta-size"), H5Aread (hfile_ i) target (lit "ldo-data-size") with
  | Some m, Some d => (KELPIE_OK, mkInfo 0 (u64 (m + d)) 0 0 InDisk)
  | _, _ => (KELPIE_ENOENT, Wipe)
  end.
End driver.
Arguments hdf5_iom H : clear implicits.
Arguments mkH5 {H} _ _.

(** * What is written is read *)

Section laws.
Context {H : Type} {HH : HDF5 H} {HL : HDF5Laws H} (garbage : str).
Implicit Types (s : H) (i : hdf5_iom H).

Lemma same_dset_trans s1 s2 s3 n : same_dset s1 s2 n → same_dset s2 s3 n → same_dset s1 s3 n.
Proof. intros (A1 & A2 & A3) (B1 & B2 & B3). split_and!; [congruence..|]. intros a. by rewrite B3. Qed.

Lemma store_attr_new s n a v :
  dset_name n → H5Dopen s n = true → H5Aread s n a = None →
  let s' := store_attr n a v s in
  H5Aread s' n a = Some v ∧ H5Dopen s' n = true ∧ H5Dread s' n = H5Dread s n ∧
  (∀ a', a' ≠ a → H5Aread s' n a' = H5Aread s n a') ∧
  ∀ n', dset_name n' → n' ≠ n → same_dset s s' n'.
Proof.
  intros Hn Ho Ha. unfold store_attr. destruct (Acreate_once s n a Hn Ho Ha) as [s1 Hc]. rewrite Hc. cbn zeta.
  destruct (Awrite_read s n a s1 v Hn Hc) as (Hr & H1 & H2 & H3).
  split_and!; [done|congruence|done..|]. intros n' Hn' Hne. by apply (Awrite_frame s n a s1).
Qed.

Lemma store_attrs_new s n al :
  dset_name n → H5Dopen s n = true → (∀ a, H5Aread s n a = None) →
  let s' := store_attrs n al s in
  H5Aread s' n (lit "ldo-type") = Some (u16 (type_id al)) ∧
  H5Aread s' n (lit "ldo-meta-size") = Some (u16 (meta_bytes al)) ∧
  H5Aread s' n (lit "ldo-data-size") = Some (u16 (data_bytes al)) ∧
  H5Dopen s' n = true ∧ H5Dread s' n = H5Dread s n ∧
  ∀ n', dset_name n' → n' ≠ n → same_dset s s' n'.
Proof.
  intros Hn Ho Ha. unfold store_attrs.
  destruct (store_attr_new s n (lit "ldo-type") (u16 (type_id al)) Hn Ho (Ha _)) as (T1 & T2 & T3 & T4 & T5).
  set (s1 := store_attr n (lit "ldo-type") _ s) in *.
  destruct (store_attr_new s1 n (lit "ldo-meta-size") (u16 (meta_bytes al)) Hn T2) as (M1 & M2 & M3 & M4 & M5);
    [by rewrite T4|].
  set (s2 := store_attr n (lit "ldo-meta-size") _ s1) in *.
  destruct (store_attr_new s2 n (lit "ldo-data-size") (u16 (data_bytes al)) Hn M2) as (D1 & D2 & D3 & D4 & D5);
    [by rewrite M4, T4|].
  cbn zeta. split_and!; [by rewrite D4, M4|by rewrite D4|done|done|congruence|].
  intros n' Hn' Hne. eapply same_dset_trans; [|by apply D5]. eapply same_dset_trans; [by apply T5|by apply M5].
Qed.

(** Attributes that are there stay as they are. *)
Lemma store_attrs_old s n al :
  dset_name n →
  (∀ a, a ∈ [lit "ldo-type"; lit "ldo-meta-size"; lit "ldo-data-size"] → is_Some (H5Aread s n a)) →
  store_attrs n al s = s.
Proof.
  intros Hn Ha. unfold store_attrs, store_attr.
  destruct (Ha (lit "ldo-type")) as [t Ht]; [set_solver|]. rewrite (Acreate_twice _ _ _ _ Hn Ht).
  destruct (Ha (lit "ldo-meta-size")) as [m Hm]; [set_solver|]. rewrite (Acreate_twice _ _ _ _ Hn Hm).
  destruct (Ha (lit "ldo-data-size")) as [d Hd]; [set_solver|]. by rewrite (Acreate_twice _ _ _ _ Hn Hd).
Qed.

(** The name of an object's data set, and the file once the bucket has its group. *)
Definition dset (b : Bucket.t) (k : Key) : str := lit "/" ++ Bucket.GetHex b ++ lit "/" ++ key_str k.

Definition with_group (b : Bucket.t) s : option H :=
  if H5Lexists s (lit "/" ++ Bucket.GetHex b) then Some s else H5Gcreate s (lit "/" ++ Bucket.GetHex b).

Definition plain (b : Bucket.t) (k : Key) : Prop :=
  Bucket.wf b ∧ nul ∉ key_str k ∧ "/"%char ∉ key_str k.

Lemma hex_simple b : Bucket.wf b → nul ∉ Bucket.GetHex b ∧ simple (Bucket.GetHex b).
Proof.
  intros Hb. pose proof (hex_plain b (λ c, negb (c =c? nul) && negb (c =c? "/"%char)) Hb eq_refl eq_refl) as Hall.
  rewrite Forall_forall in Hall. split; [intros Hin; apply Hall in Hin; by vm_compute in Hin|].
  split_and!; [done|intros Hin; apply Hall in Hin; by vm_compute in Hin|done|done].
Qed.

Lemma dset_is_name b k : plain b k → dset_name (dset b k).
Proof.
  intros (Hb & _ & Hk). exists (Bucket.GetHex b), (key_str k). split_and!; [done|by apply hex_simple|].
  assert ("|"%char ∈ key_str k) as Hbar by (unfold key_str; set_solver).
  split_and!; [|done|..]; intros E; rewrite E in Hbar; vm_compute in Hbar; set_solver.
Qed.

Lemma dset_plain b k :
  plain b k →
  c_str ((lit "/" ++ Bucket.GetHex b) ++ lit "/" ++ key_str k) = dset b k ∧
  c_str (Bucket.GetHex b ++ lit "/" ++ key_str k) = Bucket.GetHex b ++ lit "/" ++ key_str k ∧
  c_str (lit "/" ++ Bucket.GetHex b) = lit "/" ++ Bucket.GetHex b ∧ c_str (dset b k) = dset b k.
Proof.
  intros ([Hb _]%hex_simple & Hk & _). unfold dset. rewrite <-app_assoc.
  assert (nul ∉ lit "/") by (by apply (bool_decide_unpack _)).
  split_and!; apply c_str_plain; rewrite !elem_of_app; tauto.
Qed.

(** Names tell buckets and keys apart, keys by their text. *)
Lemma dset_inj b k b' k' :
  length (Bucket.GetHex b) = length (Bucket.GetHex b') → dset b k = dset b' k' →
  Bucket.GetHex b = Bucket.GetHex b' ∧ key_str k = key_str k'.
Proof.
  intros Hl He. unfold dset in He. apply (inj (lit "/" ++.)) in He.
  apply app_inj_1 in He as [? He]; [|done]. by apply (inj (lit "/" ++.)) in He.
Qed.


(** What [ReadObject] gives, without the counters. *)
Definition reads (b : Bucket.t) (k : Key) i : outcome (rc_t * option ldo_obj) :=
  fst <$> ReadObject garbage b k i.

Lemma reads_dset b k i :
  plain b k →
  reads b k i =
  if H5Dopen (hfile_ i) (dset b k) then
    match H5Dread (hfile_ i) (dset b k) with
    | None => Throw Undefined
    | Some payload =>
        match H5Aread (hfile_ i) (dset b k) (lit "ldo-meta-size"),
              H5Aread (hfile_ i) (dset b k) (lit "ldo-data-size"),
              H5Aread (hfile_ i) (dset b k) (lit "ldo-type") with
        | Some m, Some d, Some t => o ← rebuild garbage t m d payload; Ok (KELPIE_OK, Some o)
        | _, _, _ => Throw RuntimeError
        end
    end
  else Ok (KELPIE_ENOENT, None).
Proof.
  intros Hp. destruct (dset_plain b k Hp) as (_ & Hc & _). unfold reads, ReadObject. rewrite Hc.
  destruct (relative (hfile_ i) (Bucket.GetHex b ++ lit "/" ++ key_str k)) as (-> & -> & Ha);
    [by apply dset_is_name|].
  rewrite !Ha. fold (dset b k). repeat (case_match; try done). by destruct (rebuild _ _ _ _ _).
Qed.

Lemma h5_reads_same b k i i' : plain b k → same_dset (hfile_ i) (hfile_ i') (dset b k) → reads b k i' = reads b k i.
Proof. intros Hp (Ho & Hr & Ha). rewrite !reads_dset by done. by rewrite Ho, Hr, !Ha. Qed.

Lemma GetInfo_dset b k i :
  plain b k →
  GetInfo b k i =
  match H5Aread (hfile_ i) (dset b k) (lit "ldo-meta-size"), H5Aread (hfile_ i) (dset b k) (lit "ldo-data-size") with
  | Some m, Some d => (KELPIE_OK, mkInfo 0 (u64 (m + d)) 0 0 InDisk)
  | _, _ => (KELPIE_ENOENT, Wipe)
  end.
Proof. intros Hp. destruct (dset_plain b k Hp) as (_ & _ & _ & Hc). unfold GetInfo.
  change (lit "/" ++ Bucket.GetHex b ++ lit "/" ++ key_str k) with (dset b k). by rewrite Hc. Qed.

Lemma with_group_frame b s s1 n : Bucket.wf b → dset_name n → with_group b s = Some s1 → same_dset s s1 n.
Proof.
  intros [_ Hb]%hex_simple Hn. unfold with_group. destruct (H5Lexists _ _); [by intros [= <-]|].
  by apply Gcreate_frame.
Qed.

(** [WriteObject] from the file that has the group of the bucket. *)
Lemma WriteObject_unfold b k o i s1 s2 body :
  plain b k → with_group b (hfile_ i) = Some s1 →
  mem_read (user o) 0 (GetUserSize (Some (alloc o))) = Ok body →
  (if H5Lexists s1 (dset b k) then if H5Dopen s1 (dset b k) then Some s1 else None
   else H5Dcreate s1 (dset b k)) = Some s2 →
  ∃ st, WriteObject b k o i
        = Ok (KELPIE_OK, mkH5 (store_attrs (dset b k) (alloc o) (H5Dwrite s2 (dset b k) body)) st).
Proof.
  intros Hp Hg Hb Hs. destruct (dset_plain b k Hp) as (Hc1 & _ & Hc3 & _).
  unfold WriteObject, internal_WriteObject, with_group in *. rewrite Hc3.
  assert ((if negb (H5Lexists (hfile_ i) (lit "/" ++ Bucket.GetHex b))
           then H5Gcreate (hfile_ i) (lit "/" ++ Bucket.GetHex b) else Some (hfile_ i)) = Some s1) as ->
    by (by destruct (H5Lexists (hfile_ i) _)).
  cbn [write_all]. unfold write_one. cbn [hfile_ stats]. rewrite Hc1.
  assert ((if negb (H5Lexists s1 (dset b k)) then H5Dcreate s1 (dset b k)
           else if H5Dopen s1 (dset b k) then Some s1 else None) = Some s2) as ->
    by (by destruct (H5Lexists s1 _)).
  rewrite Hb. cbn [mbind outcome_bind]. by eexists.
Qed.

(** The first write of an object. *)
Lemma first_write b k o i s1 s2 :
  plain b k → ldo_ok o → with_group b (hfile_ i) = Some s1 →
  H5Lexists s1 (dset b k) = false → H5Dcreate s1 (dset b k) = Some s2 →
  ∃ i' body rest, WriteObject b k o i = Ok (KELPIE_OK, i') ∧ user o = body ++ rest ∧
    zlen body = (meta_bytes (alloc o) + data_bytes (alloc o))%Z ∧
    H5Aread (hfile_ i') (dset b k) (lit "ldo-type") = Some (u16 (type_id (alloc o))) ∧
    H5Aread (hfile_ i') (dset b k) (lit "ldo-meta-size") = Some (u16 (meta_bytes (alloc o))) ∧
    H5Aread (hfile_ i') (dset b k) (lit "ldo-data-size") = Some (u16 (data_bytes (alloc o))) ∧
    H5Dopen (hfile_ i') (dset b k) = true ∧ H5Dread (hfile_ i') (dset b k) = Some body ∧
    ∀ n, dset_name n → n ≠ dset b k → same_dset (hfile_ i) (hfile_ i') n.
Proof.
  intros Hp Ho Hg Hx Hc. pose proof (dset_is_name b k Hp) as Hn. destruct (user_slice_ok o Ho) as (body & rest & Hu & Hz & Hr).
  destruct (WriteObject_unfold b k o i s1 s2 body Hp Hg Hr) as [st Hw]; [by rewrite Hx|].
  destruct (Dcreate_fresh s1 _ s2 Hn Hc) as [C1 C2].
  destruct (Dwrite_read s2 _ body Hn C1) as (W1 & W2 & W3).
  destruct (store_attrs_new (H5Dwrite s2 (dset b k) body) (dset b k) (alloc o) Hn W2)
    as (A1 & A2 & A3 & A4 & A5 & A6); [intros a; by rewrite W3|].
  eexists _, body, rest. split; [exact Hw|]. cbn [hfile_]. split_and!; [done..|congruence|].
  intros n Hn' Hne. eapply same_dset_trans; [|by apply A6]. eapply same_dset_trans; [|by apply Dwrite_frame].
  destruct Hp as [Hb _]. eapply same_dset_trans; [by eapply with_group_frame|by apply (Dcreate_frame s1 (dset b k))].
Qed.

(** An object of less than 64 KB that is stored under a new key is read back as it was, its size
    is reported, and all other objects read as before. *)
Theorem hdf5_write_read b k o i s1 s2 :
  plain b k → ldo_ok o → (data_bytes (alloc o) < 2 ^ 16)%Z → with_group b (hfile_ i) = Some s1 →
  H5Lexists s1 (dset b k) = false → H5Dcreate s1 (dset b k) = Some s2 →
  ∃ i', WriteObject b k o i = Ok (KELPIE_OK, i') ∧
    (∃ o', reads b k i' = Ok (KELPIE_OK, Some o') ∧ ldo_ok o' ∧ same_object o' o) ∧
    GetInfo b k i' = (KELPIE_OK, mkInfo 0 (meta_bytes (alloc o) + data_bytes (alloc o)) 0 0 InDisk) ∧
    ∀ b' k', plain b' k' → dset b' k' ≠ dset b k → reads b' k' i' = reads b' k' i.
Proof.
  intros Hp Ho Hd Hg Hx Hc.
  destruct (first_write b k o i s1 s2) as (i' & body & rest & Hw & Hu & Hz & T & M & D & O & R & F); [done..|].
  pose proof Ho as [_ Ht Hm Hd' _ _ _]. rewrite !wrap_id in T, M, D by (unfold in_width; lia).
  exists i'. split; [done|]. split_and!.
  - destruct (restore_ok garbage o body rest) as (o' & Hr & Hok & Hs); [done..|lia|].
    exists o'. split; [|done]. rewrite reads_dset, O, R, M, D, T by done. unfold rebuild.
    rewrite !wrap_id by (unfold in_width; lia). by rewrite Hr.
  - rewrite GetInfo_dset, M, D by done. rewrite wrap_id by (unfold in_width; lia). done.
  - intros b' k' Hp' Hne. apply h5_reads_same; [done|]. apply F; [by apply dset_is_name|done].
Qed.

(** C37: An object with a data section of 64 KB or more, under a new key without a slash: the write is
    reported as good, but the data size that is kept is the low 16 bits of it ([GetInfo] adds the
    meta size to them), and a read copies the payload past the end of the object it makes. *)
Theorem hdf5_large_overflow b k o i s1 s2 :
  plain b k → ldo_ok o → (2 ^ 16 ≤ data_bytes (alloc o))%Z → with_group b (hfile_ i) = Some s1 →
  H5Lexists s1 (dset b k) = false → H5Dcreate s1 (dset b k) = Some s2 →
  ∃ i', WriteObject b k o i = Ok (KELPIE_OK, i') ∧ reads b k i' = Throw Undefined ∧
    (GetInfo b k i').2 =
      mkInfo 0 (meta_bytes (alloc o) + data_bytes (alloc o) mod 2 ^ 16) 0 0 InDisk.
Proof.
  intros Hp Ho Hd Hg Hx Hc.
  destruct (first_write b k o i s1 s2) as (i' & body & rest & Hw & Hu & Hz & T & M & D & O & R & F); [done..|].
  pose proof Ho as [_ Ht Hm Hd' _ _ _]. rewrite wrap_id in M by (unfold in_width; lia).
  pose proof (Z.mod_pos_bound (data_bytes (alloc o)) (2 ^ 16) ltac:(lia)) as Hmod.
  pose proof (Z.div_mod (data_bytes (alloc o)) (2 ^ 16) ltac:(lia)) as Hdm.
  assert (1 ≤ data_bytes (alloc o) / 2 ^ 16)%Z by (apply Z.div_le_lower_bound; lia).
  exists i'. split; [done|]. split.
  - rewrite reads_dset, O, R, M, D, T by done. unfold rebuild.
    rewrite (wrap_id 16 (meta_bytes _)) by (unfold in_width; lia). unfold wrap at 2 3.
    rewrite (Z.mod_small _ (2 ^ 32)) by lia. rewrite restore_overflow by lia. done.
  - rewrite GetInfo_dset, M, D by done. cbn [snd]. unfold wrap at 2. by rewrite wrap_id by (unfold in_width; lia).
Qed.

(** An object that is stored again keeps the type and sizes of the first one: only the payload
    changes. *)
Theorem hdf5_overwrite_stale b k o i t m d :
  plain b k → ldo_ok o → with_group b (hfile_ i) = Some (hfile_ i) →
  H5Dopen (hfile_ i) (dset b k) = true →
  H5Aread (hfile_ i) (dset b k) (lit "ldo-type") = Some t →
  H5Aread (hfile_ i) (dset b k) (lit "ldo-meta-size") = Some m →
  H5Aread (hfile_ i) (dset b k) (lit "ldo-data-size") = Some d →
  ∃ i' body rest, WriteObject b k o i = Ok (KELPIE_OK, i') ∧ user o = body ++ rest ∧
    zlen body = (meta_bytes (alloc o) + data_bytes (alloc o))%Z ∧
    GetInfo b k i' = GetInfo b k i ∧
    reads b k i' = (o' ← rebuild garbage t m d body; Ok (KELPIE_OK, Some o')).
Proof.
  intros Hp Ho Hg Hopen T M D. destruct (user_slice_ok o Ho) as (body & rest & Hu & Hz & Hr).
  pose proof (dset_is_name b k Hp) as Hn. pose proof (Dopen_exists _ _ Hn Hopen) as Hex.
  destruct (WriteObject_unfold b k o i (hfile_ i) (hfile_ i) body Hp Hg Hr) as [st Hw]; [by rewrite Hex, Hopen|].
  destruct (Dwrite_read (hfile_ i) _ body Hn Hopen) as (W1 & W2 & W3).
  assert (store_attrs (dset b k) (alloc o) (H5Dwrite (hfile_ i) (dset b k) body)
          = H5Dwrite (hfile_ i) (dset b k) body) as Hst.
  { apply store_attrs_old; [done|]. intros a Ha. rewrite W3.
    repeat (apply elem_of_cons in Ha as [->|Ha]; [by eexists|]). by apply elem_of_nil in Ha. }
  rewrite Hst in Hw. eexists _, body, rest. split; [exact Hw|]. split_and!; [done..| |].
  - rewrite !GetInfo_dset by done. cbn [hfile_]. by rewrite !W3.
  - rewrite reads_dset by done. cbn [hfile_]. by rewrite W2, W1, !W3, M, D, T.
Qed.
End laws.

(** * A file in memory *)

Record h5file := mkFile { groups : gset str; dsets : gmap str (option str * gmap str Z) }.

Definition norm (n : str) : str := drop_while (λ c, c =c? "/"%char) n.

Definition h5_exists (s : h5file) (n : str) : bool :=
  bool_decide (norm n ∈ groups s) || bool_decide (is_Some (dsets s !! norm n)).

(** A data set is made in a group that is there, with a name of one part. *)
Definition h5_home (s : h5file) (n : str) : bool :=
  match break_at (λ c, c =c? "/"%char) (norm n) with
  | (g, Some (_, k)) => bool_decide (g ∈ groups s) && bool_decide ("/"%char ∉ k)
  | (_, None) => false
  end.

#[global] Instance file_hdf5 : HDF5 h5file := {
  H5Fcreate _ := mkFile ∅ ∅;
  H5types := true;
  H5Lexists := h5_exists;
  H5Gcreate s n := if h5_exists s n then None else Some (mkFile ({[norm n]} ∪ groups s) (dsets s));
  H5Dcreate s n :=
    if h5_exists s n || negb (h5_home s n) then None
    else Some (mkFile (groups s) (<[norm n := (None, ∅)]> (dsets s)));
  H5Dopen s n := bool_decide (is_Some (dsets s !! norm n));
  H5Dwrite s n p := mkFile (groups s) (alter (λ d, (Some p, d.2)) (norm n) (dsets s));
  H5Dread s n := dsets s !! norm n ≫= fst;
  H5Acreate s n a :=
    match dsets s !! norm n with
    | Some (p, attrs) =>
        match attrs !! a with
        | None => Some (mkFile (groups s) (<[norm n := (p, <[a := 0%Z]> attrs)]> (dsets s)))
        | Some _ => None
        end
    | None => None
    end;
  H5Awrite s n a v := mkFile (groups s) (alter (λ d, (d.1, <[a := v]> d.2)) (norm n) (dsets s));
  H5Aread s n a := dsets s !! norm n ≫= λ d, d.2 !! a
}.

Lemma norm_plain g k : simple g → norm (g ++ k) = g ++ k.
Proof.
  intros (Hg & Hs & _). destruct g as [|c g]; [done|]. unfold norm. cbn [app drop_while].
  rewrite bool_decide_eq_false_2; [done|]. intros ->. apply Hs. by left.
Qed.

Lemma norm_slash n : norm (lit "/" ++ n) = norm n.
Proof. unfold norm. change (lit "/" ++ n) with ("/"%char :: n). cbn [drop_while]. by rewrite bool_decide_eq_true_2. Qed.

Lemma norm_name n : dset_name n → n = lit "/" ++ norm n.
Proof. intros (g & k & -> & Hg & _). by rewrite norm_slash, norm_plain. Qed.

Lemma norm_ne n n' : dset_name n → dset_name n' → n' ≠ n → norm n ≠ norm n'.
Proof. intros Hn%norm_name Hn'%norm_name Hne E. congruence. Qed.

(** A change of one entry is not seen through another name. *)
Lemma same_dset_other (s s' : h5file) n :
  dsets s' !! norm n = dsets s !! norm n → same_dset s s' n.
Proof. intros He. unfold same_dset. cbn. by rewrite He. Qed.

#[global] Instance file_laws : HDF5Laws h5file.
Proof.
  constructor.
  - intros s g s' n _ _. cbn. destruct (h5_exists _ _); [done|]. intros [= <-]. by apply same_dset_other.
  - intros s n s' _. cbn. destruct (_ || _); [done|]. intros [= <-]. cbn. rewrite lookup_insert_eq. done.
  - intros s n s' n' Hn Hn' Hne. cbn. destruct (_ || _); [done|]. intros [= <-]. apply same_dset_other. cbn.
    by rewrite lookup_insert_ne by by apply norm_ne.
  - intros s n _. cbn. unfold h5_exists. intros ->. apply orb_true_r.
  - intros s n p _. cbn. intros [[p0 at0] Hd]%bool_decide_eq_true. rewrite lookup_alter_eq, Hd. done.
  - intros s n p n' Hn Hn' Hne. apply same_dset_other. cbn. by rewrite lookup_alter_ne by by apply norm_ne.
  - intros s n a v _. cbn. destruct (dsets s !! norm n) as [[p at0]|]; [|done]. cbn. by intros ->.
  - intros s n a _. cbn. intros [[p at0] Hd]%bool_decide_eq_true. rewrite Hd. cbn. intros ->. done.
  - intros s n a s' v _. cbn. destruct (dsets s !! norm n) as [[p at0]|] eqn:Hd; [|done].
    destruct (at0 !! a); [done|]. intros [= <-]. cbn. rewrite lookup_alter_eq, lookup_insert_eq. cbn.
    rewrite lookup_insert_eq. split_and!; [done..|]. intros a' Hne. by rewrite !lookup_insert_ne.
  - intros s n a s' v n' Hn Hn' Hne. cbn. destruct (dsets s !! norm n) as [[p at0]|]; [|done].
    destruct (at0 !! a); [done|]. intros [= <-]. apply same_dset_other. cbn.
    by rewrite lookup_alter_ne, lookup_insert_ne by by apply norm_ne.
  - intros s n _. cbn [H5Dopen H5Dread H5Aread file_hdf5]. by rewrite norm_slash.
Qed.

(** * A driver in use *)

Definition h5_new : hdf5_iom h5file := mkH5 (mkFile ∅ ∅) no_stats.
Definition bucket_h : Bucket.t := Bucket.mk 31.
Definition key_h : Key := mkKey (lit "row") (lit "col").
Definition file_g : h5file := mkFile {[lit "0x1f"]} ∅.
Definition file_d : h5file := mkFile {[lit "0x1f"]} {[lit "0x1f/row|col" := (None, ∅)]}.

(** The file after an object of type 7 with two bytes of meta data and five of data was stored. *)
Definition file_w : h5file :=
  mkFile {[lit "0x1f"]}
    {[lit "0x1f/row|col" := (Some (lit "mmdata!"),
        <[lit "ldo-type" := 7%Z]> (<[lit "ldo-meta-size" := 2%Z]> {[lit "ldo-data-size" := 5%Z]}))]}.

(** An object of 65537 bytes of data, in the memory [u]. *)
Definition large_ldo (u : str) : ldo_obj := LdoBytes.mkLdo (mkAllocation 1 (56 + 65540) 3 [] 7 0 65537) u.
Definition large_memory : str := replicate (Z.to_nat 65540) "x"%char.

Lemma plain_h : plain bucket_h key_h.
Proof.
  split_and!; [unfold Bucket.wf, in_width; simpl; lia|by apply (bool_decide_unpack _)|by apply (bool_decide_unpack _)].
Qed.

Lemma large_ldo_ok u : zlen u = 65540%Z → ldo_ok (large_ldo u).
Proof.
  intros Hz. constructor; cbn [large_ldo alloc user user_data_segments type_id meta_bytes data_bytes allocated_bytes];
    unfold offsetof_user; rewrite ?Hz; done || lia.
Qed.

Lemma zlen_large : zlen large_memory = 65540%Z.
Proof. unfold zlen, large_memory. rewrite length_replicate. by apply Z2Nat.id. Qed.

Lemma hdf5_write_read_witness :
  ∃ i' o', WriteObject bucket_h key_h sample_ldo h5_new = Ok (KELPIE_OK, i') ∧
    reads (lit "old") bucket_h key_h i' = Ok (KELPIE_OK, Some o') ∧ same_object o' sample_ldo.
Proof.
  destruct (hdf5_write_read (lit "old") bucket_h key_h sample_ldo h5_new file_g file_d plain_h)
    as (i' & Hw & (o' & Hr & _ & Hs) & _).
  - exact sample_ldo_ok.
  - vm_compute. reflexivity.
  - vm_compute. reflexivity.
  - vm_compute. reflexivity.
  - vm_compute. reflexivity.
  - by exists i', o'.
Defined.

Lemma hdf5_large_witness :
  ∃ i', WriteObject bucket_h key_h (large_ldo large_memory) h5_new = Ok (KELPIE_OK, i') ∧
    reads (lit "old") bucket_h key_h i' = Throw Undefined.
Proof.
  destruct (hdf5_large_overflow (lit "old") bucket_h key_h (large_ldo large_memory) h5_new file_g file_d plain_h
    (large_ldo_ok _ zlen_large)) as (i' & Hw & Hr & _).
  - cbn [large_ldo alloc data_bytes]. lia.
  - vm_compute. reflexivity.
  - vm_compute. reflexivity.
  - vm_compute. reflexivity.
  - exists i'. split; [exact Hw|exact Hr].
Defined.

(** The second object under a key: type 9, three bytes; it reads as an object of type 7 with two
    bytes of meta data and five of data. *)
Lemma hdf5_overwrite_witness :
  ∃ i', WriteObject bucket_h key_h (LdoBytes.mkLdo (mkAllocation 1 60 1 [] 9 0 3) (lit "new-")) (mkH5 file_w no_stats)
        = Ok (KELPIE_OK, i') ∧
    (GetInfo bucket_h key_h i').2 = mkInfo 0 7 0 0 InDisk.
Proof.
  destruct (hdf5_overwrite_stale (lit "old") bucket_h key_h
    (LdoBytes.mkLdo (mkAllocation 1 60 1 [] 9 0 3) (lit "new-")) (mkH5 file_w no_stats) 7 2 5 plain_h)
    as (i' & body & rest & Hw & _ & _ & Hi & _).
  - constructor; vm_compute; done.
  - vm_compute. reflexivity.
  - vm_compute. reflexivity.
  - vm_compute. reflexivity.
  - vm_compute. reflexivity.
  - vm_compute. reflexivity.
  - exists i'. split; [done|]. rewrite Hi. vm_compute. reflexivity.
Defined.

(** A label with a slash names a group that is not there: the write gives code 1. *)
Example slash_in_key :
  fst <$> WriteObject bucket_h (mkKey (lit "a/b") (lit "c")) sample_ldo h5_new = Ok KELPIE_WAITING.
Proof. vm_compute. reflexivity. Qed.
